(* ===== verification/_CoqProject ===== *)
-Q . S2P
Prelude.v
CString.v
EnvSet.v
Timer.v
TimerParse.v
TimerParseProps.v
TimerText.v
TimerDoc.v
Task.v
TaskDB.v
TaskDBSpec.v
TaskDBProps.v
TimerDB.v
TimerDBProps.v
Lexers.v
ConfConv.v
TimerPrint.v
Ini.v
GlobOpt.v
GlobOptProps.v
Cgroup.v
ConfParse.v
ConfTask.v
ConfTaskProps.v
ConfGlob.v
ConfGlobProps.v
FSeries.v
Dispatch.v
DispatchProps.v
RtimMsg.v
RtimExec.v
RtimProps.v
RtimCtl.v
RtimAdd.v
RtimShdn.v
ThrPool.v
SockCom.v
NotiServ.v
NotiProps.v
Client.v
ClientProps.v
ServGuard.v
CgroupFs.v
CgroupProps.v
Launch.v
LaunchProps.v
DList.v
ElosDep.v
ElosProps.v
ElosDemo.v
ElosLog.v
ConfFrame.v
Sig.v
SigProps.v
SigConf.v
MinSetup.v
Boot.v
BootProps.v
MainLoop.v
BootDemo.v
Ctl.v
CtlProps.v
Logio.v
MachineId.v
