(* ===== verification/Prelude.v ===== *)
(** * crinit: a verification library for the configurable rootfs init daemon

    crinit starts and supervises the tasks of a Linux system.  Configuration
    files are read into tasks (confparse.c, confhdl.c, confconv.c, lexers.re,
    task.c) that are stored in a task database (taskdb.c).  The database decides
    which tasks are ready and starts a dispatcher thread for each (procdip.c);
    the thread runs the commands, reports the state of the task back, and thereby
    fulfils dependencies of other tasks, which the database then starts.  Timers
    (timer.c, timer_parser.re, timerdb.c) and elos events fulfil dependencies from
    the outside.  machine-id-gen.c is a program of its own that writes the id elos events
    carry.  Clients control the daemon with commands: the client library
    (crinit-client.c, sockcom.c) sends them over a socket, the threads of the server
    (notiserv.c), which belong to a pool (thrpool.c), check who asks, execute them
    (rtimcmd.c) and send the response.  A command of a task with a user, groups or a
    cgroup of its own is started through a launcher (crinit-launch.c, capabilities.c,
    cgroup.c).  Global options (globopt.c) are shared by all threads and switch
    optional features (optfeat.c); environment sets (envset.c) carry variables.
    main() (crinit.c) puts the parts together: it mounts the system directories
    (minsetup.c), reads the series, starts the signature checks (sig.c) when the kernel
    command line asks for them, loads the tasks into the database and runs the loop
    that starts them.

    ** How the C code is modelled

    A C function that touches shared state is a computation [M S A] in the state
    [S] of the daemon (this file): it returns, waits forever for a mutex
    ([Block]), or executes something undefined ([Undef]: freed memory, NULL, an
    overflow, a mutex that is not held).  Every call of the C library that can
    fail is a [fallible] step that fails when the state says so, so a theorem
    over all states is a theorem over all patterns of failures; [quiet] states
    are those in which nothing fails.  [wp] is total correctness (the call
    returns), [wlp] partial correctness.  Functions without shared state are
    Rocq functions.  Integers are Z with their wrap-around written out; arrays
    are lists with out-of-range accesses as [Undef]; a pointer into an array that
    can move carries the generation of the array.  Loops that are not structural
    have fuel that is the length of what they consume, and the lemmas next to
    them show that it is enough.

    State is accessed through type classes ([Faulty], [CgroupQuery],
    [TaskDBServices], [TimerState], [OptState], [FeatureServices],
    [ConfFiles], [ConfEnv], [SeriesEnv], [DirEnv], [RtimEnv], [DispatchServices], [PoolState],
    [SockState], [ServEnv], [CgState], [ElosState], [LogServices], [Mbedtls], [SigState],
    [BootEnv], [LogState]): each states what a component needs of its environment.  [ConfFramed]
    says what reading the configuration leaves alone, [SigLinked] that the checks of the
    configuration parser are those of sig.c, [SigApart] that only sig.c changes its keys.
    The laws of a class are the contract between two components; the instance
    [timed] discharges what the database expects of the timer pool with the model
    of timerdb.c, and [bare], [timed], [optd], [confd], [demo_daemon],
    [demo_server], [cgd], [process], [elosd], [bootd] and [logd] are the concrete states in which the witnesses run.

    ** Files

    - Prelude: effects, rules, failing calls, integers, strings, tactics.
    - EnvSet (envset.c): the NULL-terminated array in its allocation; set, get and
      copy refine a finite map ([env_map]); a key with an equals sign leaves the
      array.
    - Timer (timer.c, crinitTimerSetWeekdays of timer_parser.re): calendar
      arithmetic; the next time of a timer is sound and later than the last one,
      and exact for a time of day on a set of weekdays;
      where the code deviates from its documentation.  The search tries 41 dates,
      as the code does.
    - TimerParse (timer_parser.re): the rules of the re2c block as data, an engine for
      them (all matches, the longest first, look-ahead and tags) and the setters; every
      goto is to a later condition, so that eleven steps are enough.  TimerParseProps:
      what is accepted is in range, and the lemmas on matching.  TimerText, TimerDoc:
      the documented form as a syntax ([timer_spec]) with its meaning ([documented]);
      its texts are read as documented, and from such a text to the next time.
      TimerPrint: printing a definition within its array.
    - Task (task.h, task.c, ioredir.c, the copies of cgroup.c): tasks, their deep
      copy and its error paths.
    - TaskDB (taskdb.h, taskdb.c): every operation of the database.  A slot of the
      task set is live, cleared or dangling.
    - TaskDBSpec: rules for the operations, the abstract database ([db_map]), the
      invariant ([db_ok], [stable]) and the effect of every operation.
    - TaskDBProps: readiness, spawning, retries, dependencies, features, export;
      refinement of a finite map by single operations and by sequences; the calls
      that break the contract.
    - TimerDB, TimerDBProps (timerdb.c): the pool as a table of reference counts
      with the descriptors of the kernel, its polling thread, and the thread's
      deadlock with itself.
    - CString: strncmp, strtok, bsearch and strcmp of the C library; bsearch in a
      sorted table is a search for the key.
    - Lexers (lexers.re): the lexers for arguments, escapes and environment
      settings, as longest-match functions that make progress.
    - ConfConv (confconv.c, the mask of capabilities.c): integers, booleans,
      argument arrays, redirections and environment settings, with round trips and
      buffer bounds.
    - Ini (deps/inih/ini.c): lines, names and values as events for a handler; what
      is written as name = value is read back.
    - GlobOpt, GlobOptProps (globopt.c, optfeat.c): the option store with the
      allocations of its strings, as a table; initialisation; the race of the
      string getter; the feature hooks.
    - Cgroup (cgroup.c): parameters, global groups and their lookup.
    - ConfParse (confparse.c, crinitFindConfigMapping() of confmap.c,
      crinitMatchQuotedConfig() of lexers.re): a file as a list of settings, and the
      round trip of a file of quoted settings.
    - ConfTask, ConfTaskProps (the task keys of confhdl.c, their table in confmap.c,
      the loader of task.c): a task under construction is a [draft]; include files
      cannot nest, cannot change the identity of a task, and single-valued keys are
      given once; what is created is well formed; a task file is read as the task it
      describes.  INCLUDE and its table refer to each other: the handler has a
      depth, and one level is enough.
    - ConfGlob, ConfGlobProps (the series and kernel command line keys of confhdl.c,
      confmap.c, crinitLoadSeriesConf(), kcmdline.c, crinitKernelCmdlineLex()):
      a series file has the effect of its assignments on the table of options.
    - FSeries (fseries.c, crinitLoadTasks()): the task files of a series, from the
      TASKS list or from the task directory, exact and in order.
    - Dispatch, DispatchProps (procdip.c): redirections,
      launcher arguments, running the commands, stop commands, the thread and its
      outcome.  While a thread waits for a process, other threads run: of the
      database only the invariant ([orderly], [calm]) survives ([resumed]).
    - RtimMsg (rtimopmap.c, the messages of rtimcmd.c): operations and their names,
      commands as messages and back.
    - RtimExec (the handlers of rtimcmd.c, the inhibition of waits of procdip.c):
      the [daemon] has a task database, a configuration, the inhibition and a trace
      of what was asked of the kernel; a handler runs the operations of TaskDB on
      the first and those of ConfParse, ConfTask, ConfGlob and FSeries on the second.
    - RtimProps: every control command is answered, whatever fails.
    - RtimCtl: what ENABLE, DISABLE, RESTART, STOP and KILL do; a failed KILL leaves
      the reaping of processes inhibited.
    - RtimAdd: ADDTASK stores the task of the file; a failed ADDSERIES leaves
      spawning inhibited.
    - RtimShdn: the grace period and the order of a shutdown, whatever fails.
    - ThrPool (thrpool.c): the counters of the pool, and workers and watchdog as a
      transition system ([pool_step]) over its operations: the counts are right in
      every reachable state, and the pool does not run dry while the watchdog waits.
    - SockCom (sockcom.c): a connection is two queues of packets; a message is a
      packet with its length and a packet with its bytes.  The client runs until it
      waits for the other end, and then the other end runs.
    - NotiServ, NotiProps (notiserv.c): the [server] is the daemon with a connection
      and the pool; permissions, one turn of the thread, starting the server; a
      request and its response end to end.
    - Client, ClientProps (crinit-client.c): the calls of the library; what KILL and
      STATUS do and return from the call of the client to the database and back.
    - Ctl, CtlProps (crinit-ctl.c): the command line with getopt_long() of Launch, the
      actions on the calls of the library, and what is printed; command lines are read in
      any order, send the documented request, and kill and status from the command line
      to the database and back.
    - ServGuard: a client without privileges changes nothing, whatever it sends.
    - CgroupFs, CgroupProps (the operations of cgroup.c on files): the cgroup file
      system with its directories, the descriptors of the process and the log of
      writes; descriptors are closed whatever fails, and what is written, in which
      order.
    - Launch, LaunchProps (crinit-launch.c, capabilities.c): getopt_long(), the
      credentials of a process and the launcher as a whole; what Dispatch writes as
      arguments is read back, and the command runs with the IDs, capabilities and
      cgroup of its task or not at all.
    - DList (list.h): rings of nodes in a memory; sequences of operations refine the
      same operations on a sequence of entries.
    - ElosDep (elos-common.c, elosdep.c): loading the library of elos, connecting to
      elosd, the filters of the tasks and the listener; the lists of list.h are
      sequences here.  ElosProps: what registering a task and a turn of the listener
      do, and its deadlock without an elosd ([ElosLaws] has the documented behaviour of
      the library).  ElosDemo: a concrete state ([elosd]), witnesses, and what goes
      wrong.
    - ElosLog (eloslog.c): logging events and transmitting them, and both as a
      transition system ([log_step]) in which no event is missed.
    - ConfFrame: what reading a configuration can change ([Keeps], [ConfFramed]).
    - Sig, SigProps (sig.c, crinitBinReadAll() of common.c): the context of the
      signature checks, loading keys and checking data, with mbedtls behind [Mbedtls];
      the keys form a chain of trust that begins at the root key.
    - SigConf: with signatures required, the settings of a file that was parsed were
      signed by a key of the context.
    - MinSetup (minsetup.c): directories and mounts at start-up.
    - Boot (crinit.c, crinitTimerDBSpawn()): main() in its phases, and BootProps:
      when it reaches its loop, the tasks of the database come from signed files.
      MainLoop: the loop of main() and the other threads as a transition system
      ([loop_step]), with the wake-up it can miss.
    - BootDemo: a machine ([bootd]) that boots, witnesses, and what goes wrong.
    - Logio (logio.c): the streams, syslog and the mutex of messages; printf() with the
      text of directives as a parameter; every call is one whole line, and the two ways in
      which a message leaves the mutex locked or reads behind the prefix.
    - MachineId (machine-id-gen.c): the command line of the kernel, physical memory and the
      file; what is written, that elos finds it again, and the value that is too long.

    ** Bounds

    A task that counts failures up to INT_MAX would overflow; the theorems that
    count ask for counters below it ([can_count]).  Timer references are a size_t;
    the theorem on sequences asks for fewer than 2^64 calls.  Calendar theorems
    hold to the year 59000, where the 16-bit years of the code wrap.

    ** What is not modelled

    The messages of the other components: they do not change what the code does (Logio has
    the functions that print them).  Of mbedtls, the hash and the verification are functions.
    Of the sockets, the kernel's limits on sizes and on the backlog.
    For the dispatcher the kernel (processes, FIFOs, descriptors) is behind the laws
    of [DispatchServices]; of a process the launcher knows the
    credentials.  Concurrency is modelled where the code gives up a lock: between the
    halves of a getter, while a thread waits, in the steps of the thread pool, in those
    of the transmitter of events, and in the loop of main().  A server thread and its
    client alternate. *)

From Stdlib Require Import ZArith Lia Bool List String Ascii.
From stdpp Require Import base list strings.

#[export] Set Default Goal Selector "!".

Declare Scope crinit_scope.
Delimit Scope crinit_scope with crinit.
Open Scope crinit_scope.
Open Scope Z_scope.

(** ** Effects

    A C function that touches shared state is a function from the state to an
    [outcome]: it returns, it waits for a mutex that is not released, or it
    executes an operation the C standard leaves undefined (a read of freed
    memory, a signed overflow, a NULL dereference). *)

Inductive outcome (S A : Type) : Type :=
| Ret (a : A) (s : S)
| Block
| Undef.
Arguments Ret {S A} a s.
Arguments Block {S A}.
Arguments Undef {S A}.

Definition M (S A : Type) : Type := S → outcome S A.

#[export] Instance M_ret {S} : MRet (M S) := λ A a s, Ret a s.
#[export] Instance M_bind {S} : MBind (M S) := λ A B k m s,
  match m s with
  | Ret a s' => k a s'
  | Block => Block
  | Undef => Undef
  end.

Definition mget {S} : M S S := λ s, Ret s s.
Definition mput {S} (s : S) : M S unit := λ _, Ret tt s.
Definition mmodify {S} (f : S → S) : M S unit := λ s, Ret tt (f s).
Definition mundef {S A} : M S A := λ _, Undef.
Definition mblock {S A} : M S A := λ _, Block.

(** A loop over the elements of an array, in order. *)
Fixpoint mfor {S A} (l : list A) (body : A → M S unit) : M S unit :=
  match l with
  | [] => mret tt
  | x :: l => body x ;; mfor l body
  end.

(** Total correctness of a call: it returns, in a state and with a value that
    satisfy [Q]. *)
Definition wp {S A} (m : M S A) (Q : A → S → Prop) (s : S) : Prop :=
  match m s with
  | Ret a s' => Q a s'
  | _ => False
  end.

(** Partial correctness: whenever the call returns, [Q] holds. *)
Definition wlp {S A} (m : M S A) (Q : A → S → Prop) (s : S) : Prop :=
  match m s with
  | Ret a s' => Q a s'
  | _ => True
  end.

Section WpRules.
Context {S : Type}.
Implicit Types s : S.

Lemma wp_ret {A} (a : A) (Q : A → S → Prop) s : Q a s → wp (mret a) Q s.
Proof. done. Qed.

Lemma wp_bind {A B} (m : M S A) (k : A → M S B) (Q : B → S → Prop) s :
  wp m (λ a s', wp (k a) Q s') s → wp (m ≫= k) Q s.
Proof. unfold wp, mbind, M_bind. by destruct (m s). Qed.

Lemma wp_mono {A} (m : M S A) (P Q : A → S → Prop) s :
  (∀ a s', P a s' → Q a s') → wp m P s → wp m Q s.
Proof. unfold wp. destruct (m s); naive_solver. Qed.

Lemma wp_and {A} (m : M S A) (P Q : A → S → Prop) s : wp m P s → wp m Q s → wp m (λ a s', P a s' ∧ Q a s') s.
Proof. unfold wp. by destruct (m s). Qed.

Lemma wp_get (Q : S → S → Prop) s : Q s s → wp mget Q s.
Proof. done. Qed.

Lemma wp_modify (f : S → S) (Q : unit → S → Prop) s :
  Q tt (f s) → wp (mmodify f) Q s.
Proof. done. Qed.

Lemma wp_elim {A} (m : M S A) Q s : wp m Q s → ∃ a s', m s = Ret a s' ∧ Q a s'.
Proof. unfold wp. destruct (m s); naive_solver. Qed.

Lemma wp_intro {A} (m : M S A) (Q : A → S → Prop) s a s' :
  m s = Ret a s' → Q a s' → wp m Q s.
Proof. unfold wp. by intros ->. Qed.

Lemma wlp_ret {A} (a : A) (Q : A → S → Prop) s : Q a s → wlp (mret a) Q s.
Proof. done. Qed.

Lemma wlp_bind {A B} (m : M S A) (k : A → M S B) (Q : B → S → Prop) s :
  wlp m (λ a s', wlp (k a) Q s') s → wlp (m ≫= k) Q s.
Proof. unfold wlp, mbind, M_bind. by destruct (m s). Qed.

Lemma wlp_mono {A} (m : M S A) (P Q : A → S → Prop) s :
  (∀ a s', P a s' → Q a s') → wlp m P s → wlp m Q s.
Proof. unfold wlp. destruct (m s); naive_solver. Qed.

Lemma wlp_bind_any {A B} (m : M S A) (k : A → M S B) (Q : B → S → Prop) s :
  (∀ a s', wlp (k a) Q s') → wlp (m ≫= k) Q s.
Proof. intros Hk. apply wlp_bind. unfold wlp at 1. destruct (m s); [apply Hk|done..]. Qed.

Lemma wlp_modify (f : S → S) (Q : unit → S → Prop) s :
  Q tt (f s) → wlp (mmodify f) Q s.
Proof. done. Qed.

Lemma wlp_get (Q : S → S → Prop) s : Q s s → wlp mget Q s.
Proof. done. Qed.

Lemma wp_wlp {A} (m : M S A) Q s : wp m Q s → wlp m Q s.
Proof. unfold wp, wlp. by destruct (m s). Qed.

Lemma wlp_elim {A} (m : M S A) Q s a s' : wlp m Q s → m s = Ret a s' → Q a s'.
Proof. unfold wlp. intros HQ E. by rewrite E in HQ. Qed.

(** A loop keeps an invariant that every body keeps. *)
Lemma wlp_for {A} (l : list A) (body : A → M S unit) (I : S → Prop) s :
  (∀ x s, x ∈ l → I s → wlp (body x) (λ _, I) s) →
  I s → wlp (mfor l body) (λ _, I) s.
Proof.
  revert s. induction l as [|x l IH]; intros s Hb HI; simpl; [done|].
  apply wlp_bind. eapply wlp_mono; [|apply Hb; [constructor|done]].
  intros [] s' HI'. apply IH; [|done]. intros y s'' Hy. apply Hb. by constructor.
Qed.

Lemma wp_for {A} (l : list A) (body : A → M S unit) (I : S → Prop) s :
  (∀ x s, x ∈ l → I s → wp (body x) (λ _, I) s) →
  I s → wp (mfor l body) (λ _, I) s.
Proof.
  revert s. induction l as [|x l IH]; intros s Hb HI; simpl; [done|].
  apply wp_bind. eapply wp_mono; [|apply Hb; [constructor|done]].
  intros [] s' HI'. apply IH; [|done]. intros y s'' Hy. apply Hb. by constructor.
Qed.
End WpRules.

(** ** Calls into the environment that can fail

    [malloc], [strdup], [pthread_mutex_lock], [pthread_create] and the like
    fail or succeed as the environment decides.  A state that carries the
    decisions still to come is an instance of [Faulty]: the next fallible call
    fails exactly when the head of the list is [true], and every call after the
    end of the list succeeds.  Theorems that quantify over the state therefore
    quantify over every pattern of failing calls. *)

Class Faulty (S : Type) := {
  faults : S → list bool;
  set_faults : list bool → S → S;
  faults_set : ∀ l s, faults (set_faults l s) = l;
  set_faults_set : ∀ l l' s, set_faults l (set_faults l' s) = set_faults l s;
  set_faults_same : ∀ s, set_faults (faults s) s = s;
  idle : S → Prop;  (* no lock is held that a read of the options waits for *)
  idle_set : ∀ l s, idle (set_faults l s) ↔ idle s;
}.

(** The smallest such state: the decisions alone. *)
#[export, refine] Instance faulty_decisions : Faulty (list bool) := {|
  faults := λ s, s;
  set_faults := λ l _, l;
  idle := λ _, True;
|}.
Proof. all: done. Defined.

(** No fallible call of the environment fails any more. *)
Definition quiet {S} `{Faulty S} (s : S) : Prop := faults s = [].

(** [true] when the call fails. *)
Definition fallible {S} `{Faulty S} : M S bool := λ s,
  match faults s with
  | [] => Ret false s
  | b :: l => Ret b (set_faults l s)
  end.

(** [n] fallible calls in a row, stopping at the first that fails. *)
Fixpoint fallibleN {S} `{Faulty S} (n : nat) : M S bool :=
  match n with
  | O => mret false
  | Datatypes.S n => b ← fallible; if (b : bool) then mret true else fallibleN n
  end.

Section FaultyRules.
Context {S : Type} `{Faulty S}.
Implicit Types s : S.

Lemma fallible_quiet s : quiet s → fallible s = Ret false s.
Proof. unfold fallible, quiet. by intros ->. Qed.

Lemma fallibleN_quiet n s : quiet s → fallibleN n s = Ret false s.
Proof.
  intros Hq. induction n as [|n IH]; simpl; [done|].
  unfold mbind, M_bind. by rewrite fallible_quiet.
Qed.

Lemma wp_fallible_quiet (Q : bool → S → Prop) s :
  quiet s → Q false s → wp fallible Q s.
Proof. intros Hq HQ. unfold wp. by rewrite fallible_quiet. Qed.

Lemma wp_fallibleN_quiet n (Q : bool → S → Prop) s :
  quiet s → Q false s → wp (fallibleN n) Q s.
Proof. intros Hq HQ. unfold wp. by rewrite fallibleN_quiet. Qed.

(** Any fallible call only consumes decisions. *)
Lemma wp_fallible (Q : bool → S → Prop) s :
  (∀ b l, Q b (set_faults l s)) → wp fallible Q s.
Proof.
  intros HQ. unfold wp, fallible. destruct (faults s) as [|b l] eqn:E; [|done].
  specialize (HQ false []). by rewrite <- E, set_faults_same in HQ.
Qed.

Lemma quiet_set_faults l s : quiet (set_faults l s) ↔ l = [].
Proof. unfold quiet. by rewrite faults_set. Qed.

Lemma same_faults s : ∃ fs, s = set_faults fs s.
Proof. exists (faults s). by rewrite set_faults_same. Qed.

Lemma wp_fallibleN n (Q : bool → S → Prop) s :
  (∀ b l, Q b (set_faults l s)) → wp (fallibleN n) Q s.
Proof.
  revert s. induction n as [|n IH]; intros s HQ; simpl.
  { apply wp_ret. specialize (HQ false (faults s)). by rewrite set_faults_same in HQ. }
  apply wp_bind, wp_fallible. intros [] l; [by apply wp_ret|].
  apply IH. intros b l'. rewrite set_faults_set. apply HQ.
Qed.
End FaultyRules.

(** A computation that returns only in states related to the one it starts in.
    [keep] shows this for a computation made of others for which it is known. *)
Class Keeps {S A} (R : S → S → Prop) (m : M S A) : Prop := keeps : ∀ s, wlp m (λ _ s', R s s') s.

Section Keeps.
Context {S : Type} (R : S → S → Prop) `{!PreOrder R}.

Lemma keeps_ret {A} (a : A) : Keeps R (mret a).
Proof. intros s. apply wlp_ret. reflexivity. Qed.
Lemma keeps_bind {A B} (m : M S A) (k : A → M S B) : Keeps R m → (∀ a, Keeps R (k a)) → Keeps R (m ≫= k).
Proof.
  intros Hm Hk s. apply wlp_bind. eapply wlp_mono; [|apply Hm]. intros a s' H'. eapply wlp_mono; [|apply Hk].
  intros b s'' H''. by transitivity s'.
Qed.
Lemma keeps_undef {A} : Keeps R (mundef (A := A)).
Proof. by intros s. Qed.
Lemma keeps_block {A} : Keeps R (mblock (A := A)).
Proof. by intros s. Qed.
Lemma keeps_get : Keeps R mget.
Proof. intros s. apply wlp_get. reflexivity. Qed.
Lemma keeps_fallible `{Faulty S} : (∀ l s, R s (set_faults l s)) → Keeps R fallible.
Proof. intros HR s. apply wp_wlp, wp_fallible. intros _ l. apply HR. Qed.
Lemma keeps_fallibleN `{Faulty S} n : (∀ l s, R s (set_faults l s)) → Keeps R (fallibleN n).
Proof. intros HR s. apply wp_wlp, wp_fallibleN. intros _ l. apply HR. Qed.
Lemma keeps_intro {A} (m : M S A) s Q : Keeps R m → (∀ a s', R s s' → Q a s') → wlp m Q s.
Proof. intros Hm HQ. eapply wlp_mono; [|apply Hm]. apply HQ. Qed.
End Keeps.

Create HintDb keeps.
#[export] Hint Resolve keeps_ret keeps_undef keeps_block keeps_get keeps_fallible keeps_fallibleN : keeps.

Ltac keep_step :=
  match goal with
  | |- Keeps _ (mbind _ _) => apply keeps_bind; [apply _| |intros ?]
  | |- Keeps _ (match ?x with _ => _ end) => destruct x
  | |- Keeps _ (let x := _ in _) => cbv zeta
  | |- Keeps _ _ => solve [eauto with keeps typeclass_instances]
  end.
Ltac keep := repeat keep_step.

(** Equational reasoning about a known first step. *)
Lemma bind_run {S A B} (m : M S A) (k : A → M S B) s a s' : m s = Ret a s' → (m ≫= k) s = k a s'.
Proof. intros E. unfold mbind, M_bind. by rewrite E. Qed.

Lemma bind_fallible {S A} `{Faulty S} (k : bool → M S A) s : quiet s → (fallible ≫= k) s = k false s.
Proof. intros Hq. unfold mbind, M_bind. by rewrite fallible_quiet. Qed.

Lemma bind_block {S A B} (m : M S A) (k : A → M S B) s : m s = Block → (m ≫= k) s = Block.
Proof. intros E. unfold mbind, M_bind. by rewrite E. Qed.

(** Two states that differ at most in the decisions of the environment, and not
    at all if there are none to come. *)
Definition only_faults {S} `{Faulty S} (s s' : S) : Prop :=
  (∃ fs, s' = set_faults fs s) ∧ (quiet s → s' = s).

#[export] Instance only_faults_preorder {S} `{Faulty S} : PreOrder (only_faults (S := S)).
Proof.
  split.
  - intros s. split; [apply same_faults|done].
  - intros s1 s2 s3 [[f1 ->] H1] [[f2 ->] H2]. rewrite set_faults_set in *.
    split; [eauto|]. intros Hq. specialize (H1 Hq). rewrite H1 in H2. auto.
Qed.

(** A computation is [benign] when it always returns from an idle state and touches nothing but
    the decisions of the environment; without failing calls, and provided [H],
    its result satisfies [Q]. *)
Definition benign {S A} `{Faulty S} (H : Prop) (m : M S A) (Q : A → Prop) : Prop :=
  ∀ s, idle s → wp m (λ a s', only_faults s s' ∧ (quiet s → H → Q a)) s.

Section Benign.
Context {S : Type} `{Faulty S}.

Lemma benign_ret {A} (H' : Prop) (a : A) (Q : A → Prop) :
  (H' → Q a) → benign H' (mret a : M S A) Q.
Proof. intros HQ s _. apply wp_ret. split; [done|auto]. Qed.

Lemma only_faults_idle s s' : only_faults s s' → idle s → idle s'.
Proof. intros [[fs ->] _]. by rewrite idle_set. Qed.

Lemma benign_bind {A B} (H' : Prop) (m : M S A) (k : A → M S B) (P : A → Prop) (Q : B → Prop) :
  benign H' m P → (∀ a, benign (H' ∧ P a) (k a) Q) → benign H' (m ≫= k) Q.
Proof.
  intros Hm Hk s Hid. apply wp_bind. eapply wp_mono; [|by apply Hm].
  intros a s' [Hs' HP]. eapply wp_mono; [|apply Hk; by eapply only_faults_idle].
  intros b s'' [Hs'' HQ]. split; [by etrans|].
  intros Hs HH. destruct Hs' as [_ Hs']. rewrite (Hs' Hs) in HQ. auto.
Qed.

Lemma benign_fallible (H' : Prop) : benign (S := S) H' fallible (λ b, b = false).
Proof.
  intros s _. unfold wp, fallible. destruct (faults s) as [|b l] eqn:E; [done|].
  split; [|unfold quiet; congruence]. split; [eauto|unfold quiet; congruence].
Qed.

Lemma benign_mono {A} (H1 H2 : Prop) (m : M S A) (P Q : A → Prop) :
  (H2 → H1) → (∀ a, P a → Q a) → benign H1 m P → benign H2 m Q.
Proof. intros Hi HPQ Hm s Hs. eapply wp_mono; [|by apply Hm]. naive_solver. Qed.

Lemma benign_fallibleN (H' : Prop) n : benign (S := S) H' (fallibleN n) (λ b, b = false).
Proof.
  revert H'. induction n as [|n IH]; intros H'; simpl; [by apply benign_ret|].
  eapply benign_bind; [apply benign_fallible|]. intros []; [apply benign_ret; naive_solver|].
  apply IH.
Qed.

Lemma benign_quiet {A} (m : M S A) Q s :
  benign True m Q → idle s → quiet s → ∃ a, m s = Ret a s ∧ Q a.
Proof.
  intros Hm Hid Hs. destruct (wp_elim _ _ _ (Hm s Hid)) as (a & s' & Hr & [_ Hs'] & HQ).
  rewrite (Hs' Hs) in Hr. eauto.
Qed.

(** A fallible call, with what is known of its result. *)
Lemma wp_fallible_why (Q : bool → S → Prop) s :
  (∀ b s', only_faults s s' → (quiet s → b = false) → Q b s') → wp fallible Q s.
Proof.
  intros HQ. unfold wp, fallible, only_faults, quiet in *.
  destruct (faults s) as [|b l] eqn:E; apply HQ; naive_solver eauto using same_faults.
Qed.

Lemma only_faults_quiet s s' : only_faults s s' → quiet s → quiet s'.
Proof. intros [_ Hs] Hq. by rewrite (Hs Hq). Qed.
End Benign.

Create HintDb benign.
#[export] Hint Resolve benign_fallible benign_fallibleN : benign.

(** A chain of calls each of which reports failure with a boolean: the next one
    runs only if it did not fail. *)
Ltac benign_chain :=
  repeat first
    [ solve [eauto with benign]
    | apply benign_ret; naive_solver
    | eapply benign_bind; [solve [eauto with benign]|intros []] ].

(** ** C integers *)

Definition UINT8_MAX : Z := 255.
Definition INT_MAX : Z := 2147483647.
Definition INT_MIN : Z := -2147483648.
Definition uint8 (z : Z) : Z := z mod 256.
Definition uint16 (z : Z) : Z := z mod 65536.
Definition uint32 (z : Z) : Z := z mod 4294967296.
Definition uint64 (z : Z) : Z := z mod 18446744073709551616.
Definition int8 (z : Z) : Z := (z + 128) mod 256 - 128.

(** The bit tests of C: [x & mask] as a condition, [x & ~mask]. *)
Definition has_bits (x mask : Z) : bool := negb (Z.land x mask =? 0).
Definition clear_bits (x mask : Z) : Z := Z.ldiff x mask.
Notation "x &? m" := (has_bits x m) (at level 40) : crinit_scope.
Notation "x &~ m" := (clear_bits x m) (at level 40) : crinit_scope.

Lemma uint8_range z : 0 ≤ uint8 z < 256.
Proof. unfold uint8. apply Z.mod_pos_bound. lia. Qed.

Lemma uint8_small z : 0 ≤ z < 256 → uint8 z = z.
Proof. apply Z.mod_small. Qed.

Lemma uint16_range z : 0 ≤ uint16 z < 65536.
Proof. unfold uint16. apply Z.mod_pos_bound. lia. Qed.

Lemma uint16_small z : 0 ≤ z < 65536 → uint16 z = z.
Proof. apply Z.mod_small. Qed.

(** ** Lists and strings *)

Definition str_eqb (a b : string) : bool := bool_decide (a = b).

Lemma str_eqb_true a b : str_eqb a b = true ↔ a = b.
Proof. unfold str_eqb. by rewrite bool_decide_eq_true. Qed.

Lemma str_eqb_false a b : str_eqb a b = false ↔ a ≠ b.
Proof. unfold str_eqb. by rewrite bool_decide_eq_false. Qed.

Lemma str_eqb_refl a : str_eqb a a = true.
Proof. by apply str_eqb_true. Qed.

Fixpoint index_of {A} (p : A → bool) (l : list A) : option nat :=
  match l with
  | [] => None
  | x :: l => if p x then Some O else S <$> index_of p l
  end.

Section IndexOf.
Context {A : Type} (p : A → bool).

Lemma index_of_Some l i :
  index_of p l = Some i →
  (∃ x, l !! i = Some x ∧ p x = true) ∧ ∀ j y, (j < i)%nat → l !! j = Some y → p y = false.
Proof.
  revert i. induction l as [|x l IH]; intros i Hi; simpl in *; [done|].
  destruct (p x) eqn:Hp; simplify_eq.
  { split; [by exists x|]. intros j y ?. lia. }
  apply fmap_Some in Hi as (i' & Hi' & ->). destruct (IH _ Hi') as [Hx Hlt].
  split; [done|]. intros [|j] y Hj Hy; simplify_eq/=; [done|]. eapply Hlt; [|done]. lia.
Qed.

Lemma index_of_None l : index_of p l = None ↔ ∀ x, x ∈ l → p x = false.
Proof.
  induction l as [|x l IH]; simpl.
  { split; [intros _ y Hy; by apply elem_of_nil in Hy|done]. }
  destruct (p x) eqn:Hp.
  { split; [done|]. intros Hall. rewrite Hall in Hp by (by constructor). done. }
  rewrite fmap_None, IH. split.
  - intros Hl y [->|Hy]%elem_of_cons; auto.
  - intros Hl y Hy. apply Hl. by constructor.
Qed.

Lemma index_of_lt l i : index_of p l = Some i → (i < length l)%nat.
Proof. intros [(x & Hx & _) _]%index_of_Some. by eapply lookup_lt_Some. Qed.
End IndexOf.

(** The value of a boolean conjunction as hypotheses, and case analysis on the
    boolean tests of the goal. *)
Ltac bool_hyps :=
  repeat match goal with
    | H : _ && _ = true |- _ => apply andb_prop in H as [? ?]
    | H : _ || _ = false |- _ => apply orb_false_elim in H as [? ?]
    | H : negb _ = true |- _ => apply negb_true_iff in H
    | H : negb _ = false |- _ => apply negb_false_iff in H
    | H : str_eqb _ _ = true |- _ => apply str_eqb_true in H
    | H : str_eqb _ _ = false |- _ => apply str_eqb_false in H
    | H : (_ =? _) = true |- _ => apply Z.eqb_eq in H
    | H : (_ =? _) = false |- _ => apply Z.eqb_neq in H
    | H : (_ <? _) = true |- _ => apply Z.ltb_lt in H
    | H : (_ <? _) = false |- _ => apply Z.ltb_ge in H
    | H : (_ <=? _) = true |- _ => apply Z.leb_le in H
    | H : (_ <=? _) = false |- _ => apply Z.leb_gt in H
    end.

Ltac case_if :=
  match goal with
  | |- context [if ?b then _ else _] => destruct b eqn:?
  end.

(** Case analysis on the integer comparisons of the goal. *)
Ltac zcases :=
  repeat match goal with
    | |- context [?a <? ?b] => destruct (Z.ltb_spec a b)
    | |- context [?a <=? ?b] => destruct (Z.leb_spec a b)
    | |- context [?a =? ?b] => destruct (Z.eqb_spec a b)
    end.

(** One step of a call: the head of the computation is a primitive. *)
Ltac wp_step :=
  match goal with
  | |- wp (mbind _ _) _ _ => apply wp_bind
  | |- wp (mret _) _ _ => apply wp_ret
  | |- wp mget _ _ => apply wp_get
  | |- wp (mmodify _) _ _ => apply wp_modify
  | |- wlp (mbind _ _) _ _ => apply wlp_bind
  | |- wlp (mret _) _ _ => apply wlp_ret
  | |- wlp mget _ _ => apply wlp_get
  | |- wlp (mmodify _) _ _ => apply wlp_modify
  end.
Ltac wp_steps := repeat (wp_step; cbn beta).

Lemma string_app_assoc (a b c : string) : ((a +:+ b) +:+ c = a +:+ (b +:+ c))%string.
Proof.
  induction a as [|x a IH]; [done|].
  change (String x ((a +:+ b) +:+ c) = String x (a +:+ (b +:+ c)))%string. by rewrite IH.
Qed.

Lemma string_app_nil_r (a : string) : (a +:+ EmptyString = a)%string.
Proof. induction a as [|x a IH]; [done|]. change (String x (a +:+ EmptyString) = String x a)%string. by rewrite IH. Qed.

Lemma string_length_app (a b : string) : String.length (a +:+ b) = (String.length a + String.length b)%nat.
Proof.
  induction a as [|x a IH]; [done|].
  change (S (String.length (a +:+ b)) = S (String.length a + String.length b))%nat. by rewrite IH.
Qed.

(** [strchr]: the text before and after the first occurrence of [c], [None]
    when [c] does not occur. *)
Fixpoint str_break (c : ascii) (s : string) : option (string * string) :=
  match s with
  | EmptyString => None
  | String a s' =>
      if bool_decide (a = c) then Some (EmptyString, s')
      else (λ kv, (String a kv.1, kv.2)) <$> str_break c s'
  end.

Definition str_has (c : ascii) (s : string) : bool :=
  match str_break c s with Some _ => true | None => false end.

Lemma str_has_cons c a s : str_has c (String a s) = bool_decide (a = c) || str_has c s.
Proof. unfold str_has. simpl. case_bool_decide; [done|]. by destruct (str_break c s). Qed.

Lemma str_has_app c a b : str_has c (a +:+ b)%string = str_has c a || str_has c b.
Proof.
  induction a as [|x a IH]; [done|]. change (String x a +:+ b)%string with (String x (a +:+ b)).
  by rewrite !str_has_cons, IH, orb_assoc.
Qed.

Section StrBreak.
Context (c : ascii).

Lemma str_break_join k v s :
  str_break c s = Some (k, v) → s = (k +:+ String c v)%string ∧ str_has c k = false.
Proof.
  revert k v. induction s as [|a s IH]; intros k v Hb; simpl in *; [done|].
  case_bool_decide as Ha; simplify_eq/=; [done|].
  apply fmap_Some in Hb as ([k' v'] & Hb' & ?); simplify_eq/=.
  destruct (IH _ _ Hb') as [-> Hk]. split; [done|].
  unfold str_has in *. simpl. rewrite bool_decide_eq_false_2 by done.
  by destruct (str_break c k').
Qed.

Lemma str_break_app k v :
  str_has c k = false → str_break c (k +:+ String c v)%string = Some (k, v).
Proof.
  unfold str_has. induction k as [|a k IH]; simpl; intros Hk.
  { by rewrite bool_decide_eq_true_2. }
  case_bool_decide as Ha; [done|]. destruct (str_break c k) eqn:E; [done|].
  by rewrite IH.
Qed.

Lemma prefix_str_break k s :
  str_has c k = false →
  String.prefix (k +:+ String c EmptyString)%string s = true ↔
  ∃ v, str_break c s = Some (k, v).
Proof.
  unfold str_has. revert s. induction k as [|a k IH]; intros s Hk; simpl in *.
  - destruct s as [|b s]; simpl; [naive_solver|].
    destruct (ascii_dec c b) as [->|Hcb].
    + rewrite bool_decide_eq_true_2 by done. split; [eauto|by destruct s].
    + rewrite bool_decide_eq_false_2 by congruence. split; [done|].
      intros [v Hv]. by destruct (str_break c s) as [[??]|].
  - case_bool_decide as Ha; [done|]. destruct (str_break c k) eqn:Ek; [done|].
    destruct s as [|b s]; simpl; [naive_solver|].
    destruct (ascii_dec a b) as [->|Hab].
    + rewrite bool_decide_eq_false_2 by done. rewrite IH by done.
      split; [intros [v ->]; by eexists|]. intros [v Hv]. exists v.
      by destruct (str_break c s) as [[??]|]; simplify_eq/=.
    + split; [done|]. intros [v Hv]. case_bool_decide; simplify_eq/=.
      by destruct (str_break c s) as [[??]|]; simplify_eq/=.
Qed.
End StrBreak.
