(* ===== verification/CString.v ===== *)
(** * String functions of the C library

    strncmp(), strtok_r() and bsearch() over string keys, as the components use
    them.  A C string is a [string] without its terminating zero; a pointer into
    one is the suffix it points at. *)

From Stdlib Require Import ZArith Lia Bool List String Ascii.
From stdpp Require Import base list strings.
From S2P Require Import Prelude.

Open Scope Z_scope.
Open Scope crinit_scope.

#[local] Arguments String.append : simpl nomatch.

(** [strncmp(a, b, n) == 0] *)
Fixpoint strncmp_eq (n : nat) (a b : string) : bool :=
  match n with
  | O => true
  | S n =>
      match a, b with
      | EmptyString, EmptyString => true
      | String x a, String y b => bool_decide (x = y) && strncmp_eq n a b
      | _, _ => false
      end
  end.

(** ** strtok_r() with one delimiter

    Leading delimiters are skipped, the token ends before the next one. *)

Section Tokens.
Context (delim : ascii).

Definition is_delim (c : ascii) : bool := bool_decide (c = delim).

Lemma is_delim_delim : is_delim delim = true.
Proof. unfold is_delim. by rewrite bool_decide_eq_true_2. Qed.

Fixpoint tok_skip (s : string) : string :=
  match s with
  | String c s' => if is_delim c then tok_skip s' else s
  | EmptyString => EmptyString
  end.

Fixpoint tok_span (s : string) : string * string :=
  match s with
  | EmptyString => (EmptyString, EmptyString)
  | String c s' => if is_delim c then (EmptyString, s') else let '(t, r) := tok_span s' in (String c t, r)
  end.

(** The token and what follows the delimiter after it. *)
Definition strtok (s : string) : option (string * string) :=
  match tok_skip s with
  | EmptyString => None
  | s => Some (tok_span s)
  end.

(** At most [n] tokens, as a loop over strtok_r() finds them. *)
Fixpoint tok_loop (n : nat) (s : string) : list string :=
  match n with
  | O => []
  | S n => match strtok s with None => [] | Some (t, r) => t :: tok_loop n r end
  end.

(** *** The reference reading: the pieces between the delimiters, and those of
    them that are not empty. *)
Fixpoint pieces (s : string) : string * list string :=
  match s with
  | EmptyString => (EmptyString, [])
  | String c s =>
      let '(h, t) := pieces s in
      if is_delim c then (EmptyString, h :: t) else (String c h, t)
  end.

Definition nonempty (l : list string) : list string := filter (λ a, a ≠ EmptyString) l.

Definition tokens (s : string) : list string := let '(h, t) := pieces s in nonempty (h :: t).

Definition plain (s : string) : Prop := str_has delim s = false.

Lemma plain_cons c s : plain (String c s) ↔ is_delim c = false ∧ plain s.
Proof.
  unfold plain, is_delim. rewrite str_has_cons. split.
  - intros E. by apply orb_false_elim in E.
  - intros [-> ->]. done.
Qed.

Lemma tokens_delim c s : is_delim c = true → tokens (String c s) = tokens s.
Proof. unfold tokens. simpl. destruct (pieces s) as [h t]. by intros ->. Qed.

Lemma tok_skip_tokens s : tokens (tok_skip s) = tokens s.
Proof.
  induction s as [|c s IH]; [done|]. simpl. destruct (is_delim c) eqn:E; [|done].
  by rewrite IH, tokens_delim.
Qed.

Lemma pieces_span s :
  let '(t, r) := tok_span s in (pieces s).1 = t ∧ nonempty (pieces s).2 = tokens r.
Proof.
  induction s as [|c s IH]; [done|]. simpl. destruct (is_delim c); simpl.
  { unfold tokens. by destruct (pieces s) as [h t]. }
  destruct (tok_span s) as [t r], (pieces s) as [h l]. simpl in *. by destruct IH as [-> ->].
Qed.

Lemma tok_skip_head s c r : tok_skip s = String c r → is_delim c = false.
Proof.
  induction s as [|d s IH]; [done|]. simpl. destruct (is_delim d) eqn:E; [done|]. congruence.
Qed.

(** strtok() yields the tokens one after the other. *)
Lemma strtok_tokens s :
  match strtok s with
  | None => tokens s = []
  | Some (t, r) => tokens s = t :: tokens r
  end.
Proof.
  unfold strtok. rewrite <- (tok_skip_tokens s).
  destruct (tok_skip s) as [|c u] eqn:E; [done|]. apply tok_skip_head in E.
  pose proof (pieces_span (String c u)) as Hp. destruct (tok_span (String c u)) as [t r] eqn:Es.
  simpl in Es. rewrite E in Es. destruct (tok_span u) as [t' r']. injection Es as <- <-.
  unfold tokens at 1. destruct (pieces (String c u)) as [h l]. simpl in Hp. destruct Hp as [-> Hl].
  unfold nonempty in *. rewrite filter_cons_True by done. by rewrite Hl.
Qed.

Lemma tok_loop_all s : tok_loop (length (tokens s)) s = tokens s.
Proof.
  remember (length (tokens s)) as n eqn:Hn. revert s Hn. induction n as [|n IH]; intros s Hn; simpl.
  - by apply symmetry, nil_length_inv in Hn.
  - pose proof (strtok_tokens s) as Ht. destruct (strtok s) as [[t r]|].
    + rewrite Ht in *. f_equal. apply IH. simpl in Hn. lia.
    + by rewrite Ht in Hn.
Qed.

Lemma tokens_app a b :
  tokens (a +:+ String delim b) = tokens a ++ tokens b.
Proof.
  assert (pieces (a +:+ String delim b)%string =
    ((pieces a).1, (pieces a).2 ++ (pieces b).1 :: (pieces b).2)) as Hp.
  { induction a as [|c a IH]; cbn [String.append pieces]; [rewrite is_delim_delim; by destruct (pieces b)|].
    rewrite IH.
    destruct (pieces a) as [h t]. by destruct (is_delim c). }
  unfold tokens. rewrite Hp. destruct (pieces a) as [h t], (pieces b) as [h' t']. simpl.
  unfold nonempty. by rewrite app_comm_cons, filter_app.
Qed.

Lemma tokens_plain a : a ≠ EmptyString → plain a → tokens a = [a].
Proof.
  intros Hne Ha. assert (pieces a = (a, [])) as E.
  { clear Hne. induction a as [|c a IH]; [done|]. apply plain_cons in Ha as [Hc Ha].
    simpl. rewrite (IH Ha), Hc. done. }
  unfold tokens. rewrite E. unfold nonempty. by rewrite filter_cons_True.
Qed.

(** No token is empty or has the delimiter. *)
Lemma pieces_plain s : plain (pieces s).1 ∧ Forall plain (pieces s).2.
Proof.
  induction s as [|c s IH]; [done|]. simpl. destruct (pieces s) as [h t], IH as [Hh Ht].
  destruct (is_delim c) eqn:E; simpl; [by split; [|constructor]|]. split; [|done]. by apply plain_cons.
Qed.

Lemma tokens_spec s : Forall (λ a, a ≠ EmptyString ∧ plain a) (tokens s).
Proof.
  pose proof (pieces_plain s) as [Hh Ht]. unfold tokens, nonempty. destruct (pieces s) as [h t]. simpl in *.
  apply Forall_forall. intros a [Ha Hin]%list_elem_of_filter. split; [done|].
  apply elem_of_cons in Hin as [->|Hin]; [done|]. by eapply Forall_forall in Ht.
Qed.
End Tokens.

(** ** bsearch() over entries with string keys *)

Fixpoint bsearch {A} (fuel : nat) (cmp : A → comparison) (l : list A) (lo hi : nat) : option A :=
  match fuel with
  | O => None
  | S fuel =>
      if (lo <? hi)%nat then
        let mid := Nat.div2 (lo + hi) in
        match l !! mid with
        | None => None
        | Some x =>
            match cmp x with
            | Lt => bsearch fuel cmp l lo mid
            | Gt => bsearch fuel cmp l (S mid) hi
            | Eq => Some x
            end
        end
      else None
  end.

(** strcmp() *)
Definition strcmp (a b : string) : comparison := String.compare a b.

Lemma strcmp_eq a b : strcmp a b = Eq ↔ a = b.
Proof.
  split; [apply String.compare_eq_iff|intros ->]. unfold strcmp. induction b as [|c b IH]; [done|].
  simpl. unfold Ascii.compare. by rewrite N.compare_refl.
Qed.

Lemma strcmp_antisym a b : strcmp a b = CompOpp (strcmp b a).
Proof. apply String.compare_antisym. Qed.

Lemma strcmp_trans a b c : strcmp a b = Lt → strcmp b c = Lt → strcmp a c = Lt.
Proof.
  unfold strcmp. revert b c. induction a as [|x a IH]; intros [|y b] [|z c]; simpl; try done.
  unfold Ascii.compare. intros H1 H2.
  destruct (N.compare_spec (N_of_ascii x) (N_of_ascii y)) as [Exy|Exy|Exy]; try done;
    destruct (N.compare_spec (N_of_ascii y) (N_of_ascii z)) as [Eyz|Eyz|Eyz]; try done.
  - rewrite Exy, Eyz, N.compare_refl. by eapply IH.
  - rewrite Exy. by apply N.compare_lt_iff in Eyz as ->.
  - rewrite <- Eyz. by apply N.compare_lt_iff in Exy as ->.
  - assert (N_of_ascii x < N_of_ascii z)%N as ->%N.compare_lt_iff by lia. done.
Qed.

Section BSearch.
Context {A : Type} (key_of : A → string) (key : string).

Definition sorted_keys (l : list A) : Prop :=
  ∀ i j x y, (i < j)%nat → l !! i = Some x → l !! j = Some y → strcmp (key_of x) (key_of y) = Lt.

(** Executable: neighbours are in order. *)
Fixpoint sorted_b (l : list A) : bool :=
  match l with
  | x :: ((y :: _) as l') => bool_decide (strcmp (key_of x) (key_of y) = Lt) && sorted_b l'
  | _ => true
  end.

Lemma sorted_b_sound l : sorted_b l = true → sorted_keys l.
Proof.
  induction l as [|x l IH]; intros Hs i j a b Hij Hi Hj; [done|].
  destruct l as [|y l]; [destruct j as [|[|j]]; simpl in Hj; try done; lia|].
  change (bool_decide (strcmp (key_of x) (key_of y) = Lt) && sorted_b (y :: l) = true) in Hs. apply andb_prop in Hs as [Hxy%bool_decide_eq_true Hs]. specialize (IH Hs).
  destruct j as [|j]; [lia|]. destruct i as [|i].
  - injection Hi as <-. destruct j as [|j]; [by injection Hj as <-|].
    eapply strcmp_trans; [done|]. by apply (IH 0%nat (S j)); [lia| |].
  - by apply (IH i j); [lia| |].
Qed.

Lemma sorted_unique l i j x y :
  sorted_keys l → l !! i = Some x → l !! j = Some y → key_of x = key_of y → i = j.
Proof.
  intros Hs Hi Hj E. destruct (Nat.lt_trichotomy i j) as [Hlt|[->|Hlt]]; [exfalso|done|exfalso].
  - pose proof (Hs _ _ _ _ Hlt Hi Hj) as H. rewrite E in H. by rewrite (proj2 (strcmp_eq _ _)) in H.
  - pose proof (Hs _ _ _ _ Hlt Hj Hi) as H. rewrite E in H. by rewrite (proj2 (strcmp_eq _ _)) in H.
Qed.

(** The search keeps what it looks for between its bounds. *)
Lemma bsearch_spec l fuel lo hi :
  sorted_keys l → (hi - lo ≤ fuel)%nat → (hi ≤ length l)%nat →
  (∀ i x, l !! i = Some x → key_of x = key → (lo ≤ i < hi)%nat) →
  match bsearch fuel (λ x, strcmp key (key_of x)) l lo hi with
  | Some x => x ∈ l ∧ key_of x = key
  | None => ∀ x, x ∈ l → key_of x ≠ key
  end.
Proof.
  intros Hs. revert lo hi. induction fuel as [|fuel IH]; intros lo hi Hf Hhi Hin; simpl.
  { intros x [i Hi]%list_elem_of_lookup E. specialize (Hin i x Hi E). lia. }
  destruct (Nat.ltb_spec lo hi) as [Hlt|Hge].
  2:{ intros x [i Hi]%list_elem_of_lookup E. specialize (Hin i x Hi E). lia. }
  assert (lo ≤ Nat.div2 (lo + hi) < hi)%nat as Hmid.
  { rewrite Nat.div2_div. split; [apply Nat.div_le_lower_bound; lia|apply Nat.div_lt_upper_bound; lia]. }
  set (mid := Nat.div2 (lo + hi)) in *.
  destruct (l !! mid) as [x|] eqn:Hx; [|apply lookup_ge_None in Hx; lia].
  destruct (strcmp key (key_of x)) eqn:Hc.
  - apply strcmp_eq in Hc. split; [by eapply list_elem_of_lookup_2|done].
  - apply IH; [lia..|]. intros i y Hi E. specialize (Hin i y Hi E). split; [lia|].
    destruct (Nat.lt_trichotomy i mid) as [?|[->|Hgt]]; [done| |].
    + rewrite Hx in Hi. injection Hi as <-. rewrite E, (proj2 (strcmp_eq _ _)) in Hc; done.
    + pose proof (Hs _ _ _ _ Hgt Hx Hi) as H. rewrite E, strcmp_antisym, Hc in H. done.
  - apply IH; [lia..|]. intros i y Hi E. specialize (Hin i y Hi E). split; [|lia].
    destruct (Nat.lt_trichotomy i mid) as [Hgt|[->|?]]; [| |lia].
    + pose proof (Hs _ _ _ _ Hgt Hi Hx) as H. rewrite E, Hc in H. done.
    + rewrite Hx in Hi. injection Hi as <-. rewrite E, (proj2 (strcmp_eq _ _)) in Hc; done.
Qed.

(** In a table that is sorted by its keys it is the search from the front. *)
Lemma bsearch_find l :
  sorted_b l = true →
  bsearch (length l) (λ x, strcmp key (key_of x)) l 0 (length l) = find (λ x, str_eqb (key_of x) key) l.
Proof.
  intros Hs%sorted_b_sound. pose proof (bsearch_spec l (length l) 0 (length l) Hs) as H.
  destruct (find _ l) as [y|] eqn:Ef.
  - apply find_some in Ef as [[j Hj]%list_elem_of_In%list_elem_of_lookup Ey%str_eqb_true].
    destruct (bsearch _ _ _ _ _) as [x|].
    + destruct H as [[i Hi]%list_elem_of_lookup Ex]; [lia..|intros i x' Hi _; apply lookup_lt_Some in Hi; lia|].
      rewrite <- Ey in Ex. pose proof (sorted_unique l i j x y Hs Hi Hj Ex) as ->. congruence.
    + destruct H with y; [lia..| |by eapply list_elem_of_lookup_2|done].
      intros i x' Hi _. apply lookup_lt_Some in Hi. lia.
  - destruct (bsearch _ _ _ _ _) as [x|]; [|done].
    destruct H as [Hx Ex]; [lia..|intros i x' Hi _; apply lookup_lt_Some in Hi; lia|].
    eapply find_none in Ef; [|by apply list_elem_of_In]. by rewrite Ex, str_eqb_refl in Ef.
Qed.
End BSearch.
