(* ===== verification/EnvSet.v ===== *)
(** * Environment sets: src/envset.c

    A [crinitEnvSet] is a NULL-terminated array of strings "KEY=value" with
    its allocated size and growth increment.  The file models the operations
    of envset.c on the array as it is laid out in memory: an access outside of
    the allocation is [Undef].  The abstract content of a set is a finite map
    from keys to values; [crinitEnvSetSet] and [crinitEnvSetGet] refine
    insertion and lookup on it. *)

From Stdlib Require Import ZArith Lia Bool List String Ascii.
From stdpp Require Import base list strings gmap.
From S2P Require Import Prelude.

Open Scope Z_scope.
Open Scope crinit_scope.

Definition CRINIT_ENVSET_INITIAL_SIZE : nat := 128.
Definition CRINIT_ENVSET_SIZE_INCREMENT : nat := 64.

Record crinitEnvSet := mkEnvSet {
  envp : option (list (option string));  (* [None]: the NULL pointer *)
  allocSz : nat;
  allocInc : nat;
}.

Section Ops.
Context {S : Type} `{Faulty S}.

Definition crinitEnvSetInit (es : crinitEnvSet) (initSize sizeIncrement : nat)
    : M S (Z * crinitEnvSet) :=
  oom ← fallible;
  if (oom : bool) then mret (-1, mkEnvSet None (allocSz es) (allocInc es))
  else mret (0, mkEnvSet (Some (replicate initSize None)) initSize sizeIncrement).

(** The loop frees up to the first NULL; a set without one is read past its
    end. *)
Definition crinitEnvSetDestroy (es : crinitEnvSet) : M S (Z * crinitEnvSet) :=
  match envp es with
  | None => mret (0, es)
  | Some arr =>
      match index_of (λ o, bool_decide (o = None)) arr with
      | None => mundef
      | Some _ => mret (0, mkEnvSet None 0 0)
      end
  end.

(** The copy loop of crinitEnvSetDup(): [pSrc] and [pTgt] at index [i]. *)
Fixpoint crinitEnvSetDupLoop (src : list (option string)) (i : nat)
    (copy : crinitEnvSet) : M S (Z * crinitEnvSet) :=
  match src with
  | [] => mundef
  | None :: _ => mret (0, copy)
  | Some e :: src =>
      oom ← fallible;
      if (oom : bool) then
        '(_, copy) ← crinitEnvSetDestroy copy; mret (-1, copy)
      else
        match envp copy with
        | Some tgt =>
            if (i <? length tgt)%nat then
              crinitEnvSetDupLoop src (Datatypes.S i)
                (mkEnvSet (Some (<[i := Some e]> tgt)) (allocSz copy) (allocInc copy))
            else mundef
        | None => mundef
        end
  end.

Definition crinitEnvSetDup (copy orig : crinitEnvSet) : M S (Z * crinitEnvSet) :=
  match envp orig with
  | None => mret (-1, copy)
  | Some src =>
      '(r, copy) ← crinitEnvSetInit copy (allocSz orig) (allocInc orig);
      if r =? -1 then mret (-1, copy) else crinitEnvSetDupLoop src 0 copy
  end.

Definition crinitEnvSetGetVal (entry : string) : option string :=
  snd <$> str_break "="%char entry.

Definition crinitEnvSetValid (es : crinitEnvSet) : bool :=
  match envp es with Some _ => (0 <? allocSz es)%nat | None => false end.

(** The stop condition of the search loop at one array element. *)
Definition env_stop (envName : string) (o : option string) : bool :=
  match o with
  | None => true
  | Some e => String.prefix (envName +:+ "=")%string e
  end.

(** [None] is the error value -1. *)
Definition crinitEnvSetSearch (es : crinitEnvSet) (envName : string) : option nat :=
  match envp es with
  | Some arr =>
      if negb (crinitEnvSetValid es) then None
      else if str_has "="%char envName then None
      else Some (default (allocSz es) (index_of (env_stop envName) (take (allocSz es) arr)))
  | None => None
  end.

Definition crinitEnvSetGrow (es : crinitEnvSet) : M S (Z * crinitEnvSet) :=
  if (allocInc es =? 0)%nat then mret (-1, es)
  else
    oom ← fallible;
    if (oom : bool) then mret (-1, es)
    else mret (0, mkEnvSet ((λ a, a ++ replicate (allocInc es) None) <$> envp es)
                    (allocSz es + allocInc es) (allocInc es)).

Definition crinitEnvSetGet (es : crinitEnvSet) (envName : string) : M S (option string) :=
  if negb (crinitEnvSetValid es) then mret None
  else
    match crinitEnvSetSearch es envName with
    | None => mret None
    | Some idx =>
        match envp es ≫= (λ a, a !! idx) with
        | None => mundef
        | Some None => mret None
        | Some (Some e) => mret (crinitEnvSetGetVal e)
        end
    end.

(** The final snprintf() into envp[idx]; its result is an [int]. *)
Definition env_write (es : crinitEnvSet) (idx : nat) (envName envVal : string)
    : M S (Z * crinitEnvSet) :=
  let entry := (envName +:+ "=" +:+ envVal)%string in
  let upd o := mkEnvSet (<[idx := o]> <$> envp es) (allocSz es) (allocInc es) in
  if INT_MAX <? Z.of_nat (String.length entry) then mret (-1, upd None)
  else mret (0, upd (Some entry)).

Definition crinitEnvSetSet (es : crinitEnvSet) (envName envVal : string)
    : M S (Z * crinitEnvSet) :=
  if negb (crinitEnvSetValid es) then mret (-1, es)
  else
    match crinitEnvSetSearch es envName with
    | None => mundef  (* only an error message, then envp[-1] is written *)
    | Some idx =>
        match envp es ≫= (λ a, a !! idx) with
        | None => mundef
        | Some None =>
            '(r, es) ← (if (allocSz es - 1 <=? idx)%nat
                        then crinitEnvSetGrow es else mret (0, es));
            if r =? -1 then mret (-1, es)
            else
              oom ← fallible;
              if (oom : bool) then mret (-1, es)
              else env_write es idx envName envVal
        | Some (Some e) =>
            let newSize := (String.length envName + String.length envVal + 2)%nat in
            oom ← (if (newSize =? String.length e + 1)%nat then mret false else fallible);
            if (oom : bool) then mret (-1, es)
            else env_write es idx envName envVal
        end
    end.
End Ops.

(** ** The abstract content of a set *)

Definition env_kv (e : string) : string * string := default (e, EmptyString) (str_break "="%char e).

Definition env_map (l : list string) : gmap string string := list_to_map (env_kv <$> l).

(** The entries [l] are followed by at least one NULL within the allocation,
    each of them has the form KEY=value and no key occurs twice. *)
Record env_wf (es : crinitEnvSet) (l : list string) : Prop := {
  env_arr : envp es = Some ((Some <$> l) ++ replicate (allocSz es - length l) None);
  env_room : (length l < allocSz es)%nat;
  env_entries : Forall (λ e, str_has "="%char e = true) l;
  env_nodup : NoDup (env_kv <$> l).*1;
}.

Lemma index_of_terminated (k : string) (l : list string) n :
  (0 < n)%nat →
  index_of (env_stop k) ((Some <$> l) ++ replicate n None) =
  Some (default (length l) (index_of (λ e, String.prefix (k +:+ "=")%string e) l)).
Proof.
  intros Hn. induction l as [|e l IH]; csimpl.
  - destruct n; [lia|done].
  - case_if; [done|]. rewrite IH. by destruct (index_of _ l).
Qed.

Lemma env_wf_length es l a : env_wf es l → envp es = Some a → length a = allocSz es.
Proof.
  intros [Harr Hroom _ _] Ha. rewrite Harr in Ha. simplify_eq.
  rewrite length_app, length_fmap, length_replicate. lia.
Qed.

Lemma env_wf_valid es l : env_wf es l → crinitEnvSetValid es = true.
Proof.
  intros [Harr Hroom _ _]. unfold crinitEnvSetValid. rewrite Harr.
  apply Nat.ltb_lt. lia.
Qed.

(** The position of [k] in a well-formed set, or of the terminating NULL. *)
Definition env_pos (k : string) (l : list string) : option nat :=
  index_of (λ e, String.prefix (k +:+ "=")%string e) l.

Lemma search_wf es l k :
  env_wf es l → str_has "="%char k = false →
  crinitEnvSetSearch es k = Some (default (length l) (env_pos k l)).
Proof.
  intros Hwf Hk. unfold crinitEnvSetSearch.
  pose proof (env_wf_valid _ _ Hwf) as ->. destruct Hwf as [Harr Hroom _ _].
  rewrite Harr, Hk. simpl. f_equal. rewrite firstn_all2.
  - rewrite index_of_terminated by lia. done.
  - rewrite length_app, length_fmap, length_replicate. lia.
Qed.

Lemma env_kv_entry k v : str_has "="%char k = false → env_kv (k +:+ "=" +:+ v)%string = (k, v).
Proof.
  intros Hk. unfold env_kv.
  change ("=" +:+ v)%string with (String "="%char v). by rewrite str_break_app.
Qed.

Lemma env_pos_match k e :
  str_has "="%char k = false → str_has "="%char e = true →
  String.prefix (k +:+ "=")%string e = true ↔ (env_kv e).1 = k.
Proof.
  intros Hk He. rewrite prefix_str_break by done. unfold env_kv, str_has in *.
  destruct (str_break _ e) as [[k' v]|]; [|done]. simpl. naive_solver.
Qed.

Lemma env_pos_None k l :
  str_has "="%char k = false → Forall (λ e, str_has "="%char e = true) l →
  env_pos k l = None ↔ k ∉ (env_kv <$> l).*1.
Proof.
  intros Hk Hl. unfold env_pos. rewrite index_of_None. setoid_rewrite list_elem_of_fmap.
  rewrite Forall_forall in Hl. split.
  - intros Hn (kv & -> & (e & -> & He)%list_elem_of_fmap). specialize (Hn e He).
    apply not_true_iff_false in Hn. apply Hn. rewrite env_pos_match; auto.
  - intros Hn e He. apply not_true_iff_false. intros Hp. apply Hn.
    apply env_pos_match in Hp; [|done|by apply Hl].
    exists (env_kv e). split; [done|]. apply list_elem_of_fmap. eauto.
Qed.

Lemma env_map_insert_new k v l :
  str_has "="%char k = false → k ∉ (env_kv <$> l).*1 →
  env_map (l ++ [(k +:+ "=" +:+ v)%string]) = <[k:=v]> (env_map l).
Proof.
  intros Hk Hn. unfold env_map. rewrite fmap_app. simpl. rewrite env_kv_entry by done.
  rewrite list_to_map_app. simpl. rewrite <- insert_union_r.
  - by rewrite map_union_empty.
  - by apply not_elem_of_list_to_map_1.
Qed.

Lemma env_pos_first k l i :
  str_has "="%char k = false → Forall (λ e, str_has "="%char e = true) l →
  env_pos k l = Some i →
  ∃ l1 e l2, l = l1 ++ e :: l2 ∧ i = length l1 ∧ (env_kv e).1 = k ∧ k ∉ (env_kv <$> l1).*1.
Proof.
  intros Hk. revert i. induction l as [|e l IH]; intros i Hl Hi; simpl in *; [done|].
  inversion_clear Hl. unfold env_pos in Hi. simpl in Hi.
  destruct (String.prefix _ e) eqn:Hp; simplify_eq.
  - exists [], e, l. apply env_pos_match in Hp; [|done..]. set_solver.
  - apply fmap_Some in Hi as (i' & Hi' & ->).
    destruct (IH _ H0 Hi') as (l1 & e' & l2 & -> & -> & Hek & Hl1).
    exists (e :: l1), e', l2. split_and!; [done..|]. simpl.
    apply not_true_iff_false in Hp. rewrite env_pos_match in Hp by done. set_solver.
Qed.

Lemma env_map_update k v l1 e l2 :
  str_has "="%char k = false → (env_kv e).1 = k → k ∉ (env_kv <$> l1).*1 →
  env_map (l1 ++ (k +:+ "=" +:+ v)%string :: l2) = <[k:=v]> (env_map (l1 ++ e :: l2)).
Proof.
  intros Hk He Hn. unfold env_map. rewrite !fmap_app. simpl. rewrite env_kv_entry by done.
  rewrite !list_to_map_app. simpl. rewrite He.
  assert (list_to_map (M := gmap string string) (env_kv <$> l1) !! k = None) as Hl1
    by (by apply not_elem_of_list_to_map_1).
  by rewrite insert_union_r, insert_insert_eq.
Qed.

(** Writing entry number [length l1] of a well-formed set. *)
Lemma env_wf_update es l1 e l2 k v :
  env_wf es (l1 ++ e :: l2) → str_has "="%char k = false → (env_kv e).1 = k →
  env_wf (mkEnvSet (<[length l1 := Some (k +:+ "=" +:+ v)%string]> <$> envp es)
            (allocSz es) (allocInc es))
         (l1 ++ (k +:+ "=" +:+ v)%string :: l2).
Proof.
  intros [Harr Hroom Hent Hnd] Hk He. split; simpl.
  - rewrite Harr. simpl. f_equal. rewrite !fmap_app, !fmap_cons, <- !app_assoc.
    rewrite insert_app_r_alt by (rewrite length_fmap; lia).
    rewrite length_fmap, Nat.sub_diag. simpl. do 4 f_equal. rewrite !length_app. done.
  - rewrite !length_app in *. done.
  - apply Forall_app in Hent as [? [_ ?]%Forall_cons].
    apply Forall_app_2, Forall_cons_2; [done| |done].
    change ("=" +:+ v)%string with (String "="%char v).
    unfold str_has. by rewrite str_break_app.
  - rewrite !fmap_app, !fmap_cons in *. by rewrite env_kv_entry, <- He.
Qed.

Lemma env_wf_append es l k v :
  env_wf es l → str_has "="%char k = false → k ∉ (env_kv <$> l).*1 →
  (S (length l) < allocSz es)%nat →
  env_wf (mkEnvSet (<[length l := Some (k +:+ "=" +:+ v)%string]> <$> envp es)
            (allocSz es) (allocInc es))
         (l ++ [(k +:+ "=" +:+ v)%string]).
Proof.
  intros [Harr Hroom Hent Hnd] Hk Hn Hr. split; simpl.
  - rewrite Harr. simpl. f_equal.
    rewrite insert_app_r_alt by (rewrite length_fmap; lia).
    rewrite length_fmap, Nat.sub_diag, fmap_app, <- app_assoc, length_app. simpl.
    destruct (allocSz es - length l)%nat as [|m] eqn:E; [lia|]. simpl.
    do 3 f_equal. lia.
  - rewrite length_app. simpl. lia.
  - apply Forall_app_2; [done|]. constructor; [|done].
    change ("=" +:+ v)%string with (String "="%char v).
    unfold str_has. by rewrite str_break_app.
  - rewrite !fmap_app. simpl. rewrite env_kv_entry by done.
    apply NoDup_app. split_and!; [done| |apply NoDup_singleton]. set_solver.
Qed.

Lemma env_wf_grow es l n :
  env_wf es l →
  env_wf (mkEnvSet ((λ a, a ++ replicate n None) <$> envp es) (allocSz es + n) (allocInc es)) l.
Proof.
  intros [Harr Hroom Hent Hnd]. split; simpl; [|lia|done..].
  rewrite Harr. simpl. f_equal. rewrite <- app_assoc, <- replicate_add. do 2 f_equal. lia.
Qed.

Section Spec.
Context {S : Type} `{Faulty S}.
Implicit Types s : S.

(** What a call of crinitEnvSetSet() leaves behind, whichever library calls
    fail: a well-formed set with the new binding, or -1 and the old one. *)
Definition set_post (es : crinitEnvSet) l k v s (r : Z * crinitEnvSet) (s' : S) : Prop :=
  (∃ fs, s' = set_faults fs s) ∧ allocInc r.2 = allocInc es ∧
  ∃ l', env_wf r.2 l' ∧
    ((r.1 = 0 ∧ env_map l' = <[k:=v]> (env_map l)) ∨ (r.1 = -1 ∧ l' = l)).

Lemma env_wf_lookup_new es l : env_wf es l → envp es ≫= (λ a, a !! length l) = Some None.
Proof.
  intros [Harr Hroom _ _]. rewrite Harr. simpl.
  rewrite lookup_app_r by (rewrite length_fmap; lia).
  rewrite length_fmap, Nat.sub_diag. apply lookup_replicate_2. lia.
Qed.

Lemma env_wf_lookup_old es l1 e l2 :
  env_wf es (l1 ++ e :: l2) → envp es ≫= (λ a, a !! length l1) = Some (Some e).
Proof.
  intros [Harr Hroom _ _]. rewrite Harr. simpl.
  rewrite fmap_app, <- app_assoc, lookup_app_r by (rewrite length_fmap; lia).
  by rewrite length_fmap, Nat.sub_diag.
Qed.

Lemma wp_env_write es idx k v (Q : Z * crinitEnvSet → S → Prop) s :
  Z.of_nat (String.length (k +:+ "=" +:+ v)%string) ≤ INT_MAX →
  Q (0, mkEnvSet (<[idx := Some (k +:+ "=" +:+ v)%string]> <$> envp es)
          (allocSz es) (allocInc es)) s →
  wp (env_write es idx k v) Q s.
Proof.
  intros Hlen HQ. unfold env_write. destruct (Z.ltb_spec INT_MAX
    (Z.of_nat (String.length (k +:+ "=" +:+ v)%string))); [lia|]. by apply wp_ret.
Qed.

Lemma set_new es l k v s :
  env_wf es l → str_has "="%char k = false → env_pos k l = None →
  Z.of_nat (String.length (k +:+ "=" +:+ v)%string) ≤ INT_MAX →
  wp (crinitEnvSetSet es k v) (set_post es l k v s) s.
Proof.
  intros Hwf Hk Hpos Hlen. unfold crinitEnvSetSet.
  rewrite (env_wf_valid _ _ Hwf), (search_wf _ _ _ Hwf Hk), Hpos. simpl.
  rewrite (env_wf_lookup_new _ _ Hwf).
  assert (k ∉ (env_kv <$> l).*1) as Hn.
  { eapply env_pos_None; [done|by destruct Hwf|done]. }
  apply wp_bind. destruct (Nat.leb_spec (allocSz es - 1) (length l)) as [Hfull|Hroom].
  - unfold crinitEnvSetGrow. destruct (Nat.eqb_spec (allocInc es) 0).
    { apply wp_ret. simpl. apply wp_ret. split_and!; [apply same_faults|done|eauto]. }
    apply wp_bind, wp_fallible. intros [] fs; apply wp_ret; simpl.
    { apply wp_ret. split_and!; [eauto|done|eauto]. }
    pose proof (env_wf_grow es l (allocInc es) Hwf) as Hwf'.
    apply wp_bind, wp_fallible. intros [] fs'; rewrite set_faults_set.
    { apply wp_ret. split_and!; [eauto|done|eauto]. }
    apply wp_env_write; [done|]. split_and!; [eauto|done|].
    eexists. split; [apply env_wf_append; [done..|simpl; destruct Hwf; lia]|].
    left. split; [done|by apply env_map_insert_new].
  - apply wp_ret. simpl. apply wp_bind, wp_fallible. intros [] fs.
    { apply wp_ret. split_and!; [eauto|done|eauto]. }
    apply wp_env_write; [done|]. split_and!; [eauto|done|].
    eexists. split; [apply env_wf_append; [done..|lia]|].
    left. split; [done|by apply env_map_insert_new].
Qed.

Lemma set_existing es l k v s i :
  env_wf es l → str_has "="%char k = false → env_pos k l = Some i →
  Z.of_nat (String.length (k +:+ "=" +:+ v)%string) ≤ INT_MAX →
  wp (crinitEnvSetSet es k v) (set_post es l k v s) s.
Proof.
  intros Hwf Hk Hpos Hlen. unfold crinitEnvSetSet.
  rewrite (env_wf_valid _ _ Hwf), (search_wf _ _ _ Hwf Hk), Hpos. simpl.
  destruct (env_pos_first _ _ _ Hk (env_entries _ _ Hwf) Hpos)
    as (l1 & e & l2 & -> & -> & He & Hl1).
  rewrite (env_wf_lookup_old _ _ _ _ Hwf). apply wp_bind.
  assert (∀ s', (∃ fs, s' = set_faults fs s) →
    wp (env_write es (length l1) k v) (set_post es (l1 ++ e :: l2) k v s) s') as Hw.
  { intros s' Hs'. apply wp_env_write; [done|]. split_and!; [done..|].
    eexists. split; [by eapply env_wf_update|]. left. split; [done|by eapply env_map_update]. }
  case_if.
  - apply wp_ret, Hw, same_faults.
  - apply wp_fallible. intros [] fs; [|apply Hw; eauto].
    apply wp_ret. split_and!; [eauto|done|eauto].
Qed.

Lemma set_quiet_result es l k v s :
  env_wf es l → quiet s →
  Z.of_nat (String.length (k +:+ "=" +:+ v)%string) ≤ INT_MAX →
  wlp (crinitEnvSetSet es k v) (λ r s', s' = s ∧ ((0 < allocInc es)%nat → r.1 = 0)) s.
Proof.
  intros Hwf Hq Hlen. unfold crinitEnvSetSet.
  rewrite (env_wf_valid _ _ Hwf). simpl.
  assert (∀ es' idx, wlp (env_write es' idx k v) (λ r s', s' = s ∧ ((0 < allocInc es)%nat → r.1 = 0)) s) as Hw.
  { intros es' idx. apply wp_wlp, wp_env_write; done. }
  destruct (crinitEnvSetSearch es k); [|done].
  destruct (_ ≫= _) as [[e|]|]; [| |done].
  - apply wlp_bind. case_if; [apply Hw|]. apply wp_wlp, wp_fallible_quiet; [done|].
    apply Hw.
  - apply wlp_bind, wp_wlp. case_if.
    + unfold crinitEnvSetGrow. destruct (Nat.eqb_spec (allocInc es) 0).
      { apply wp_ret. simpl. apply wp_wlp, wp_ret. split; [done|simpl; lia]. }
      apply wp_bind, wp_fallible_quiet, wp_ret; [done|]. simpl.
      apply wlp_bind, wp_wlp, wp_fallible_quiet; [done|]. apply Hw.
    + apply wp_ret. simpl. apply wlp_bind, wp_wlp, wp_fallible_quiet; [done|]. apply Hw.
Qed.

Lemma insert_terminated (l : list string) e n :
  (length l < n)%nat →
  <[length l := Some e]> ((Some <$> l) ++ replicate (n - length l) None) =
  (Some <$> l ++ [e]) ++ replicate (n - Datatypes.S (length l)) None.
Proof.
  intros Hn. rewrite insert_app_r_alt by (rewrite length_fmap; lia).
  rewrite length_fmap, Nat.sub_diag, fmap_app, <- app_assoc. f_equal. simpl.
  by replace (n - length l)%nat with (Datatypes.S (n - Datatypes.S (length l))) by lia.
Qed.

Lemma destroy_terminated (l : list string) n m inc s :
  (0 < n)%nat →
  crinitEnvSetDestroy (mkEnvSet (Some ((Some <$> l) ++ replicate n None)) m inc) s =
  Ret (0, mkEnvSet None 0 0) s.
Proof.
  intros Hn. unfold crinitEnvSetDestroy. simpl. destruct (index_of _ _) eqn:Ei; [done|].
  rewrite index_of_None in Ei. specialize (Ei None).
  rewrite bool_decide_eq_true_2 in Ei by done. discriminate Ei.
  apply elem_of_app. right. apply elem_of_replicate. split; [done|lia].
Qed.

(** The entries [l1] have been duplicated, [l2] are still to come. *)
Lemma dup_loop n l2 l1 inc s :
  (length l1 + length l2 < n)%nat →
  let arr l := (Some <$> l) ++ replicate (n - length l) None in
  wp (crinitEnvSetDupLoop ((Some <$> l2) ++ replicate (n - length (l1 ++ l2)) None)
        (length l1) (mkEnvSet (Some (arr l1)) n inc))
     (λ r s', only_faults s s' ∧
        (r = (0, mkEnvSet (Some (arr (l1 ++ l2))) n inc) ∨
         (r = (-1, mkEnvSet None 0 0) ∧ ¬ quiet s))) s.
Proof.
  revert l1 s. induction l2 as [|e l2 IH]; intros l1 s Hn; simpl in *.
  { rewrite app_nil_r. destruct (n - length l1)%nat eqn:E; [lia|]. simpl.
    apply wp_ret. split; [done|by left]. }
  apply wp_bind, wp_fallible_why. intros [] s1 Hs1 Hb.
  { apply wp_bind. eapply wp_intro; [apply destroy_terminated; lia|].
    apply wp_ret. split; [done|right]. split; [done|]. by intros ?%Hb. }
  rewrite length_app, length_fmap, length_replicate.
  destruct (Nat.ltb_spec (length l1) (length l1 + (n - length l1))); [|lia].
  rewrite insert_terminated by lia.
  specialize (IH (l1 ++ [e]) s1). rewrite <- !app_assoc in IH.
  rewrite !length_app in *. simpl in *. rewrite Nat.add_1_r in IH.
  eapply wp_mono; [|apply IH; lia]. intros r s' [Hs' Hr]. split; [by etrans|].
  pose proof (only_faults_quiet _ _ Hs1). naive_solver.
Qed.

Lemma dup_wf copy es l s :
  env_wf es l →
  wp (crinitEnvSetDup copy es)
     (λ r s', only_faults s s' ∧
        (r = (0, es) ∨ (r.1 = -1 ∧ envp r.2 = None ∧ ¬ quiet s))) s.
Proof.
  intros [Harr Hroom _ _]. unfold crinitEnvSetDup. rewrite Harr.
  unfold crinitEnvSetInit. apply wp_bind, wp_bind, wp_fallible_why. intros [] s1 Hs1 Hb.
  { apply wp_ret. simpl. apply wp_ret. split; [done|right].
    split_and!; [done..|]. by intros ?%Hb. }
  apply wp_ret. simpl. pose proof (only_faults_quiet _ _ Hs1).
  pose proof (dup_loop (allocSz es) l [] (allocInc es) s1 Hroom) as Hl.
  simpl in Hl. rewrite Nat.sub_0_r in Hl. eapply wp_mono; [|apply Hl].
  intros r s' [Hs' Hr]. split; [by etrans|]. destruct Hr as [->|[-> Hq]].
  - left. rewrite <- Harr. by destruct es.
  - right. split_and!; [done..|]. naive_solver.
Qed.

Lemma set_wf es l k v s :
  env_wf es l → str_has "="%char k = false →
  Z.of_nat (String.length (k +:+ "=" +:+ v)%string) ≤ INT_MAX →
  wp (crinitEnvSetSet es k v) (set_post es l k v s) s.
Proof.
  intros Hwf Hk Hlen. destruct (env_pos k l) eqn:Hpos; [by eapply set_existing|by apply set_new].
Qed.

Lemma get_wf es l k s :
  env_wf es l → str_has "="%char k = false → crinitEnvSetGet es k s = Ret (env_map l !! k) s.
Proof.
  intros Hwf Hk. unfold crinitEnvSetGet.
  rewrite (env_wf_valid _ _ Hwf), (search_wf _ _ _ Hwf Hk). simpl.
  pose proof (env_entries _ _ Hwf) as Hent. destruct (env_pos k l) as [i|] eqn:Hpos; simpl.
  - destruct (env_pos_first _ _ _ Hk Hent Hpos) as (l1 & e & l2 & -> & -> & He & Hl1).
    rewrite (env_wf_lookup_old _ _ _ _ Hwf). unfold mret, M_ret. f_equal.
    unfold env_map. rewrite fmap_app, list_to_map_app, fmap_cons.
    rewrite lookup_union_r by (by apply not_elem_of_list_to_map_1).
    simpl. rewrite He, lookup_insert_eq.
    apply Forall_app in Hent as [_ [He' _]%Forall_cons].
    unfold crinitEnvSetGetVal, env_kv, str_has in *. by destruct (str_break _ e).
  - rewrite (env_wf_lookup_new _ _ Hwf). unfold mret, M_ret. f_equal. symmetry.
    apply not_elem_of_list_to_map_1. by apply env_pos_None.
Qed.
End Spec.

(** ** Properties *)

Section Theorems.
Context {S : Type} `{Faulty S}.
Implicit Types s : S.

(** CrinitEnvSetSet() on a well-formed set and a key without '=' refines
    the insertion into the finite map of the set, whichever library calls
    fail: it always returns, the result is 0 with the binding inserted or -1
    with the bindings unchanged, the set stays NULL-terminated inside its
    allocation with unique keys, and without failing allocations and with a
    positive growth increment the result is 0. *)
Theorem crinitEnvSetSet_refines_insert es l k v s :
  env_wf es l → str_has "="%char k = false →
  Z.of_nat (String.length (k +:+ "=" +:+ v)%string) ≤ INT_MAX →
  wp (crinitEnvSetSet es k v)
     (λ r _, allocInc r.2 = allocInc es ∧ (∃ l', env_wf r.2 l' ∧
        ((r.1 = 0 ∧ env_map l' = <[k:=v]> (env_map l)) ∨ (r.1 = -1 ∧ l' = l))) ∧
        (quiet s → (0 < allocInc es)%nat → r.1 = 0)) s.
Proof.
  intros Hwf Hk Hlen.
  pose proof (set_wf es l k v s Hwf Hk Hlen) as Hset. apply wp_elim in Hset as ([r es'] & s' & Hrun & _ & Hinc & Hl').
  eapply wp_intro; [done|]. split_and!; [done..|]. intros Hq Hpos.
  pose proof (set_quiet_result es l k v s Hwf Hq Hlen) as Hr.
  by apply (wlp_elim _ _ _ _ _ Hr Hrun).
Qed.

(** crinitEnvSetGet() on a well-formed set is the lookup in the finite
    map of the set; it reads inside the allocation and changes nothing. *)
Theorem crinitEnvSetGet_refines_lookup es l k s :
  env_wf es l → str_has "="%char k = false →
  crinitEnvSetGet es k s = Ret (env_map l !! k) s.
Proof.
  apply get_wf.
Qed.

(** crinitEnvSetDup() copies a well-formed set: it returns 0 with an
    equal array, size and increment, or -1 with a NULL array, and the latter
    only if an allocation failed. *)
Theorem crinitEnvSetDup_copies copy es l s :
  env_wf es l →
  wp (crinitEnvSetDup copy es)
     (λ r _, r = (0, es) ∨ (r.1 = -1 ∧ envp r.2 = None ∧ ¬ quiet s)) s.
Proof.
  intros Hwf. eapply wp_mono; [|by apply (dup_wf copy es l s)]. by intros r s' [_ Hr].
Qed.

(** crinitEnvSetSet() with a key that contains '=' does not report the
    error its search finds: on every initialised set it goes on to write
    through envp[-1], which is undefined. *)
Theorem crinitEnvSetSet_bad_key_undefined es k v s :
  crinitEnvSetValid es = true → str_has "="%char k = true →
  crinitEnvSetSet es k v s = Undef.
Proof.
  intros Hv Hk. unfold crinitEnvSetSet, crinitEnvSetSearch. rewrite Hv, Hk. simpl.
  by destruct (envp es).
Qed.
End Theorems.

(** ** Witnesses *)

Definition demo_set : crinitEnvSet := mkEnvSet (Some [Some "A=1"%string; Some "PATH=/bin"%string; None]) 3 2.

Lemma demo_set_wf : env_wf demo_set ["A=1"%string; "PATH=/bin"%string].
Proof. split; [reflexivity|simpl; lia|repeat constructor|]. by apply (bool_decide_unpack _). Qed.

Lemma crinitEnvSetSet_refines_insert_witness :
  wp (crinitEnvSetSet (S := list bool) demo_set "B" "x=y")
    (λ r _, allocInc r.2 = 2%nat ∧ (∃ l', env_wf r.2 l' ∧
       ((r.1 = 0 ∧ env_map l' = <["B":="x=y"]> (env_map ["A=1"; "PATH=/bin"])) ∨
        (r.1 = -1 ∧ l' = ["A=1"; "PATH=/bin"]))) ∧
       (quiet [] → (0 < 2)%nat → r.1 = 0))%string [].
Proof.
  apply (crinitEnvSetSet_refines_insert demo_set ["A=1"; "PATH=/bin"]%string);
    [apply demo_set_wf|reflexivity|vm_compute; discriminate].
Defined.

Lemma crinitEnvSetGet_refines_lookup_witness :
  crinitEnvSetGet demo_set "PATH" [true] = Ret (Some "/bin"%string) [true].
Proof.
  rewrite (crinitEnvSetGet_refines_lookup demo_set ["A=1"; "PATH=/bin"]%string);
    [vm_compute; reflexivity|apply demo_set_wf|reflexivity].
Defined.

Lemma crinitEnvSetDup_copies_witness :
  wp (crinitEnvSetDup (mkEnvSet None 0 0) demo_set)
     (λ r _, r = (0, demo_set) ∨ (r.1 = -1 ∧ envp r.2 = None ∧ ¬ quiet [false; true])) [false; true].
Proof. exact (crinitEnvSetDup_copies _ demo_set _ [false; true] demo_set_wf). Defined.

Lemma crinitEnvSetSet_bad_key_undefined_witness :
  crinitEnvSetSet demo_set "A=B" "1" [] = Undef.
Proof. apply (crinitEnvSetSet_bad_key_undefined demo_set); reflexivity. Defined.
