(* ===== verification/Timer.v ===== *)
(** * Timers: src/timer.c and the setters of src/timer_parser.re

    Timer definitions are ranges per calendar field; the file models the check
    of a time against a definition, the computation of the next time and the
    range setters of the parser on C's fixed-width fields.  [gmtime_r] is the
    proleptic Gregorian calendar of the C library. *)

From Stdlib Require Import ZArith Lia Bool List String Ascii.
From stdpp Require Import base list strings.
From S2P Require Import Prelude.

Open Scope Z_scope.
Open Scope crinit_scope.

Record timespec := mkTimespec { tv_sec : Z; tv_nsec : Z }.

#[export] Instance timespec_eq_dec : EqDecision timespec.
Proof. solve_decision. Defined.

(** The fields of [struct tm] the code reads. *)
Record tm := mkTm {
  tm_sec : Z; tm_min : Z; tm_hour : Z; tm_mday : Z; tm_mon : Z; tm_year : Z;
  tm_wday : Z; tm_gmtoff : Z;
}.

(** A two-element array field of the C struct. *)
Definition range : Type := Z * Z.

Record crinitTimerDef := mkTimerDef {
  wDay : Z;           (* uint8_t bit mask, bit 0 is Monday *)
  years : range;      (* uint16_t *)
  month : range;      (* uint8_t, as all that follow *)
  days : range;
  hours : range;
  minutes : range;
  seconds : range;
  timezone : range;   (* int8_t *)
}.

#[export] Instance timerdef_eq_dec : EqDecision crinitTimerDef.
Proof. solve_decision. Defined.

(** ** Calendar of the C library *)

(** Days since 1970-01-01 to (year, month 1..12, day of month). *)
Definition civil_of_doe (doe : Z) : Z * Z * Z :=
  let yoe := (doe - doe / 1460 + doe / 36524 - doe / 146096) / 365 in
  let doy := doe - (365 * yoe + yoe / 4 - yoe / 100) in
  let mp := (5 * doy + 2) / 153 in
  let d := doy - (153 * mp + 2) / 5 + 1 in
  let m := if mp <? 10 then mp + 3 else mp - 9 in
  ((if m <=? 2 then yoe + 1 else yoe), m, d).

Definition civil_from_days (n : Z) : Z * Z * Z :=
  let z := n + 719468 in
  let '(y, m, d) := civil_of_doe (z mod 146097) in
  (y + 400 * (z / 146097), m, d).

Definition gmtime_r (t : Z) : tm :=
  let n := t / 86400 in
  let r := t mod 86400 in
  let '(y, m, d) := civil_from_days n in
  mkTm (r mod 60) (r / 60 mod 60) (r / 3600) d (m - 1) (y - 1900) ((n + 4) mod 7) 0.

(** ** The range macros of timer.h *)

Definition CO_RANGE (start test_ end_ : Z) : bool := (start <=? test_) && (test_ <? end_).
Definition CC_RANGE (start test_ end_ : Z) : bool := (start <=? test_) && (test_ <=? end_).
Definition OC_RANGE (start test_ end_ : Z) : bool := (start <? test_) && (test_ <=? end_).

(** ** timer.c *)

Definition crinitTimerSetDefault : crinitTimerDef :=
  mkTimerDef 127 (0, 65535) (1, 12) (1, 31) (0, 0) (0, 0) (0, 0) (0, 0).

Definition crinitIsLeapYear (year : Z) : bool :=
  (year mod 4 =? 0) && (negb (year mod 100 =? 0) || (year mod 400 =? 0)).

Definition crinitMonthToStr (m : Z) : string :=
  nth (Z.to_nat m)
    [""; "Jan"; "Feb"; "Mar"; "Apr"; "May"; "Jun"; "Jul"; "Aug"; "Sep"; "Oct"; "Nov"; "Dec"]
    ""%string.

(** One pass of the first loop of crinitCheckTimerDef(), for array index [i]. *)
Definition check_def_fields (mon day hour minute sec : Z) : bool :=
  negb ((mon =? 0) || (12 <? mon)) && negb (31 <? day) && negb (23 <? hour)
  && negb (59 <? minute) && negb (59 <? sec).

Definition crinitCheckTimerDef (td : crinitTimerDef) : bool :=
  let res := check_def_fields (month td).1 (days td).1 (hours td).1 (minutes td).1 (seconds td).1
          && check_def_fields (month td).2 (days td).2 (hours td).2 (minutes td).2 (seconds td).2 in
  let res := if (0 >? (timezone td).2) || (59 <? (timezone td).2) then false else res in
  let m := (month td).1 in
  let one_month := (month td).1 =? (month td).2 in
  let res :=
    if one_month && ((4 =? m) || (6 =? m) || (9 =? m) || (11 =? m))
       && ((31 =? (days td).1) || (31 =? (days td).2)) then false else res in
  if one_month && (2 =? m) then
    let minWrong :=
      if ((years td).1 =? (years td).2) && crinitIsLeapYear (years td).1 then 29 else 30 in
    let wrong d := (minWrong <=? d) && (31 >? d) in
    if wrong (days td).1 || wrong (days td).2 then false else res
  else res.

Definition crinitMonthLength (month year : Z) : Z :=
  match month with
  | 1 | 3 | 5 | 7 | 8 | 10 | 12 => 31
  | 4 | 6 | 9 | 11 => 30
  | 2 => if crinitIsLeapYear year then 29 else 28
  | _ => -1
  end.

(** (found without rolling over, next value, its distance to [last]) *)
Definition crinitNext (last : Z) (interval : range) (start limit : Z) : bool * Z * Z :=
  let r0 := uint8 (if start <=? interval.1 then interval.1 else start) in
  let r1 := uint8 (if interval.2 <=? limit then interval.2 else limit) in
  let off :=
    if r0 =? r1 then r0 - last
    else if r0 <? r1 then (if CO_RANGE r0 last r1 then 1 else r0 - last)
    else if CO_RANGE r1 last r0 then r0 - last
    else if last =? limit then - (limit - start)
    else 1 in
  (0 <? off, last + off, off).

(** [res] and [offs] are the values of the result arguments before the call. *)
Definition crinitNextYear (last : Z) (interval : range) (res offs : Z) : bool * Z * Z :=
  let '(i0, i1) := interval in
  if i0 =? i1 then (false, res, offs)
  else if i0 <? i1 then
    if CO_RANGE i0 last i1 then (true, last + 1, 1) else (false, res, offs)
  else if last <? i1 then (true, last + 1, 1)
  else if i0 <=? last then (true, last + 1, 1)
  else (false, i0, i0 - last).

Definition crinitDayToMonthLookup (m : Z) : Z :=
  nth (Z.to_nat m) [0; 0; 31; 59; 90; 120; 151; 181; 212; 243; 273; 304; 334] 0.

Definition crinitDaysToMonth (m year : Z) : Z :=
  if negb (m =? 0) && (m <=? 2) then crinitDayToMonthLookup m
  else if m <=? 12 then crinitDayToMonthLookup m + (if crinitIsLeapYear year then 1 else 0)
  else -1.

Definition crinitZonedTimeR (time : Z) (timezone : range) : tm :=
  let off := timezone.1 * 3600 + timezone.2 * 60 in
  let t := gmtime_r (time + off) in
  mkTm (tm_sec t) (tm_min t) (tm_hour t) (tm_mday t) (tm_mon t) (tm_year t) (tm_wday t) off.

(** The test of one field as five of the six fields have it ... *)
Definition check_field (r : range) (x : Z) : bool :=
  CC_RANGE r.1 x r.2 || CO_RANGE x r.2 r.1 || OC_RANGE r.2 r.1 x.

(** ... and the test of the minutes, whose last disjunct is different. *)
Definition check_minutes (r : range) (x : Z) : bool :=
  CC_RANGE r.1 x r.2 || CO_RANGE x r.2 r.1 || OC_RANGE r.1 r.2 x.

Definition crinitCheckTimerTime (ts : timespec) (td : crinitTimerDef) : bool :=
  let t := crinitZonedTimeR (tv_sec ts) (timezone td) in
  let mon := uint8 (tm_mon t + 1) in
  let year := uint16 (tm_year t + 1900) in
  let wd := uint8 (Z.shiftl 1 ((tm_wday t + 6) mod 7)) in
  check_field (seconds td) (tm_sec t) && check_minutes (minutes td) (tm_min t)
  && check_field (hours td) (tm_hour t) && check_field (days td) (tm_mday t)
  && check_field (month td) mon && check_field (years td) year
  && (wd &? wDay td).

(** The variables of crinitTimerNextTime() that live across its loop. *)
Record next_vars := mkNextVars {
  nv_done : bool; nv_day : Z; nv_month : Z; nv_year : Z; nv_offDays : Z; nv_off : Z;
}.

(** The day, month and year updates of one loop iteration. *)
Definition next_day (td : crinitTimerDef) (v : next_vars) : next_vars :=
  let 'mkNextVars done day mon year offDays off := v in
  if negb done || negb (CC_RANGE (days td).1 day (days td).2) then
    if ((days td).1 =? 29) && ((days td).2 =? 29) && ((month td).1 =? 2)
       && ((month td).2 =? 2) && (day =? 29)
    then mkNextVars false day mon year offDays off
    else
      let ml := crinitMonthLength (uint8 mon) (uint16 year) in
      let '(done, day', off) := crinitNext day (days td) 1 ml in
      mkNextVars done day' mon year (offDays + off) off
  else v.

Definition next_month (td : crinitTimerDef) (v : next_vars) : next_vars :=
  let 'mkNextVars done day mon year offDays off := v in
  if negb done || negb (CC_RANGE (month td).1 mon (month td).2) then
    let '(done, mon', off) := crinitNext mon (month td) 1 12 in
    mkNextVars done day mon' year
      (offDays + (crinitDaysToMonth (uint8 mon') (uint16 year)
                  - crinitDaysToMonth (uint8 mon) (uint16 year))) off
  else v.

Definition next_year (td : crinitTimerDef) (v : next_vars) : next_vars :=
  let 'mkNextVars done day mon year offDays off := v in
  if negb done || negb (CC_RANGE (years td).1 year (years td).2) then
    let '(done, year', off) := crinitNextYear year (years td) year off in
    mkNextVars done day mon year'
      (offDays + off * (365 + (if crinitIsLeapYear (uint16 year) then 1 else 0))) off
  else v.

Definition next_date (td : crinitTimerDef) (v : next_vars) : next_vars :=
  next_year td (next_month td (next_day td v)).

(** The do-while loop: [tries] more iterations are allowed after this one;
    [base] is last->tv_sec plus the offset of the time of day. *)
Fixpoint next_loop (tries : nat) (td : crinitTimerDef) (base nsec : Z) (v : next_vars)
    : option timespec :=
  let v := next_date td v in
  if negb (nv_done v) then None
  else
    let next := mkTimespec (base + nv_offDays v * 86400) nsec in
    if crinitCheckTimerTime next td then Some next
    else
      match tries with
      | O => None
      | S tries =>
          next_loop tries td base nsec
            (mkNextVars false (nv_day v) (nv_month v) (nv_year v) (nv_offDays v) (nv_off v))
      end.

(** The updates of second, minute and hour: (done, offSec, offMin, offHour). *)
Definition next_clock (td : crinitTimerDef) (t : tm) : bool * Z * Z * Z :=
  let '(done, _, offSec) := crinitNext (tm_sec t) (seconds td) 0 59 in
  let '(done, offMin) :=
    if negb done || negb (CC_RANGE (minutes td).1 (tm_min t) (minutes td).2) then
      let '(done, _, o) := crinitNext (tm_min t) (minutes td) 0 59 in (done, o)
    else (done, 0) in
  let '(done, offHour) :=
    if negb done || negb (CC_RANGE (hours td).1 (tm_hour t) (hours td).2) then
      let '(done, _, o) := crinitNext (tm_hour t) (hours td) 0 23 in (done, o)
    else (done, 0) in
  (done, offSec, offMin, offHour).

Definition crinitTimerNextTime (last : timespec) (td : crinitTimerDef) : timespec :=
  let t := crinitZonedTimeR (tv_sec last) (timezone td) in
  let '(done, offSec, offMin, offHour) := next_clock td t in
  let v := mkNextVars done (tm_mday t) (tm_mon t + 1) (tm_year t + 1900) 0 0 in
  match next_loop 41 td (tv_sec last + offSec + offMin * 60 + offHour * 3600)
          (tv_nsec last) v with
  | Some next => next
  | None => mkTimespec 0 0
  end.

(** ** The setters of timer_parser.re *)

(** The do-while loop of crinitTimerSetWeekdays(); a [uint8_t] is shifted out
    after at most eight rounds. *)
Fixpoint weekdays_loop (fuel : nat) (days start end_ : Z) : Z :=
  let days := Z.lxor days start in
  let start := uint8 (Z.shiftl start 1) in
  match fuel with
  | O => days
  | S fuel => if (start <=? end_) && negb (0 =? start) then weekdays_loop fuel days start end_ else days
  end.

Definition crinitTimerSetWeekdays (start end_ : Z) (td : crinitTimerDef) : bool * crinitTimerDef :=
  let set w := mkTimerDef w (years td) (month td) (days td) (hours td) (minutes td)
                 (seconds td) (timezone td) in
  if 255 =? end_ then (true, set start)
  else if end_ <? start then
    (true, set (weekdays_loop 8 255 (uint8 (Z.shiftl end_ 1)) (Z.shiftr start 1)))
  else (true, set (weekdays_loop 8 0 start end_)).

(** ** The calendar is well-formed *)

Module Calendar.
(** First day of the March-based year [y] of an era, and the year number
    before the division by 365. *)
Definition year_start (y : Z) : Z := 365 * y + y / 4 - y / 100.
Definition year_num (doe : Z) : Z := doe - doe / 1460 + doe / 36524 - doe / 146096.

Lemma year_num_step a : 0 ≤ a < 146096 → year_num a ≤ year_num (a + 1).
Proof.
  intros Ha. unfold year_num. rewrite (Z.div_small a 146096) by lia.
  assert ((a + 1) / 1460 ≤ a / 1460 + 1) by (Z.div_mod_to_equations; lia).
  assert (a / 36524 ≤ (a + 1) / 36524) by (apply Z.div_le_mono; lia).
  destruct (Z.eq_dec a 146095) as [->|]; [vm_compute; discriminate|].
  rewrite (Z.div_small (a + 1) 146096) by lia. lia.
Qed.

Lemma year_num_mono a b : 0 ≤ a ≤ b → b ≤ 146096 → year_num a ≤ year_num b.
Proof.
  intros Ha Hb. remember (Z.to_nat (b - a)) as k eqn:Hk. revert a Ha Hk.
  induction k as [|k IH]; intros a Ha Hk.
  - assert (a = b) as -> by lia. done.
  - etransitivity; [apply year_num_step; lia|]. apply IH; lia.
Qed.

Definition year_ok (y : Z) : bool :=
  let a := year_start y in
  let b := if y =? 399 then 146097 else year_start (y + 1) in
  (year_num a / 365 =? y) && (year_num (b - 1) / 365 =? y)
  && (b - a =? 365 + (if crinitIsLeapYear (y + 1) then 1 else 0)).

Lemma years_ok : forallb year_ok (Z.of_nat <$> seq 0 400) = true.
Proof. vm_compute. reflexivity. Qed.

Lemma year_ok_at y : 0 ≤ y < 400 → year_ok y = true.
Proof.
  intros Hy. eapply forallb_forall; [apply years_ok|].
  apply list_elem_of_In, list_elem_of_fmap. exists (Z.to_nat y). split; [lia|].
  apply elem_of_seq. lia.
Qed.

(** The year of an era a day lies in, and the day within it. *)
Lemma doe_year doe :
  0 ≤ doe < 146097 →
  ∃ y, 0 ≤ y < 400 ∧ year_num doe / 365 = y ∧
    0 ≤ doe - year_start y < 365 + (if crinitIsLeapYear (y + 1) then 1 else 0).
Proof.
  intros Hd. set (y := doe / 366).
  assert (∀ n, 0 ≤ n ≤ 400 → year_start n ≤ doe →
    ∃ y, 0 ≤ y < 400 ∧ year_start y ≤ doe ∧
      (doe < (if y =? 399 then 146097 else year_start (y + 1)))) as Hex.
  { intros n. remember (Z.to_nat (400 - n)) as k eqn:Hk. revert n Hk.
    induction k as [|k IH]; intros n Hk Hn Hle.
    - assert (n = 400) as -> by lia. change (year_start 400) with 146096 in Hle.
      exists 399. change (year_start 399) with 145731. change (399 =? 399) with true. lia.
    - destruct (Z.lt_ge_cases doe (if n =? 399 then 146097 else year_start (n + 1))) as [Hlt|Hge].
      + exists n. lia.
      + apply (IH (n + 1)); [lia|lia|]. destruct (Z.eqb_spec n 399); cbn iota in Hge; lia. }
  destruct (Hex 0) as (y' & Hy' & Hlo & Hhi); [lia|change (year_start 0) with 0; lia|].
  exists y'. pose proof (year_ok_at _ Hy') as Hok. unfold year_ok in Hok. bool_hyps.
  split; [done|]. split; [|lia].
  set (b := if y' =? 399 then 146097 else year_start (y' + 1)) in *.
  assert (0 ≤ year_start y') by (unfold year_start; Z.div_mod_to_equations; lia).
  assert (b ≤ 146097).
  { subst b. destruct (Z.eqb_spec y' 399); [lia|].
    unfold year_start. Z.div_mod_to_equations. lia. }
  assert (year_num (year_start y') / 365 ≤ year_num doe / 365)
    by (apply Z.div_le_mono, year_num_mono; lia).
  assert (year_num doe / 365 ≤ year_num (b - 1) / 365)
    by (apply Z.div_le_mono, year_num_mono; lia).
  lia.
Qed.

(** Month and day of month of a day in a March-based year. *)
Definition md (doy : Z) : Z * Z :=
  let mp := (5 * doy + 2) / 153 in
  (if mp <? 10 then mp + 3 else mp - 9, doy - (153 * mp + 2) / 5 + 1).

Definition md_ok (doy : Z) : bool :=
  let '(m, d) := md doy in
  (1 <=? m) && (m <=? 12) && (1 <=? d)
  && (d <=? crinitMonthLength m (if doy =? 365 then 4 else 1)) && (if doy =? 365 then m =? 2 else true).

Lemma mds_ok : forallb md_ok (Z.of_nat <$> seq 0 366) = true.
Proof. vm_compute. reflexivity. Qed.

Lemma md_ok_at doy : 0 ≤ doy < 366 → md_ok doy = true.
Proof.
  intros Hy. eapply forallb_forall; [apply mds_ok|].
  apply list_elem_of_In, list_elem_of_fmap. exists (Z.to_nat doy). split; [lia|].
  apply elem_of_seq. lia.
Qed.

Lemma month_length_mono m y y' :
  (crinitIsLeapYear y = true → crinitIsLeapYear y' = true) →
  crinitMonthLength m y ≤ crinitMonthLength m y'.
Proof.
  intros Hl. unfold crinitMonthLength.
  destruct m as [|p|p]; [done| |done].
  repeat match goal with p : positive |- _ => destruct p; try done end.
  destruct (crinitIsLeapYear y); [rewrite Hl by done|destruct (crinitIsLeapYear y')]; lia.
Qed.

Lemma leap_400 y e : crinitIsLeapYear (y + 400 * e) = crinitIsLeapYear y.
Proof.
  unfold crinitIsLeapYear.
  replace ((y + 400 * e) mod 4) with (y mod 4) by (Z.div_mod_to_equations; lia).
  replace ((y + 400 * e) mod 100) with (y mod 100) by (Z.div_mod_to_equations; lia).
  by replace ((y + 400 * e) mod 400) with (y mod 400) by (Z.div_mod_to_equations; lia).
Qed.

Lemma civil_valid n y m d :
  civil_from_days n = (y, m, d) →
  1 ≤ m ≤ 12 ∧ 1 ≤ d ≤ crinitMonthLength m y ∧
  400 * ((n + 719468) / 146097) ≤ y ≤ 400 * ((n + 719468) / 146097) + 400.
Proof.
  unfold civil_from_days, civil_of_doe. set (z := n + 719468). set (doe := z mod 146097).
  assert (0 ≤ doe < 146097) as Hdoe by (apply Z.mod_pos_bound; lia).
  destruct (doe_year _ Hdoe) as (yoe & Hy & Hnum & Hdoy). unfold year_num in Hnum.
  rewrite Hnum. fold (year_start yoe). intros [= <- <- <-].
  set (doy := doe - year_start yoe) in *.
  assert (0 ≤ doy < 366) as Hd by (destruct (crinitIsLeapYear (yoe + 1)); lia).
  pose proof (md_ok_at _ Hd) as Hok. unfold md_ok, md in Hok.
  set (m := if (5 * doy + 2) / 153 <? 10 then (5 * doy + 2) / 153 + 3
            else (5 * doy + 2) / 153 - 9) in *.
  set (dd := doy - (153 * ((5 * doy + 2) / 153) + 2) / 5 + 1) in *.
  bool_hyps. split; [lia|]. split; [|destruct (m <=? 2); lia].
  split; [done|]. etransitivity; [eassumption|]. apply month_length_mono.
  destruct (Z.eqb_spec doy 365) as [E|]; [|done]. intros _.
  rewrite leap_400. assert (m = 2) as -> by lia. simpl.
  destruct (crinitIsLeapYear (yoe + 1)); [done|lia].
Qed.
End Calendar.

(** Times from 1970 until the year 60000, where the width of the year field
    does not matter. *)
Definition calendar_range (t : Z) : Prop := 0 ≤ t ≤ 1800000000000.

Lemma gmtime_fields t :
  calendar_range t →
  let g := gmtime_r t in
  1 ≤ tm_mon g + 1 ≤ 12 ∧
  1 ≤ tm_mday g ≤ crinitMonthLength (tm_mon g + 1) (tm_year g + 1900) ∧
  1600 ≤ tm_year g + 1900 < 65000 ∧ 0 ≤ tm_wday g ≤ 6.
Proof.
  unfold calendar_range. intros Ht. unfold gmtime_r. set (n := t / 86400).
  destruct (civil_from_days n) as [[y m] d] eqn:E. apply Calendar.civil_valid in E.
  simpl. replace (m - 1 + 1) with m by lia. replace (y - 1900 + 1900) with y by lia.
  assert (0 ≤ n ≤ 20833334) by (subst n; Z.div_mod_to_equations; lia).
  assert (4 ≤ (n + 719468) / 146097 ≤ 160) by (Z.div_mod_to_equations; lia).
  assert (0 ≤ (n + 4) mod 7 < 7) by (apply Z.mod_pos_bound; lia). lia.
Qed.

Lemma gmtime_clock t h m s :
  0 ≤ h ≤ 23 → 0 ≤ m ≤ 59 → 0 ≤ s ≤ 59 →
  t mod 86400 = 3600 * h + 60 * m + s ↔
  tm_hour (gmtime_r t) = h ∧ tm_min (gmtime_r t) = m ∧ tm_sec (gmtime_r t) = s.
Proof.
  intros Hh Hm Hs. unfold gmtime_r. destruct (civil_from_days _) as [[y mo] d]. simpl.
  Z.div_mod_to_equations. lia.
Qed.

(** ** Properties *)

(** A range that starts higher than it ends wraps around. *)
Definition in_cyclic (r : range) (x : Z) : Prop :=
  if r.1 <=? r.2 then r.1 ≤ x ≤ r.2 else r.1 ≤ x ∨ x ≤ r.2.

Lemma check_field_cyclic r x : check_field r x = true ↔ in_cyclic r x.
Proof.
  unfold check_field, in_cyclic, CC_RANGE, CO_RANGE, OC_RANGE.
  destruct (Z.leb_spec r.1 r.2); rewrite !orb_true_iff, !andb_true_iff,
    !Z.leb_le, !Z.ltb_lt; lia.
Qed.

(** The loop stops at the first date it computes that passes the check. *)
Lemma next_loop_found tries td base nsec v d :
  nv_done (next_date td v) = true → nv_offDays (next_date td v) = d →
  crinitCheckTimerTime (mkTimespec (base + d * 86400) nsec) td = true →
  next_loop tries td base nsec v = Some (mkTimespec (base + d * 86400) nsec).
Proof.
  intros Hd <- Hc. by destruct tries; cbn -[next_date crinitCheckTimerTime];
    rewrite Hd, Hc.
Qed.

(** The weekday mask set from two bits does not depend on the old definition. *)
Lemma weekdays_indep a b td :
  wDay (crinitTimerSetWeekdays a b td).2 = wDay (crinitTimerSetWeekdays a b crinitTimerSetDefault).2.
Proof. unfold crinitTimerSetWeekdays. by repeat case_if. Qed.

Definition weekday_ok (i j k : Z) : bool :=
  if i =? j + 1 then true
  else eqb (Z.testbit (wDay (crinitTimerSetWeekdays (Z.shiftl 1 i) (Z.shiftl 1 j)
                               crinitTimerSetDefault).2) k)
           (if i <=? j then (i <=? k) && (k <=? j) else (i <=? k) || (k <=? j)).

Definition week : list Z := [0; 1; 2; 3; 4; 5; 6].

Lemma weekdays_all :
  forallb (λ i, forallb (λ j, forallb (weekday_ok i j) week) week) week = true.
Proof. vm_compute. reflexivity. Qed.

Lemma in_week i : 0 ≤ i ≤ 6 → In i week.
Proof.
  intros Hi. assert (i = 0 ∨ i = 1 ∨ i = 2 ∨ i = 3 ∨ i = 4 ∨ i = 5 ∨ i = 6) as Hc by lia.
  unfold week. destruct_or! Hc; subst i; simpl; tauto.
Qed.

Lemma weekdays_at i j k : 0 ≤ i ≤ 6 → 0 ≤ j ≤ 6 → 0 ≤ k ≤ 6 → weekday_ok i j k = true.
Proof.
  intros Hi%in_week Hj%in_week Hk%in_week. pose proof weekdays_all as H.
  rewrite forallb_forall in H. specialize (H i Hi). rewrite forallb_forall in H.
  specialize (H j Hj). rewrite forallb_forall in H. by apply H.
Qed.

(** Testing a single-bit mask is testing the bit. *)
Lemma weekday_bit w i :
  0 ≤ i < 7 → uint8 (Z.shiftl 1 i) &? w = true ↔ Z.testbit w i = true.
Proof.
  intros Hi. unfold has_bits. rewrite uint8_small.
  - rewrite negb_true_iff, Z.eqb_neq, Z.shiftl_1_l. split.
    + intros Hn. destruct (Z.testbit w i) eqn:E; [done|]. destruct Hn.
      apply Z.bits_inj'. intros n Hn. rewrite Z.land_spec, Z.bits_0.
      rewrite Z.pow2_bits_eqb by lia. destruct (Z.eqb_spec i n); [by subst|done].
    + intros E H0. apply (f_equal (λ x, Z.testbit x i)) in H0.
      rewrite Z.land_spec, Z.bits_0, Z.pow2_bits_true, E in H0 by lia. done.
  - rewrite Z.shiftl_1_l. assert (2 ^ i ≤ 2 ^ 6) by (apply Z.pow_le_mono_r; lia).
    change (2 ^ 6) with 64 in *. lia.
Qed.

(** A single value, not a range. *)
Lemma next_single last x start limit :
  start ≤ x ≤ limit → 0 ≤ x < 256 →
  crinitNext last (x, x) start limit = (0 <? x - last, x, x - last).
Proof.
  intros Hx H8. unfold crinitNext. simpl.
  destruct (Z.leb_spec start x); [|lia]. destruct (Z.leb_spec x limit); [|lia].
  rewrite uint8_small, Z.eqb_refl by lia. do 2 f_equal. lia.
Qed.

(** The update of a unit above the seconds, when its range is one value. *)
Lemma next_unit (done : bool) x last limit :
  0 ≤ x ≤ limit → x < 256 →
  (if negb done || negb (CC_RANGE x last x)
   then let '(done, _, o) := crinitNext last (x, x) 0 limit in (done, o) else (done, 0))
  = ((last <? x) || ((last =? x) && done), x - last).
Proof.
  intros Hx H8. rewrite next_single by lia. unfold CC_RANGE.
  destruct done; simpl; [|f_equal; lia]. case_if; f_equal; lia.
Qed.

(** A whole range: one up, or back to its start. *)
Lemma next_full last lo hi limit :
  0 ≤ lo → lo < Z.min hi limit < 256 → lo ≤ last ≤ Z.min hi limit →
  crinitNext last (lo, hi) lo limit =
  if last <? Z.min hi limit then (true, last + 1, 1) else (false, lo, lo - last).
Proof.
  intros H0 Hlim Hl. unfold crinitNext. cbn [fst snd]. rewrite Z.leb_refl.
  replace (if hi <=? limit then hi else limit) with (Z.min hi limit)
    by (destruct (Z.leb_spec hi limit); lia).
  rewrite !uint8_small by lia. unfold CO_RANGE.
  rewrite (proj2 (Z.eqb_neq lo (Z.min hi limit))), (proj2 (Z.ltb_lt lo (Z.min hi limit))) by lia.
  rewrite (proj2 (Z.leb_le lo last)) by lia. cbn [andb].
  destruct (Z.ltb_spec last (Z.min hi limit)).
  - done.
  - rewrite (proj2 (Z.ltb_ge 0 (lo - last))) by lia. do 2 f_equal. lia.
Qed.

Lemma days_to_next_month m y :
  1 ≤ m < 12 →
  crinitDaysToMonth (m + 1) y - crinitDaysToMonth m y = crinitMonthLength m y.
Proof.
  intros Hm. assert (m = 1 ∨ m = 2 ∨ m = 3 ∨ m = 4 ∨ m = 5 ∨ m = 6 ∨ m = 7 ∨ m = 8 ∨
    m = 9 ∨ m = 10 ∨ m = 11) as Hcase by lia.
  unfold crinitMonthLength, crinitDaysToMonth, crinitDayToMonthLookup.
  by destruct (crinitIsLeapYear y); destruct_or! Hcase; subst m.
Qed.

(** The first number that passes a test one is known to pass. *)
Lemma least_passing (P : nat → bool) n :
  P n = true → ∃ k, (k ≤ n)%nat ∧ P k = true ∧ ∀ i, (i < k)%nat → P i = false.
Proof.
  revert P. induction n as [|n IH]; intros P Hn.
  { exists 0%nat. split_and!; [lia|done|lia]. }
  destruct (P 0%nat) eqn:E0; [exists 0%nat; split_and!; [lia|done|lia]|].
  destruct (IH (λ i, P (S i)) Hn) as (k & Hk & Pk & Hmin). exists (S k).
  split_and!; [lia|done|]. intros [|i] Hi; [done|]. apply Hmin. lia.
Qed.

(** A timer for some weekdays: any date, one time of day. *)
Definition weekly (td : crinitTimerDef) (h m s : Z) : Prop :=
  years td = (0, 65535) ∧ month td = (1, 12) ∧ days td = (1, 31) ∧
  hours td = (h, h) ∧ minutes td = (m, m) ∧ seconds td = (s, s).

(** A date of the calendar, as far as crinitTimerNextTime() knows it. *)
Definition dated (v : next_vars) : Prop :=
  1 ≤ nv_month v ≤ 12 ∧ 1 ≤ nv_day v ≤ crinitMonthLength (nv_month v) (nv_year v).

Lemma month_length_bounds m y : 1 ≤ m ≤ 12 → 28 ≤ crinitMonthLength m y ≤ 31.
Proof. intros Hm. unfold crinitMonthLength. repeat case_match; lia. Qed.

(** The fields a computation of the next time starts from. *)
Lemma gmtime_tod t :
  let g := gmtime_r t in
  3600 * tm_hour g + 60 * tm_min g + tm_sec g = t mod 86400 ∧
  0 ≤ tm_hour g ≤ 23 ∧ 0 ≤ tm_min g ≤ 59 ∧ 0 ≤ tm_sec g ≤ 59.
Proof.
  unfold gmtime_r. destruct (civil_from_days _) as [[??]?]. cbn [tm_hour tm_min tm_sec].
  Z.div_mod_to_equations. lia.
Qed.

Lemma gmtime_dated t :
  calendar_range t →
  let g := gmtime_r t in
  (∀ done off offDays, dated (mkNextVars done (tm_mday g) (tm_mon g + 1) (tm_year g + 1900) offDays off)) ∧
  1600 ≤ tm_year g + 1900 < 65000.
Proof. intros Ht. pose proof (gmtime_fields _ Ht) as (H1 & H2 & H3 & _). done. Qed.

Section Weekly.
Context (td : crinitTimerDef) (h m s : Z).
Context (Htd : weekly td h m s) (Hh : 0 ≤ h ≤ 23) (Hm : 0 ≤ m ≤ 59) (Hs : 0 ≤ s ≤ 59).

Let target : Z := 3600 * h + 60 * m + s.
Let tz : Z := (timezone td).1 * 3600 + (timezone td).2 * 60.

Lemma weekly_clock t :
  let tod := 3600 * tm_hour t + 60 * tm_min t + tm_sec t in
  0 ≤ tm_hour t ≤ 23 → 0 ≤ tm_min t ≤ 59 → 0 ≤ tm_sec t ≤ 59 →
  next_clock td t = (tod <? target, s - tm_sec t, m - tm_min t, h - tm_hour t).
Proof.
  destruct Htd as (_ & _ & _ & Eh & Em & Es). intros tod H1 H2 H3.
  unfold next_clock. rewrite Eh, Em, Es, next_single by lia. cbn [fst snd].
  rewrite (next_unit _ m (tm_min t) 59), (next_unit _ h (tm_hour t) 23) by lia.
  do 3 f_equal. subst tod target. zcases; simpl; lia.
Qed.

(** A month further, or a year. *)
Lemma weekly_roll day mon year offDays off :
  1 ≤ mon ≤ 12 → 0 ≤ year < 65535 →
  let v := next_year td (next_month td (mkNextVars false day mon year offDays off)) in
  nv_done v = true ∧ nv_day v = day ∧ 1 ≤ nv_month v ≤ 12 ∧
  nv_offDays v = offDays + crinitMonthLength mon year ∧ year ≤ nv_year v ≤ year + 1.
Proof.
  destruct Htd as (Ey & Em & _). intros Hmon Hyear. unfold next_month, next_year. rewrite Em, Ey.
  cbn [fst snd negb orb]. rewrite next_full, (uint16_small year), (uint8_small mon) by lia.
  change (Z.min 12 12) with 12. destruct (Z.ltb_spec mon 12).
  - cbn [negb orb]. assert (CC_RANGE 0 year 65535 = true) as -> by (unfold CC_RANGE; lia).
    rewrite (uint8_small (mon + 1)), days_to_next_month by lia. simpl. lia.
  - assert (mon = 12) as -> by lia. cbn [negb orb]. unfold crinitNextYear.
    change (0 =? 65535) with false. change (0 <? 65535) with true.
    assert (CO_RANGE 0 year 65535 = true) as -> by (unfold CO_RANGE; lia).
    rewrite (uint16_small year) by lia. change (uint8 1) with 1. cbn [nv_done nv_day nv_month nv_offDays nv_year].
    unfold crinitDaysToMonth, crinitDayToMonthLookup, crinitMonthLength.
    change (Z.to_nat 1) with 1%nat. change (Z.to_nat 12) with 12%nat.
    destruct (crinitIsLeapYear year); cbn -[Z.add Z.sub Z.mul]; lia.
Qed.

(** The date after a valid one is valid and exactly one day later. *)
Lemma weekly_date v :
  nv_done v = false → dated v → 0 ≤ nv_year v < 65535 →
  let v' := next_date td v in
  nv_done v' = true ∧ dated v' ∧ nv_offDays v' = nv_offDays v + 1 ∧ nv_year v ≤ nv_year v' ≤ nv_year v + 1.
Proof.
  destruct v as [done day mon year offDays off]. unfold dated. cbn [nv_done nv_day nv_month nv_year nv_offDays].
  intros -> [Hmon Hday] Hyear. destruct Htd as (Ey & Em & Ed & _).
  pose proof (month_length_bounds mon year Hmon) as Hml.
  unfold next_date, next_day. rewrite Ed, Em. cbn [fst snd negb orb].
  rewrite (uint8_small mon), (uint16_small year) by lia. change (1 =? 29) with false. cbn [andb].
  rewrite next_full, Z.min_r by lia. destruct (Z.ltb_spec day (crinitMonthLength mon year)).
  - unfold next_month, next_year. rewrite Em, Ey. cbn [fst snd negb orb].
    assert (CC_RANGE 1 mon 12 = true) as -> by (unfold CC_RANGE; lia). cbn [negb orb].
    assert (CC_RANGE 0 year 65535 = true) as -> by (unfold CC_RANGE; lia). simpl. lia.
  - destruct (weekly_roll 1 mon year (offDays + (1 - day)) (1 - day) Hmon Hyear) as (H1 & -> & H2 & -> & H3).
    pose proof (month_length_bounds _ (nv_year (next_year td (next_month td
      (mkNextVars false 1 mon year (offDays + (1 - day)) (1 - day))))) H2).
    split_and!; try done; lia.
Qed.

(** A date of which the time of day is still to come is kept. *)
Lemma weekly_today v :
  nv_done v = true → dated v → 0 ≤ nv_year v < 65535 → next_date td v = v.
Proof.
  destruct v as [done day mon year offDays off]. unfold dated. cbn [nv_done nv_day nv_month nv_year].
  intros -> [H2 H1] H3. destruct Htd as (Ey & Em & Ed & _). pose proof (month_length_bounds mon year H2).
  unfold next_date, next_day. rewrite Ed. cbn [fst snd negb orb].
  assert (CC_RANGE 1 day 31 = true) as -> by (unfold CC_RANGE; lia).
  unfold next_month. rewrite Em. cbn [fst snd negb orb].
  assert (CC_RANGE 1 mon 12 = true) as -> by (unfold CC_RANGE; lia).
  unfold next_year. rewrite Ey. cbn [fst snd negb orb].
  by assert (CC_RANGE 0 year 65535 = true) as -> by (unfold CC_RANGE; lia).
Qed.

(** The time of day being right, the check is that of the weekday. *)
Lemma weekly_check t nsec :
  calendar_range (t + tz) → (t + tz) mod 86400 = target →
  crinitCheckTimerTime (mkTimespec t nsec) td = Z.testbit (wDay td) (((t + tz) / 86400 + 3) mod 7).
Proof.
  destruct Htd as (Ey & Em & Ed & Eh & Emi & Es). intros Hr Ht.
  pose proof (gmtime_fields _ Hr) as (Hmon & Hday & Hyear & _).
  apply gmtime_clock in Ht as (Hth & Htm & Hts); [|done..].
  pose proof (month_length_bounds _ (tm_year (gmtime_r (t + tz)) + 1900) Hmon) as Hml.
  unfold crinitCheckTimerTime, crinitZonedTimeR. cbn [tv_sec]. fold tz.
  cbn [tm_sec tm_min tm_hour tm_mday tm_mon tm_year tm_wday].
  rewrite Hth, Htm, Hts, Ey, Em, Ed, Eh, Emi, Es, uint8_small, uint16_small by lia.
  assert (tm_wday (gmtime_r (t + tz)) = ((t + tz) / 86400 + 4) mod 7) as ->.
  { unfold gmtime_r. by destruct (civil_from_days _) as [[??]?]. }
  replace (((((t + tz) / 86400 + 4) mod 7) + 6) mod 7) with (((t + tz) / 86400 + 3) mod 7)
    by (Z.div_mod_to_equations; lia).
  unfold check_field, check_minutes, CC_RANGE. cbn [fst snd]. rewrite !Z.leb_refl.
  destruct (Z.leb_spec 1 (tm_mday (gmtime_r (t + tz)))), (Z.leb_spec (tm_mday (gmtime_r (t + tz))) 31),
    (Z.leb_spec 1 (tm_mon (gmtime_r (t + tz)) + 1)), (Z.leb_spec (tm_mon (gmtime_r (t + tz)) + 1) 12),
    (Z.leb_spec 0 (tm_year (gmtime_r (t + tz)) + 1900)), (Z.leb_spec (tm_year (gmtime_r (t + tz)) + 1900) 65535);
    try lia. cbn [andb orb]. apply eq_true_iff_eq, weekday_bit, Z.mod_pos_bound. lia.
Qed.

(** The search from a time with the right time of day, day by day. *)
Definition right_day (base j : Z) : bool := Z.testbit (wDay td) (((base + tz) / 86400 + j + 3) mod 7).

Lemma right_day_check base j nsec :
  (base + tz) mod 86400 = target → calendar_range (base + j * 86400 + tz) →
  crinitCheckTimerTime (mkTimespec (base + j * 86400) nsec) td = right_day base j.
Proof.
  intros Hb Hr. rewrite weekly_check; [|done|].
  - unfold right_day. do 3 f_equal. replace (base + j * 86400 + tz) with (base + tz + j * 86400) by lia.
    by rewrite Z.div_add by lia.
  - replace (base + j * 86400 + tz) with (base + tz + j * 86400) by lia. by rewrite Z_mod_plus_full.
Qed.

Lemma weekly_loop k tries base nsec v :
  (k ≤ tries)%nat → nv_done v = false → dated v → 0 ≤ nv_year v → nv_year v + Z.of_nat k < 65535 →
  (base + tz) mod 86400 = target →
  (∀ i, (i ≤ k)%nat → calendar_range (base + (nv_offDays v + 1 + Z.of_nat i) * 86400 + tz)) →
  right_day base (nv_offDays v + 1 + Z.of_nat k) = true →
  (∀ i, (i < k)%nat → right_day base (nv_offDays v + 1 + Z.of_nat i) = false) →
  next_loop tries td base nsec v = Some (mkTimespec (base + (nv_offDays v + 1 + Z.of_nat k) * 86400) nsec).
Proof.
  revert tries v. induction k as [|k IH]; intros tries v Hk Hd Hv Hy0 Hy Hb Hr Hgood Hmin.
  all: destruct (weekly_date v Hd Hv) as (Hd' & Hv' & Ho & Hyr); [lia|].
  all: assert (calendar_range (base + (nv_offDays v + 1) * 86400 + tz)) as Hc
    by (specialize (Hr 0%nat ltac:(lia)); by rewrite Z.add_0_r in Hr).
  all: apply (right_day_check base _ nsec Hb) in Hc.
  - rewrite Z.add_0_r in *. apply next_loop_found; [done|done|]. by rewrite Hc.
  - destruct tries as [|tries]; [lia|]. cbn -[next_date crinitCheckTimerTime]. rewrite Hd', Ho, Hc. cbn [negb].
    specialize (Hmin 0%nat ltac:(lia)) as H0. rewrite Z.add_0_r in H0. rewrite H0.
    set (v1 := mkNextVars false _ _ _ _ _).
    assert (∀ i, nv_offDays v + 1 + Z.of_nat (S i) = nv_offDays v1 + 1 + Z.of_nat i) as E by (intros; simpl; lia).
    rewrite E. apply IH; try done; simpl; try lia.
    + intros i Hi. specialize (Hr (S i) ltac:(lia)). by rewrite E in Hr.
    + by rewrite <- E.
    + intros i Hi. specialize (Hmin (S i) ltac:(lia)). by rewrite E in Hmin.
Qed.

(** The first right day from [j0] on comes within a week. *)
Lemma week_has_day base j0 w :
  0 ≤ w ≤ 6 → Z.testbit (wDay td) w = true →
  ∃ k, (k ≤ 6)%nat ∧ right_day base (j0 + Z.of_nat k) = true ∧
    ∀ i, (i < k)%nat → right_day base (j0 + Z.of_nat i) = false.
Proof.
  intros Hw Ht. set (n := (w - ((base + tz) / 86400 + j0 + 3)) mod 7).
  assert (0 ≤ n < 7) as Hn by (apply Z.mod_pos_bound; lia).
  destruct (least_passing (λ i, right_day base (j0 + Z.of_nat i)) (Z.to_nat n)) as (k & Hk & ?).
  - unfold right_day. rewrite Z2Nat.id by lia.
    replace (((base + tz) / 86400 + (j0 + n) + 3) mod 7) with w; [done|].
    subst n. Z.div_mod_to_equations. lia.
  - exists k. split; [lia|done].
Qed.

(** The search on the day of the last time, when its time of day is still to
    come there. *)
Lemma weekly_loop_today k tries base nsec v :
  (k ≤ tries)%nat → nv_done v = true → dated v → 0 ≤ nv_year v → nv_year v + Z.of_nat k < 65535 →
  nv_offDays v = 0 → (base + tz) mod 86400 = target →
  (∀ i, (i ≤ k)%nat → calendar_range (base + Z.of_nat i * 86400 + tz)) →
  right_day base (Z.of_nat k) = true → (∀ i, (i < k)%nat → right_day base (Z.of_nat i) = false) →
  next_loop tries td base nsec v = Some (mkTimespec (base + Z.of_nat k * 86400) nsec).
Proof.
  intros Hk Hd Hv Hy0 Hy Ho Hb Hr Hgood Hmin.
  pose proof (weekly_today v Hd Hv ltac:(lia)) as Hnd.
  pose proof (right_day_check base 0 nsec Hb (Hr 0%nat ltac:(lia))) as Hc.
  destruct k as [|k].
  { change (Z.of_nat 0) with 0 in *. apply next_loop_found; rewrite ?Hnd; [done..|]. by rewrite Hc. }
  destruct tries as [|tries]; [lia|]. cbn -[next_date crinitCheckTimerTime].
  specialize (Hmin 0%nat ltac:(lia)) as H0. change (Z.of_nat 0) with 0 in H0. rewrite Hnd, Hd, Ho, Hc, H0. cbn [negb].
  set (v1 := mkNextVars false _ _ _ _ _).
  assert (∀ i, Z.of_nat (S i) = nv_offDays v1 + 1 + Z.of_nat i) as E by (intros; simpl; lia).
  rewrite E. apply weekly_loop; try done; simpl; try lia.
  - intros i Hi. specialize (Hr (S i) ltac:(lia)). by rewrite E in Hr.
  - by rewrite <- E.
  - intros i Hi. specialize (Hmin (S i) ltac:(lia)). by rewrite E in Hmin.
Qed.

Lemma weekly_next last w :
  calendar_range (tv_sec last + tz) → calendar_range (tv_sec last + tz + 691200) →
  0 ≤ w ≤ 6 → Z.testbit (wDay td) w = true →
  let tod := (tv_sec last + tz) mod 86400 in
  let base := tv_sec last + (target - tod) in
  let j0 := if tod <? target then 0 else 1 in
  ∃ k, (k ≤ 6)%nat ∧
    crinitTimerNextTime last td = mkTimespec (base + (j0 + Z.of_nat k) * 86400) (tv_nsec last) ∧
    right_day base (j0 + Z.of_nat k) = true ∧ ∀ i, (i < k)%nat → right_day base (j0 + Z.of_nat i) = false.
Proof.
  intros Hr Hr' Hw Ht tod base j0. destruct (week_has_day base j0 w Hw Ht) as (k & Hk & Hgood & Hmin).
  exists k. split_and!; try done. pose proof (gmtime_tod (tv_sec last + tz)) as (Htod & H1 & H2 & H3).
  unfold crinitTimerNextTime, crinitZonedTimeR. fold tz. pose proof (gmtime_dated _ Hr) as [Hdate Hyear].
  rewrite weekly_clock by done. cbn [tm_sec tm_min tm_hour tm_mday tm_mon tm_year].
  set (g := gmtime_r (tv_sec last + tz)) in *. fold tod in Htod. rewrite Htod.
  assert (0 ≤ tod < 86400) by (subst tod; apply Z.mod_pos_bound; lia).
  assert (0 ≤ target < 86400) by (subst target; lia).
  assert ((base + tz) mod 86400 = target) as Hb.
  { subst base tod. clearbody target. Z.div_mod_to_equations. lia. }
  replace (tv_sec last + _ + _ + _) with base by (subst base target; lia).
  assert (∀ i, (i ≤ 6)%nat → calendar_range (base + (j0 + Z.of_nat i) * 86400 + tz)) as Hcal.
  { intros i Hi. unfold calendar_range in *. subst base j0. zcases; lia. }
  subst j0. destruct (Z.ltb_spec tod target).
  - rewrite (weekly_loop_today k); [done|lia|done|apply Hdate|cbn [nv_year nv_offDays]; lia..|done| |done|done].
    intros i Hi. apply Hcal. lia.
  - rewrite (weekly_loop k); [done|lia|done|apply Hdate|cbn [nv_year nv_offDays]; lia..|done| |done|done].
    intros i Hi. apply Hcal. lia.
Qed.
End Weekly.

(** For a timer with one time of day, any date, any non-empty set of
    weekdays and any time zone, and any time before the year 59000,
    crinitTimerNextTime() is exact: the result is later than the last time,
    has the wanted time of day on a wanted weekday (Monday is bit 0) in the
    zone of the timer, keeps the nanoseconds, and no earlier second after the
    last time is a match. *)
Theorem crinitTimerNextTime_weekly_exact td h m s w last :
  weekly td h m s → 0 ≤ h ≤ 23 → 0 ≤ m ≤ 59 → 0 ≤ s ≤ 59 → 0 ≤ w ≤ 6 → Z.testbit (wDay td) w = true →
  let tz := (timezone td).1 * 3600 + (timezone td).2 * 60 in
  let matches t := (t + tz) mod 86400 = 3600 * h + 60 * m + s ∧
                   Z.testbit (wDay td) (((t + tz) / 86400 + 3) mod 7) = true in
  calendar_range (tv_sec last + tz) → calendar_range (tv_sec last + tz + 691200) →
  let next := crinitTimerNextTime last td in
  tv_sec last < tv_sec next ∧ matches (tv_sec next) ∧ tv_nsec next = tv_nsec last ∧
  ∀ t, tv_sec last < t → matches t → tv_sec next ≤ t.
Proof.
  intros Htd Hh Hm Hs Hw Hbit tz matches Hr Hr' next. subst next.
  destruct (weekly_next td h m s Htd Hh Hm Hs last w) as (k & Hk & -> & Hgood & Hmin); [done..|].
  fold tz in Hgood, Hmin |- *. cbn [tv_sec tv_nsec].
  assert (0 ≤ 3600 * h + 60 * m + s < 86400) as Ht by lia. subst matches.
  set (target := 3600 * h + 60 * m + s) in *. set (tod := (tv_sec last + tz) mod 86400) in *.
  assert (0 ≤ tod < 86400) by (subst tod; apply Z.mod_pos_bound; lia).
  set (base := tv_sec last + (target - tod)) in *. set (j0 := if tod <? target then 0 else 1) in *.
  assert ((base + tz) mod 86400 = target) as Hb.
  { subst base tod. clearbody target. clear -Ht. Z.div_mod_to_equations. lia. }
  assert (∀ j, (base + j * 86400 + tz) mod 86400 = target ∧ (base + j * 86400 + tz) / 86400 = (base + tz) / 86400 + j) as Hj.
  { intros j. clearbody base. clear -Ht Hb. Z.div_mod_to_equations. lia. }
  split_and!; [subst base j0; zcases; lia|apply Hj| |done|].
  { rewrite (proj2 (Hj _)). apply Hgood. }
  intros t Hlt [Hmt Hwt].
  assert (∃ j, t = base + j * 86400) as [j ->].
  { exists ((t + tz) / 86400 - (base + tz) / 86400). clearbody base. clear -Ht Hb Hmt.
    Z.div_mod_to_equations. lia. }
  rewrite (proj2 (Hj j)) in Hwt. assert (j0 ≤ j) by (subst base j0; zcases; lia).
  destruct (Z.lt_ge_cases j (j0 + Z.of_nat k)); [|lia].
  specialize (Hmin (Z.to_nat (j - j0)) ltac:(lia)). unfold right_day in Hmin. fold tz in Hmin.
  replace (j0 + Z.of_nat (Z.to_nat (j - j0))) with j in Hmin by lia. congruence.
Qed.

(** ** The search always moves forward *)

(** What the setters of timer_parser.re accept. *)
Definition within (lo hi : Z) (r : range) : Prop := lo ≤ r.1 ≤ hi ∧ lo ≤ r.2 ≤ hi.

Definition def_ok (td : crinitTimerDef) : Prop :=
  within 1 12 (month td) ∧ within 1 31 (days td) ∧ within 0 23 (hours td) ∧
  within 0 59 (minutes td) ∧ within 0 59 (seconds td).

Lemma next_parts last r start limit :
  ∃ off, crinitNext last r start limit = (0 <? off, last + off, off).
Proof. by eexists. Qed.

Lemma next_bounds last r start limit hi :
  within start hi r → 0 ≤ start ≤ limit → hi < 256 → limit ≤ hi → start ≤ last →
  let off := (crinitNext last r start limit).2 in
  start ≤ last + off ∧ (limit = hi → last ≤ limit → last + off ≤ limit).
Proof.
  intros [H1 H2] Hs Hhi Hl Hlast. unfold crinitNext. cbn [snd].
  rewrite (proj2 (Z.leb_le start r.1)), (uint8_small r.1) by lia.
  rewrite (uint8_small (if r.2 <=? limit then r.2 else limit)) by (zcases; lia).
  unfold CO_RANGE. repeat case_match; bool_hyps; try (zcases; lia); lia.
Qed.

(** The time of day: forward when the day can stay, and less than a day back
    otherwise. *)
Lemma clock_forward td t :
  def_ok td → 0 ≤ tm_hour t ≤ 23 → 0 ≤ tm_min t ≤ 59 → 0 ≤ tm_sec t ≤ 59 →
  let '(done, os, om, oh) := next_clock td t in
  -86400 < os + om * 60 + oh * 3600 ∧ (done = true → 0 < os + om * 60 + oh * 3600).
Proof.
  intros (_ & _ & Hh & Hm & Hs) H1 H2 H3. unfold next_clock.
  pose proof (next_bounds (tm_sec t) _ 0 59 59 Hs) as Bs.
  pose proof (next_bounds (tm_min t) _ 0 59 59 Hm) as Bm.
  pose proof (next_bounds (tm_hour t) _ 0 23 23 Hh) as Bh.
  destruct (next_parts (tm_sec t) (seconds td) 0 59) as [os Es].
  destruct (next_parts (tm_min t) (minutes td) 0 59) as [om Em].
  destruct (next_parts (tm_hour t) (hours td) 0 23) as [oh Eh].
  rewrite Es, Em, Eh in *. cbn [snd] in *.
  destruct (Z.ltb_spec 0 os), (Z.ltb_spec 0 om), (Z.ltb_spec 0 oh); cbn [negb orb];
    repeat case_match; simplify_eq; split; intros; try done; lia.
Qed.

(** The days before a month: those of a common year and the leap day. *)
Definition leap_day (mon year : Z) : Z :=
  if (2 <? mon) && crinitIsLeapYear (uint16 year) then 1 else 0.

Lemma days_to_month_split mon year :
  1 ≤ mon ≤ 12 →
  crinitDaysToMonth (uint8 mon) (uint16 year) = crinitDayToMonthLookup mon + leap_day mon year.
Proof.
  intros Hm. rewrite uint8_small by lia. unfold crinitDaysToMonth, leap_day.
  rewrite (proj2 (Z.leb_le mon 12)) by lia.
  destruct (Z.eqb_spec mon 0), (Z.leb_spec mon 2), (Z.ltb_spec 2 mon); cbn [negb andb]; lia.
Qed.

Lemma leap_day_bounds m y : 0 ≤ leap_day m y ≤ (if crinitIsLeapYear (uint16 y) then 1 else 0).
Proof. unfold leap_day. destruct (2 <? m), (crinitIsLeapYear (uint16 y)); cbn [andb]; lia. Qed.

Lemma leap_day_mono m m' y : m ≤ m' → leap_day m y ≤ leap_day m' y.
Proof.
  intros Hm. unfold leap_day.
  destruct (Z.ltb_spec 2 m), (Z.ltb_spec 2 m'), (crinitIsLeapYear (uint16 y)); cbn [andb]; lia.
Qed.

Definition months : list Z := [1; 2; 3; 4; 5; 6; 7; 8; 9; 10; 11; 12].

Lemma in_months m : 1 ≤ m ≤ 12 → In m months.
Proof.
  intros Hm. unfold months. simpl. lia.
Qed.

(** A later month starts after the end of an earlier one. *)
Lemma lookup_months m m' :
  1 ≤ m ≤ 12 → 1 ≤ m' ≤ 12 → m < m' →
  crinitDayToMonthLookup m + crinitMonthLength m 1 ≤ crinitDayToMonthLookup m'.
Proof.
  intros Hm%in_months Hm'%in_months Hlt.
  assert (forallb (λ m, forallb (λ m', (m' <=? m) || (crinitDayToMonthLookup m + crinitMonthLength m 1
    <=? crinitDayToMonthLookup m')) months) months = true) as H by reflexivity.
  rewrite forallb_forall in H. specialize (H m Hm). rewrite forallb_forall in H.
  specialize (H m' Hm'). bool_hyps. lia.
Qed.

Lemma lookup_bounds m : 1 ≤ m ≤ 12 → 0 ≤ crinitDayToMonthLookup m ≤ 334.
Proof.
  intros Hm%in_months.
  assert (forallb (λ m, (0 <=? crinitDayToMonthLookup m) && (crinitDayToMonthLookup m <=? 334)) months = true)
    as H by reflexivity.
  rewrite forallb_forall in H. specialize (H m Hm). bool_hyps. lia.
Qed.

Lemma month_length_leap m y :
  1 ≤ m ≤ 12 → crinitMonthLength m y = crinitMonthLength m 1 + (if (m =? 2) && crinitIsLeapYear y then 1 else 0).
Proof.
  intros Hm%in_months. unfold months in Hm. simpl in Hm.
  destruct_or! Hm; subst m; try done. simpl. by destruct (crinitIsLeapYear y).
Qed.

(** A step of the date: a day of the same month, a later month or the next
    year, with the offset in days as the code adds it up. *)
Inductive date_step : next_vars → next_vars → Prop :=
  | StepDay v d o :
      nv_day v < d →
      date_step v (mkNextVars true d (nv_month v) (nv_year v) (nv_offDays v + (d - nv_day v)) o)
  | StepMonth v d m o :
      1 ≤ d → nv_month v < m ≤ 12 →
      date_step v (mkNextVars true d m (nv_year v)
        (nv_offDays v + (d - nv_day v) + (crinitDayToMonthLookup m + leap_day m (nv_year v)
           - (crinitDayToMonthLookup (nv_month v) + leap_day (nv_month v) (nv_year v)))) o)
  | StepYear v d m o :
      1 ≤ d → 1 ≤ m ≤ 12 →
      date_step v (mkNextVars true d m (nv_year v + 1)
        (nv_offDays v + (d - nv_day v) + (crinitDayToMonthLookup m + leap_day m (nv_year v)
           - (crinitDayToMonthLookup (nv_month v) + leap_day (nv_month v) (nv_year v)))
         + (365 + (if crinitIsLeapYear (uint16 (nv_year v)) then 1 else 0))) o).

Lemma next_year_done last r res off y o :
  crinitNextYear last r res off = (true, y, o) → y = last + 1 ∧ o = 1.
Proof. unfold crinitNextYear. destruct r. repeat case_match; intros [=]; lia. Qed.

Definition sane (v : next_vars) : Prop := 1 ≤ nv_day v ∧ 1 ≤ nv_month v ≤ 12.

Lemma next_day_cases td v :
  def_ok td → sane v →
  ∃ done d o, next_day td v = mkNextVars done d (nv_month v) (nv_year v) (nv_offDays v + (d - nv_day v)) o ∧
    1 ≤ d ∧ (done = true → nv_day v < d ∨ (nv_done v = true ∧ next_day td v = v)).
Proof.
  destruct v as [done day mon year offDays off]. unfold sane. cbn [nv_done nv_day nv_month nv_year nv_offDays].
  intros (_ & Hd & _) [Hday Hmon]. unfold next_day.
  assert (∀ done o, mkNextVars done day mon year offDays o
                    = mkNextVars done day mon year (offDays + (day - day)) o) as Hsame.
  { intros. f_equal. lia. }
  case_match; [|exists done, day, off; split_and!; [apply Hsame|done|]; intros ->; by right].
  case_match; [exists false, day, off; split_and!; [apply Hsame|done|done]|].
  rewrite (uint8_small mon) by lia. pose proof (month_length_bounds mon (uint16 year) Hmon) as Hml.
  pose proof (next_bounds day _ 1 (crinitMonthLength mon (uint16 year)) 31 Hd) as [Hlo _]; [lia..|].
  destruct (next_parts day (days td) 1 (crinitMonthLength mon (uint16 year))) as [o E].
  rewrite E in *. exists (0 <? o), (day + o), o. split_and!; [f_equal; lia|done|]. left. lia.
Qed.

Lemma next_month_cases td v :
  def_ok td → sane v →
  ∃ done m o, next_month td v = mkNextVars done (nv_day v) m (nv_year v)
      (nv_offDays v + (crinitDayToMonthLookup m + leap_day m (nv_year v)
         - (crinitDayToMonthLookup (nv_month v) + leap_day (nv_month v) (nv_year v)))) o ∧
    1 ≤ m ≤ 12 ∧ (done = true → nv_month v < m ∨ (nv_done v = true ∧ next_month td v = v)).
Proof.
  destruct v as [done day mon year offDays off]. unfold sane. cbn [nv_done nv_day nv_month nv_year nv_offDays].
  intros (Hm & _) [Hday Hmon]. unfold next_month.
  case_match; [|exists done, mon, off; split_and!; [f_equal; lia|lia..|]; intros ->; by right].
  pose proof (next_bounds mon _ 1 12 12 Hm) as [Hlo Hhi]; [lia..|].
  destruct (next_parts mon (month td) 1 12) as [o E]. rewrite E in *. cbn [snd] in *.
  exists (0 <? o), (mon + o), o. rewrite !days_to_month_split by lia.
  split_and!; [done|lia..|]. left. lia.
Qed.

Lemma next_year_cases td v :
  nv_done (next_year td v) = true →
  (nv_done v = true ∧ next_year td v = v) ∨
  ∃ o, next_year td v = mkNextVars true (nv_day v) (nv_month v) (nv_year v + 1)
    (nv_offDays v + (365 + (if crinitIsLeapYear (uint16 (nv_year v)) then 1 else 0))) o.
Proof.
  destruct v as [done day mon year offDays off]. unfold next_year. cbn [nv_done nv_day nv_month nv_year nv_offDays].
  case_match; [|by left]. destruct (crinitNextYear _ _ _ _) as [[done' y] o] eqn:E. simpl. intros ->.
  apply next_year_done in E as [-> ->]. right. exists 1. f_equal. lia.
Qed.

Lemma next_date_step td v :
  def_ok td → sane v → nv_done (next_date td v) = true →
  (nv_done v = true ∧ next_date td v = v) ∨ date_step v (next_date td v).
Proof.
  intros Htd Hv. unfold next_date. intros Hdone.
  destruct (next_day_cases td v Htd Hv) as (done1 & d & o1 & E1 & Hd & Hd').
  assert (sane (next_day td v)) as Hv1 by (rewrite E1; split; [done|apply Hv]).
  destruct (next_month_cases td _ Htd Hv1) as (done2 & m & o2 & E2 & Hm & Hm').
  destruct (next_year_cases td _ Hdone) as [[Hd2 ->]|[o3 ->]].
  - rewrite E2 in Hd2. simpl in Hd2. destruct (Hm' Hd2) as [Hlt|[Hd1 Eq]].
    + right. rewrite E2, E1, Hd2 in *. cbn [nv_day nv_month nv_year nv_offDays] in *. apply StepMonth; lia.
    + rewrite Eq. rewrite E1 in Hd1. simpl in Hd1. destruct (Hd' Hd1) as [Hlt|]; [|by left].
      right. rewrite E1, Hd1. by apply StepDay.
  - right. rewrite E2, E1. cbn [nv_day nv_month nv_year nv_offDays]. by apply StepYear.
Qed.

Section Forward.
Context (v0 : next_vars) (Hdated : dated v0) (Hyear : 0 ≤ nv_year v0 < 65536) (Hoff : nv_offDays v0 = 0).

(** Where the search can be: the offset counts the days exactly within the
    first year, and at least 365 for each year after it. *)
Definition ahead (v : next_vars) : Prop :=
  sane v ∧
  ((nv_year v = nv_year v0 ∧
    nv_offDays v = crinitDayToMonthLookup (nv_month v) + leap_day (nv_month v) (nv_year v0) + nv_day v
      - (crinitDayToMonthLookup (nv_month v0) + leap_day (nv_month v0) (nv_year v0) + nv_day v0) ∧
    (nv_month v0 < nv_month v ∨ (nv_month v = nv_month v0 ∧ nv_day v0 ≤ nv_day v))) ∨
   (nv_year v0 < nv_year v ∧
    365 * (nv_year v - nv_year v0) + crinitDayToMonthLookup (nv_month v) + nv_day v
      - (crinitDayToMonthLookup (nv_month v0) + nv_day v0) ≤ nv_offDays v)).

Lemma ahead_start : ahead v0.
Proof. destruct Hdated. split; [unfold sane; lia|]. left. rewrite Hoff. lia. Qed.

(** The start is before the end of its month. *)
Lemma later_month m :
  1 ≤ m ≤ 12 → nv_month v0 < m →
  nv_day v0 ≤ crinitDayToMonthLookup m + leap_day m (nv_year v0)
    - (crinitDayToMonthLookup (nv_month v0) + leap_day (nv_month v0) (nv_year v0)).
Proof.
  intros Hm Hlt. destruct Hdated as [Hm0 Hd0]. rewrite month_length_leap in Hd0 by done.
  pose proof (lookup_months _ _ Hm0 Hm Hlt). unfold leap_day. rewrite (uint16_small (nv_year v0)) by lia.
  revert Hd0. destruct (Z.eqb_spec (nv_month v0) 2), (Z.ltb_spec 2 m), (Z.ltb_spec 2 (nv_month v0)),
    (crinitIsLeapYear (nv_year v0)); simpl; lia.
Qed.

(** A step goes at least one day beyond the start. *)
Lemma ahead_step v v' : ahead v → date_step v v' → ahead v' ∧ 1 ≤ nv_offDays v'.
Proof.
  destruct Hdated as [Hm0 Hd0]. pose proof (month_length_bounds _ (nv_year v0) Hm0) as Hml.
  pose proof (lookup_bounds _ Hm0) as Hc0.
  intros [[Hd Hm] Hpos] Hst. pose proof (lookup_bounds _ Hm) as Hcm.
  destruct Hst as [v d o Hlt|v d m o Hd1 Hm1|v d m o Hd1 Hm1]; unfold ahead, sane;
    cbn [nv_day nv_month nv_year nv_offDays] in *.
  - destruct Hpos as [(Hy & Ho & Hlex)|[Hy Ho]]; [|split; [split; [lia|right; lia]|lia]].
    split; [split; [lia|left; lia]|].
    destruct Hlex as [Hlex|[Hlm Hlex]]; [pose proof (later_month _ Hm Hlex)|rewrite Hlm in *]; lia.
  - pose proof (lookup_bounds m ltac:(lia)). pose proof (month_length_bounds _ 1 Hm).
    pose proof (lookup_months (nv_month v) m Hm ltac:(lia) ltac:(lia)).
    pose proof (leap_day_mono (nv_month v) m (nv_year v) ltac:(lia)).
    destruct Hpos as [(Hy & Ho & Hlex)|[Hy Ho]]; [|split; [split; [lia|right; lia]|lia]].
    rewrite Hy in *. pose proof (later_month m ltac:(lia) ltac:(lia)).
    split; [split; [lia|left; lia]|lia].
  - pose proof (lookup_bounds m Hm1). pose proof (leap_day_bounds m (nv_year v)).
    pose proof (leap_day_bounds (nv_month v) (nv_year v)). pose proof (leap_day_bounds (nv_month v0) (nv_year v0)).
    destruct Hpos as [(Hy & Ho & Hlex)|[Hy Ho]]; [rewrite Hy in *|]; (split; [split; [lia|right; lia]|lia]).
Qed.

(** What the loop returns is at least one day ahead, or [base] itself. *)
Lemma next_loop_forward td tries base nsec v ts :
  def_ok td → ahead v → next_loop tries td base nsec v = Some ts →
  crinitCheckTimerTime ts td = true ∧ tv_nsec ts = nsec ∧
  (base + 86400 ≤ tv_sec ts ∨ (nv_done v = true ∧ tv_sec ts = base + nv_offDays v * 86400)).
Proof.
  intros Htd. revert v. induction tries as [|tries IH]; intros v Hv; cbn -[crinitCheckTimerTime next_date].
  all: destruct (nv_done (next_date td v)) eqn:Hd; [|done]; cbn [negb].
  all: assert (ahead (next_date td v) ∧ ((nv_done v = true ∧ next_date td v = v) ∨ 1 ≤ nv_offDays (next_date td v)))
    as [Hv' Hcase] by (destruct (next_date_step td v Htd (proj1 Hv) Hd) as [[? E]|Hst];
      [rewrite E; by auto|split; [|right]; by eapply ahead_step]).
  all: case_match eqn:Hc; [intros [= <-]; split_and!; [done..|]; simpl;
    destruct Hcase as [[? E]|?]; [right; by rewrite E|left; lia]|].
  - done.
  - intros Hl. apply IH in Hl as (H1 & H2 & [H3|[[=] _]]); [by auto|].
    destruct Hv' as [Hs Hpos]. by split.
Qed.
End Forward.

(** A time crinitTimerNextTime() computes for a definition with members
    the parser accepts, from any last time before the year 59000, is either
    the "no next time" value 0, or it passes crinitCheckTimerTime() for that
    definition, keeps the nanoseconds and is later than the last time: a timer
    is never set to a time that has passed, over all overflows of seconds,
    minutes, hours, months and years and all rounds of the search. *)
Theorem crinitTimerNextTime_sound last td :
  def_ok td → calendar_range (tv_sec last + ((timezone td).1 * 3600 + (timezone td).2 * 60)) →
  let next := crinitTimerNextTime last td in
  next = mkTimespec 0 0 ∨
  (crinitCheckTimerTime next td = true ∧ tv_nsec next = tv_nsec last ∧ tv_sec last < tv_sec next).
Proof.
  intros Htd Hr. unfold crinitTimerNextTime, crinitZonedTimeR. cbn [tm_mday tm_mon tm_year].
  set (g := gmtime_r _). pose proof (gmtime_dated _ Hr) as [Hdate Hyear].
  pose proof (gmtime_tod (tv_sec last + ((timezone td).1 * 3600 + (timezone td).2 * 60))) as (_ & H1 & H2 & H3).
  fold g in Hdate, Hyear, H1, H2, H3.
  set (t := mkTm _ _ _ _ _ _ _ _). pose proof (clock_forward td t Htd H1 H2 H3) as Hclk.
  destruct (next_clock td t) as [[[done os] om] oh]. destruct Hclk as [Hback Hfwd].
  destruct (next_loop _ _ _ _ _) as [next|] eqn:E; [right|by left]. cbn zeta.
  eapply next_loop_forward in E as (Hc & Hn & Hs); [|apply Hdate| |done|by apply ahead_start].
  - split_and!; [done..|]. destruct Hs as [Hs|[Hd Hs]]; [lia|].
    cbn [nv_done nv_offDays] in *. specialize (Hfwd Hd). lia.
  - cbn [nv_year]. lia.
Qed.

(** crinitCheckTimerTime() tests second, hour, day, month and year against
    their ranges as documented (a range that starts higher than it ends wraps
    around), the weekday against its mask, and the minute against a condition
    of its own. *)
Theorem crinitCheckTimerTime_spec ts td :
  let t := crinitZonedTimeR (tv_sec ts) (timezone td) in
  let min_ok x := let '(a, b) := minutes td in a ≤ x ≤ b ∨ x ≤ b < a ∨ a < b ≤ x in
  crinitCheckTimerTime ts td = true ↔
  in_cyclic (seconds td) (tm_sec t) ∧ min_ok (tm_min t) ∧ in_cyclic (hours td) (tm_hour t) ∧
  in_cyclic (days td) (tm_mday t) ∧ in_cyclic (month td) (uint8 (tm_mon t + 1)) ∧
  in_cyclic (years td) (uint16 (tm_year t + 1900)) ∧
  Z.testbit (wDay td) ((tm_wday t + 6) mod 7) = true.
Proof.
  intros t min_ok. unfold crinitCheckTimerTime. fold t.
  rewrite !andb_true_iff, !check_field_cyclic.
  assert (check_minutes (minutes td) (tm_min t) = true ↔ min_ok (tm_min t)) as ->.
  { subst min_ok. unfold check_minutes, CC_RANGE, CO_RANGE, OC_RANGE.
    destruct (minutes td) as [a b]. cbn [fst snd].
    rewrite !orb_true_iff, !andb_true_iff, !Z.leb_le, !Z.ltb_lt. lia. }
  assert (uint8 (Z.shiftl 1 ((tm_wday t + 6) mod 7)) &? wDay td = true ↔
    Z.testbit (wDay td) ((tm_wday t + 6) mod 7) = true) as ->; [|tauto].
  assert (0 ≤ (tm_wday t + 6) mod 7 < 7) as Hw by (apply Z.mod_pos_bound; lia).
  by apply weekday_bit.
Qed.

(** The minute range is not tested as documented: a time at minute 30
    passes for the range 10..20, and a time at minute 55 does not pass for the
    wrapping range 50..10 (all other fields are unrestricted). *)
Theorem crinitCheckTimerTime_minutes_wrong :
  let at_minute m := mkTimespec (1699142400 + 60 * m) 0 in
  let with_minutes r := mkTimerDef 127 (0, 65535) (1, 12) (1, 31) (0, 23) r (0, 59) (0, 0) in
  crinitCheckTimerTime (at_minute 30) (with_minutes (10, 20)) = true ∧
  ¬ in_cyclic (10, 20) 30 ∧
  crinitCheckTimerTime (at_minute 55) (with_minutes (50, 10)) = false ∧
  in_cyclic (50, 10) 55.
Proof. split_and!; vm_compute; naive_solver. Qed.

(** A timer for the 31st of every month is switched off for good when its
    next time is computed on the fifth of a month with 30 days: the result is
    the "no next time" value although the 31st of the following month passes
    the check. *)
Theorem crinitTimerNextTime_day31_lost :
  let td := mkTimerDef 127 (0, 65535) (1, 12) (31, 31) (0, 0) (0, 0) (0, 0) (0, 0) in
  crinitTimerNextTime (mkTimespec 1699142400 0) td = mkTimespec 0 0 ∧
  crinitCheckTimerTime (mkTimespec (1699142400 + 56 * 86400) 0) td = true.
Proof. split; vm_compute; reflexivity. Qed.

(** crinitTimerNextTime() can skip matching times: after 2024-05-02 a timer
    for the first of March, April and May is next set to 2028-03-01, four
    years after 2025-03-01, which passes the check; and within a wrapping
    month range 11..2 a daily timer goes from November 5th to December 6th. *)
Theorem crinitTimerNextTime_skips :
  let spring := mkTimerDef 127 (0, 65535) (3, 5) (1, 1) (0, 0) (0, 0) (0, 0) (0, 0) in
  let winter := mkTimerDef 127 (0, 65535) (11, 2) (1, 31) (0, 0) (0, 0) (0, 0) (0, 0) in
  (crinitTimerNextTime (mkTimespec 1714608000 0) spring = mkTimespec 1835481600 0 ∧
   crinitCheckTimerTime (mkTimespec 1740787200 0) spring = true) ∧
  (crinitTimerNextTime (mkTimespec 1699142400 0) winter = mkTimespec (1699142400 + 31 * 86400) 0 ∧
   crinitCheckTimerTime (mkTimespec (1699142400 + 86400) 0) winter = true).
Proof. split_and!; vm_compute; reflexivity. Qed.

(** crinitTimerSetWeekdays() on the weekdays [i] and [j] (Monday is 0) sets
    exactly the days of the range, wrapping around when it starts after it
    ends, unless the range starts on the day after the one it ends on. *)
Theorem crinitTimerSetWeekdays_spec i j k td :
  0 ≤ i ≤ 6 → 0 ≤ j ≤ 6 → 0 ≤ k ≤ 6 → i ≠ j + 1 →
  Z.testbit (wDay (crinitTimerSetWeekdays (Z.shiftl 1 i) (Z.shiftl 1 j) td).2) k = true ↔
  in_cyclic (i, j) k.
Proof.
  intros Hi Hj Hk Hne. pose proof (weekdays_at i j k Hi Hj Hk) as Hw.
  unfold weekday_ok in Hw. destruct (Z.eqb_spec i (j + 1)); [done|].
  apply eqb_prop in Hw. rewrite weekdays_indep, Hw. unfold in_cyclic. cbn [fst snd].
  zcases; rewrite ?andb_true_iff, ?orb_true_iff, ?Z.leb_le; lia.
Qed.

(** A weekday range that starts on the day after the one it ends on, which
    is the whole week, loses its first day: for Tue..Mon the mask has no
    Tuesday. *)
Theorem crinitTimerSetWeekdays_loses_day j td :
  0 ≤ j ≤ 5 →
  Z.testbit (wDay (crinitTimerSetWeekdays (Z.shiftl 1 (j + 1)) (Z.shiftl 1 j) td).2) (j + 1) = false
  ∧ in_cyclic (j + 1, j) (j + 1).
Proof.
  intros Hj. split.
  - rewrite weekdays_indep.
    assert (j = 0 ∨ j = 1 ∨ j = 2 ∨ j = 3 ∨ j = 4 ∨ j = 5) as Hc by lia.
    by destruct_or! Hc; subst j.
  - unfold in_cyclic. cbn [fst snd]. zcases; lia.
Qed.

(** ** Witnesses *)

Lemma crinitTimerNextTime_sound_witness :
  let td := mkTimerDef 127 (0, 65535) (11, 2) (1, 31) (22, 3) (0, 59) (30, 30) (-3, 30) in
  let next := crinitTimerNextTime (mkTimespec 1699142400 7) td in
  next = mkTimespec 0 0 ∨
  (crinitCheckTimerTime next td = true ∧ tv_nsec next = 7 ∧ 1699142400 < tv_sec next).
Proof.
  apply (crinitTimerNextTime_sound (mkTimespec 1699142400 7)).
  - unfold def_ok, within. simpl. lia.
  - vm_compute. split; discriminate.
Defined.

(** Monday and Friday at 23:45:00 in the zone one hour ahead. *)
Lemma crinitTimerNextTime_weekly_exact_witness :
  let td := mkTimerDef 17 (0, 65535) (1, 12) (1, 31) (23, 23) (45, 45) (0, 0) (1, 0) in
  let next := crinitTimerNextTime (mkTimespec 1699142400 7) td in
  let matches t := (t + 3600) mod 86400 = 85500 ∧ Z.testbit 17 (((t + 3600) / 86400 + 3) mod 7) = true in
  1699142400 < tv_sec next ∧ matches (tv_sec next) ∧ tv_nsec next = 7 ∧
  ∀ t, 1699142400 < t → matches t → tv_sec next ≤ t.
Proof.
  apply (crinitTimerNextTime_weekly_exact
    (mkTimerDef 17 (0, 65535) (1, 12) (1, 31) (23, 23) (45, 45) (0, 0) (1, 0))
    23 45 0 4 (mkTimespec 1699142400 7)).
  - repeat split.
  - lia.
  - lia.
  - lia.
  - lia.
  - reflexivity.
  - vm_compute. split; discriminate.
  - vm_compute. split; discriminate.
Defined.

Lemma crinitTimerSetWeekdays_spec_witness :
  Z.testbit (wDay (crinitTimerSetWeekdays (Z.shiftl 1 5) (Z.shiftl 1 3) crinitTimerSetDefault).2) 6
  = true ↔ in_cyclic (5, 3) 6.
Proof. apply (crinitTimerSetWeekdays_spec 5 3 6); lia. Defined.

Lemma crinitTimerSetWeekdays_loses_day_witness :
  Z.testbit (wDay (crinitTimerSetWeekdays (Z.shiftl 1 (0 + 1)) (Z.shiftl 1 0)
                     crinitTimerSetDefault).2) (0 + 1) = false ∧ in_cyclic (0 + 1, 0) (0 + 1).
Proof. apply (crinitTimerSetWeekdays_loses_day 0 crinitTimerSetDefault). lia. Defined.
