(* ===== verification/TimerParse.v ===== *)
(** * Timer definitions: src/timer_parser.re

    The rules of the re2c block as data: a regular expression with tags, what has to
    follow it, and an action.  re2c takes the rule with the longest match, what follows
    it included, and the first of several; the text at the cursor is the C string with
    its terminator, and a pointer into it is the text from there on.  Then what the
    parser accepts, and that it reads the documented form of a timer as documented. *)

From Stdlib Require Import ZArith Lia Bool List String Ascii.
From stdpp Require Import base list strings.
From S2P Require Import Prelude Timer.

Open Scope Z_scope.
Open Scope crinit_scope.

#[local] Arguments String.append : simpl nomatch.

(** ** Regular expressions *)

(** [t1] to [t4] are the tags of the rules. *)
Inductive tag := t1 | t2 | t3 | t4.

Inductive re :=
| Eps
| Cls (class : ascii → bool)
| Cat (r1 r2 : re)
| Alt (r1 r2 : re)
| Tag (t : tag).

(** A match under way: characters read, text at the cursor, tags. *)
Record hit := mkHit { h_len : nat; h_text : string; h_tags : tag → string }.

Definition set_tag (t : tag) (h : hit) : hit :=
  mkHit (h_len h) (h_text h)
    (λ t', match t, t' with t1, t1 | t2, t2 | t3, t3 | t4, t4 => h_text h | _, _ => h_tags h t' end).

(** All matches, the greedy ones first. *)
Fixpoint re_match (r : re) (h : hit) : list hit :=
  match r with
  | Eps => [h]
  | Cls f =>
      match h_text h with
      | String c s => if f c then [mkHit (S (h_len h)) s (h_tags h)] else []
      | EmptyString => []
      end
  | Cat r1 r2 => re_match r1 h ≫= re_match r2
  | Alt r1 r2 => re_match r1 h ++ re_match r2 h
  | Tag t => [set_tag t h]
  end.

(** r{0,more} and r{lo,lo+more} *)
Fixpoint upto (more : nat) (r : re) : re :=
  match more with
  | O => Eps
  | S more => Alt (Cat r (upto more r)) Eps
  end.

Fixpoint rep (lo more : nat) (r : re) : re :=
  match lo with
  | O => upto more r
  | S lo => Cat r (rep lo more r)
  end.

Definition opt (r : re) : re := rep 0 1 r.

Fixpoint cats (l : list re) : re :=
  match l with
  | [] => Eps
  | [r] => r
  | r :: l => Cat r (cats l)
  end.

Fixpoint alts (r : re) (l : list re) : re :=
  match l with
  | [] => r
  | r' :: l => Alt r (alts r' l)
  end.

(** A character in double quotes, and in single quotes, where case is ignored. *)
Definition to_lower (c : ascii) : ascii :=
  let n := nat_of_ascii c in
  if (65 <=? n)%nat && (n <=? 90)%nat then ascii_of_nat (n + 32) else c.
Definition chr (c : ascii) : re := Cls (Ascii.eqb c).
Definition chr_i (c : ascii) : re := Cls (λ d, Ascii.eqb (to_lower c) (to_lower d)).
Definition word (s : string) : re := cats (map chr_i (list_ascii_of_string s)).

Definition is_digit (c : ascii) : bool :=
  let n := nat_of_ascii c in (48 <=? n)%nat && (n <=? 57)%nat.
Definition is_sign (c : ascii) : bool := Ascii.eqb c "+" || Ascii.eqb c "-".
(** [0-9*.] *)
Definition is_field (c : ascii) : bool := is_digit c || Ascii.eqb c "*" || Ascii.eqb c ".".

Definition NUL : ascii := ascii_of_nat 0.
Definition end_ : re := chr NUL.

(** ** Rules *)

(** [ctx] is what has to follow, after the slash of a rule. *)
Record rule {A : Type} := mkRule { r_head : re; r_ctx : re; r_act : A }.
Arguments rule : clear implicits.
Arguments mkRule {A}.

Definition rule_hits {A} (r : rule A) (h : hit) : list (nat * hit) :=
  h' ← re_match (r_head r) h; (λ c, (h_len c, h')) <$> re_match (r_ctx r) h'.

(** The first of the longest matches. *)
Definition longest {B} (l : list (nat * B)) : option (nat * B) :=
  foldr (λ x acc, match acc with
                  | Some y => if (fst x <? fst y)%nat then Some y else Some x
                  | None => Some x
                  end) None l.

Definition hits {A} (rules : list (rule A)) (text : string) : list (nat * (A * hit)) :=
  r ← rules; (λ x, (x.1, (r_act r, x.2))) <$> rule_hits r (mkHit 0 text (λ _, text)).

Definition lex {A} (rules : list (rule A)) (text : string) : option (A * hit) :=
  snd <$> longest (hits rules text).

(** ** The setters *)

(** The text between two pointers, which point into the same text. *)
Definition between (start end_ : string) : string :=
  substring 0 (String.length start - String.length end_) start.

Definition digit_val (c : ascii) : Z := Z.of_nat (nat_of_ascii c) - 48.

Definition crinitTimerParseUint16 (start end_ : string) : Z :=
  if (String.length start <=? String.length end_)%nat then 65535
  else fold_left (λ res c, uint16 (res * 10 + digit_val c)) (list_ascii_of_string (between start end_)) 0.

Definition set_years (r : range) (td : crinitTimerDef) : crinitTimerDef :=
  mkTimerDef (wDay td) r (month td) (days td) (hours td) (minutes td) (seconds td) (timezone td).
Definition set_month (r : range) (td : crinitTimerDef) : crinitTimerDef :=
  mkTimerDef (wDay td) (years td) r (days td) (hours td) (minutes td) (seconds td) (timezone td).
Definition set_days (r : range) (td : crinitTimerDef) : crinitTimerDef :=
  mkTimerDef (wDay td) (years td) (month td) r (hours td) (minutes td) (seconds td) (timezone td).
Definition set_hours (r : range) (td : crinitTimerDef) : crinitTimerDef :=
  mkTimerDef (wDay td) (years td) (month td) (days td) r (minutes td) (seconds td) (timezone td).
Definition set_minutes (r : range) (td : crinitTimerDef) : crinitTimerDef :=
  mkTimerDef (wDay td) (years td) (month td) (days td) (hours td) r (seconds td) (timezone td).
Definition set_seconds (r : range) (td : crinitTimerDef) : crinitTimerDef :=
  mkTimerDef (wDay td) (years td) (month td) (days td) (hours td) (minutes td) r (timezone td).
Definition set_timezone (r : range) (td : crinitTimerDef) : crinitTimerDef :=
  mkTimerDef (wDay td) (years td) (month td) (days td) (hours td) (minutes td) (seconds td) r.

Definition setter : Type := (tag → string) → crinitTimerDef → bool * crinitTimerDef.

Definition crinitTimerSetYears : setter := λ t td,
  let start := crinitTimerParseUint16 (t t1) (t t2) in
  let end_ := crinitTimerParseUint16 (t t3) (t t4) in
  (true, set_years (if start =? 65535 then 0 else start, end_) td).

(** What the setters of month, day, hour, minute and second begin with. *)
Definition byte_range (lo hi : Z) (t : tag → string) : range :=
  let start := uint8 (crinitTimerParseUint16 (t t1) (t t2)) in
  let end_ := uint8 (crinitTimerParseUint16 (t t3) (t t4)) in
  (if 255 =? start then lo else start, if 255 =? end_ then hi else end_).

Definition crinitTimerSetMonth : setter := λ t td,
  let r := byte_range 1 12 t in (CC_RANGE 1 r.1 12 && CC_RANGE 1 r.2 12, set_month r td).
Definition crinitTimerSetDays : setter := λ t td,
  let r := byte_range 1 31 t in (CC_RANGE 1 r.1 31 && CC_RANGE 1 r.2 31, set_days r td).
Definition crinitTimerSetHours : setter := λ t td,
  let r := byte_range 0 23 t in (CC_RANGE 0 r.1 23 && CC_RANGE 0 r.2 23, set_hours r td).
Definition crinitTimerSetMinutes : setter := λ t td,
  let r := byte_range 0 59 t in (CC_RANGE 0 r.1 59 && CC_RANGE 0 r.2 59, set_minutes r td).
Definition crinitTimerSetSeconds : setter := λ t td,
  let r := byte_range 0 59 t in (CC_RANGE 0 r.1 59 && CC_RANGE 0 r.2 59, set_seconds r td).

Definition crinitTimerSetTimezone : setter := λ t td,
  let sign := match t t1 with String "-" _ => -1 | _ => 1 end in
  let startHour := match t t1 with String _ s => s | EmptyString => EmptyString end in
  let hours := int8 (crinitTimerParseUint16 startHour (t t2)) in
  let minutes := uint8 (crinitTimerParseUint16 (t t3) (t t4)) in
  let tz := (int8 (sign * hours), if 255 =? minutes then 0 else int8 minutes) in
  (CC_RANGE (-13) tz.1 15 && CC_RANGE 0 tz.2 59, set_timezone tz td).

(** ** The parser *)

Inductive condition :=
| yyc_timer | yyc_weekday1 | yyc_weekday2 | yyc_weekdayend | yyc_year | yyc_month | yyc_day
| yyc_hour | yyc_minute | yyc_second | yyc_timezone.

(** The variables of crinitTimerParse(), with what [td] points to. *)
Record vars := mkVars { v_wDay : Z; v_result : bool; v_td : crinitTimerDef }.

(** An action goes on with another condition or returns. *)
Inductive next := Goto (c : condition) (v : vars) | Return (b : bool) (td : crinitTimerDef).
Definition action : Type := (tag → string) → vars → next.

(** result = result && f(...) *)
Definition set_if (f : crinitTimerDef → bool * crinitTimerDef) (v : vars) : vars :=
  if v_result v then let '(b, td) := f (v_td v) in mkVars (v_wDay v) b td else v.

Definition goto (c : condition) : action := λ _ v, Goto c v.
Definition return_result : action := λ _ v, Return (v_result v) (v_td v).
(** A setter, and then goto or return. *)
Definition set_goto (f : setter) (c : condition) : action := λ t v, Goto c (set_if (f t) v).
Definition set_return (f : setter) : action := λ t v,
  let v := set_if (f t) v in Return (v_result v) (v_td v).
(** The shorthands change the definition and return true. *)
Definition shorthand (f : crinitTimerDef → crinitTimerDef) : action := λ _ v, Return true (f (v_td v)).
Definition wday_is (w : Z) : action := λ _ v, Goto yyc_weekday2 (mkVars w (v_result v) (v_td v)).
Definition wday_to (end_ : Z) : action := λ _ v,
  Goto yyc_weekdayend (set_if (crinitTimerSetWeekdays (v_wDay v) end_) v).

(** A rule without a slash, and one with nothing in front of it. *)
Definition plain (r : re) (a : action) : rule action := mkRule r Eps a.
Definition ahead_of (ctx : re) (a : action) : rule action := mkRule Eps ctx a.

Definition mon : re := Cat (word "mon") (opt (word "day")).
Definition tue : re := Cat (word "tue") (opt (word "sday")).
Definition wed : re := Cat (word "wed") (opt (word "nesday")).
Definition thu : re := Cat (word "thu") (opt (word "rsday")).
Definition fri : re := Cat (word "fri") (opt (word "day")).
Definition sat : re := Cat (word "sat") (opt (word "urday")).
Definition sun : re := Cat (word "sun") (opt (word "day")).
Definition wday : re := alts mon [tue; wed; thu; fri; sat; sun].

(** [0-9*.]{1,6} and ('-' [0-9*.]{1,6}){n} *)
Definition field6 : re := rep 1 5 (Cls is_field).
Definition year_field : re := rep 1 11 (Cls is_field).
Definition dashed (n : nat) : re := rep n 0 (Cat (chr_i "-") field6).
Definition digits (lo more : nat) : re := rep lo more (Cls is_digit).

(** The three ways to write a part: start..end, one value, an asterisk. *)
Definition part_range (more : nat) (term : re) : re :=
  cats [Tag t1; digits 0 more; Tag t2; word ".."; Tag t3; digits 0 more; Tag t4; term].
Definition part_single (more : nat) (term : re) : re :=
  cats [Tag t1; Tag t3; digits 1 more; Tag t2; Tag t4; term].
Definition part_star (term : re) : re := cats [Tag t1; Tag t2; chr_i "*"; Tag t3; Tag t4; term].
Definition part_rules (many one : nat) (term ctx : re) (a : action) : list (rule action) :=
  [mkRule (part_range many term) ctx a; mkRule (part_single one term) ctx a; mkRule (part_star term) ctx a].

Definition timer_rules : list (rule action) :=
  [plain (Cat (word "minutely") end_) (shorthand (λ td, set_minutes ((minutes td).1, 59) (set_hours ((hours td).1, 23) td)));
   plain (Cat (word "hourly") end_) (shorthand (λ td, set_hours ((hours td).1, 23) td));
   plain (Cat (Alt (word "daily") (word "midnight")) end_) (shorthand (λ td, td));
   plain (Cat (word "monthly") end_) (shorthand (λ td, set_days ((days td).1, 1) td));
   plain (Cat (word "weekly") end_)
     (shorthand (λ td, mkTimerDef 1 (years td) (month td) (days td) (hours td) (minutes td) (seconds td) (timezone td)));
   plain (Cat (Alt (word "yearly") (word "annually")) end_)
     (shorthand (λ td, set_month ((month td).1, 1) (set_days ((days td).1, 1) td)));
   ahead_of (Alt wday (chr_i "*")) (goto yyc_weekday1);
   ahead_of (cats [year_field; dashed 2; end_]) (goto yyc_year);
   ahead_of (cats [year_field; dashed 3; chr_i ":"]) (goto yyc_year);
   ahead_of (Cat field6 (chr_i ":")) (goto yyc_hour)].

Definition weekday1_rules : list (rule action) :=
  [plain (chr_i "*") (goto yyc_weekdayend);
   plain mon (wday_is 1); plain tue (wday_is 2); plain wed (wday_is 4); plain thu (wday_is 8);
   plain fri (wday_is 16); plain sat (wday_is 32); plain sun (wday_is 64)].

Definition weekday2_rules : list (rule action) :=
  [ahead_of (Cat year_field (dashed 2)) (goto yyc_year);
   ahead_of (Cat field6 (chr_i ":")) (goto yyc_hour);
   plain end_ (λ _ v, let v := set_if (crinitTimerSetWeekdays (v_wDay v) 255) v in Return (v_result v) (v_td v));
   plain (chr_i "-") (λ _ v, Goto yyc_year (set_if (crinitTimerSetWeekdays (v_wDay v) (v_wDay v)) v));
   plain (Cat (word "..") mon) (wday_to 1); plain (Cat (word "..") tue) (wday_to 2);
   plain (Cat (word "..") wed) (wday_to 4); plain (Cat (word "..") thu) (wday_to 8);
   plain (Cat (word "..") fri) (wday_to 16); plain (Cat (word "..") sat) (wday_to 32);
   plain (Cat (word "..") sun) (wday_to 64)].

Definition weekdayend_rules : list (rule action) :=
  [plain end_ return_result;
   plain (chr_i "-") (goto yyc_year);
   mkRule (chr_i "-") (Cat field6 (chr_i ":")) (goto yyc_hour)].

Definition year_rules : list (rule action) :=
  part_rules 5 3 (chr_i "-") Eps (set_goto crinitTimerSetYears yyc_month)
  ++ [ahead_of (Cat field6 (chr_i ":")) (goto yyc_hour)].

Definition rules (c : condition) : list (rule action) :=
  match c with
  | yyc_timer => timer_rules
  | yyc_weekday1 => weekday1_rules
  | yyc_weekday2 => weekday2_rules
  | yyc_weekdayend => weekdayend_rules
  | yyc_year => year_rules
  | yyc_month => part_rules 2 1 (chr_i "-") Eps (set_goto crinitTimerSetMonth yyc_day)
  | yyc_day =>
      part_rules 2 1 end_ Eps (set_return crinitTimerSetDays)
      ++ part_rules 2 1 (chr_i "-") Eps (set_goto crinitTimerSetDays yyc_hour)
  | yyc_hour => part_rules 2 1 (chr ":") Eps (set_goto crinitTimerSetHours yyc_minute)
  | yyc_minute =>
      part_rules 2 1 Eps Eps (set_goto crinitTimerSetMinutes yyc_timezone)
      ++ part_rules 2 1 (chr_i ":") Eps (set_goto crinitTimerSetMinutes yyc_second)
  | yyc_second =>
      part_rules 2 1 Eps Eps (set_return crinitTimerSetSeconds)
      ++ part_rules 2 1 Eps (Cls is_sign) (set_goto crinitTimerSetSeconds yyc_timezone)
  | yyc_timezone =>
      [plain end_ return_result;
       plain (cats [Tag t1; Cls is_sign; digits 1 1; Tag t2; opt (chr_i ":"); Tag t3; opt (digits 2 0); Tag t4; end_])
         (set_return crinitTimerSetTimezone)]
  end.

(** The last case is the rule for any other text. *)
Fixpoint yy (fuel : nat) (c : condition) (text : string) (v : vars) : bool * crinitTimerDef :=
  match fuel with
  | O => (false, v_td v)
  | S fuel =>
      match lex (rules c) text with
      | Some (a, h) =>
          match a (h_tags h) v with
          | Goto c' v' => yy fuel c' (h_text h) v'
          | Return b td => (b, td)
          end
      | None => (false, v_td v)
      end
  end.

(** Every goto is to a later condition. *)
Definition rank (c : condition) : nat :=
  match c with
  | yyc_timer => 0 | yyc_weekday1 => 1 | yyc_weekday2 => 2 | yyc_weekdayend => 3 | yyc_year => 4
  | yyc_month => 5 | yyc_day => 6 | yyc_hour => 7 | yyc_minute => 8 | yyc_second => 9 | yyc_timezone => 10
  end.

Definition c_text (s : string) : string := s ++ String NUL EmptyString.

(** The result and the definition, which is set even if the text is not accepted. *)
Definition crinitTimerParse (s : string) : bool * crinitTimerDef :=
  yy 11 yyc_timer (c_text s) (mkVars 0 true crinitTimerSetDefault).
