(* ===== verification/TimerParseProps.v ===== *)
(** * The parser of timer definitions: what it accepts and what it reads

    A definition that is accepted is within the ranges the search for the next time
    relies on, and a text of the documented form is read as documented. *)

From Stdlib Require Import ZArith Lia Bool List String Ascii.
From stdpp Require Import base list strings.
From S2P Require Import Prelude Timer TimerParse.

Open Scope Z_scope.
Open Scope crinit_scope.

#[local] Arguments String.append : simpl nomatch.

(** ** The lexer takes one of its rules *)

Lemma longest_in {B} (l : list (nat * B)) x : longest l = Some x → In x l.
Proof.
  revert x. induction l as [|y l IH]; intros x; [done|]. cbn [longest foldr]. fold (longest l).
  destruct (longest l) as [z|]; [|by intros [= <-]; left].
  destruct (fst y <? fst z)%nat; intros [= <-]; [right; by apply IH|by left].
Qed.

Lemma lex_in {A} (rs : list (rule A)) text a h :
  lex rs text = Some (a, h) → ∃ r, r ∈ rs ∧ r_act r = a.
Proof.
  unfold lex, hits. intros H. apply fmap_Some in H as ([n [a' h']] & Hl & [= <- <-]).
  apply longest_in in Hl. apply list_elem_of_In in Hl.
  apply list_elem_of_bind in Hl as (r & Hx & Hr). apply list_elem_of_fmap in Hx as (x & [= _ -> _] & _).
  by exists r.
Qed.

(** ** What is accepted is within the ranges *)

Definition good (td : crinitTimerDef) : Prop :=
  def_ok td ∧ within 0 65535 (years td) ∧ -13 ≤ (timezone td).1 ≤ 15 ∧ 0 ≤ (timezone td).2 ≤ 59.

Lemma default_good : good crinitTimerSetDefault.
Proof. by repeat split. Qed.

Lemma fold_uint16 l acc : 0 ≤ acc ≤ 65535 → 0 ≤ fold_left (λ res c, uint16 (res * 10 + digit_val c)) l acc ≤ 65535.
Proof.
  revert acc. induction l as [|c l IH]; intros acc Ha; [done|]. apply IH.
  unfold uint16. pose proof (Z.mod_pos_bound (acc * 10 + digit_val c) 65536). lia.
Qed.

Lemma parse_uint16_bounds a b : 0 ≤ crinitTimerParseUint16 a b ≤ 65535.
Proof. unfold crinitTimerParseUint16. case_match; [lia|]. by apply fold_uint16. Qed.

(** A setter that says yes to a good definition leaves a good one. *)
Definition keeps_good (f : crinitTimerDef → bool * crinitTimerDef) : Prop :=
  ∀ td, good td → (f td).1 = true → good (f td).2.

Ltac setter_good :=
  intros td [(Hm & Hd & Hh & Hmi & Hs) (Hy & Htz)] Hb; cbn [fst snd] in *; unfold CC_RANGE in *;
  rewrite ?andb_true_iff, ?Z.leb_le in Hb; unfold good, def_ok, within in *; cbn [fst snd]; cbn; tauto.

Lemma month_good t : keeps_good (crinitTimerSetMonth t).
Proof. unfold crinitTimerSetMonth. setter_good. Qed.
Lemma days_good t : keeps_good (crinitTimerSetDays t).
Proof. unfold crinitTimerSetDays. setter_good. Qed.
Lemma hours_good t : keeps_good (crinitTimerSetHours t).
Proof. unfold crinitTimerSetHours. setter_good. Qed.
Lemma minutes_good t : keeps_good (crinitTimerSetMinutes t).
Proof. unfold crinitTimerSetMinutes. setter_good. Qed.
Lemma seconds_good t : keeps_good (crinitTimerSetSeconds t).
Proof. unfold crinitTimerSetSeconds. setter_good. Qed.
Lemma timezone_good t : keeps_good (crinitTimerSetTimezone t).
Proof. unfold crinitTimerSetTimezone. setter_good. Qed.
Lemma years_good t : keeps_good (crinitTimerSetYears t).
Proof.
  intros td [Hd (_ & Htz)] _. split_and!; [done| |apply Htz..]. unfold within. cbn.
  pose proof (parse_uint16_bounds (t t1) (t t2)). pose proof (parse_uint16_bounds (t t3) (t t4)). case_match; lia.
Qed.
Lemma weekdays_good a b : keeps_good (crinitTimerSetWeekdays a b).
Proof. intros td Htd _. unfold crinitTimerSetWeekdays. by repeat case_match. Qed.

Create HintDb timer_good.
#[local] Hint Resolve month_good days_good hours_good minutes_good seconds_good timezone_good years_good weekdays_good : timer_good.

Definition vars_ok (v : vars) : Prop := v_result v = true → good (v_td v).

Lemma set_if_ok f v : keeps_good f → vars_ok v → vars_ok (set_if f v).
Proof.
  intros Hf Hv. unfold set_if, vars_ok in *. destruct (v_result v) eqn:E; [|congruence].
  specialize (Hf (v_td v) (Hv eq_refl)). destruct (f (v_td v)) as [b td]. cbn in *. auto.
Qed.
#[local] Hint Resolve set_if_ok : timer_good.

(** An action goes to a later condition, or returns what is good if it is accepted. *)
Definition act_ok (c : condition) (a : action) : Prop :=
  ∀ t v, vars_ok v → (c = yyc_timer → v_result v = true) →
  match a t v with
  | Goto c' v' => (rank c < rank c')%nat ∧ vars_ok v'
  | Return b td => b = true → good td
  end.

Lemma rules_ok c : Forall (λ r, act_ok c (r_act r)) (rules c).
Proof.
  destruct c; repeat (apply Forall_cons; split); try apply Forall_nil; try done;
    intros t v Hv Ht; cbn; try (split; [lia|by auto with timer_good]); try (by apply Hv);
    try (by apply (set_if_ok _ v); [auto with timer_good|]).
  all: intros _; specialize (Hv (Ht eq_refl)); destruct Hv as [(Hm & Hd & Hh & Hmi & Hs) Hr];
    unfold good, def_ok, within in *; cbn; lia.
Qed.

Lemma lex_act_ok c text a h : lex (rules c) text = Some (a, h) → act_ok c a.
Proof.
  intros (r & Hr & <-)%lex_in. pose proof (rules_ok c) as H. rewrite Forall_forall in H. by apply H.
Qed.

Lemma yy_good fuel c text v :
  vars_ok v → (c = yyc_timer → v_result v = true) → (yy fuel c text v).1 = true → good (yy fuel c text v).2.
Proof.
  revert c text v. induction fuel as [|fuel IH]; intros c text v Hv Ht; [done|]. cbn [yy].
  destruct (lex (rules c) text) as [[a h]|] eqn:E; [|done].
  pose proof (lex_act_ok _ _ _ _ E (h_tags h) v Hv Ht) as Ha. destruct (a (h_tags h) v) as [c' v'|b td]; [|done].
  destruct Ha as [Hrank Hv']. apply IH; [done|]. intros ->. cbn in Hrank. lia.
Qed.

(** The fuel is enough: more of it changes nothing. *)
Lemma yy_enough fuel fuel' c text v :
  vars_ok v → (c = yyc_timer → v_result v = true) → (11 ≤ fuel + rank c)%nat → (fuel ≤ fuel')%nat →
  yy fuel' c text v = yy fuel c text v.
Proof.
  revert fuel' c text v. induction fuel as [|fuel IH]; intros [|fuel'] c text v Hv Ht Hf Hle; try lia; [done|destruct c; cbn in Hf; lia|].
  cbn [yy]. destruct (lex (rules c) text) as [[a h]|] eqn:E; [|done].
  pose proof (lex_act_ok _ _ _ _ E (h_tags h) v Hv Ht) as Ha. destruct (a (h_tags h) v) as [c' v'|b td]; [|done].
  destruct Ha as [Hrank Hv']. apply IH; [done| |lia..]. intros ->. cbn in Hrank. lia.
Qed.

Lemma parse_good s td : crinitTimerParse s = (true, td) → good td.
Proof.
  intros E. pose proof (yy_good 11 yyc_timer (c_text s) (mkVars 0 true crinitTimerSetDefault)) as H.
  fold (crinitTimerParse s) in H. rewrite E in H. by apply H; [intros _; apply default_good|..].
Qed.

(** C34: the text of a timer that the parser accepts, whatever it is, from any time before
    the year 59000: the next time of the timer is the value 0 of a timer that does not
    fire any more, or a time after the last one, with the same nanoseconds, that
    crinitCheckTimerTime() accepts for the definition; and the lexer ends within
    eleven rules, so that the accepted definition does not depend on the fuel. *)
Theorem accepted_timer_moves_on s td last fuel :
  crinitTimerParse s = (true, td) →
  calendar_range (tv_sec last + ((timezone td).1 * 3600 + (timezone td).2 * 60)) → (11 ≤ fuel)%nat →
  let next := crinitTimerNextTime last td in
  yy fuel yyc_timer (c_text s) (mkVars 0 true crinitTimerSetDefault) = (true, td) ∧
  (next = mkTimespec 0 0 ∨
   (crinitCheckTimerTime next td = true ∧ tv_nsec next = tv_nsec last ∧ tv_sec last < tv_sec next)).
Proof.
  intros E Hr Hf next. split.
  - rewrite <- E. apply yy_enough; [intros _; apply default_good|done|cbn; lia|done].
  - apply crinitTimerNextTime_sound; [|done]. by apply (parse_good _ _ E).
Qed.

Lemma accepted_timer_moves_on_witness :
  let td := mkTimerDef 127 (0, 65535) (11, 2) (1, 31) (22, 3) (0, 59) (30, 30) (-3, 30) in
  let next := crinitTimerNextTime (mkTimespec 1699142400 7) td in
  yy 50 yyc_timer (c_text "*-11..2-*-22..3:*:30-03:30") (mkVars 0 true crinitTimerSetDefault) = (true, td) ∧
  (next = mkTimespec 0 0 ∨ (crinitCheckTimerTime next td = true ∧ tv_nsec next = 7 ∧ 1699142400 < tv_sec next)).
Proof.
  apply (accepted_timer_moves_on "*-11..2-*-22..3:*:30-03:30" _ (mkTimespec 1699142400 7) 50).
  - vm_compute. reflexivity.
  - vm_compute. split; discriminate.
  - lia.
Defined.

(** ** Matching *)

Definition all_ascii : list ascii := ascii_of_nat <$> seq 0 256.

Lemma in_all_ascii c : c ∈ all_ascii.
Proof.
  apply list_elem_of_fmap. exists (nat_of_ascii c). split; [by rewrite ascii_nat_embedding|].
  apply elem_of_seq. pose proof (nat_ascii_bounded c). lia.
Qed.

Fixpoint nullable (r : re) : bool :=
  match r with
  | Eps | Tag _ => true
  | Cls _ => false
  | Cat r1 r2 => nullable r1 && nullable r2
  | Alt r1 r2 => nullable r1 || nullable r2
  end.

(** Whether a match can begin with the character. *)
Fixpoint first (r : re) (c : ascii) : bool :=
  match r with
  | Eps | Tag _ => false
  | Cls f => f c
  | Cat r1 r2 => first r1 c || (nullable r1 && first r2 c)
  | Alt r1 r2 => first r1 c || first r2 c
  end.

Lemma bind_single {A B} (x : A) (k : A → list B) : ([x] ≫= k) = k x.
Proof. cbn. apply app_nil_r. Qed.

(** A match reads something, or is possible without. *)
Lemma first_sound r h c s :
  h_text h = String c s → first r c = false →
  ∀ h', h' ∈ re_match r h → nullable r = true ∧ h_text h' = h_text h.
Proof.
  revert h c s. induction r as [|f|r1 IH1 r2 IH2|r1 IH1 r2 IH2|t]; intros h c s Ht Hf h' Hin; cbn in *.
  - apply list_elem_of_singleton in Hin as ->. done.
  - rewrite Ht, Hf in Hin. by apply elem_of_nil in Hin.
  - apply orb_false_iff in Hf as [Hf1 Hf2]. apply list_elem_of_bind in Hin as (h1 & Hin & H1).
    destruct (IH1 _ _ _ Ht Hf1 _ H1) as [N1 E1]. rewrite N1 in *. cbn in Hf2.
    rewrite Ht in E1. destruct (IH2 _ _ _ E1 Hf2 _ Hin) as [N2 E2]. split; [done|congruence].
  - apply orb_false_iff in Hf as [Hf1 Hf2]. apply elem_of_app in Hin as [Hin|Hin].
    + destruct (IH1 _ _ _ Ht Hf1 _ Hin) as [-> E]. done.
    + destruct (IH2 _ _ _ Ht Hf2 _ Hin) as [-> E]. by rewrite orb_true_r.
  - apply list_elem_of_singleton in Hin as ->. by destruct t.
Qed.

Lemma dead r n c s t : nullable r = false → first r c = false → re_match r (mkHit n (String c s) t) = [].
Proof.
  intros Hn Hf. destruct (re_match r (mkHit n (String c s) t)) as [|h' l] eqn:E; [done|].
  destruct (first_sound r (mkHit n (String c s) t) c s eq_refl Hf h') as [Hn' _]; [rewrite E; left|congruence].
Qed.

(** No match of [r] begins with a character of the class. *)
Definition avoids (r : re) (f : ascii → bool) : bool :=
  negb (nullable r) && forallb (λ c, negb (f c && first r c)) all_ascii.

Lemma avoids_dead r f n c s t : avoids r f = true → f c = true → re_match r (mkHit n (String c s) t) = [].
Proof.
  intros [Hn Hall]%andb_true_iff Hc. apply negb_true_iff in Hn. apply dead; [done|].
  rewrite forallb_forall in Hall. specialize (Hall c (proj1 (list_elem_of_In _ _) (in_all_ascii c))).
  rewrite Hc in Hall. by apply negb_true_iff.
Qed.

(** [d] consists of characters of the class, and the text behind it begins with another. *)
Definition all_in (f : ascii → bool) (d : string) : Prop := Forall (λ c, f c = true) (list_ascii_of_string d).
Definition stops (f : ascii → bool) (rest : string) : Prop :=
  match rest with String c _ => f c = false | EmptyString => True end.

Lemma all_in_cons f c d : all_in f (String c d) ↔ f c = true ∧ all_in f d.
Proof. unfold all_in. cbn. by rewrite Forall_cons. Qed.

(** The matches of a repetition end in the middle of [d], but for the one that reads it. *)
Definition inside (f : ascii → bool) (n : nat) (t : tag → string) (h : hit) : Prop :=
  ∃ c s, h_text h = String c s ∧ f c = true ∧ (h_len h < n)%nat ∧ h_tags h = t.

Lemma upto_hits f more d rest n t :
  all_in f d → stops f rest →
  ∃ l, re_match (upto more (Cls f)) (mkHit n (d ++ rest) t) =
         (if (String.length d <=? more)%nat then [mkHit (n + String.length d) rest t] else []) ++ l ∧
       Forall (inside f (n + String.length d) t) l.
Proof.
  revert d n. induction more as [|more IH]; intros d n Hd Hr.
  - destruct d as [|c d]; cbn.
    + exists []. rewrite Nat.add_0_r. split; [done|constructor].
    + apply all_in_cons in Hd as [Hc _]. exists [mkHit n (String c (d ++ rest)) t]. split; [done|].
      apply Forall_singleton. exists c, (d ++ rest)%string. split_and!; cbn; [done|done|lia|done].
  - destruct d as [|c d]; cbn.
    + exists []. rewrite Nat.add_0_r. split; [|constructor]. destruct rest as [|c rest]; cbn; [done|].
      cbn in Hr. by rewrite Hr.
    + apply all_in_cons in Hd as [Hc Hd]. rewrite Hc, bind_single.
      destruct (IH d (S n) Hd Hr) as (l & El & Hl).
      exists (l ++ [mkHit n (String c (d ++ rest)) t]). rewrite El, app_assoc.
      replace (n + S (String.length d))%nat with (S n + String.length d)%nat by lia. split; [done|].
      apply Forall_app. split; [done|]. apply Forall_singleton.
      exists c, (d ++ rest)%string. split_and!; cbn; [done|done|lia|done].
Qed.

Lemma rep_hits f lo more d rest n t :
  all_in f d → stops f rest →
  ∃ l, re_match (rep lo more (Cls f)) (mkHit n (d ++ rest) t) =
         (if (lo <=? String.length d)%nat && (String.length d <=? lo + more)%nat
          then [mkHit (n + String.length d) rest t] else []) ++ l ∧
       Forall (inside f (n + String.length d) t) l.
Proof.
  revert d n. induction lo as [|lo IH]; intros d n Hd Hr; [by apply upto_hits|]. cbn [rep re_match h_text].
  destruct d as [|c d]; cbn.
  - exists []. split; [|constructor]. destruct rest as [|c rest]; cbn; [done|]. cbn in Hr. by rewrite Hr.
  - apply all_in_cons in Hd as [Hc Hd]. rewrite Hc, bind_single.
    destruct (IH d (S n) Hd Hr) as (l & El & Hl). exists l. rewrite El.
    replace (n + S (String.length d))%nat with (S n + String.length d)%nat by lia. done.
Qed.

(** A repetition that is followed by something else reads all of [d]. *)
Lemma rep_then f lo more r d rest n t :
  all_in f d → stops f rest → avoids r f = true →
  re_match (Cat (rep lo more (Cls f)) r) (mkHit n (d ++ rest) t) =
  if (lo <=? String.length d)%nat && (String.length d <=? lo + more)%nat
  then re_match r (mkHit (n + String.length d) rest t) else [].
Proof.
  intros Hd Hr Ha. cbn [re_match]. destruct (rep_hits f lo more d rest n t Hd Hr) as (l & -> & Hl).
  rewrite bind_app. assert ((l ≫= re_match r) = []) as ->.
  { induction Hl as [|h l (c & s & Ht & Hc & _ & _) _ IHl]; [done|]. cbn.
    destruct h as [m text tg]. cbn in Ht. subst text. by rewrite (avoids_dead r f), IHl. }
  case_match; cbn; by rewrite ?app_nil_r.
Qed.

(** ** The documented form *)

(** A number of up to [max] digits, and its value. *)
Definition number (max : nat) (a : string) : Prop := all_in is_digit a ∧ (String.length a ≤ max)%nat.
Definition dec (a : string) : Z := fold_left (λ n c, 10 * n + digit_val c) (list_ascii_of_string a) 0.

(** One part of a timer: start..end, where both can be left out, one value, or all. *)
Inductive part := Span (a b : string) | One (a : string) | All.

Definition part_text (p : part) : string :=
  match p with Span a b => a ++ ".." ++ b | One a => a | All => "*" end.
Definition part_wf (many one : nat) (p : part) : Prop :=
  match p with
  | Span a b => number many a ∧ number many b
  | One a => number one a ∧ a ≠ EmptyString
  | All => True
  end.
Definition or_else (a : string) (x : Z) : Z := match a with EmptyString => x | _ => dec a end.
Definition part_value (lo hi : Z) (p : part) : range :=
  match p with
  | Span a b => (or_else a lo, or_else b hi)
  | One a => (dec a, dec a)
  | All => (lo, hi)
  end.

(** What crinitTimerParseUint16() returns for a number that is left out or not. *)
Definition num16 (a : string) : Z := or_else a 65535 `mod` 65536.
Definition part_nums (p : part) : range :=
  match p with Span a b => (num16 a, num16 b) | One a => (num16 a, num16 a) | All => (65535, 65535) end.
Definition tags_of (p : part) (t : tag → string) : Prop :=
  (crinitTimerParseUint16 (t t1) (t t2), crinitTimerParseUint16 (t t3) (t t4)) = part_nums p.

Lemma between_app a rest : between (a ++ rest) rest = a.
Proof.
  unfold between. rewrite string_length_app, Nat.add_sub.
  induction a as [|c a IH]; cbn; [by destruct rest|]. by rewrite IH.
Qed.

Lemma fold_num16 l x : fold_left (λ res c, uint16 (res * 10 + digit_val c)) l (x `mod` 65536)
  = fold_left (λ n c, 10 * n + digit_val c) l x `mod` 65536.
Proof.
  revert x. induction l as [|c l IH]; intros x; [done|]. cbn [fold_left]. rewrite <- IH. f_equal. unfold uint16.
  rewrite <- Z.add_mod_idemp_l, Z.mul_mod_idemp_l, Z.add_mod_idemp_l by done. f_equal. lia.
Qed.

Lemma parse_num16 a rest : crinitTimerParseUint16 (a ++ rest) rest = num16 a.
Proof.
  unfold crinitTimerParseUint16, num16. rewrite string_length_app, between_app. destruct a as [|c a].
  - rewrite (proj2 (Nat.leb_le _ _)) by (cbn; lia). done.
  - rewrite (proj2 (Nat.leb_gt _ _)) by (cbn; lia). apply (fold_num16 _ 0).
Qed.

Lemma tag_then t r h : re_match (Cat (Tag t) r) h = re_match r (set_tag t h).
Proof. apply bind_single. Qed.

Lemma cls_then f r n c s t :
  re_match (Cat (Cls f) r) (mkHit n (String c s) t) = if f c then re_match r (mkHit (S n) s t) else [].
Proof. cbn. case_match; [apply bind_single|done]. Qed.

Lemma cat_assoc r1 r2 r3 h : re_match (Cat (Cat r1 r2) r3) h = re_match (Cat r1 (Cat r2 r3)) h.
Proof.
  cbn. induction (re_match r1 h) as [|x l IH]; [done|]. cbn. by rewrite bind_app, IH.
Qed.

Lemma dots_then r n s t : re_match (Cat (word "..") r) (mkHit n (".." ++ s) t) = re_match r (mkHit (n + 2) s t).
Proof.
  change (word "..") with (Cat (chr_i ".") (chr_i ".")). rewrite cat_assoc. cbn [String.append].
  unfold chr_i. rewrite !cls_then. cbn. do 2 f_equal. lia.
Qed.

(** The rule for start..end, up to the end of the second number. *)
Lemma range_on_span many a b rest term t :
  number many a →
  ∃ tg, re_match (part_range many term) (mkHit 0 (a ++ ".." ++ b ++ rest) t) =
          re_match (Cat (digits 0 many) (Cat (Tag t4) term)) (mkHit (String.length a + 2) (b ++ rest) tg) ∧
        tg t1 = (a ++ ".." ++ b ++ rest)%string ∧ tg t2 = (".." ++ b ++ rest)%string ∧ tg t3 = (b ++ rest)%string.
Proof.
  intros [Ha Hl]. eexists. unfold part_range. cbn [cats]. rewrite tag_then. unfold set_tag at 1. cbn [h_len h_text h_tags].
  unfold digits at 1. rewrite rep_then; [|done|done|by vm_compute].
  rewrite (proj2 (Nat.leb_le _ _)) by lia. cbn [andb Nat.leb]. rewrite (proj2 (Nat.leb_le _ _)) by lia.
  rewrite tag_then. unfold set_tag at 1. cbn [h_len h_text h_tags].
  rewrite dots_then, tag_then. unfold set_tag at 1. cbn [h_len h_text h_tags]. by split_and!.
Qed.

Lemma ci_punct k c : In k ["."; "-"; ":"; "*"]%char → Ascii.eqb (to_lower k) (to_lower c) = Ascii.eqb k c.
Proof. intros [<-|[<-|[<-|[<-|[]]]]]; destruct c as [[] [] [] [] [] [] [] []]; reflexivity. Qed.

(** It does not match another text. *)
Lemma range_on_other many a c rest term t :
  all_in is_digit a → is_digit c = false → c ≠ "."%char →
  re_match (part_range many term) (mkHit 0 (a ++ String c rest) t) = [].
Proof.
  intros Ha Hc Hdot. unfold part_range. cbn [cats]. rewrite tag_then. unfold set_tag at 1. cbn [h_len h_text h_tags].
  unfold digits at 1. rewrite rep_then; [|done|done|by vm_compute]. case_match; [|done].
  apply dead; [done|]. cbn. rewrite ci_punct, !orb_false_r by (by left). by apply Ascii.eqb_neq.
Qed.

(** The rule for one number, up to its end, and on other texts. *)
Lemma single_on_number one a rest term t :
  all_in is_digit a →
  ∃ tg, re_match (part_single one term) (mkHit 0 (a ++ rest) t) =
          re_match (Cat (digits 1 one) (Cat (Tag t2) (Cat (Tag t4) term))) (mkHit 0 (a ++ rest) tg) ∧
        tg t1 = (a ++ rest)%string ∧ tg t3 = (a ++ rest)%string.
Proof.
  intros Ha. eexists. unfold part_single. cbn [cats]. rewrite !tag_then. unfold set_tag. cbn [h_len h_text h_tags].
  by split_and!.
Qed.

Lemma star_on_star rest term t :
  ∃ tg, re_match (part_star term) (mkHit 0 (String "*" rest) t) = re_match term (mkHit 1 rest tg) ∧ tags_of All tg.
Proof.
  eexists. unfold part_star. cbn [cats]. rewrite !tag_then. unfold set_tag. cbn [h_len h_text h_tags].
  unfold chr_i. rewrite cls_then. cbn [to_lower]. change (Ascii.eqb _ _) with true. cbn iota.
  rewrite !tag_then. unfold set_tag. cbn [h_len h_text h_tags]. split; [reflexivity|].
  unfold tags_of, crinitTimerParseUint16. by rewrite !Nat.leb_refl.
Qed.

(** A text that begins like this is not matched by the rule for the asterisk. *)
Lemma star_dead c rest term t : Ascii.eqb "*" c = false → re_match (part_star term) (mkHit 0 (String c rest) t) = [].
Proof. intros Hc. apply dead; [done|]. cbn. by rewrite ci_punct, Hc by (do 3 right; by left). Qed.

(** ** The rules of a part *)

Definition heads (many one : nat) (term : re) (text : string) : list hit :=
  let h := mkHit 0 text (λ _, text) in
  re_match (part_range many term) h ++ re_match (part_single one term) h ++ re_match (part_star term) h.

(** A match that ends in the middle of a part. *)
Definition short (len : nat) (h : hit) : Prop :=
  ∃ c s, h_text h = String c s ∧ is_field c = true ∧ (h_len h < len)%nat.

Lemma tag_map t (l : list hit) : (l ≫= re_match (Cat (Tag t) Eps)) = set_tag t <$> l.
Proof. induction l as [|x l IH]; [done|]. rewrite bind_cons, IH, tag_then. done. Qed.

Lemma tags_map j k (l : list hit) : (l ≫= re_match (Cat (Tag j) (Cat (Tag k) Eps))) = set_tag k <$> (set_tag j <$> l).
Proof. induction l as [|x l IH]; [done|]. rewrite bind_cons, IH, !tag_then. done. Qed.

Lemma inside_short n m t l : Forall (inside is_digit n t) l → (n ≤ m)%nat → Forall (short m) l.
Proof.
  intros Hl Hm. eapply Forall_impl; [exact Hl|]. intros h (c & s & Ht & Hc & Hn & _).
  exists c, s. unfold is_field. rewrite Hc. split_and!; [done|done|lia].
Qed.

Lemma short_tag m k l : Forall (short m) l → Forall (short m) (set_tag k <$> l).
Proof. intros Hl. by apply Forall_fmap. Qed.

Lemma short_le m n l : Forall (short m) l → (m ≤ n)%nat → Forall (short n) l.
Proof.
  intros Hl Hm. eapply Forall_impl; [exact Hl|]. intros h (c & s & Ht & Hc & Hn). exists c, s. split_and!; [done|done|lia].
Qed.

Lemma ends_digit c : is_field c = false → is_digit c = false ∧ c ≠ "."%char ∧ Ascii.eqb "*" c = false.
Proof.
  unfold is_field. intros H. apply orb_false_iff in H as [[Hd Hs]%orb_false_iff Hp].
  split_and!; [done|by intros ->|by rewrite Ascii.eqb_sym].
Qed.

Lemma digit_star c : is_digit c = true → Ascii.eqb "*" c = false.
Proof. intros H. apply Ascii.eqb_neq. by intros <-. Qed.

(** The matches of the rules before what terminates the part. *)
Lemma range_heads many a b c rest t :
  number many a → number many b → is_digit c = false →
  ∃ tg l, tags_of (Span a b) tg ∧
    re_match (part_range many Eps) (mkHit 0 (a ++ ".." ++ b ++ String c rest) t) =
      mkHit (String.length a + 2 + String.length b) (String c rest) tg :: l ∧
    Forall (short (String.length a + 2 + String.length b)) l.
Proof.
  intros Ha [Hb Hlb] Hc. destruct (range_on_span many a b (String c rest) Eps t Ha) as (tg & -> & E1 & E2 & E3).
  destruct (rep_hits is_digit 0 many b (String c rest) (String.length a + 2) tg Hb Hc) as (l & El & Hl).
  change (re_match (Cat ?r1 ?r2) ?h) with (re_match r1 h ≫= re_match r2). unfold digits. rewrite El.
  rewrite (proj2 (Nat.leb_le _ (0 + many))) by lia. cbn [andb Nat.leb].
  rewrite bind_app, bind_single, tag_then, tag_map. eexists _, _. split; [|split; [reflexivity|]].
  - unfold tags_of. cbn. rewrite E1, E2, E3. by rewrite (parse_num16 a), parse_num16.
  - by apply short_tag, (inside_short _ _ _ _ Hl).
Qed.

Lemma single_heads one a rest t :
  all_in is_digit a → stops is_digit rest →
  ∃ tg l, tags_of (One a) tg ∧
    re_match (part_single one Eps) (mkHit 0 (a ++ rest) t) =
      (if (1 <=? String.length a)%nat && (String.length a <=? 1 + one)%nat
       then [mkHit (String.length a) rest tg] else []) ++ l ∧
    Forall (short (String.length a)) l.
Proof.
  intros Ha Hr. destruct (single_on_number one a rest Eps t Ha) as (tg & -> & E1 & E2).
  destruct (rep_hits is_digit 1 one a rest 0 tg Ha Hr) as (l & El & Hl).
  change (re_match (Cat ?r1 ?r2) ?h) with (re_match r1 h ≫= re_match r2). unfold digits. rewrite El, bind_app, !tags_map.
  eexists _, _. split; [|split; [|by apply short_tag, short_tag, (inside_short _ _ _ _ Hl)]].
  2: { f_equal. case_match; [|done]. cbn. reflexivity. }
  unfold tags_of. cbn. rewrite E1, E2. by rewrite parse_num16.
Qed.

(** A text that begins with a number or with dots is not an asterisk. *)
Lemma star_on_digits a c rest term t :
  all_in is_digit a → Ascii.eqb "*" c = false → re_match (part_star term) (mkHit 0 (a ++ String c rest) t) = [].
Proof.
  intros Ha Hc. destruct a as [|d a]; [by apply star_dead|]. apply all_in_cons in Ha as [Hd _].
  by apply star_dead, digit_star.
Qed.

Lemma part_heads many one p c rest :
  part_wf many (S one) p → is_field c = false →
  ∃ tg l, tags_of p tg ∧
    heads many one Eps (part_text p ++ String c rest) =
      mkHit (String.length (part_text p)) (String c rest) tg :: l ∧
    Forall (short (String.length (part_text p))) l.
Proof.
  intros Hp (Hc & Hdot & Hstar)%ends_digit. unfold heads. destruct p as [a b|a|]; cbn [part_text part_wf] in *.
  - destruct Hp as [Ha Hb]. rewrite !string_app_assoc, !string_length_app, Nat.add_assoc.
    destruct (range_heads many a b c rest (λ _, (a ++ ".." ++ b ++ String c rest)%string) Ha Hb Hc) as (tg & l & Ht & -> & Hl).
    destruct (single_heads one a (".." ++ b ++ String c rest) (λ _, (a ++ ".." ++ b ++ String c rest)%string)) as (tg' & l' & _ & -> & Hl');
      [apply Ha|done|].
    rewrite (star_on_digits a "." (String "." (b ++ String c rest))), app_nil_r; [|apply Ha|done]. eexists _, _. split; [exact Ht|]. split; [reflexivity|].
    rewrite !Forall_app. split_and!; [done| |eapply short_le; [done|lia]]. case_match; [|done]. apply Forall_singleton.
    eexists _, _. split_and!; [reflexivity|done|cbn; lia].
  - destruct Hp as [[Ha Hl] Hne]. rewrite range_on_other, app_nil_l by done.
    destruct (single_heads one a (String c rest) (λ _, (a ++ String c rest)%string) Ha Hc) as (tg & l & Ht & -> & Hs).
    rewrite star_on_digits, app_nil_r by done. exists tg, l.
    rewrite (proj2 (Nat.leb_le _ (1 + one))), (proj2 (Nat.leb_le 1 _)); [done| |done]. destruct a; cbn; [done|lia].
  - cbn [String.append]. rewrite (range_on_other many EmptyString "*" (String c rest)); [|constructor|done..].
    destruct (single_heads one EmptyString (String "*" (String c rest)) (λ _, String "*" (String c rest))) as (tg' & l' & _ & E & Hs);
      [constructor|done|]. cbn [String.append] in E. rewrite E. clear E.
    destruct (star_on_star (String c rest) Eps (λ _, String "*" (String c rest))) as (tg & -> & Ht).
    assert (l' = []) as ->. { destruct l' as [|h l']; [done|]. apply Forall_cons in Hs as [(? & ? & _ & _ & Hlt) _]. cbn in Hlt. lia. }
    exists tg, []. split; [done|]. split; [reflexivity|constructor].
Qed.

(** What follows the tags of a rule is matched where they end. *)
Lemma cats_snoc l r h : l ≠ [] → re_match (cats (l ++ [r])) h = re_match (cats l) h ≫= re_match r.
Proof.
  revert h. induction l as [|x l IH]; intros h Hl; [done|]. destruct l as [|y l]; [done|].
  change (cats ((x :: y :: l) ++ [r])) with (Cat x (cats ((y :: l) ++ [r]))). change (cats (x :: y :: l)) with (Cat x (cats (y :: l))).
  cbn [re_match]. induction (re_match x h) as [|z zs IHz]; [done|]. rewrite !bind_cons, bind_app, IHz. by rewrite IH.
Qed.

Lemma bind_ret {A} (l : list A) : (l ≫= λ x, [x]) = l.
Proof. induction l as [|x l IH]; [done|]. rewrite bind_cons, IH. done. Qed.

Lemma heads_term many one term text : heads many one term text = heads many one Eps text ≫= re_match term.
Proof.
  unfold heads, part_range, part_single, part_star. rewrite !bind_app.
  assert (∀ l h, l ≠ [] → re_match (cats (l ++ [term])) h = re_match (cats (l ++ [Eps])) h ≫= re_match term) as H.
  { intros l h Hl. rewrite !cats_snoc by done. change (re_match Eps) with (λ x : hit, [x]). by rewrite bind_ret. }
  f_equal; [|f_equal].
  - by apply (H [Tag t1; digits 0 many; Tag t2; word ".."; Tag t3; digits 0 many; Tag t4]).
  - by apply (H [Tag t1; Tag t3; digits 1 one; Tag t2; Tag t4]).
  - by apply (H [Tag t1; Tag t2; chr_i "*"; Tag t3; Tag t4]).
Qed.

Lemma part_hits many one term ctx a text :
  hits (part_rules many one term ctx a) text =
  h ← heads many one Eps text ≫= re_match term; (λ c, (h_len c, (a, h))) <$> re_match ctx h.
Proof.
  unfold hits, part_rules, rule_hits. rewrite !bind_cons, app_nil_r. cbn [r_head r_ctx r_act].
  rewrite <- heads_term. unfold heads. rewrite !bind_app.
  assert (∀ l : list hit, (λ x : nat * hit, (x.1, (a, x.2))) <$> (l ≫= λ h, (λ c, (h_len c, h)) <$> re_match ctx h)
    = l ≫= λ h, (λ c, (h_len c, (a, h))) <$> re_match ctx h) as H.
  { induction l as [|h l IH]; [done|]. rewrite !bind_cons, fmap_app, IH, <- list_fmap_compose. done. }
  by rewrite !H.
Qed.

Lemma longest_first {B} (x : nat * B) l : Forall (λ y, (y.1 ≤ x.1)%nat) l → longest (x :: l) = Some x.
Proof.
  intros Hl. cbn [longest foldr]. fold (longest l). destruct (longest l) as [y|] eqn:E; [|done].
  apply longest_in, list_elem_of_In in E. rewrite Forall_forall in Hl. specialize (Hl y E).
  destruct (Nat.ltb_spec (fst x) (fst y)); [lia|done].
Qed.

Lemma longest_last {B} (x : nat * B) l : Forall (λ y, (y.1 < x.1)%nat) l → longest (l ++ [x]) = Some x.
Proof.
  induction 1 as [|y l Hy Hl IH]; [done|]. change (longest ((y :: l) ++ [x])) with
    (match longest (l ++ [x]) with Some z => if (fst y <? fst z)%nat then Some z else Some y | None => Some y end).
  rewrite IH. by rewrite (proj2 (Nat.ltb_lt _ _)).
Qed.

(** The text behind a part decides which of its rules match. *)
Section PartRules.
Context (many one : nat) (p : part) (c : ascii) (rest : string) (a : action).
Context (Hp : part_wf many (S one) p) (Hc : is_field c = false).
Let text : string := part_text p ++ String c rest.
Let len : nat := String.length (part_text p).

Lemma short_dead r m h : avoids r is_field = true → short m h → re_match r h = [].
Proof. intros Hr (d & s & Ht & Hd & _). destruct h. cbn in Ht. subst. by apply (avoids_dead _ is_field). Qed.

Lemma shorts_dead {B} (k : hit → list B) m l :
  (∀ h, short m h → k h = []) → Forall (short m) l → (l ≫= k) = [].
Proof. intros Hk. induction 1 as [|h l Hh _ IH]; [done|]. by rewrite bind_cons, IH, Hk. Qed.

Lemma part_closed f :
  avoids (Cls f) is_field = true →
  ∃ tg, tags_of p tg ∧
    hits (part_rules many one (Cls f) Eps a) text = if f c then [(S len, (a, mkHit (S len) rest tg))] else [].
Proof.
  intros Hf. destruct (part_heads many one p c rest Hp Hc) as (tg & l & Ht & E & Hl). exists tg. split; [done|].
  unfold text. rewrite part_hits, E, bind_cons.
  rewrite (shorts_dead _ _ l (λ h, short_dead _ _ h Hf) Hl), app_nil_r. cbn. by case_match.
Qed.

Lemma part_ctx f :
  avoids (Cls f) is_field = true →
  ∃ tg, tags_of p tg ∧
    hits (part_rules many one Eps (Cls f) a) text = if f c then [(S len, (a, mkHit len (String c rest) tg))] else [].
Proof.
  intros Hf. destruct (part_heads many one p c rest Hp Hc) as (tg & l & Ht & E & Hl). exists tg. split; [done|].
  unfold text. rewrite part_hits, E. change (re_match Eps) with (λ x : hit, [x]). rewrite bind_ret, bind_cons.
  rewrite (shorts_dead _ len l); [|intros h Hh; by rewrite (short_dead _ len h Hf Hh)|done].
  rewrite app_nil_r. cbn. by case_match.
Qed.

Lemma part_open :
  ∃ tg l, tags_of p tg ∧ hits (part_rules many one Eps Eps a) text = (len, (a, mkHit len (String c rest) tg)) :: l ∧
    Forall (λ x, (x.1 < len)%nat) l.
Proof.
  destruct (part_heads many one p c rest Hp Hc) as (tg & l & Ht & E & Hl). exists tg.
  exists (l ≫= λ h, [(h_len h, (a, h))]). split; [done|].
  unfold text. rewrite part_hits, E. change (re_match Eps) with (λ x : hit, [x]). rewrite bind_ret, bind_cons.
  split; [done|]. clear E. induction Hl as [|h l (d & s & _ & _ & Hlt) _ IH]; [constructor|]. rewrite bind_cons.
  by constructor.
Qed.
End PartRules.

(** The rules that only look ahead: a field of a date, and one of a time. *)
Lemma hits_app {A} (rs rs' : list (rule A)) text : hits (rs ++ rs') text = hits rs text ++ hits rs' text.
Proof. apply bind_app. Qed.

Lemma part_fields p many one : part_wf many one p → all_in is_field (part_text p).
Proof.
  assert (∀ a, all_in is_digit a → all_in is_field a) as H.
  { intros a Ha. eapply Forall_impl; [exact Ha|]. intros c Hc. unfold is_field. by rewrite Hc. }
  assert (∀ a b, all_in is_field a → all_in is_field b → all_in is_field (a ++ b)) as Happ.
  { intros a b Ha Hb. induction a as [|c a IH]; [done|]. apply all_in_cons in Ha as [Hc Ha].
    apply all_in_cons. auto. }
  destruct p as [a b|a|]; cbn; intros Hp.
  - destruct Hp as [[Ha _] [Hb _]]. apply Happ; [by apply H|]. apply (Happ ".."%string); [by repeat constructor|by apply H].
  - destruct Hp as [[Ha _] _]. by apply H.
  - by repeat constructor.
Qed.

(** ** What the setters read *)

Lemma digit_val_bounds c : is_digit c = true → 0 ≤ digit_val c ≤ 9.
Proof. unfold is_digit, digit_val. rewrite andb_true_iff, !Nat.leb_le. lia. Qed.

Lemma dec_bounds a : all_in is_digit a → 0 ≤ dec a < 10 ^ Z.of_nat (String.length a).
Proof.
  unfold dec, all_in. replace (String.length a) with (length (list_ascii_of_string a)) by (induction a; cbn; congruence).
  generalize (list_ascii_of_string a). intros l Hl.
  assert (∀ l x, Forall (λ c, is_digit c = true) l → 0 ≤ x →
    x * 10 ^ Z.of_nat (length l) ≤ fold_left (λ n c, 10 * n + digit_val c) l x < (x + 1) * 10 ^ Z.of_nat (length l)) as H.
  { clear. intros l. induction l as [|c l IH]; intros x Hl Hx; cbn [fold_left length]; [lia|].
    apply Forall_cons in Hl as [Hc Hl]. apply digit_val_bounds in Hc.
    specialize (IH (10 * x + digit_val c) Hl ltac:(lia)). rewrite Nat2Z.inj_succ, Z.pow_succ_r by lia. nia. }
  specialize (H l 0 Hl ltac:(lia)). lia.
Qed.

Lemma or_else_small max a x : number max a → (max ≤ 2)%nat → 0 ≤ x ≤ 99 →
  (if 255 =? uint8 (num16 a) then x else uint8 (num16 a)) = or_else a x ∧ 0 ≤ or_else a x ≤ 99.
Proof.
  intros [Ha Hl] Hm Hx. unfold num16, or_else. destruct a as [|c a]; [done|]. pose proof (dec_bounds _ Ha) as Hb.
  assert (10 ^ Z.of_nat (String.length (String c a)) ≤ 10 ^ 2) by (apply Z.pow_le_mono_r; lia).
  rewrite (Z.mod_small (dec _)), uint8_small by lia. rewrite (proj2 (Z.eqb_neq _ _)) by lia. lia.
Qed.

Lemma tags_nums p tg :
  tags_of p tg → crinitTimerParseUint16 (tg t1) (tg t2) = (part_nums p).1 ∧ crinitTimerParseUint16 (tg t3) (tg t4) = (part_nums p).2.
Proof. unfold tags_of. by intros <-. Qed.

Lemma byte_range_part p lo hi tg :
  part_wf 2 2 p → tags_of p tg → 0 ≤ lo ≤ 99 → 0 ≤ hi ≤ 99 → byte_range lo hi tg = part_value lo hi p.
Proof.
  intros Hp Ht Hlo Hhi. apply tags_nums in Ht as [E1 E2]. unfold byte_range. rewrite E1, E2. destruct p as [a b|a|]; cbn [part_nums part_value part_wf fst snd] in *.
  - destruct Hp as [Ha Hb]. by rewrite (proj1 (or_else_small 2 a lo Ha ltac:(lia) Hlo)), (proj1 (or_else_small 2 b hi Hb ltac:(lia) Hhi)).
  - destruct Hp as [Ha Hne]. rewrite (proj1 (or_else_small 2 a lo Ha ltac:(lia) Hlo)), (proj1 (or_else_small 2 a hi Ha ltac:(lia) Hhi)).
    by destruct a.
  - done.
Qed.

Definition in_rng (lo hi : Z) (r : range) : bool := CC_RANGE lo r.1 hi && CC_RANGE lo r.2 hi.

(** A part sets its range, if both ends are allowed. *)
Definition assign (lo hi : Z) (set : range → crinitTimerDef → crinitTimerDef) (p : part)
    (td : crinitTimerDef) : bool * crinitTimerDef :=
  let r := part_value lo hi p in (in_rng lo hi r, set r td).

(** A year is below 65536, and one before the dots below 65535. *)
Definition year_wf (p : part) : Prop :=
  part_wf 5 4 p ∧
  match p with Span a b => dec a < 65535 ∧ dec b < 65536 | _ => True end.

Lemma years_part p tg td : year_wf p → tags_of p tg → crinitTimerSetYears tg td = assign 0 65535 set_years p td.
Proof.
  intros [Hp Hy] Ht. apply tags_nums in Ht as [E1 E2]. unfold crinitTimerSetYears, assign, in_rng, CC_RANGE. rewrite E1, E2.
  destruct p as [a b|a|]; cbn [part_nums part_value fst snd] in *.
  - destruct Hp as [[Ha _] [Hb _]], Hy as [Hya Hyb]. apply dec_bounds in Ha, Hb. unfold num16, or_else.
    assert ((if (match a with EmptyString => 65535 | _ => dec a end `mod` 65536) =? 65535 then 0
             else (match a with EmptyString => 65535 | _ => dec a end `mod` 65536)) = match a with EmptyString => 0 | _ => dec a end) as ->.
    { destruct a as [|c a]; [done|]. rewrite Z.mod_small by lia. by rewrite (proj2 (Z.eqb_neq _ _)) by lia. }
    assert ((match b with EmptyString => 65535 | _ => dec b end `mod` 65536) = match b with EmptyString => 65535 | _ => dec b end) as ->.
    { destruct b as [|c b]; [done|]. by rewrite Z.mod_small by lia. }
    f_equal. symmetry. rewrite !andb_true_iff, !Z.leb_le. destruct a, b; lia.
  - destruct Hp as [[Ha Hl] Hne]. apply dec_bounds in Ha.
    assert (10 ^ Z.of_nat (String.length a) ≤ 10 ^ 4) by (apply Z.pow_le_mono_r; lia).
    unfold num16, or_else. destruct a as [|c a]; [done|]. rewrite Z.mod_small by lia.
    rewrite (proj2 (Z.eqb_neq _ _)) by lia. f_equal. symmetry. rewrite !andb_true_iff, !Z.leb_le. lia.
  - done.
Qed.
