(* ===== verification/TimerText.v ===== *)
(** * The documented form of a timer definition is read as documented

    Weekday-Year-Month-Day-Hour:Minute:Second+Timezone, where the weekday, the date,
    the time, and of a time the seconds and the zone can be left out, and every part is
    a value, a range or an asterisk. *)

From Stdlib Require Import ZArith Lia Bool List String Ascii.
From stdpp Require Import base list strings.
From S2P Require Import Prelude Timer TimerParse TimerParseProps.

Open Scope Z_scope.
Open Scope crinit_scope.

#[local] Arguments String.append : simpl nomatch.

(** ** One step of the parser per condition *)

Lemma yy_lex fuel c text v a h :
  lex (rules c) text = Some (a, h) →
  yy (S fuel) c text v =
  match a (h_tags h) v with Goto c' v' => yy fuel c' (h_text h) v' | Return b td => (b, td) end.
Proof. intros E. cbn [yy]. by rewrite E. Qed.

Definition finish (v : vars) : bool * crinitTimerDef := (v_result v, v_td v).

Lemma set_if_ext f g v : f (v_td v) = g (v_td v) → set_if f v = set_if g v.
Proof. unfold set_if. by intros ->. Qed.

(** The characters that end a part. *)
Lemma dash_closes : avoids (chr_i "-") is_field = true.
Proof. by vm_compute. Qed.
Lemma colon_closes : avoids (chr_i ":") is_field = true.
Proof. by vm_compute. Qed.
Lemma colon_closes' : avoids (chr ":") is_field = true.
Proof. by vm_compute. Qed.
Lemma end_closes : avoids end_ is_field = true.
Proof. by vm_compute. Qed.
Lemma sign_closes : avoids (Cls is_sign) is_field = true.
Proof. by vm_compute. Qed.

(** What a setter reads from the tags of a part. *)
Definition reads (f : setter) (p : part) (g : crinitTimerDef → bool * crinitTimerDef) : Prop :=
  ∀ tg td, tags_of p tg → f tg td = g td.

Lemma reads_month p : part_wf 2 2 p → reads crinitTimerSetMonth p (assign 1 12 set_month p).
Proof. intros Hp tg td Ht. unfold crinitTimerSetMonth. by rewrite (byte_range_part p) by (done || lia). Qed.
Lemma reads_days p : part_wf 2 2 p → reads crinitTimerSetDays p (assign 1 31 set_days p).
Proof. intros Hp tg td Ht. unfold crinitTimerSetDays. by rewrite (byte_range_part p) by (done || lia). Qed.
Lemma reads_hours p : part_wf 2 2 p → reads crinitTimerSetHours p (assign 0 23 set_hours p).
Proof. intros Hp tg td Ht. unfold crinitTimerSetHours. by rewrite (byte_range_part p) by (done || lia). Qed.
Lemma reads_minutes p : part_wf 2 2 p → reads crinitTimerSetMinutes p (assign 0 59 set_minutes p).
Proof. intros Hp tg td Ht. unfold crinitTimerSetMinutes. by rewrite (byte_range_part p) by (done || lia). Qed.
Lemma reads_seconds p : part_wf 2 2 p → reads crinitTimerSetSeconds p (assign 0 59 set_seconds p).
Proof. intros Hp tg td Ht. unfold crinitTimerSetSeconds. by rewrite (byte_range_part p) by (done || lia). Qed.
Lemma reads_years p : year_wf p → reads crinitTimerSetYears p (assign 0 65535 set_years p).
Proof. intros Hp tg td. by apply years_part. Qed.

Lemma set_goto_reads f p g c tg v : reads f p g → tags_of p tg → set_goto f c tg v = Goto c (set_if g v).
Proof. intros Hf Ht. unfold set_goto. f_equal. by apply set_if_ext, Hf. Qed.
Lemma set_return_reads f p g tg v : reads f p g → tags_of p tg → set_return f tg v = Return (finish (set_if g v)).1 (finish (set_if g v)).2.
Proof. intros Hf Ht. unfold set_return. by rewrite (set_if_ext (f tg) g v (Hf tg _ Ht)). Qed.

(** The condition of a hypothesis is known. *)
Ltac decided E :=
  match type of E with
  | _ = (if ?b then _ else _) => let b' := eval vm_compute in b in change b with b' in E; cbn iota in E
  end.

Section Steps.
Context (fuel : nat) (p : part) (rest : string) (v : vars).

Lemma yy_month :
  part_wf 2 2 p →
  yy (S fuel) yyc_month (part_text p ++ String "-" rest) v = yy fuel yyc_day rest (set_if (assign 1 12 set_month p) v).
Proof.
  intros Hp. destruct (part_closed 2 1 p "-" rest (set_goto crinitTimerSetMonth yyc_day) Hp eq_refl _ dash_closes) as (tg & Ht & E).
  erewrite yy_lex; [|unfold lex; cbn [rules]; unfold chr_i; rewrite E; reflexivity].
  cbn [h_tags h_text]. by rewrite (set_goto_reads _ _ _ _ _ _ (reads_month p Hp) Ht).
Qed.

Lemma yy_hour :
  part_wf 2 2 p →
  yy (S fuel) yyc_hour (part_text p ++ String ":" rest) v = yy fuel yyc_minute rest (set_if (assign 0 23 set_hours p) v).
Proof.
  intros Hp. destruct (part_closed 2 1 p ":" rest (set_goto crinitTimerSetHours yyc_minute) Hp eq_refl _ colon_closes') as (tg & Ht & E).
  erewrite yy_lex; [|unfold lex; cbn [rules]; unfold chr; rewrite E; reflexivity].
  cbn [h_tags h_text]. by rewrite (set_goto_reads _ _ _ _ _ _ (reads_hours p Hp) Ht).
Qed.

Lemma yy_day_dash :
  part_wf 2 2 p →
  yy (S fuel) yyc_day (part_text p ++ String "-" rest) v = yy fuel yyc_hour rest (set_if (assign 1 31 set_days p) v).
Proof.
  intros Hp. destruct (part_closed 2 1 p "-" rest (set_return crinitTimerSetDays) Hp eq_refl _ end_closes) as (tg0 & _ & E0).
  destruct (part_closed 2 1 p "-" rest (set_goto crinitTimerSetDays yyc_hour) Hp eq_refl _ dash_closes) as (tg & Ht & E).
  erewrite yy_lex; [|unfold lex; cbn [rules]; rewrite hits_app; unfold chr_i, end_, chr; rewrite E0, E; reflexivity].
  cbn [h_tags h_text]. by rewrite (set_goto_reads _ _ _ _ _ _ (reads_days p Hp) Ht).
Qed.

Lemma yy_day_end :
  part_wf 2 2 p →
  yy (S fuel) yyc_day (part_text p ++ String NUL rest) v = finish (set_if (assign 1 31 set_days p) v).
Proof.
  intros Hp. destruct (part_closed 2 1 p NUL rest (set_return crinitTimerSetDays) Hp eq_refl _ end_closes) as (tg & Ht & E).
  destruct (part_closed 2 1 p NUL rest (set_goto crinitTimerSetDays yyc_hour) Hp eq_refl _ dash_closes) as (tg0 & _ & E0).
  erewrite yy_lex; [|unfold lex; cbn [rules]; rewrite hits_app; unfold chr_i, end_, chr; rewrite E0, E; reflexivity].
  cbn [h_tags h_text]. by rewrite (set_return_reads _ _ _ _ _ (reads_days p Hp) Ht).
Qed.

Lemma yy_minute_colon :
  part_wf 2 2 p →
  yy (S fuel) yyc_minute (part_text p ++ String ":" rest) v = yy fuel yyc_second rest (set_if (assign 0 59 set_minutes p) v).
Proof.
  intros Hp. destruct (part_open 2 1 p ":" rest (set_goto crinitTimerSetMinutes yyc_timezone) Hp eq_refl) as (tg0 & l & _ & E0 & Hl).
  destruct (part_closed 2 1 p ":" rest (set_goto crinitTimerSetMinutes yyc_second) Hp eq_refl _ colon_closes) as (tg & Ht & E). decided E.
  erewrite yy_lex; [|unfold lex; cbn [rules]; rewrite hits_app; unfold chr_i; rewrite E0, E, longest_last; [reflexivity|]].
  - cbn [h_tags h_text]. by rewrite (set_goto_reads _ _ _ _ _ _ (reads_minutes p Hp) Ht).
  - constructor; [cbn; lia|]. eapply Forall_impl; [exact Hl|]. cbn. lia.
Qed.

Lemma yy_minute_other c :
  part_wf 2 2 p → is_field c = false → Ascii.eqb ":" c = false →
  yy (S fuel) yyc_minute (part_text p ++ String c rest) v =
  yy fuel yyc_timezone (String c rest) (set_if (assign 0 59 set_minutes p) v).
Proof.
  intros Hp Hc Hcol. destruct (part_open 2 1 p c rest (set_goto crinitTimerSetMinutes yyc_timezone) Hp Hc) as (tg & l & Ht & E & Hl).
  destruct (part_closed 2 1 p c rest (set_goto crinitTimerSetMinutes yyc_second) Hp Hc _ colon_closes) as (tg0 & _ & E0).
  rewrite ci_punct, Hcol in E0 by (do 2 right; by left).
  erewrite yy_lex; [|unfold lex; cbn [rules]; rewrite hits_app; unfold chr_i; rewrite E0, E, app_nil_r, longest_first; [reflexivity|]].
  - cbn [h_tags h_text]. by rewrite (set_goto_reads _ _ _ _ _ _ (reads_minutes p Hp) Ht).
  - eapply Forall_impl; [exact Hl|]. cbn. lia.
Qed.

Lemma yy_second_sign c :
  part_wf 2 2 p → is_sign c = true →
  yy (S fuel) yyc_second (part_text p ++ String c rest) v =
  yy fuel yyc_timezone (String c rest) (set_if (assign 0 59 set_seconds p) v).
Proof.
  intros Hp Hs. assert (is_field c = false) as Hc.
  { apply orb_true_iff in Hs as [->%Ascii.eqb_eq| ->%Ascii.eqb_eq]; reflexivity. }
  destruct (part_open 2 1 p c rest (set_return crinitTimerSetSeconds) Hp Hc) as (tg0 & l & _ & E0 & Hl).
  destruct (part_ctx 2 1 p c rest (set_goto crinitTimerSetSeconds yyc_timezone) Hp Hc _ sign_closes) as (tg & Ht & E).
  rewrite Hs in E.
  erewrite yy_lex; [|unfold lex; cbn [rules]; rewrite hits_app, E0, E, longest_last; [reflexivity|]].
  - cbn [h_tags h_text]. by rewrite (set_goto_reads _ _ _ _ _ _ (reads_seconds p Hp) Ht).
  - constructor; [cbn; lia|]. eapply Forall_impl; [exact Hl|]. cbn. lia.
Qed.

Lemma yy_second_end :
  part_wf 2 2 p →
  yy (S fuel) yyc_second (part_text p ++ String NUL rest) v = finish (set_if (assign 0 59 set_seconds p) v).
Proof.
  intros Hp. destruct (part_open 2 1 p NUL rest (set_return crinitTimerSetSeconds) Hp eq_refl) as (tg & l & Ht & E & Hl).
  destruct (part_ctx 2 1 p NUL rest (set_goto crinitTimerSetSeconds yyc_timezone) Hp eq_refl _ sign_closes) as (tg0 & _ & E0). decided E0.
  erewrite yy_lex; [|unfold lex; cbn [rules]; rewrite hits_app, E0, E, app_nil_r, longest_first; [reflexivity|]].
  - cbn [h_tags h_text]. by rewrite (set_return_reads _ _ _ _ _ (reads_seconds p Hp) Ht).
  - eapply Forall_impl; [exact Hl|]. cbn. lia.
Qed.

(** Looking ahead from a part: whether it is the first of a time. *)
Lemma ahead_hour c a :
  all_in is_field (part_text p) → is_field c = false → part_text p ≠ EmptyString →
  hits [ahead_of (Cat field6 (chr_i ":")) a] (part_text p ++ String c rest) =
  if Ascii.eqb ":" c && (String.length (part_text p) <=? 6)%nat
  then [(S (String.length (part_text p)), (a, mkHit 0 (part_text p ++ String c rest) (λ _, (part_text p ++ String c rest)%string)))]
  else [].
Proof.
  intros Hf Hc Hne. unfold hits, rule_hits, ahead_of. cbn [mbind list_bind]. rewrite app_nil_r. cbn [r_head r_ctx r_act re_match].
  rewrite bind_single. change (re_match field6 ?h ≫= re_match ?r) with (re_match (Cat field6 r) h).
  unfold field6. rewrite rep_then; [|done|done|apply colon_closes].
  rewrite (proj2 (Nat.leb_le 1 _)) by (destruct (part_text p); cbn; [done|lia]).
  cbn [Nat.add andb]. destruct (String.length (part_text p) <=? 6)%nat; [|by rewrite andb_false_r].
  rewrite andb_true_r. unfold chr_i. cbn [re_match h_text]. rewrite ci_punct by (do 2 right; by left). by case_match.
Qed.
End Steps.

Lemma part_wf_le many many' one one' p :
  part_wf many one p → (many ≤ many')%nat → (one ≤ one')%nat → part_wf many' one' p.
Proof.
  unfold part_wf, number. destruct p as [a b|a|]; [|intros [[? ?] ?]|done]; [intros [[? ?] [? ?]]|]; intros; split_and!; (done || lia).
Qed.

Lemma part_nonempty many one p : part_wf many one p → part_text p ≠ EmptyString.
Proof. destruct p as [[|] b|a|]; cbn; [done|done|by intros [_ ?]|done]. Qed.

Lemma part_short many one p : part_wf many one p → (one ≤ many + many + 2)%nat → (String.length (part_text p) ≤ Nat.max 1 (many + many + 2))%nat.
Proof.
  destruct p as [a b|a|]; cbn [part_text part_wf number]; unfold number.
  - intros [[_ ?] [_ ?]] _. rewrite !string_length_app. cbn. lia.
  - intros [[_ ?] _]. lia.
  - cbn. lia.
Qed.

Lemma yy_year_dash fuel p rest v :
  year_wf p →
  yy (S fuel) yyc_year (part_text p ++ String "-" rest) v = yy fuel yyc_month rest (set_if (assign 0 65535 set_years p) v).
Proof.
  intros Hy. pose proof (proj1 Hy) as Hp.
  destruct (part_closed 5 3 p "-" rest (set_goto crinitTimerSetYears yyc_month) Hp eq_refl _ dash_closes) as (tg & Ht & E).
  erewrite yy_lex; [|unfold lex; cbn [rules]; unfold year_rules; rewrite hits_app, ahead_hour;
    [unfold chr_i; rewrite E; reflexivity|by eapply part_fields|done|by eapply part_nonempty]].
  cbn [h_tags h_text]. by rewrite (set_goto_reads _ _ _ _ _ _ (reads_years p Hy) Ht).
Qed.

Lemma yy_year_hour fuel p rest v :
  part_wf 2 2 p →
  yy (S fuel) yyc_year (part_text p ++ String ":" rest) v = yy fuel yyc_hour (part_text p ++ String ":" rest) v.
Proof.
  intros Hp. assert (part_wf 5 4 p) as Hp' by (eapply part_wf_le; [exact Hp|lia|lia]).
  destruct (part_closed 5 3 p ":" rest (set_goto crinitTimerSetYears yyc_month) Hp' eq_refl _ dash_closes) as (tg & _ & E).
  pose proof (part_short _ _ _ Hp ltac:(lia)) as Hs. cbn in Hs.
  erewrite yy_lex; [|unfold lex; cbn [rules]; unfold year_rules; rewrite hits_app, ahead_hour;
    [unfold chr_i; rewrite E, (proj2 (Nat.leb_le _ 6)) by lia; reflexivity|by eapply part_fields|done|by eapply part_nonempty]].
  done.
Qed.

(** ** The zone *)

(** The minutes may follow with a colon in between. *)
Record zone := mkZone { z_minus : bool; z_hour : string; z_minute : option (bool * string) }.

Definition zone_text (z : zone) : string :=
  String (if z_minus z then "-" else "+")
    (z_hour z ++ match z_minute z with Some (true, m) => String ":" m | Some (false, m) => m | None => EmptyString end).
Definition zone_wf (z : zone) : Prop :=
  number 2 (z_hour z) ∧ z_hour z ≠ EmptyString ∧
  match z_minute z with Some (_, m) => all_in is_digit m ∧ String.length m = 2%nat | None => True end.
Definition zone_value (z : zone) : range :=
  (if z_minus z then - dec (z_hour z) else dec (z_hour z), match z_minute z with Some (_, m) => dec m | None => 0 end).
Definition assign_zone (z : zone) (td : crinitTimerDef) : bool * crinitTimerDef :=
  let r := zone_value z in (CC_RANGE (-13) r.1 15 && CC_RANGE 0 r.2 59, set_timezone r td).

Lemma digit_not c : is_digit c = true →
  Ascii.eqb (to_lower ":") (to_lower c) = false ∧ Ascii.eqb NUL c = false.
Proof.
  intros H. rewrite ci_punct by (do 2 right; by left). split; apply Ascii.eqb_neq; by intros <-.
Qed.

(** The tags of the rule for the zone. *)
Definition zone_tags (z : zone) (rest : string) (tg : tag → string) : Prop :=
  tg t1 = (zone_text z ++ rest)%string ∧ crinitTimerParseUint16 (match tg t1 with String _ s => s | _ => EmptyString end) (tg t2) = num16 (z_hour z) ∧
  crinitTimerParseUint16 (tg t3) (tg t4) = match z_minute z with Some (_, m) => num16 m | None => 65535 end.

Definition zone_end : re := Cat (opt (digits 2 0)) (Cat (Tag t4) end_).
Definition zone_minutes : re := Cat (Tag t2) (Cat (opt (chr_i ":")) (Cat (Tag t3) zone_end)).

Definition put (t : tag) (s : string) (tg : tag → string) : tag → string := h_tags (set_tag t (mkHit 0 s tg)).

Lemma end_then n c s tg :
  re_match (Cat (Tag t4) end_) (mkHit n (String c s) tg) =
  if Ascii.eqb NUL c then [mkHit (S n) s (put t4 (String c s) tg)] else [].
Proof. rewrite tag_then. done. Qed.

Lemma opt_cat r r' h : re_match (Cat (opt r) r') h = re_match (Cat r r') h ++ re_match r' h.
Proof.
  unfold opt. cbn [rep upto re_match]. rewrite bind_app, bind_single. f_equal.
  change (re_match Eps) with (λ x : hit, [x]). by rewrite bind_ret.
Qed.

(** Two digits or none, and the end of the text. *)
Lemma zone_end_hits d rest n tg :
  all_in is_digit d →
  re_match zone_end (mkHit n (d ++ String NUL rest) tg) =
  if bool_decide (String.length d = 0%nat ∨ String.length d = 2%nat)
  then [mkHit (S (n + String.length d)) rest (put t4 (String NUL rest) tg)] else [].
Proof.
  intros Hd. unfold zone_end. rewrite opt_cat. unfold digits. rewrite rep_then; [|done|done|by vm_compute].
  rewrite end_then. change (Ascii.eqb NUL NUL) with true. cbn iota.
  assert (re_match (Cat (Tag t4) end_) (mkHit n (d ++ String NUL rest) tg) =
    if (String.length d =? 0)%nat then [mkHit (S n) rest (put t4 (String NUL rest) tg)] else []) as ->.
  { destruct d as [|c d]; [done|]. apply all_in_cons in Hd as [Hc _].
    change (String c d ++ String NUL rest)%string with (String c (d ++ String NUL rest)).
    rewrite end_then. by rewrite (proj2 (digit_not c Hc)). }
  destruct (String.length d) as [|[|[|k]]] eqn:E; cbn; [by rewrite Nat.add_0_r|done|done|done].
Qed.

(** A colon, which can be missing, in front of them. *)
Lemma zone_minutes_hits (colon : bool) d rest n tg :
  all_in is_digit d →
  let s := ((if colon then String ":" d else d) ++ String NUL rest)%string in
  re_match zone_minutes (mkHit n s tg) =
  if bool_decide (String.length d = 0%nat ∨ String.length d = 2%nat)
  then [mkHit (n + String.length s - String.length rest) rest (put t4 (String NUL rest) (put t3 (d ++ String NUL rest) (put t2 s tg)))]
  else [].
Proof.
  intros Hd s. unfold s, zone_minutes. rewrite tag_then. unfold set_tag. cbn [h_len h_text h_tags]. rewrite opt_cat. destruct colon.
  - change (String ":" d ++ String NUL rest)%string with (String ":" (d ++ String NUL rest)).
    unfold chr_i. rewrite cls_then. change (Ascii.eqb _ _) with true. cbn iota. rewrite !tag_then. unfold set_tag. cbn [h_len h_text h_tags].
    rewrite zone_end_hits by done. rewrite (dead zone_end), app_nil_r by (by vm_compute).
    case_match; [|done]. f_equal. f_equal. cbn. rewrite string_length_app. cbn. lia.
  - assert (re_match (Cat (chr_i ":") (Cat (Tag t3) zone_end)) (mkHit n (d ++ String NUL rest) (put t2 (d ++ String NUL rest) tg)) = []) as E.
    { destruct d as [|c d]; [done|]. apply all_in_cons in Hd as [Hc _].
      change (String c d ++ String NUL rest)%string with (String c (d ++ String NUL rest)).
      unfold chr_i. rewrite cls_then. by rewrite (proj1 (digit_not c Hc)). }
    unfold put, set_tag in E. cbn [h_len h_text h_tags] in E. rewrite E, app_nil_l, tag_then. unfold set_tag. cbn [h_len h_text h_tags].
    rewrite zone_end_hits by done.
    case_match; [|done]. f_equal. f_equal. rewrite string_length_app. cbn. lia.
Qed.

Lemma digits11_then r n c1 c2 s tg :
  is_digit c1 = true →
  re_match (Cat (digits 1 1) r) (mkHit n (String c1 (String c2 s)) tg) =
  (if is_digit c2 then re_match r (mkHit (S (S n)) s tg) else []) ++ re_match r (mkHit (S n) (String c2 s) tg).
Proof.
  intros H1. unfold digits. cbn [rep upto]. rewrite cat_assoc, cls_then, H1. cbn [re_match h_text h_len h_tags].
  rewrite bind_app, bind_single. f_equal. destruct (is_digit c2); [|done]. by rewrite !bind_single.
Qed.

Lemma zone_minutes_dead c s n tg :
  is_digit c = true → re_match zone_minutes (mkHit n (String c (String ":" s)) tg) = [].
Proof.
  intros Hc. unfold zone_minutes. rewrite tag_then. unfold set_tag. cbn [h_len h_text h_tags]. rewrite opt_cat.
  unfold chr_i. rewrite cls_then, (proj1 (digit_not c Hc)), app_nil_l, tag_then. unfold set_tag. cbn [h_len h_text h_tags].
  unfold zone_end. rewrite opt_cat, end_then, (proj2 (digit_not c Hc)), app_nil_r. unfold digits.
  rewrite (rep_then is_digit 2 0 _ (String c EmptyString) (String ":" s)); [done|by repeat constructor|done|by vm_compute].
Qed.

(** The hours take two digits if they can, but leave two for the minutes. *)
Lemma zone_hours_hits hour (colon : bool) d rest n tg :
  number 2 hour → hour ≠ EmptyString → all_in is_digit d → String.length d = 0%nat ∨ String.length d = 2%nat →
  let s := ((if colon then String ":" d else d) ++ String NUL rest)%string in
  ∃ m, re_match (Cat (digits 1 1) zone_minutes) (mkHit n (hour ++ s) tg) =
       [mkHit m rest (put t4 (String NUL rest) (put t3 (d ++ String NUL rest) (put t2 s tg)))].
Proof.
  intros [Hh Hl] Hne Hd Hlen s. pose proof (zone_minutes_hits colon d rest) as Hmin. fold s in Hmin.
  destruct hour as [|c1 [|c2 [|]]]; cbn in Hl; try done; try lia.
  - apply all_in_cons in Hh as [Hc1 _]. change (String c1 EmptyString ++ s)%string with (String c1 s).
    specialize (Hmin (S n) tg Hd). rewrite bool_decide_eq_true_2 in Hmin by done. eexists. rewrite <- Hmin. clear Hmin. subst s.
    destruct colon; [|destruct d as [|m1 d]; [|destruct d as [|m2 [|]]; cbn in Hlen; try lia]].
    + cbn [String.append]. by rewrite digits11_then.
    + cbn [String.append]. by rewrite digits11_then.
    + apply all_in_cons in Hd as [Hm1 Hd]. change (String m1 (String m2 "") ++ String NUL rest)%string with (String m1 (String m2 "" ++ String NUL rest)).
      rewrite digits11_then, Hm1 by done. by rewrite (zone_minutes_hits false (String m2 "")).
  - apply all_in_cons in Hh as [Hc1 Hh]. apply all_in_cons in Hh as [Hc2 _].
    change (String c1 (String c2 EmptyString) ++ s)%string with (String c1 (String c2 s)). rewrite digits11_then, Hc2 by done.
    rewrite Hmin, bool_decide_eq_true_2 by done.
    exists (S (S n) + String.length s - String.length rest)%nat. unfold s. destruct colon.
    + cbn [String.append]. by rewrite zone_minutes_dead, app_nil_r.
    + change (String c2 (d ++ String NUL rest)) with (String c2 d ++ String NUL rest)%string.
      rewrite (zone_minutes_hits false (String c2 d)) by (by apply all_in_cons).
      rewrite (bool_decide_eq_false_2 (String.length (String c2 d) = _ ∨ _)), app_nil_r by (cbn; lia). reflexivity.
Qed.

Lemma zone_rule_lex z rest :
  zone_wf z → ∃ n tg, zone_tags z (String NUL rest) tg ∧
    lex (rules yyc_timezone) (zone_text z ++ String NUL rest) = Some (set_return crinitTimerSetTimezone, mkHit n rest tg).
Proof.
  intros (Hh & Hne & Hm). destruct z as [minus hour m]. cbn [z_hour z_minute] in *.
  set (colon := match m with Some (b, _) => b | None => false end).
  set (d := match m with Some (_, d) => d | None => EmptyString end).
  assert (all_in is_digit d ∧ (String.length d = 0%nat ∨ String.length d = 2%nat)) as [Hd Hlen].
  { destruct m as [[b d']|]; cbn; [|split; [constructor|by left]]. destruct Hm. auto. }
  set (sign := (if minus then "-" else "+")%char). set (s := ((if colon then String ":" d else d) ++ String NUL rest)%string).
  assert (zone_text (mkZone minus hour m) ++ String NUL rest = String sign (hour ++ s))%string as Etext.
  { unfold zone_text, s, colon, d. cbn [z_minus z_hour z_minute]. cbn [String.append]. f_equal.
    rewrite string_app_assoc. f_equal. by destruct m as [[[] ?]|]. }
  set (tg := put t1 (String sign (hour ++ s)) (λ _, String sign (hour ++ s))).
  destruct (zone_hours_hits hour colon d rest 1 tg Hh Hne Hd Hlen) as [k Ek]. fold s in Ek.
  eexists k, _. split; cycle 1.
  - unfold lex, hits. cbn [rules]. rewrite !bind_cons, app_nil_r. unfold rule_hits, plain. cbn [r_head r_ctx r_act].
    rewrite Etext. rewrite (dead end_) by (done || by destruct minus). cbn [cats]. rewrite tag_then. unfold set_tag. cbn [h_len h_text h_tags].
    rewrite cls_then. assert (is_sign sign = true) as -> by (by destruct minus). fold zone_end. fold zone_minutes.
    unfold tg, put, set_tag in Ek. cbn [h_len h_text h_tags] in Ek. rewrite Ek. reflexivity.
  - unfold zone_tags. rewrite Etext. cbn [z_hour z_minute]. split_and!; [reflexivity| |].
    + apply (parse_num16 hour s).
    + unfold d. destruct m as [[b d']|]; [apply parse_num16|]. apply (parse_num16 "" (String NUL rest)).
Qed.

Lemma zone_part z rest tg td :
  zone_wf z → zone_tags z rest tg → crinitTimerSetTimezone tg td = assign_zone z td.
Proof.
  intros ([Hh Hl] & Hne & Hm) (E1 & E2 & E3). unfold crinitTimerSetTimezone, assign_zone. rewrite E2, E3, E1.
  assert (0 ≤ dec (z_hour z) < 100 ∧ num16 (z_hour z) = dec (z_hour z)) as [Hb ->].
  { pose proof (dec_bounds _ Hh). assert (10 ^ Z.of_nat (String.length (z_hour z)) ≤ 10 ^ 2) by (apply Z.pow_le_mono_r; lia).
    split; [lia|]. unfold num16, or_else. destruct (z_hour z); [done|]. apply Z.mod_small. lia. }
  assert ((if 255 =? uint8 (match z_minute z with Some (_, m) => num16 m | None => 65535 end) then 0
           else int8 (uint8 (match z_minute z with Some (_, m) => num16 m | None => 65535 end))) = (zone_value z).2) as ->.
  { unfold zone_value. cbn [snd]. destruct (z_minute z) as [[b m]|]; [|done]. destruct Hm as [Hm Hl2].
    pose proof (dec_bounds _ Hm) as Hb2. rewrite Hl2 in Hb2. unfold num16, or_else. destruct m as [|c m]; [done|].
    change (10 ^ Z.of_nat 2) with 100 in Hb2. rewrite Z.mod_small, uint8_small by lia.
    rewrite (proj2 (Z.eqb_neq _ _)) by lia. unfold int8. rewrite Z.mod_small by lia. lia. }
  assert (int8 ((match (zone_text z ++ rest)%string with String "-" _ => -1 | _ => 1 end) * int8 (dec (z_hour z))) = (zone_value z).1) as ->.
  { unfold zone_text, zone_value, int8. cbn [fst]. rewrite (Z.mod_small (dec _ + 128)) by lia.
    destruct (z_minus z); cbn [String.append]; rewrite Z.mod_small by lia; lia. }
  done.
Qed.

Lemma yy_zone fuel z rest v :
  zone_wf z → yy (S fuel) yyc_timezone (zone_text z ++ String NUL rest) v = finish (set_if (assign_zone z) v).
Proof.
  intros Hz. destruct (zone_rule_lex z rest Hz) as (n & tg & Ht & E). rewrite (yy_lex _ _ _ _ _ _ E).
  cbn [h_tags]. unfold set_return. by rewrite (set_if_ext _ _ v (zone_part z _ tg (v_td v) Hz Ht)).
Qed.

Lemma yy_zone_none fuel rest v : yy (S fuel) yyc_timezone (String NUL rest) v = finish v.
Proof. reflexivity. Qed.

(** ** Dates and times *)

Record time_spec := mkTime { ti_hour : part; ti_minute : part; ti_second : option part; ti_zone : option zone }.
Record date_spec := mkDate { da_year : part; da_month : part; da_day : part }.

Definition time_text (t : time_spec) : string :=
  part_text (ti_hour t) ++ ":" ++ part_text (ti_minute t) ++
  match ti_second t with Some p => ":" ++ part_text p | None => "" end ++
  match ti_zone t with Some z => zone_text z | None => "" end.
Definition date_text (d : date_spec) : string :=
  part_text (da_year d) ++ "-" ++ part_text (da_month d) ++ "-" ++ part_text (da_day d).

Definition time_wf (t : time_spec) : Prop :=
  part_wf 2 2 (ti_hour t) ∧ part_wf 2 2 (ti_minute t) ∧
  match ti_second t with Some p => part_wf 2 2 p | None => True end ∧
  match ti_zone t with Some z => zone_wf z | None => True end.
Definition date_wf (d : date_spec) : Prop :=
  year_wf (da_year d) ∧ part_wf 2 2 (da_month d) ∧ part_wf 2 2 (da_day d).

Definition opt_set {A} (f : A → crinitTimerDef → bool * crinitTimerDef) (o : option A) (v : vars) : vars :=
  match o with Some x => set_if (f x) v | None => v end.
Definition set_time (t : time_spec) (v : vars) : vars :=
  opt_set assign_zone (ti_zone t) (opt_set (assign 0 59 set_seconds) (ti_second t)
    (set_if (assign 0 59 set_minutes (ti_minute t)) (set_if (assign 0 23 set_hours (ti_hour t)) v))).
Definition set_date (d : date_spec) (v : vars) : vars :=
  set_if (assign 1 31 set_days (da_day d)) (set_if (assign 1 12 set_month (da_month d))
    (set_if (assign 0 65535 set_years (da_year d)) v)).

Lemma zone_sign z rest : ∃ c s, (zone_text z ++ rest)%string = String c s ∧ is_sign c = true.
Proof. eexists _, _. split; [reflexivity|]. by destruct (z_minus z). Qed.

Lemma sign_ends c : is_sign c = true → is_field c = false ∧ Ascii.eqb ":" c = false.
Proof. intros [->%Ascii.eqb_eq| ->%Ascii.eqb_eq]%orb_true_iff; by split. Qed.

Lemma yy_time fuel t rest v :
  time_wf t → yy (S (S (S (S fuel)))) yyc_hour (time_text t ++ String NUL rest) v = finish (set_time t v).
Proof.
  intros (Hh & Hm & Hs & Hz). unfold time_text, set_time. rewrite !string_app_assoc. cbn [String.append].
  rewrite yy_hour by done. destruct (ti_second t) as [p|]; cbn [opt_set].
  - rewrite ?string_app_assoc. cbn [String.append]. rewrite yy_minute_colon by done. destruct (ti_zone t) as [z|]; cbn [opt_set].
    + destruct (zone_sign z (String NUL rest)) as (c & s & E & Hc). rewrite E, yy_second_sign by done. rewrite <- E. by apply yy_zone.
    + by apply yy_second_end.
  - destruct (ti_zone t) as [z|]; cbn [opt_set String.append].
    + destruct (zone_sign z (String NUL rest)) as (c & s & E & Hc). destruct (sign_ends c Hc).
      rewrite E, yy_minute_other by done. rewrite <- E. by apply yy_zone.
    + by rewrite yy_minute_other.
Qed.

(** What follows the weekday, or stands alone. *)
Inductive body := OnDate (d : date_spec) (t : option time_spec) | AtTime (t : time_spec).

Definition body_text (b : body) : string :=
  match b with
  | OnDate d t => date_text d ++ match t with Some t => "-" ++ time_text t | None => "" end
  | AtTime t => time_text t
  end.
Definition body_wf (b : body) : Prop :=
  match b with
  | OnDate d t => date_wf d ∧ match t with Some t => time_wf t | None => True end
  | AtTime t => time_wf t
  end.
Definition set_body (b : body) (v : vars) : vars :=
  match b with
  | OnDate d t => match t with Some t => set_time t (set_date d v) | None => set_date d v end
  | AtTime t => set_time t v
  end.

Lemma yy_body fuel b rest v :
  body_wf b → yy (S (S (S (S (S (S (S fuel))))))) yyc_year (body_text b ++ String NUL rest) v = finish (set_body b v).
Proof.
  destruct b as [[y m d] t|t]; cbn [body_text body_wf set_body].
  - intros [(Hy & Hm & Hd) Ht]. unfold date_text, set_date. cbn [da_year da_month da_day] in *.
    rewrite !string_app_assoc. cbn [String.append]. rewrite yy_year_dash by done.
    rewrite ?string_app_assoc. cbn [String.append]. rewrite yy_month by done.
    destruct t as [t|]; cbn [String.append].
    + rewrite yy_day_dash by done. by apply yy_time.
    + by apply yy_day_end.
  - intros Ht. pose proof (proj1 Ht) as Hh. pose proof (yy_time (S (S fuel)) t rest v Ht) as E. revert E.
    unfold time_text. rewrite !string_app_assoc. cbn [String.append]. intros E. by rewrite yy_year_hour.
Qed.
