(* ===== verification/TimerDoc.v ===== *)
(** * Timer definitions: weekdays, and the documented form as a whole

    The names of the days are read whatever their case; then a text of the documented
    form is accepted exactly if its values are in their ranges, and read as documented. *)

From Stdlib Require Import ZArith Lia Bool List String Ascii.
From stdpp Require Import base list strings.
From S2P Require Import Prelude Timer TimerParse TimerParseProps TimerText.

Open Scope Z_scope.
Open Scope crinit_scope.

#[local] Arguments String.append : simpl nomatch.

(** ** Case *)

Fixpoint lower (s : string) : string :=
  match s with String c s => String (to_lower c) (lower s) | EmptyString => EmptyString end.

(** The expression does not distinguish between upper and lower case. *)
Fixpoint blind (r : re) : bool :=
  match r with
  | Eps | Tag _ => true
  | Cls f => forallb (λ c, Bool.eqb (f c) (f (to_lower c))) all_ascii
  | Cat r1 r2 | Alt r1 r2 => blind r1 && blind r2
  end.

Definition lowered (h h' : hit) : Prop := h_len h' = h_len h ∧ h_text h' = lower (h_text h).

Lemma blind_match r h h' : blind r = true → lowered h h' → Forall2 lowered (re_match r h) (re_match r h').
Proof.
  revert h h'. induction r as [|f|r1 IH1 r2 IH2|r1 IH1 r2 IH2|t]; intros h h' Hb Hh; cbn [re_match blind] in *.
  - by constructor.
  - destruct Hh as [Hl Ht]. rewrite Ht. destruct (h_text h) as [|c s]; cbn; [constructor|].
    rewrite forallb_forall in Hb. specialize (Hb c (proj1 (list_elem_of_In _ _) (in_all_ascii c))).
    apply eqb_prop in Hb. rewrite <- Hb. case_match; [|constructor]. constructor; [|constructor]. split; cbn; [lia|done].
  - apply andb_true_iff in Hb as [Hb1 Hb2]. specialize (IH1 h h' Hb1 Hh).
    induction IH1 as [|x y l l' Hxy _ IH]; [constructor|]. rewrite !bind_cons. apply Forall2_app; [by apply IH2|done].
  - apply andb_true_iff in Hb as [Hb1 Hb2]. apply Forall2_app; auto.
  - constructor; [|constructor]. by destruct Hh.
Qed.

(** A match is a prefix of the text. *)
Lemma match_prefix r h h' : h' ∈ re_match r h → ∃ x, h_text h = (x ++ h_text h')%string ∧ h_len h' = (h_len h + String.length x)%nat.
Proof.
  revert h h'. induction r as [|f|r1 IH1 r2 IH2|r1 IH1 r2 IH2|t]; intros h h' Hin; cbn in *.
  - apply list_elem_of_singleton in Hin as ->. exists EmptyString. cbn. auto.
  - destruct (h_text h) as [|c s] eqn:E; [by apply elem_of_nil in Hin|]. case_match; [|by apply elem_of_nil in Hin].
    apply list_elem_of_singleton in Hin as ->. exists (String c EmptyString). cbn. split; [done|lia].
  - apply list_elem_of_bind in Hin as (h1 & H2 & H1). destruct (IH1 _ _ H1) as (x & Ex & Lx), (IH2 _ _ H2) as (y & Ey & Ly).
    exists (x ++ y)%string. rewrite string_app_assoc, string_length_app, <- Ey. split; [done|lia].
  - apply elem_of_app in Hin as [Hin|Hin]; auto.
  - apply list_elem_of_singleton in Hin as ->. exists EmptyString. cbn. auto.
Qed.

Definition blind_rule {A} (r : rule A) : bool := blind (r_head r) && blind (r_ctx r).

Definition same_token {A} (x y : nat * (A * hit)) : Prop :=
  x.1 = y.1 ∧ x.2.1 = y.2.1 ∧ lowered x.2.2 y.2.2.

Lemma blind_hits {A} (rs : list (rule A)) text :
  forallb blind_rule rs = true → Forall2 same_token (hits rs text) (hits rs (lower text)).
Proof.
  induction rs as [|r rs IH]; intros Hb; [constructor|]. cbn in Hb. apply andb_true_iff in Hb as [Hr Hrs].
  apply andb_true_iff in Hr as [Hh Hc]. unfold hits in *. rewrite !bind_cons. apply Forall2_app; [|by apply IH].
  unfold rule_hits. pose proof (blind_match (r_head r) (mkHit 0 text (λ _, text)) (mkHit 0 (lower text) (λ _, lower text)) Hh (conj eq_refl eq_refl)) as H.
  induction H as [|x y l l' Hxy _ IHl]; [constructor|]. rewrite !bind_cons, !fmap_app. apply Forall2_app; [|done].
  pose proof (blind_match (r_ctx r) x y Hc Hxy) as H2. rewrite <- !list_fmap_compose.
  apply Forall2_fmap. eapply Forall2_impl; [exact H2|]. intros c d [Hl _]. by split_and!.
Qed.

Lemma longest_same {A} (l l' : list (nat * (A * hit))) :
  Forall2 same_token l l' → option_Forall2 same_token (longest l) (longest l').
Proof.
  induction 1 as [|x y l l' Hxy _ IH]; [constructor|]. cbn [longest foldr]. fold (longest l). fold (longest l').
  destruct IH as [z z' Hz|]; [|by constructor]. destruct Hxy as (E & ?), Hz as (E' & ?). rewrite <- E, <- E'.
  case_match; by constructor.
Qed.

Lemma lex_prefix {A} (rs : list (rule A)) text a h :
  lex rs text = Some (a, h) → ∃ x, text = (x ++ h_text h)%string ∧ h_len h = String.length x.
Proof.
  unfold lex, hits. intros H. apply fmap_Some in H as ([n [a' h']] & Hl & [= <- <-]).
  apply longest_in, list_elem_of_In in Hl. apply list_elem_of_bind in Hl as (r & Hx & Hr).
  apply list_elem_of_fmap in Hx as ([m h'] & [= _ _ ->] & Hx). unfold rule_hits in Hx.
  apply list_elem_of_bind in Hx as (h1 & Hx & H1). apply list_elem_of_fmap in Hx as (c & [= _ ->] & _).
  by apply match_prefix in H1.
Qed.

Lemma append_inj (x y s t : string) : (x ++ s = y ++ t)%string → String.length x = String.length y → s = t.
Proof.
  revert y. induction x as [|c x IH]; intros [|d y] E L; cbn in *; try done. injection E as _ E. injection L as L. by apply (IH y).
Qed.

(** The text after a word does not depend on its case. *)
Lemma lex_any_case {A} (rs : list (rule A)) y tail a h' :
  forallb blind_rule rs = true → lex rs (lower (y ++ tail)) = Some (a, h') → h_len h' = String.length y →
  ∃ h, lex rs (y ++ tail) = Some (a, h) ∧ h_text h = tail.
Proof.
  intros Hb E Hl. pose proof (longest_same _ _ (blind_hits rs (y ++ tail) Hb)) as H. unfold lex in *.
  destruct (longest (hits rs (lower (y ++ tail)))) as [[n [a' h1]]|] eqn:E1; [|done]. injection E as -> ->.
  inversion H as [x x' (_ & Ea & Hlen & _) Ex|]; subst. destruct x as [m [a1 h1]]. cbn in *. subst a1.
  exists h1. split; [done|]. assert (lex rs (y ++ tail) = Some (a, h1)) as Elex by (unfold lex; by rewrite <- Ex).
  apply lex_prefix in Elex as (x & Exy & Lx). symmetry. eapply append_inj; [exact Exy|]. lia.
Qed.

Lemma lower_app a b : lower (a ++ b) = (lower a ++ lower b)%string.
Proof. induction a as [|c a IH]; cbn; [done|by rewrite IH]. Qed.
Lemma lower_length a : String.length (lower a) = String.length a.
Proof. induction a as [|c a IH]; cbn; [done|by rewrite IH]. Qed.

(** ** The names of the days *)

Definition day_names : list (string * Z) :=
  [("mon", 0); ("monday", 0); ("tue", 1); ("tuesday", 1); ("wed", 2); ("wednesday", 2); ("thu", 3); ("thursday", 3);
   ("fri", 4); ("friday", 4); ("sat", 5); ("saturday", 5); ("sun", 6); ("sunday", 6)]%string.
Definition is_day (n : string) (i : Z) : Prop := In (lower n, i) day_names.

(** What can follow the name of a day. *)
Definition after_day (tail : string) : Prop := ∃ c s, tail = String c s ∧ (c = NUL ∨ c = "-"%char ∨ c = "."%char).

Lemma lower_after c s : c = NUL ∨ c = "-"%char ∨ c = "."%char → lower (String c s) = String c (lower s).
Proof. by intros [-> |[-> | ->]]. Qed.

Lemma timer_blind : forallb blind_rule timer_rules = true.
Proof. by vm_compute. Qed.
Lemma weekday1_blind : forallb blind_rule weekday1_rules = true.
Proof. by vm_compute. Qed.
Lemma weekday2_blind : forallb blind_rule weekday2_rules = true.
Proof. by vm_compute. Qed.

Ltac each_day H := cbn in H; repeat (destruct H as [H|H]); [injection H as <- <- ..|contradiction].

(** A rule is found by its expressions: the actions are not evaluated. *)
Ltac lex_now :=
  eexists; split; [lazy -[goto wday_is wday_to shorthand set_if crinitTimerSetWeekdays set_minutes set_hours set_days set_month Z.pow];
    reflexivity|reflexivity].

Lemma day_timer n i c s :
  In (n, i) day_names → c = NUL ∨ c = "-"%char ∨ c = "."%char →
  ∃ h, lex timer_rules (n ++ String c s) = Some (goto yyc_weekday1, h) ∧ h_len h = 0%nat.
Proof. intros H [-> |[-> | ->]]; each_day H; lex_now. Qed.

Lemma day_weekday1 n i c s :
  In (n, i) day_names → c = NUL ∨ c = "-"%char ∨ c = "."%char →
  ∃ h, lex weekday1_rules (n ++ String c s) = Some (wday_is (Z.shiftl 1 i), h) ∧ h_len h = String.length n.
Proof. intros H [-> |[-> | ->]]; each_day H; lex_now. Qed.

Lemma day_weekday2 n i c s :
  In (n, i) day_names → c = NUL ∨ c = "-"%char ∨ c = "."%char →
  ∃ h, lex weekday2_rules (".." ++ n ++ String c s) = Some (wday_to (Z.shiftl 1 i), h) ∧ h_len h = String.length (".." ++ n).
Proof. intros H [-> |[-> | ->]]; each_day H; lex_now. Qed.

(** ** Weekdays *)

Lemma goto_step fuel c text v c' h : lex (rules c) text = Some (goto c', h) → yy (S fuel) c text v = yy fuel c' (h_text h) v.
Proof. apply (yy_lex fuel c text v). Qed.

(** From the start of the text to what follows the name of a day. *)
Lemma yy_day_name fuel n i tail v :
  is_day n i → after_day tail →
  yy (S (S fuel)) yyc_timer (n ++ tail) v = yy fuel yyc_weekday2 tail (mkVars (Z.shiftl 1 i) (v_result v) (v_td v)).
Proof.
  intros Hn (c & s & -> & Hc).
  destruct (day_timer (lower n) i c (lower s) Hn Hc) as (h & E & Hl). rewrite <- (lower_after c s Hc), <- lower_app in E.
  destruct (lex_any_case timer_rules EmptyString (n ++ String c s) _ h timer_blind E Hl) as (h1 & E1 & Ht1).
  rewrite (goto_step _ yyc_timer _ _ _ _ E1), Ht1.
  destruct (day_weekday1 (lower n) i c (lower s) Hn Hc) as (h' & E' & Hl'). rewrite <- (lower_after c s Hc), <- lower_app, lower_length in *.
  destruct (lex_any_case weekday1_rules n (String c s) _ h' weekday1_blind E' Hl') as (h2 & E2 & Ht2).
  rewrite (yy_lex _ yyc_weekday1 _ _ _ _ E2). unfold wday_is. by rewrite Ht2.
Qed.

Lemma yy_day_to fuel n i tail v :
  is_day n i → after_day tail →
  yy (S fuel) yyc_weekday2 (".." ++ n ++ tail) v =
  yy fuel yyc_weekdayend tail (set_if (crinitTimerSetWeekdays (v_wDay v) (Z.shiftl 1 i)) v).
Proof.
  intros Hn (c & s & -> & Hc). destruct (day_weekday2 (lower n) i c (lower s) Hn Hc) as (h & E & Hl).
  change ".."%string with (lower "..") in E, Hl. rewrite <- (lower_after c s Hc), <- !lower_app in E.
  rewrite <- lower_app, lower_length in Hl. rewrite <- string_app_assoc in E |- *.
  destruct (lex_any_case weekday2_rules (".." ++ n) (String c s) _ h weekday2_blind E Hl) as (h' & E' & Ht).
  rewrite (yy_lex _ yyc_weekday2 _ _ _ _ E'). unfold wday_to. by rewrite Ht.
Qed.

(** The conditions after the weekday, up to what they look for ahead. *)
Lemma yy_weekday2_end fuel s v :
  yy (S fuel) yyc_weekday2 (String NUL s) v = finish (set_if (crinitTimerSetWeekdays (v_wDay v) 255) v).
Proof.
  assert (∃ h, lex (rules yyc_weekday2) (String NUL s) =
    Some ((λ _ v, let v := set_if (crinitTimerSetWeekdays (v_wDay v) 255) v in Return (v_result v) (v_td v)) : action, h) ∧ True) as (h & E & _).
  { eexists. split; [|done]. lazy -[goto wday_is wday_to set_if crinitTimerSetWeekdays]. reflexivity. }
  by rewrite (yy_lex _ _ _ _ _ _ E).
Qed.

Lemma yy_weekday2_dash fuel s v :
  yy (S fuel) yyc_weekday2 (String "-" s) v = yy fuel yyc_year s (set_if (crinitTimerSetWeekdays (v_wDay v) (v_wDay v)) v).
Proof.
  assert (∃ h, lex (rules yyc_weekday2) (String "-" s) =
    Some ((λ _ v, Goto yyc_year (set_if (crinitTimerSetWeekdays (v_wDay v) (v_wDay v)) v)) : action, h) ∧ h_text h = s) as (h & E & Ht).
  { eexists. split; [lazy -[goto wday_is wday_to set_if crinitTimerSetWeekdays]; reflexivity|done]. }
  by rewrite (yy_lex _ _ _ _ _ _ E), Ht.
Qed.

Lemma yy_weekdayend_end fuel s v : yy (S fuel) yyc_weekdayend (String NUL s) v = finish v.
Proof.
  assert (∃ h, lex (rules yyc_weekdayend) (String NUL s) = Some (return_result, h) ∧ True) as (h & E & _).
  { eexists. split; [|done]. lazy -[goto return_result]. reflexivity. }
  by rewrite (yy_lex _ _ _ _ _ _ E).
Qed.

(** ** Looking ahead *)

(** A field at the cursor, with the character behind it. *)
Definition field (d : string) : Prop := all_in is_field d ∧ d ≠ EmptyString.

Lemma part_field many one p : part_wf many one p → field (part_text p).
Proof. intros Hp. split; [by eapply part_fields|by eapply part_nonempty]. Qed.

Lemma field_length d : field d → (1 <=? String.length d)%nat = true.
Proof. intros [_ Hd]. destruct d; [done|]. apply Nat.leb_le. cbn. lia. Qed.

Lemma hour_ctx n d c s t :
  field d → is_field c = false →
  re_match (Cat field6 (chr_i ":")) (mkHit n (d ++ String c s) t) =
  if (String.length d <=? 6)%nat && Ascii.eqb ":" c then [mkHit (S (n + String.length d)) s t] else [].
Proof.
  intros Hd Hc. unfold field6. rewrite rep_then; [|apply Hd|done|apply colon_closes]. rewrite field_length by done. cbn [andb Nat.add].
  destruct (String.length d <=? 6)%nat; [|done]. cbn [andb]. unfold chr_i. cbn [re_match h_text].
  rewrite ci_punct by (do 2 right; by left). done.
Qed.

Lemma year_then r n d c s t :
  field d → is_field c = false → avoids r is_field = true →
  re_match (Cat year_field r) (mkHit n (d ++ String c s) t) =
  if (String.length d <=? 12)%nat then re_match r (mkHit (n + String.length d) (String c s) t) else [].
Proof. intros Hd Hc Hr. unfold year_field. rewrite rep_then; [|apply Hd|done|done]. by rewrite field_length. Qed.

Lemma dashed_then k r n d c s t :
  field d → is_field c = false → avoids (Cat (dashed k) r) is_field = true →
  re_match (Cat (dashed (S k)) r) (mkHit n (String "-" (d ++ String c s)) t) =
  if (String.length d <=? 6)%nat then re_match (Cat (dashed k) r) (mkHit (S n + String.length d) (String c s) t) else [].
Proof.
  intros Hd Hc Hr. change (dashed (S k)) with (Cat (Cat (chr_i "-") field6) (dashed k)). rewrite !cat_assoc. unfold chr_i.
  rewrite cls_then. change (Ascii.eqb _ _) with true. cbn iota. unfold field6.
  rewrite rep_then; [|apply Hd|done|done]. by rewrite field_length.
Qed.

Lemma dashed_dead k r n c s t :
  Ascii.eqb "-" c = false → re_match (Cat (dashed (S k)) r) (mkHit n (String c s) t) = [].
Proof.
  intros Hc. change (dashed (S k)) with (Cat (Cat (chr_i "-") field6) (dashed k)). rewrite !cat_assoc. unfold chr_i.
  rewrite cls_then, ci_punct, Hc by (do 1 right; by left). done.
Qed.

Lemma dashed_none r h : re_match (Cat (dashed 0) r) h = re_match r h.
Proof. apply bind_single. Qed.

Lemma end_avoids k : (k < 4)%nat → avoids (Cat (dashed k) end_) is_field = true.
Proof. intros Hk. do 4 (destruct k as [|k]; [by vm_compute|]). lia. Qed.
Lemma colon_avoids k : (k < 4)%nat → avoids (Cat (dashed k) (chr_i ":")) is_field = true.
Proof. intros Hk. do 4 (destruct k as [|k]; [by vm_compute|]). lia. Qed.

Lemma lex_last {A} (rs : list (rule A)) text l n a h :
  hits rs text = l ++ [(n, (a, h))] → Forall (λ x, (x.1 < n)%nat) l → lex rs text = Some (a, h).
Proof. intros E Hl. unfold lex. by rewrite E, longest_last. Qed.

(** From '-' to a date or a time. *)
Lemma yy_weekdayend_dash fuel d c s v :
  field d → is_field c = false →
  yy (S fuel) yyc_weekdayend (String "-" (d ++ String c s)) v =
  if (String.length d <=? 6)%nat && Ascii.eqb ":" c then yy fuel yyc_hour (d ++ String c s) v else yy fuel yyc_year (d ++ String c s) v.
Proof.
  intros Hd Hc. set (text := String "-" (d ++ String c s)).
  assert (hits weekdayend_rules text =
    (1%nat, (goto yyc_year, mkHit 1 (d ++ String c s) (λ _, text))) ::
    (if (String.length d <=? 6)%nat && Ascii.eqb ":" c
     then [(S (1 + String.length d), (goto yyc_hour, mkHit 1 (d ++ String c s) (λ _, text)))] else [])) as E.
  { unfold hits, weekdayend_rules. rewrite !bind_cons, app_nil_r. unfold rule_hits, plain. cbn [r_head r_ctx r_act].
    unfold text. rewrite (dead end_) by done. cbn [chr_i]. unfold chr_i.
    change (re_match (Cls ?f) (mkHit 0 (String "-" ?x) ?t)) with [mkHit 1 x t].
    rewrite !bind_single. fold (chr_i ":"). rewrite hour_ctx by done. by case_match. }
  destruct ((String.length d <=? 6)%nat && Ascii.eqb ":" c).
  - erewrite yy_lex; [|apply (lex_last _ _ [_] _ _ _ E), Forall_singleton; cbn; lia]. done.
  - erewrite yy_lex; [|apply (lex_last _ _ [] _ _ _ E), Forall_nil_2]. done.
Qed.

(** ** The beginning of the text *)

(** The rules for shorthands and days do not match a text that begins with a field. *)
Definition words : list (rule action) := take 6 timer_rules.
Definition star_or_day : re := Alt wday (chr_i "*").

Lemma words_avoid : forallb (λ r, avoids (r_head r) is_field) words = true.
Proof. by vm_compute. Qed.

Lemma words_dead c s : is_field c = true → hits words (String c s) = [].
Proof.
  intros Hc. pose proof words_avoid as Hw. unfold hits. induction words as [|r rs IH]; [done|]. cbn in Hw. apply andb_true_iff in Hw as [Hr Hw].
  rewrite bind_cons, IH, app_nil_r by done. unfold rule_hits. by rewrite (avoids_dead _ is_field).
Qed.

Lemma ahead_hits {A} (ctx : re) (a : A) text :
  hits [mkRule Eps ctx a] text = (λ c, (h_len c, (a, mkHit 0 text (λ _, text)))) <$> re_match ctx (mkHit 0 text (λ _, text)).
Proof.
  unfold hits. rewrite bind_single. unfold rule_hits. cbn [r_head r_ctx r_act re_match]. rewrite bind_single.
  rewrite <- list_fmap_compose. done.
Qed.

Lemma star_hits c s : is_field c = true → 
  hits [ahead_of star_or_day (goto yyc_weekday1)] (String c s) =
  if Ascii.eqb "*" c then [(1%nat, (goto yyc_weekday1, mkHit 0 (String c s) (λ _, String c s)))] else [].
Proof.
  intros Hc. unfold ahead_of. rewrite ahead_hits. unfold star_or_day.
  change (re_match (Alt ?r1 ?r2) ?h) with (re_match r1 h ++ re_match r2 h). rewrite (avoids_dead wday is_field) by (done || by vm_compute).
  unfold chr_i. cbn [app h_text re_match]. rewrite ci_punct by (do 3 right; by left). by case_match.
Qed.

(** The four rules that look ahead. *)
Lemma timer_hits d c s :
  field d → is_field c = false →
  let text := (d ++ String c s)%string in let h := mkHit 0 text (λ _, text) in
  ∃ l, Forall (λ x, (x.1 ≤ 1)%nat) l ∧ (d = "*"%string → l = [(1%nat, (goto yyc_weekday1, h))]) ∧
  hits timer_rules text = l ++
    ((λ c, (h_len c, (goto yyc_year, h))) <$> re_match (Cat year_field (Cat (dashed 2) end_)) h) ++
    ((λ c, (h_len c, (goto yyc_year, h))) <$> re_match (Cat year_field (Cat (dashed 3) (chr_i ":"))) h) ++
    (if (String.length d <=? 6)%nat && Ascii.eqb ":" c then [(S (String.length d), (goto yyc_hour, h))] else []).
Proof.
  intros Hd Hc text h. change timer_rules with
    (words ++ [ahead_of star_or_day (goto yyc_weekday1)] ++ [ahead_of (Cat year_field (Cat (dashed 2) end_)) (goto yyc_year)] ++
     [ahead_of (Cat year_field (Cat (dashed 3) (chr_i ":"))) (goto yyc_year)] ++ [ahead_of (Cat field6 (chr_i ":")) (goto yyc_hour)]).
  rewrite !hits_app. exists (hits words text ++ hits [ahead_of star_or_day (goto yyc_weekday1)] text).
  destruct d as [|c0 d]; [by destruct Hd|]. assert (is_field c0 = true) as Hc0 by exact (proj1 (proj1 (all_in_cons _ _ _) (proj1 Hd))).
  unfold text. cbn [String.append]. rewrite words_dead, star_hits by done. split_and!.
  - cbn. case_match; [apply Forall_singleton; cbn; lia|constructor].
  - by intros [= -> ->].
  - rewrite !app_assoc_reverse. do 2 f_equal. unfold ahead_of at 1 2. rewrite !ahead_hits. do 2 f_equal.
    unfold ahead_of. rewrite ahead_hits. change (String c0 (d ++ String c s)) with (String c0 d ++ String c s)%string.
    rewrite hour_ctx by done. by case_match.
Qed.

Lemma year_short p : year_wf p → (String.length (part_text p) <=? 12)%nat = true.
Proof. intros [Hp _]. apply Nat.leb_le. pose proof (part_short _ _ _ Hp ltac:(lia)). cbn in *. lia. Qed.
Lemma part_short6 p : part_wf 2 2 p → (String.length (part_text p) <=? 6)%nat = true.
Proof. intros Hp. apply Nat.leb_le. pose proof (part_short _ _ _ Hp ltac:(lia)). cbn in *. lia. Qed.

(** The texts behind a date and behind a time. *)
Definition time_end (t : option time_spec) (rest : string) : string :=
  match t with Some t => String "-" (time_text t ++ String NUL rest) | None => String NUL rest end.

Lemma date_body d t rest :
  (body_text (OnDate d t) ++ String NUL rest =
   part_text (da_year d) ++ String "-" (part_text (da_month d) ++ String "-" (part_text (da_day d) ++ time_end t rest)))%string.
Proof.
  cbn [body_text]. unfold date_text. rewrite ?string_app_assoc. cbn [String.append]. do 2 f_equal.
  rewrite ?string_app_assoc. cbn [String.append]. do 2 f_equal. by destruct t.
Qed.

Lemma time_body t rest : ∃ s, (body_text (AtTime t) ++ String NUL rest = part_text (ti_hour t) ++ String ":" s)%string.
Proof. eexists. cbn [body_text]. unfold time_text. rewrite ?string_app_assoc. cbn [String.append]. reflexivity. Qed.

Lemma time_end_char t rest : ∃ c s, time_end t rest = String c s ∧ (c = NUL ∨ c = "-"%char).
Proof. destruct t; eexists _, _; eauto. Qed.

(** After an asterisk for the weekday the rules for a date do not match. *)
Lemma star_then_body b n rest t :
  body_wf b →
  re_match (Cat (dashed 2) end_) (mkHit n (String "-" (body_text b ++ String NUL rest)) t) = [] ∧
  re_match (Cat (dashed 3) (chr_i ":")) (mkHit n (String "-" (body_text b ++ String NUL rest)) t) = [].
Proof.
  destruct b as [d tm|tm]; intros Hb.
  - destruct Hb as [(Hy & Hm & Hd) _]. rewrite date_body. destruct (time_end_char tm rest) as (c & s & -> & Hc).
    apply part_field in Hm, Hd. pose proof (part_field _ _ _ (proj1 Hy)) as Hy'.
    destruct Hc as [-> | ->]; rewrite !dashed_then by (done || apply end_avoids; lia || apply colon_avoids; lia);
      split; repeat (case_match; [|done]); by rewrite dashed_none.
  - destruct (time_body tm rest) as (s & ->). destruct Hb as (Hh & _). apply part_field in Hh.
    rewrite !dashed_then by (done || apply end_avoids; lia || apply colon_avoids; lia).
    split; (case_match; [by rewrite dashed_dead|done]).
Qed.

Lemma body_field b rest :
  body_wf b → ∃ d c s, (body_text b ++ String NUL rest = d ++ String c s)%string ∧ field d ∧ is_field c = false.
Proof.
  destruct b as [d t|t]; intros Hb.
  - rewrite date_body. eexists _, _, _. split; [reflexivity|]. split; [|done]. eapply part_field. apply Hb.
  - destruct (time_body t rest) as (s & ->). eexists _, _, _. split; [reflexivity|]. split; [|done]. eapply part_field. apply Hb.
Qed.

Lemma yy_star_end fuel s v : yy (S (S (S fuel))) yyc_timer (String "*" (String NUL s)) v = finish v.
Proof.
  assert (∃ h, lex (rules yyc_timer) (String "*" (String NUL s)) = Some (goto yyc_weekday1, h) ∧ h_text h = String "*" (String NUL s)) as (h & E & Ht).
  { eexists. split; [lazy -[goto shorthand]; reflexivity|reflexivity]. }
  assert (∃ h, lex (rules yyc_weekday1) (String "*" (String NUL s)) = Some (goto yyc_weekdayend, h) ∧ h_text h = String NUL s) as (h' & E' & Ht').
  { eexists. split; [lazy -[goto wday_is]; reflexivity|reflexivity]. }
  rewrite (goto_step _ _ _ _ _ _ E), Ht, (goto_step _ _ _ _ _ _ E'), Ht'. apply yy_weekdayend_end.
Qed.

Lemma yy_star_body fuel b rest v :
  body_wf b →
  yy (S (S fuel)) yyc_timer (String "*" (String "-" (body_text b ++ String NUL rest))) v =
  yy fuel yyc_weekdayend (String "-" (body_text b ++ String NUL rest)) v.
Proof.
  intros Hb. set (tail := String "-" (body_text b ++ String NUL rest)).
  assert (field "*") as Hf by (split; [by repeat constructor|done]).
  destruct (timer_hits "*" "-" (body_text b ++ String NUL rest) Hf eq_refl) as (l & Hl & El & E). cbn zeta in *.
  rewrite (El eq_refl) in E. rewrite !year_then in E by (done || apply end_avoids; lia || apply colon_avoids; lia).
  cbn [String.length Nat.leb Nat.add] in E.
  rewrite (proj1 (star_then_body b _ rest _ Hb)), (proj2 (star_then_body b _ rest _ Hb)) in E.
  erewrite (yy_lex _ yyc_timer); [|apply (lex_last _ _ [] _ _ _ E), Forall_nil_2]. cbn [h_text goto]. unfold goto.
  assert (∃ h, lex (rules yyc_weekday1) (String "*" tail) = Some (goto yyc_weekdayend, h) ∧ h_text h = tail) as (h & E' & Ht).
  { unfold tail. eexists. split; [lazy -[goto wday_is String.append body_text NUL]; reflexivity|reflexivity]. }
  etransitivity; [apply (goto_step _ yyc_weekday1 _ _ _ _ E')|by rewrite Ht].
Qed.

(** A longer match than that of an asterisk decides. *)
Lemma timer_goto fuel text v l n c h :
  hits timer_rules text = l ++ [(n, (goto c, h))] → Forall (λ x, (x.1 ≤ 1)%nat) l → (1 < n)%nat →
  yy (S fuel) yyc_timer text v = yy fuel c (h_text h) v.
Proof.
  intros E Hl Hn. apply (goto_step _ yyc_timer). eapply (lex_last _ _ _ _ _ _ E), Forall_impl; [exact Hl|]. cbn. lia.
Qed.

Lemma timer_to_date fuel d t rest v :
  body_wf (OnDate d t) →
  yy (S fuel) yyc_timer (body_text (OnDate d t) ++ String NUL rest) v = yy fuel yyc_year (body_text (OnDate d t) ++ String NUL rest) v.
Proof.
  rewrite date_body. intros [(Hy & Hm & Hd) Ht].
  pose proof (part_field _ _ _ (proj1 Hy)) as Fy. pose proof (part_field _ _ _ Hm) as Fm. pose proof (part_field _ _ _ Hd) as Fd.
  destruct (timer_hits (part_text (da_year d)) "-" (part_text (da_month d) ++ String "-" (part_text (da_day d) ++ time_end t rest)) Fy eq_refl)
    as (l & Hl & _ & E). cbn zeta in *. rewrite andb_false_r, app_nil_r in E.
  rewrite !year_then, (year_short _ Hy) in E by (done || apply end_avoids; lia || apply colon_avoids; lia).
  destruct t as [t|]; cbn [time_end] in *.
  - destruct (time_body t rest) as (s & Es). cbn [body_text] in Es. rewrite Es in *. pose proof (part_field _ _ _ (proj1 Ht)) as Fh.
    rewrite !dashed_then, (part_short6 _ Hm), (part_short6 _ Hd), (part_short6 _ (proj1 Ht)), !dashed_none in E
      by (done || apply end_avoids; lia || apply colon_avoids; lia).
    by rewrite (timer_goto _ _ _ _ _ _ _ E Hl) by (cbn; lia).
  - rewrite !dashed_then, (part_short6 _ Hm), (part_short6 _ Hd), !dashed_none, dashed_dead in E
      by (done || apply end_avoids; lia || apply colon_avoids; lia). rewrite app_nil_r in E.
    by rewrite (timer_goto _ _ _ _ _ _ _ E Hl) by (cbn; lia).
Qed.

Lemma timer_to_time fuel t rest v :
  time_wf t → yy (S fuel) yyc_timer (time_text t ++ String NUL rest) v = yy fuel yyc_hour (time_text t ++ String NUL rest) v.
Proof.
  intros (Hh & _). destruct (time_body t rest) as (s & Es). cbn [body_text] in Es. rewrite Es.
  pose proof (part_field _ _ _ Hh) as Fh.
  destruct (timer_hits (part_text (ti_hour t)) ":" s Fh eq_refl) as (l & Hl & _ & E). cbn zeta in *.
  rewrite !year_then, !dashed_dead, (part_short6 _ Hh) in E by (done || apply end_avoids; lia || apply colon_avoids; lia).
  assert (∀ b : bool, (if b then [] else []) = @nil hit) as Hif by (by intros []). rewrite !Hif in E. cbn [fmap list_fmap app andb] in E.
  rewrite (timer_goto _ _ _ _ _ _ _ E Hl); [done|]. pose proof (field_length _ Fh) as H%Nat.leb_le. lia.
Qed.

Lemma yy_timer_body fuel b rest v :
  body_wf b →
  yy (S (S (S (S (S (S (S (S fuel)))))))) yyc_timer (body_text b ++ String NUL rest) v = finish (set_body b v).
Proof.
  destruct b as [d t|t]; intros Hb.
  - rewrite timer_to_date by done. by apply yy_body.
  - cbn [body_text set_body]. rewrite timer_to_time by done. by apply yy_time.
Qed.

Lemma yy_dash_body fuel b rest v :
  body_wf b →
  yy (S (S (S (S (S (S (S (S fuel)))))))) yyc_weekdayend (String "-" (body_text b ++ String NUL rest)) v = finish (set_body b v).
Proof.
  destruct b as [d t|t]; intros Hb.
  - rewrite date_body, yy_weekdayend_dash by (done || eapply part_field; apply Hb). rewrite andb_false_r, <- date_body. by apply yy_body.
  - cbn [body_text set_body]. rewrite <- (yy_time (S (S (S fuel))) t rest v Hb).
    destruct (time_body t rest) as (s & Es). cbn [body_text] in Es. rewrite Es.
    rewrite yy_weekdayend_dash, (part_short6 _ (proj1 Hb)) by (done || eapply part_field; apply Hb). done.
Qed.

(** ** The whole text *)

Inductive days_spec := AnyDay | OneDay (n : string) (i : Z) | DayRange (n : string) (i : Z) (m : string) (j : Z).

(** A weekday, a date and a time, of which some can be left out. *)
Inductive timer_spec := WithDays (w : days_spec) (b : option body) | Body (b : body).

Definition days_text (w : days_spec) : string :=
  match w with AnyDay => "*" | OneDay n _ => n | DayRange n _ m _ => n ++ ".." ++ m end.
Definition timer_text (sp : timer_spec) : string :=
  match sp with
  | WithDays w b => days_text w ++ match b with Some b => "-" ++ body_text b | None => "" end
  | Body b => body_text b
  end.

(** The names are those of the days with the given numbers, Monday is 0; a range of all
    days is to begin on Monday. *)
Definition days_wf (w : days_spec) : Prop :=
  match w with
  | AnyDay => True
  | OneDay n i => is_day n i
  | DayRange n i m j => is_day n i ∧ is_day m j ∧ i ≠ j + 1
  end.
Definition timer_wf (sp : timer_spec) : Prop :=
  match sp with
  | WithDays w b => days_wf w ∧ match b with Some b => body_wf b | None => True end
  | Body b => body_wf b
  end.

(** The days of the week on which the timer fires. *)
Definition on_day (sp : timer_spec) (k : Z) : Prop :=
  match sp with
  | WithDays (OneDay _ i) _ => k = i
  | WithDays (DayRange _ i _ j) _ => in_cyclic (i, j) k
  | _ => True
  end.

Definition spec_date (sp : timer_spec) : option date_spec :=
  match sp with WithDays _ (Some (OnDate d _)) | Body (OnDate d _) => Some d | _ => None end.
Definition spec_time (sp : timer_spec) : option time_spec :=
  match sp with
  | WithDays _ (Some (OnDate _ t)) | Body (OnDate _ t) => t
  | WithDays _ (Some (AtTime t)) | Body (AtTime t) => Some t
  | WithDays _ None => None
  end.

(** The value of a part that can be left out: any date, and midnight. *)
Definition given {A} (f : A → range) (o : option A) (x : range) : range := match o with Some a => f a | None => x end.

Definition documented (w : Z) (sp : timer_spec) : crinitTimerDef :=
  let d := spec_date sp in let t := spec_time sp in
  mkTimerDef w
    (given (λ d, part_value 0 65535 (da_year d)) d (0, 65535))
    (given (λ d, part_value 1 12 (da_month d)) d (1, 12))
    (given (λ d, part_value 1 31 (da_day d)) d (1, 31))
    (given (λ t, part_value 0 23 (ti_hour t)) t (0, 0))
    (given (λ t, part_value 0 59 (ti_minute t)) t (0, 0))
    (given (λ t, given (part_value 0 59) (ti_second t) (0, 0)) t (0, 0))
    (given (λ t, given zone_value (ti_zone t) (0, 0)) t (0, 0)).

(** Whether the values are in the documented ranges. *)
Definition in_ranges (td : crinitTimerDef) : bool :=
  in_rng 0 65535 (years td) && in_rng 1 12 (month td) && in_rng 1 31 (days td) && in_rng 0 23 (hours td) &&
  in_rng 0 59 (minutes td) && in_rng 0 59 (seconds td) && (CC_RANGE (-13) (timezone td).1 15 && CC_RANGE 0 (timezone td).2 59).

Definition set_days_spec (w : days_spec) (v : vars) : vars :=
  match w with
  | AnyDay => v
  | OneDay n i => mkVars (v_wDay v) (v_result v) (crinitTimerSetWeekdays (Z.shiftl 1 i) 255 (v_td v)).2
  | DayRange n i m j => mkVars (v_wDay v) (v_result v) (crinitTimerSetWeekdays (Z.shiftl 1 i) (Z.shiftl 1 j) (v_td v)).2
  end.

(** The variable for the first day of a range does not matter later. *)
Definition same_vars (v v' : vars) : Prop := v_result v = v_result v' ∧ v_td v = v_td v'.

Lemma set_if_same f v v' : same_vars v v' → same_vars (set_if f v) (set_if f v').
Proof. unfold set_if. intros [E1 E2]. rewrite <- E1, <- E2. destruct (v_result v) eqn:E; [by destruct (f (v_td v))|split; congruence]. Qed.

Lemma finish_same v v' : same_vars v v' → finish v = finish v'.
Proof. unfold finish. by intros [-> ->]. Qed.

Lemma set_body_same b v v' : same_vars v v' → finish (set_body b v) = finish (set_body b v').
Proof.
  intros H. apply finish_same.
  assert (∀ d v v', same_vars v v' → same_vars (set_date d v) (set_date d v')) as Hd.
  { intros. by repeat apply set_if_same. }
  assert (∀ t v v', same_vars v v' → same_vars (set_time t v) (set_time t v')) as Ht.
  { intros t ? ? ?. unfold set_time, opt_set. destruct (ti_second t), (ti_zone t); by repeat apply set_if_same. }
  destruct b as [d [t|]|t]; cbn; auto.
Qed.

Definition init : vars := mkVars 0 true crinitTimerSetDefault.

Lemma weekdays_true a b td : (crinitTimerSetWeekdays a b td).1 = true.
Proof. unfold crinitTimerSetWeekdays. by repeat case_match. Qed.

Lemma set_weekdays a b w w' td :
  same_vars (set_if (crinitTimerSetWeekdays a b) (mkVars w true td)) (mkVars w' true (crinitTimerSetWeekdays a b td).2).
Proof.
  unfold set_if. cbn [v_result v_td]. pose proof (weekdays_true a b td) as H.
  destruct (crinitTimerSetWeekdays a b td) as [r td']. cbn in *. by subst.
Qed.

Lemma day_index_range n i : is_day n i → 0 ≤ i ≤ 6.
Proof. unfold is_day. generalize (lower n). intros s H. each_day H; lia. Qed.

Lemma one_day_same n i td :
  is_day n i → crinitTimerSetWeekdays (Z.shiftl 1 i) (Z.shiftl 1 i) td = crinitTimerSetWeekdays (Z.shiftl 1 i) 255 td.
Proof.
  intros H%day_index_range. assert (In i week) as Hin by (by apply in_week). cbn in Hin.
  repeat (destruct Hin as [<-|Hin]; [reflexivity|]). done.
Qed.

Definition read_spec (sp : timer_spec) : bool * crinitTimerDef :=
  match sp with
  | WithDays w (Some b) => finish (set_body b (set_days_spec w init))
  | WithDays w None => finish (set_days_spec w init)
  | Body b => finish (set_body b init)
  end.

Lemma after_nul s : after_day (String NUL s).
Proof. eexists _, _. eauto. Qed.
Lemma after_dash s : after_day (String "-" s).
Proof. eexists _, _. eauto. Qed.
Lemma after_dots s : after_day (".." ++ s).
Proof. eexists _, _. eauto. Qed.

Lemma parse_days w b :
  days_wf w → match b with Some b => body_wf b | None => True end →
  crinitTimerParse (timer_text (WithDays w b)) = read_spec (WithDays w b).
Proof.
  intros Hw Hb. unfold crinitTimerParse, c_text. fold init. cbn [timer_text read_spec]. rewrite string_app_assoc.
  destruct w as [|n i|n i m j]; cbn [days_text days_wf set_days_spec] in *.
  - destruct b as [b|]; cbn [String.append].
    + rewrite yy_star_body by done. by apply yy_dash_body.
    + apply yy_star_end.
  - destruct b as [b|]; cbn [String.append].
    + rewrite (yy_day_name _ n i) by (done || apply after_dash || apply after_nul). rewrite yy_weekday2_dash, yy_body by done. apply set_body_same. cbn [v_wDay].
      destruct (set_weekdays (Z.shiftl 1 i) (Z.shiftl 1 i) (Z.shiftl 1 i) 0 crinitTimerSetDefault) as [E1 E2].
      split; [exact E1|]. etransitivity; [exact E2|]. cbn. by rewrite (one_day_same n).
    + rewrite (yy_day_name _ n i) by (done || apply after_dash || apply after_nul). rewrite yy_weekday2_end. by apply finish_same, set_weekdays.
  - destruct Hw as (Hn & Hm & _). rewrite !string_app_assoc. destruct b as [b|].
    + rewrite (yy_day_name _ n i), (yy_day_to _ m j) by (done || apply after_dash || apply after_nul || apply after_dots). cbn [String.append]. rewrite yy_dash_body by done. by apply set_body_same, set_weekdays.
    + rewrite (yy_day_name _ n i), (yy_day_to _ m j) by (done || apply after_dash || apply after_nul || apply after_dots). cbn [String.append]. rewrite yy_weekdayend_end. by apply finish_same, set_weekdays.
Qed.

Lemma parse_text sp : timer_wf sp → crinitTimerParse (timer_text sp) = read_spec sp.
Proof.
  destruct sp as [w b|b]; [by intros []; apply parse_days|]. intros Hb.
  unfold crinitTimerParse, c_text. fold init. cbn [timer_text read_spec]. exact (yy_timer_body 3 b EmptyString init Hb).
Qed.

(** The result so far, and the definition if it is true. *)
Definition sofar (v : vars) (b : bool) (td : crinitTimerDef) : Prop := v_result v = b ∧ (b = true → v_td v = td).

Lemma sofar_assign lo hi set p v b td :
  sofar v b td → sofar (set_if (assign lo hi set p) v) (b && in_rng lo hi (part_value lo hi p)) (set (part_value lo hi p) td).
Proof.
  intros [Hb Ht]. unfold set_if, assign. rewrite Hb. destruct b; [|by split]. rewrite (Ht eq_refl). by split.
Qed.

Definition zone_ok (r : range) : bool := CC_RANGE (-13) r.1 15 && CC_RANGE 0 r.2 59.

Lemma sofar_zone z v b td :
  sofar v b td → sofar (set_if (assign_zone z) v) (b && zone_ok (zone_value z)) (set_timezone (zone_value z) td).
Proof.
  intros [Hb Ht]. unfold set_if, assign_zone. rewrite Hb. destruct b; [|by split]. rewrite (Ht eq_refl). by split.
Qed.

Ltac read_parts Hv :=
  eexists _, _; split;
    [cbn [set_body]; unfold set_time, set_date, opt_set; cbn [ti_hour ti_minute ti_second ti_zone da_year da_month da_day];
     repeat (apply sofar_zone || apply sofar_assign); exact Hv|];
  split; [|by intros ->];
  cbv [in_ranges documented spec_date spec_time given years month days hours minutes seconds timezone
       ti_hour ti_minute ti_second ti_zone da_year da_month da_day];
  repeat match goal with |- context [in_rng ?a ?b (part_value ?a ?b ?p)] => destruct (in_rng a b (part_value a b p)) end;
  repeat match goal with |- context [zone_ok (zone_value ?z)] => unfold zone_ok end; cbn; by rewrite ?andb_true_r.

Lemma sofar_body b v td :
  sofar v true td → ∃ ok td', sofar (set_body b v) ok td' ∧
    ok = in_ranges (documented 0 (Body b)) ∧ (td = documented (wDay td) (WithDays AnyDay None) → td' = documented (wDay td) (Body b)).
Proof.
  intros Hv. destruct b as [[y mo d] [[h m [s|] [z|]]|]|[h m [s|] [z|]]]; read_parts Hv.
Qed.

(** ** What is read *)

Definition days_of (w : days_spec) : timer_spec := WithDays w None.

Lemma one_day_bit i k : 0 ≤ i ≤ 6 → 0 ≤ k ≤ 6 → Z.testbit (Z.shiftl 1 i) k = true ↔ k = i.
Proof.
  intros Hi Hk. rewrite Z.shiftl_spec by lia. split.
  - intros H. destruct (Z.eq_dec k i); [done|]. destruct (Z.lt_ge_cases k i); [by rewrite Z.testbit_neg_r in H by lia|].
    change 1 with (2 ^ 0) in H. by rewrite Z.pow2_bits_false in H by lia.
  - intros ->. by rewrite Z.sub_diag.
Qed.

(** The weekdays are set, and nothing else. *)
Lemma read_days w :
  days_wf w →
  let v := set_days_spec w init in
  v_result v = true ∧ v_td v = documented (wDay (v_td v)) (days_of w) ∧
  (∀ k, 0 ≤ k ≤ 6 → Z.testbit (wDay (v_td v)) k = true ↔ on_day (days_of w) k).
Proof.
  destruct w as [|n i|n i m j]; cbn [days_wf set_days_spec]; intros Hw; (split; [done|]).
  - split; [done|]. intros k Hk. cbn. assert (In k week) as Hin by (by apply in_week). cbn in Hin.
    repeat (destruct Hin as [<-|Hin]; [done|]). done.
  - split; [done|]. intros k Hk. apply day_index_range in Hw. by apply one_day_bit.
  - destruct Hw as (Hi & Hj & Hne). apply day_index_range in Hi, Hj. split.
    + unfold crinitTimerSetWeekdays. by repeat case_match.
    + intros k Hk. by apply crinitTimerSetWeekdays_spec.
Qed.

Lemma read_body b v :
  v_result v = true → v_td v = documented (wDay (v_td v)) (WithDays AnyDay None) →
  (finish (set_body b v)).1 = in_ranges (documented 0 (Body b)) ∧
  ((finish (set_body b v)).1 = true → (finish (set_body b v)).2 = documented (wDay (v_td v)) (Body b)).
Proof.
  intros Hr Ht. destruct (sofar_body b v (v_td v)) as (ok & td' & [Eb Et] & Eok & Etd); [by split|]. cbn [finish fst snd].
  rewrite Eb. split; [done|]. intros Hok. rewrite (Et Hok). by apply Etd.
Qed.

Lemma text_read sp :
  timer_wf sp →
  ∃ w, (crinitTimerParse (timer_text sp)).1 = in_ranges (documented 0 sp) ∧
    (in_ranges (documented 0 sp) = true → (crinitTimerParse (timer_text sp)).2 = documented w sp) ∧
    (∀ k, 0 ≤ k ≤ 6 → Z.testbit w k = true ↔ on_day sp k).
Proof.
  intros Hsp. rewrite parse_text by done. destruct sp as [w b|b]; cbn [read_spec].
  - destruct Hsp as [Hw Hb]. destruct (read_days w Hw) as (Hr & Ht & Hbits). exists (wDay (v_td (set_days_spec w init))).
    destruct b as [b|].
    + destruct (read_body b _ Hr Ht) as [E1 E2]. split; [done|]. split; [intros Hok; apply E2; by rewrite E1|].
      intros k Hk. destruct w; by apply Hbits.
    + split; [done|]. split; [by intros _; apply Ht|]. intros k Hk. by apply Hbits.
  - exists (wDay (v_td init)). destruct (read_body b init eq_refl eq_refl) as [E1 E2]. split; [done|].
    split; [intros Hok; apply E2; by rewrite E1|]. intros k Hk. apply (proj2 (proj2 (read_days AnyDay I)) k Hk).
Qed.


(** ** From the text to the next time *)

(** One time of day on any date. *)
Definition clock_spec (sp : timer_spec) (h m : string) (s : option string) (z : option zone) : Prop :=
  spec_date sp = None ∧ spec_time sp = Some (mkTime (One h) (One m) (One <$> s) z).

Lemma some_day sp : timer_wf sp → ∃ k, 0 ≤ k ≤ 6 ∧ on_day sp k.
Proof.
  destruct sp as [[|n i|n i m j] b|b]; cbn [timer_wf days_wf on_day]; [by exists 0| | |by exists 0].
  - intros [Hd _]. exists i. split; [by eapply (day_index_range n)|done].
  - intros [(Hd & _) _]. exists i. split; [by eapply (day_index_range n)|]. apply day_index_range in Hd. unfold in_cyclic. cbn. zcases; lia.
Qed.

Lemma rng_bounds lo hi x : in_rng lo hi (x, x) = true → lo ≤ x ≤ hi.
Proof. unfold in_rng, CC_RANGE. cbn. rewrite !andb_true_iff, !Z.leb_le. lia. Qed.

Lemma clock_weekly sp h m s z w :
  clock_spec sp h m s z → in_ranges (documented 0 sp) = true →
  let sec := match s with Some a => dec a | None => 0 end in
  weekly (documented w sp) (dec h) (dec m) sec ∧ 0 ≤ dec h ≤ 23 ∧ 0 ≤ dec m ≤ 59 ∧ 0 ≤ sec ≤ 59.
Proof.
  intros [Hd Ht]. unfold in_ranges, documented, weekly. rewrite Hd, Ht. cbn [given years month days hours minutes seconds timezone].
  rewrite !andb_true_iff. cbn [ti_hour ti_minute ti_second]. intros [[[[[[_ _] _] Hh] Hm] Hs] _].
  destruct s as [a|]; cbn [fmap option_fmap option_map given part_value] in *; apply rng_bounds in Hh, Hm, Hs; split_and!; (done || lia).
Qed.


(** ** Witnesses, and where the parser deviates from the documentation *)

Ltac wf_now :=
  repeat match goal with |- _ ∧ _ => split | |- timer_wf _ => split | |- days_wf _ => split | |- body_wf _ => split
                        | |- date_wf _ => split | |- time_wf _ => split | |- zone_wf _ => split | |- year_wf _ => split
                        | |- part_wf _ _ _ => cbn [part_wf] | |- number _ _ => split end;
  try done; try (by repeat constructor); try (by vm_compute); try (cbn; lia); try (vm_compute; by auto 20).

Definition demo_spec : timer_spec :=
  WithDays (DayRange "FRI" 4 "tuesday" 1)
    (Some (OnDate (mkDate (Span "2030" "") (Span "11" "2") All)
      (Some (mkTime (One "7") (Span "" "30") (Some (One "05")) (Some (mkZone true "3" (Some (true, "30")))))))).


(** Mondays to Fridays at 12:30 in the zone one hour ahead. *)
Definition demo_clock : timer_spec :=
  WithDays (DayRange "Mon" 0 "Fri" 4) (Some (AtTime (mkTime (One "12") (One "30") None (Some (mkZone false "01" None))))).


(** A weekday that is not followed by a dash is not set: the timer fires on all days. *)
Lemma day_without_dash : crinitTimerParse "Mon12:30" = (true, documented 127 (Body (AtTime (mkTime (One "12") (One "30") None None)))).
Proof. by vm_compute. Qed.

(** What follows the seconds is not looked at. *)
Lemma text_after_seconds : crinitTimerParse "12:30:00 every day" = crinitTimerParse "12:30:00".
Proof. by vm_compute. Qed.

(** The last year as the start of a range is the first one, years above wrap around, and
    a single year has at most four digits. *)
Lemma large_years :
  years (crinitTimerParse "65535..65535-1-1").2 = (0, 65535) ∧ years (crinitTimerParse "70000..70001-1-1").2 = (4464, 4465) ∧
  (crinitTimerParse "65535-1-1").1 = false.
Proof. split_and!; by vm_compute. Qed.

(** The sign of a zone is that of its hours: half an hour behind is half an hour ahead,
    and three and a half hours behind are two and a half. *)
Lemma negative_zone_minutes :
  timezone (crinitTimerParse "12:00-00:30").2 = timezone (crinitTimerParse "12:00+00:30").2 ∧
  (let tz := timezone (crinitTimerParse "12:00-03:30").2 in tz.1 * 3600 + tz.2 * 60 = - (2 * 3600 + 30 * 60)).
Proof. split; by vm_compute. Qed.

(** Two of the examples of the documentation are misspelt and not accepted. *)
Lemma examples_refused :
  (crinitTimerParse "Wednsday-2030-10-25-00..23:00..59:00").1 = false ∧ (crinitTimerParse "anually").1 = false.
Proof. split; by vm_compute. Qed.

(** A text that is not accepted has already set what stood before the error, and the
    default for the rest. *)
Lemma refused_is_default : crinitTimerParse "yesterday" = (false, crinitTimerSetDefault).
Proof. by vm_compute. Qed.
