(* ===== verification/Task.v ===== *)
(** * Tasks: inc/task.h, src/task.c, src/ioredir.c and the copies of src/cgroup.c

    The in-memory representation of a task and its deep copy.  C arrays with a
    size member are lists; a [char *] that may be NULL is an [option string].
    A copy draws one decision of the environment per allocation, in the order
    of the source. *)

From Stdlib Require Import ZArith Lia Bool List String Ascii.
From stdpp Require Import base list strings.
From S2P Require Import Prelude EnvSet Timer.

Open Scope Z_scope.
Open Scope crinit_scope.

(** ** Constants of task.h and crinit-sdefs.h *)

Definition CRINIT_TASK_OPT_RESPAWN : Z := 1.
Definition CRINIT_TASK_OPT_TRIGGER_REARM : Z := 2.

Definition CRINIT_TASK_STATE_LOADED : Z := 0.
Definition CRINIT_TASK_STATE_STARTING : Z := 1.
Definition CRINIT_TASK_STATE_RUNNING : Z := 2.
Definition CRINIT_TASK_STATE_DONE : Z := 4.
Definition CRINIT_TASK_STATE_FAILED : Z := 8.
Definition CRINIT_TASK_STATE_NOTIFIED : Z := 16.

Definition CRINIT_TASK_EVENT_RUNNING : string := "spawn".
Definition CRINIT_TASK_EVENT_DONE : string := "wait".
Definition CRINIT_TASK_EVENT_FAILED : string := "fail".

(** ** Data *)

(** argc is the length of [argv]. *)
Record crinitTaskCmd := mkCmd { argv : list string }.

Record crinitTaskDep := mkDep { dep_name : string; dep_event : string }.

Record crinitTaskPrv := mkPrv { prv_name : string; prv_stateReq : Z }.

Record crinitIoRedir := mkIoRedir {
  newFd : Z; oldFd : Z; path : option string; oflags : Z; mode : Z; fifo : bool;
}.

Record crinitCgroupParam := mkCgroupParam { filename : string; option_ : string }.

(** [parent] refers to a global group, [config] may be NULL. *)
Inductive crinitCgroup :=
| mkCgroup (cg_name : option string) (cg_groupFd : Z) (cg_parent : option crinitCgroup)
    (cg_config : option (list crinitCgroupParam)).

Definition cg_name (g : crinitCgroup) : option string := let 'mkCgroup n _ _ _ := g in n.
Definition cg_parent (g : crinitCgroup) : option crinitCgroup := let 'mkCgroup _ _ p _ := g in p.
Definition cg_groupFd (g : crinitCgroup) : Z := let 'mkCgroup _ f _ _ := g in f.
Definition cg_config (g : crinitCgroup) : option (list crinitCgroupParam) :=
  let 'mkCgroup _ _ _ c := g in c.

#[export] Instance dep_eq_dec : EqDecision crinitTaskDep.
Proof. solve_decision. Defined.

(** Two dependencies are the same when name and event are (strcmp). *)
Definition dep_eqb (a b : crinitTaskDep) : bool :=
  str_eqb (dep_name a) (dep_name b) && str_eqb (dep_event a) (dep_event b).

Lemma dep_eqb_true a b : dep_eqb a b = true ↔ a = b.
Proof.
  unfold dep_eqb. rewrite andb_true_iff, !str_eqb_true. destruct a, b; simpl. naive_solver.
Qed.

Lemma dep_eqb_false a b : dep_eqb a b = false ↔ a ≠ b.
Proof. rewrite <- dep_eqb_true. by destruct (dep_eqb a b). Qed.

Record crinitTask := mkTask {
  t_name : string;  (* Name of the task *)
  t_cmds : list crinitTaskCmd;  (* COMMAND *)
  t_stopCmds : list crinitTaskCmd;  (* STOP_COMMAND *)
  t_taskEnv : crinitEnvSet;
  t_elosFilters : crinitEnvSet;
  t_deps : list crinitTaskDep;  (* DEPENDS; depsSize is the length *)
  t_trig : list crinitTaskDep;  (* TRIGGER *)
  t_triggered : bool;
  t_prv : list crinitTaskPrv;  (* PROVIDES *)
  t_opts : Z;  (* bit mask *)
  t_state : Z;  (* bit mask *)
  t_pid : Z;
  t_redirs : list crinitIoRedir;
  t_maxRetries : Z;  (* int *)
  t_failCount : Z;  (* int *)
  t_inhibitRespawn : bool;
  t_createTime : timespec;
  t_startTime : timespec;
  t_endTime : timespec;
  t_user : Z;
  t_group : Z;
  t_supGroups : list Z;
  t_username : option string;
  t_groupname : option string;
  t_capabilitiesSet : Z;  (* uint64_t *)
  t_capabilitiesClear : Z;  (* uint64_t *)
  t_cgroup : option crinitCgroup;
}.

Definition set_t_taskEnv (v : crinitEnvSet) (t : crinitTask) : crinitTask :=
  mkTask (t_name t) (t_cmds t) (t_stopCmds t) v (t_elosFilters t) (t_deps t) (t_trig t)
    (t_triggered t) (t_prv t) (t_opts t) (t_state t) (t_pid t) (t_redirs t) (t_maxRetries t)
    (t_failCount t) (t_inhibitRespawn t) (t_createTime t) (t_startTime t) (t_endTime t)
    (t_user t) (t_group t) (t_supGroups t) (t_username t) (t_groupname t) (t_capabilitiesSet t)
    (t_capabilitiesClear t) (t_cgroup t).

Definition set_t_deps (v : list crinitTaskDep) (t : crinitTask) : crinitTask :=
  mkTask (t_name t) (t_cmds t) (t_stopCmds t) (t_taskEnv t) (t_elosFilters t) v (t_trig t)
    (t_triggered t) (t_prv t) (t_opts t) (t_state t) (t_pid t) (t_redirs t) (t_maxRetries t)
    (t_failCount t) (t_inhibitRespawn t) (t_createTime t) (t_startTime t) (t_endTime t)
    (t_user t) (t_group t) (t_supGroups t) (t_username t) (t_groupname t) (t_capabilitiesSet t)
    (t_capabilitiesClear t) (t_cgroup t).

Definition set_t_triggered (v : bool) (t : crinitTask) : crinitTask :=
  mkTask (t_name t) (t_cmds t) (t_stopCmds t) (t_taskEnv t) (t_elosFilters t) (t_deps t)
    (t_trig t) v (t_prv t) (t_opts t) (t_state t) (t_pid t) (t_redirs t) (t_maxRetries t)
    (t_failCount t) (t_inhibitRespawn t) (t_createTime t) (t_startTime t) (t_endTime t)
    (t_user t) (t_group t) (t_supGroups t) (t_username t) (t_groupname t) (t_capabilitiesSet t)
    (t_capabilitiesClear t) (t_cgroup t).

Definition set_t_state (v : Z) (t : crinitTask) : crinitTask :=
  mkTask (t_name t) (t_cmds t) (t_stopCmds t) (t_taskEnv t) (t_elosFilters t) (t_deps t)
    (t_trig t) (t_triggered t) (t_prv t) (t_opts t) v (t_pid t) (t_redirs t) (t_maxRetries t)
    (t_failCount t) (t_inhibitRespawn t) (t_createTime t) (t_startTime t) (t_endTime t)
    (t_user t) (t_group t) (t_supGroups t) (t_username t) (t_groupname t) (t_capabilitiesSet t)
    (t_capabilitiesClear t) (t_cgroup t).

Definition set_t_pid (v : Z) (t : crinitTask) : crinitTask :=
  mkTask (t_name t) (t_cmds t) (t_stopCmds t) (t_taskEnv t) (t_elosFilters t) (t_deps t)
    (t_trig t) (t_triggered t) (t_prv t) (t_opts t) (t_state t) v (t_redirs t) (t_maxRetries t)
    (t_failCount t) (t_inhibitRespawn t) (t_createTime t) (t_startTime t) (t_endTime t)
    (t_user t) (t_group t) (t_supGroups t) (t_username t) (t_groupname t) (t_capabilitiesSet t)
    (t_capabilitiesClear t) (t_cgroup t).

Definition set_t_failCount (v : Z) (t : crinitTask) : crinitTask :=
  mkTask (t_name t) (t_cmds t) (t_stopCmds t) (t_taskEnv t) (t_elosFilters t) (t_deps t)
    (t_trig t) (t_triggered t) (t_prv t) (t_opts t) (t_state t) (t_pid t) (t_redirs t)
    (t_maxRetries t) v (t_inhibitRespawn t) (t_createTime t) (t_startTime t) (t_endTime t)
    (t_user t) (t_group t) (t_supGroups t) (t_username t) (t_groupname t) (t_capabilitiesSet t)
    (t_capabilitiesClear t) (t_cgroup t).

Definition set_t_inhibitRespawn (v : bool) (t : crinitTask) : crinitTask :=
  mkTask (t_name t) (t_cmds t) (t_stopCmds t) (t_taskEnv t) (t_elosFilters t) (t_deps t)
    (t_trig t) (t_triggered t) (t_prv t) (t_opts t) (t_state t) (t_pid t) (t_redirs t)
    (t_maxRetries t) (t_failCount t) v (t_createTime t) (t_startTime t) (t_endTime t) (t_user t)
    (t_group t) (t_supGroups t) (t_username t) (t_groupname t) (t_capabilitiesSet t)
    (t_capabilitiesClear t) (t_cgroup t).

Definition set_t_startTime (v : timespec) (t : crinitTask) : crinitTask :=
  mkTask (t_name t) (t_cmds t) (t_stopCmds t) (t_taskEnv t) (t_elosFilters t) (t_deps t)
    (t_trig t) (t_triggered t) (t_prv t) (t_opts t) (t_state t) (t_pid t) (t_redirs t)
    (t_maxRetries t) (t_failCount t) (t_inhibitRespawn t) (t_createTime t) v (t_endTime t)
    (t_user t) (t_group t) (t_supGroups t) (t_username t) (t_groupname t) (t_capabilitiesSet t)
    (t_capabilitiesClear t) (t_cgroup t).

Definition set_t_endTime (v : timespec) (t : crinitTask) : crinitTask :=
  mkTask (t_name t) (t_cmds t) (t_stopCmds t) (t_taskEnv t) (t_elosFilters t) (t_deps t)
    (t_trig t) (t_triggered t) (t_prv t) (t_opts t) (t_state t) (t_pid t) (t_redirs t)
    (t_maxRetries t) (t_failCount t) (t_inhibitRespawn t) (t_createTime t) (t_startTime t) v
    (t_user t) (t_group t) (t_supGroups t) (t_username t) (t_groupname t) (t_capabilitiesSet t)
    (t_capabilitiesClear t) (t_cgroup t).

Definition set_t_name (v : string) (t : crinitTask) : crinitTask :=
  mkTask v (t_cmds t) (t_stopCmds t) (t_taskEnv t) (t_elosFilters t) (t_deps t) (t_trig t)
    (t_triggered t) (t_prv t) (t_opts t) (t_state t) (t_pid t) (t_redirs t) (t_maxRetries t)
    (t_failCount t) (t_inhibitRespawn t) (t_createTime t) (t_startTime t) (t_endTime t)
    (t_user t) (t_group t) (t_supGroups t) (t_username t) (t_groupname t) (t_capabilitiesSet t)
    (t_capabilitiesClear t) (t_cgroup t).

Definition set_t_cmds (v : list crinitTaskCmd) (t : crinitTask) : crinitTask :=
  mkTask (t_name t) v (t_stopCmds t) (t_taskEnv t) (t_elosFilters t) (t_deps t) (t_trig t)
    (t_triggered t) (t_prv t) (t_opts t) (t_state t) (t_pid t) (t_redirs t) (t_maxRetries t)
    (t_failCount t) (t_inhibitRespawn t) (t_createTime t) (t_startTime t) (t_endTime t)
    (t_user t) (t_group t) (t_supGroups t) (t_username t) (t_groupname t) (t_capabilitiesSet t)
    (t_capabilitiesClear t) (t_cgroup t).

Definition set_t_stopCmds (v : list crinitTaskCmd) (t : crinitTask) : crinitTask :=
  mkTask (t_name t) (t_cmds t) v (t_taskEnv t) (t_elosFilters t) (t_deps t) (t_trig t)
    (t_triggered t) (t_prv t) (t_opts t) (t_state t) (t_pid t) (t_redirs t) (t_maxRetries t)
    (t_failCount t) (t_inhibitRespawn t) (t_createTime t) (t_startTime t) (t_endTime t)
    (t_user t) (t_group t) (t_supGroups t) (t_username t) (t_groupname t) (t_capabilitiesSet t)
    (t_capabilitiesClear t) (t_cgroup t).

Definition set_t_elosFilters (v : crinitEnvSet) (t : crinitTask) : crinitTask :=
  mkTask (t_name t) (t_cmds t) (t_stopCmds t) (t_taskEnv t) v (t_deps t) (t_trig t)
    (t_triggered t) (t_prv t) (t_opts t) (t_state t) (t_pid t) (t_redirs t) (t_maxRetries t)
    (t_failCount t) (t_inhibitRespawn t) (t_createTime t) (t_startTime t) (t_endTime t)
    (t_user t) (t_group t) (t_supGroups t) (t_username t) (t_groupname t) (t_capabilitiesSet t)
    (t_capabilitiesClear t) (t_cgroup t).

Definition set_t_trig (v : list crinitTaskDep) (t : crinitTask) : crinitTask :=
  mkTask (t_name t) (t_cmds t) (t_stopCmds t) (t_taskEnv t) (t_elosFilters t) (t_deps t) v
    (t_triggered t) (t_prv t) (t_opts t) (t_state t) (t_pid t) (t_redirs t) (t_maxRetries t)
    (t_failCount t) (t_inhibitRespawn t) (t_createTime t) (t_startTime t) (t_endTime t)
    (t_user t) (t_group t) (t_supGroups t) (t_username t) (t_groupname t) (t_capabilitiesSet t)
    (t_capabilitiesClear t) (t_cgroup t).

Definition set_t_prv (v : list crinitTaskPrv) (t : crinitTask) : crinitTask :=
  mkTask (t_name t) (t_cmds t) (t_stopCmds t) (t_taskEnv t) (t_elosFilters t) (t_deps t)
    (t_trig t) (t_triggered t) v (t_opts t) (t_state t) (t_pid t) (t_redirs t) (t_maxRetries t)
    (t_failCount t) (t_inhibitRespawn t) (t_createTime t) (t_startTime t) (t_endTime t)
    (t_user t) (t_group t) (t_supGroups t) (t_username t) (t_groupname t) (t_capabilitiesSet t)
    (t_capabilitiesClear t) (t_cgroup t).

Definition set_t_opts (v : Z) (t : crinitTask) : crinitTask :=
  mkTask (t_name t) (t_cmds t) (t_stopCmds t) (t_taskEnv t) (t_elosFilters t) (t_deps t)
    (t_trig t) (t_triggered t) (t_prv t) v (t_state t) (t_pid t) (t_redirs t) (t_maxRetries t)
    (t_failCount t) (t_inhibitRespawn t) (t_createTime t) (t_startTime t) (t_endTime t)
    (t_user t) (t_group t) (t_supGroups t) (t_username t) (t_groupname t) (t_capabilitiesSet t)
    (t_capabilitiesClear t) (t_cgroup t).

Definition set_t_redirs (v : list crinitIoRedir) (t : crinitTask) : crinitTask :=
  mkTask (t_name t) (t_cmds t) (t_stopCmds t) (t_taskEnv t) (t_elosFilters t) (t_deps t)
    (t_trig t) (t_triggered t) (t_prv t) (t_opts t) (t_state t) (t_pid t) v (t_maxRetries t)
    (t_failCount t) (t_inhibitRespawn t) (t_createTime t) (t_startTime t) (t_endTime t)
    (t_user t) (t_group t) (t_supGroups t) (t_username t) (t_groupname t) (t_capabilitiesSet t)
    (t_capabilitiesClear t) (t_cgroup t).

Definition set_t_maxRetries (v : Z) (t : crinitTask) : crinitTask :=
  mkTask (t_name t) (t_cmds t) (t_stopCmds t) (t_taskEnv t) (t_elosFilters t) (t_deps t)
    (t_trig t) (t_triggered t) (t_prv t) (t_opts t) (t_state t) (t_pid t) (t_redirs t) v
    (t_failCount t) (t_inhibitRespawn t) (t_createTime t) (t_startTime t) (t_endTime t)
    (t_user t) (t_group t) (t_supGroups t) (t_username t) (t_groupname t) (t_capabilitiesSet t)
    (t_capabilitiesClear t) (t_cgroup t).

Definition set_t_createTime (v : timespec) (t : crinitTask) : crinitTask :=
  mkTask (t_name t) (t_cmds t) (t_stopCmds t) (t_taskEnv t) (t_elosFilters t) (t_deps t)
    (t_trig t) (t_triggered t) (t_prv t) (t_opts t) (t_state t) (t_pid t) (t_redirs t)
    (t_maxRetries t) (t_failCount t) (t_inhibitRespawn t) v (t_startTime t) (t_endTime t)
    (t_user t) (t_group t) (t_supGroups t) (t_username t) (t_groupname t) (t_capabilitiesSet t)
    (t_capabilitiesClear t) (t_cgroup t).

Definition set_t_user (v : Z) (t : crinitTask) : crinitTask :=
  mkTask (t_name t) (t_cmds t) (t_stopCmds t) (t_taskEnv t) (t_elosFilters t) (t_deps t)
    (t_trig t) (t_triggered t) (t_prv t) (t_opts t) (t_state t) (t_pid t) (t_redirs t)
    (t_maxRetries t) (t_failCount t) (t_inhibitRespawn t) (t_createTime t) (t_startTime t)
    (t_endTime t) v (t_group t) (t_supGroups t) (t_username t) (t_groupname t)
    (t_capabilitiesSet t) (t_capabilitiesClear t) (t_cgroup t).

Definition set_t_group (v : Z) (t : crinitTask) : crinitTask :=
  mkTask (t_name t) (t_cmds t) (t_stopCmds t) (t_taskEnv t) (t_elosFilters t) (t_deps t)
    (t_trig t) (t_triggered t) (t_prv t) (t_opts t) (t_state t) (t_pid t) (t_redirs t)
    (t_maxRetries t) (t_failCount t) (t_inhibitRespawn t) (t_createTime t) (t_startTime t)
    (t_endTime t) (t_user t) v (t_supGroups t) (t_username t) (t_groupname t)
    (t_capabilitiesSet t) (t_capabilitiesClear t) (t_cgroup t).

Definition set_t_supGroups (v : list Z) (t : crinitTask) : crinitTask :=
  mkTask (t_name t) (t_cmds t) (t_stopCmds t) (t_taskEnv t) (t_elosFilters t) (t_deps t)
    (t_trig t) (t_triggered t) (t_prv t) (t_opts t) (t_state t) (t_pid t) (t_redirs t)
    (t_maxRetries t) (t_failCount t) (t_inhibitRespawn t) (t_createTime t) (t_startTime t)
    (t_endTime t) (t_user t) (t_group t) v (t_username t) (t_groupname t) (t_capabilitiesSet t)
    (t_capabilitiesClear t) (t_cgroup t).

Definition set_t_username (v : option string) (t : crinitTask) : crinitTask :=
  mkTask (t_name t) (t_cmds t) (t_stopCmds t) (t_taskEnv t) (t_elosFilters t) (t_deps t)
    (t_trig t) (t_triggered t) (t_prv t) (t_opts t) (t_state t) (t_pid t) (t_redirs t)
    (t_maxRetries t) (t_failCount t) (t_inhibitRespawn t) (t_createTime t) (t_startTime t)
    (t_endTime t) (t_user t) (t_group t) (t_supGroups t) v (t_groupname t) (t_capabilitiesSet t)
    (t_capabilitiesClear t) (t_cgroup t).

Definition set_t_groupname (v : option string) (t : crinitTask) : crinitTask :=
  mkTask (t_name t) (t_cmds t) (t_stopCmds t) (t_taskEnv t) (t_elosFilters t) (t_deps t)
    (t_trig t) (t_triggered t) (t_prv t) (t_opts t) (t_state t) (t_pid t) (t_redirs t)
    (t_maxRetries t) (t_failCount t) (t_inhibitRespawn t) (t_createTime t) (t_startTime t)
    (t_endTime t) (t_user t) (t_group t) (t_supGroups t) (t_username t) v (t_capabilitiesSet t)
    (t_capabilitiesClear t) (t_cgroup t).

Definition set_t_capabilitiesSet (v : Z) (t : crinitTask) : crinitTask :=
  mkTask (t_name t) (t_cmds t) (t_stopCmds t) (t_taskEnv t) (t_elosFilters t) (t_deps t)
    (t_trig t) (t_triggered t) (t_prv t) (t_opts t) (t_state t) (t_pid t) (t_redirs t)
    (t_maxRetries t) (t_failCount t) (t_inhibitRespawn t) (t_createTime t) (t_startTime t)
    (t_endTime t) (t_user t) (t_group t) (t_supGroups t) (t_username t) (t_groupname t) v
    (t_capabilitiesClear t) (t_cgroup t).

Definition set_t_capabilitiesClear (v : Z) (t : crinitTask) : crinitTask :=
  mkTask (t_name t) (t_cmds t) (t_stopCmds t) (t_taskEnv t) (t_elosFilters t) (t_deps t)
    (t_trig t) (t_triggered t) (t_prv t) (t_opts t) (t_state t) (t_pid t) (t_redirs t)
    (t_maxRetries t) (t_failCount t) (t_inhibitRespawn t) (t_createTime t) (t_startTime t)
    (t_endTime t) (t_user t) (t_group t) (t_supGroups t) (t_username t) (t_groupname t)
    (t_capabilitiesSet t) v (t_cgroup t).

Definition set_t_cgroup (v : option crinitCgroup) (t : crinitTask) : crinitTask :=
  mkTask (t_name t) (t_cmds t) (t_stopCmds t) (t_taskEnv t) (t_elosFilters t) (t_deps t)
    (t_trig t) (t_triggered t) (t_prv t) (t_opts t) (t_state t) (t_pid t) (t_redirs t)
    (t_maxRetries t) (t_failCount t) (t_inhibitRespawn t) (t_createTime t) (t_startTime t)
    (t_endTime t) (t_user t) (t_group t) (t_supGroups t) (t_username t) (t_groupname t)
    (t_capabilitiesSet t) (t_capabilitiesClear t) v.

(** ** What a task needs to know of the global options

    The copy of a task asks whether its cgroup is one of the global ones.  The
    component that owns the global options provides the answer. *)
Class CgroupQuery (S : Type) `{Faulty S} := {
  crinitCgroupNameIsGlobalCgroup : option string → M S (Z * bool);
  cgroup_query_total : ∀ name s, idle s →
    wp (crinitCgroupNameIsGlobalCgroup name)
       (λ r s', (∃ fs, s' = set_faults fs s) ∧ (quiet s → r.1 = 0 ∧ s' = s)) s;
}.

(** ** Copies *)

(** A failed copy: whether the name of the target had been allocated, and
    whether the stop commands of the original have been freed. *)
Inductive copy_result :=
| Copied (t : crinitTask)
| CopyFailed (name_set orig_stop_freed : bool).

Section Copy.
Context {S : Type} `{CgroupQuery S}.

(** strdup(), malloc() with memcpy(): the same bytes in new memory, [None]
    when there is none. *)
Definition dup {A} (a : A) : M S (option A) :=
  oom ← fallible; mret (if (oom : bool) then None else Some a).

(** A loop that copies element by element and gives up at the first
    failure. *)
Fixpoint copy_each {A} (copy : A → M S (option A)) (l : list A) : M S (option (list A)) :=
  match l with
  | [] => mret (Some [])
  | x :: l =>
      y ← copy x;
      match y with
      | None => mret None
      | Some y => ys ← copy_each copy l; mret (cons y <$> ys)
      end
  end.

(** An array: NULL when it is empty, else its memory first. *)
Definition copy_array {A} (copy : A → M S (option A)) (l : list A) : M S (option (list A)) :=
  match l with
  | [] => mret (Some [])
  | _ => oom ← fallible; if (oom : bool) then mret None else copy_each copy l
  end.

Definition crinitIoRedirCpy (src : crinitIoRedir) : M S (option crinitIoRedir) :=
  match path src with
  | None => mret (Some src)
  | Some p =>
      p' ← dup p;
      match p' with
      | None => mret None
      | Some p' => mret (Some (mkIoRedir (newFd src) (oldFd src) (Some p') (oflags src) (mode src) (fifo src)))
      end
  end.

(** One command: the array of argc + 1 pointers, then the buffer with all
    strings; the pointers keep their distances from the first one. *)
Definition copy_cmd (c : crinitTaskCmd) : M S (option crinitTaskCmd) :=
  if Z.of_nat (length (argv c)) <? 1 then mret None else
  oom ← fallible;
  if (oom : bool) then mret None else
  backbuf ← dup (argv c);
  mret (mkCmd <$> backbuf).

(** The copy, and whether the target array pointer has been replaced. *)
Definition crinitCopyCommandBlock (cmds : list crinitTaskCmd) : M S (option (list crinitTaskCmd) * bool) :=
  r ← copy_array copy_cmd cmds;
  mret (r, bool_decide (cmds ≠ [])).

(** Name and event of a dependency share one allocation. *)
Definition copy_dep (d : crinitTaskDep) : M S (option crinitTaskDep) :=
  backing ← dup (dep_name d, dep_event d);
  mret ((λ b, mkDep b.1 b.2) <$> backing).

Definition copy_prv (p : crinitTaskPrv) : M S (option crinitTaskPrv) :=
  name ← dup (prv_name p);
  mret ((λ n, mkPrv n (prv_stateReq p)) <$> name).

Definition copy_opt_string (o : option string) : M S (option (option string)) :=
  match o with
  | Some v => v' ← dup v; mret (Some <$> v')
  | None => mret (Some None)
  end.

(** Both strings are duplicated before either is checked. *)
Definition crinitCopyCgroupParam (p : crinitCgroupParam) : M S (option crinitCgroupParam) :=
  f ← dup (filename p); o ← dup (option_ p);
  mret (match f, o with Some f, Some o => Some (mkCgroupParam f o) | _, _ => None end).

Definition crinitCopyCgroupConfiguration (params : list crinitCgroupParam) : M S (option (list crinitCgroupParam)) :=
  copy_array crinitCopyCgroupParam params.

Definition crinitCopyCgroup (orig : crinitCgroup) : M S (option crinitCgroup) :=
  config ← match cg_config orig with
           | None => mret (Some None)
           | Some params =>
               oom ← fallible;
               if (oom : bool) then mret None else
               c ← crinitCopyCgroupConfiguration params; mret (Some <$> c)
           end;
  match config with
  | None => mret None
  | Some config =>
      match cg_name orig with
      | None => mundef
      | Some n => n' ← dup n; mret ((λ n', mkCgroup (Some n') (cg_groupFd orig) (cg_parent orig) config) <$> n')
      end
  end.

(** A global cgroup is shared, any other one is copied. *)
Definition copy_cgroup (g : option crinitCgroup) : M S (option (option crinitCgroup)) :=
  match g with
  | None => mret (Some None)
  | Some g =>
      '(rc, isGlobal) ← crinitCgroupNameIsGlobalCgroup (cg_name g);
      if negb (rc =? 0) then mret None
      else if (isGlobal : bool) then mret (Some (Some g))
      else oom ← fallible; if (oom : bool) then mret None else
           c ← crinitCopyCgroup g; mret (Some <$> c)
  end.

Definition copy_env (es : crinitEnvSet) : M S (option crinitEnvSet) :=
  '(r, copy) ← crinitEnvSetDup (mkEnvSet None (allocSz es) (allocInc es)) es;
  mret (if r =? -1 then None else Some copy).

(** The steps of crinitTaskCopy() after the command blocks, in their order;
    what is not duplicated has been copied with the struct. *)
Definition copy_rest (orig : crinitTask) (name : string) (cmds stopCmds : list crinitTaskCmd) :
    M S (option crinitTask) :=
  taskEnv ← copy_env (t_taskEnv orig);
  match taskEnv with None => mret None | Some taskEnv =>
  elosFilters ← copy_env (t_elosFilters orig);
  match elosFilters with None => mret None | Some elosFilters =>
  deps ← copy_array copy_dep (t_deps orig);
  match deps with None => mret None | Some deps =>
  trig ← copy_array copy_dep (t_trig orig);
  match trig with None => mret None | Some trig =>
  prv ← copy_array copy_prv (t_prv orig);
  match prv with None => mret None | Some prv =>
  redirs ← copy_array crinitIoRedirCpy (t_redirs orig);
  match redirs with None => mret None | Some redirs =>
  username ← copy_opt_string (t_username orig);
  match username with None => mret None | Some username =>
  groupname ← copy_opt_string (t_groupname orig);
  match groupname with None => mret None | Some groupname =>
  supGroups ← match t_supGroups orig with [] => mret (Some []) | l => dup l end;
  match supGroups with None => mret None | Some supGroups =>
  cgroup ← copy_cgroup (t_cgroup orig);
  match cgroup with None => mret None | Some cgroup =>
  mret (Some (mkTask name cmds stopCmds taskEnv elosFilters deps trig (t_triggered orig) prv
    (t_opts orig) (t_state orig) (t_pid orig) redirs (t_maxRetries orig) (t_failCount orig)
    (t_inhibitRespawn orig) (t_createTime orig) (t_startTime orig) (t_endTime orig)
    (t_user orig) (t_group orig) supGroups username groupname
    (t_capabilitiesSet orig) (t_capabilitiesClear orig) cgroup))
  end end end end end end end end end end.

(** Until the stop commands have been copied the target shares them with the
    original, and the error path frees them. *)
Definition crinitTaskCopy (orig : crinitTask) : M S copy_result :=
  let has_stop := bool_decide (t_stopCmds orig ≠ []) in
  name ← dup (t_name orig);
  match name with
  | None => mret (CopyFailed false has_stop)
  | Some name =>
      '(cmds, _) ← crinitCopyCommandBlock (t_cmds orig);
      match cmds with
      | None => mret (CopyFailed true has_stop)
      | Some cmds =>
          '(stopCmds, replaced) ← crinitCopyCommandBlock (t_stopCmds orig);
          match stopCmds with
          | None => mret (CopyFailed true (has_stop && negb replaced))
          | Some stopCmds =>
              r ← copy_rest orig name cmds stopCmds;
              mret (match r with Some t => Copied t | None => CopyFailed true false end)
          end
      end
  end.

(** The members are freed; the cgroup only if it is not a global one, which
    takes the lock of the global options.  When the query fails the cgroup
    is kept. *)
Definition crinitDestroyTask (t : crinitTask) : M S unit :=
  match t_cgroup t with
  | None => mret tt
  | Some g => _ ← crinitCgroupNameIsGlobalCgroup (cg_name g); mret tt
  end.

(** crinitFreeTask() on the failed copy destroys it a second time: with its
    name or the shared stop commands already freed that is undefined. *)
Definition crinitTaskDup (orig : crinitTask) : M S (option crinitTask) :=
  oom ← fallible;
  if (oom : bool) then mret None else
  r ← crinitTaskCopy orig;
  match r with
  | Copied t => mret (Some t)
  | CopyFailed name_set stop_freed =>
      if name_set || stop_freed then mundef else mret None
  end.
End Copy.

(** ** Correctness of the copies *)

(** What every task that passed configuration parsing satisfies. *)
Definition env_ok (es : crinitEnvSet) : Prop := ∃ l, env_wf es l.

Record task_ok (t : crinitTask) : Prop := {
  ok_cmds : Forall (λ c, argv c ≠ []) (t_cmds t);
  ok_stop : Forall (λ c, argv c ≠ []) (t_stopCmds t);
  ok_env : env_ok (t_taskEnv t);
  ok_filters : env_ok (t_elosFilters t);
  ok_cgroup : ∀ g, t_cgroup t = Some g → is_Some (cg_name g);
}.

Section CopySpec.
Context {S : Type} `{CgroupQuery S}.

Lemma benign_dup (H' : Prop) copy es :
  env_ok es → benign (S := S) H' (crinitEnvSetDup copy es) (λ r, r = (0, es)).
Proof.
  intros [l Hwf] s _. eapply wp_mono; [|by apply (dup_wf copy es l s)].
  intros r s' [Hs' Hr]. split; [done|]. naive_solver.
Qed.

Lemma benign_query (H' : Prop) name :
  benign (S := S) H' (crinitCgroupNameIsGlobalCgroup name) (λ r, r.1 = 0).
Proof.
  intros s Hs. eapply wp_mono; [|by apply cgroup_query_total].
  intros r s' [Hf Hq]. split; [split; [done|naive_solver]|naive_solver].
Qed.

(** Destroying a task always returns and changes no other state. *)
Lemma benign_destroy (H' : Prop) t : benign (S := S) H' (crinitDestroyTask t) (λ _, True).
Proof.
  unfold crinitDestroyTask. destruct (t_cgroup t) as [g|]; [|by apply benign_ret].
  eapply benign_bind; [apply benign_query|]. intros r. by apply benign_ret.
Qed.

(** A copy that always returns, touches nothing else, and, if it succeeds,
    yields what it was given; without failing calls it succeeds. *)
Definition copies {A} (m : M S (option A)) (a : A) : Prop :=
  (∀ H' : Prop, benign H' m (λ r, r = Some a)) ∧ ∀ s, wlp m (λ r _, ∀ b, r = Some b → b = a) s.

Lemma copies_ret {A} (a : A) : copies (mret (Some a)) a.
Proof. split; [intros H'; by apply benign_ret|]. intros s. apply wlp_ret. by intros b [= <-]. Qed.

Lemma copies_dup {A} (a : A) : copies (dup a) a.
Proof.
  unfold dup. split.
  - intros H'. eapply benign_bind; [apply benign_fallible|]. intros []; apply benign_ret; naive_solver.
  - intros s. apply wlp_bind_any. intros [] s'; apply wlp_ret; naive_solver.
Qed.

(** The same for a result that says more about a failure. *)
Definition yields {A B} (good : A → B) (m : M S B) (a : A) : Prop :=
  (∀ H' : Prop, benign H' m (λ r, r = good a)) ∧ ∀ s, wlp m (λ r _, ∀ b, r = good b → b = a) s.

(** One copy after the other. *)
Lemma yields_bind {A B C} (good : B → C) (bad : C) (m : M S (option A)) (k : A → M S C) a b :
  (∀ b', bad ≠ good b') → copies m a → yields good (k a) b →
  yields good (x ← m; match x with None => mret bad | Some x => k x end) b.
Proof.
  intros Hbad [Hm Hmw] [Hk Hkw]. split.
  - intros H' s Hs. apply wp_bind. pose proof (Hm True s Hs) as Hms.
    destruct (wp_elim _ _ _ Hms) as (x & s1 & Hx & Hof & Hq). eapply wp_intro; [done|].
    destruct x as [x|].
    + rewrite (wlp_elim _ _ _ _ _ (Hmw s) Hx x eq_refl).
      eapply wp_mono; [|apply (Hk H' s1); by eapply only_faults_idle].
      intros y s2 [Hof2 Hy]. split; [by etrans|]. intros Hqs. apply Hy. by eapply only_faults_quiet.
    + apply wp_ret. split; [done|]. intros Hqs. by specialize (Hq Hqs I).
  - intros s. apply wlp_bind. eapply wlp_mono; [|apply Hmw].
    intros [x|] s1 Hx; [rewrite (Hx x eq_refl); apply Hkw|]. apply wlp_ret. intros b' Hb. by destruct (Hbad b').
Qed.

Lemma copies_bind {A B} (m : M S (option A)) (k : A → M S (option B)) a b :
  copies m a → copies (k a) b →
  copies (x ← m; match x with None => mret None | Some x => k x end) b.
Proof. by apply (yields_bind Some None). Qed.

Lemma copies_map {A B} (f : A → B) (m : M S (option A)) a :
  copies m a → copies (x ← m; mret (f <$> x)) (f a).
Proof.
  intros [Hm Hmw]. split.
  - intros H'. eapply benign_bind; [apply Hm|]. intros x. apply benign_ret. intros [_ ->]. done.
  - intros s. apply wlp_bind. eapply wlp_mono; [|apply Hmw]. intros x s1 Hx. apply wlp_ret.
    intros b Hb. destruct x as [x|]; [|done]. injection Hb as <-. by rewrite (Hx x).
Qed.

(** An allocation in front of a copy. *)
Lemma copies_alloc {A} (m : M S (option A)) a :
  copies m a → copies (oom ← fallible; if (oom : bool) then mret None else m) a.
Proof.
  intros [Hm Hmw]. split.
  - intros H'. eapply benign_bind; [apply benign_fallible|]. intros []; [apply benign_ret; naive_solver|apply Hm].
  - intros s. apply wlp_bind_any. intros [] s1; [by apply wlp_ret|apply Hmw].
Qed.

Lemma copies_each {A} (copy : A → M S (option A)) l :
  Forall (λ x, copies (copy x) x) l → copies (copy_each copy l) l.
Proof.
  induction 1 as [|x l Hx Hl IH]; simpl; [apply copies_ret|].
  eapply (copies_bind _ (λ y, ys ← copy_each copy l; mret (cons y <$> ys))); [done|]. by apply copies_map.
Qed.

Lemma copies_array {A} (copy : A → M S (option A)) l :
  Forall (λ x, copies (copy x) x) l → copies (copy_array copy l) l.
Proof.
  intros Hl. unfold copy_array. destruct l as [|x l]; [apply copies_ret|]. by apply copies_alloc, copies_each.
Qed.

Lemma copies_redir r : copies (crinitIoRedirCpy r) r.
Proof.
  destruct r as [nf odf p fl md ff]. unfold crinitIoRedirCpy. simpl. destruct p as [p|]; [|apply copies_ret].
  eapply (copies_bind _ (λ p', mret (Some (mkIoRedir nf odf (Some p') fl md ff)))); [apply copies_dup|apply copies_ret].
Qed.

Lemma copies_cmd c : argv c ≠ [] → copies (copy_cmd c) c.
Proof.
  intros Hc. destruct c as [[|a args]]; [done|]. unfold copy_cmd. simpl argv.
  rewrite (proj2 (Z.ltb_ge _ 1)) by (simpl; lia).
  apply copies_alloc, (copies_map mkCmd _ (a :: args)), copies_dup.
Qed.

Lemma copies_dep d : copies (copy_dep d) d.
Proof.
  destruct d as [n e]. exact (copies_map (λ b, mkDep b.1 b.2) _ (n, e) (copies_dup (n, e))).
Qed.

Lemma copies_prv p : copies (copy_prv p) p.
Proof. destruct p as [n st]. exact (copies_map (λ n, mkPrv n st) _ n (copies_dup n)). Qed.

Lemma copies_opt_string o : copies (copy_opt_string o) o.
Proof. destruct o as [v|]; [apply (copies_map Some), copies_dup|apply copies_ret]. Qed.

Lemma copies_param p : copies (crinitCopyCgroupParam p) p.
Proof.
  destruct p as [f o]. unfold crinitCopyCgroupParam. simpl. destruct (copies_dup f) as [Hf Hfw], (copies_dup o) as [Ho How].
  split.
  - intros H'. eapply benign_bind; [apply Hf|]. intros x. eapply benign_bind; [apply Ho|]. intros y.
    apply benign_ret. by intros [[_ ->] ->].
  - intros s. apply wlp_bind. eapply wlp_mono; [|apply Hfw]. intros x s1 Hx.
    apply wlp_bind. eapply wlp_mono; [|apply How]. intros y s2 Hy. apply wlp_ret. intros b Hb.
    destruct x as [x|], y as [y|]; try done. injection Hb as <-. by rewrite (Hx x), (Hy y).
Qed.

Lemma copies_cgroup g : is_Some (cg_name g) → copies (crinitCopyCgroup g) g.
Proof.
  destruct g as [[n|] fd p c]; intros [n' Hn]; [|done]. unfold crinitCopyCgroup. simpl.
  eapply (copies_bind _ (λ config, n' ← dup n; mret ((λ n', mkCgroup (Some n') fd p config) <$> n')) c).
  - destruct c as [params|]; [|apply copies_ret].
    apply copies_alloc, (copies_map Some), copies_array, Forall_true. apply copies_param.
  - apply (copies_map (λ n', mkCgroup (Some n') fd p c)), copies_dup.
Qed.

Lemma copies_cgroup_member g : (∀ g', g = Some g' → is_Some (cg_name g')) → copies (copy_cgroup g) g.
Proof.
  intros Hg. destruct g as [g|]; simpl; [|apply copies_ret].
  assert (copies (c ← crinitCopyCgroup g; mret (Some <$> c)) (Some g)) as Hc.
  { apply (copies_map Some), copies_cgroup. by apply Hg. }
  apply copies_alloc in Hc as [Hc Hcw]. destruct (copies_ret (Some g)) as [Hr Hrw]. split.
  - intros H'. eapply benign_bind; [apply benign_query|]. intros [rc isGlobal]. simpl.
    destruct (Z.eqb_spec rc 0); simpl; [|apply benign_ret; naive_solver]. destruct isGlobal; [apply Hr|apply Hc].
  - intros s. apply wlp_bind_any. intros [rc isGlobal] s1. case_if; [by apply wlp_ret|].
    case_if; [apply Hrw|apply Hcw].
Qed.

Lemma copies_env es : env_ok es → copies (copy_env es) es.
Proof.
  intros He. unfold copy_env. split.
  - intros H'. eapply benign_bind; [by apply benign_dup|]. intros [r c]. apply benign_ret. by intros [_ [= -> ->]].
  - intros s. apply wlp_bind. destruct He as [l Hwf]. eapply wlp_mono; [|apply wp_wlp; by apply (dup_wf _ es l s)].
    intros [r c] s1 [_ Hr]. simpl in Hr. destruct Hr as [[= -> ->]|(-> & _)]; apply wlp_ret; by intros b [= <-].
Qed.

Lemma copies_rest t :
  task_ok t → copies (copy_rest t (t_name t) (t_cmds t) (t_stopCmds t)) t.
Proof.
  intros [_ _ He Hf Hg]. unfold copy_rest.
  eapply copies_bind; [by apply copies_env|]. cbv beta. eapply copies_bind; [by apply copies_env|]. cbv beta.
  eapply copies_bind; [apply copies_array, Forall_true, copies_dep|]. cbv beta.
  eapply copies_bind; [apply copies_array, Forall_true, copies_dep|]. cbv beta.
  eapply copies_bind; [apply copies_array, Forall_true, copies_prv|]. cbv beta.
  eapply copies_bind; [apply copies_array, Forall_true, copies_redir|]. cbv beta.
  eapply copies_bind; [apply copies_opt_string|]. cbv beta. eapply copies_bind; [apply copies_opt_string|]. cbv beta.
  eapply (copies_bind _ _ (t_supGroups t)); [destruct (t_supGroups t); [apply copies_ret|apply copies_dup]|]. cbv beta.
  eapply copies_bind; [by apply copies_cgroup_member|]. cbv beta. destruct t. apply copies_ret.
Qed.
Lemma copies_block cmds :
  Forall (λ c, argv c ≠ []) cmds → copies (copy_array copy_cmd cmds) cmds.
Proof. intros Hc. apply copies_array. eapply Forall_impl; [done|]. apply copies_cmd. Qed.

Lemma yields_ext {A B} (good : A → B) (m m' : M S B) a :
  (∀ s, m s = m' s) → yields good m a → yields good m' a.
Proof.
  intros E [Hb Hw]. split.
  - intros H' s Hs. specialize (Hb H' s Hs). unfold wp in *. by rewrite <- E.
  - intros s. specialize (Hw s). unfold wlp in *. by rewrite <- E.
Qed.

Lemma block_bind {A} cmds (k : option (list crinitTaskCmd) * bool → M S A) s :
  (r ← copy_array copy_cmd cmds; k (r, bool_decide (cmds ≠ []))) s = (crinitCopyCommandBlock cmds ≫= k) s.
Proof. unfold crinitCopyCommandBlock, mbind, M_bind. by destruct (copy_array copy_cmd cmds s). Qed.

Lemma yields_copy t : task_ok t → yields Copied (crinitTaskCopy t) t.
Proof.
  intros Hok. pose proof Hok as [Hc Hs _ _ _]. unfold crinitTaskCopy.
  eapply yields_bind; [done|apply copies_dup|]. cbv beta.
  eapply yields_ext; [intros s; apply block_bind|]. cbv beta iota.
  eapply yields_bind; [done|by apply copies_block|]. cbv beta.
  eapply yields_ext; [intros s; apply block_bind|]. cbv beta iota.
  eapply yields_bind; [done|by apply copies_block|]. cbv beta.
  destruct (copies_rest t Hok) as [Hr Hrw]. split.
  - intros H'. eapply benign_bind; [apply Hr|]. intros r. apply benign_ret. by intros [_ ->].
  - intros s. apply wlp_bind. eapply wlp_mono; [|apply Hrw]. intros [t1|] s1 H1; apply wlp_ret; [|done].
    intros t' [= <-]. by apply H1.
Qed.

Lemma benign_copy t :
  task_ok t → benign (S := S) True (crinitTaskCopy t) (λ r, r = Copied t).
Proof. intros Hok. by apply yields_copy. Qed.

(** A copy that succeeds is the original. *)
Lemma copied_same t s : task_ok t → wlp (crinitTaskCopy t) (λ r _, ∀ t', r = Copied t' → t' = t) s.
Proof. intros Hok. by apply yields_copy. Qed.

Lemma copy_cmds_empty cmds s :
  mkCmd [] ∈ cmds → wp (copy_each (copy_cmd (S := S)) cmds) (λ r _, r = None) s.
Proof.
  intros Hin. revert s. induction cmds as [|c cmds IH]; intros s; simpl.
  { by apply elem_of_nil in Hin. }
  apply wp_bind. unfold copy_cmd at 1.
  destruct (Z.ltb_spec (Z.of_nat (length (argv c))) 1); [by apply wp_ret, wp_ret|].
  apply elem_of_cons in Hin as [<-|Hin]; [simpl in *; lia|].
  apply wp_bind, wp_fallible. intros [] fs; [by apply wp_ret, wp_ret|].
  apply wp_bind, wp_bind, wp_fallible. intros [] fs'; apply wp_ret, wp_ret; simpl; [by apply wp_ret|].
  apply wp_bind. eapply wp_mono; [|by apply IH]. intros r s' ->. by apply wp_ret.
Qed.
End CopySpec.

(** A state without global cgroups. *)
#[export, refine] Instance no_global_cgroups : CgroupQuery (list bool) := {|
  crinitCgroupNameIsGlobalCgroup := λ _, mret (0, false);
|}.
Proof. intros name s _. apply wp_ret. split; [by exists s|done]. Defined.

(** ** Properties *)

Section Theorems.
Context {S : Type} `{CgroupQuery S}.

(** crinitTaskCopy() on a well-formed task always returns, changes no
    state of its own, and yields a copy equal to the original in every
    member or a reported failure; it fails only if an allocation does. *)
Theorem crinitTaskCopy_deep t s :
  task_ok t → idle s →
  wp (crinitTaskCopy t)
     (λ r s', only_faults s s' ∧ (r = Copied t ∨ ∃ a b, r = CopyFailed a b) ∧
        (quiet s → r = Copied t)) s.
Proof.
  intros Hok Hid. pose proof (wp_elim _ _ _ (benign_copy t Hok s Hid)) as (r & s' & Hr & Hs' & Hq).
  eapply wp_intro; [done|]. split_and!; [done| |auto].
  pose proof (wlp_elim _ _ _ _ _ (copied_same t s Hok) Hr) as Hsame.
  destruct r as [t'|a b]; [left; by rewrite (Hsame t')|eauto].
Qed.

(** Whatever the environment does, crinitTaskCopy() of a task that has a
    COMMAND without arguments and at least one STOP_COMMAND fails and frees
    the stop commands of the original, which its owner still holds. *)
Theorem crinitTaskCopy_frees_original_stop_commands t s :
  mkCmd [] ∈ t_cmds t → t_stopCmds t ≠ [] →
  wp (crinitTaskCopy t) (λ r _, ∃ a, r = CopyFailed a true) s.
Proof.
  intros Hin Hst. unfold crinitTaskCopy. rewrite bool_decide_eq_true_2 by done.
  apply wp_bind, wp_bind, wp_fallible. intros [] fs; apply wp_ret; [apply wp_ret; eauto|].
  apply wp_bind, wp_bind. unfold copy_array.
  destruct (t_cmds t) as [|c cs]; [by apply elem_of_nil in Hin|].
  apply wp_bind, wp_fallible. intros [] fs'; [apply wp_ret, wp_ret, wp_ret; eauto|].
  eapply wp_mono; [|by apply copy_cmds_empty]. intros r s' ->. apply wp_ret, wp_ret. eauto.
Qed.

(** crinitTaskDup() is not safe against a failing allocation: when the
    task struct and its name could be allocated and the next allocation
    fails, members already freed by the copy are freed again. *)
Theorem crinitTaskDup_double_free t s :
  task_ok t → faults s = [false; false; true] → crinitTaskDup t s = Undef.
Proof.
  intros [Hc Hs [l [He _ _ _]] _ _] Hf.
  assert (∀ b l' s', faults s' = b :: l' → fallible s' = Ret b (set_faults l' s')) as Hfal.
  { intros b l' s' E. unfold fallible. by rewrite E. }
  unfold crinitTaskDup. rewrite (bind_run _ _ _ _ _ (Hfal false _ s Hf)). set (s1 := set_faults _ s).
  assert (faults s1 = [false; true]) as Hf1 by apply faults_set. set (s2 := set_faults [true] s1).
  assert (faults s2 = [true]) as Hf2 by apply faults_set.
  assert (∃ b, crinitTaskCopy t s1 = Ret (CopyFailed true b) (set_faults [] s2)) as [b Hcopy];
    [|by rewrite (bind_run _ _ _ _ _ Hcopy)].
  unfold crinitTaskCopy. rewrite (bind_run (dup (t_name t)) _ s1 (Some (t_name t)) s2).
  2:{ unfold dup. by rewrite (bind_run _ _ _ _ _ (Hfal _ _ _ Hf1)). }
  rewrite <- block_bind. unfold copy_array at 1. destruct (t_cmds t) as [|c cs].
  2:{ unfold mbind, M_bind. rewrite (Hfal _ _ _ Hf2). eauto. }
  rewrite (bind_run (mret (Some [])) _ s2 (Some []) s2) by done. cbv beta iota.
  rewrite <- block_bind. unfold copy_array. destruct (t_stopCmds t) as [|c cs].
  2:{ unfold mbind, M_bind. rewrite (Hfal _ _ _ Hf2). eauto. }
  rewrite (bind_run (mret (Some [])) _ s2 (Some []) s2) by done. cbv beta iota.
  exists false. unfold copy_rest, copy_env, crinitEnvSetDup. simpl. rewrite He.
  unfold crinitEnvSetInit, mbind, M_bind. by rewrite (Hfal _ _ _ Hf2).
Qed.
End Theorems.

(** ** Witnesses *)

Definition demo_env : crinitEnvSet := mkEnvSet (Some [None; None]) 2 2.

Lemma demo_env_ok : env_ok demo_env.
Proof. exists []. split; [reflexivity|simpl; lia|constructor|constructor]. Qed.

Definition demo_task (cmds stop : list crinitTaskCmd) : crinitTask :=
  mkTask "net" cmds stop demo_env demo_env [mkDep "fs" "wait"] [] true [mkPrv "ip" 2] 0 0 (-1) []
    (-1) 0 false (mkTimespec 5 0) (mkTimespec 0 0) (mkTimespec 0 0) 0 0 [] None None 0 0 None.

Lemma demo_task_ok : task_ok (demo_task [mkCmd ["/bin/net"%string]] []).
Proof.
  split; simpl; [by repeat constructor|by constructor|apply demo_env_ok|apply demo_env_ok|done].
Qed.

Lemma crinitTaskCopy_deep_witness :
  wp (crinitTaskCopy (demo_task [mkCmd ["/bin/net"%string]] []))
    (λ r s', only_faults [false; true] s' ∧
       (r = Copied (demo_task [mkCmd ["/bin/net"%string]] []) ∨ ∃ a b, r = CopyFailed a b) ∧
       (quiet [false; true] → r = Copied (demo_task [mkCmd ["/bin/net"%string]] [])))
    [false; true].
Proof. exact (crinitTaskCopy_deep _ [false; true] demo_task_ok I). Defined.

Lemma crinitTaskCopy_frees_original_stop_commands_witness :
  wp (crinitTaskCopy (demo_task [mkCmd []] [mkCmd ["/bin/stop"%string]]))
    (λ r _, ∃ a, r = CopyFailed a true) ([] : list bool).
Proof.
  apply (crinitTaskCopy_frees_original_stop_commands
    (demo_task [mkCmd []] [mkCmd ["/bin/stop"%string]])); [simpl; constructor|discriminate].
Defined.

Lemma crinitTaskDup_double_free_witness :
  crinitTaskDup (demo_task [mkCmd ["/bin/net"%string]] []) [false; false; true] = Undef.
Proof. apply (crinitTaskDup_double_free _ [false; false; true] demo_task_ok). reflexivity. Defined.
