(* ===== verification/TaskDB.v ===== *)
(** * The task database: inc/taskdb.h and src/taskdb.c

    [crinitTaskDB] is the C struct; its array of tasks is a list of [slot]s
    because a task whose copy failed stays in the array with its members freed.
    A [crinitTask_t *] into the array is a [task_ptr]: the index together with
    the allocation it points into, since a growing insert moves the array.

    The operations run in any state that offers the services taskdb.c calls
    (class [TaskDBServices]): the elos log, the feature hooks, the timer pool,
    the monotonic clock and the dispatcher behind [spawnFunc]. *)

From Stdlib Require Import ZArith Lia Bool List String Ascii.
From stdpp Require Import base list strings gmap.
From S2P Require Import Prelude EnvSet Timer Task.

Open Scope Z_scope.
Open Scope crinit_scope.

(** ** Data *)

Inductive crinitDispatchThreadMode :=
| CRINIT_DISPATCH_THREAD_MODE_START
| CRINIT_DISPATCH_THREAD_MODE_STOP.

Inductive crinitHookType :=
| CRINIT_HOOK_INIT
| CRINIT_HOOK_START
| CRINIT_HOOK_STOP
| CRINIT_HOOK_TASK_ADDED.

(** The memory behind the pointers of a task in the array: owned, NULL after a
    failed copy that allocated nothing, or freed. *)
Inductive slot_mem := Live | Cleared | Dangling.

Record slot := mkSlot { sl_mem : slot_mem; sl_task : crinitTask }.

(** taskSetItems is the length of [taskSet]; [gen] names the allocation the
    array lives in; [changed] counts the broadcasts on the condition variable;
    [mutex_ok] holds between the initialisation of the mutex and its
    destruction. *)
Record crinitTaskDB := mkDB {
  taskSet : list slot;
  taskSetSize : Z;
  gen : nat;
  spawnFunc : bool;  (* not NULL *)
  spawnInhibit : bool;
  mutex_ok : bool;
  locked : bool;
  changed : nat;
}.

Definition set_taskSet (v : list slot) (d : crinitTaskDB) : crinitTaskDB :=
  mkDB v (taskSetSize d) (gen d) (spawnFunc d) (spawnInhibit d) (mutex_ok d) (locked d) (changed d).
Definition set_locked (v : bool) (d : crinitTaskDB) : crinitTaskDB :=
  mkDB (taskSet d) (taskSetSize d) (gen d) (spawnFunc d) (spawnInhibit d) (mutex_ok d) v (changed d).
Definition set_spawnInhibit (v : bool) (d : crinitTaskDB) : crinitTaskDB :=
  mkDB (taskSet d) (taskSetSize d) (gen d) (spawnFunc d) v (mutex_ok d) (locked d) (changed d).
Definition add_changed (d : crinitTaskDB) : crinitTaskDB :=
  mkDB (taskSet d) (taskSetSize d) (gen d) (spawnFunc d) (spawnInhibit d) (mutex_ok d) (locked d)
    (Datatypes.S (changed d)).
(** realloc() to twice the size.  The size does not wrap: the array it counts
    is in memory. *)
Definition grow_taskSet (d : crinitTaskDB) : crinitTaskDB :=
  mkDB (taskSet d) (taskSetSize d * 2) (Datatypes.S (gen d)) (spawnFunc d)
    (spawnInhibit d) (mutex_ok d) (locked d) (changed d).

Definition task_ptr : Type := nat * nat.  (* allocation, index *)

(** What the feature hooks are passed as [data]. *)
Inductive hook_data := HookDB | HookTask (p : task_ptr).

(** elos-common.h *)
Definition ELOS_SEVERITY_ERROR : Z := 2.
Definition ELOS_SEVERITY_INFO : Z := 4.
Definition ELOS_MSG_CODE_INFO_LOG : Z := 1102.
Definition ELOS_MSG_CODE_PROCESS_CREATED : Z := 2001.
Definition ELOS_MSG_CODE_PROCESS_EXITED : Z := 2002.
Definition ELOS_MSG_CODE_FILE_OPENED : Z := 2003.
Definition ELOS_MSG_CODE_EXIT_FAILURE : Z := 5006.
Definition ELOS_CLASSIFICATION_UNDEFINED : Z := 0.
Definition ELOS_CLASSIFICATION_PROCESS : Z := 32.
Definition ELOS_CLASSIFICATION_PROCESS_ERRORS : Z := 512.

Definition CRINIT_PROVIDE_DEP_NAME : string := "@provided".

(** ** What the database needs of the other components

    [keeps s s'] : a call left the database and the list of dispatcher threads
    alone.  Every service keeps both, whatever it returns, and returns from
    every idle state. *)
Class TaskDBServices (S : Type) `{CgroupQuery S} := {
  get_db : S → crinitTaskDB;
  set_db : crinitTaskDB → S → S;
  get_set_db : ∀ d s, get_db (set_db d s) = d;
  set_set_db : ∀ d d' s, set_db d (set_db d' s) = set_db d s;
  set_get_db : ∀ s, set_db (get_db s) s = s;
  db_faults : ∀ l s, get_db (set_faults l s) = get_db s;
  faults_db : ∀ d s, faults (set_db d s) = faults s;
  idle_db : ∀ d s, idle (set_db d s) ↔ idle s;

  threads : S → list (task_ptr * crinitDispatchThreadMode);
  threads_db : ∀ d s, threads (set_db d s) = threads s;
  threads_faults : ∀ l s, threads (set_faults l s) = threads s;

  (* clock_gettime(CLOCK_MONOTONIC): None when it fails *)
  clock_monotonic : M S (option timespec);
  crinitElosLog : Z → Z → Z → string → M S Z;
  crinitFeatureHook : option string → crinitHookType → hook_data → M S Z;
  crinitTimerDBRemoveTimer : string → M S unit;
  call_spawnFunc : task_ptr → crinitDispatchThreadMode → M S Z;

  clock_ok : ∀ s, wp clock_monotonic (λ r s', only_faults s s') s;
  elosLog_ok : ∀ sev code cls name s, idle s →
    wp (crinitElosLog sev code cls name)
       (λ r s', get_db s' = get_db s ∧ threads s' = threads s ∧ idle s' ∧ (quiet s → quiet s')) s;
  hook_ok : ∀ name ty data s, idle s →
    wp (crinitFeatureHook name ty data)
       (λ r s', get_db s' = get_db s ∧ threads s' = threads s ∧ (r ≠ -1 → idle s') ∧
          (quiet s → quiet s')) s;
  removeTimer_ok : ∀ str s, idle s →
    wp (crinitTimerDBRemoveTimer str)
       (λ _ s', get_db s' = get_db s ∧ threads s' = threads s ∧ idle s' ∧ (quiet s → quiet s')) s;
  spawn_ok : ∀ p mode s, idle s →
    wp (call_spawnFunc p mode)
       (λ r s', get_db s' = get_db s ∧ idle s' ∧ (quiet s → quiet s' ∧ r = 0) ∧
          (r = 0 ∧ threads s' = threads s ++ [(p, mode)] ∨ r = -1 ∧ threads s' = threads s)) s;
}.

(** ** Operations *)

Section Operations.
Context {S : Type} `{TaskDBServices S}.

Definition mdb : M S crinitTaskDB := λ s, Ret (get_db s) s.
Definition mdb_set (d : crinitTaskDB) : M S unit := λ s, Ret tt (set_db d s).
Definition mdb_modify (f : crinitTaskDB → crinitTaskDB) : M S unit :=
  λ s, Ret tt (set_db (f (get_db s)) s).

(** pthread_mutex_lock(&ctx->lock): fails, waits, or takes the mutex. *)
Definition lock_db : M S Z :=
  d ← mdb;
  if negb (mutex_ok d) then mundef else
  err ← fallible;
  if (err : bool) then mret 1 else
  if locked d then mblock else mdb_modify (set_locked true) ;; mret 0.

(** pthread_mutex_unlock(&ctx->lock): undefined unless the mutex is held. *)
Definition unlock_db : M S Z :=
  d ← mdb; if locked d then mdb_modify (set_locked false) ;; mret 0 else mundef.

Definition broadcast : M S unit := mdb_modify add_changed.

(** The task behind a pointer whose members may be followed. *)
Definition deref (p : task_ptr) : M S crinitTask :=
  d ← mdb;
  if negb (Nat.eqb p.1 (gen d)) then mundef else
  match taskSet d !! p.2 with
  | Some sl => match sl_mem sl with Live => mret (sl_task sl) | _ => mundef end
  | None => mundef
  end.

(** Assignment to members of the task at an index. *)
Definition upd_task (f : crinitTask → crinitTask) (i : nat) (d : crinitTaskDB) : crinitTaskDB :=
  set_taskSet (alter (λ sl, mkSlot (sl_mem sl) (f (sl_task sl))) i (taskSet d)) d.

Definition mupd (i : nat) (f : crinitTask → crinitTask) : M S unit := mdb_modify (upd_task f i).

(** crinitFindTask(): strcmp() with the name of every slot up to the one that
    matches. *)
Fixpoint find_slot (name : string) (i : nat) (l : list slot) : M S (option nat) :=
  match l with
  | [] => mret None
  | sl :: l =>
      match sl_mem sl with
      | Live => if str_eqb name (t_name (sl_task sl)) then mret (Some i)
                else find_slot name (Datatypes.S i) l
      | _ => mundef
      end
  end.

Definition crinitFindTask (name : string) : M S (option nat) :=
  d ← mdb; find_slot name 0 (taskSet d).

Definition crinitTaskIsReady (t : crinitTask) : bool :=
  if negb (Nat.eqb (length (t_deps t)) 0) then false
  else if negb (t_triggered t) then false
  else if t_state t &? Z.lor CRINIT_TASK_STATE_RUNNING CRINIT_TASK_STATE_STARTING then false
  else if (t_opts t &? CRINIT_TASK_OPT_RESPAWN) && t_inhibitRespawn t then false
  else if t_state t &? Z.lor CRINIT_TASK_STATE_FAILED CRINIT_TASK_STATE_DONE then
    if negb (t_opts t &? CRINIT_TASK_OPT_RESPAWN) then false
    else if negb (t_maxRetries t =? -1) && (t_maxRetries t <? t_failCount t) then false
    else true
  else true.

(** *** Life cycle *)

Definition crinitTaskDBInitWithSize (initialSize : Z) : M S Z :=
  if initialSize <? 1 then mret (-1) else
  d ← mdb;
  mdb_set (mkDB [] 0 (Datatypes.S (gen d)) false true (mutex_ok d) (locked d) (changed d)) ;;
  oom ← fallible;
  if (oom : bool) then mret (-1) else
  err ← fallible;  (* pthread_mutex_init *)
  if (err : bool) then mret (-1) else
  err ← fallible;  (* pthread_cond_init, undone by pthread_mutex_destroy *)
  if (err : bool) then mret (-1) else
  mdb_set (mkDB [] initialSize (Datatypes.S (gen d)) true false true false 0) ;;
  mret 0.

(** The loop over the array; a slot freed before is freed twice. *)
Fixpoint destroy_slots (l : list slot) : M S unit :=
  match l with
  | [] => mret tt
  | sl :: l =>
      match sl_mem sl with
      | Live => crinitDestroyTask (sl_task sl) ;; destroy_slots l
      | Cleared => destroy_slots l
      | Dangling => mundef
      end
  end.

Definition crinitTaskDBDestroy : M S Z :=
  d ← mdb;
  destroy_slots (taskSet d) ;;
  mdb_modify (λ d, mkDB [] 0 (Datatypes.S (gen d)) false (spawnInhibit d) (mutex_ok d) (locked d) (changed d)) ;;
  err ← fallible;
  if (err : bool) then mret (-1) else
  mdb_modify (λ d, mkDB (taskSet d) (taskSetSize d) (gen d) (spawnFunc d) (spawnInhibit d) false
                     (locked d) (changed d)) ;;
  mret 0.

(** *** Inserting *)

Definition set_slot (i : nat) (sl : slot) (d : crinitTaskDB) : crinitTaskDB :=
  set_taskSet (<[i := sl]> (taskSet d)) d.
Definition push_slot (sl : slot) (d : crinitTaskDB) : crinitTaskDB :=
  set_taskSet (taskSet d ++ [sl]) d.

(** The index of the slot to fill: the one found, or a new one at the end.
    [None] when the array cannot grow. *)
Definition insert_slot (found : option nat) (t : crinitTask) : M S (option nat) :=
  match found with
  | Some i => mret (Some i)
  | None =>
      d ← mdb;
      let items := length (taskSet d) in
      if Z.of_nat items =? taskSetSize d then
        oom ← fallible;
        if (oom : bool) then mret None
        else mdb_modify grow_taskSet ;; mdb_modify (push_slot (mkSlot Cleared t)) ;; mret (Some items)
      else mdb_modify (push_slot (mkSlot Cleared t)) ;; mret (Some items)
  end.

(** The result, and whether the stop commands of [t] were freed on the way. *)
Definition crinitTaskDBInsert (t : crinitTask) (overwrite : bool) : M S (Z * bool) :=
  err ← lock_db;
  if negb (err =? 0) then mret (-1, false) else
  let fail (freed : bool) := unlock_db ;; mret (-1, freed) in
  found ← crinitFindTask (t_name t);
  if bool_decide (is_Some found) && negb overwrite then fail false else
  match found with
  | Some i =>
      d ← mdb;
      match taskSet d !! i with
      | Some sl => crinitDestroyTask (sl_task sl) ;; mdb_modify (set_slot i (mkSlot Dangling (sl_task sl)))
      | None => mundef
      end
  | None => mret tt
  end ;;
  slot_idx ← insert_slot found t;
  match slot_idx with
  | None => fail false
  | Some i =>
      r ← crinitTaskCopy t;
      match r with
      | CopyFailed name_set stop_freed =>
          mdb_modify (set_slot i (mkSlot (if name_set || stop_freed then Dangling else Cleared) t)) ;;
          fail stop_freed
      | Copied t' =>
          mdb_modify (set_slot i (mkSlot Live t')) ;;
          _ ← crinitElosLog ELOS_SEVERITY_INFO ELOS_MSG_CODE_FILE_OPENED ELOS_CLASSIFICATION_PROCESS (t_name t');
          d ← mdb;
          rc ← crinitFeatureHook None CRINIT_HOOK_TASK_ADDED (HookTask (gen d, i));
          if rc =? -1 then fail false else
          broadcast ;; unlock_db ;; mret (0, false)
      end
  end.

(** *** Spawning *)

(** The loop over the tasks from index [i] on. *)
Fixpoint spawn_from (n i : nat) (mode : crinitDispatchThreadMode) : M S Z :=
  match n with
  | O => mret 0
  | Datatypes.S n =>
      d ← mdb;
      match taskSet d !! i with
      | None => mundef
      | Some sl =>
          if crinitTaskIsReady (sl_task sl) then
            mupd i (set_t_state CRINIT_TASK_STATE_STARTING) ;;
            r ← call_spawnFunc (gen d, i) mode;
            if r =? -1 then
              mupd i (λ t, set_t_state (t_state t &~ CRINIT_TASK_STATE_STARTING) t) ;; mret (-1)
            else spawn_from n (Datatypes.S i) mode
          else spawn_from n (Datatypes.S i) mode
      end
  end.

Definition crinitTaskDBSpawnReady (mode : crinitDispatchThreadMode) : M S Z :=
  err ← lock_db;
  if negb (err =? 0) then mret (-1) else
  d ← mdb;
  if spawnInhibit d then unlock_db ;; mret 0 else
  if negb (spawnFunc d) then unlock_db ;; mret (-1) else
  r ← spawn_from (length (taskSet d)) 0 mode;
  unlock_db ;; mret r.

Definition crinitTaskDBSetSpawnInhibit (inh : bool) : M S Z :=
  err ← lock_db;
  if negb (err =? 0) then mret (-1) else
  d ← mdb;
  (if xorb inh (spawnInhibit d) then
     mdb_modify (set_spawnInhibit inh) ;; (if inh then mret tt else broadcast)
   else mret tt) ;;
  unlock_db ;; mret 0.

(** *** Reading and writing members by task name

    Lock, find, act, unlock: [found] runs on the index of the task with the
    lock held and releases it; without a task the result is [dflt]. *)
Definition with_task {A} (name : string) (dflt : A) (found : nat → crinitTask → M S A) : M S A :=
  err ← lock_db;
  if negb (err =? 0) then mret dflt else
  r ← crinitFindTask name;
  match r with
  | None => unlock_db ;; mret dflt
  | Some i => d ← mdb;
      match taskSet d !! i with Some sl => found i (sl_task sl) | None => mundef end
  end.

(** The duplicate, [None] on error. *)
Definition crinitTaskDBGetTaskByName (name : string) : M S (Z * option crinitTask) :=
  with_task name (-1, None) (λ _ t,
    r ← crinitTaskDup t;
    unlock_db ;;
    mret (match r with Some t' => (0, Some t') | None => (-1, None) end)).

(** Signals the change also when there is no such task. *)
Definition crinitTaskRearmTrigger (name : string) : M S Z :=
  err ← lock_db;
  if negb (err =? 0) then mret (-1) else
  r ← crinitFindTask name;
  match r with
  | Some i => mupd i (λ t, set_t_state CRINIT_TASK_STATE_LOADED
                             (set_t_triggered (Nat.eqb (length (t_trig t)) 0) t))
  | None => mret tt
  end ;;
  broadcast ;; unlock_db ;;
  mret (match r with Some _ => 0 | None => -1 end).

(** The state change of crinitTaskDBSetTaskState(); [None] is the overflow of
    failCount. *)
Definition state_change (s : Z) (timestamp : timespec) (t : crinitTask) : option crinitTask :=
  let t := set_t_state s t in
  let s := s &~ CRINIT_TASK_STATE_NOTIFIED in
  if s =? CRINIT_TASK_STATE_FAILED then
    if t_failCount t =? INT_MAX then None
    else Some (set_t_endTime timestamp (set_t_failCount (t_failCount t + 1) t))
  else if s =? CRINIT_TASK_STATE_DONE then Some (set_t_endTime timestamp (set_t_failCount 0 t))
  else if s =? CRINIT_TASK_STATE_RUNNING then Some (set_t_startTime timestamp t)
  else Some t.

(** Severity, message code and classification of the logged event. *)
Definition state_event (s : Z) : Z * Z * Z :=
  let s := s &~ CRINIT_TASK_STATE_NOTIFIED in
  if s =? CRINIT_TASK_STATE_FAILED then
    (ELOS_SEVERITY_ERROR, ELOS_MSG_CODE_EXIT_FAILURE,
     Z.lor ELOS_CLASSIFICATION_PROCESS ELOS_CLASSIFICATION_PROCESS_ERRORS)
  else if s =? CRINIT_TASK_STATE_DONE then
    (ELOS_SEVERITY_INFO, ELOS_MSG_CODE_PROCESS_EXITED, ELOS_CLASSIFICATION_PROCESS)
  else if s =? CRINIT_TASK_STATE_RUNNING then
    (ELOS_SEVERITY_INFO, ELOS_MSG_CODE_PROCESS_CREATED, ELOS_CLASSIFICATION_PROCESS)
  else (ELOS_SEVERITY_INFO, ELOS_MSG_CODE_INFO_LOG, ELOS_CLASSIFICATION_UNDEFINED).

Definition crinitTaskDBSetTaskState (s : Z) (name : string) : M S Z :=
  timestamp ← (if s &? Z.lor (Z.lor CRINIT_TASK_STATE_RUNNING CRINIT_TASK_STATE_DONE)
                      CRINIT_TASK_STATE_FAILED
               then r ← clock_monotonic; mret (default (mkTimespec 0 0) r)
               else mret (mkTimespec 0 0));
  with_task name (-1) (λ i t,
    match state_change s timestamp t with
    | None => mundef
    | Some t' =>
        mupd i (λ _, t') ;;
        broadcast ;; unlock_db ;;
        let '(sev, code, cls) := state_event s in
        _ ← crinitElosLog sev code cls name;
        mret 0
    end).

Definition crinitTaskDBGetTaskState (name : string) : M S (Z * Z) :=
  with_task name (-1, 0) (λ _ t, unlock_db ;; mret (0, t_state t)).

Definition crinitTaskDBSetTaskPID (pid : Z) (name : string) : M S Z :=
  with_task name (-1) (λ i _, mupd i (set_t_pid pid) ;; unlock_db ;; mret 0).

Definition crinitTaskDBGetTaskPID (name : string) : M S (Z * Z) :=
  with_task name (-1, -1) (λ _ t, unlock_db ;; mret (0, t_pid t)).

Definition crinitTaskDBGetTaskStateAndPID (name : string) : M S (Z * (Z * Z)) :=
  with_task name (-1, (0, 0)) (λ _ t, unlock_db ;; mret (0, (t_state t, t_pid t))).

Definition crinitTaskDBSetTaskRespawnInhibit (inhibit : bool) (name : string) : M S Z :=
  with_task name (-1) (λ i _, mupd i (set_t_inhibitRespawn inhibit) ;; unlock_db ;; mret 0).

(** The result of pthread_mutex_lock() is compared with -1, which it never
    is: after a failed lock the task is looked up without the lock.  On
    success the lock stays with the caller. *)
Definition crinitTaskDBBorrowTask (name : string) : M S (option task_ptr) :=
  _ ← lock_db;
  r ← crinitFindTask name;
  d ← mdb;
  match r with
  | None => unlock_db ;; mret None
  | Some i => mret (Some (gen d, i))
  end.

Definition crinitTaskDBRemit : M S Z :=
  err ← unlock_db; if negb (err =? 0) then mret (-1) else mret 0.

(** *** Dependencies *)

Definition crinitTaskDBAddDepToTask (dep : crinitTaskDep) (name : string) : M S Z :=
  with_task name (-1) (λ i t,
    if existsb (λ d, dep_eqb d dep) (t_deps t) then unlock_db ;; mret 0 else
    oom ← fallible;  (* the array *)
    if (oom : bool) then unlock_db ;; mret (-1) else
    oom ← fallible;  (* the strings *)
    if (oom : bool) then unlock_db ;; mret (-1) else
    mupd i (set_t_deps (t_deps t ++ [dep])) ;;
    unlock_db ;; mret 0).

(** The loop over pTask->deps from index [j] on: a match is overwritten with
    the last element and the size shrinks, then [j] advances. *)
Fixpoint remove_dep_loop (fuel j : nat) (deps : list crinitTaskDep) (dep : crinitTaskDep) :
    M S (list crinitTaskDep) :=
  match fuel with
  | O => mret deps
  | Datatypes.S fuel =>
      match deps !! j with
      | None => mret deps
      | Some d =>
          if dep_eqb d dep then
            (if str_eqb (dep_name dep) "@timer" then crinitTimerDBRemoveTimer (dep_event dep)
             else mret tt) ;;
            let n := (length deps - 1)%nat in
            let deps' :=
              if (j <? n)%nat then match deps !! n with Some l => <[j := l]> deps | None => deps end
              else deps in
            remove_dep_loop fuel (Datatypes.S j) (take n deps') dep
          else remove_dep_loop fuel (Datatypes.S j) deps dep
      end
  end.

(** On the task at index [i].  Freed arrays are followed when their size is
    not zero. *)
Definition crinitTaskDBRemoveDepFromTaskStruct (i : nat) (dep : crinitTaskDep) : M S unit :=
  d ← mdb;
  match taskSet d !! i with
  | None => mundef
  | Some sl =>
      let t := sl_task sl in
      match sl_mem sl with
      | Live =>
          deps ← remove_dep_loop (length (t_deps t)) 0 (t_deps t) dep;
          let trg := t_triggered t || existsb (λ d, dep_eqb d dep) (t_trig t) in
          mupd i (λ t, set_t_triggered trg (set_t_deps deps t))
      | _ => if Nat.eqb (length (t_deps t) + length (t_trig t)) 0 then mret tt else mundef
      end
  end.

Definition crinitTaskDBRemoveDepFromTask (dep : crinitTaskDep) (name : string) : M S Z :=
  with_task name (-1) (λ i _,
    crinitTaskDBRemoveDepFromTaskStruct i dep ;; broadcast ;; unlock_db ;; mret 0).

Definition crinitTaskDBFulfillDep (dep : crinitTaskDep) (target : option task_ptr) : M S Z :=
  err ← lock_db;
  if negb (err =? 0) then mret (-1) else
  d ← mdb;
  match target with
  | Some p => if Nat.eqb p.1 (gen d) then crinitTaskDBRemoveDepFromTaskStruct p.2 dep else mundef
  | None => mfor (seq 0 (length (taskSet d))) (λ i, crinitTaskDBRemoveDepFromTaskStruct i dep)
  end ;;
  broadcast ;; unlock_db ;; mret 0.

(** *** Features *)

Fixpoint provide_loop (prv : list crinitTaskPrv) (newState : Z) : M S Z :=
  match prv with
  | [] => mret 0
  | p :: prv =>
      if prv_stateReq p =? newState then
        r ← crinitTaskDBFulfillDep (mkDep CRINIT_PROVIDE_DEP_NAME (prv_name p)) None;
        if r =? -1 then mret (-1) else
        r ← crinitFeatureHook (Some (prv_name p)) CRINIT_HOOK_START HookDB;
        if r =? -1 then mret (-1) else provide_loop prv newState
      else
        r ← crinitFeatureHook (Some (prv_name p)) CRINIT_HOOK_STOP HookDB;
        if r =? -1 then mret (-1) else provide_loop prv newState
  end.

Definition crinitTaskDBProvideFeature (provider : crinitTask) (newState : Z) : M S Z :=
  provide_loop (t_prv provider) newState.

(** Without a task of that name the lock is not released. *)
Definition crinitTaskDBProvideFeatureByTaskName (name : string) (newState : Z) : M S Z :=
  err ← lock_db;
  if negb (err =? 0) then mret (-1) else
  r ← crinitFindTask name;
  match r with
  | None => mret (-1)
  | Some i =>
      d ← mdb;
      unlock_db ;;
      provider ← deref (gen d, i);
      crinitTaskDBProvideFeature provider newState
  end.

(** *** Export *)

(** strdup() of every name: the names so far and whether one failed. *)
Fixpoint export_names (l : list slot) : M S (list string * bool) :=
  match l with
  | [] => mret ([], false)
  | sl :: l =>
      match sl_mem sl with
      | Live =>
          oom ← fallible;
          if (oom : bool) then mret ([], true) else
          '(names, failed) ← export_names l;
          mret (t_name (sl_task sl) :: names, failed)
      | _ => mundef
      end
  end.

(** The result, the exported array, and the duplicates that are not freed: the
    error path frees the element after the last copied one [i] times. *)
Definition crinitTaskDBExportTaskNamesToArray : M S (Z * option (list string) * list string) :=
  err ← lock_db;
  if negb (err =? 0) then mret (-1, None, []) else
  oom ← fallible;
  if (oom : bool) then unlock_db ;; mret (-1, None, []) else
  d ← mdb;
  '(names, failed) ← export_names (taskSet d);
  unlock_db ;;
  mret (if (failed : bool) then (-1, None, names) else (0, Some names, [])).
End Operations.
