(* ===== verification/TaskDBSpec.v ===== *)
(** * What the task database does: lemmas about src/taskdb.c

    The removal loop as a function on lists, rules for the primitives of
    TaskDB.v, the abstract database (a map from names to tasks) and the effect
    of every operation on it. *)

From Stdlib Require Import ZArith Lia Bool List String Ascii.
From stdpp Require Import base list strings gmap.
From S2P Require Import Prelude EnvSet Timer Task TaskDB.

Open Scope Z_scope.
Open Scope crinit_scope.

(** ** The removal loop *)

Section RemoveLoop.
Implicit Types deps : list crinitTaskDep.

(** One removal: the last element moves to index [j]. *)
Definition swap_out {A} (j : nat) (deps : list A) : list A :=
  let n := (length deps - 1)%nat in
  take n (if (j <? n)%nat then match deps !! n with Some l => <[j := l]> deps | None => deps end
          else deps).

(** The loop without the calls to the timer pool. *)
Fixpoint remove_pure (fuel j : nat) deps (dep : crinitTaskDep) : list crinitTaskDep :=
  match fuel with
  | O => deps
  | S fuel =>
      match deps !! j with
      | None => deps
      | Some d =>
          if dep_eqb d dep then remove_pure fuel (S j) (swap_out j deps) dep
          else remove_pure fuel (S j) deps dep
      end
  end.

Definition remove_dep deps dep : list crinitTaskDep := remove_pure (length deps) 0 deps dep.

Lemma insert_perm {A} (T : list A) j d x :
  T !! j = Some d → d :: <[j := x]> T ≡ₚ T ++ [x].
Proof.
  revert j. induction T as [|y T IH]; intros [|j] Hj; simplify_eq/=.
  - by rewrite (Permutation_app_comm T [x]).
  - rewrite Permutation_swap. constructor. by apply IH.
Qed.

Lemma swap_out_perm {A} j (deps : list A) d :
  deps !! j = Some d → d :: swap_out j deps ≡ₚ deps.
Proof.
  intros Hj. pose proof (lookup_lt_Some _ _ _ Hj) as Hlt.
  unfold swap_out. destruct (Nat.ltb_spec j (length deps - 1)) as [Hlast|Hlast].
  - destruct (deps !! (length deps - 1)%nat) as [x|] eqn:Hx;
      [|apply lookup_ge_None in Hx; lia].
    rewrite take_insert_lt by done.
    assert (deps = take (length deps - 1) deps ++ [x]) as Hsplit.
    { rewrite <- (take_drop (length deps - 1) deps) at 1. f_equal.
      rewrite (drop_S _ _ _ Hx). f_equal. apply drop_ge. lia. }
    assert (take (length deps - 1) deps !! j = Some d) as Hj'.
    { rewrite lookup_take_lt by lia. done. }
    rewrite (insert_perm _ _ _ x Hj'). by rewrite <- Hsplit.
  - replace (length deps - 1)%nat with j by lia.
    rewrite <- (take_drop_middle _ _ _ Hj) at 2. rewrite (drop_ge deps (S j)) by lia.
    by rewrite Permutation_app_comm.
Qed.

Lemma swap_out_length {A} j (deps : list A) : (j < length deps)%nat → length (swap_out j deps) = (length deps - 1)%nat.
Proof.
  intros Hj. destruct (lookup_lt_is_Some_2 deps j Hj) as [d Hd].
  pose proof (Permutation_length (swap_out_perm j deps d Hd)) as Hl. simpl in Hl. lia.
Qed.

Lemma filter_all deps dep : dep ∉ deps → filter (λ d, d ≠ dep) deps = deps.
Proof.
  induction deps as [|d deps IH]; intros Hn; [done|].
  rewrite filter_cons_True by set_solver. f_equal. set_solver.
Qed.

(** [length deps - j] iterations are enough: more fuel changes nothing. *)
Lemma remove_pure_fuel fuel j deps dep :
  (length deps - j ≤ fuel)%nat →
  remove_pure fuel j deps dep = remove_pure (length deps - j) j deps dep.
Proof.
  remember (length deps - j)%nat as n eqn:Hn. revert fuel j deps Hn.
  induction n as [n IH] using lt_wf_ind. intros fuel j deps -> Hf.
  destruct (deps !! j) as [d|] eqn:Hd.
  - pose proof (lookup_lt_Some _ _ _ Hd) as Hj. destruct fuel as [|fuel]; [lia|].
    destruct (length deps - j)%nat as [|m] eqn:Hm; [lia|]. simpl. rewrite Hd.
    destruct (dep_eqb d dep).
    + pose proof (swap_out_length j deps Hj) as Hl.
      etrans; [|symmetry]; apply (IH (length (swap_out j deps) - S j)%nat); lia.
    + etrans; [|symmetry]; apply (IH (length deps - S j)%nat); lia.
  - destruct fuel, (length deps - j)%nat; simpl; by rewrite ?Hd.
Qed.

(** Whatever else the task waits for is kept. *)
Lemma remove_pure_others fuel j deps dep :
  filter (λ d, d ≠ dep) (remove_pure fuel j deps dep) ≡ₚ filter (λ d, d ≠ dep) deps.
Proof.
  revert j deps. induction fuel as [|fuel IH]; intros j deps; simpl; [done|].
  destruct (deps !! j) as [d|] eqn:Hd; [|done].
  destruct (dep_eqb d dep) eqn:He; [|apply IH].
  apply dep_eqb_true in He as ->. rewrite IH.
  pose proof (filter_Permutation (λ d, d ≠ dep) _ _ (swap_out_perm _ _ _ Hd)) as Hp.
  by rewrite filter_cons_False in Hp by naive_solver.
Qed.

Lemma remove_pure_submseteq fuel j deps dep : remove_pure fuel j deps dep ⊆+ deps.
Proof.
  revert j deps. induction fuel as [|fuel IH]; intros j deps; simpl; [done|].
  destruct (deps !! j) as [d|] eqn:Hd; [|done].
  destruct (dep_eqb d dep); [|apply IH].
  etrans; [apply IH|]. etrans; [|apply Permutation_submseteq, (swap_out_perm _ _ _ Hd)].
  by apply submseteq_cons.
Qed.

Lemma remove_pure_absent fuel j deps dep :
  dep ∉ drop j deps → remove_pure fuel j deps dep = deps.
Proof.
  revert j. induction fuel as [|fuel IH]; intros j Hn; simpl; [done|].
  destruct (deps !! j) as [d|] eqn:Hd; [|done]. rewrite (drop_S _ _ _ Hd) in Hn.
  destruct (dep_eqb d dep) eqn:He; [apply dep_eqb_true in He as ->; set_solver|].
  apply IH. set_solver.
Qed.

Lemma remove_pure_NoDup fuel j deps dep :
  NoDup deps → (length deps - j ≤ fuel)%nat → dep ∉ take j deps →
  remove_pure fuel j deps dep ≡ₚ filter (λ d, d ≠ dep) deps.
Proof.
  revert j. induction fuel as [|fuel IH]; intros j Hnd Hf Hpre; simpl.
  { rewrite take_ge in Hpre by lia. by rewrite filter_all by set_solver. }
  destruct (deps !! j) as [d|] eqn:Hd.
  2:{ apply lookup_ge_None in Hd. rewrite take_ge in Hpre by lia.
      by rewrite filter_all by set_solver. }
  destruct (dep_eqb d dep) eqn:He.
  - apply dep_eqb_true in He as ->. pose proof (swap_out_perm _ _ _ Hd) as Hp.
    assert (dep ∉ swap_out j deps) as Hnot.
    { rewrite <- Hp in Hnd. by apply NoDup_cons in Hnd as [? _]. }
    rewrite remove_pure_absent; [|intros Hin; by apply Hnot, (subseteq_drop (S j))].
    pose proof (filter_Permutation (λ d, d ≠ dep) _ _ Hp) as Hp'.
    rewrite filter_cons_False, filter_all in Hp' by naive_solver. done.
  - apply dep_eqb_false in He. apply IH; [done|lia|].
    rewrite (take_S_r _ _ _ Hd). set_solver.
Qed.

Lemma remove_dep_NoDup deps dep :
  NoDup deps → remove_dep deps dep ≡ₚ filter (λ d, d ≠ dep) deps.
Proof. intros Hnd. apply remove_pure_NoDup; [done|lia|set_solver]. Qed.

(** A dependency that is only the last element is taken off. *)
Lemma remove_pure_last fuel j deps dep :
  dep ∉ deps → (length deps - j < fuel)%nat → (j ≤ length deps)%nat →
  remove_pure fuel j (deps ++ [dep]) dep = deps.
Proof.
  revert j. induction fuel as [|fuel IH]; intros j Hn Hf Hj; simpl; [lia|].
  destruct (decide (j = length deps)) as [->|Hne].
  - rewrite lookup_app_r, Nat.sub_diag by lia. simpl. rewrite (proj2 (dep_eqb_true _ _) eq_refl).
    assert (swap_out (length deps) (deps ++ [dep]) = deps) as ->.
    { unfold swap_out. rewrite length_app. simpl. rewrite Nat.add_sub, Nat.ltb_irrefl.
      by rewrite take_app_length. }
    apply remove_pure_absent. rewrite drop_ge by lia. apply not_elem_of_nil.
  - destruct (lookup_lt_is_Some_2 deps j ltac:(lia)) as [d Hd].
    rewrite lookup_app_l, Hd by lia.
    rewrite (proj2 (dep_eqb_false d dep)); [apply IH; [done|lia|lia]|].
    intros ->. apply Hn. by eapply list_elem_of_lookup_2.
Qed.

Lemma remove_dep_last deps dep : dep ∉ deps → remove_dep (deps ++ [dep]) dep = deps.
Proof. intros Hn. apply remove_pure_last; [done|rewrite length_app; simpl; lia|lia]. Qed.

Lemma remove_dep_keeps_NoDup deps dep : NoDup deps → NoDup (remove_dep deps dep).
Proof. intros Hnd. rewrite remove_dep_NoDup by done. by apply NoDup_filter. Qed.

Lemma remove_dep_gone deps dep : NoDup deps → dep ∉ remove_dep deps dep.
Proof. intros Hnd. rewrite remove_dep_NoDup by done. rewrite list_elem_of_filter. naive_solver. Qed.
End RemoveLoop.

(** ** Rules for the primitives *)

(** A step that may change the database, but not the threads; idle and quiet
    states stay so. *)
Definition frame {S} `{TaskDBServices S} (s s' : S) : Prop :=
  threads s' = threads s ∧ (idle s → idle s') ∧ (quiet s → quiet s').

#[export] Instance frame_preorder {S} `{TaskDBServices S} : PreOrder (frame (S := S)).
Proof.
  split; [by intros s|]. intros s1 s2 s3 (Ht1 & Hi1 & Hq1) (Ht2 & Hi2 & Hq2).
  unfold frame. rewrite Ht2. naive_solver.
Qed.

(** Every slot can be followed; with unique names, that is what the database
    promises between two calls. *)
Definition live (sl : slot) : Prop := sl_mem sl = Live.

Record db_ok (d : crinitTaskDB) : Prop := {
  db_mutex : mutex_ok d = true;
  db_room : 1 ≤ taskSetSize d ∧ Z.of_nat (length (taskSet d)) ≤ taskSetSize d;
  db_live : Forall live (taskSet d);
  db_names : NoDup (map (t_name ∘ sl_task) (taskSet d));
  db_tasks_ok : Forall (task_ok ∘ sl_task) (taskSet d);
}.

Record stable {S} `{TaskDBServices S} (s : S) : Prop := {
  st_ok : db_ok (get_db s);
  st_unlocked : locked (get_db s) = false;
  st_idle : idle s;
}.

Definition named (name : string) (sl : slot) : bool := str_eqb name (t_name (sl_task sl)).
Definition db_find (name : string) (d : crinitTaskDB) : option nat := index_of (named name) (taskSet d).

Create HintDb taskdb.

Section Rules.
Context {S : Type} `{TaskDBServices S}.
Implicit Types s : S.

Lemma frame_faults s s' : only_faults s s' → frame s s'.
Proof.
  intros Hf. split_and!.
  - destruct Hf as [[fs ->] _]. apply threads_faults.
  - by apply only_faults_idle.
  - by apply only_faults_quiet.
Qed.

Lemma db_only_faults s s' : only_faults s s' → get_db s' = get_db s.
Proof. intros [[fs ->] _]. apply db_faults. Qed.

Lemma frame_set d s : frame s (set_db d s).
Proof. unfold frame, quiet. rewrite threads_db, idle_db, faults_db. done. Qed.

Lemma wp_mdb (Q : crinitTaskDB → S → Prop) s : Q (get_db s) s → wp mdb Q s.
Proof. done. Qed.

Lemma wp_modify_db f (Q : unit → S → Prop) s :
  (∀ s', frame s s' → get_db s' = f (get_db s) → Q tt s') → wp (mdb_modify f) Q s.
Proof. intros HQ. apply HQ; [apply frame_set|apply get_set_db]. Qed.

Lemma wp_fallible_frame (Q : bool → S → Prop) s :
  (∀ b s', frame s s' → get_db s' = get_db s → (quiet s → b = false) → Q b s') →
  wp fallible Q s.
Proof.
  intros HQ. apply wp_fallible_why. intros b s' Hs' Hq.
  apply HQ; [by apply frame_faults|by apply db_only_faults|done].
Qed.

Lemma wp_lock (Q : Z → S → Prop) s :
  mutex_ok (get_db s) = true → locked (get_db s) = false →
  (∀ s', frame s s' → get_db s' = get_db s → ¬ quiet s → Q 1 s') →
  (∀ s', frame s s' → get_db s' = set_locked true (get_db s) → Q 0 s') →
  wp lock_db Q s.
Proof.
  intros Hm Hl Hfail Hok. unfold lock_db. apply wp_bind, wp_mdb. rewrite Hm. simpl.
  apply wp_bind, wp_fallible_frame. intros [] s' Hf Hdb Hq.
  - apply wp_ret, Hfail; [done|done|]. intros Hs. by specialize (Hq Hs).
  - rewrite Hl. apply wp_bind, wp_modify_db. intros s'' Hf' Hdb'.
    apply wp_ret, Hok; [by etrans|congruence].
Qed.

Lemma wp_unlock (Q : Z → S → Prop) s :
  locked (get_db s) = true →
  (∀ s', frame s s' → get_db s' = set_locked false (get_db s) → Q 0 s') →
  wp unlock_db Q s.
Proof.
  intros Hl HQ. unfold unlock_db. apply wp_bind, wp_mdb. rewrite Hl.
  apply wp_bind, wp_modify_db. intros s' Hf Hdb. by apply wp_ret, HQ.
Qed.

Lemma find_slot_live name i l s :
  Forall live l → find_slot name i l s = Ret ((λ n, i + n)%nat <$> index_of (named name) l) s.
Proof.
  intros Hl. revert i. induction Hl as [|sl l Hsl Hl IH]; intros i; simpl; [done|].
  rewrite Hsl. unfold named at 1. destruct (str_eqb name (t_name (sl_task sl))).
  - unfold mret, M_ret. simpl. by rewrite Nat.add_0_r.
  - rewrite IH. f_equal. rewrite <- option_fmap_compose.
    apply option_fmap_ext. intros n. simpl. lia.
Qed.

Lemma wp_find name (Q : option nat → S → Prop) s :
  Forall live (taskSet (get_db s)) → Q (db_find name (get_db s)) s →
  wp (crinitFindTask name) Q s.
Proof.
  intros Hl HQ. unfold crinitFindTask. apply wp_bind, wp_mdb.
  unfold wp. rewrite find_slot_live by done. simpl. by rewrite option_fmap_id.
Qed.

(** The slot that a name is found in. *)
Lemma db_find_Some name d i :
  Forall live (taskSet d) → db_find name d = Some i →
  ∃ t, taskSet d !! i = Some (mkSlot Live t) ∧ t_name t = name.
Proof.
  intros Hl [([m t] & Hi & Hn) _]%index_of_Some. unfold named in Hn.
  apply str_eqb_true in Hn. simpl in *. exists t. split; [|done].
  rewrite Forall_lookup in Hl. specialize (Hl _ _ Hi). unfold live in Hl. simpl in Hl. by subst.
Qed.

Lemma unlock_lock d : locked d = false → set_locked false (set_locked true d) = d.
Proof. destruct d; unfold set_locked; simpl. by intros ->. Qed.

Lemma stable_same s s' : stable s → frame s s' → get_db s' = get_db s → stable s'.
Proof. intros [] (? & ? & ?) E. split; rewrite ?E; auto. Qed.

Lemma wp_elosLog sev code cls name (Q : Z → S → Prop) s :
  idle s → (∀ r s', frame s s' → get_db s' = get_db s → Q r s') →
  wp (crinitElosLog sev code cls name) Q s.
Proof.
  intros Hi HQ. eapply wp_mono; [|by apply elosLog_ok].
  intros r s' (Hd & Ht & Hi' & Hq). by apply HQ.
Qed.

Lemma wp_removeTimer str (Q : unit → S → Prop) s :
  idle s → (∀ s', frame s s' → get_db s' = get_db s → Q tt s') →
  wp (crinitTimerDBRemoveTimer str) Q s.
Proof.
  intros Hi HQ. eapply wp_mono; [|by apply removeTimer_ok].
  intros [] s' (Hd & Ht & Hi' & Hq). by apply HQ.
Qed.

Lemma wp_clock (Q : option timespec → S → Prop) s :
  (∀ r s', frame s s' → get_db s' = get_db s → Q r s') → wp clock_monotonic Q s.
Proof.
  intros HQ. eapply wp_mono; [|apply clock_ok].
  intros r s' Hf. apply HQ; [by apply frame_faults|by apply db_only_faults].
Qed.

(** Lock, find, act. *)
Lemma wp_with_task {A} name (dflt : A) found (Q : A → S → Prop) s :
  stable s →
  (∀ s', frame s s' → get_db s' = get_db s → (quiet s → db_find name (get_db s) = None) → Q dflt s') →
  (∀ i t s', frame s s' → get_db s' = set_locked true (get_db s) →
     db_find name (get_db s) = Some i → taskSet (get_db s) !! i = Some (mkSlot Live t) →
     t_name t = name → wp (found i t) Q s') →
  wp (with_task name dflt found) Q s.
Proof.
  intros Hst Hd Hf. destruct Hst as [[Hm _ Hl Hn Ht] Hu Hi]. unfold with_task.
  apply wp_bind, wp_lock; [done|done|intros s' Hs' Hdb Hq; simpl; apply wp_ret, Hd; [done|done|by intros ?%Hq]|].
  intros s' Hs' Hdb. simpl. apply wp_bind, wp_find; [by rewrite Hdb|].
  rewrite Hdb. change (db_find name (set_locked true (get_db s))) with (db_find name (get_db s)).
  destruct (db_find name (get_db s)) as [i|] eqn:E.
  - apply wp_bind, wp_mdb. rewrite Hdb. simpl.
    destruct (db_find_Some _ _ _ Hl E) as (t & Hi' & Hname). rewrite Hi'. simpl. by apply (Hf i t).
  - apply wp_bind, wp_unlock; [by rewrite Hdb|]. intros s'' Hs'' Hdb''. apply wp_ret, Hd; [by etrans| |done].
    rewrite Hdb'', Hdb. by apply unlock_lock.
Qed.
End Rules.

(** ** The abstract database: a map from names to tasks *)

Definition db_map (d : crinitTaskDB) : gmap string crinitTask :=
  list_to_map ((λ sl, (t_name (sl_task sl), sl_task sl)) <$> taskSet d).

Section Abstraction.
Implicit Types d : crinitTaskDB.

Lemma fst_names (l : list slot) :
  ((λ sl, (t_name (sl_task sl), sl_task sl)) <$> l).*1 = map (t_name ∘ sl_task) l.
Proof. rewrite <- list_fmap_compose. done. Qed.

Lemma db_map_slot d i t :
  db_ok d → taskSet d !! i = Some (mkSlot Live t) → db_map d !! t_name t = Some t.
Proof.
  intros [_ _ _ Hn _] Hi. unfold db_map. apply elem_of_list_to_map_1.
  - by rewrite fst_names.
  - apply list_elem_of_fmap. exists (mkSlot Live t). split; [done|]. by eapply list_elem_of_lookup_2.
Qed.

Lemma db_map_find_None d name : db_find name d = None → db_map d !! name = None.
Proof.
  unfold db_find. rewrite index_of_None. intros Hn. unfold db_map.
  apply not_elem_of_list_to_map_1. rewrite fst_names. intros Hin.
  apply list_elem_of_fmap in Hin as (sl & -> & Hsl). specialize (Hn _ Hsl).
  unfold named in Hn. simpl in Hn. by rewrite str_eqb_refl in Hn.
Qed.

(** A name is in the map exactly if the search finds its slot. *)
Lemma db_find_map d name t :
  db_ok d → db_map d !! name = Some t ↔
  ∃ i, db_find name d = Some i ∧ taskSet d !! i = Some (mkSlot Live t).
Proof.
  intros Hok. destruct (db_find name d) as [i|] eqn:E.
  - destruct (db_find_Some _ _ _ (db_live _ Hok) E) as (t' & Hi & <-).
    rewrite (db_map_slot d i t' Hok Hi). split; [naive_solver|]. intros (? & [= <-] & ?). congruence.
  - rewrite (db_map_find_None _ _ E). naive_solver.
Qed.

Lemma db_find_None_map d name :
  db_ok d → db_find name d = None ↔ db_map d !! name = None.
Proof.
  intros Hok. split; [apply db_map_find_None|]. intros Hn.
  destruct (db_find name d) as [i|] eqn:E; [|done].
  destruct (db_find_Some _ _ _ (db_live _ Hok) E) as (t' & Hi & <-).
  by rewrite (db_map_slot d i t' Hok Hi) in Hn.
Qed.

Lemma alter_slot (l : list slot) (i : nat) m t f :
  l !! i = Some (mkSlot m t) →
  alter (λ sl, mkSlot (sl_mem sl) (f (sl_task sl))) i l = <[i := mkSlot m (f t)]> l.
Proof.
  revert i. induction l as [|x l IH]; intros [|i] Hi; simplify_eq/=; [done|].
  f_equal. by apply IH.
Qed.

Lemma map_slot_insert (l : list slot) (i : nat) t t' :
  l !! i = Some (mkSlot Live t) → t_name t' = t_name t →
  map (t_name ∘ sl_task) (<[i := mkSlot Live t']> l) = map (t_name ∘ sl_task) l.
Proof.
  intros Hi Hn. change (map ?f) with (fmap (M := list) f). rewrite list_fmap_insert.
  apply list_insert_id. rewrite list_lookup_fmap, Hi. simpl. by rewrite Hn.
Qed.

(** Writing a task of the same name to its slot is an insertion. *)
Lemma db_map_insert_slot d i t t' :
  db_ok d → taskSet d !! i = Some (mkSlot Live t) → t_name t' = t_name t →
  db_map (set_slot i (mkSlot Live t') d) = <[t_name t := t']> (db_map d).
Proof.
  intros Hok Hi Hn. unfold db_map, set_slot. simpl. rewrite list_fmap_insert. simpl. rewrite Hn.
  pose proof (db_names _ Hok) as Hnd. rewrite <- fst_names in Hnd.
  assert (((λ sl, (t_name (sl_task sl), sl_task sl)) <$> taskSet d) !! i = Some (t_name t, t)) as Hi'.
  { by rewrite list_lookup_fmap, Hi. }
  revert i Hi' Hnd Hi. generalize ((λ sl, (t_name (sl_task sl), sl_task sl)) <$> taskSet d).
  intros l i Hi' Hnd _. revert i Hi' Hnd.
  induction l as [|[k v] l IH]; intros [|i] Hi' Hnd; simplify_eq/=.
  - by rewrite insert_insert_eq.
  - apply NoDup_cons in Hnd as [Hk Hnd]. rewrite IH by done. apply insert_insert_ne.
    intros ->. apply Hk. apply list_elem_of_fmap. eexists (_, _). split; [|by eapply list_elem_of_lookup_2]. done.
Qed.

Lemma db_ok_insert_slot d i t t' :
  db_ok d → taskSet d !! i = Some (mkSlot Live t) → t_name t' = t_name t → task_ok t' →
  db_ok (set_slot i (mkSlot Live t') d).
Proof.
  intros [Hm Hr Hl Hn Ht] Hi Hname Hok. split; simpl; try done.
  - by rewrite length_insert.
  - by apply Forall_insert.
  - by erewrite map_slot_insert.
  - by apply Forall_insert.
Qed.

Lemma db_ok_locked b d : db_ok d → db_ok (set_locked b d).
Proof. by intros []. Qed.
Lemma db_ok_changed d : db_ok d → db_ok (add_changed d).
Proof. by intros []. Qed.

Lemma upd_task_slot f i t d :
  taskSet d !! i = Some (mkSlot Live t) → upd_task f i d = set_slot i (mkSlot Live (f t)) d.
Proof. intros Hi. unfold upd_task, set_slot. f_equal. by apply alter_slot. Qed.
End Abstraction.

(** ** What the operations do *)

(** The effect of a fulfilled dependency on one task. *)
Definition fulfil (dep : crinitTaskDep) (t : crinitTask) : crinitTask :=
  set_t_triggered (t_triggered t || existsb (λ d, dep_eqb d dep) (t_trig t))
    (set_t_deps (remove_dep (t_deps t) dep) t).

Definition fulfil_slot (dep : crinitTaskDep) (sl : slot) : slot :=
  mkSlot (sl_mem sl) (fulfil dep (sl_task sl)).

Definition rearm (t : crinitTask) : crinitTask :=
  set_t_state CRINIT_TASK_STATE_LOADED (set_t_triggered (Nat.eqb (length (t_trig t)) 0) t).

(** A call that reports success has applied [f] to the task [name] and to no
    other; one that reports failure has changed no task, and without failing
    system calls it fails only if there is no such task. *)
Definition updated {S} `{TaskDBServices S} (name : string) (f : crinitTask → crinitTask)
    (s : S) (r : Z) (s' : S) : Prop :=
  stable s' ∧ frame s s' ∧
  (r = 0 ∧ (∃ t, db_map (get_db s) !! name = Some t ∧
              db_map (get_db s') = <[name := f t]> (db_map (get_db s)))
   ∨ r = -1 ∧ get_db s' = get_db s ∧ (quiet s → db_map (get_db s) !! name = None)).

(** Every failure counter can be incremented once more. *)
Definition can_count (d : crinitTaskDB) : Prop := ∀ name t, db_map d !! name = Some t → t_failCount t < INT_MAX.

Section OperationSpecs.
Context {S : Type} `{TaskDBServices S}.
Implicit Types s : S.

Lemma stable_intro s d :
  idle s → get_db s = d → db_ok d → locked d = false → stable s.
Proof. by intros ? <- ??. Qed.

(** A task of the same name written back under the lock, which is then
    released: what all setters end with. *)
Lemma updated_write name f s s' i t :
  stable s → frame s s' → db_find name (get_db s) = Some i →
  taskSet (get_db s) !! i = Some (mkSlot Live t) → t_name t = name →
  t_name (f t) = t_name t → task_ok (f t) →
  ∀ n, get_db s' = mkDB (taskSet (set_slot i (mkSlot Live (f t)) (get_db s))) (taskSetSize (get_db s))
            (gen (get_db s)) (spawnFunc (get_db s)) (spawnInhibit (get_db s)) (mutex_ok (get_db s)) false n →
  updated name f s 0 s'.
Proof.
  intros Hst Hf Hfind Hi Hname Hfn Hok n Hdb.
  assert (db_ok (set_slot i (mkSlot Live (f t)) (get_db s))) as [?????]
    by (eapply db_ok_insert_slot; [apply Hst|done..]).
  split_and!; [|done|left; split; [done|]].
  - eapply stable_intro; [apply Hf, Hst|done|by split|done].
  - exists t. split; [rewrite <- Hname; eapply db_map_slot; [apply Hst|done]|].
    rewrite <- Hname, <- (db_map_insert_slot _ _ _ _ (st_ok _ Hst) Hi Hfn), Hdb. done.
Qed.

Lemma not_updated name f s s' :
  stable s → frame s s' → get_db s' = get_db s → (quiet s → db_find name (get_db s) = None) →
  updated name f s (-1) s'.
Proof.
  intros Hst Hf Hdb Hq. split_and!; [by eapply stable_same|done|right].
  split_and!; [done|done|]. intros Hs. by apply db_map_find_None, Hq.
Qed.

(** A setter that writes one task and releases the lock. *)
Lemma wp_setter name f s :
  stable s → (∀ t, t_name (f t) = t_name t) → (∀ t, task_ok t → task_ok (f t)) →
  wp (with_task name (-1) (λ i _, mupd i f ;; unlock_db ;; mret 0)) (λ r s', updated name f s r s') s.
Proof.
  intros Hst Hn Hok. apply wp_with_task; [done| |].
  { intros s' Hs' Hdb Hq. by apply not_updated. }
  intros i t s' Hs' Hdb Hfind Hi Hname.
  apply wp_bind, wp_modify_db. intros s2 Hs2 Hdb2.
  rewrite Hdb in Hdb2. rewrite (upd_task_slot f i t) in Hdb2 by done.
  apply wp_bind, wp_unlock; [by rewrite Hdb2|]. intros s3 Hs3 Hdb3. apply wp_ret.
  eapply updated_write; [done|by repeat (etrans; [done|])|done..|auto| |].
  - apply Hok. pose proof (db_tasks_ok _ (st_ok _ Hst)) as Hall.
    rewrite Forall_lookup in Hall. by apply (Hall _ _ Hi).
  - rewrite Hdb3, Hdb2. done.
Qed.

Lemma setpid_spec pid name s :
  stable s → wp (crinitTaskDBSetTaskPID pid name) (λ r s', updated name (set_t_pid pid) s r s') s.
Proof. intros Hst. apply wp_setter; [done|done|]. by intros t []. Qed.

Lemma setinhibit_spec b name s :
  stable s →
  wp (crinitTaskDBSetTaskRespawnInhibit b name) (λ r s', updated name (set_t_inhibitRespawn b) s r s') s.
Proof. intros Hst. apply wp_setter; [done|done|]. by intros t []. Qed.

Lemma find_ok s i t :
  stable s → taskSet (get_db s) !! i = Some (mkSlot Live t) → task_ok t.
Proof.
  intros Hst Hi. pose proof (db_tasks_ok _ (st_ok _ Hst)) as Hall.
  rewrite Forall_lookup in Hall. by apply (Hall _ _ Hi).
Qed.

Lemma state_change_same st ts t t' :
  state_change st ts t = Some t' → t_name t' = t_name t ∧ (task_ok t → task_ok t').
Proof.
  unfold state_change. intros Hc. repeat case_match; simplify_eq/=; (split; [done|by intros []]).
Qed.

(** The task after a change of state, at the time [ts]. *)
Definition to_state (st : Z) (ts : timespec) (t : crinitTask) : crinitTask :=
  default t (state_change st ts t).

Lemma to_state_same st ts t :
  t_name (to_state st ts t) = t_name t ∧ (task_ok t → task_ok (to_state st ts t)).
Proof.
  unfold to_state. destruct (state_change st ts t) eqn:E; [by eapply state_change_same|done].
Qed.

Lemma state_change_Some st ts t :
  t_failCount t < INT_MAX → state_change st ts t = Some (to_state st ts t).
Proof.
  unfold to_state, state_change. intros Hf. simpl. repeat case_if; try done. bool_hyps. lia.
Qed.

Lemma setstate_spec st name s :
  stable s → (∀ t, db_map (get_db s) !! name = Some t → t_failCount t < INT_MAX) →
  wp (crinitTaskDBSetTaskState st name)
     (λ r s', ∃ ts, updated name (to_state st ts) s r s' ∧
        (r = 0 → changed (get_db s') = Datatypes.S (changed (get_db s)))) s.
Proof.
  intros Hst Hcnt. unfold crinitTaskDBSetTaskState. apply wp_bind.
  apply (wp_mono _ (λ _ s1, frame s s1 ∧ get_db s1 = get_db s)).
  2:{ case_if; [|by apply wp_ret]. apply wp_bind, wp_clock. intros r s1 ??. by apply wp_ret. }
  intros ts s1 [Hf1 Hdb1]. apply wp_with_task; [by eapply stable_same| |].
  { intros s' Hs' Hdb Hq. exists ts. rewrite Hdb1 in *. split; [|done].
    apply not_updated; [done|by etrans|done|]. intros Hqs. by apply Hq, Hf1. }
  intros i t s' Hs' Hdb Hfind Hi Hname. rewrite Hdb1 in *.
  rewrite state_change_Some
    by (apply Hcnt; rewrite <- Hname; eapply db_map_slot; [apply Hst|done]).
  apply wp_bind, wp_modify_db. intros s2 Hs2 Hdb2.
  rewrite Hdb, (upd_task_slot _ i t) in Hdb2 by done.
  apply wp_bind, wp_modify_db. intros s3 Hs3 Hdb3. rewrite Hdb2 in Hdb3.
  apply wp_bind, wp_unlock; [by rewrite Hdb3|]. intros s4 Hs4 Hdb4. rewrite Hdb3 in Hdb4.
  destruct (state_event st) as [[sev code] cls].
  assert (frame s s4) as Hf4 by (do 4 (etrans; [eassumption|]); done).
  apply wp_bind, wp_elosLog; [apply Hf4, Hst|]. intros r s5 Hs5 Hdb5. apply wp_ret.
  exists ts. split; [|by rewrite Hdb5, Hdb4].
  eapply updated_write; [done|by etrans|done|done|done|apply to_state_same| |by rewrite Hdb5, Hdb4].
  eapply to_state_same, find_ok; done.
Qed.

Lemma rearm_spec name s :
  stable s →
  wp (crinitTaskRearmTrigger name) (λ r s', stable s' ∧ frame s s' ∧
     (r = 0 ∧ (∃ t, db_map (get_db s) !! name = Some t ∧
                 db_map (get_db s') = <[name := rearm t]> (db_map (get_db s)))
      ∨ r = -1 ∧ taskSet (get_db s') = taskSet (get_db s) ∧
        (quiet s → db_map (get_db s) !! name = None))) s.
Proof.
  intros Hst. pose proof Hst as [[Hm Hr Hl Hn Ht] Hu Hi]. unfold crinitTaskRearmTrigger.
  apply wp_bind, wp_lock; [done|done| |].
  { intros s' Hs' Hdb Hq. simpl. apply wp_ret.
    split_and!; [by eapply stable_same|done|right; split_and!; [done|by rewrite Hdb|done]]. }
  intros s1 Hs1 Hdb1. simpl. apply wp_bind, wp_find; [by rewrite Hdb1|]. rewrite Hdb1.
  change (db_find name (set_locked true (get_db s))) with (db_find name (get_db s)).
  destruct (db_find name (get_db s)) as [i|] eqn:E.
  - destruct (db_find_Some _ _ _ Hl E) as (t & Hslot & Hname).
    apply wp_bind, wp_modify_db. intros s2 Hs2 Hdb2.
    rewrite Hdb1, (upd_task_slot rearm i t) in Hdb2 by done.
    apply wp_bind, wp_modify_db. intros s3 Hs3 Hdb3. rewrite Hdb2 in Hdb3.
    apply wp_bind, wp_unlock; [by rewrite Hdb3|]. intros s4 Hs4 Hdb4. rewrite Hdb3 in Hdb4.
    apply wp_ret.
    assert (updated name rearm s 0 s4) as (? & ? & Hx).
    { eapply updated_write; [done|by repeat (etrans; [eassumption|])|done..| |by rewrite Hdb4].
      pose proof (find_ok _ _ _ Hst Hslot) as []. done. }
    split_and!; [done|done|naive_solver].
  - apply wp_bind, wp_ret, wp_bind, wp_modify_db. intros s3 Hs3 Hdb3. rewrite Hdb1 in Hdb3.
    apply wp_bind, wp_unlock; [by rewrite Hdb3|]. intros s4 Hs4 Hdb4. rewrite Hdb3 in Hdb4.
    assert (frame s s4) as Hf by (by repeat (etrans; [eassumption|])).
    apply wp_ret. split_and!; [|done|right].
    + eapply stable_intro; [by apply Hf|done| |done]. done.
    + rewrite Hdb4. split_and!; [done|done|]. intros _. by apply db_map_find_None.
Qed.

Lemma wp_remove_loop fuel j deps dep (Q : list crinitTaskDep → S → Prop) s :
  idle s →
  (∀ s', frame s s' → get_db s' = get_db s → Q (remove_pure fuel j deps dep) s') →
  wp (remove_dep_loop fuel j deps dep) Q s.
Proof.
  revert j deps s. induction fuel as [|fuel IH]; intros j deps s Hi HQ; simpl in *; [by apply wp_ret, HQ|].
  destruct (deps !! j) as [d|]; [|by apply wp_ret, HQ].
  destruct (dep_eqb d dep); [|by apply IH].
  apply wp_bind. apply (wp_mono _ (λ _ s1, frame s s1 ∧ get_db s1 = get_db s)).
  - intros _ s1 [Hf Hdb]. apply IH; [by apply Hf|]. intros s2 Hf2 Hdb2.
    apply HQ; [by etrans|congruence].
  - case_if; [by apply wp_removeTimer|by apply wp_ret].
Qed.

Lemma wp_remove_struct i t dep (Q : unit → S → Prop) s :
  idle s → taskSet (get_db s) !! i = Some (mkSlot Live t) →
  (∀ s', frame s s' → get_db s' = set_slot i (mkSlot Live (fulfil dep t)) (get_db s) → Q tt s') →
  wp (crinitTaskDBRemoveDepFromTaskStruct i dep) Q s.
Proof.
  intros Hi Hslot HQ. unfold crinitTaskDBRemoveDepFromTaskStruct. apply wp_bind, wp_mdb.
  rewrite Hslot. simpl. apply wp_bind, wp_remove_loop; [done|]. intros s1 Hf1 Hdb1.
  apply wp_modify_db. intros s2 Hf2 Hdb2. rewrite Hdb1 in Hdb2.
  rewrite (upd_task_slot _ i t) in Hdb2 by done. apply HQ; [by etrans|done].
Qed.

Lemma fulfil_ok dep t : task_ok t → task_ok (fulfil dep t).
Proof. by intros []. Qed.

Lemma removedep_spec dep name s :
  stable s →
  wp (crinitTaskDBRemoveDepFromTask dep name)
     (λ r s', updated name (fulfil dep) s r s' ∧
        (r = 0 → changed (get_db s') = Datatypes.S (changed (get_db s)))) s.
Proof.
  intros Hst. apply wp_with_task; [done| |].
  { intros s' Hs' Hdb Hq. split; [by apply not_updated|done]. }
  intros i t s1 Hs1 Hdb1 Hfind Hi Hname.
  apply wp_bind, (wp_remove_struct i t); [by apply Hs1, Hst|by rewrite Hdb1|].
  intros s2 Hs2 Hdb2. rewrite Hdb1 in Hdb2.
  apply wp_bind, wp_modify_db. intros s3 Hs3 Hdb3. rewrite Hdb2 in Hdb3.
  apply wp_bind, wp_unlock; [by rewrite Hdb3|]. intros s4 Hs4 Hdb4. rewrite Hdb3 in Hdb4.
  apply wp_ret. split; [|by rewrite Hdb4].
  eapply updated_write; [done|by repeat (etrans; [eassumption|])|done|done|done|done| |by rewrite Hdb4].
  eapply fulfil_ok, find_ok; done.
Qed.

(** The dependency added, unless it was there. *)
Definition add_dep (dep : crinitTaskDep) (t : crinitTask) : crinitTask :=
  if existsb (λ d, dep_eqb d dep) (t_deps t) then t else set_t_deps (t_deps t ++ [dep]) t.

Lemma add_dep_ok dep t : task_ok t → task_ok (add_dep dep t).
Proof. unfold add_dep. case_if; [done|]. by intros []. Qed.

Lemma add_dep_name dep t : t_name (add_dep dep t) = t_name t.
Proof. unfold add_dep. by case_if. Qed.

Lemma set_slot_id d (i : nat) sl : taskSet d !! i = Some sl → set_slot i sl d = d.
Proof. intros Hi. unfold set_slot. rewrite list_insert_id by done. by destruct d. Qed.

Lemma adddep_spec dep name s :
  stable s →
  wp (crinitTaskDBAddDepToTask dep name)
     (λ r s', stable s' ∧ frame s s' ∧
        (updated name (add_dep dep) s r s' ∨ r = -1 ∧ get_db s' = get_db s ∧ ¬ quiet s)) s.
Proof.
  intros Hst. apply wp_with_task; [done| |].
  { intros s' Hs' Hdb Hq. assert (updated name (add_dep dep) s (-1) s') as Hup by by apply not_updated.
    split_and!; [apply Hup|done|by left]. }
  intros i t s1 Hs1 Hdb1 Hfind Hi Hname.
  assert (∀ s2, frame s1 s2 → get_db s2 = get_db s1 → ¬ quiet s1 →
    wp (unlock_db ;; mret (-1)) (λ r s', stable s' ∧ frame s s' ∧
        (updated name (add_dep dep) s r s' ∨ r = -1 ∧ get_db s' = get_db s ∧ ¬ quiet s)) s2) as Hoom.
  { intros s2 Hs2 Hdb2 Hnq. rewrite Hdb1 in Hdb2. apply wp_bind, wp_unlock; [by rewrite Hdb2|].
    intros s3 Hs3 Hdb3. rewrite Hdb2, unlock_lock in Hdb3 by apply Hst. apply wp_ret.
    assert (frame s s3) by (by repeat (etrans; [eassumption|])).
    split_and!; [by eapply stable_same|done|right]. split_and!; [done|done|].
    intros Hq. by apply Hnq, Hs1. }
  assert (∀ s2, frame s1 s2 →
    get_db s2 = set_slot i (mkSlot Live (add_dep dep t)) (get_db s1) →
    wp (unlock_db ;; mret 0) (λ r s', stable s' ∧ frame s s' ∧
        (updated name (add_dep dep) s r s' ∨ r = -1 ∧ get_db s' = get_db s ∧ ¬ quiet s)) s2) as Hdone.
  { intros s2 Hs2 Hdb2. rewrite Hdb1 in Hdb2. apply wp_bind, wp_unlock; [by rewrite Hdb2|].
    intros s3 Hs3 Hdb3. rewrite Hdb2 in Hdb3. apply wp_ret.
    assert (updated name (add_dep dep) s 0 s3) as Hup.
    { eapply updated_write; [done|by repeat (etrans; [eassumption|])|done|done|done| | |by rewrite Hdb3].
      - apply add_dep_name.
      - eapply add_dep_ok, find_ok; done. }
    split_and!; [apply Hup|apply Hup|by left]. }
  unfold add_dep in Hdone. destruct (existsb (λ d, dep_eqb d dep) (t_deps t)).
  { apply Hdone; [done|]. rewrite Hdb1. symmetry. by apply set_slot_id. }
  apply wp_bind, wp_fallible_frame. intros [] s2 Hs2 Hdb2 Hq2.
  { apply Hoom; [done|done|]. intros Hq. by specialize (Hq2 Hq). }
  apply wp_bind, wp_fallible_frame. intros [] s3 Hs3 Hdb3 Hq3.
  { apply Hoom; [by etrans|congruence|]. intros Hq. apply Hs2 in Hq. by specialize (Hq3 Hq). }
  apply wp_bind, wp_modify_db. intros s4 Hs4 Hdb4.
  rewrite Hdb3, Hdb2, Hdb1, (upd_task_slot _ i t) in Hdb4 by done.
  apply Hdone; [by repeat (etrans; [eassumption|])|]. by rewrite Hdb4, Hdb1.
Qed.

(** The loop over all tasks: the first [n] slots are done when index [n] is
    reached. *)
Lemma wp_fulfil_loop dep n l (Q : unit → S → Prop) s :
  idle s → taskSet (get_db s) = (fulfil_slot dep <$> take n l) ++ drop n l → Forall live l →
  (∀ s', frame s s' → get_db s' = set_taskSet (fulfil_slot dep <$> l) (get_db s) → Q tt s') →
  wp (mfor (seq n (length l - n)) (λ i, crinitTaskDBRemoveDepFromTaskStruct i dep)) Q s.
Proof.
  remember (length l - n)%nat as k eqn:Hk. revert n s Hk.
  induction k as [|k IH]; intros n s Hk Hi Hset Hl HQ; simpl.
  { apply wp_ret, HQ; [done|]. rewrite take_ge, drop_ge, app_nil_r in Hset by lia.
    rewrite <- Hset. by destruct (get_db s). }
  destruct (lookup_lt_is_Some_2 l n ltac:(lia)) as [[m t] Hn].
  assert (m = Live) as -> by (rewrite Forall_lookup in Hl; apply (Hl _ _ Hn)).
  assert (length (fulfil_slot dep <$> take n l) = n) as Hlen by (rewrite length_fmap, length_take; lia).
  rewrite (drop_S _ _ _ Hn) in Hset.
  apply wp_bind, (wp_remove_struct n t).
  { done. }
  { rewrite Hset, lookup_app_r by lia. by rewrite Hlen, Nat.sub_diag. }
  intros s1 Hf1 Hdb1. apply IH.
  - lia.
  - by apply Hf1.
  - rewrite Hdb1. simpl. rewrite Hset, insert_app_r_alt by lia. rewrite Hlen, Nat.sub_diag. simpl.
    rewrite (take_S_r _ _ _ Hn), fmap_app, <- app_assoc. done.
  - done.
  - intros s2 Hf2 Hdb2. apply HQ; [by etrans|]. by rewrite Hdb2, Hdb1.
Qed.

Lemma db_ok_fulfil dep d : db_ok d → db_ok (set_taskSet (fulfil_slot dep <$> taskSet d) d).
Proof.
  intros [Hm Hr Hl Hn Ht]. split; simpl.
  - done.
  - by rewrite length_fmap.
  - apply Forall_fmap. eapply Forall_impl; [exact Hl|]. intros sl Hx. exact Hx.
  - change (map ?f) with (fmap (M := list) f) in *.
    rewrite <- list_fmap_compose. exact Hn.
  - apply Forall_fmap. eapply Forall_impl; [done|]. intros sl. apply fulfil_ok.
Qed.

Lemma db_map_fulfil dep d :
  db_map (set_taskSet (fulfil_slot dep <$> taskSet d) d) = fulfil dep <$> db_map d.
Proof.
  unfold db_map. simpl. induction (taskSet d) as [|sl l IH]; simpl; [by rewrite fmap_empty|].
  rewrite fmap_insert. f_equal. exact IH.
Qed.

Lemma fulfill_spec dep s :
  stable s →
  wp (crinitTaskDBFulfillDep dep None)
     (λ r s', stable s' ∧ frame s s' ∧
        (r = 0 ∧ get_db s' = add_changed (set_taskSet (fulfil_slot dep <$> taskSet (get_db s)) (get_db s))
         ∨ r = -1 ∧ get_db s' = get_db s ∧ ¬ quiet s)) s.
Proof.
  intros Hst. pose proof Hst as [[Hm Hr Hl Hn Ht] Hu Hi]. unfold crinitTaskDBFulfillDep.
  apply wp_bind, wp_lock; [done|done| |].
  { intros s1 Hs1 Hdb1 Hq. simpl. apply wp_ret. split_and!; [by eapply stable_same|done|by right]. }
  intros s1 Hs1 Hdb1. simpl. apply wp_bind, wp_mdb, wp_bind. rewrite Hdb1. simpl.
  rewrite <- (Nat.sub_0_r (length (taskSet (get_db s)))).
  apply wp_fulfil_loop; [by apply Hs1|by rewrite Hdb1|done|].
  intros s2 Hs2 Hdb2. rewrite Hdb1 in Hdb2.
  apply wp_bind, wp_modify_db. intros s3 Hs3 Hdb3. rewrite Hdb2 in Hdb3.
  apply wp_bind, wp_unlock; [by rewrite Hdb3|]. intros s4 Hs4 Hdb4. rewrite Hdb3 in Hdb4.
  apply wp_ret. assert (frame s s4) as Hf by (by repeat (etrans; [eassumption|])).
  assert (get_db s4 = add_changed (set_taskSet (fulfil_slot dep <$> taskSet (get_db s)) (get_db s))) as E.
  { rewrite Hdb4. unfold add_changed, set_taskSet, set_locked. simpl. by rewrite Hu. }
  split_and!; [|done|by left].
  eapply stable_intro; [by apply Hf|done| |by simpl; rewrite Hu].
  by apply db_ok_changed, db_ok_fulfil.
Qed.

(** A read of members of the task. *)
Lemma getter_spec {A} name (dflt : A) (g : crinitTask → A) s :
  stable s →
  wp (with_task name dflt (λ _ t, unlock_db ;; mret (g t)))
     (λ r s', frame s s' ∧ get_db s' = get_db s ∧
        ((∃ t, db_map (get_db s) !! name = Some t ∧ r = g t) ∨
         r = dflt ∧ (quiet s → db_map (get_db s) !! name = None))) s.
Proof.
  intros Hst. apply wp_with_task; [done| |].
  { intros s1 Hs1 Hdb1 Hq. split_and!; [done|done|right]. split; [done|].
    intros Hqs. by apply db_map_find_None, Hq. }
  intros i t s1 Hs1 Hdb1 Hfind Hi Hname.
  apply wp_bind, wp_unlock; [by rewrite Hdb1|]. intros s2 Hs2 Hdb2.
  rewrite Hdb1, unlock_lock in Hdb2 by apply Hst. apply wp_ret.
  split_and!; [by etrans|done|left]. exists t. split; [|done].
  rewrite <- Hname. eapply db_map_slot; [apply Hst|done].
Qed.

(** *** Spawning *)

Definition start (t : crinitTask) : crinitTask :=
  if crinitTaskIsReady t then set_t_state CRINIT_TASK_STATE_STARTING t else t.
Definition start_slot (sl : slot) : slot := mkSlot (sl_mem sl) (start (sl_task sl)).

(** The indices of the ready tasks, counted from [i]. *)
Fixpoint ready_from (i : nat) (l : list slot) : list nat :=
  match l with
  | [] => []
  | sl :: l => if crinitTaskIsReady (sl_task sl) then i :: ready_from (Datatypes.S i) l
               else ready_from (Datatypes.S i) l
  end.

Definition spawned (d : crinitTaskDB) (mode : crinitDispatchThreadMode) (idxs : list nat) :=
  (λ k, ((gen d, k), mode)) <$> idxs.

(** What the database looks like when the spawn of slot [k] has failed. *)
Definition spawn_failed (k : nat) (l : list slot) : list slot :=
  (start_slot <$> take k l) ++
  ((λ sl, mkSlot (sl_mem sl) (set_t_state CRINIT_TASK_STATE_LOADED (sl_task sl))) <$> take 1 (drop k l)) ++
  drop (Datatypes.S k) l.

Lemma start_prefix n l sl :
  l !! n = Some sl →
  (start_slot <$> take (Datatypes.S n) l) ++ drop (Datatypes.S n) l =
  <[n := start_slot sl]> ((start_slot <$> take n l) ++ drop n l).
Proof.
  intros Hn. pose proof (lookup_lt_Some _ _ _ Hn).
  assert (length (start_slot <$> take n l) = n) as Hlen by (rewrite length_fmap, length_take; lia).
  rewrite insert_app_r_alt by lia. rewrite Hlen, Nat.sub_diag, (drop_S _ _ _ Hn). simpl.
  rewrite (take_S_r _ _ _ Hn), fmap_app, <- app_assoc. done.
Qed.

(** What the loop from index [i] has done, from a database [d] with the slots
    [l] to [d']: all ready tasks are started, or all up to one whose thread
    could not be created. *)
Definition spawn_result (mode : crinitDispatchThreadMode) (i : nat) (l : list slot)
    (s : S) (r : Z) (s' : S) : Prop :=
  idle s' ∧ (quiet s → quiet s' ∧ r = 0) ∧
  (r = 0 ∧ get_db s' = set_taskSet (start_slot <$> l) (get_db s) ∧
     threads s' = threads s ++ spawned (get_db s) mode (ready_from i (drop i l))
   ∨ r = -1 ∧ ∃ k sl, (i ≤ k)%nat ∧ l !! k = Some sl ∧ crinitTaskIsReady (sl_task sl) = true ∧
       get_db s' = set_taskSet (spawn_failed k l) (get_db s) ∧
       threads s' = threads s ++ spawned (get_db s) mode (ready_from i (take (k - i) (drop i l)))).

(** The iteration at a task that is not ready changes nothing. *)
Lemma spawn_result_skip mode i l sl s r s' :
  l !! i = Some sl → crinitTaskIsReady (sl_task sl) = false →
  spawn_result mode (Datatypes.S i) l s r s' → spawn_result mode i l s r s'.
Proof.
  intros Hi Hr (Hid & Hq & Hres). split_and!; [done|done|].
  rewrite (drop_S _ _ _ Hi). simpl. rewrite Hr.
  destruct Hres as [Hres|(Hm & k & sl' & Hk & Hslk & Hrk & Hdb & Hth)]; [by left|right].
  split; [done|]. exists k, sl'. split_and!; [lia|done|done|done|].
  replace (k - i)%nat with (Datatypes.S (k - Datatypes.S i)) by lia. simpl. by rewrite Hr.
Qed.

Lemma spawn_result_start mode i l sl s s1 r s' :
  l !! i = Some sl → crinitTaskIsReady (sl_task sl) = true →
  (quiet s → quiet s1) → (∃ ts, get_db s1 = set_taskSet ts (get_db s)) →
  threads s1 = threads s ++ [((gen (get_db s), i), mode)] →
  spawn_result mode (Datatypes.S i) l s1 r s' → spawn_result mode i l s r s'.
Proof.
  intros Hi Hr Hq1 [ts Hdb1] Hth1 (Hid & Hq & Hres). split_and!; [done|naive_solver|].
  rewrite (drop_S _ _ _ Hi). simpl. rewrite Hr.
  destruct Hres as [(Hr0 & Hdb & Hth)|(Hm & k & sl' & Hk & Hslk & Hrk & Hdb & Hth)]; [left|right].
  - split_and!; [done|by rewrite Hdb, Hdb1|]. rewrite Hth, Hth1, Hdb1, <- app_assoc. done.
  - split; [done|]. exists k, sl'. split_and!; [lia|done|done|by rewrite Hdb, Hdb1|].
    replace (k - i)%nat with (Datatypes.S (k - Datatypes.S i)) by lia. simpl. rewrite Hr.
    rewrite Hth, Hth1, Hdb1, <- app_assoc. done.
Qed.

Lemma wp_spawn_from n i mode l s :
  idle s → n = (length l - i)%nat →
  taskSet (get_db s) = (start_slot <$> take i l) ++ drop i l →
  wp (spawn_from n i mode) (spawn_result mode i l s) s.
Proof.
  revert i s. induction n as [|n IH]; intros i s Hi Hn Hset; simpl.
  { apply wp_ret. split_and!; [done|done|left]. rewrite take_ge, drop_ge, app_nil_r in Hset by lia.
    rewrite (drop_ge l i) by lia. simpl. rewrite app_nil_r, <- Hset. by destruct (get_db s). }
  destruct (lookup_lt_is_Some_2 l i ltac:(lia)) as [sl Hsl].
  assert (length (start_slot <$> take i l) = i) as Hlen by (rewrite length_fmap, length_take; lia).
  assert (taskSet (get_db s) !! i = Some sl) as Hcur.
  { rewrite Hset, lookup_app_r by lia. by rewrite Hlen, Nat.sub_diag, (drop_S _ _ _ Hsl). }
  pose proof (start_prefix _ _ _ Hsl) as Hpre. rewrite <- Hset in Hpre.
  apply wp_bind, wp_mdb. rewrite Hcur. destruct (crinitTaskIsReady (sl_task sl)) eqn:Hr.
  2:{ eapply wp_mono; [intros r s'; by eapply spawn_result_skip|]. apply IH; [done|lia|].
      rewrite Hpre. symmetry. apply list_insert_id. unfold start_slot, start. rewrite Hr. by destruct sl. }
  apply wp_bind, wp_modify_db. intros s1 Hf1 Hdb1. unfold upd_task in Hdb1.
  destruct sl as [m t]. rewrite (alter_slot _ _ _ _ _ Hcur) in Hdb1. simpl in *.
  apply wp_bind. eapply wp_mono; [|apply spawn_ok; by apply Hf1].
  intros r s2 (Hdb2 & Hi2 & Hq2 & [[-> Hth]|[-> Hth]]); simpl.
  - eapply wp_mono; [intros r s'; eapply (spawn_result_start _ _ _ _ _ s2); try done|].
    + intros Hq. by apply Hq2, Hf1.
    + rewrite Hdb2, Hdb1. eauto.
    + rewrite Hth. by rewrite (proj1 Hf1).
    + apply IH; [done|lia|]. rewrite Hpre, Hdb2, Hdb1. simpl. unfold start_slot, start. simpl. by rewrite Hr.
  - apply wp_bind, wp_modify_db. intros s3 Hf3 Hdb3. apply wp_ret.
    split_and!; [by apply Hf3| |right; split; [done|]].
    { intros Hq. apply Hf1 in Hq. by destruct (Hq2 Hq). }
    exists i, (mkSlot m t). rewrite Nat.sub_diag. split_and!; [done..| |].
    + rewrite Hdb3, Hdb2, Hdb1. unfold upd_task. cbn [taskSet set_taskSet]. rewrite Hset.
      rewrite (alter_slot _ i m (set_t_state CRINIT_TASK_STATE_STARTING t)
                 (λ t, set_t_state (t_state t &~ CRINIT_TASK_STATE_STARTING) t))
        by (rewrite list_lookup_insert_eq; [done|rewrite <- Hset; by eapply lookup_lt_Some]).
      rewrite list_insert_insert_eq, insert_app_r_alt by lia.
      rewrite Hlen, Nat.sub_diag, (drop_S _ _ _ Hsl). unfold spawn_failed.
      rewrite (drop_S _ _ _ Hsl). done.
    + rewrite (proj1 Hf3), Hth, (proj1 Hf1). simpl. by rewrite app_nil_r.
Qed.

Lemma ready_from_prefix i k l : ready_from i (take k l) `prefix_of` ready_from i l.
Proof.
  revert i k. induction l as [|sl l IH]; intros i [|k]; simpl; try apply prefix_nil.
  case_if; [apply prefix_cons|]; apply IH.
Qed.

(** Slots with the same name and memory: replacing one by the other keeps the
    database in order. *)
Definition similar (a b : slot) : Prop :=
  sl_mem a = sl_mem b ∧ t_name (sl_task a) = t_name (sl_task b) ∧
  (task_ok (sl_task a) → task_ok (sl_task b)).

Lemma db_ok_similar d l' :
  db_ok d → Forall2 similar (taskSet d) l' → db_ok (set_taskSet l' d).
Proof.
  intros [Hm Hr Hl Hn Ht] Hsim. split; simpl.
  - done.
  - by rewrite <- (Forall2_length _ _ _ Hsim).
  - clear Hn Ht Hr. induction Hsim as [|a b l l' (Hab & _) _ IH]; inversion_clear Hl; constructor; auto.
    unfold live in *. congruence.
  - replace (map (t_name ∘ sl_task) l') with (map (t_name ∘ sl_task) (taskSet d)); [done|].
    clear Hn Ht Hr Hl. induction Hsim as [|a b l l' (_ & Hab & _) _ IH]; [done|]. simpl. by f_equal.
  - clear Hn Hl Hr. induction Hsim as [|a b l l' (_ & _ & Hab) _ IH]; inversion_clear Ht; constructor; auto.
Qed.

(** Slots that differ in the state of the task alone. *)
Definition only_state (a b : slot) : Prop := ∃ st, b = mkSlot (sl_mem a) (set_t_state st (sl_task a)).

Lemma only_state_refl l : Forall2 only_state l l.
Proof. apply Forall_Forall2_diag, Forall_true. intros [m t]. exists (t_state t). by destruct t. Qed.

Lemma started_only_state l : Forall2 only_state l (start_slot <$> l).
Proof.
  apply Forall2_fmap_r, Forall_Forall2_diag, Forall_true. intros [m t]. unfold start_slot, start, only_state.
  simpl. case_if; [eauto|]. exists (t_state t). by destruct t.
Qed.

Lemma spawn_failed_only_state k l : Forall2 only_state l (spawn_failed k l).
Proof.
  unfold spawn_failed. replace (Datatypes.S k) with (k + 1)%nat by lia. rewrite <- drop_drop.
  rewrite <- (take_drop k l) at 1. apply Forall2_app; [apply started_only_state|].
  destruct (drop k l) as [|sl l'] eqn:E; simpl; [constructor|].
  constructor; [by eexists|apply only_state_refl].
Qed.

Lemma only_state_map d d' name t' :
  Forall2 only_state (taskSet d) (taskSet d') → db_map d' !! name = Some t' →
  ∃ t st, db_map d !! name = Some t ∧ t' = set_t_state st t.
Proof.
  unfold db_map. intros Hall. induction Hall as [|a b l l' [st ->] _ IH]; simpl; [done|].
  destruct (decide (t_name (sl_task a) = name)) as [<-|Hne].
  - rewrite !lookup_insert_eq. intros [= <-]. eauto.
  - rewrite !lookup_insert_ne by done. apply IH.
Qed.

Lemma only_state_similar a b : only_state a b → similar a b.
Proof. intros [st ->]. unfold similar. split_and!; [done|done|by intros []]. Qed.

(** What crinitTaskDBSpawnReady() promises. *)
Record spawn_spec (mode : crinitDispatchThreadMode) (s : S) (r : Z) (s' : S) : Prop := {
  sp_code : r = 0 ∨ r = -1;
  sp_stable : stable s';
  sp_quiet : quiet s → quiet s';
  sp_states : Forall2 only_state (taskSet (get_db s)) (taskSet (get_db s'));
  sp_all : spawnInhibit (get_db s) = false → spawnFunc (get_db s) = true → r = 0 →
    get_db s' = set_taskSet (start_slot <$> taskSet (get_db s)) (get_db s) ∧
    threads s' = threads s ++ spawned (get_db s) mode (ready_from 0 (taskSet (get_db s)));
  sp_result : spawnInhibit (get_db s) = false → spawnFunc (get_db s) = true → quiet s → r = 0;
  sp_none : spawnInhibit (get_db s) = true ∨ spawnFunc (get_db s) = false →
    get_db s' = get_db s ∧ threads s' = threads s;
  sp_only_ready : ∃ idxs, idxs `prefix_of` ready_from 0 (taskSet (get_db s)) ∧
    threads s' = threads s ++ spawned (get_db s) mode idxs;
}.

Lemma spawn_nothing mode s r s' :
  stable s → frame s s' → get_db s' = get_db s →
  r = 0 ∨ r = -1 →
  (spawnInhibit (get_db s) = false → spawnFunc (get_db s) = true → r ≠ 0 ∧ ¬ quiet s) →
  spawn_spec mode s r s'.
Proof.
  intros Hst Hf Hdb Hc Hr. split; [done|by eapply stable_same|apply Hf|rewrite Hdb; apply only_state_refl| | | |].
  - intros Hi Hs ->. by destruct (Hr Hi Hs).
  - intros Hi Hs Hq. by destruct (Hr Hi Hs).
  - intros _. split; [done|apply Hf].
  - exists []. split; [apply prefix_nil|]. simpl. rewrite app_nil_r. apply Hf.
Qed.

Lemma spawn_done mode s s1 r s2 s3 :
  stable s → frame s s1 → get_db s1 = set_locked true (get_db s) →
  spawnInhibit (get_db s) = false → spawnFunc (get_db s) = true →
  spawn_result mode 0 (taskSet (get_db s)) s1 r s2 →
  frame s2 s3 → get_db s3 = set_locked false (get_db s2) → spawn_spec mode s r s3.
Proof.
  intros [Hok Hu Hi] Hs1 Hdb1 Hinh Hfun (Hi2 & Hq2 & Hres) Hs3 Hdb3.
  rewrite drop_0, Hdb1, (proj1 Hs1) in Hres.
  assert (∀ l', Forall2 only_state (taskSet (get_db s)) l' →
    get_db s2 = set_taskSet l' (set_locked true (get_db s)) →
    stable s3 ∧ get_db s3 = set_taskSet l' (get_db s)) as Hst3.
  { intros l' Hsim Hdb2. assert (get_db s3 = set_taskSet l' (get_db s)) as E.
    { rewrite Hdb3, Hdb2. unfold set_taskSet, set_locked. simpl. by rewrite Hu. }
    split; [|done]. eapply stable_intro; [by apply Hs3|done| |done].
    apply db_ok_similar; [done|]. eapply Forall2_impl; [done|]. apply only_state_similar. }
  assert (quiet s → quiet s3) as Hq3 by (intros Hq; by apply Hs3, Hq2, Hs1).
  destruct Hres as [(-> & Hdb & Hth)|(-> & k & sl & _ & Hk & Hr & Hdb & Hth)].
  - destruct (Hst3 _ (started_only_state _) Hdb) as [Hst E].
    split; [by left|done|exact Hq3|rewrite E; apply started_only_state|by rewrite (proj1 Hs3)|done|rewrite Hinh, Hfun; by intros []|].
    exists (ready_from 0 (taskSet (get_db s))). split; [done|]. by rewrite (proj1 Hs3).
  - rewrite Nat.sub_0_r in Hth. destruct (Hst3 _ (spawn_failed_only_state _ _) Hdb) as [Hst E].
    split; [by right|done|exact Hq3|rewrite E; apply spawn_failed_only_state|done| |rewrite Hinh, Hfun; by intros []|].
    + intros _ _ Hq. apply Hs1 in Hq. by destruct (Hq2 Hq).
    + eexists. split; [apply ready_from_prefix|]. by rewrite (proj1 Hs3).
Qed.

Lemma wp_spawnready mode s :
  stable s → wp (crinitTaskDBSpawnReady mode) (spawn_spec mode s) s.
Proof.
  intros Hst. pose proof Hst as [Hok Hu Hi].
  unfold crinitTaskDBSpawnReady. apply wp_bind, wp_lock; [apply Hok|done| |].
  { intros s1 Hs1 Hdb1 Hq. simpl. apply wp_ret, spawn_nothing; [done..|by right|done]. }
  intros s1 Hs1 Hdb1. simpl. apply wp_bind, wp_mdb. rewrite Hdb1. simpl.
  assert (∀ r, r = 0 ∨ r = -1 → spawnInhibit (get_db s) = true ∨ spawnFunc (get_db s) = false →
    wp (unlock_db ;; mret r) (spawn_spec mode s) s1) as Hback.
  { intros r Hc Hno. apply wp_bind, wp_unlock; [by rewrite Hdb1|]. intros s2 Hs2 Hdb2.
    apply wp_ret, spawn_nothing; [done|by etrans| |done|intros ??; naive_solver congruence].
    rewrite Hdb2, Hdb1. by apply unlock_lock. }
  destruct (spawnInhibit (get_db s)) eqn:Hinh; [apply Hback; by left|].
  destruct (spawnFunc (get_db s)) eqn:Hfun; simpl; [|apply Hback; by right].
  apply wp_bind. eapply wp_mono; [|apply (wp_spawn_from _ _ _ (taskSet (get_db s)));
    [by apply Hs1|lia|by rewrite Hdb1, take_0, drop_0]].
  intros r s2 Hres. apply wp_bind, wp_unlock.
  { destruct Hres as (_ & _ & [(_ & -> & _)|(_ & k & sl & _ & _ & _ & -> & _)]); by rewrite Hdb1. }
  intros s3 Hs3 Hdb3. apply wp_ret. by eapply spawn_done.
Qed.

(** *** Inserting *)

Lemma dup_quiet t s : task_ok t → idle s → quiet s → crinitTaskDup t s = Ret (Some t) s.
Proof.
  intros Hok Hi Hq. unfold crinitTaskDup, mbind, M_bind. rewrite fallible_quiet by done.
  by destruct (benign_quiet _ _ s (benign_copy t Hok) Hi Hq) as (r & -> & ->).
Qed.

Lemma db_map_push d t :
  db_ok d → db_find (t_name t) d = None →
  db_map (push_slot (mkSlot Live t) d) = <[t_name t := t]> (db_map d).
Proof.
  intros Hok Hn. unfold db_map, push_slot. simpl. rewrite fmap_app, list_to_map_app. simpl.
  rewrite <- insert_union_r, map_union_empty; [done|]. by apply (db_map_find_None d).
Qed.

Lemma db_ok_push d t :
  db_ok d → db_find (t_name t) d = None → task_ok t →
  Z.of_nat (length (taskSet d)) < taskSetSize d → db_ok (push_slot (mkSlot Live t) d).
Proof.
  intros [Hm Hr Hl Hn Ht] Hf Hok Hlt. unfold push_slot. split; simpl.
  - done.
  - rewrite length_app. simpl. lia.
  - by apply Forall_app_2, Forall_singleton.
  - rewrite map_app. simpl. apply NoDup_app. split_and!; [done| |apply NoDup_singleton].
    intros x Hx ->%list_elem_of_singleton. apply list_elem_of_fmap in Hx as (sl & Hname & Hsl).
    unfold db_find in Hf. rewrite index_of_None in Hf. specialize (Hf _ Hsl).
    unfold named in Hf. apply str_eqb_false in Hf. done.
  - by apply Forall_app_2, Forall_singleton.
Qed.

(** The database with [t] in it: stable but for the lock. *)
Definition holds (d : crinitTaskDB) (t : crinitTask) (d' : crinitTaskDB) : Prop :=
  db_ok d' ∧ db_map d' = <[t_name t := t]> (db_map d).

(** The slot an insert fills, in a database that is otherwise as before:
    writing the copy there completes it. *)
Definition prepared (d : crinitTaskDB) (t : crinitTask) (i : nat) (d' : crinitTaskDB) : Prop :=
  locked d' = true ∧ (i < length (taskSet d'))%nat ∧
  holds d t (set_slot i (mkSlot Live t) d').

Lemma prepared_overwrite d t i t0 :
  db_ok d → task_ok t → taskSet d !! i = Some (mkSlot Live t0) → t_name t0 = t_name t →
  prepared d t i (set_slot i (mkSlot Dangling t0) (set_locked true d)).
Proof.
  intros Hok Ht Hi Hn. unfold prepared. split_and!; simpl; [done| |].
  { rewrite length_insert. by eapply lookup_lt_Some. }
  unfold holds, set_slot. simpl. rewrite list_insert_insert_eq.
  pose proof (db_ok_insert_slot d i t0 t Hok Hi ltac:(done) Ht) as Hok'.
  pose proof (db_map_insert_slot d i t0 t Hok Hi ltac:(done)) as Hm. rewrite <- Hn.
  split; [by destruct Hok'|done].
Qed.

Lemma prepared_push d d0 t :
  db_ok d → task_ok t → db_find (t_name t) d = None →
  taskSet d0 = taskSet d → mutex_ok d0 = true → locked d0 = true →
  1 ≤ taskSetSize d0 → Z.of_nat (length (taskSet d)) < taskSetSize d0 →
  prepared d t (length (taskSet d)) (push_slot (mkSlot Cleared t) d0).
Proof.
  intros Hok Ht Hf Hset Hm Hl Hge Hlt. unfold prepared. split_and!; simpl; [done| |].
  { rewrite Hset, length_app. simpl. lia. }
  assert (set_slot (length (taskSet d)) (mkSlot Live t) (push_slot (mkSlot Cleared t) d0) =
          push_slot (mkSlot Live t) d0) as ->.
  { unfold set_slot, push_slot. simpl. rewrite Hset, insert_app_r_alt, Nat.sub_diag by lia. done. }
  assert (db_ok d0) as Hok0.
  { destruct Hok. split; rewrite ?Hset; try done. lia. }
  unfold holds. assert (db_map d0 = db_map d) as <- by (unfold db_map; by rewrite Hset).
  assert (db_find (t_name t) d0 = None) as Hf0 by (unfold db_find; by rewrite Hset).
  split; [apply db_ok_push; [done..|by rewrite Hset]|by apply db_map_push].
Qed.

(** What crinitTaskDBInsert() promises for a well-formed task. *)
Inductive insert_spec (t : crinitTask) (overwrite : bool) (s : S) (r : Z) (s' : S) : Prop :=
| ins_done :
    r = 0 → stable s' → holds (get_db s) t (get_db s') →
    overwrite = true ∨ db_map (get_db s) !! t_name t = None →
    changed (get_db s') = Datatypes.S (changed (get_db s)) → insert_spec t overwrite s r s'
| ins_refused :
    r = -1 → stable s' → get_db s' = get_db s →
    (quiet s → overwrite = false ∧ is_Some (db_map (get_db s) !! t_name t)) →
    insert_spec t overwrite s r s'
| ins_hook_failed :
    r = -1 → holds (get_db s) t (get_db s') →
    overwrite = true ∨ db_map (get_db s) !! t_name t = None →
    locked (get_db s') = false → insert_spec t overwrite s r s'
| ins_copy_failed i sl :
    r = -1 → ¬ quiet s → taskSet (get_db s') !! i = Some sl → sl_mem sl ≠ Live →
    locked (get_db s') = false → idle s' → insert_spec t overwrite s r s'.

Lemma wp_hook name ty data (Q : Z → S → Prop) s :
  idle s →
  (∀ r s', get_db s' = get_db s → threads s' = threads s → (quiet s → quiet s') →
     (r ≠ -1 → idle s') → Q r s') →
  wp (crinitFeatureHook name ty data) Q s.
Proof.
  intros Hi HQ. eapply wp_mono; [|by apply hook_ok]. intros r s' (? & ? & ? & ?). by apply HQ.
Qed.

Lemma wp_copy t (Q : copy_result → S → Prop) s :
  task_ok t → idle s →
  (∀ s', frame s s' → get_db s' = get_db s → Q (Copied t) s') →
  (∀ a b s', frame s s' → get_db s' = get_db s → ¬ quiet s → Q (CopyFailed a b) s') →
  wp (crinitTaskCopy t) Q s.
Proof.
  intros Ht Hi Hc Hf.
  destruct (wp_elim _ _ _ (benign_copy t Ht s Hi)) as (r & s' & Hr & Hs' & Hq).
  eapply wp_intro; [done|]. pose proof (wlp_elim _ _ _ _ _ (copied_same t s Ht) Hr) as Hsame.
  destruct r as [t'|a b].
  - rewrite (Hsame t') by done. apply Hc; [by apply frame_faults|by apply db_only_faults].
  - apply Hf; [by apply frame_faults|by apply db_only_faults|]. intros Hs. by specialize (Hq Hs I).
Qed.

(** With the stop commands of the task not freed when nothing fails. *)
Definition inserted (t : crinitTask) (overwrite : bool) (s : S) (r : Z * bool) (s' : S) : Prop :=
  insert_spec t overwrite s r.1 s' ∧ (quiet s → r.2 = false ∧ quiet s').

(** The part of the insert that fills a prepared slot. *)
Lemma wp_fill t overwrite i s s1 :
  stable s → task_ok t → frame s s1 → prepared (get_db s) t i (get_db s1) →
  changed (get_db s1) = changed (get_db s) →
  overwrite = true ∨ db_map (get_db s) !! t_name t = None →
  wp (r ← crinitTaskCopy t;
      match r with
      | CopyFailed name_set stop_freed =>
          mdb_modify (set_slot i (mkSlot (if name_set || stop_freed then Dangling else Cleared) t)) ;;
          unlock_db ;; mret (-1, stop_freed)
      | Copied t' =>
          mdb_modify (set_slot i (mkSlot Live t')) ;;
          _ ← crinitElosLog ELOS_SEVERITY_INFO ELOS_MSG_CODE_FILE_OPENED ELOS_CLASSIFICATION_PROCESS (t_name t');
          d ← mdb;
          rc ← crinitFeatureHook None CRINIT_HOOK_TASK_ADDED (HookTask (gen d, i));
          if rc =? -1 then unlock_db ;; mret (-1, false) else
          broadcast ;; unlock_db ;; mret (0, false)
      end) (inserted t overwrite s) s1.
Proof.
  intros Hst Ht Hf1 (Hl & Hlen & Hok & Hmap) Hch Hov.
  assert (idle s1) as Hi1 by (by apply Hf1, Hst).
  apply wp_bind, wp_copy; [done|done| |].
  - intros s2 Hf2 Hdb2. apply wp_bind, wp_modify_db. intros s3 Hf3 Hdb3. rewrite Hdb2 in Hdb3.
    apply wp_bind, wp_elosLog; [by apply Hf3, Hf2|]. intros r4 s4 Hf4 Hdb4. rewrite Hdb3 in Hdb4.
    apply wp_bind, wp_mdb, wp_bind, wp_hook; [by apply Hf4, Hf3, Hf2|].
    intros rc s5 Hdb5 Hth5 Hq5 Hid5. rewrite Hdb4 in Hdb5.
    assert (holds (get_db s) t (set_locked false (get_db s5))) as Hholds.
    { rewrite Hdb5. split; [by apply db_ok_locked|done]. }
    destruct (Z.eqb_spec rc (-1)) as [->|Hrc].
    + apply wp_bind, wp_unlock; [by rewrite Hdb5|]. intros s6 Hf6 Hdb6. apply wp_ret.
      split; [|intros Hq; split; [done|by apply Hf6, Hq5, Hf4, Hf3, Hf2, Hf1]].
      apply ins_hook_failed; simpl; [done|by rewrite Hdb6|done|by rewrite Hdb6].
    + apply wp_bind, wp_modify_db. intros s6 Hf6 Hdb6.
      apply wp_bind, wp_unlock; [by rewrite Hdb6, Hdb5|]. intros s7 Hf7 Hdb7. apply wp_ret.
      assert (get_db s7 = add_changed (set_locked false (get_db s5))) as E by by rewrite Hdb7, Hdb6.
      split; [|intros Hq; split; [done|by apply Hf7, Hf6, Hq5, Hf4, Hf3, Hf2, Hf1]].
      apply ins_done; simpl; [done| | |done|by rewrite E, Hdb5; simpl; rewrite Hch].
      * eapply stable_intro; [by apply Hf7, Hf6, Hid5|done|by apply db_ok_changed, Hholds|done].
      * rewrite E. destruct Hholds. split; [by apply db_ok_changed|done].
  - intros a b s2 Hf2 Hdb2 Hnq. apply wp_bind, wp_modify_db. intros s3 Hf3 Hdb3. rewrite Hdb2 in Hdb3.
    apply wp_bind, wp_unlock; [by rewrite Hdb3|]. intros s4 Hf4 Hdb4. rewrite Hdb3 in Hdb4. apply wp_ret.
    split; [|intros Hq; by destruct Hnq; apply Hf1].
    eapply (ins_copy_failed _ _ _ _ _ i); simpl.
    + done.
    + intros Hq. by apply Hnq, Hf1.
    + rewrite Hdb4. simpl. by apply list_lookup_insert_eq.
    + simpl. by case_if.
    + by rewrite Hdb4.
    + by apply Hf4, Hf3, Hf2.
Qed.

Lemma wp_insert t overwrite s :
  stable s → task_ok t →
  wp (crinitTaskDBInsert t overwrite) (inserted t overwrite s) s.
Proof.
  intros Hst Ht. pose proof Hst as [Hok Hu Hi]. unfold crinitTaskDBInsert.
  apply wp_bind, wp_lock; [apply Hok|done| |].
  { intros s1 Hf1 Hdb1 Hnq. simpl. apply wp_ret. split; [|done].
    apply ins_refused; simpl; [done|by eapply stable_same|done|]. by intros ?%Hnq. }
  intros s1 Hf1 Hdb1. simpl. apply wp_bind, wp_find; [rewrite Hdb1; apply Hok|]. rewrite Hdb1.
  change (db_find ?n (set_locked true (get_db s))) with (db_find n (get_db s)).
  assert (∀ s2, frame s s2 → get_db s2 = set_locked true (get_db s) →
    (quiet s → overwrite = false ∧ is_Some (db_map (get_db s) !! t_name t)) →
    wp (unlock_db ;; mret (-1, false)) (inserted t overwrite s) s2) as Hrefuse.
  { intros s2 Hf2 Hdb2 Hq. apply wp_bind, wp_unlock; [by rewrite Hdb2|]. intros s3 Hf3 Hdb3.
    rewrite Hdb2, unlock_lock in Hdb3 by done.
    apply wp_ret. split; [|intros Hqs; split; [done|by apply Hf3, Hf2]].
    apply ins_refused; simpl; [done| |done|done]. eapply stable_same; [done|by etrans|done]. }
  destruct (db_find (t_name t) (get_db s)) as [i|] eqn:E.
  - destruct (db_find_Some _ _ _ (db_live _ Hok) E) as (t0 & Hslot & Hname).
    rewrite bool_decide_eq_true_2 by done. destruct overwrite; simpl.
    2:{ apply Hrefuse; [done|done|]. intros _. split; [done|]. exists t0. rewrite <- Hname.
        by eapply db_map_slot. }
    apply wp_bind, wp_bind, wp_mdb. rewrite Hdb1. simpl. rewrite Hslot.
    apply wp_bind. eapply wp_mono; [|apply (benign_destroy True); by apply Hf1].
    intros [] s2 [Hof _]. pose proof (db_only_faults _ _ Hof) as Hdb2. apply frame_faults in Hof.
    apply wp_modify_db. intros s3 Hf3 Hdb3. rewrite Hdb2, Hdb1 in Hdb3.
    apply wp_bind, wp_ret. apply wp_fill; [done|done|by repeat (etrans; [eassumption|])| | |by left].
    + rewrite Hdb3. by apply prepared_overwrite.
    + by rewrite Hdb3.
  - rewrite bool_decide_eq_false_2 by (by intros []). simpl.
    pose proof (proj1 (db_find_None_map _ _ Hok) E) as Hnone.
    apply wp_bind, wp_ret, wp_bind. unfold insert_slot. apply wp_bind, wp_mdb. rewrite Hdb1. simpl.
    destruct (Z.eqb_spec (Z.of_nat (length (taskSet (get_db s)))) (taskSetSize (get_db s))) as [Hfull|Hroom].
    + apply wp_bind, wp_fallible_frame. intros [] s2 Hf2 Hdb2 Hq2.
      { apply wp_ret, Hrefuse; [by etrans|congruence|]. intros Hq. apply Hf1 in Hq. by specialize (Hq2 Hq). }
      apply wp_bind, wp_modify_db. intros s3 Hf3 Hdb3. apply wp_bind, wp_modify_db. intros s4 Hf4 Hdb4.
      rewrite Hdb3, Hdb2, Hdb1 in Hdb4.
      apply wp_ret, wp_fill; [done|done|by repeat (etrans; [eassumption|])| |by rewrite Hdb4|by right].
      rewrite Hdb4. destruct (db_room _ Hok).
      apply prepared_push; simpl; [done..|apply Hok|done|lia|lia].
    + apply wp_bind, wp_modify_db. intros s4 Hf4 Hdb4. rewrite Hdb1 in Hdb4.
      apply wp_ret, wp_fill; [done|done|by repeat (etrans; [eassumption|])| |by rewrite Hdb4|by right].
      rewrite Hdb4. destruct (db_room _ Hok).
      apply prepared_push; simpl; [done..|apply Hok|done|lia|lia].
Qed.

(** *** Features *)

(** A dependency no task of the database waits for. *)
Definition gone (dep : crinitTaskDep) (d : crinitTaskDB) : Prop :=
  Forall (λ sl, dep ∉ t_deps (sl_task sl)) (taskSet d).
Definition deps_unique (d : crinitTaskDB) : Prop :=
  Forall (λ sl, NoDup (t_deps (sl_task sl))) (taskSet d).

Lemma gone_fulfil dep d : deps_unique d → gone dep (set_taskSet (fulfil_slot dep <$> taskSet d) d).
Proof.
  intros Hu. unfold gone. simpl. apply Forall_fmap. eapply Forall_impl; [exact Hu|].
  intros sl Hnd. by apply remove_dep_gone.
Qed.

Lemma gone_fulfil_other dep dep' d :
  gone dep d → gone dep (set_taskSet (fulfil_slot dep' <$> taskSet d) d).
Proof.
  intros Hg. unfold gone. simpl. apply Forall_fmap. eapply Forall_impl; [exact Hg|].
  intros sl Hn Hin. apply Hn. simpl in Hin. unfold remove_dep in Hin.
  eapply elem_of_submseteq; [done|apply remove_pure_submseteq].
Qed.

Lemma deps_unique_fulfil dep d : deps_unique d → deps_unique (set_taskSet (fulfil_slot dep <$> taskSet d) d).
Proof.
  intros Hu. unfold deps_unique. simpl. apply Forall_fmap. eapply Forall_impl; [exact Hu|].
  intros sl Hnd. by apply remove_dep_keeps_NoDup.
Qed.

Definition feature_dep (p : crinitTaskPrv) : crinitTaskDep := mkDep CRINIT_PROVIDE_DEP_NAME (prv_name p).

Lemma can_count_fulfil dep d : can_count d → can_count (set_taskSet (fulfil_slot dep <$> taskSet d) d).
Proof.
  intros Hc name t. rewrite db_map_fulfil, lookup_fmap. intros (t0 & Ht0 & ->)%fmap_Some. exact (Hc name t0 Ht0).
Qed.

Lemma wp_provide prv st s :
  stable s → deps_unique (get_db s) →
  wp (provide_loop prv st)
     (λ r s', db_ok (get_db s') ∧ locked (get_db s') = false ∧ threads s' = threads s ∧
        (r ≠ -1 → idle s') ∧ deps_unique (get_db s') ∧
        (∀ dep, gone dep (get_db s) → gone dep (get_db s')) ∧
        (r ≠ -1 → ∀ p, p ∈ prv → prv_stateReq p = st → gone (feature_dep p) (get_db s')) ∧ (quiet s → quiet s') ∧
        (can_count (get_db s) → can_count (get_db s'))) s.
Proof.
  revert s. induction prv as [|p prv IH]; intros s Hst Hu; simpl.
  { apply wp_ret. split_and!; try done; [apply Hst..|intros _; apply Hst|].
    intros _ p Hp. by apply elem_of_nil in Hp. }
  destruct (Z.eqb_spec (prv_stateReq p) st) as [Heq|Hne].
  - apply wp_bind. eapply wp_mono; [|by apply fulfill_spec].
    intros r s1 (Hst1 & Hf1 & [[-> Hdb1]|(-> & Hdb1 & _)]); simpl.
    2:{ apply wp_ret. rewrite Hdb1. split_and!; try done; try apply Hst; try lia; apply Hf1. }
    apply wp_bind, wp_hook; [apply Hst1|]. intros rc s2 Hdb2 Hth2 Hqu2 Hid2. rewrite Hdb1 in Hdb2.
    pose proof (deps_unique_fulfil (feature_dep p) _ Hu) as Hu2.
    assert (∀ dep, gone dep (get_db s) → gone dep (get_db s2)) as Hkeep.
    { intros dep Hg. rewrite Hdb2. by apply (gone_fulfil_other dep). }
    destruct Hst1 as [Hok1 Hl1 _]. rewrite Hdb1 in Hok1, Hl1.
    destruct (Z.eqb_spec rc (-1)) as [->|Hrc].
    { apply wp_ret. rewrite Hth2. split_and!; rewrite ?Hdb2; try done; try lia; [apply Hf1| |by intros Hq; apply Hqu2, Hf1|apply (can_count_fulfil (feature_dep p))].
      intros dep Hg. rewrite <- Hdb2. by apply Hkeep. }
    assert (stable s2) as Hst2 by (split; rewrite ?Hdb2; [done|done|by apply Hid2]).
    eapply wp_mono; [|apply IH; [done|by rewrite Hdb2]].
    intros r s3 (H1' & H2' & H3' & H4' & H5' & H6' & H7' & H8' & H9').
    split_and!; try done; [by rewrite H3', Hth2; apply Hf1|by intros dep ?; apply H6', Hkeep| |by intros Hq; apply H8', Hqu2, Hf1|].
    2:{ intros Hc. apply H9'. rewrite Hdb2. by apply (can_count_fulfil (feature_dep p)). }
    intros Hr q [->|Hq]%elem_of_cons Hreq; [|by apply H7'].
    apply H6'. rewrite Hdb2. by apply (gone_fulfil (feature_dep p)).
  - apply wp_bind, wp_hook; [apply Hst|]. intros rc s2 Hdb2 Hth2 Hqu2 Hid2.
    destruct (Z.eqb_spec rc (-1)) as [->|Hrc].
    { apply wp_ret. rewrite Hdb2. split_and!; try done; try apply Hst; lia. }
    assert (stable s2) as Hst2 by (split; rewrite ?Hdb2; [apply Hst|apply Hst|by apply Hid2]).
    eapply wp_mono; [|apply IH; [done|by rewrite Hdb2]].
    intros r s3 (H1' & H2' & H3' & H4' & H5' & H6' & H7' & H8' & H9').
    split_and!; try done; [by rewrite H3', Hth2|by rewrite <- Hdb2| |by intros Hq; apply H8', Hqu2|by rewrite <- Hdb2].
    intros Hr q [->|Hq]%elem_of_cons Hreq; [done|by apply H7'].
Qed.

(** *** Export *)

Lemma wp_export l (Q : list string * bool → S → Prop) s :
  Forall live l →
  (∀ s', frame s s' → get_db s' = get_db s → Q (t_name ∘ sl_task <$> l, false) s') →
  (∀ n s', frame s s' → get_db s' = get_db s → ¬ quiet s → Q (take n (t_name ∘ sl_task <$> l), true) s') →
  wp (export_names l) Q s.
Proof.
  intros Hl. revert Q s. induction Hl as [|sl l Hsl Hl IH]; intros Q s Hok Hbad; simpl.
  { by apply wp_ret, Hok. }
  rewrite Hsl. apply wp_bind, wp_fallible_frame. intros [] s1 Hf1 Hdb1 Hq1.
  { apply wp_ret, (Hbad 0%nat); [done|done|]. intros Hq. by specialize (Hq1 Hq). }
  apply wp_bind, IH.
  - intros s2 Hf2 Hdb2. apply wp_ret, Hok; [by etrans|congruence].
  - intros n s2 Hf2 Hdb2 Hq2. apply wp_ret, (Hbad (Datatypes.S n)); [by etrans|congruence|].
    intros Hq. by apply Hq2, Hf1.
Qed.

Lemma wp_export_names s :
  stable s →
  wp crinitTaskDBExportTaskNamesToArray
     (λ r s', frame s s' ∧ get_db s' = get_db s ∧
        let names := t_name ∘ sl_task <$> taskSet (get_db s) in
        (r = (0, Some names, []) ∨ ¬ quiet s ∧ ∃ leaked, r = (-1, None, leaked) ∧ leaked `prefix_of` names)) s.
Proof.
  intros Hst. pose proof Hst as [Hok Hu Hi]. unfold crinitTaskDBExportTaskNamesToArray.
  apply wp_bind, wp_lock; [apply Hok|done| |].
  { intros s1 Hf1 Hdb1 Hnq. simpl. apply wp_ret. split_and!; [done|done|right].
    split; [done|]. exists []. split; [done|apply prefix_nil]. }
  intros s1 Hf1 Hdb1. simpl. apply wp_bind, wp_fallible_frame. intros b s2 Hf2 Hdb2 Hq2. rewrite Hdb1 in Hdb2.
  assert (∀ s3 (r : Z * option (list string) * list string), frame s2 s3 → get_db s3 = get_db s2 →
    wp (unlock_db ;; mret r) (λ r' s', frame s s' ∧ get_db s' = get_db s ∧ r' = r) s3) as Hend.
  { intros s3 r Hf3 Hdb3. rewrite Hdb2 in Hdb3. apply wp_bind, wp_unlock; [by rewrite Hdb3|].
    intros s4 Hf4 Hdb4. rewrite Hdb3, unlock_lock in Hdb4 by done. apply wp_ret.
    split_and!; [by repeat (etrans; [eassumption|])|done|done]. }
  destruct b.
  { eapply wp_mono; [|by apply Hend]. intros r s' (? & ? & ->). split_and!; [done|done|right].
    split; [|exists []; split; [done|apply prefix_nil]]. intros Hq. apply Hf1 in Hq. by specialize (Hq2 Hq). }
  apply wp_bind, wp_mdb, wp_bind. rewrite Hdb2. apply wp_export; [apply Hok| |].
  - intros s3 Hf3 Hdb3. eapply wp_mono; [|by apply Hend]. intros r s' (? & ? & ->).
    split_and!; [done|done|by left].
  - intros n s3 Hf3 Hdb3 Hnq. eapply wp_mono; [|by apply Hend]. intros r s' (? & ? & ->).
    split_and!; [done|done|right]. split; [intros Hq; by apply Hnq, Hf2, Hf1|].
    eexists. split; [done|]. apply prefix_take.
Qed.

(** *** Access by name *)

Lemma getbyname_spec name s :
  stable s → quiet s →
  wp (crinitTaskDBGetTaskByName name)
     (λ r s', r = match db_map (get_db s) !! name with Some t => (0, Some t) | None => (-1, None) end ∧
        get_db s' = get_db s ∧ frame s s') s.
Proof.
  intros Hst Hq. apply wp_with_task; [done| |].
  { intros s' Hf Hdb Hn. by rewrite (db_map_find_None _ _ (Hn Hq)). }
  intros i t s1 Hf1 Hdb1 Hfind Hi Hname. apply wp_bind.
  eapply wp_intro; [apply dup_quiet; [by eapply find_ok|by apply Hf1, Hst|by apply Hf1]|].
  apply wp_bind, wp_unlock; [by rewrite Hdb1|]. intros s2 Hf2 Hdb2.
  rewrite Hdb1, unlock_lock in Hdb2 by apply Hst. apply wp_ret.
  rewrite <- Hname, (db_map_slot _ _ _ (st_ok _ Hst) Hi). split_and!; [done|done|by etrans].
Qed.

(** The task is borrowed with the mutex, and only if there is one. *)
Lemma borrow_spec name s :
  stable s → quiet s →
  wp (crinitTaskDBBorrowTask name)
     (λ r s', frame s s' ∧
        match r with
        | None => db_map (get_db s) !! name = None ∧ get_db s' = get_db s
        | Some p => ∃ t, db_map (get_db s) !! name = Some t ∧ get_db s' = set_locked true (get_db s) ∧
            deref p s' = Ret t s'
        end) s.
Proof.
  intros Hst Hq. pose proof Hst as [Hok Hu Hi]. unfold crinitTaskDBBorrowTask.
  apply wp_bind, wp_lock; [apply Hok|done|done|]. intros s1 Hf1 Hdb1.
  apply wp_bind, wp_find; [rewrite Hdb1; apply Hok|]. apply wp_bind, wp_mdb. rewrite Hdb1.
  change (db_find name (set_locked true (get_db s))) with (db_find name (get_db s)).
  destruct (db_find name (get_db s)) as [i|] eqn:E.
  - apply wp_ret. split; [done|]. destruct (db_find_Some _ _ _ (db_live _ Hok) E) as (t & Hslot & Hname).
    exists t. split_and!; [rewrite <- Hname; by eapply db_map_slot|done|].
    unfold deref. rewrite (bind_run mdb _ s1 (get_db s1) s1) by done. rewrite Hdb1. simpl.
    by rewrite Nat.eqb_refl, Hslot.
  - apply wp_bind, wp_unlock; [by rewrite Hdb1|]. intros s2 Hf2 Hdb2. rewrite Hdb1, unlock_lock in Hdb2 by done.
    apply wp_ret. split_and!; [by etrans|by apply db_map_find_None|done].
Qed.

(** Features are provided for a task that is there. *)
Lemma provide_by_name_spec name st t s :
  stable s → deps_unique (get_db s) → db_map (get_db s) !! name = Some t →
  wp (crinitTaskDBProvideFeatureByTaskName name st)
     (λ r s', db_ok (get_db s') ∧ locked (get_db s') = false ∧ (r ≠ -1 → idle s') ∧ deps_unique (get_db s') ∧
        (quiet s → quiet s') ∧ (can_count (get_db s) → can_count (get_db s'))) s.
Proof.
  intros Hst Hun Ht. pose proof Hst as [Hok Hu Hi]. unfold crinitTaskDBProvideFeatureByTaskName.
  apply wp_bind, wp_lock; [apply Hok|done| |].
  { intros s1 Hf1 Hdb1 _. simpl. apply wp_ret. rewrite Hdb1. split_and!; try done. apply Hf1. }
  intros s1 Hf1 Hdb1. simpl. apply wp_bind, wp_find; [rewrite Hdb1; apply Hok|]. rewrite Hdb1.
  change (db_find name (set_locked true (get_db s))) with (db_find name (get_db s)).
  destruct (db_find name (get_db s)) as [i|] eqn:E; [|apply db_find_None_map in E; [congruence|done]].
  destruct (db_find_Some _ _ _ (db_live _ Hok) E) as (t0 & Hslot & Hname).
  apply wp_bind, wp_mdb. rewrite Hdb1. simpl. apply wp_bind, wp_unlock; [by rewrite Hdb1|]. intros s2 Hf2 Hdb2.
  rewrite Hdb1, unlock_lock in Hdb2 by done. apply wp_bind. apply (wp_intro _ _ _ t0 s2).
  { unfold deref. rewrite (bind_run mdb _ s2 (get_db s2) s2) by done. rewrite Hdb2. simpl.
    by rewrite Nat.eqb_refl, Hslot. }
  eapply wp_mono; [|apply wp_provide; [eapply stable_same; [done|by etrans|done]|by rewrite Hdb2]].
  intros r s' (H1' & H2' & _ & H4' & H5' & _ & _ & H8' & H9'). rewrite Hdb2 in H9'. split_and!; try done.
  intros Hq. by apply H8', Hf2, Hf1.
Qed.
End OperationSpecs.

(** ** The invariant between the calls of different threads *)

(** What a thread leaves behind at every step, and what it finds again after
    other threads have run: a stable database in which no task lists a
    dependency twice and no failure counter is about to overflow. *)
Record orderly {S} `{TaskDBServices S} (s : S) : Prop := {
  ord_stable : stable s;
  ord_unique : deps_unique (get_db s);
}.
Definition calm {S} `{TaskDBServices S} (s : S) : Prop := orderly s ∧ can_count (get_db s).

Section Orderly.
Context {S : Type} `{TaskDBServices S}.
Implicit Types s : S.

(** What holds of every slot holds of every task of the map. *)
Lemma all_map (P : crinitTask → Prop) d :
  db_ok d → Forall (λ sl, P (sl_task sl)) (taskSet d) ↔ ∀ name t, db_map d !! name = Some t → P t.
Proof.
  intros Hok. rewrite Forall_lookup. split.
  - intros Hu name t (i & _ & Hi)%(db_find_map d name t Hok). apply (Hu _ _ Hi).
  - intros Hm i [m t] Hi. assert (m = Live) as ->.
    { pose proof (db_live _ Hok) as Hl. rewrite Forall_lookup in Hl. apply (Hl _ _ Hi). }
    apply (Hm (t_name t) t). by eapply db_map_slot.
Qed.

Lemma deps_unique_map d :
  db_ok d → deps_unique d ↔ ∀ name t, db_map d !! name = Some t → NoDup (t_deps t).
Proof. apply (all_map (λ t, NoDup (t_deps t))). Qed.

Lemma gone_map dep d :
  db_ok d → gone dep d ↔ ∀ name t, db_map d !! name = Some t → dep ∉ t_deps t.
Proof. apply (all_map (λ t, dep ∉ t_deps t)). Qed.

(** A call of which nothing but a stable database with this map is known. *)
Lemma orderly_map s :
  stable s → (∀ name t, db_map (get_db s) !! name = Some t → NoDup (t_deps t)) → orderly s.
Proof. intros Hst Hm. split; [done|]. apply deps_unique_map; [apply Hst|done]. Qed.

Lemma orderly_nodup s name t : orderly s → db_map (get_db s) !! name = Some t → NoDup (t_deps t).
Proof. intros [Hst Hu]. apply deps_unique_map; [apply Hst|done]. Qed.

Lemma orderly_frame s s' : orderly s → frame s s' → get_db s' = get_db s → orderly s'.
Proof. intros [Hst Hu] Hf E. split; [by eapply stable_same|by rewrite E]. Qed.

Lemma calm_frame s s' : calm s → frame s s' → get_db s' = get_db s → calm s'.
Proof. intros [Ho Hc] Hf E. split; [by eapply orderly_frame|by rewrite E]. Qed.

Lemma calm_faults s s' : calm s → only_faults s s' → calm s'.
Proof. intros Hc Hf. eapply calm_frame; [done|by apply frame_faults|by apply db_only_faults]. Qed.

(** Setting one task to [f t] where [f] keeps the dependencies. *)
Lemma updated_orderly name f s r s' :
  updated name f s r s' → (∀ t, t_deps (f t) = t_deps t) → orderly s → orderly s'.
Proof.
  intros (Hst & _ & Hres) Hf Ho. apply orderly_map; [done|].
  destruct Hres as [(_ & t & Ht & ->)|(_ & -> & _)]; [|by intros n t; apply orderly_nodup].
  intros n t' [[<- <-]|[_ Hl]]%lookup_insert_Some; [rewrite Hf|]; by eapply orderly_nodup.
Qed.

Lemma to_state_deps st ts t : t_deps (to_state st ts t) = t_deps t.
Proof. unfold to_state, state_change. by repeat case_if. Qed.

(** Setting one task to [f t] when the counter of [f t] cannot overflow. *)
Lemma updated_calm_at name f s r s' :
  updated name f s r s' → (∀ t, t_deps (f t) = t_deps t) →
  (∀ t, t_failCount t < INT_MAX → t_failCount (f t) < INT_MAX) → calm s → calm s'.
Proof.
  intros Hup Hf Hc [Ho Hn]. split; [by eapply updated_orderly|].
  destruct Hup as (_ & _ & [(_ & t & Ht & E)|(_ & E & _)]); [|by rewrite E].
  intros n t' Hl. rewrite E in Hl. apply lookup_insert_Some in Hl as [[<- <-]|[_ Hl]]; [apply Hc|]; by eapply Hn.
Qed.

Lemma updated_calm name f s r s' :
  updated name f s r s' → (∀ t, t_deps (f t) = t_deps t) → (∀ t, t_failCount (f t) = t_failCount t) →
  calm s → calm s'.
Proof. intros Hup Hf Hc. eapply updated_calm_at; [done|done|]. intros t. by rewrite Hc. Qed.

Lemma fulfil_calm dep s s' :
  stable s' → get_db s' = add_changed (set_taskSet (fulfil_slot dep <$> taskSet (get_db s)) (get_db s)) →
  calm s → calm s'.
Proof.
  intros Hst E [[_ Hu] Hc]. split; [split; [done|rewrite E; by apply (deps_unique_fulfil dep)]|].
  rewrite E. by apply (can_count_fulfil dep).
Qed.
End Orderly.
