(* ===== verification/TaskDBProps.v ===== *)
(** * Properties of the task database (src/taskdb.c)

    Readiness, spawning, respawn limits, insertion and lookup as a refinement
    of a finite map, dependencies and features, and the places where the
    database leaves its contract.  At the end a small state with every optional
    feature off, in which the hypotheses of the theorems are met. *)

From Stdlib Require Import ZArith Lia Bool List String Ascii.
From stdpp Require Import base list strings gmap.
From S2P Require Import Prelude EnvSet Timer Task TaskDB TaskDBSpec.

Open Scope Z_scope.
Open Scope crinit_scope.

(** ** Readiness *)

(** A task is ready exactly if nothing is left of its dependencies, its
    trigger has fired, it is neither starting nor running, its respawning is
    not inhibited and, if it has run before, it is to be respawned and has not
    used up its retries. *)
Theorem crinitTaskIsReady_spec t :
  crinitTaskIsReady t = true ↔
  t_deps t = [] ∧ t_triggered t = true ∧
  Z.land (t_state t) 3 = 0 ∧
  (t_opts t &? CRINIT_TASK_OPT_RESPAWN = true → t_inhibitRespawn t = false) ∧
  (Z.land (t_state t) 12 ≠ 0 →
   t_opts t &? CRINIT_TASK_OPT_RESPAWN = true ∧
   (t_maxRetries t = -1 ∨ t_failCount t ≤ t_maxRetries t)).
Proof.
  unfold crinitTaskIsReady. change (Z.lor CRINIT_TASK_STATE_RUNNING CRINIT_TASK_STATE_STARTING) with 3.
  change (Z.lor CRINIT_TASK_STATE_FAILED CRINIT_TASK_STATE_DONE) with 12.
  unfold has_bits at 1 3. destruct (t_deps t) as [|d ds]; simpl; [|naive_solver].
  destruct (t_triggered t); simpl; [|naive_solver].
  destruct (Z.eqb_spec (Z.land (t_state t) 3) 0); simpl; [|naive_solver].
  destruct (t_opts t &? CRINIT_TASK_OPT_RESPAWN), (t_inhibitRespawn t); simpl;
    try solve [naive_solver];
    destruct (Z.eqb_spec (Z.land (t_state t) 12) 0); simpl; try solve [naive_solver].
  destruct (Z.eqb_spec (t_maxRetries t) (-1)), (Z.ltb_spec (t_maxRetries t) (t_failCount t)); simpl;
    naive_solver lia.
Qed.

(** [n] failures in a row, at the times [ts]. *)
Fixpoint failures (ts : list timespec) (t : crinitTask) : crinitTask :=
  match ts with
  | [] => t
  | x :: ts => failures ts (to_state CRINIT_TASK_STATE_FAILED x t)
  end.

Lemma failures_spec ts t :
  t_failCount t + Z.of_nat (length ts) < INT_MAX →
  let t' := failures ts t in
  t_failCount t' = t_failCount t + Z.of_nat (length ts) ∧
  t_deps t' = t_deps t ∧ t_triggered t' = t_triggered t ∧ t_opts t' = t_opts t ∧
  t_inhibitRespawn t' = t_inhibitRespawn t ∧ t_maxRetries t' = t_maxRetries t ∧
  (ts ≠ [] → t_state t' = CRINIT_TASK_STATE_FAILED).
Proof.
  revert t. induction ts as [|x ts IH]; intros t Hmax; simpl in *; [naive_solver lia|].
  assert (to_state CRINIT_TASK_STATE_FAILED x t =
          set_t_endTime x (set_t_failCount (t_failCount t + 1) (set_t_state CRINIT_TASK_STATE_FAILED t))) as E.
  { unfold to_state, state_change. simpl. destruct (Z.eqb_spec (t_failCount t) INT_MAX); [lia|done]. }
  rewrite E. destruct (IH (set_t_endTime x (set_t_failCount (t_failCount t + 1)
    (set_t_state CRINIT_TASK_STATE_FAILED t)))) as (H1 & H2 & H3 & H4 & H5 & H6 & H7); simpl in *; [lia|].
  split_and!; try done; [lia|]. intros _. destruct ts; [done|]. by apply H7.
Qed.


Section Theorems.
Context {S : Type} `{TaskDBServices S}.
Implicit Types s : S.

(** ** Spawning *)

(** C3: crinitTaskDBSpawnReady() never blocks or fails undefined on a stable
    database.  It starts threads only for ready tasks, in the order of the
    task set and at most one per task; when it reports success with spawning
    enabled it has started all of them and set exactly these to STARTING;
    with spawning inhibited it changes nothing. *)
Theorem crinitTaskDBSpawnReady_starts_ready mode s :
  stable s → wp (crinitTaskDBSpawnReady mode) (spawn_spec mode s) s.
Proof. apply wp_spawnready. Qed.

Lemma started_not_ready l i : ready_from i (start_slot <$> l) = [].
Proof.
  revert i. induction l as [|[m t] l IH]; intros i; simpl; [done|]. unfold start_slot, start. simpl.
  destruct (crinitTaskIsReady t) eqn:E; simpl; [|by rewrite E].
  assert (crinitTaskIsReady (set_t_state CRINIT_TASK_STATE_STARTING t) = false) as ->; [|apply IH].
  unfold crinitTaskIsReady. simpl. by repeat case_if.
Qed.

(** A task is not started twice: when spawning has succeeded, a second
    crinitTaskDBSpawnReady() starts nothing. *)
Theorem crinitTaskDBSpawnReady_once mode mode' s :
  stable s → spawnInhibit (get_db s) = false → spawnFunc (get_db s) = true →
  wp (crinitTaskDBSpawnReady mode) (λ r s1, r = 0 →
    wp (crinitTaskDBSpawnReady mode') (λ _ s2, threads s2 = threads s1) s1) s.
Proof.
  intros Hst Hi Hf. eapply wp_mono; [|by apply wp_spawnready]. intros r s1 Hsp ->.
  destruct (sp_all _ _ _ _ Hsp Hi Hf eq_refl) as [Hdb _].
  eapply wp_mono; [|apply wp_spawnready; apply Hsp]. intros r2 s2 Hsp2.
  destruct (sp_only_ready _ _ _ _ Hsp2) as (idxs & Hpre & ->).
  rewrite Hdb in Hpre. simpl in Hpre. rewrite started_not_ready in Hpre.
  apply prefix_nil_inv in Hpre as ->. apply app_nil_r.
Qed.

(** ** Insertion and lookup *)

(** C6: inserting a well-formed task into a stable database always returns
    with the database unlocked.  Success means that the map of tasks has
    gained the copy under its name, which was free unless overwriting was
    asked for, and that waiting threads are signalled; failure leaves the
    database as it was, or leaves the task inserted because a feature hook
    failed, or leaves a slot whose members are freed because the copy failed. *)
Theorem crinitTaskDBInsert_refines_insert t overwrite s :
  stable s → task_ok t →
  wp (crinitTaskDBInsert t overwrite) (λ r s', insert_spec t overwrite s r.1 s') s.
Proof. intros Hst Ht. eapply wp_mono; [|by apply wp_insert]. by intros r s' []. Qed.

(** A slot whose copy failed is never removed, and every operation that
    searches the task set for a name that is not found before it reads the
    freed name: undefined behaviour. *)
Theorem lookup_passes_failed_slot {A} name (dflt : A) found i sl s :
  mutex_ok (get_db s) = true → locked (get_db s) = false → quiet s →
  taskSet (get_db s) !! i = Some sl → sl_mem sl ≠ Live →
  (∀ j sl', (j < i)%nat → taskSet (get_db s) !! j = Some sl' → t_name (sl_task sl') ≠ name) →
  with_task name dflt found s = Undef.
Proof.
  intros Hm Hl Hq Hi Hmem Hpre.
  assert (∀ l k, l !! i = Some sl → (∀ j sl', (j < i)%nat → l !! j = Some sl' → t_name (sl_task sl') ≠ name) →
    ∀ s', find_slot (S := S) name k l s' = Undef) as Hfind.
  { clear Hi Hpre. induction i as [|i IH]; intros [|sl0 l] k Hi Hpre s'; simplify_eq/=.
    - destruct (sl_mem sl); done.
    - destruct (sl_mem sl0); try done. rewrite (proj2 (str_eqb_false name (t_name (sl_task sl0)))).
      + apply IH; [done|]. intros j sl' Hj. apply (Hpre (Datatypes.S j)). lia.
      + intros ->. by eapply (Hpre 0%nat); [lia|done|]. }
  unfold with_task, lock_db, mdb, mbind, M_bind. rewrite Hm. simpl. rewrite fallible_quiet by done.
  rewrite Hl. simpl. unfold crinitFindTask, mdb, mbind, M_bind. rewrite get_set_db. simpl.
  by rewrite Hfind.
Qed.

(** On a stable database, without failing system calls, looking up a name
    yields a copy of exactly the task the map has under it, and an error for
    names it does not have; nothing is changed. *)
Theorem crinitTaskDBGetTaskByName_refines_lookup name s :
  stable s → quiet s →
  wp (crinitTaskDBGetTaskByName name)
     (λ r s', r = match db_map (get_db s) !! name with Some t => (0, Some t) | None => (-1, None) end ∧
        get_db s' = get_db s ∧ threads s' = threads s) s.
Proof.
  intros Hst Hq. eapply wp_mono; [|by apply getbyname_spec]. intros r s' (Hr & Hdb & Hf).
  split_and!; [done|done|apply Hf].
Qed.

(** The state and the PID that have been set are read back, for the task
    they were set for, and no other task is affected. *)
Theorem task_state_pid_roundtrip st pid name t s :
  stable s → quiet s → db_map (get_db s) !! name = Some t → t_failCount t < INT_MAX →
  wp (_ ← crinitTaskDBSetTaskState st name; _ ← crinitTaskDBSetTaskPID pid name;
      crinitTaskDBGetTaskStateAndPID name)
     (λ r s', r = (0, (st, pid)) ∧
        ∀ name', name' ≠ name → db_map (get_db s') !! name' = db_map (get_db s) !! name') s.
Proof.
  intros Hst Hq Ht Hcnt. apply wp_bind. eapply wp_mono; [|apply setstate_spec; [done|naive_solver]].
  intros r1 s1 (ts & (Hst1 & Hf1 & [(_ & t1 & Ht1 & Hm1)|(_ & _ & Hno)]) & _);
    [|rewrite Hno in Ht by done; done].
  apply wp_bind. eapply wp_mono; [|by apply setpid_spec].
  intros r2 s2 (Hst2 & Hf2 & [(_ & t2 & Ht2 & Hm2)|(_ & _ & Hno)]).
  2:{ specialize (Hno ltac:(by apply Hf1)). by rewrite Hm1, lookup_insert_eq in Hno. }
  eapply wp_mono; [|by apply getter_spec].
  intros r3 s3 (Hf3 & Hdb3 & [(t3 & Ht3 & ->)|(_ & Hno)]).
  - rewrite Hdb3, Hm2, Hm1 in *. rewrite lookup_insert_eq in Ht2, Ht3. simplify_eq/=.
    split; [|intros n Hn; by rewrite !lookup_insert_ne].
    unfold to_state, state_change. simpl. repeat case_if; try done. bool_hyps. simpl in *. lia.
  - specialize (Hno ltac:(by apply Hf2, Hf1)). by rewrite Hm2, lookup_insert_eq in Hno.
Qed.

(** ** Dependencies *)


(** The removal loop does not look again at the element it moves into
    the gap: of a dependency that a task lists twice and as its last element,
    one stays, and the task does not become ready when it is fulfilled. *)
Theorem duplicate_dependency_stays dep t :
  t_deps t = [dep; dep] →
  t_deps (fulfil dep t) = [dep] ∧ crinitTaskIsReady (fulfil dep t) = false.
Proof.
  intros Hd.
  assert (t_deps (fulfil dep t) = [dep]) as Hr.
  { unfold fulfil, remove_dep. simpl. rewrite Hd. simpl.
    rewrite (proj2 (dep_eqb_true dep dep) eq_refl). reflexivity. }
  split; [done|]. unfold crinitTaskIsReady. by rewrite Hr.
Qed.

(** Adding a dependency to a task that does not have it and then removing
    it gives back the dependencies the task had, in the same order. *)
Theorem add_remove_dependency dep name t s :
  stable s → quiet s → db_map (get_db s) !! name = Some t → dep ∉ t_deps t →
  wp (_ ← crinitTaskDBAddDepToTask dep name; crinitTaskDBRemoveDepFromTask dep name)
     (λ r s', r = 0 ∧ ∃ t', db_map (get_db s') !! name = Some t' ∧ t_deps t' = t_deps t) s.
Proof.
  intros Hst Hq Ht Hnot. apply wp_bind. eapply wp_mono; [|by apply adddep_spec].
  intros r1 s1 (Hst1 & Hf1 & [(_ & _ & [(_ & t1 & Ht1 & Hm1)|(_ & _ & Hno)])|(_ & _ & Hno)]);
    [|by rewrite Hno in Ht|done].
  eapply wp_mono; [|by apply removedep_spec].
  intros r2 s2 ((Hst2 & Hf2 & [(-> & t2 & Ht2 & Hm2)|(_ & _ & Hno)]) & _).
  2:{ specialize (Hno ltac:(by apply Hf1)). by rewrite Hm1, lookup_insert_eq in Hno. }
  split; [done|]. rewrite Hm2, Hm1 in *. rewrite lookup_insert_eq in *. simplify_eq.
  eexists. split; [done|]. unfold add_dep.
  assert (existsb (λ d, dep_eqb d dep) (t_deps t) = false) as ->.
  { apply not_true_is_false. rewrite existsb_exists. setoid_rewrite dep_eqb_true.
    setoid_rewrite <- list_elem_of_In. naive_solver. }
  simpl. by apply remove_dep_last.
Qed.

(** ** Features *)

(** when crinitTaskDBProvideFeature() reports success, no task waits for
    a feature the provider offers in its new state any more, and nothing a
    task no longer waited for has come back. *)
Theorem crinitTaskDBProvideFeature_fulfils provider st s :
  stable s → deps_unique (get_db s) →
  wp (crinitTaskDBProvideFeature provider st)
     (λ r s', locked (get_db s') = false ∧ db_ok (get_db s') ∧
        (∀ dep, gone dep (get_db s) → gone dep (get_db s')) ∧
        (r = 0 → ∀ p, p ∈ t_prv provider → prv_stateReq p = st →
           gone (mkDep "@provided" (prv_name p)) (get_db s'))) s.
Proof.
  intros Hst Hu. eapply wp_mono; [|by apply wp_provide].
  intros r s' (Hok & Hl & _ & _ & _ & Hkeep & Hp & _). split_and!; [done|done|done|].
  intros -> p. by apply Hp.
Qed.

(** crinitTaskDBProvideFeatureByTaskName() for a name that is not in the
    database returns an error with the mutex held: every later operation on
    the database waits forever. *)
Theorem crinitTaskDBProvideFeatureByTaskName_keeps_lock name st s :
  stable s → quiet s → db_map (get_db s) !! name = None →
  wp (crinitTaskDBProvideFeatureByTaskName name st)
     (λ r s', r = -1 ∧ locked (get_db s') = true ∧ lock_db s' = Block) s.
Proof.
  intros Hst Hq Hn. pose proof Hst as [Hok Hu Hi]. unfold crinitTaskDBProvideFeatureByTaskName.
  apply wp_bind, wp_lock; [apply Hok|done|done|]. intros s1 Hf1 Hdb1. simpl.
  apply wp_bind, wp_find; [rewrite Hdb1; apply Hok|]. rewrite Hdb1.
  change (db_find name (set_locked true (get_db s))) with (db_find name (get_db s)).
  rewrite (proj2 (db_find_None_map _ _ Hok) Hn). apply wp_ret. rewrite Hdb1.
  split_and!; [done|done|]. unfold lock_db, mdb, mbind, M_bind. rewrite Hdb1. simpl.
  rewrite (db_mutex _ Hok). simpl. by rewrite fallible_quiet by by apply Hf1.
Qed.

(** Exporting the names yields the names of all tasks in the order of the
    task set, or reports failure after a failed allocation; the names copied
    until then are lost, because the error path frees the wrong element. *)
Theorem crinitTaskDBExportTaskNamesToArray_exact s :
  stable s →
  wp crinitTaskDBExportTaskNamesToArray
     (λ r s', get_db s' = get_db s ∧
        let names := t_name ∘ sl_task <$> taskSet (get_db s) in
        (r = (0, Some names, []) ∨
         ¬ quiet s ∧ ∃ leaked, r = (-1, None, leaked) ∧ leaked `prefix_of` names)) s.
Proof. intros Hst. eapply wp_mono; [|by apply wp_export_names]. by intros r s' (_ & ? & ?). Qed.

(** ** Sequences of operations

    The calls other threads make, in the order in which they get the lock. *)
Inductive db_op :=
| OpSetTaskState (st : Z) (name : string)
| OpSetTaskPID (pid : Z) (name : string)
| OpSetRespawnInhibit (inh : bool) (name : string)
| OpRearmTrigger (name : string)
| OpAddDep (dep : crinitTaskDep) (name : string)
| OpRemoveDep (dep : crinitTaskDep) (name : string)
| OpFulfillDep (dep : crinitTaskDep)
| OpGetStateAndPID (name : string)
| OpSetSpawnInhibit (inh : bool)
| OpSpawnReady (mode : crinitDispatchThreadMode).

Definition run_op (op : db_op) : M S Z :=
  match op with
  | OpSetTaskState st name => crinitTaskDBSetTaskState st name
  | OpSetTaskPID pid name => crinitTaskDBSetTaskPID pid name
  | OpSetRespawnInhibit inh name => crinitTaskDBSetTaskRespawnInhibit inh name
  | OpRearmTrigger name => crinitTaskRearmTrigger name
  | OpAddDep dep name => crinitTaskDBAddDepToTask dep name
  | OpRemoveDep dep name => crinitTaskDBRemoveDepFromTask dep name
  | OpFulfillDep dep => crinitTaskDBFulfillDep dep None
  | OpGetStateAndPID name => r ← crinitTaskDBGetTaskStateAndPID name; mret r.1
  | OpSetSpawnInhibit inh => crinitTaskDBSetSpawnInhibit inh
  | OpSpawnReady mode => crinitTaskDBSpawnReady mode
  end.

(** What an operation that succeeds does to the map of tasks. *)
Definition op_effect (op : db_op) (m m' : gmap string crinitTask) : Prop :=
  match op with
  | OpSetTaskState st name => ∃ ts t, m !! name = Some t ∧ m' = <[name := to_state st ts t]> m
  | OpSetTaskPID pid name => ∃ t, m !! name = Some t ∧ m' = <[name := set_t_pid pid t]> m
  | OpSetRespawnInhibit inh name => ∃ t, m !! name = Some t ∧ m' = <[name := set_t_inhibitRespawn inh t]> m
  | OpRearmTrigger name => ∃ t, m !! name = Some t ∧ m' = <[name := rearm t]> m
  | OpAddDep dep name => ∃ t, m !! name = Some t ∧ m' = <[name := add_dep dep t]> m
  | OpRemoveDep dep name => ∃ t, m !! name = Some t ∧ m' = <[name := fulfil dep t]> m
  | OpFulfillDep dep => m' = fulfil dep <$> m
  | OpGetStateAndPID name => is_Some (m !! name) ∧ m' = m
  | OpSetSpawnInhibit inh => m' = m
  | OpSpawnReady mode => m' = start <$> m ∨ m' = m
  end.

Lemma db_map_start d : db_map (set_taskSet (start_slot <$> taskSet d) d) = start <$> db_map d.
Proof.
  unfold db_map. simpl. induction (taskSet d) as [|sl l IH]; simpl; [by rewrite fmap_empty|].
  rewrite fmap_insert. f_equal; [|exact IH]. unfold start. by case_if.
Qed.

Lemma setspawninhibit_spec inh s :
  stable s →
  wp (crinitTaskDBSetSpawnInhibit inh)
     (λ r s', stable s' ∧ frame s s' ∧ (r = 0 ∨ r = -1) ∧ taskSet (get_db s') = taskSet (get_db s) ∧
        (r = 0 → spawnInhibit (get_db s') = inh) ∧ (quiet s → r = 0)) s.
Proof.
  intros Hst. pose proof Hst as [Hok Hu Hi]. unfold crinitTaskDBSetSpawnInhibit.
  apply wp_bind, wp_lock; [apply Hok|done| |].
  { intros s1 Hf1 Hdb1 Hnq. simpl. apply wp_ret. rewrite Hdb1.
    split_and!; [by eapply stable_same|done|by right|done|done|done]. }
  intros s1 Hf1 Hdb1. simpl. apply wp_bind, wp_mdb, wp_bind. rewrite Hdb1. simpl.
  apply (wp_mono _ (λ _ s2, frame s1 s2 ∧ ∃ n, get_db s2 =
    mkDB (taskSet (get_db s)) (taskSetSize (get_db s)) (gen (get_db s)) (spawnFunc (get_db s)) inh
      (mutex_ok (get_db s)) true n)).
  - intros _ s2 [Hf2 [n Hdb2]]. apply wp_bind, wp_unlock; [by rewrite Hdb2|]. intros s3 Hf3 Hdb3.
    rewrite Hdb2 in Hdb3. apply wp_ret. rewrite Hdb3.
    assert (frame s s3) as Hf by (by repeat (etrans; [eassumption|])).
    split_and!; [|done|by left|done|done|done].
    eapply stable_intro; [by apply Hf|done| |done]. by destruct Hok.
  - destruct (xorb inh (spawnInhibit (get_db s))) eqn:Ex.
    + apply wp_bind, wp_modify_db. intros s2 Hf2 Hdb2. rewrite Hdb1 in Hdb2. destruct inh.
      * apply wp_ret. split; [done|]. rewrite Hdb2. by eexists.
      * apply wp_modify_db. intros s3 Hf3 Hdb3. rewrite Hdb2 in Hdb3. split; [by etrans|].
        rewrite Hdb3. by eexists.
    + apply wp_ret. split; [done|]. apply xorb_eq in Ex as ->. exists (changed (get_db s)).
      rewrite Hdb1. by destruct (get_db s).
Qed.

Definition run_spec (op : db_op) (s : S) (r : Z) (s' : S) : Prop :=
  stable s' ∧ (quiet s → quiet s') ∧
  (r = 0 ∧ op_effect op (db_map (get_db s)) (db_map (get_db s')) ∨
   r = -1 ∧ (db_map (get_db s') = db_map (get_db s) ∨
     (∃ mode, op = OpSpawnReady mode) ∧
     ∀ name t', db_map (get_db s') !! name = Some t' →
       ∃ t st, db_map (get_db s) !! name = Some t ∧ t' = set_t_state st t)).

Lemma updated_run op name f s r s' :
  updated name f s r s' →
  (∀ t, db_map (get_db s) !! name = Some t →
     op_effect op (db_map (get_db s)) (<[name := f t]> (db_map (get_db s)))) →
  run_spec op s r s'.
Proof.
  intros (Hst & Hf & [(-> & t & Ht & Hm)|(-> & Hdb & _)]) Hop; (split_and!; [done|apply Hf|]).
  - left. split; [done|]. rewrite Hm. by apply Hop.
  - right. rewrite Hdb. split; [done|by left].
Qed.

Lemma run_op_spec op s :
  stable s → (∀ n t, db_map (get_db s) !! n = Some t → t_failCount t < INT_MAX) →
  wp (run_op op) (run_spec op s) s.
Proof.
  intros Hst Hcnt. destruct op; simpl.
  - eapply wp_mono; [|apply setstate_spec; [done|by apply Hcnt]]. intros r s' (ts & Hu & _).
    eapply updated_run; [done|]. simpl. eauto.
  - eapply wp_mono; [|by apply setpid_spec]. intros r s' Hu. eapply updated_run; [done|]. simpl. eauto.
  - eapply wp_mono; [|by apply setinhibit_spec]. intros r s' Hu. eapply updated_run; [done|]. simpl. eauto.
  - eapply wp_mono; [|by apply rearm_spec].
    intros r s' (Hst' & Hf & [(-> & t & Ht & Hm)|(-> & Hts & _)]); (split_and!; [done|apply Hf|]).
    + left. split; [done|]. simpl. eauto.
    + right. split; [done|]. left. unfold db_map. by rewrite Hts.
  - eapply wp_mono; [|by apply adddep_spec]. intros r s' (Hst' & Hf & [Hu|(-> & Hdb & _)]).
    + eapply updated_run; [done|]. simpl. eauto.
    + split_and!; [done|apply Hf|right]. rewrite Hdb. split; [done|by left].
  - eapply wp_mono; [|by apply removedep_spec]. intros r s' (Hu & _).
    eapply updated_run; [done|]. simpl. eauto.
  - eapply wp_mono; [|by apply fulfill_spec].
    intros r s' (Hst' & Hf & [[-> Hdb]|(-> & Hdb & _)]); (split_and!; [done|apply Hf|]).
    + left. split; [done|]. simpl. rewrite Hdb. apply (db_map_fulfil dep (get_db s)).
    + right. rewrite Hdb. split; [done|by left].
  - apply wp_bind. eapply wp_mono; [|by apply getter_spec].
    intros r s' (Hf & Hdb & [(t & Ht & ->)|(-> & _)]); apply wp_ret;
      (split_and!; [by eapply stable_same|apply Hf|]); rewrite Hdb; simpl; [left; eauto|right].
    split; [done|by left].
  - eapply wp_mono; [|by apply setspawninhibit_spec]. intros r s' (Hst' & Hf & Hr & Hts & _).
    assert (db_map (get_db s') = db_map (get_db s)) as E by (unfold db_map; by rewrite Hts).
    split_and!; [done|apply Hf|]. rewrite E. destruct Hr as [->| ->]; [by left|right]. split; [done|by left].
  - eapply wp_mono; [|by apply wp_spawnready]. intros r s' Hsp.
    split_and!; [apply Hsp|apply Hsp|].
    destruct (sp_code _ _ _ _ Hsp) as [->| ->]; [left; split; [done|]|right; split; [done|]].
    2:{ right. split; [eauto|]. intros name t'. apply only_state_map, Hsp. }
    destruct (spawnInhibit (get_db s)) eqn:Ei, (spawnFunc (get_db s)) eqn:Ef; simpl.
    3:{ left. destruct (sp_all _ _ _ _ Hsp Ei Ef eq_refl) as [-> _]. apply db_map_start. }
    all: right; destruct (sp_none _ _ _ _ Hsp) as [-> _]; rewrite ?Ei, ?Ef; auto.
Qed.

Fixpoint run_ops (ops : list db_op) : M S (list Z) :=
  match ops with
  | [] => mret []
  | op :: ops => r ← run_op op; rs ← run_ops ops; mret (r :: rs)
  end.

Lemma to_state_fails st ts t : 0 ≤ t_failCount t → 0 ≤ t_failCount (to_state st ts t) ≤ t_failCount t + 1.
Proof.
  intros Hp. unfold to_state, state_change. simpl. repeat case_if; simpl; lia.
Qed.

(** Every failure counter is between 0 and [n]. *)
Definition counters (n : Z) (m : gmap string crinitTask) : Prop :=
  ∀ name t, m !! name = Some t → 0 ≤ t_failCount t ≤ n.

Lemma counters_insert n m name t t' :
  counters n m → m !! name = Some t → 0 ≤ t_failCount t' ≤ t_failCount t + 1 →
  counters (n + 1) (<[name := t']> m).
Proof.
  intros Hc Ht Ht' name' t'' [[<- <-]|[_ Hl]]%lookup_insert_Some; [|apply Hc in Hl; lia].
  apply Hc in Ht. lia.
Qed.

Lemma counters_fmap n m f :
  (∀ t, t_failCount (f t) = t_failCount t) → counters n m → counters (n + 1) (f <$> m).
Proof.
  intros Hf Hc name t Hl. rewrite lookup_fmap in Hl. apply fmap_Some in Hl as (t0 & Hl & ->).
  apply Hc in Hl. rewrite Hf. lia.
Qed.

Lemma counters_le n n' m : n ≤ n' → counters n m → counters n' m.
Proof. intros Hle Hc name t Hl. apply Hc in Hl. lia. Qed.

Lemma op_effect_counters n op m m' : counters n m → op_effect op m m' → counters (n + 1) m'.
Proof.
  intros Hc Hop. pose proof (counters_le n (n + 1) m ltac:(lia) Hc) as Hc'.
  destruct op; simpl in Hop.
  - destruct Hop as (ts & t & Ht & ->). eapply counters_insert; [done..|]. apply to_state_fails, (Hc _ _ Ht).
  - destruct Hop as (t & Ht & ->). eapply counters_insert; [done..|]. pose proof (Hc _ _ Ht). simpl. lia.
  - destruct Hop as (t & Ht & ->). eapply counters_insert; [done..|]. pose proof (Hc _ _ Ht). simpl. lia.
  - destruct Hop as (t & Ht & ->). eapply counters_insert; [done..|]. pose proof (Hc _ _ Ht). simpl. lia.
  - destruct Hop as (t & Ht & ->). eapply counters_insert; [done..|]. pose proof (Hc _ _ Ht).
    unfold add_dep. case_if; simpl; lia.
  - destruct Hop as (t & Ht & ->). eapply counters_insert; [done..|]. pose proof (Hc _ _ Ht). simpl. lia.
  - subst. by apply counters_fmap.
  - by destruct Hop as [_ ->].
  - by subst.
  - destruct Hop as [->| ->]; [|done]. apply counters_fmap; [|done]. intros t. unfold start. by case_if.
Qed.


End Theorems.

(** ** A concrete state

    The database with every optional feature off: no elos, no timers, and a
    dispatcher whose threads are created unless a system call fails. *)

Record bare := mkBare {
  b_faults : list bool;
  b_db : crinitTaskDB;
  b_threads : list (task_ptr * crinitDispatchThreadMode);
}.

#[export, refine] Instance bare_faulty : Faulty bare := {|
  faults := b_faults;
  set_faults := λ l s, mkBare l (b_db s) (b_threads s);
  idle := λ _, True;
|}.
Proof. all: done || by intros []. Defined.

#[export, refine] Instance bare_cgroups : CgroupQuery bare := {|
  crinitCgroupNameIsGlobalCgroup := λ _, mret (0, false);
|}.
Proof. intros name s _. apply wp_ret. split; [apply same_faults|done]. Defined.

#[export, refine] Instance bare_services : TaskDBServices bare := {|
  get_db := b_db;
  set_db := λ d s, mkBare (b_faults s) d (b_threads s);
  threads := b_threads;
  clock_monotonic := mret (Some (mkTimespec 7 0));
  crinitElosLog := λ _ _ _ _, mret 0;
  crinitFeatureHook := λ _ _ _, mret 0;
  crinitTimerDBRemoveTimer := λ _, mret tt;
  call_spawnFunc := λ p mode,
    err ← fallible;
    if (err : bool) then mret (-1)
    else mmodify (λ s, mkBare (b_faults s) (b_db s) (b_threads s ++ [(p, mode)])) ;; mret 0;
|}.
Proof.
  1-8: done || by intros [].
  - intros s. by apply wp_ret.
  - intros. by apply wp_ret.
  - intros. by apply wp_ret.
  - intros. by apply wp_ret.
  - intros p mode s _. apply wp_bind, wp_fallible_why. intros [] s' [[fs ->] Hq] Hb.
    + apply wp_ret. simpl. split_and!; [done|done| |by right]. intros Hs. by specialize (Hb Hs).
    + apply wp_bind, wp_modify, wp_ret. simpl. split_and!; [done|done| |by left].
      intros Hs. specialize (Hq Hs). split; [|done]. unfold quiet in *. simpl in *.
      by rewrite <- Hq in Hs.
Defined.

Definition demo_db (tasks : list crinitTask) : crinitTaskDB :=
  mkDB (mkSlot Live <$> tasks) 4 0 true false true false 0.
Definition demo_state (fs : list bool) (tasks : list crinitTask) : bare := mkBare fs (demo_db tasks) [].

(** Two tasks: "fs" can start, "net" waits for it. *)
Definition demo_cmd : list crinitTaskCmd := [mkCmd ["/bin/true"%string]].
Definition demo_fs : crinitTask :=
  mkTask "fs" demo_cmd [] demo_env demo_env [] [] true [mkPrv "mount" 4] 1 0 (-1) [] 2 0 false
    (mkTimespec 5 0) (mkTimespec 0 0) (mkTimespec 0 0) 0 0 [] None None 0 0 None.
Definition demo_net : crinitTask := demo_task demo_cmd [].

Lemma demo_fs_ok : task_ok demo_fs.
Proof. split; simpl; [by repeat constructor|by constructor|apply demo_env_ok|apply demo_env_ok|done]. Qed.

Lemma demo_net_ok : task_ok demo_net.
Proof. split; simpl; [by repeat constructor|by constructor|apply demo_env_ok|apply demo_env_ok|done]. Qed.

Lemma demo_stable fs : stable (demo_state fs [demo_fs; demo_net]).
Proof.
  split; [|done|done]. split; simpl; [done|lia|by repeat constructor| |].
  - repeat constructor; set_solver.
  - apply Forall_cons. split; [apply demo_fs_ok|]. apply Forall_singleton, demo_net_ok.
Qed.

(** ** Witnesses *)

Definition demo0 : bare := demo_state [] [demo_fs; demo_net].


Lemma crinitTaskDBSpawnReady_starts_ready_witness :
  wp (crinitTaskDBSpawnReady CRINIT_DISPATCH_THREAD_MODE_START)
    (spawn_spec CRINIT_DISPATCH_THREAD_MODE_START demo0) demo0.
Proof. exact (crinitTaskDBSpawnReady_starts_ready _ demo0 (demo_stable [])). Defined.

Lemma crinitTaskDBSpawnReady_once_witness :
  wp (crinitTaskDBSpawnReady CRINIT_DISPATCH_THREAD_MODE_START) (λ r s1, r = 0 →
    wp (crinitTaskDBSpawnReady CRINIT_DISPATCH_THREAD_MODE_START)
       (λ _ s2, threads s2 = threads s1) s1) demo0.
Proof. apply crinitTaskDBSpawnReady_once; [apply demo_stable|reflexivity|reflexivity]. Defined.

Lemma crinitTaskDBInsert_refines_insert_witness :
  wp (crinitTaskDBInsert demo_net true) (λ r s', insert_spec demo_net true demo0 r.1 s') demo0.
Proof. apply crinitTaskDBInsert_refines_insert; [apply demo_stable|apply demo_net_ok]. Defined.

(** The name of the new task could not be allocated. *)
Definition demo_failed : bare :=
  match crinitTaskDBInsert demo_net false (demo_state [false; true] [demo_fs]) with
  | Ret _ s => s
  | _ => demo0
  end.

Lemma lookup_passes_failed_slot_witness :
  crinitTaskDBGetTaskState "net" demo_failed = Undef.
Proof.
  apply (lookup_passes_failed_slot "net" (-1, 0) _ 1%nat (mkSlot Cleared demo_net) demo_failed);
    [reflexivity|reflexivity|reflexivity|reflexivity|discriminate|].
  intros [|j] sl' Hj; [|lia]. intros [= <-]. discriminate.
Defined.

Lemma crinitTaskDBGetTaskByName_refines_lookup_witness :
  wp (crinitTaskDBGetTaskByName "net")
    (λ r s', r = match db_map (get_db demo0) !! "net"%string with Some t => (0, Some t) | None => (-1, None) end ∧
       get_db s' = get_db demo0 ∧ threads s' = threads demo0) demo0.
Proof. apply crinitTaskDBGetTaskByName_refines_lookup; [apply demo_stable|reflexivity]. Defined.

Lemma task_state_pid_roundtrip_witness :
  wp (_ ← crinitTaskDBSetTaskState 2 "net"; _ ← crinitTaskDBSetTaskPID 77 "net";
      crinitTaskDBGetTaskStateAndPID "net")
    (λ r s', r = (0, (2, 77)) ∧
       ∀ name', name' ≠ "net"%string → db_map (get_db s') !! name' = db_map (get_db demo0) !! name') demo0.
Proof.
  apply (task_state_pid_roundtrip 2 77 "net" demo_net demo0);
    [apply demo_stable|reflexivity|vm_compute; reflexivity|vm_compute; reflexivity].
Defined.

Lemma demo_unique : deps_unique (get_db demo0).
Proof. repeat constructor; set_solver. Qed.


Lemma duplicate_dependency_stays_witness :
  let dep := mkDep "fs" "wait" in
  let t := set_t_deps [dep; dep] demo_net in
  t_deps (fulfil dep t) = [dep] ∧ crinitTaskIsReady (fulfil dep t) = false.
Proof. apply duplicate_dependency_stays. reflexivity. Defined.

Lemma add_remove_dependency_witness :
  wp (_ ← crinitTaskDBAddDepToTask (mkDep "log" "spawn") "net";
      crinitTaskDBRemoveDepFromTask (mkDep "log" "spawn") "net")
    (λ r s', r = 0 ∧ ∃ t', db_map (get_db s') !! "net"%string = Some t' ∧ t_deps t' = [mkDep "fs" "wait"]) demo0.
Proof.
  apply (add_remove_dependency _ "net" demo_net demo0);
    [apply demo_stable|reflexivity|vm_compute; reflexivity|set_solver].
Defined.

Lemma crinitTaskDBProvideFeature_fulfils_witness :
  wp (crinitTaskDBProvideFeature demo_fs 4)
    (λ r s', locked (get_db s') = false ∧ db_ok (get_db s') ∧
       (∀ dep, gone dep (get_db demo0) → gone dep (get_db s')) ∧
       (r = 0 → ∀ p, p ∈ t_prv demo_fs → prv_stateReq p = 4 →
          gone (mkDep "@provided" (prv_name p)) (get_db s'))) demo0.
Proof. exact (crinitTaskDBProvideFeature_fulfils demo_fs 4 demo0 (demo_stable []) demo_unique). Defined.

Lemma crinitTaskDBProvideFeatureByTaskName_keeps_lock_witness :
  wp (crinitTaskDBProvideFeatureByTaskName "gone" 4)
    (λ r s', r = -1 ∧ locked (get_db s') = true ∧ lock_db s' = Block) demo0.
Proof.
  apply crinitTaskDBProvideFeatureByTaskName_keeps_lock;
    [apply demo_stable|reflexivity|vm_compute; reflexivity].
Defined.

Lemma crinitTaskDBExportTaskNamesToArray_exact_witness :
  wp crinitTaskDBExportTaskNamesToArray
    (λ r s', get_db s' = get_db demo0 ∧
       let names := t_name ∘ sl_task <$> taskSet (get_db demo0) in
       (r = (0, Some names, []) ∨
        ¬ quiet demo0 ∧ ∃ leaked, r = (-1, None, leaked) ∧ leaked `prefix_of` names)) demo0.
Proof. exact (crinitTaskDBExportTaskNamesToArray_exact demo0 (demo_stable [])). Defined.

Definition demo_ops : list db_op :=
  [OpSpawnReady CRINIT_DISPATCH_THREAD_MODE_START; OpSetTaskPID 77 "fs"; OpSetTaskState 2 "fs";
   OpSetTaskState 8 "fs"; OpFulfillDep (mkDep "fs" "wait"); OpSpawnReady CRINIT_DISPATCH_THREAD_MODE_START].

Lemma demo_counters : counters 0 (db_map (get_db demo0)).
Proof.
  intros name t. unfold db_map. simpl. intros [[_ <-]|[_ Hl]]%lookup_insert_Some; [simpl; lia|].
  apply lookup_insert_Some in Hl as [[_ <-]|[_ Hl]]; [simpl; lia|]. by rewrite lookup_empty in Hl.
Qed.


