(* ===== verification/TimerDB.v ===== *)
(** * The pool of timers: src/timerdb.c

    All timers of the configuration share one pool: a list of named, counted
    timers, each with a timer descriptor of the kernel, served by one thread
    that polls the descriptors.  The pool has its own mutex; taskdb.c calls into
    the pool when a timer dependency is removed, and the thread of the pool
    calls into taskdb.c when a timer fires. *)

From Stdlib Require Import ZArith Lia Bool List String Ascii.
From stdpp Require Import base list strings gmap.
From S2P Require Import TimerParse.
From S2P Require Import Prelude EnvSet Timer Task TaskDB TaskDBSpec.

Open Scope Z_scope.
Open Scope crinit_scope.

(** ** Data *)

Definition TIMER_DB_INITIAL_CAP : Z := 256.
Definition TIMER_DEP_NAME : string := "@timer".

(** crinitTimer_t; the name is NULL when it could not be duplicated. *)
Record crinitTimer := mkTimer {
  tm_def : crinitTimerDef;
  tm_name : option string;
  tm_refs : Z;
  tm_next : timespec;
}.
Definition set_refs (r : Z) (t : crinitTimer) : crinitTimer := mkTimer (tm_def t) (tm_name t) r (tm_next t).
Definition set_next (n : timespec) (t : crinitTimer) : crinitTimer := mkTimer (tm_def t) (tm_name t) (tm_refs t) n.

(** crinitTimerDB_t.  [entries] are timerList and pollList from index 1 on:
    index 0 is the event descriptor, and size is one more than the number of
    entries once the pool is initialised ([ready]).  [kernel] are the timer
    descriptors that have been created and the time each is set to; a
    descriptor is a number that has not been used before.  [updates] counts what
    was written to the event descriptor and not read yet. *)
Record crinitTimerDB := mkPool {
  cap : Z;
  entries : list (crinitTimer * Z);
  ready : bool;
  pool_locked : bool;
  kernel : gmap Z (option timespec);
  updates : Z;
}.
Definition set_entries (l : list (crinitTimer * Z)) (p : crinitTimerDB) : crinitTimerDB :=
  mkPool (cap p) l (ready p) (pool_locked p) (kernel p) (updates p).
Definition set_pool_locked (b : bool) (p : crinitTimerDB) : crinitTimerDB :=
  mkPool (cap p) (entries p) (ready p) b (kernel p) (updates p).
Definition set_kernel (k : gmap Z (option timespec)) (p : crinitTimerDB) : crinitTimerDB :=
  mkPool (cap p) (entries p) (ready p) (pool_locked p) k (updates p).
Definition set_updates (n : Z) (p : crinitTimerDB) : crinitTimerDB :=
  mkPool (cap p) (entries p) (ready p) (pool_locked p) (kernel p) n.
Definition pool_size (p : crinitTimerDB) : Z := if ready p then 1 + Z.of_nat (length (entries p)) else 0.

(** A state with a pool and the clock. *)
Class TimerState (S : Type) `{Faulty S} := {
  get_pool : S → crinitTimerDB;
  set_pool : crinitTimerDB → S → S;
  now : S → timespec;
  get_set_pool : ∀ p s, get_pool (set_pool p s) = p;
  set_set_pool : ∀ p p' s, set_pool p (set_pool p' s) = set_pool p s;
  set_get_pool : ∀ s, set_pool (get_pool s) s = s;
  pool_faults : ∀ l s, get_pool (set_faults l s) = get_pool s;
  faults_pool : ∀ p s, faults (set_pool p s) = faults s;
  faults_set_pool : ∀ l p s, set_faults l (set_pool p s) = set_pool p (set_faults l s);
  now_pool : ∀ p s, now (set_pool p s) = now s;
  now_faults : ∀ l s, now (set_faults l s) = now s;
}.

(** ** Operations *)

Section Operations.
Context {S : Type} `{TimerState S}.

Definition mpool : M S crinitTimerDB := λ s, Ret (get_pool s) s.
Definition mpool_modify (f : crinitTimerDB → crinitTimerDB) : M S unit := λ s, Ret tt (set_pool (f (get_pool s)) s).

Definition lock_pool : M S Z :=
  err ← fallible;
  if (err : bool) then mret 1 else
  p ← mpool;
  if pool_locked p then mblock else mpool_modify (set_pool_locked true) ;; mret 0.
Definition unlock_pool : M S unit := mpool_modify (set_pool_locked false).

(** write() of a 1 to the event descriptor: [false] when it fails. *)
Definition notify : M S bool :=
  err ← fallible;
  if (err : bool) then mret false else mpool_modify (λ p, set_updates (updates p + 1) p) ;; mret true.

Definition crinitTimerDBInit : M S Z :=
  let failed := mpool_modify (λ p, mkPool 0 [] false (pool_locked p) (kernel p) (updates p)) ;; mret (-1) in
  oom ← fallibleN 3;  (* timerList, pollList, eventfd *)
  if (oom : bool) then failed else
  err ← fallible;  (* pthread_mutex_init *)
  if (err : bool) then failed else
  mpool_modify (λ p, mkPool TIMER_DB_INITIAL_CAP [] true false (kernel p) 0) ;; mret 0.

(** timerfd_create(): a descriptor that is not in use. *)
Definition fresh_fd (k : gmap Z (option timespec)) : Z := fresh (dom k).

Definition crinitTimerDBInsertTimer (timer : crinitTimer) : M S Z :=
  err ← lock_pool;
  if negb (err =? 0) then mret (-1) else
  p ← mpool;
  res ← (if cap p <=? pool_size p then mret (-1) else
         err ← fallible;  (* timerfd_create *)
         if (err : bool) then mret (-1) else
         let fd := fresh_fd (kernel p) in
         mpool_modify (set_kernel (<[fd := None]> (kernel p))) ;;
         err ← fallible;  (* timerfd_settime *)
         if (err : bool) then mret (-1) else
         mpool_modify (λ p, set_entries (entries p ++ [(timer, fd)])
           (set_kernel (<[fd := Some (tm_next timer)]> (kernel p)) p)) ;;
         ok ← notify;
         mret (if (ok : bool) then 0 else -1));
  unlock_pool ;; mret res.

(** The loop from index [i] on.  A name that is NULL is followed. *)
Fixpoint remove_timer_loop (fuel i : nat) (timerStr : string) : M S unit :=
  match fuel with
  | O => mret tt
  | Datatypes.S fuel =>
      p ← mpool;
      match entries p !! i with
      | None => mret tt
      | Some (t, fd) =>
          match tm_name t with
          | None => mundef
          | Some n =>
              (if str_eqb n timerStr then
                 _ ← notify;
                 let refs := if 0 <? tm_refs t then tm_refs t - 1 else tm_refs t in
                 if refs =? 0 then
                   mpool_modify (λ p, set_entries (swap_out i (entries p)) p)
                 else mpool_modify (λ p, set_entries (<[i := (set_refs refs t, fd)]> (entries p)) p)
               else mret tt) ;;
              remove_timer_loop fuel (Datatypes.S i) timerStr
          end
      end
  end.

Definition crinitTimerDBRemoveTimer (timerStr : string) : M S unit :=
  err ← lock_pool;
  if negb (err =? 0) then mret tt else
  p ← mpool;
  remove_timer_loop (length (entries p)) 0 timerStr ;;
  unlock_pool.

(** The index of the first timer of a name. *)
Fixpoint find_timer (l : list (crinitTimer * Z)) (timerStr : string) : M S (option nat) :=
  match l with
  | [] => mret None
  | (t, _) :: l =>
      match tm_name t with
      | None => mundef
      | Some n => if str_eqb n timerStr then mret (Some O)
                  else r ← find_timer l timerStr; mret (Datatypes.S <$> r)
      end
  end.

(** A definition whose bytes are all zero. *)
Definition zero_def : crinitTimerDef := mkTimerDef 0 (0, 0) (0, 0) (0, 0) (0, 0) (0, 0) (0, 0) (0, 0).

Definition crinitTimerDBAddTimer (timerStr : string) : M S unit :=
  err ← lock_pool;
  if negb (err =? 0) then mret tt else
  p ← mpool;
  r ← find_timer (entries p) timerStr;
  match r with
  | Some i =>
      _ ← notify;
      mpool_modify (λ p, set_entries (alter (λ e, (set_refs (uint64 (tm_refs e.1 + 1)) e.1, e.2)) i (entries p)) p) ;;
      unlock_pool
  | None =>
      unlock_pool ;;
      oom ← fallible;  (* strdup *)
      s ← mget;
      let name := if (oom : bool) then None else Some timerStr in
      (* the result of crinitTimerParse() is not looked at *)
      let td := match name with None => zero_def | Some n => (crinitTimerParse n).2 end in
      _ ← crinitTimerDBInsertTimer (mkTimer td name 1 (crinitTimerNextTime (now s) td));
      mret tt
  end.
End Operations.

(** ** What the operations do *)

(** Only the pool and the decisions of the environment change. *)
Definition pframe {S} `{TimerState S} (s s' : S) : Prop :=
  (∃ fs p, s' = set_pool p (set_faults fs s)) ∧ (quiet s → quiet s').

#[export] Instance pframe_preorder {S} `{TimerState S} : PreOrder (pframe (S := S)).
Proof.
  split.
  - intros s. split; [|done]. exists (faults s), (get_pool s). by rewrite set_faults_same, set_get_pool.
  - intros s1 s2 s3 [(f1 & p1 & ->) Hq1] [(f2 & p2 & ->) Hq2]. split; [|auto].
    exists f2, p2. by rewrite faults_set_pool, set_faults_set, set_set_pool.
Qed.

Definition name_of (e : crinitTimer * Z) : string := default ""%string (tm_name e.1).
Definition refs_of (l : list (crinitTimer * Z)) : gmap string Z :=
  list_to_map ((λ e, (name_of e, tm_refs e.1)) <$> l).

(** A timer of the pool: it has a name, somebody refers to it, and its
    descriptor is set to its next time. *)
Definition entry_ok (k : gmap Z (option timespec)) (e : crinitTimer * Z) : Prop :=
  is_Some (tm_name e.1) ∧ 1 ≤ tm_refs e.1 ∧ k !! e.2 = Some (Some (tm_next e.1)).

Record pool_ok (p : crinitTimerDB) : Prop := {
  pool_ready : ready p = true;
  pool_entries : Forall (entry_ok (kernel p)) (entries p);
  pool_names : NoDup (name_of <$> entries p);
  pool_fds : NoDup (entries p).*2;
  pool_room : 1 + Z.of_nat (length (entries p)) ≤ cap p;
}.

(** The specification: reference counts by name. *)
Definition spec_remove (n : string) (m : gmap string Z) : gmap string Z :=
  match m !! n with
  | Some r => if r <=? 1 then delete n m else <[n := r - 1]> m
  | None => m
  end.
Definition spec_add (capacity : Z) (n : string) (m : gmap string Z) : gmap string Z :=
  match m !! n with
  | Some r => <[n := r + 1]> m
  | None => if 1 + Z.of_nat (size m) <? capacity then <[n := 1]> m else m
  end.

Section PoolSpec.
Context {S : Type} `{TimerState S}.
Implicit Types s : S.

Lemma pframe_faults s s' : only_faults s s' → pframe s s' ∧ get_pool s' = get_pool s.
Proof.
  intros Hof. pose proof Hof as [[fs ->] _]. split; [|apply pool_faults]. split.
  - exists fs, (get_pool s). by rewrite <- (pool_faults fs s), set_get_pool.
  - by apply only_faults_quiet.
Qed.

Lemma pframe_set p s : pframe s (set_pool p s).
Proof.
  split; [|unfold quiet; by rewrite faults_pool]. exists (faults s), p. by rewrite set_faults_same.
Qed.

Lemma wp_pool_fallible (Q : bool → S → Prop) s :
  (∀ b s', pframe s s' → get_pool s' = get_pool s → (quiet s → b = false) → Q b s') → wp fallible Q s.
Proof.
  intros HQ. apply wp_fallible_why. intros b s' Hof Hq. destruct (pframe_faults _ _ Hof). by apply HQ.
Qed.

Lemma wp_mpool (Q : crinitTimerDB → S → Prop) s : Q (get_pool s) s → wp mpool Q s.
Proof. done. Qed.

Lemma wp_pool_modify f (Q : unit → S → Prop) s :
  (∀ s', pframe s s' → get_pool s' = f (get_pool s) → Q tt s') → wp (mpool_modify f) Q s.
Proof. intros HQ. apply HQ; [apply pframe_set|apply get_set_pool]. Qed.

Lemma wp_lock_pool (Q : Z → S → Prop) s :
  pool_locked (get_pool s) = false →
  (∀ s', pframe s s' → get_pool s' = get_pool s → ¬ quiet s → Q 1 s') →
  (∀ s', pframe s s' → get_pool s' = set_pool_locked true (get_pool s) → Q 0 s') →
  wp lock_pool Q s.
Proof.
  intros Hu Hf Hok. unfold lock_pool. apply wp_bind, wp_pool_fallible. intros [] s1 Hs1 E1 Hq.
  - apply wp_ret, Hf; [done|done|]. intros Hs. by specialize (Hq Hs).
  - apply wp_bind, wp_mpool. rewrite E1, Hu. apply wp_bind, wp_pool_modify. intros s2 Hs2 E2.
    apply wp_ret, Hok; [by etrans|congruence].
Qed.

Lemma wp_notify (Q : bool → S → Prop) s :
  (∀ b u s', pframe s s' → get_pool s' = set_updates u (get_pool s) → (quiet s → b = true) → Q b s') →
  wp notify Q s.
Proof.
  intros HQ. unfold notify. apply wp_bind, wp_pool_fallible. intros [] s1 Hs1 E1 Hq.
  - apply wp_ret, (HQ _ (updates (get_pool s))); [done|by rewrite E1; destruct (get_pool s)|].
    intros Hs. by specialize (Hq Hs).
  - apply wp_bind, wp_pool_modify. intros s2 Hs2 E2.
    apply wp_ret, (HQ _ (updates (get_pool s) + 1)); [by etrans|by rewrite E2, E1|done].
Qed.

(** Nothing of that name from index [i] on. *)
Lemma wp_remove_none fuel i n (Q : unit → S → Prop) s :
  Forall (λ e, is_Some (tm_name e.1)) (entries (get_pool s)) →
  n ∉ name_of <$> drop i (entries (get_pool s)) → Q tt s → wp (remove_timer_loop fuel i n) Q s.
Proof.
  revert i. induction fuel as [|fuel IH]; intros i Hall Hn HQ; simpl; [by apply wp_ret|].
  apply wp_bind, wp_mpool. destruct (entries (get_pool s) !! i) as [[t fd]|] eqn:Hi; [|by apply wp_ret].
  pose proof Hall as Hall'. rewrite Forall_lookup in Hall'. destruct (Hall' _ _ Hi) as [n' Hn']. simpl in Hn'.
  rewrite Hn'. rewrite (drop_S _ _ _ Hi) in Hn. unfold name_of in Hn. simpl in Hn. rewrite Hn' in Hn. simpl in Hn.
  apply not_elem_of_cons in Hn as [Hne Hn]. rewrite (proj2 (str_eqb_false n' n)) by done.
  apply wp_bind, wp_ret. by apply IH.
Qed.

(** What becomes of the entries when the one at index [i] loses a reference. *)
Definition dropped (i : nat) (e : crinitTimer * Z) (l : list (crinitTimer * Z)) : list (crinitTimer * Z) :=
  if tm_refs e.1 <=? 1 then swap_out i l else <[i := (set_refs (tm_refs e.1 - 1) e.1, e.2)]> l.

Lemma dropped_names i e l :
  l !! i = Some e → NoDup (name_of <$> l) → name_of e ∉ name_of <$> drop (Datatypes.S i) (dropped i e l).
Proof.
  intros Hi Hnd. unfold dropped. destruct (Z.leb_spec (tm_refs e.1) 1).
  - pose proof (swap_out_perm i l e Hi) as Hp. rewrite <- Hp in Hnd. simpl in Hnd. apply NoDup_cons in Hnd as [Hn _].
    intros Hin. apply Hn. eapply list_elem_of_fmap in Hin as (e' & -> & Hin).
    apply list_elem_of_fmap. exists e'. split; [done|]. by eapply subseteq_drop.
  - rewrite drop_insert_lt by lia. intros Hin.
    rewrite <- (take_drop_middle l i e Hi), fmap_app in Hnd. simpl in Hnd.
    apply NoDup_app in Hnd as (_ & _ & Hnd). by apply NoDup_cons in Hnd as [? _].
Qed.

Lemma dropped_some i e l :
  l !! i = Some e → Forall (λ e, is_Some (tm_name e.1)) l → Forall (λ e, is_Some (tm_name e.1)) (dropped i e l).
Proof.
  intros Hi Hall. unfold dropped. case_if.
  - pose proof (swap_out_perm i l e Hi) as Hp. rewrite <- Hp in Hall. by apply Forall_cons in Hall as [_ ?].
  - apply Forall_insert; [done|]. simpl. rewrite Forall_lookup in Hall. by apply (Hall i e).
Qed.

Lemma wp_remove_hit fuel i j e n (Q : unit → S → Prop) s :
  Forall (λ e, is_Some (tm_name e.1)) (entries (get_pool s)) → NoDup (name_of <$> entries (get_pool s)) →
  (i ≤ j < i + fuel)%nat → entries (get_pool s) !! j = Some e → name_of e = n → 1 ≤ tm_refs e.1 →
  (∀ u s', pframe s s' →
     get_pool s' = set_entries (dropped j e (entries (get_pool s))) (set_updates u (get_pool s)) → Q tt s') →
  wp (remove_timer_loop fuel i n) Q s.
Proof.
  revert i. induction fuel as [|fuel IH]; intros i Hall Hnd Hij Hj <- Hr HQ; [lia|]. simpl.
  apply wp_bind, wp_mpool.
  destruct (lookup_lt_is_Some_2 (entries (get_pool s)) i) as [[t fd] Hi];
    [pose proof (lookup_lt_Some _ _ _ Hj); lia|].
  rewrite Hi. pose proof Hall as Hall'. rewrite Forall_lookup in Hall'.
  destruct (Hall' _ _ Hi) as [n' Hn']. simpl in Hn'. rewrite Hn'.
  assert (name_of (t, fd) = n') as Hname by (unfold name_of; simpl; by rewrite Hn').
  destruct (decide (i = j)) as [->|Hne].
  - rewrite Hi in Hj. injection Hj as <-. rewrite Hname, str_eqb_refl. simpl in Hr.
    apply wp_bind, wp_bind, wp_notify. intros b u s1 Hs1 E1 _.
    rewrite (proj2 (Z.ltb_lt 0 (tm_refs t))) by lia.
    assert (∀ s2, pframe s1 s2 →
      get_pool s2 = set_entries (dropped j (t, fd) (entries (get_pool s))) (set_updates u (get_pool s)) →
      wp (remove_timer_loop fuel (Datatypes.S j) n') Q s2) as Hgo.
    { intros s2 Hs2 E2. apply wp_remove_none.
      - rewrite E2. simpl. by apply dropped_some.
      - rewrite E2, <- Hname. simpl. by apply dropped_names.
      - apply (HQ u); [by etrans|done]. }
    destruct (Z.eqb_spec (tm_refs t - 1) 0); apply wp_pool_modify; intros s2 Hs2 E2; apply Hgo; try done;
      rewrite E2, E1; unfold dropped; simpl; destruct (Z.leb_spec (tm_refs t) 1); try lia; done.
  - rewrite (proj2 (str_eqb_false n' (name_of e))).
    2:{ intros Hn. apply Hne. rewrite <- Hname in Hn.
        eapply (NoDup_lookup _ i j (name_of e) Hnd); rewrite list_lookup_fmap; [by rewrite Hi, <- Hn|by rewrite Hj]. }
    apply wp_bind, wp_ret. apply IH; [done|done|lia|done|done|done|done].
Qed.

Lemma refs_of_cons l e r :
  l ≡ₚ e :: r → NoDup (name_of <$> l) →
  refs_of l = <[name_of e := tm_refs e.1]> (refs_of r) ∧ refs_of r !! name_of e = None ∧ NoDup (name_of <$> r).
Proof.
  intros Hp Hnd. unfold refs_of.
  assert (∀ k, ((λ e, (name_of e, tm_refs e.1)) <$> k).*1 = name_of <$> k) as Hfst.
  { intros k. rewrite <- list_fmap_compose. by apply list_fmap_ext. }
  pose proof Hnd as Hnd'. rewrite Hp in Hnd'. simpl in Hnd'. apply NoDup_cons in Hnd' as [Hn Hr].
  split_and!; [|by apply not_elem_of_list_to_map_1; rewrite Hfst|done].
  rewrite (list_to_map_proper _ ((λ e, (name_of e, tm_refs e.1)) <$> e :: r)); [done|by rewrite Hfst|by rewrite Hp].
Qed.

Lemma insert_swap_out {A} i (l : list A) e x : l !! i = Some e → <[i := x]> l ≡ₚ x :: swap_out i l.
Proof.
  intros Hi. apply (Permutation_cons_inv (a := e)).
  rewrite (insert_perm l i e x Hi). rewrite <- (swap_out_perm i l e Hi) at 1. simpl.
  by rewrite (Permutation_app_comm (swap_out i l) [x]).
Qed.

Lemma refs_of_lookup l n r :
  NoDup (name_of <$> l) → refs_of l !! n = Some r → ∃ i e, l !! i = Some e ∧ name_of e = n ∧ tm_refs e.1 = r.
Proof.
  intros Hnd Hl. apply elem_of_list_to_map_2, list_elem_of_fmap in Hl as (e & [= -> ->] & He).
  apply list_elem_of_lookup in He as [i Hi]. eauto.
Qed.

Lemma refs_of_None l n : refs_of l !! n = None → n ∉ name_of <$> l.
Proof.
  intros Hl Hin. apply not_elem_of_list_to_map_2 in Hl. apply Hl. rewrite <- list_fmap_compose. done.
Qed.

Lemma refs_dropped i e l :
  l !! i = Some e → NoDup (name_of <$> l) → refs_of (dropped i e l) = spec_remove (name_of e) (refs_of l).
Proof.
  intros Hi Hnd. destruct (refs_of_cons l e (swap_out i l)) as (E & Hn & Hnd'); [by rewrite swap_out_perm|done|].
  unfold spec_remove. rewrite E, lookup_insert_eq. unfold dropped.
  destruct (tm_refs e.1 <=? 1); [by rewrite delete_insert_id|].
  rewrite insert_insert_eq. set (e' := (set_refs (tm_refs e.1 - 1) e.1, e.2)).
  destruct (refs_of_cons (<[i := e']> l) e' (swap_out i l)) as [E' _]; [by eapply insert_swap_out| |done].
  rewrite list_fmap_insert, list_insert_id; [done|]. by rewrite list_lookup_fmap, Hi.
Qed.

(** An entry that only changes its counter. *)
Lemma pool_ok_refs i e r p :
  entries p !! i = Some e → 1 ≤ r → pool_ok p → pool_ok (set_entries (<[i := (set_refs r e.1, e.2)]> (entries p)) p).
Proof.
  intros Hi Hr [Hrdy Hall Hn Hf Hroom]. split; simpl; [done| | | |by rewrite length_insert].
  - apply Forall_insert; [done|]. rewrite Forall_lookup in Hall. destruct (Hall _ _ Hi) as (? & ? & ?).
    by split_and!.
  - rewrite list_fmap_insert, list_insert_id; [done|]. by rewrite list_lookup_fmap, Hi.
  - rewrite list_fmap_insert, list_insert_id; [done|]. by rewrite list_lookup_fmap, Hi.
Qed.

Lemma pool_ok_swap_out i e p :
  entries p !! i = Some e → pool_ok p → pool_ok (set_entries (swap_out i (entries p)) p).
Proof.
  intros Hi [Hrdy Hall Hn Hf Hroom]. pose proof (swap_out_perm i (entries p) e Hi) as Hp.
  rewrite <- Hp in Hall, Hn, Hf. simpl in *. apply Forall_cons in Hall as [_ Hall].
  apply NoDup_cons in Hn as [_ Hn]. apply NoDup_cons in Hf as [_ Hf]. split; simpl; try done.
  rewrite swap_out_length by (by eapply lookup_lt_Some). lia.
Qed.

Lemma pool_ok_dropped i e p :
  entries p !! i = Some e → pool_ok p → pool_ok (set_entries (dropped i e (entries p)) p).
Proof.
  intros Hi Hok. unfold dropped. destruct (Z.leb_spec (tm_refs e.1) 1).
  - by eapply pool_ok_swap_out.
  - apply pool_ok_refs; [done|lia|done].
Qed.

Lemma pool_ok_named p : pool_ok p → Forall (λ e, is_Some (tm_name e.1)) (entries p).
Proof. intros Hok. eapply Forall_impl; [apply Hok|]. by intros e (? & _). Qed.

Lemma pool_ok_aux b u p : pool_ok p → pool_ok (set_pool_locked b (set_updates u p)).
Proof. by intros []. Qed.

Definition removed (n : string) s s' : Prop :=
  pframe s s' ∧ pool_locked (get_pool s') = false ∧ pool_ok (get_pool s') ∧
  kernel (get_pool s') = kernel (get_pool s) ∧ cap (get_pool s') = cap (get_pool s) ∧
  (refs_of (entries (get_pool s')) = spec_remove n (refs_of (entries (get_pool s))) ∨
   ¬ quiet s ∧ get_pool s' = get_pool s).

Lemma remove_spec n s :
  pool_locked (get_pool s) = false → pool_ok (get_pool s) →
  wp (crinitTimerDBRemoveTimer n) (λ _ s', removed n s s') s.
Proof.
  intros Hu Hok. unfold crinitTimerDBRemoveTimer. apply wp_bind, wp_lock_pool; [done| |].
  { intros s1 Hs1 E1 Hq. apply wp_ret. split_and!; rewrite ?E1; auto. }
  intros s1 Hs1 E1. apply wp_bind, wp_mpool, wp_bind. rewrite E1. simpl.
  destruct (refs_of (entries (get_pool s)) !! n) as [r|] eqn:Hr.
  - destruct (refs_of_lookup _ _ _ (pool_names _ Hok) Hr) as (i & e & Hi & Hn & He).
    pose proof (pool_entries _ Hok) as Hall. rewrite Forall_lookup in Hall. destruct (Hall _ _ Hi) as (_ & Hpos & _).
    eapply (wp_remove_hit _ 0 i e); rewrite ?E1; simpl; [by apply pool_ok_named|apply Hok| |done|done|done|].
    { pose proof (lookup_lt_Some _ _ _ Hi). lia. }
    intros u s2 Hs2 E2. apply wp_pool_modify. intros s3 Hs3 E3. rewrite E2 in E3.
    split_and!; rewrite ?E3; simpl; [by repeat (etrans; [eassumption|])|done| |done|done|].
    + exact (pool_ok_aux false u _ (pool_ok_dropped _ _ _ Hi Hok)).
    + left. rewrite <- Hn. apply refs_dropped; [done|apply Hok].
  - apply wp_remove_none; [rewrite E1; by apply (pool_ok_named (get_pool s))|rewrite E1; by apply refs_of_None|].
    apply wp_pool_modify. intros s3 Hs3 E3. rewrite E1 in E3.
    assert (get_pool s3 = get_pool s) as E by (rewrite E3; destruct (get_pool s); simpl in *; by subst).
    split_and!; rewrite ?E; [by etrans|done|done|done|done|]. left. unfold spec_remove. by rewrite Hr.
Qed.

Lemma wp_find_timer l n (Q : option nat → S → Prop) s :
  Forall (λ e, is_Some (tm_name e.1)) l →
  (∀ i e, l !! i = Some e → name_of e = n → Q (Some i) s) → (n ∉ name_of <$> l → Q None s) →
  wp (find_timer l n) Q s.
Proof.
  intros Hall. revert Q. induction Hall as [|[t fd] l [n' Hn'] Hall IH]; intros Q Hhit Hmiss; simpl in *.
  { apply wp_ret, Hmiss. set_solver. }
  assert (name_of (t, fd) = n') as Hname by (unfold name_of; simpl; by rewrite Hn').
  rewrite Hn'. destruct (str_eqb n' n) eqn:E; bool_hyps.
  - apply wp_ret, (Hhit O (t, fd)); [done|congruence].
  - apply wp_bind, IH.
    + intros i e Hi He. apply wp_ret. by apply (Hhit (Datatypes.S i) e).
    + intros Hn. apply wp_ret, Hmiss. rewrite Hname. set_solver.
Qed.

Definition added (n : string) s s' : Prop :=
  pframe s s' ∧ pool_locked (get_pool s') = false ∧ cap (get_pool s') = cap (get_pool s) ∧
  (pool_ok (get_pool s') ∧
   (refs_of (entries (get_pool s')) = spec_add (cap (get_pool s)) n (refs_of (entries (get_pool s))) ∨
    ¬ quiet s ∧ entries (get_pool s') = entries (get_pool s)) ∨
   ¬ quiet s).

Lemma refs_of_size l : NoDup (name_of <$> l) → size (refs_of l) = length l.
Proof.
  intros Hnd. unfold refs_of. rewrite map_size_list_to_map; [apply length_fmap|].
  rewrite <- list_fmap_compose. by erewrite list_fmap_ext.
Qed.

(** The entry of a new timer. *)
Lemma pool_ok_push t n p :
  pool_ok p → tm_name t = Some n → 1 ≤ tm_refs t → n ∉ name_of <$> entries p →
  pool_size p < cap p → let fd := fresh_fd (kernel p) in
  pool_ok (set_entries (entries p ++ [(t, fd)])
    (set_kernel (<[fd := Some (tm_next t)]> (<[fd := None]> (kernel p))) p)) ∧
  refs_of (entries p ++ [(t, fd)]) = <[n := tm_refs t]> (refs_of (entries p)).
Proof.
  intros [Hrdy Hall Hnd Hf Hroom] Hn Hr Hnew Hcap fd. unfold pool_size in Hcap. rewrite Hrdy in Hcap.
  pose proof (is_fresh (dom (kernel p))) as Hfresh. change (fd ∉ dom (kernel p)) in Hfresh.
  assert (name_of (t, fd) = n) as Hname by (unfold name_of; simpl; by rewrite Hn).
  assert (∀ e, e ∈ entries p → e.2 ≠ fd) as Hold.
  { intros e He Heq. rewrite Forall_forall in Hall. destruct (Hall e He) as (_ & _ & Hk).
    apply Hfresh, elem_of_dom. rewrite <- Heq. eauto. }
  assert (NoDup (name_of <$> entries p ++ [(t, fd)])) as Hnd'.
  { rewrite fmap_app. apply NoDup_app. split_and!; [done| |apply NoDup_singleton]. simpl. set_solver. }
  split.
  - split; simpl; [done| |done| |rewrite length_app; simpl; lia].
    + apply Forall_app. split.
      * apply Forall_forall. intros e He. rewrite Forall_forall in Hall. destruct (Hall e He) as (? & ? & ?).
        split_and!; [done|done|]. by rewrite !lookup_insert_ne by (symmetry; by apply Hold).
      * apply Forall_singleton. split_and!; simpl; [by rewrite Hn|done|by rewrite lookup_insert_eq].
    + rewrite fmap_app. apply NoDup_app. split_and!; [done| |apply NoDup_singleton].
      intros x (e & -> & He)%list_elem_of_fmap Hx. simpl in Hx. apply list_elem_of_singleton in Hx.
      by apply (Hold e).
  - rewrite <- Hname. apply (refs_of_cons _ (t, fd)); [|done]. by rewrite Permutation_app_comm.
Qed.

(** A descriptor that belongs to no entry changes nothing. *)
Lemma pool_ok_kernel v p :
  pool_ok p → pool_ok (set_kernel (<[fresh_fd (kernel p) := v]> (kernel p)) p).
Proof.
  intros [Hrdy Hall Hnd Hf Hroom]. split; simpl; try done. eapply Forall_impl; [done|].
  intros e (? & ? & Hk). split_and!; [done|done|]. rewrite lookup_insert_ne; [done|].
  intros Heq. apply (is_fresh (dom (kernel p))), elem_of_dom. exists (Some (tm_next e.1)).
  by replace (fresh (dom (kernel p))) with e.2.
Qed.

Lemma insert_timer_spec t n s :
  pool_locked (get_pool s) = false → pool_ok (get_pool s) → tm_name t = Some n → 1 ≤ tm_refs t →
  n ∉ name_of <$> entries (get_pool s) →
  wp (crinitTimerDBInsertTimer t)
     (λ r s', pframe s s' ∧ pool_locked (get_pool s') = false ∧ cap (get_pool s') = cap (get_pool s) ∧
        pool_ok (get_pool s') ∧
        (refs_of (entries (get_pool s')) =
           (if pool_size (get_pool s) <? cap (get_pool s)
            then <[n := tm_refs t]> (refs_of (entries (get_pool s))) else refs_of (entries (get_pool s))) ∨
         ¬ quiet s ∧ entries (get_pool s') = entries (get_pool s))) s.
Proof.
  intros Hu Hok Hn Hr Hnew. unfold crinitTimerDBInsertTimer. apply wp_bind, wp_lock_pool; [done| |].
  { intros s1 Hs1 E1 Hq. apply wp_ret. rewrite E1. split_and!; auto. }
  intros s1 Hs1 E1. apply wp_bind, wp_mpool, wp_bind. rewrite E1. simpl.
  change (pool_size (set_pool_locked true (get_pool s))) with (pool_size (get_pool s)).
  destruct (Z.leb_spec (cap (get_pool s)) (pool_size (get_pool s))) as [Hfull|Hroom].
  { apply wp_ret, wp_bind, wp_pool_modify. intros s2 Hs2 E2. rewrite E1 in E2. apply wp_ret. rewrite E2. simpl.
    split_and!; [by etrans|done|done|by apply (pool_ok_aux false (updates (get_pool s)))|].
    left. by rewrite (proj2 (Z.ltb_ge _ _) Hfull). }
  rewrite (proj2 (Z.ltb_lt _ _) Hroom). apply wp_bind, wp_pool_fallible. intros [] s2 Hs2 E2 Hq2.
  { apply wp_ret, wp_bind, wp_pool_modify. intros s3 Hs3 E3. rewrite E2, E1 in E3. apply wp_ret. rewrite E3. simpl.
    split_and!; [by repeat (etrans; [eassumption|])|done|done|by apply (pool_ok_aux false (updates (get_pool s)))|].
    right. split; [|done]. intros Hq. apply Hs1 in Hq. by specialize (Hq2 Hq). }
  apply wp_bind, wp_pool_modify. intros s3 Hs3 E3. rewrite E2, E1 in E3. simpl in E3.
  destruct (pool_ok_push t n (get_pool s) Hok Hn Hr Hnew Hroom) as [Hpush Hrefs].
  apply wp_bind, wp_pool_fallible. intros [] s4 Hs4 E4 Hq4.
  - apply wp_ret, wp_bind, wp_pool_modify. intros s5 Hs5 E5. rewrite E4, E3 in E5. apply wp_ret. rewrite E5. simpl.
    split_and!; [by repeat (etrans; [eassumption|])|done|done| |].
    + apply (pool_ok_aux false (updates (get_pool s)) (set_kernel _ (get_pool s))), pool_ok_kernel; done.
    + right. split; [|done]. intros Hq. by specialize (Hq4 (proj2 Hs3 (proj2 Hs2 (proj2 Hs1 Hq)))).
  - apply wp_bind, wp_pool_modify. intros s5 Hs5 E5. rewrite E4, E3 in E5. simpl in E5.
    apply wp_bind, wp_notify. intros b u s6 Hs6 E6 _. rewrite E5 in E6.
    apply wp_ret, wp_bind, wp_pool_modify. intros s7 Hs7 E7. rewrite E6 in E7. apply wp_ret. rewrite E7. simpl.
    split_and!; [by repeat (etrans; [eassumption|])|done|done|exact (pool_ok_aux false u _ Hpush)|left; exact Hrefs].
Qed.

(** Whatever the timer is, the lock is released and the capacity stays. *)
Lemma insert_unnamed t s :
  pool_locked (get_pool s) = false →
  wp (crinitTimerDBInsertTimer t)
     (λ _ s', pframe s s' ∧ pool_locked (get_pool s') = false ∧ cap (get_pool s') = cap (get_pool s)) s.
Proof.
  intros Hu. unfold crinitTimerDBInsertTimer. apply wp_bind, wp_lock_pool; [done| |].
  { intros s1 Hs1 E1 _. apply wp_ret. by rewrite E1. }
  intros s1 Hs1 E1. apply wp_bind, wp_mpool, wp_bind.
  apply (wp_mono _ (λ _ s', pframe s s' ∧ cap (get_pool s') = cap (get_pool s))).
  { intros r s2 [Hs2 Hc]. apply wp_bind, wp_pool_modify. intros s3 Hs3 E3. apply wp_ret. rewrite E3. simpl.
    split_and!; [by etrans|done|done]. }
  case_if; [apply wp_ret; by rewrite E1|]. apply wp_bind, wp_pool_fallible. intros [] s2 Hs2 E2 _.
  { apply wp_ret. rewrite E2, E1. split; [by etrans|done]. }
  apply wp_bind, wp_pool_modify. intros s3 Hs3 E3. apply wp_bind, wp_pool_fallible. intros [] s4 Hs4 E4 _.
  { apply wp_ret. rewrite E4, E3, E2, E1. split; [by repeat (etrans; [eassumption|])|done]. }
  apply wp_bind, wp_pool_modify. intros s5 Hs5 E5. apply wp_bind, wp_notify. intros b u s6 Hs6 E6 _. apply wp_ret.
  rewrite E6, E5, E4, E3, E2, E1. split; [by repeat (etrans; [eassumption|])|done].
Qed.

Lemma add_spec n s :
  pool_locked (get_pool s) = false → pool_ok (get_pool s) →
  (∀ r, refs_of (entries (get_pool s)) !! n = Some r → r + 1 < 2 ^ 64) →
  wp (crinitTimerDBAddTimer n) (λ _ s', added n s s') s.
Proof.
  intros Hu Hok Hmax. unfold crinitTimerDBAddTimer. apply wp_bind, wp_lock_pool; [done| |].
  { intros s1 Hs1 E1 Hq. apply wp_ret. split_and!; rewrite ?E1; [done|done|done|]. by right. }
  intros s1 Hs1 E1. apply wp_bind, wp_mpool, wp_bind. rewrite E1. simpl.
  apply wp_find_timer; [by apply pool_ok_named| |].
  - intros i e Hi Hn. apply wp_bind, wp_notify. intros b u s2 Hs2 E2 _. rewrite E1 in E2.
    apply wp_bind, wp_pool_modify. intros s3 Hs3 E3. rewrite E2 in E3. simpl in E3.
    apply wp_pool_modify. intros s4 Hs4 E4. rewrite E3 in E4. simpl in E4.
    pose proof (pool_entries _ Hok) as Hall. rewrite Forall_lookup in Hall. destruct (Hall _ _ Hi) as (_ & Hpos & _).
    destruct (refs_of_cons (entries (get_pool s)) e (swap_out i (entries (get_pool s)))) as (E & Hnone & _);
      [by rewrite swap_out_perm|apply Hok|].
    assert (uint64 (tm_refs e.1 + 1) = tm_refs e.1 + 1) as Hw.
    { specialize (Hmax (tm_refs e.1)). rewrite E, Hn, lookup_insert_eq in Hmax. specialize (Hmax eq_refl).
      unfold uint64. apply Z.mod_small. lia. }
    assert (alter (λ e, (set_refs (uint64 (tm_refs e.1 + 1)) e.1, e.2)) i (entries (get_pool s)) =
      <[i := (set_refs (tm_refs e.1 + 1) e.1, e.2)]> (entries (get_pool s))) as Ea.
    { rewrite <- Hw. apply list_eq. intros j. destruct (decide (i = j)) as [<-|Hne].
      - rewrite list_lookup_alter_eq, Hi, list_lookup_insert_eq by (by eapply lookup_lt_Some). done.
      - by rewrite list_lookup_alter_ne, list_lookup_insert_ne. }
    rewrite Ea in E4. split_and!; rewrite ?E4; simpl; [by repeat (etrans; [eassumption|])|done|done|].
    left. split; [refine (pool_ok_aux false u _ (pool_ok_refs i e _ _ Hi _ Hok)); lia|left].
    unfold spec_add. rewrite E, Hn, lookup_insert_eq, insert_insert_eq. rewrite <- Hn.
    set (e' := (set_refs (tm_refs e.1 + 1) e.1, e.2)).
    destruct (refs_of_cons (<[i := e']> (entries (get_pool s))) e' (swap_out i (entries (get_pool s)))) as [E' _];
      [by eapply insert_swap_out| |done].
    rewrite list_fmap_insert, list_insert_id; [apply Hok|]. by rewrite list_lookup_fmap, Hi.
  - intros Hn. apply wp_bind, wp_pool_modify. intros s2 Hs2 E2. rewrite E1 in E2.
    assert (get_pool s2 = get_pool s) as E by (rewrite E2; destruct (get_pool s); simpl in *; by subst).
    apply wp_bind, wp_pool_fallible. intros b s3 Hs3 E3 Hq3. rewrite E in E3. apply wp_bind, wp_get, wp_bind.
    destruct b.
    + assert (¬ quiet s) as Hnq.
      { intros Hq. by specialize (Hq3 (proj2 Hs2 (proj2 Hs1 Hq))). }
      eapply wp_mono; [|apply (insert_unnamed _ s3); by rewrite E3]. intros r s4 (Hs4 & Hu4 & Hc4). apply wp_ret.
      split_and!; [by repeat (etrans; [eassumption|])|done|by rewrite Hc4, E3|by right].
    + eapply wp_mono; [|eapply (insert_timer_spec _ n); rewrite ?E3; [done|done|done|simpl; lia|done]].
      rewrite E3. intros r s4 (Hs4 & Hu4 & Hc4 & Hok4 & Hrefs). apply wp_ret.
      split_and!; [by repeat (etrans; [eassumption|])|done|done|]. left. split; [done|].
      destruct Hrefs as [Hrefs|[Hnq He]]; [left|right].
      * rewrite Hrefs. unfold spec_add, pool_size. rewrite (pool_ready _ Hok).
        rewrite (refs_of_size _ (pool_names _ Hok)). simpl.
        destruct (refs_of (entries (get_pool s)) !! n) as [r0|] eqn:Hr0; [|done].
        destruct (refs_of_lookup _ _ _ (pool_names _ Hok) Hr0) as (i & e & Hi & <- & _). exfalso. apply Hn.
        apply list_elem_of_fmap. exists e. split; [done|]. by eapply list_elem_of_lookup_2.
      * split; [|done]. intros Hq. by apply Hnq, Hs3, Hs2, Hs1.
Qed.
End PoolSpec.
