(* ===== verification/TimerDBProps.v ===== *)
(** * The timer pool and the task database together

    The thread of timerdb.c, the state of a daemon that has both components
    (the pool discharges what taskdb.c expects of crinitTimerDBRemoveTimer()),
    and the theorems about the pool. *)

From Stdlib Require Import ZArith Lia Bool List String Ascii.
From stdpp Require Import base list strings gmap.
From S2P Require Import Prelude EnvSet Timer Task TaskDB TaskDBSpec TaskDBProps TimerDB.

Open Scope Z_scope.
Open Scope crinit_scope.

(** ** The thread *)

(** What poll() reports: it failed, or whether the event descriptor is readable
    and which timers have fired. *)
Inductive poll_result :=
| PollFailed
| Polled (update : bool) (fired : nat → bool).

Section Thread.
Context {S : Type} `{TaskDBServices S} `{!TimerState S}.

(** The timers from index [i] on. *)
Fixpoint fire_loop (n i : nat) (fired : nat → bool) : M S unit :=
  match n with
  | O => mret tt
  | Datatypes.S n =>
      (if fired i then
         p ← mpool;
         match entries p !! i with
         | None => mret tt
         | Some (t, fd) =>
             _ ← fallible;  (* read *)
             match tm_name t with
             | None => mundef
             | Some name =>
                 _ ← crinitTaskDBFulfillDep (mkDep TIMER_DEP_NAME name) None;
                 let next := crinitTimerNextTime (tm_next t) (tm_def t) in
                 mpool_modify (λ p, set_entries (<[i := (set_next next t, fd)]> (entries p)) p) ;;
                 err ← fallible;  (* timerfd_settime *)
                 if (err : bool) then mret tt
                 else mpool_modify (λ p, set_kernel (<[fd := Some next]> (kernel p)) p)
             end
         end
       else mret tt) ;;
      fire_loop n (Datatypes.S i) fired
  end.

(** One turn of the loop of crinitTimerDBRunPool(): [true] to go on. *)
Definition crinitTimerDBRunPool (r : poll_result) : M S bool :=
  match r with
  | PollFailed => mret false
  | Polled update fired =>
      err ← lock_pool;
      if negb (err =? 0) then mret false else
      if (update : bool) then
        err ← fallible;  (* read *)
        (if (err : bool) then mret tt else mpool_modify (set_updates 0)) ;;
        unlock_pool ;; mret true
      else
        p ← mpool;
        fire_loop (length (entries p)) 0 fired ;;
        unlock_pool ;; mret true
  end.
End Thread.

(** ** A daemon with a task database and a timer pool *)

Record timed := mkTimed {
  d_faults : list bool;
  d_db : crinitTaskDB;
  d_threads : list (task_ptr * crinitDispatchThreadMode);
  d_pool : crinitTimerDB;
  d_now : timespec;
}.

(** The mutex of the pool is free and every timer has a name. *)
Definition pool_idle (p : crinitTimerDB) : Prop := pool_locked p = false ∧ pool_ok p.

#[export, refine] Instance timed_faulty : Faulty timed := {|
  faults := d_faults;
  set_faults := λ l s, mkTimed l (d_db s) (d_threads s) (d_pool s) (d_now s);
  idle := λ s, pool_idle (d_pool s);
|}.
Proof. all: done || by intros []. Defined.

#[export, refine] Instance timed_pool : TimerState timed := {|
  get_pool := d_pool;
  set_pool := λ p s, mkTimed (d_faults s) (d_db s) (d_threads s) p (d_now s);
  now := d_now;
|}.
Proof. all: done || by intros []. Defined.

#[export, refine] Instance timed_cgroups : CgroupQuery timed := {|
  crinitCgroupNameIsGlobalCgroup := λ _, mret (0, false);
|}.
Proof. intros name s _. apply wp_ret. split; [apply same_faults|done]. Defined.

(** The pool keeps its promise to the task database. *)
Lemma timed_remove str (s : timed) :
  idle s →
  wp (TimerDB.crinitTimerDBRemoveTimer str)
     (λ _ s', d_db s' = d_db s ∧ d_threads s' = d_threads s ∧ idle s' ∧ (quiet s → quiet s')) s.
Proof.
  intros [Hu Hok]. eapply wp_mono; [|by apply remove_spec].
  intros [] s' ([(fs & p & ->) Hq] & Hu' & Hok' & _). by split_and!.
Qed.

#[export, refine] Instance timed_services : TaskDBServices timed := {|
  get_db := d_db;
  set_db := λ d s, mkTimed (d_faults s) d (d_threads s) (d_pool s) (d_now s);
  threads := d_threads;
  clock_monotonic := mret (Some (mkTimespec 7 0));
  crinitElosLog := λ _ _ _ _, mret 0;
  crinitFeatureHook := λ _ _ _, mret 0;
  TaskDB.crinitTimerDBRemoveTimer := TimerDB.crinitTimerDBRemoveTimer;
  call_spawnFunc := λ p mode,
    err ← fallible;
    if (err : bool) then mret (-1)
    else mmodify (λ s, mkTimed (d_faults s) (d_db s) (d_threads s ++ [(p, mode)]) (d_pool s) (d_now s)) ;;
      mret 0;
|}.
Proof.
  1-8: done || by intros [].
  - intros s. by apply wp_ret.
  - intros. by apply wp_ret.
  - intros. by apply wp_ret.
  - apply timed_remove.
  - intros p mode s Hi. apply wp_bind, wp_fallible_why. intros [] s' [[fs ->] Hq] Hb.
    + apply wp_ret. simpl. split_and!; [done|done| |by right]. intros Hs. by specialize (Hb Hs).
    + apply wp_bind, wp_modify, wp_ret. simpl. split_and!; [done|done| |by left].
      intros Hs. specialize (Hq Hs). split; [|done]. unfold quiet in *. simpl in *.
      by rewrite <- Hq in Hs.
Defined.

(** ** A sequence of calls on the pool *)

Inductive pool_op := AddTimer (n : string) | RemoveTimer (n : string).

Fixpoint run_pool {S} `{TimerState S} (ops : list pool_op) : M S unit :=
  match ops with
  | [] => mret tt
  | AddTimer n :: ops => TimerDB.crinitTimerDBAddTimer n ;; run_pool ops
  | RemoveTimer n :: ops => TimerDB.crinitTimerDBRemoveTimer n ;; run_pool ops
  end.

Definition spec_pool (capacity : Z) (m : gmap string Z) (op : pool_op) : gmap string Z :=
  match op with
  | AddTimer n => spec_add capacity n m
  | RemoveTimer n => spec_remove n m
  end.

(** A counter grows by at most one in a step. *)
Lemma spec_pool_bound capacity m op b :
  1 ≤ b → (∀ n r, m !! n = Some r → r ≤ b) → ∀ n r, spec_pool capacity m op !! n = Some r → r ≤ b + 1.
Proof.
  intros Hb Hm n r. destruct op as [k|k]; simpl; unfold spec_add, spec_remove.
  - destruct (m !! k) as [r0|] eqn:E.
    + intros [[<- <-]|[_ Hl]]%lookup_insert_Some; [specialize (Hm _ _ E); lia|specialize (Hm _ _ Hl); lia].
    + case_if; [|intros Hl; specialize (Hm _ _ Hl); lia].
      intros [[<- <-]|[_ Hl]]%lookup_insert_Some; [lia|specialize (Hm _ _ Hl); lia].
  - destruct (m !! k) as [r0|] eqn:E; [case_if|]; intros Hl.
    + apply lookup_delete_Some in Hl as [_ Hl]. specialize (Hm _ _ Hl). lia.
    + apply lookup_insert_Some in Hl as [[<- <-]|[_ Hl]]; [specialize (Hm _ _ E)|specialize (Hm _ _ Hl)]; lia.
    + specialize (Hm _ _ Hl). lia.
Qed.

Section PoolTheorems.
Context {S : Type} `{TimerState S}.
Implicit Types s : S.

Lemma run_pool_spec ops b s :
  quiet s → pool_locked (get_pool s) = false → pool_ok (get_pool s) → 1 ≤ b →
  (∀ n r, refs_of (entries (get_pool s)) !! n = Some r → r ≤ b) → b + Z.of_nat (length ops) < 2 ^ 64 →
  wp (run_pool ops)
     (λ _ s', pool_locked (get_pool s') = false ∧ pool_ok (get_pool s') ∧
        refs_of (entries (get_pool s')) =
        foldl (spec_pool (cap (get_pool s))) (refs_of (entries (get_pool s))) ops) s.
Proof.
  revert b s. induction ops as [|op ops IH]; intros b s Hq Hu Hok Hb Hm Hlen; simpl; [by apply wp_ret|].
  cbn [length] in Hlen.
  assert (∀ s1, pframe s s1 → pool_locked (get_pool s1) = false → cap (get_pool s1) = cap (get_pool s) →
    pool_ok (get_pool s1) →
    refs_of (entries (get_pool s1)) = spec_pool (cap (get_pool s)) (refs_of (entries (get_pool s))) op →
    wp (run_pool ops) (λ _ s', pool_locked (get_pool s') = false ∧ pool_ok (get_pool s') ∧
        refs_of (entries (get_pool s')) = foldl (spec_pool (cap (get_pool s)))
          (spec_pool (cap (get_pool s)) (refs_of (entries (get_pool s))) op) ops) s1) as Hgo.
  { intros s1 Hs1 Hu1 Hc1 Hok1 E1. rewrite <- E1, <- Hc1.
    apply (IH (b + 1)); [by apply Hs1|done|done|lia| |lia].
    rewrite E1. by apply spec_pool_bound. }
  destruct op as [n|n]; apply wp_bind.
  - eapply wp_mono; [|apply add_spec; [done|done|]].
    + intros [] s1 (Hs1 & Hu1 & Hc1 & Hr). destruct Hr as [[Hok1 [Hr|[Hnq _]]]|Hnq]; [by apply Hgo|done|done].
    + intros r Hr. specialize (Hm _ _ Hr). lia.
  - eapply wp_mono; [|by apply remove_spec].
    intros [] s1 (Hs1 & Hu1 & Hok1 & _ & Hc1 & [Hr|[Hnq _]]); [by apply Hgo|done].
Qed.
End PoolTheorems.

(** ** The mutex of the pool taken twice *)

Section Deadlock.
Implicit Types s : timed.

Lemma remove_timer_blocks n s :
  quiet s → pool_locked (d_pool s) = true → TimerDB.crinitTimerDBRemoveTimer n s = Block.
Proof.
  intros Hq Hl. unfold TimerDB.crinitTimerDBRemoveTimer. apply bind_block. unfold lock_pool.
  rewrite bind_fallible by done. unfold mbind, M_bind, mpool. simpl. by rewrite Hl.
Qed.

Lemma remove_loop_blocks fuel j deps n s :
  quiet s → pool_locked (d_pool s) = true → (length deps - j ≤ fuel)%nat →
  mkDep TIMER_DEP_NAME n ∈ drop j deps →
  remove_dep_loop fuel j deps (mkDep TIMER_DEP_NAME n) s = Block.
Proof.
  intros Hq Hl. revert j. induction fuel as [|fuel IH]; intros j Hf Hin.
  { rewrite drop_ge in Hin by lia. set_solver. }
  simpl. destruct (deps !! j) as [d|] eqn:Hd.
  2:{ apply lookup_ge_None in Hd. rewrite drop_ge in Hin by lia. set_solver. }
  destruct (dep_eqb d _) eqn:E.
  - apply bind_block. by apply remove_timer_blocks.
  - apply dep_eqb_false in E. apply IH; [lia|]. rewrite (drop_S _ _ _ Hd) in Hin. set_solver.
Qed.

Lemma remove_loop_passes fuel j deps dep s :
  dep ∉ drop j deps → remove_dep_loop fuel j deps dep s = Ret deps s.
Proof.
  revert j. induction fuel as [|fuel IH]; intros j Hn; simpl; [done|].
  destruct (deps !! j) as [d|] eqn:Hd; [|done]. rewrite (drop_S _ _ _ Hd) in Hn.
  rewrite (proj2 (dep_eqb_false d dep)) by set_solver. apply IH. set_solver.
Qed.

(** Somebody among the tasks from index [j] on waits for the timer. *)
Definition waits (n : string) (j : nat) (d : crinitTaskDB) : Prop :=
  Forall live (taskSet d) ∧
  ∃ k sl, (j ≤ k)%nat ∧ taskSet d !! k = Some sl ∧ mkDep TIMER_DEP_NAME n ∈ t_deps (sl_task sl).

Lemma fulfil_loop_blocks n m j s :
  quiet s → pool_locked (d_pool s) = true → length (taskSet (d_db s)) = (j + m)%nat → waits n j (d_db s) →
  mfor (seq j m) (λ i, crinitTaskDBRemoveDepFromTaskStruct i (mkDep TIMER_DEP_NAME n)) s = Block.
Proof.
  revert j s. induction m as [|m IH]; intros j s Hq Hl Hlen (Hlive & k & sl & Hk & Hsl & Hin); simpl.
  { apply lookup_lt_Some in Hsl. lia. }
  destruct (lookup_lt_is_Some_2 (taskSet (d_db s)) j ltac:(lia)) as [slj Hj].
  pose proof Hlive as Hlive'. rewrite Forall_lookup in Hlive'. pose proof (Hlive' _ _ Hj) as Hmem.
  destruct slj as [mem tj]. unfold live in Hmem. simpl in Hmem. subst mem.
  destruct (decide (mkDep TIMER_DEP_NAME n ∈ t_deps tj)) as [Hw|Hw].
  - apply bind_block. unfold crinitTaskDBRemoveDepFromTaskStruct.
    rewrite (bind_run mdb _ s (d_db s) s) by done. rewrite Hj. cbv beta iota. apply bind_block.
    apply remove_loop_blocks; [done|done|simpl; lia|done].
  - set (trg := t_triggered tj || existsb (λ d, dep_eqb d (mkDep TIMER_DEP_NAME n)) (t_trig tj)).
    rewrite (bind_run _ _ s tt (set_db (upd_task (λ t, set_t_triggered trg (set_t_deps (t_deps tj) t)) j (d_db s)) s)).
    2:{ unfold crinitTaskDBRemoveDepFromTaskStruct. rewrite (bind_run mdb _ s (d_db s) s) by done.
        rewrite Hj. cbn [sl_mem sl_task]. by rewrite (bind_run _ _ _ _ _ (remove_loop_passes _ 0 (t_deps tj) _ s Hw)). }
    apply IH; simpl; [done|done|by rewrite length_alter; lia|].
    assert (j ≠ k) by (intros <-; rewrite Hj in Hsl; by injection Hsl as <-).
    unfold waits, upd_task; simpl.
    split; [|exists k, sl; split_and!; [lia|by rewrite list_lookup_alter_ne|done]].
    apply Forall_alter; [done|]. intros x Hx _. by apply (Hlive' _ _ Hx).
Qed.

Lemma fulfill_blocks n s :
  quiet s → pool_locked (d_pool s) = true → db_ok (d_db s) → locked (d_db s) = false → waits n 0 (d_db s) →
  crinitTaskDBFulfillDep (mkDep TIMER_DEP_NAME n) None s = Block.
Proof.
  intros Hq Hl Hok Hu Hw. unfold crinitTaskDBFulfillDep.
  set (s1 := set_db (set_locked true (get_db s)) s).
  rewrite (bind_run lock_db _ s 0 s1).
  2:{ unfold lock_db. rewrite (bind_run mdb _ s (get_db s) s) by done. simpl. rewrite (db_mutex _ Hok). simpl.
      rewrite bind_fallible by done. by rewrite Hu. }
  simpl. rewrite (bind_run mdb _ s1 (get_db s1) s1) by done. apply bind_block.
  by apply fulfil_loop_blocks.
Qed.

Lemma fire_blocks m j i t fd n s :
  quiet s → pool_locked (d_pool s) = true → db_ok (d_db s) → locked (d_db s) = false → waits n 0 (d_db s) →
  entries (d_pool s) !! i = Some (t, fd) → tm_name t = Some n → (j ≤ i < j + m)%nat →
  fire_loop m j (Nat.eqb i) s = Block.
Proof.
  intros Hq Hl Hok Hu Hw Hi Hn. revert j. induction m as [|m IH]; intros j Hj; [lia|]. simpl.
  destruct (Nat.eqb_spec i j) as [->|Hne].
  - apply bind_block. rewrite (bind_run mpool _ s (d_pool s) s) by done. rewrite Hi, bind_fallible by done.
    rewrite Hn. apply bind_block. by apply fulfill_blocks.
  - rewrite (bind_run (mret tt) _ s tt s) by done. apply IH. lia.
Qed.
End Deadlock.

(** ** Theorems *)

Section Theorems.
Context {S : Type} `{TimerState S}.

(** C36: the pool is a table of reference counts.  After any sequence of calls
    of crinitTimerDBAddTimer() and crinitTimerDBRemoveTimer() on an initialised
    pool, without failing library calls, a timer is in the pool exactly as
    often as it is referred to: adding counts up or inserts while there is
    room, removing counts down and drops the timer with its last reference.
    The mutex is free, names and descriptors are unique, and every timer's
    descriptor is set to its next time. *)
Theorem timer_pool_refines_counts ops s :
  quiet s → pool_locked (get_pool s) = false → pool_ok (get_pool s) → entries (get_pool s) = [] →
  Z.of_nat (length ops) + 1 < 2 ^ 64 →
  wp (run_pool ops)
     (λ _ s', pool_locked (get_pool s') = false ∧ pool_ok (get_pool s') ∧
        refs_of (entries (get_pool s')) = foldl (spec_pool (cap (get_pool s))) ∅ ops) s.
Proof.
  intros Hq Hu Hok He Hlen. pose proof (run_pool_spec ops 1 s Hq Hu Hok) as Hrun. rewrite He in Hrun.
  apply Hrun; [lia|by intros n r|lia].
Qed.
End Theorems.

(** When a timer fires that a task waits for, the thread of the pool waits
    forever: it holds the mutex of the pool while it removes the dependency,
    and removing a timer dependency takes the same mutex again. *)
Theorem crinitTimerDBRunPool_self_deadlock i t fd n (s : timed) :
  stable s → quiet s → entries (get_pool s) !! i = Some (t, fd) → tm_name t = Some n →
  (∃ name t', db_map (get_db s) !! name = Some t' ∧ mkDep TIMER_DEP_NAME n ∈ t_deps t') →
  crinitTimerDBRunPool (Polled false (Nat.eqb i)) s = Block.
Proof.
  intros [Hok Hul [Hu Hpok]] Hq Hi Hn (name & t' & Ht' & Hin). simpl in *. unfold crinitTimerDBRunPool.
  set (s1 := set_pool (set_pool_locked true (d_pool s)) s).
  rewrite (bind_run lock_pool _ s 0 s1).
  2:{ unfold lock_pool. rewrite bind_fallible by done. rewrite (bind_run mpool _ s (d_pool s) s) by done. by rewrite Hu. }
  simpl. rewrite (bind_run mpool _ s1 (d_pool s1) s1) by done. apply bind_block.
  eapply (fire_blocks _ 0 i t fd n); simpl; [done|done|done|done| |done|done|].
  - split; [apply Hok|]. apply elem_of_list_to_map_2, list_elem_of_fmap in Ht' as (sl & [= -> ->] & Hsl).
    apply list_elem_of_lookup in Hsl as [k Hk]. exists k, sl. split_and!; [lia|done|done].
  - pose proof (lookup_lt_Some _ _ _ Hi). lia.
Qed.

(** ** Witnesses *)

Definition demo_pool : crinitTimerDB := mkPool TIMER_DB_INITIAL_CAP [] true false ∅ 0.
Definition demo_def : crinitTimerDef := mkTimerDef 127 (0, 65535) (1, 12) (1, 31) (0, 0) (0, 0) (0, 0) (0, 0).
Definition demo_timed (p : crinitTimerDB) (d : crinitTaskDB) : timed :=
  mkTimed [] d [] p (mkTimespec 0 0).

Lemma demo_pool_ok : pool_ok demo_pool.
Proof. split; simpl; [done|constructor|constructor|constructor|done]. Qed.

Lemma timer_pool_refines_counts_witness :
  wp (run_pool [AddTimer "daily"; AddTimer "hourly"; AddTimer "daily"; RemoveTimer "hourly"; RemoveTimer "daily"])
     (λ _ s', pool_locked (get_pool s') = false ∧ pool_ok (get_pool s') ∧
        refs_of (entries (get_pool s')) = {[ "daily"%string := 1 ]}) (demo_timed demo_pool (demo_db [])).
Proof.
  eapply wp_mono; [|apply timer_pool_refines_counts; [reflexivity|reflexivity|apply demo_pool_ok|reflexivity|reflexivity]].
  intros [] s' (Hu & Hok & Hr). split_and!; [exact Hu|exact Hok|]. rewrite Hr. vm_compute. reflexivity.
Defined.

(** The task "net" waits for the timer "daily". *)
Definition demo_waiting : crinitTask := set_t_deps [mkDep TIMER_DEP_NAME "daily"] demo_net.
Definition demo_timer : crinitTimer := mkTimer demo_def (Some "daily"%string) 1 (mkTimespec 86400 0).
Definition demo_fired : timed :=
  demo_timed (mkPool TIMER_DB_INITIAL_CAP [(demo_timer, 7)] true false {[7 := Some (mkTimespec 86400 0)]} 0)
    (demo_db [demo_fs; demo_waiting]).

Lemma demo_fired_stable : stable demo_fired.
Proof.
  split; [|done|].
  - split; simpl; [done|lia|by repeat constructor|repeat constructor; set_solver|].
    apply Forall_cons. split; [apply demo_fs_ok|]. apply Forall_singleton.
    split; simpl; [by repeat constructor|by constructor|apply demo_env_ok|apply demo_env_ok|done].
  - split; [done|]. split; simpl; [done| |apply NoDup_singleton|apply NoDup_singleton|done].
    apply Forall_singleton. split_and!; [done|done|reflexivity].
Qed.

Lemma crinitTimerDBRunPool_self_deadlock_witness :
  crinitTimerDBRunPool (Polled false (Nat.eqb 0)) demo_fired = Block.
Proof.
  apply (crinitTimerDBRunPool_self_deadlock 0 demo_timer 7 "daily" demo_fired);
    [apply demo_fired_stable|reflexivity|reflexivity|reflexivity|].
  exists "net"%string, demo_waiting. split; [reflexivity|]. set_solver.
Defined.
