(* ===== verification/Lexers.v ===== *)
(** * Lexers: src/lexers.re

    Each lexer takes the text at the cursor and returns the kind of the token,
    the text between *mbegin and *mend, and the text at the new cursor.  re2c
    takes the longest match and, among equally long ones, the first rule; the
    classes of the first characters make that choice deterministic here.  A C
    string has no NUL character, so [EmptyString] is the end rule. *)

From Stdlib Require Import ZArith Lia Bool List String Ascii.
From stdpp Require Import base list strings.
From S2P Require Import Prelude.

Open Scope Z_scope.
Open Scope crinit_scope.

Inductive crinitTokenType :=
| CRINIT_TK_ERR | CRINIT_TK_END | CRINIT_TK_ENVKEY | CRINIT_TK_ENVVAL | CRINIT_TK_WSPC
| CRINIT_TK_VAR | CRINIT_TK_ESC | CRINIT_TK_ESCX | CRINIT_TK_CPY | CRINIT_TK_DQSTR | CRINIT_TK_UQSTR.

#[export] Instance token_eq_dec : EqDecision crinitTokenType.
Proof. solve_decision. Defined.

(** ** Character classes *)

Definition chr (n : nat) : ascii := ascii_of_nat n.
Definition c_newline : ascii := chr 10.
Definition c_tab : ascii := chr 9.
Definition c_space : ascii := " "%char.
Definition c_quote : ascii := chr 34.
Definition c_backslash : ascii := chr 92.

Definition is_char (c d : ascii) : bool := bool_decide (c = d).
Definition is_ws (c : ascii) : bool := is_char c c_space || is_char c c_tab.
Definition in_range (lo hi c : ascii) : bool :=
  (nat_of_ascii lo <=? nat_of_ascii c)%nat && (nat_of_ascii c <=? nat_of_ascii hi)%nat.
Definition is_alpha_ (c : ascii) : bool :=
  in_range "a" "z" c || in_range "A" "Z" c || is_char c "_".
Definition is_digit (c : ascii) : bool := in_range "0" "9" c.
Definition is_alnum_ (c : ascii) : bool := is_alpha_ c || is_digit c.
Definition is_hex (c : ascii) : bool := is_digit c || in_range "a" "f" c || in_range "A" "F" c.

(** [class]* : the longest prefix of characters in the class. *)
Fixpoint span (class : ascii → bool) (s : string) : string * string :=
  match s with
  | String c s' =>
      if class c then let '(m, r) := span class s' in (String c m, r) else (EmptyString, s)
  | EmptyString => (EmptyString, EmptyString)
  end.

(** ([^stop\\] | [\\][^\x00])* : characters up to one of [stop], where a
    backslash takes the next character with it. *)
Fixpoint esc_span (stop : ascii → bool) (s : string) : string * string :=
  match s with
  | EmptyString => (EmptyString, EmptyString)
  | String c s' =>
      if is_char c c_backslash then
        match s' with
        | EmptyString => (EmptyString, s)
        | String d s'' => let '(m, r) := esc_span stop s'' in (String c (String d m), r)
        end
      else if stop c then (EmptyString, s)
      else let '(m, r) := esc_span stop s' in (String c m, r)
  end.

(** ** The lexers *)

Definition token : Type := crinitTokenType * string * string.

Definition str1 (c : ascii) : string := String c EmptyString.

(** The rule for a character no other rule starts with. *)
Definition lex_err (c : ascii) (s : string) : token := (CRINIT_TK_ERR, str1 c, s).

Definition uq_stop (c : ascii) : bool :=
  is_char c c_space || is_char c c_quote || is_char c c_newline || is_char c c_tab.
Definition nq_stop (c : ascii) : bool := is_char c c_space || is_char c c_newline || is_char c c_tab.
Definition dq_stop (c : ascii) : bool := is_char c c_quote || is_char c c_newline.

Definition lex_plain (stop : ascii → bool) (c : ascii) (s' : string) : token :=
  match esc_span stop (String c s') with
  | (EmptyString, _) => lex_err c s'
  | (m, r) => (CRINIT_TK_UQSTR, m, r)
  end.

Definition crinitArgvLex (s : string) (dq : bool) : token :=
  match s with
  | EmptyString => (CRINIT_TK_END, EmptyString, EmptyString)
  | String c s' =>
      if is_ws c then let '(m, r) := span is_ws s in (CRINIT_TK_WSPC, m, r)
      else if dq then
        if is_char c c_quote then
          match esc_span dq_stop s' with
          | (m, String q r) => if is_char q c_quote then (CRINIT_TK_DQSTR, m, r) else lex_err c s'
          | _ => lex_err c s'
          end
        else lex_plain uq_stop c s'
      else lex_plain nq_stop c s'
  end.

(** The rules for escape sequences and single characters. *)
Definition lex_escape (c : ascii) (s' : string) : token :=
  if is_char c c_backslash then
    match s' with
    | EmptyString => lex_err c s'
    | String x s1 =>
        let plain := (CRINIT_TK_ESC, String c (str1 x), s1) in
        if is_char x "x" then
          match s1 with
          | String h1 (String h2 s2) =>
              if is_hex h1 && is_hex h2 then (CRINIT_TK_ESCX, String h1 (str1 h2), s2) else plain
          | _ => plain
          end
        else plain
    end
  else (CRINIT_TK_CPY, str1 c, s').

Definition crinitEscLex (s : string) : token :=
  match s with
  | EmptyString => (CRINIT_TK_END, EmptyString, EmptyString)
  | String c s' => lex_escape c s'
  end.

(** "${" varname "}" *)
Definition lex_var (s : string) : option (string * string) :=
  match s with
  | String d (String b (String v s')) =>
      if is_char d "$" && is_char b "{" && is_alpha_ v then
        match span is_alnum_ s' with
        | (m, String e r) => if is_char e "}" then Some (String v m, r) else None
        | _ => None
        end
      else None
  | _ => None
  end.

Definition crinitEnvVarInnerLex (s : string) : token :=
  match s with
  | EmptyString => (CRINIT_TK_END, EmptyString, EmptyString)
  | String c s' =>
      match lex_var s with
      | Some (name, r) => (CRINIT_TK_VAR, name, r)
      | None => lex_escape c s'
      end
  end.

(** The text before the last double quote. *)
Fixpoint last_quote (s : string) : option (string * string) :=
  match s with
  | EmptyString => None
  | String c s' =>
      match last_quote s' with
      | Some (m, r) => Some (String c m, r)
      | None => if is_char c c_quote then Some (EmptyString, s') else None
      end
  end.

Definition crinitEnvVarOuterLex (s : string) : token :=
  match s with
  | EmptyString => (CRINIT_TK_END, EmptyString, EmptyString)
  | String c s' =>
      if is_alpha_ c then let '(m, r) := span is_alnum_ s' in (CRINIT_TK_ENVKEY, String c m, r)
      else if is_ws c then let '(m, r) := span is_ws s in (CRINIT_TK_WSPC, m, r)
      else if is_char c c_quote then
        match last_quote s' with
        | Some (m, r) => (CRINIT_TK_ENVVAL, m, r)
        | None => lex_err c s'
        end
      else lex_err c s'
  end.

(** crinitEscMap *)
Definition crinitEscMap (c : ascii) : ascii :=
  if is_char c "n" then chr 10 else if is_char c "r" then chr 13 else if is_char c "b" then chr 8
  else if is_char c "a" then chr 7 else if is_char c c_quote then c_quote
  else if is_char c "'" then "'"%char else if is_char c c_backslash then c_backslash
  else if is_char c "f" then chr 12 else if is_char c "t" then chr 9 else if is_char c "v" then chr 11
  else if is_char c "$" then "$"%char else if is_char c " " then " "%char else chr 0.

(** ** Every token but the end makes progress *)

Lemma is_char_true c d : is_char c d = true ↔ c = d.
Proof. unfold is_char. apply bool_decide_eq_true. Qed.

Lemma span_app class s : let '(m, r) := span class s in s = (m +:+ r)%string.
Proof.
  induction s as [|c s IH]; simpl; [done|]. destruct (class c); [|done].
  revert IH. destruct (span class s) as [m r]. intros ->. done.
Qed.

Lemma span_length class s : let '(m, r) := span class s in
  String.length s = (String.length m + String.length r)%nat.
Proof.
  pose proof (span_app class s) as Hs. revert Hs. destruct (span class s) as [m r].
  intros ->. apply string_length_app.
Qed.

Lemma string_ind2 (P : string → Prop) :
  P EmptyString → (∀ c, P (str1 c)) → (∀ c d s, P s → P (String d s) → P (String c (String d s))) →
  ∀ s, P s.
Proof.
  intros H0 H1 H2. assert (∀ s, P s ∧ ∀ c, P (String c s)) as Hall; [|intros s; apply Hall].
  induction s as [|c s [IH1 IH2]]; split; [done|done|done|].
  intros d. apply H2; [done|apply IH2].
Qed.

Lemma esc_span_app stop s : let '(m, r) := esc_span stop s in s = (m +:+ r)%string.
Proof.
  induction s as [|c|c d s IH1 IH2] using string_ind2; [done| |].
  - unfold str1. simpl. destruct (is_char c c_backslash); [done|]. by destruct (stop c).
  - change (esc_span stop (String c (String d s))) with
      (if is_char c c_backslash then let '(m, r) := esc_span stop s in (String c (String d m), r)
       else if stop c then (EmptyString, String c (String d s))
       else let '(m, r) := esc_span stop (String d s) in (String c m, r)).
    destruct (is_char c c_backslash); [|destruct (stop c); [done|]].
    + revert IH1. destruct (esc_span stop s) as [m r]. by intros ->.
    + revert IH2. destruct (esc_span stop (String d s)) as [m r]. simpl. by intros ->.
Qed.

Lemma esc_span_length stop s : let '(m, r) := esc_span stop s in
  String.length s = (String.length m + String.length r)%nat.
Proof.
  pose proof (esc_span_app stop s) as Hs. revert Hs. destruct (esc_span stop s) as [m r].
  intros ->. apply string_length_app.
Qed.

(** A token that is neither the end nor an error is a part of the text, and the
    cursor moves past it. *)
Definition progress (s : string) (t : token) : Prop :=
  let '(ty, m, r) := t in
  ty ≠ CRINIT_TK_END → (String.length m + String.length r ≤ String.length s)%nat ∧
                       (String.length r < String.length s)%nat.

Lemma lex_err_progress c s : progress (String c s) (lex_err c s).
Proof. intros _. simpl. lia. Qed.

Lemma lex_plain_progress stop c s : progress (String c s) (lex_plain stop c s).
Proof.
  unfold lex_plain. pose proof (esc_span_length stop (String c s)) as Hl. revert Hl.
  destruct (esc_span stop (String c s)) as [[|a m] r]; intros Hl; [apply lex_err_progress|].
  intros _. simpl in *. lia.
Qed.

Lemma lex_escape_progress c s : progress (String c s) (lex_escape c s).
Proof.
  unfold lex_escape. destruct (is_char c c_backslash); [|intros _; simpl; lia].
  destruct s as [|x s1]; [apply lex_err_progress|].
  destruct (is_char x "x"); [|intros _; simpl; lia].
  destruct s1 as [|h1 [|h2 s2]]; [intros _; simpl; lia..|].
  destruct (is_hex h1 && is_hex h2); intros _; simpl; lia.
Qed.

Lemma crinitArgvLex_progress s dq : progress s (crinitArgvLex s dq).
Proof.
  destruct s as [|c s]; [done|]. unfold crinitArgvLex. destruct (is_ws c) eqn:Hws.
  { pose proof (span_length is_ws (String c s)) as Hl. revert Hl. simpl. rewrite Hws.
    destruct (span is_ws s) as [m r]. intros Hl _. simpl in *. lia. }
  destruct dq; [|apply lex_plain_progress]. destruct (is_char c c_quote); [|apply lex_plain_progress].
  pose proof (esc_span_length dq_stop s) as Hl. revert Hl.
  destruct (esc_span dq_stop s) as [m [|q r]]; intros Hl; [apply lex_err_progress|].
  destruct (is_char q c_quote); [|apply lex_err_progress]. intros _. simpl in *. lia.
Qed.

Lemma lex_var_length s name r :
  lex_var s = Some (name, r) → (String.length name + String.length r + 3 = String.length s)%nat.
Proof.
  destruct s as [|d [|b [|v s]]]; try done. unfold lex_var.
  destruct (is_char d "$" && is_char b "{" && is_alpha_ v); [|done].
  pose proof (span_length is_alnum_ s) as Hl. revert Hl.
  destruct (span is_alnum_ s) as [m [|e r']]; intros Hl; [done|].
  destruct (is_char e "}"); [|done]. intros [= <- <-]. simpl in *. lia.
Qed.

Lemma crinitEnvVarInnerLex_progress s : progress s (crinitEnvVarInnerLex s).
Proof.
  destruct s as [|c s]; [done|]. unfold crinitEnvVarInnerLex.
  destruct (lex_var (String c s)) as [[name r]|] eqn:E; [|apply lex_escape_progress].
  apply lex_var_length in E. intros _. lia.
Qed.

(** The text of a token that is not an escape sequence. *)
Lemma span_split class s m r :
  span class s = (m, r) → s = (m +:+ r)%string ∧ ∀ c, class c = false → str_has c m = false.
Proof.
  revert m r. induction s as [|a s IH]; intros m r; simpl; [by intros [= <- <-]|].
  destruct (class a) eqn:Ha; [|by intros [= <- <-]].
  destruct (span class s) as [m0 r0]. intros [= <- <-]. destruct (IH m0 r0 eq_refl) as [-> Hm].
  split; [done|]. intros c Hc. rewrite str_has_cons, Hm, orb_false_r by done.
  apply bool_decide_eq_false. intros ->. congruence.
Qed.

Lemma lex_var_split s name r :
  lex_var s = Some (name, r) →
  s = ("${" +:+ name +:+ "}" +:+ r)%string ∧ ∀ c, is_alnum_ c = false → str_has c name = false.
Proof.
  destruct s as [|d [|b [|v s]]]; try done. unfold lex_var.
  destruct (is_char d "$") eqn:Hd; [|done]. destruct (is_char b "{") eqn:Hb; [|done].
  destruct (is_alpha_ v) eqn:Hv; [|done]. simpl.
  destruct (span is_alnum_ s) as [m [|e r']] eqn:E; [done|].
  destruct (is_char e "}") eqn:He; [|done]. intros [= <- <-].
  unfold is_char in Hd, Hb, He. apply bool_decide_eq_true in Hd, Hb, He. subst.
  destruct (span_split _ _ _ _ E) as [-> Hm]. split; [done|]. intros c Hc.
  rewrite str_has_cons, Hm, orb_false_r by done. apply bool_decide_eq_false. intros ->.
  unfold is_alnum_ in Hc. by rewrite Hv in Hc.
Qed.
