(* ===== verification/ConfConv.v ===== *)
(** * Conversion of configuration values: src/confconv.c

    String arrays, integers, booleans, IO redirections and environment
    settings, converted from the text of a configuration value.  The result of
    strto*() is computed over Z and brought to the width of the C type the way
    the source does. *)

From Stdlib Require Import ZArith Lia Bool List String Ascii.
From stdpp Require Import base list strings gmap.
From S2P Require Import Prelude EnvSet Timer Task Lexers.

Open Scope Z_scope.
Open Scope crinit_scope.

(** The result of a parser: a value, a reported error, or undefined
    behaviour. *)
Inductive parsed (A : Type) := POk (a : A) | PFail | PUndef.
Arguments POk {A} a.
Arguments PFail {A}.
Arguments PUndef {A}.

Definition pmap {A B} (f : A → B) (p : parsed A) : parsed B :=
  match p with POk a => POk (f a) | PFail => PFail | PUndef => PUndef end.

(** ** Numbers *)

Definition digit_val (c : ascii) : Z :=
  let n := Z.of_nat (nat_of_ascii c) in
  if is_digit c then n - 48
  else if in_range "a" "z" c then n - 87
  else if in_range "A" "Z" c then n - 55
  else 99.

(** The digits at the front, after [acc]; [None] if there is none. *)
Fixpoint digits (base : Z) (s : string) (acc : Z) : Z * string :=
  match s with
  | String c s' => if digit_val c <? base then digits base s' (acc * base + digit_val c) else (acc, s)
  | EmptyString => (acc, s)
  end.

Definition is_space (c : ascii) : bool := in_range (chr 9) (chr 13) c || is_char c " ".

(** The subject sequence of strtol() and its kin: value and rest of the text,
    [None] if no conversion is possible.  Bases 8, 10 and 16 are used. *)
Definition strto_number (s : string) (base : Z) : option (Z * string) :=
  let '(_, s) := span is_space s in
  let '(sign, s) :=
    match s with
    | String "-" s' => (-1, s')
    | String "+" s' => (1, s')
    | _ => (1, s)
    end in
  let s :=
    match s with
    | String z (String x (String h s')) =>
        if (base =? 16) && is_char z "0" && (is_char x "x" || is_char x "X") && (digit_val h <? 16)
        then String h s' else s
    | _ => s
    end in
  match s with
  | String c _ =>
      if digit_val c <? base then let '(v, r) := digits base s 0 in Some (sign * v, r) else None
  | EmptyString => None
  end.

Definition LONG_MAX : Z := 9223372036854775807.
Definition LONG_MIN : Z := -9223372036854775808.
Definition ULONG_MAX : Z := 18446744073709551615.
Definition int32 (z : Z) : Z := (z + 2147483648) mod 4294967296 - 2147483648.

(** (value, ERANGE?, rest) of the 64-bit functions. *)
Definition strtol (s : string) (base : Z) : Z * bool * string :=
  match strto_number s base with
  | None => (0, false, s)
  | Some (v, r) =>
      if LONG_MAX <? v then (LONG_MAX, true, r)
      else if v <? LONG_MIN then (LONG_MIN, true, r) else (v, false, r)
  end.

(** A negative number wraps around; out of range is judged before the sign. *)
Definition strtoul (s : string) (base : Z) : Z * bool * string :=
  match strto_number s base with
  | None => (0, false, s)
  | Some (v, r) => if ULONG_MAX <? Z.abs v then (ULONG_MAX, true, r) else (uint64 v, false, r)
  end.

(** crinitConfConvToIntegerFnBody: the return code and the value stored, which
    is stored before the checks. *)
Definition conv_integer (r : Z * bool * string) (store : Z → Z) (confVal : string) (x0 : Z) : Z * Z :=
  match confVal with
  | EmptyString => (-1, x0)
  | _ =>
      let '(v, erange, rest) := r in
      if (erange : bool) then (-1, store v)
      else match rest with EmptyString => (0, store v) | _ => (-1, store v) end
  end.

Definition crinitConfConvToIntegerI (x0 : Z) (confVal : string) (base : Z) : Z * Z :=
  conv_integer (strtol confVal base) int32 confVal x0.
Definition crinitConfConvToIntegerULL (x0 : Z) (confVal : string) (base : Z) : Z * Z :=
  conv_integer (strtoul confVal base) (λ v, v) confVal x0.
Definition crinitConfConvToIntegerUI (x0 : Z) (confVal : string) (base : Z) : Z * Z :=
  conv_integer (strtoul confVal base) uint32 confVal x0.
Definition crinitConfConvToIntegerLL (x0 : Z) (confVal : string) (base : Z) : Z * Z :=
  conv_integer (strtol confVal base) (λ v, v) confVal x0.

(** ** Booleans *)

Definition to_lower (c : ascii) : ascii :=
  if in_range "A" "Z" c then chr (nat_of_ascii c + 32) else c.
Fixpoint str_lower (s : string) : string :=
  match s with EmptyString => EmptyString | String c s => String (to_lower c) (str_lower s) end.

Definition crinitConfConvToBool (b0 : bool) (confVal : string) : Z * bool :=
  if str_eqb (str_lower confVal) "yes" then (0, true)
  else if str_eqb (str_lower confVal) "no" then (0, false)
  else (-1, b0).

(** ** Arrays of strings *)

(** The value of two hexadecimal digits. *)
Definition hex_char (m : string) : ascii := chr (Z.to_nat (fst (digits 16 m 0))).

(** The C string a reader sees: up to the first NUL. *)
Fixpoint c_str (s : string) : string :=
  match s with
  | EmptyString => EmptyString
  | String c s => if is_char c (chr 0) then EmptyString else String c (c_str s)
  end.

(** crinitCopyEscaped(): the index into crinitEscMap is a signed char, so
    characters from 128 on are outside of the map. *)
Fixpoint copy_escaped (fuel : nat) (s : string) : parsed string :=
  match fuel with
  | O => PFail
  | S fuel =>
      let '(ty, m, r) := crinitEscLex s in
      match ty with
      | CRINIT_TK_END => POk EmptyString
      | CRINIT_TK_CPY => pmap (String.append m) (copy_escaped fuel r)
      | CRINIT_TK_ESC =>
          match m with
          | String _ (String c _) =>
              if (128 <=? nat_of_ascii c)%nat then PUndef
              else pmap (String (crinitEscMap c)) (copy_escaped fuel r)
          | _ => PFail
          end
      | CRINIT_TK_ESCX => pmap (String (hex_char m)) (copy_escaped fuel r)
      | _ => PFail
      end
  end.

Definition crinitCopyEscaped (src : string) : parsed string := copy_escaped (S (String.length src)) src.

(** First pass: the number of elements. *)
Fixpoint count_args (fuel : nat) (s : string) (dq : bool) : option nat :=
  match fuel with
  | O => None
  | S fuel =>
      let '(ty, m, r) := crinitArgvLex s dq in
      match ty with
      | CRINIT_TK_END => Some O
      | CRINIT_TK_WSPC => count_args fuel r dq
      | CRINIT_TK_UQSTR | CRINIT_TK_DQSTR => S <$> count_args fuel r dq
      | _ => None
      end
  end.

(** Second pass: the elements. *)
Fixpoint collect_args (fuel : nat) (s : string) (dq : bool) : parsed (list string) :=
  match fuel with
  | O => PFail
  | S fuel =>
      let '(ty, m, r) := crinitArgvLex s dq in
      match ty with
      | CRINIT_TK_END => POk []
      | CRINIT_TK_WSPC => collect_args fuel r dq
      | CRINIT_TK_UQSTR | CRINIT_TK_DQSTR =>
          match crinitCopyEscaped m with
          | POk a => pmap (cons (c_str a)) (collect_args fuel r dq)
          | PFail => PFail
          | PUndef => PUndef
          end
      | _ => PFail
      end
  end.

Section StrArr.
Context {S : Type} `{Faulty S}.

Definition crinitConfConvToStrArr (confVal : string) (dq : bool) : M S (option (list string)) :=
  let fuel := Datatypes.S (String.length confVal) in
  oom ← fallible;  (* backbuf *)
  if (oom : bool) then mret None else
  match count_args fuel confVal dq with
  | None => mret None
  | Some n =>
      oom ← fallible;  (* outArr *)
      if (oom : bool) then mret None else
      if Nat.eqb n 0 then mret (Some []) else
      match collect_args fuel confVal dq with
      | POk args => if Nat.eqb (length args) n then mret (Some args) else mret None
      | PFail => mret None
      | PUndef => mundef
      end
  end.

(** ** IO redirections *)

Definition O_WRONLY : Z := 1.
Definition O_CREAT : Z := 64.
Definition O_TRUNC : Z := 512.
Definition O_APPEND : Z := 1024.

Definition std_fd (s : string) : option Z :=
  if str_eqb s "STDOUT" then Some 1
  else if str_eqb s "STDERR" then Some 2
  else if str_eqb s "STDIN" then Some 0
  else None.

Definition crinitIsAbsPath (s : string) : bool :=
  match s with String c _ => is_char c "/" | EmptyString => false end.

(** The flags and the mode of a redirection to a file; [errno0] is errno at
    the call, which is not reset before strtoul(). *)
Definition file_params (errno0 : bool) (newFd : Z) (p : string) (rest : list string) :
    option crinitIoRedir :=
  let flags :=
    match rest with
    | [] => Some (Z.lor O_TRUNC O_CREAT, false)
    | f :: _ =>
        if str_eqb f "TRUNCATE" then Some (Z.lor O_TRUNC O_CREAT, false)
        else if str_eqb f "APPEND" then Some (Z.lor O_APPEND O_CREAT, false)
        else if str_eqb f "PIPE" then Some (0, true)
        else None
    end in
  match flags with
  | None => None
  | Some (oflags, fifo) =>
      let mode :=
        match rest with
        | _ :: m :: _ =>
            let '(v, erange, r) := strtoul m 8 in
            let v := uint32 v in
            if (v =? 0) && (errno0 || erange || str_eqb r m) then None
            else if 511 <? v then None else Some v
        | _ => Some 420
        end in
      match mode with
      | None => None
      | Some mode =>
          let oflags := if newFd =? 0 then 0 else Z.lor oflags O_WRONLY in
          Some (mkIoRedir newFd (-1) (Some p) oflags mode fifo)
      end
  end.

Definition crinitConfConvToIoRedir (errno0 : bool) (confVal : string) : M S (option crinitIoRedir) :=
  arr ← crinitConfConvToStrArr confVal true;
  match arr with
  | Some (target :: src :: rest) =>
      match std_fd target with
      | None => mret None
      | Some newFd =>
          match std_fd src with
          | Some oldFd => mret (Some (mkIoRedir newFd oldFd None (Z.lor O_TRUNC O_CREAT) 420 false))
          | None =>
              if crinitIsAbsPath src then
                oom ← fallible;
                if (oom : bool) then mret None else mret (file_params errno0 newFd src rest)
              else mret None
          end
      end
  | _ => mret None
  end.
End StrArr.

(** ** Capabilities (capabilities.c)

    The numbers of the capabilities come from libcap. *)

Section Capabilities.
Context {S : Type} `{Faulty S} (cap_from_name : string → option Z).

Fixpoint caps_mask (caps : list string) (mask : Z) : option Z :=
  match caps with
  | [] => Some mask
  | c :: caps =>
      match cap_from_name c with
      | Some v => caps_mask caps (Z.lor mask (Z.shiftl 1 v))
      | None => None
      end
  end.

Definition crinitCapConvertToBitmask (capabilities : string) : M S (option Z) :=
  arr ← crinitConfConvToStrArr capabilities true;
  match arr with
  | None => mret None
  | Some caps => mret (caps_mask caps 0)
  end.
End Capabilities.

(** ** Environment settings: KEY "value with ${REFERENCES}" *)

Section EnvMember.
Context {S : Type} `{Faulty S}.

Inductive outer_result :=
| OuterDone (ty : crinitTokenType) (key val : option string)
| OuterOom.

Fixpoint env_outer (fuel : nat) (s : string) (key val : option string) : M S outer_result :=
  match fuel with
  | O => mret (OuterDone CRINIT_TK_ERR key val)
  | Datatypes.S fuel =>
      let '(ty, m, r) := crinitEnvVarOuterLex s in
      match ty with
      | CRINIT_TK_END => mret (OuterDone CRINIT_TK_END key val)
      | CRINIT_TK_WSPC => env_outer fuel r key val
      | CRINIT_TK_ENVKEY =>
          match key with
          | Some _ => mret (OuterDone CRINIT_TK_ERR key val)
          | None => oom ← fallible; if (oom : bool) then mret OuterOom else env_outer fuel r (Some m) val
          end
      | CRINIT_TK_ENVVAL =>
          match key, val with
          | Some _, None => oom ← fallible; if (oom : bool) then mret OuterOom else env_outer fuel r key (Some m)
          | _, _ => mret (OuterDone CRINIT_TK_ERR key val)
          end
      | _ => mret (OuterDone CRINIT_TK_ERR key val)
      end
  end.

(** [out] is what has been written to parsedVal, whose size is [alloc]: a
    write past it is undefined. *)
Definition put (out : string) (alloc : nat) (c : ascii) : M S string :=
  if (String.length out <? alloc)%nat then mret (out +:+ str1 c)%string else mundef.

Definition put_str (out : string) (alloc : nat) (v : string) : M S string :=
  if (String.length out + String.length v <? alloc)%nat then mret (out +:+ v)%string else mundef.

Fixpoint env_inner (fuel : nat) (es : crinitEnvSet) (s out : string) (alloc : nat) : M S (option string) :=
  match fuel with
  | O => mret None
  | Datatypes.S fuel =>
      let '(ty, m, r) := crinitEnvVarInnerLex s in
      match ty with
      | CRINIT_TK_END => if (String.length out <? alloc)%nat then mret (Some out) else mundef
      | CRINIT_TK_CPY =>
          match m with
          | String c _ => out ← put out alloc c; env_inner fuel es r out alloc
          | EmptyString => mret None
          end
      | CRINIT_TK_ESC =>
          match m with
          | String _ (String c _) =>
              let e := if (nat_of_ascii c <? 128)%nat then crinitEscMap c else chr 0 in
              if is_char e (chr 0) then mret None
              else out ← put out alloc e; env_inner fuel es r out alloc
          | _ => mret None
          end
      | CRINIT_TK_ESCX => out ← put out alloc (hex_char m); env_inner fuel es r out alloc
      | CRINIT_TK_VAR =>
          oom ← fallible;
          if (oom : bool) then mret None else
          v ← crinitEnvSetGet es m;
          match v with
          | None | Some EmptyString => env_inner fuel es r out alloc
          | Some v =>
              oom ← fallible;
              if (oom : bool) then mret None else
              let alloc := (alloc + String.length v)%nat in
              out ← put_str out alloc v; env_inner fuel es r out alloc
          end
      | _ => mret None
      end
  end.

Definition crinitConfConvToEnvSetMember (es : crinitEnvSet) (confVal : string) : M S (Z * crinitEnvSet) :=
  if negb (crinitEnvSetValid es) then mret (-1, es) else
  o ← env_outer (Datatypes.S (String.length confVal)) confVal None None;
  match o with
  | OuterDone CRINIT_TK_END (Some key) (Some val) =>
      oom ← fallible;
      if (oom : bool) then mret (-1, es) else
      p ← env_inner (Datatypes.S (String.length val)) es val EmptyString (String.length val + 1);
      match p with
      | None => mret (-1, es)
      | Some v => crinitEnvSetSet es key (c_str v)
      end
  | _ => mret (-1, es)
  end.
End EnvMember.

(** ** Decimal numbers are read back *)

Definition dec_digit (n : Z) : ascii := chr (48 + Z.to_nat n).

#[global] Arguments dec_digit : simpl never.
#[global] Arguments digit_val : simpl never.
#[global] Arguments chr : simpl never.

Fixpoint dec_go (fuel : nat) (n : Z) (acc : string) : string :=
  match fuel with
  | O => acc
  | S fuel =>
      let acc := String (dec_digit (n mod 10)) acc in
      if n <? 10 then acc else dec_go fuel (n / 10) acc
  end.

(** printf("%d") *)
Definition print_dec (n : Z) : string :=
  let go n := dec_go (S (Z.to_nat (Z.log2 n))) n EmptyString in
  if n <? 0 then String "-" (go (- n)) else go n.

Lemma nat_of_chr n : (n < 256)%nat → nat_of_ascii (chr n) = n.
Proof. apply nat_ascii_embedding. Qed.

Lemma digit_val_dec n : 0 ≤ n < 10 → digit_val (dec_digit n) = n.
Proof.
  intros Hn. unfold digit_val, is_digit, in_range, dec_digit. rewrite nat_of_chr by lia.
  change (nat_of_ascii "0") with 48%nat. change (nat_of_ascii "9") with 57%nat.
  rewrite (proj2 (Nat.leb_le _ _)), (proj2 (Nat.leb_le _ _)) by lia. simpl. lia.
Qed.

Lemma digits_dec_go fuel n acc a :
  0 ≤ n < 2 ^ Z.of_nat fuel → ∃ k, digits 10 (dec_go fuel n acc) a = digits 10 acc (a * k + n).
Proof.
  revert n acc a. induction fuel as [|fuel IH]; intros n acc a Hn.
  { exists 1. change (2 ^ Z.of_nat 0) with 1 in Hn. cbn [dec_go]. f_equal. lia. }
  cbn [dec_go]. pose proof (Z.mod_pos_bound n 10 ltac:(lia)) as Hm.
  destruct (Z.ltb_spec n 10) as [Hlt|Hge].
  - exists 10. cbn [digits]. rewrite digit_val_dec by lia. rewrite Z.mod_small by lia.
    by rewrite (proj2 (Z.ltb_lt _ _)) by lia.
  - destruct (IH (n / 10) (String (dec_digit (n mod 10)) acc) a) as [k Hk].
    { rewrite Nat2Z.inj_succ, Z.pow_succ_r in Hn by lia. split; [apply Z.div_pos; lia|].
      apply Z.div_lt_upper_bound; lia. }
    exists (10 * k). rewrite Hk. cbn [digits]. rewrite digit_val_dec by lia.
    rewrite (proj2 (Z.ltb_lt _ _)) by lia. f_equal. pose proof (Z.div_mod n 10). lia.
Qed.

Lemma dec_go_head fuel n acc :
  0 ≤ n → ∃ c r, dec_go (S fuel) n acc = String c r ∧ 0 ≤ digit_val c < 10 ∧ is_digit c = true.
Proof.
  revert n acc. induction fuel as [|fuel IH]; intros n acc Hn; pose proof (Z.mod_pos_bound n 10 ltac:(lia)) as Hm.
  - cbn [dec_go]. exists (dec_digit (n mod 10)), acc. rewrite digit_val_dec by lia.
    split_and!; [by destruct (n <? 10)|lia|lia|].
    unfold is_digit, in_range, dec_digit. rewrite nat_of_chr by lia.
    change (nat_of_ascii "0") with 48%nat. change (nat_of_ascii "9") with 57%nat.
    rewrite (proj2 (Nat.leb_le _ _)), (proj2 (Nat.leb_le _ _)) by lia. done.
  - change (dec_go (S (S fuel)) n acc) with
      (if n <? 10 then String (dec_digit (n mod 10)) acc else dec_go (S fuel) (n / 10) (String (dec_digit (n mod 10)) acc)).
    destruct (Z.ltb_spec n 10).
    + destruct (IH (n mod 10) acc ltac:(lia)) as (c & r & E & Hc).
      change (dec_go (S fuel) (n mod 10) acc) with
        (if n mod 10 <? 10 then String (dec_digit ((n mod 10) mod 10)) acc
         else dec_go fuel ((n mod 10) / 10) (String (dec_digit ((n mod 10) mod 10)) acc)) in E.
      rewrite Z.mod_mod, (proj2 (Z.ltb_lt _ _)) in E by lia. exists c, r. done.
    + apply IH. apply Z.div_pos; lia.
Qed.

(** A digit is neither a space nor a sign. *)
Lemma strto_digit c r :
  is_digit c = true → strto_number (String c r) 10 =
  (if digit_val c <? 10 then let '(v, r') := digits 10 (String c r) 0 in Some (1 * v, r') else None).
Proof.
  intros Hd. unfold strto_number.
  assert (is_space c = false) as Hs by (revert Hd; by destruct c as [[] [] [] [] [] [] [] []]).
  cbn [span]. rewrite Hs.
  assert ((match String c r with
           | String "-" s' => (-1, s')
           | String "+" s' => (1, s')
           | _ => (1, String c r)
           end) = (1, String c r)) as E by (revert Hd; by destruct c as [[] [] [] [] [] [] [] []]).
  rewrite E. change (10 =? 16) with false. cbn [andb].
  by destruct r as [|x [|h r]].
Qed.

Lemma strto_minus c r :
  strto_number (String "-" (String c r)) 10 =
  (if digit_val c <? 10 then let '(v, r') := digits 10 (String c r) 0 in Some (-1 * v, r') else None).
Proof. unfold strto_number. by destruct r as [|x [|h r]]. Qed.

Lemma strto_print_pos n : 0 ≤ n → strto_number (dec_go (S (Z.to_nat (Z.log2 n))) n EmptyString) 10 = Some (n, EmptyString).
Proof.
  intros Hn. destruct (dec_go_head (Z.to_nat (Z.log2 n)) n EmptyString Hn) as (c & r & E & Hv & Hd).
  destruct (digits_dec_go (S (Z.to_nat (Z.log2 n))) n EmptyString 0) as [k Hk].
  { split; [done|]. rewrite Nat2Z.inj_succ, Z2Nat.id by apply Z.log2_nonneg.
    destruct (decide (n = 0)) as [->|]; [done|]. apply Z.log2_spec. lia. }
  rewrite E in *. rewrite strto_digit by done. rewrite (proj2 (Z.ltb_lt _ _)) by lia.
  rewrite Hk. cbn [digits]. repeat f_equal. lia.
Qed.

Lemma strto_print n : strto_number (print_dec n) 10 = Some (n, EmptyString).
Proof.
  unfold print_dec. destruct (Z.ltb_spec n 0) as [Hneg|Hpos]; [|by apply strto_print_pos].
  pose proof (strto_print_pos (- n) ltac:(lia)) as Hp.
  destruct (dec_go_head (Z.to_nat (Z.log2 (- n))) (- n) EmptyString ltac:(lia)) as (c & r & E & Hv & Hd).
  rewrite E in *. rewrite strto_digit in Hp by done. rewrite (proj2 (Z.ltb_lt _ _)) in Hp by lia.
  rewrite strto_minus, (proj2 (Z.ltb_lt _ _)) by lia.
  destruct (digits 10 (String c r) 0) as [v r']. simplify_eq. repeat f_equal; lia.
Qed.

(** IDs are printed as signed numbers and read as unsigned ones. *)
Lemma id_roundtrip n : 0 ≤ n < 2 ^ 32 → Z.abs (int32 n) ≤ ULONG_MAX ∧ uint32 (uint64 (int32 n)) = n.
Proof.
  intros Hn. unfold ULONG_MAX. assert (int32 n = n ∧ n < 2147483648 ∨ int32 n = n - 4294967296 ∧ 2147483648 ≤ n) as Hi.
  { unfold int32. destruct (decide (n < 2147483648)); [left|right]; (split; [|lia]).
    - rewrite Z.mod_small; lia.
    - rewrite <- (Z_mod_plus_full (n + 2147483648) (-1) 4294967296), Z.mod_small; lia. }
  split; [lia|]. unfold uint32, uint64. destruct Hi as [[-> Hlt]|[-> Hge]].
  - rewrite (Z.mod_small n 18446744073709551616), Z.mod_small by lia. done.
  - rewrite <- (Z_mod_plus_full (n - _) 1 18446744073709551616), (Z.mod_small (n - 4294967296 + _)) by lia.
    replace (n - 4294967296 + 1 * 18446744073709551616) with (n + 4294967295 * 4294967296) by lia.
    rewrite Z_mod_plus_full. apply Z.mod_small. lia.
Qed.

Lemma print_dec_cons n : ∃ c r, print_dec n = String c r.
Proof.
  unfold print_dec. destruct (n <? 0) eqn:E; [eauto|]. bool_hyps.
  destruct (dec_go_head (Z.to_nat (Z.log2 n)) n EmptyString E) as (c & r & -> & _). eauto.
Qed.

(** crinitConfConvToIntegerI() accepts the decimal text of every number of
    the range of long and stores it reduced to int: numbers of the range of int
    are read back exactly, larger ones are silently truncated. *)
Theorem crinitConfConvToIntegerI_decimal n x0 :
  LONG_MIN ≤ n ≤ LONG_MAX → crinitConfConvToIntegerI x0 (print_dec n) 10 = (0, int32 n).
Proof.
  intros Hn. unfold crinitConfConvToIntegerI, strtol. rewrite strto_print.
  rewrite (proj2 (Z.ltb_ge _ _)), (proj2 (Z.ltb_ge _ _)) by lia.
  destruct (print_dec_cons n) as (c & r & ->). done.
Qed.

(** Numbers of the range of int are read back as they were written. *)
Theorem crinitConfConvToIntegerI_roundtrip n x0 :
  INT_MIN ≤ n ≤ INT_MAX → crinitConfConvToIntegerI x0 (print_dec n) 10 = (0, n).
Proof.
  intros Hn. unfold INT_MIN, INT_MAX in Hn. unfold crinitConfConvToIntegerI, strtol. rewrite strto_print.
  rewrite (proj2 (Z.ltb_ge _ _)), (proj2 (Z.ltb_ge _ _)) by (unfold LONG_MAX, LONG_MIN; lia).
  destruct (print_dec_cons n) as (c & r & ->). simpl. f_equal. unfold int32. rewrite Z.mod_small by lia. lia.
Qed.

(** ** Arrays of strings are read back *)

(** An argument in double quotes, with quotes, backslashes and line breaks
    escaped. *)
Fixpoint escape (s : string) : string :=
  match s with
  | EmptyString => EmptyString
  | String c s =>
      if is_char c c_quote then String c_backslash (String c_quote (escape s))
      else if is_char c c_backslash then String c_backslash (String c_backslash (escape s))
      else if is_char c c_newline then String c_backslash (String "n" (escape s))
      else String c (escape s)
  end.

Definition quote (a : string) : string := String c_quote (escape a +:+ str1 c_quote)%string.

Fixpoint write_args (args : list string) : string :=
  match args with
  | [] => EmptyString
  | a :: args => String c_space (quote a +:+ write_args args)%string
  end.

Fixpoint no_nul (s : string) : bool :=
  match s with EmptyString => true | String c s => negb (is_char c (chr 0)) && no_nul s end.

#[local] Arguments String.append : simpl nomatch.

Lemma esc_span_escape a r :
  esc_span dq_stop (escape a +:+ String c_quote r)%string = (escape a, String c_quote r).
Proof.
  induction a as [|c a IH]; [done|]. cbn [escape].
  destruct (is_char c c_quote) eqn:Hq; [|destruct (is_char c c_backslash) eqn:Hb;
    [|destruct (is_char c c_newline) eqn:Hn]]; cbn [String.append esc_span]; try (by rewrite IH).
  rewrite Hb. unfold dq_stop at 1. rewrite Hq, Hn. simpl. by rewrite IH.
Qed.

Lemma copy_escaped_esc fuel x r :
  is_char x "x" = false → (nat_of_ascii x < 128)%nat →
  copy_escaped (S fuel) (String c_backslash (String x r)) =
  pmap (String (crinitEscMap x)) (copy_escaped fuel r).
Proof.
  intros Hx Hn. cbn [copy_escaped crinitEscLex]. unfold lex_escape.
  change (is_char c_backslash c_backslash) with true. cbn iota. rewrite Hx. cbn iota beta.
  unfold str1. destruct (Nat.leb_spec 128 (nat_of_ascii x)); [lia|done].
Qed.

Lemma copy_escape fuel a : (String.length (escape a) < fuel)%nat → copy_escaped fuel (escape a) = POk a.
Proof.
  revert a. induction fuel as [|fuel IH]; intros a Hf; [lia|].
  destruct a as [|c a]; [done|]. cbn [escape] in *.
  destruct (is_char c c_quote) eqn:Hq; [|destruct (is_char c c_backslash) eqn:Hb;
    [|destruct (is_char c c_newline) eqn:Hn]]; simpl in Hf.
  - apply is_char_true in Hq as ->. rewrite copy_escaped_esc by (done || by apply Nat.ltb_lt). by rewrite IH by lia.
  - apply is_char_true in Hb as ->. rewrite copy_escaped_esc by (done || by apply Nat.ltb_lt). by rewrite IH by lia.
  - apply is_char_true in Hn as ->. rewrite copy_escaped_esc by (done || by apply Nat.ltb_lt). by rewrite IH by lia.
  - cbn [copy_escaped crinitEscLex]. unfold lex_escape. rewrite Hb. by rewrite IH by lia.
Qed.

Lemma c_str_no_nul a : no_nul a = true → c_str a = a.
Proof.
  induction a as [|c a IH]; [done|]. cbn [no_nul c_str]. intros [Hc Ha]%andb_prop.
  apply negb_true_iff in Hc. rewrite Hc. by rewrite IH.
Qed.

Lemma lex_quote a r : crinitArgvLex (quote a +:+ r)%string true = (CRINIT_TK_DQSTR, escape a, r).
Proof.
  unfold quote. cbn [String.append]. rewrite string_app_assoc.
  change (str1 c_quote +:+ r)%string with (String c_quote r).
  unfold crinitArgvLex. change (is_ws c_quote) with false. change (is_char c_quote c_quote) with true. cbn iota.
  rewrite esc_span_escape. done.
Qed.

Lemma lex_space a r :
  crinitArgvLex (String c_space (quote a +:+ r))%string true = (CRINIT_TK_WSPC, str1 c_space, (quote a +:+ r)%string).
Proof. done. Qed.

Lemma count_written args fuel :
  (2 * length args < fuel)%nat → count_args fuel (write_args args) true = Some (length args).
Proof.
  revert fuel. induction args as [|a args IH]; intros [|fuel] Hf; simpl in Hf; try lia; [done|].
  cbn [write_args count_args]. rewrite lex_space. destruct fuel as [|fuel]; [lia|].
  cbn [count_args]. rewrite lex_quote. rewrite IH by lia. done.
Qed.

Lemma collect_written args fuel :
  Forall (λ a, no_nul a = true) args → (2 * length args < fuel)%nat →
  collect_args fuel (write_args args) true = POk args.
Proof.
  intros Hn. revert fuel. induction Hn as [|a args Ha Hn IH]; intros [|fuel] Hf; simpl in Hf; try lia; [done|].
  cbn [write_args collect_args]. rewrite lex_space. destruct fuel as [|fuel]; [lia|].
  cbn [collect_args]. rewrite lex_quote. unfold crinitCopyEscaped. rewrite copy_escape by lia.
  rewrite IH by lia. simpl. by rewrite c_str_no_nul.
Qed.

Lemma write_args_length args : (2 * length args ≤ String.length (write_args args))%nat.
Proof.
  induction args as [|a args IH]; [done|]. cbn [write_args]. simpl length.
  cbn [String.length]. rewrite string_length_app. unfold quote. cbn [String.length].
  rewrite string_length_app. simpl. lia.
Qed.

(** ** Arrays on a quiet system *)

(** Words without white space and backslashes, each after a space, are the
    elements of an array without quoting. *)
Definition is_word (w : string) : Prop :=
  w ≠ EmptyString ∧ no_nul w = true ∧ ∀ c, str_has c w = true → nq_stop c = false ∧ is_char c c_backslash = false.

Fixpoint write_words (l : list string) : string :=
  match l with
  | [] => EmptyString
  | w :: l => String c_space (w +:+ write_words l)%string
  end.

Lemma word_cons c w :
  (∀ d, str_has d (String c w) = true → nq_stop d = false ∧ is_char d c_backslash = false) ↔
  (nq_stop c = false ∧ is_char c c_backslash = false) ∧
  ∀ d, str_has d w = true → nq_stop d = false ∧ is_char d c_backslash = false.
Proof.
  split.
  - intros Hw. split; [|intros d Hd]; apply Hw; rewrite str_has_cons; [by rewrite bool_decide_eq_true_2|].
    by rewrite Hd, orb_true_r.
  - intros [Hc Hw] d. rewrite str_has_cons, orb_true_iff, bool_decide_eq_true. intros [<-|Hd]; [done|auto].
Qed.

Lemma esc_span_word w l :
  is_word w → esc_span nq_stop (w +:+ write_words l) = (w, write_words l).
Proof.
  intros (_ & _ & Hw). induction w as [|c w IH]; [by destruct l|].
  apply word_cons in Hw as [[Hc Hb] Hw]. cbn [String.append esc_span]. by rewrite Hb, Hc, IH.
Qed.

Lemma copy_word fuel w :
  (∀ c, str_has c w = true → nq_stop c = false ∧ is_char c c_backslash = false) →
  (String.length w < fuel)%nat → copy_escaped fuel w = POk w.
Proof.
  revert fuel. induction w as [|c w IH]; intros [|fuel] Hw Hf; simpl in Hf; try lia; [done|].
  apply word_cons in Hw as [[_ Hb] Hw]. cbn [copy_escaped crinitEscLex]. unfold lex_escape. rewrite Hb.
  unfold str1. rewrite IH by (done || lia). done.
Qed.

Lemma lex_word w l r :
  is_word w → r = write_words l → crinitArgvLex (w +:+ r) false = (CRINIT_TK_UQSTR, w, r).
Proof.
  intros Hw ->. pose proof (esc_span_word w l Hw) as E. destruct Hw as (Hne & _ & Hw).
  destruct w as [|c w]; [done|]. cbn [String.append] in *. unfold crinitArgvLex, lex_plain.
  apply word_cons in Hw as [[Hc Hb] _]. unfold nq_stop in Hc. unfold is_ws. bool_hyps.
  repeat match goal with Hx : is_char c _ = false |- _ => rewrite Hx end. cbn [orb]. by rewrite E.
Qed.

Lemma lex_gap w l :
  is_word w → crinitArgvLex (write_words (w :: l)) false = (CRINIT_TK_WSPC, str1 c_space, (w +:+ write_words l)%string).
Proof.
  intros (Hne & _ & Hw). destruct w as [|c w]; [done|]. apply word_cons in Hw as [[Hc _] _].
  unfold nq_stop in Hc. bool_hyps. cbn [write_words String.append crinitArgvLex span].
  change (is_ws c_space) with true. cbn iota. unfold is_ws.
  repeat match goal with Hx : is_char c _ = false |- _ => rewrite Hx end. done.
Qed.

Lemma count_words l fuel :
  Forall is_word l → (2 * length l < fuel)%nat → count_args fuel (write_words l) false = Some (length l).
Proof.
  intros Hl. revert fuel. induction Hl as [|w l Hw Hl IH]; intros [|fuel] Hf; simpl in Hf; try lia; [done|].
  cbn [count_args]. rewrite lex_gap by done. destruct fuel as [|fuel]; [lia|]. cbn [count_args].
  rewrite (lex_word w l) by done. by rewrite IH by lia.
Qed.

Lemma collect_words l fuel :
  Forall is_word l → (2 * length l < fuel)%nat → collect_args fuel (write_words l) false = POk l.
Proof.
  intros Hl. revert fuel. induction Hl as [|w l Hw Hl IH]; intros [|fuel] Hf; simpl in Hf; try lia; [done|].
  cbn [collect_args]. rewrite lex_gap by done. destruct fuel as [|fuel]; [lia|]. cbn [collect_args].
  rewrite (lex_word w l) by done. destruct Hw as (Hne & Hn & Hw). unfold crinitCopyEscaped.
  rewrite copy_word by (done || lia). rewrite IH by lia. simpl. by rewrite c_str_no_nul.
Qed.

Lemma write_words_length l : Forall is_word l → (2 * length l ≤ String.length (write_words l))%nat.
Proof.
  induction 1 as [|w l (Hne & _) Hl IH]; [done|]. cbn [write_words length String.length].
  rewrite string_length_app. destruct w; [done|]. simpl. lia.
Qed.

Section RunStrArr.
Context {S : Type} `{Faulty S}.

(** Both passes succeed. *)
Lemma run_str_arr v dq args (s : S) :
  quiet s → let fuel := Datatypes.S (String.length v) in
  count_args fuel v dq = Some (length args) → collect_args fuel v dq = POk args →
  crinitConfConvToStrArr v dq s = Ret (Some args) s.
Proof.
  intros Hq fuel Hc Hl. unfold crinitConfConvToStrArr. rewrite bind_fallible by done.
  fold fuel. rewrite Hc, bind_fallible by done.
  destruct args as [|a args]; [done|]. change (Nat.eqb (length (a :: args)) 0) with false. cbn iota.
  rewrite Hl. by rewrite Nat.eqb_refl.
Qed.

Lemma run_written args (s : S) :
  Forall (λ a, no_nul a = true) args → quiet s →
  crinitConfConvToStrArr (write_args args) true s = Ret (Some args) s.
Proof.
  intros Hn Hq. pose proof (write_args_length args) as Hl.
  apply run_str_arr; [done|apply count_written; lia|apply collect_written; [done|lia]].
Qed.

Lemma run_words l (s : S) :
  Forall is_word l → quiet s → crinitConfConvToStrArr (write_words l) false s = Ret (Some l) s.
Proof.
  intros Hl Hq. pose proof (write_words_length l Hl) as Hlen.
  apply run_str_arr; [done|apply count_words; [done|lia]|apply collect_words; [done|lia]].
Qed.
End RunStrArr.

(** ** The backing buffer is large enough *)

(** The bytes the second pass writes: every element and its NUL. *)
Fixpoint bytes_needed (fuel : nat) (s : string) (dq : bool) : nat :=
  match fuel with
  | O => O
  | S fuel =>
      let '(ty, m, r) := crinitArgvLex s dq in
      match ty with
      | CRINIT_TK_WSPC => bytes_needed fuel r dq
      | CRINIT_TK_UQSTR | CRINIT_TK_DQSTR => String.length m + 1 + bytes_needed fuel r dq
      | _ => O
      end
  end.

(** Text at which no unquoted element starts. *)
Definition delimited (dq : bool) (s : string) : Prop := (crinitArgvLex s dq).1.1 ≠ CRINIT_TK_UQSTR.

Lemma esc_span_rest stop s m r c r' :
  esc_span stop s = (m, r) → r = String c r' → esc_span stop r = (EmptyString, r).
Proof.
  revert m r c r'. induction s as [|a|a d s IH1 IH2] using string_ind2; intros m r c r' E ->.
  - done.
  - revert E. unfold str1. cbn. destruct (is_char a c_backslash) eqn:Ha; [intros [= <- <- <-]; cbn; by rewrite Ha|].
    destruct (stop a) eqn:Hs; [intros [= <- <- <-]; cbn; by rewrite Ha, Hs|]. done.
  - change (esc_span stop (String a (String d s))) with
      (if is_char a c_backslash then let '(m, r) := esc_span stop s in (String a (String d m), r)
       else if stop a then (EmptyString, String a (String d s))
       else let '(m, r) := esc_span stop (String d s) in (String a m, r)) in E.
    destruct (is_char a c_backslash) eqn:Ha; [|destruct (stop a) eqn:Hs].
    + destruct (esc_span stop s) as [m0 r0]. simplify_eq. by eapply IH1.
    + simplify_eq. cbn. by rewrite Ha, Hs.
    + destruct (esc_span stop (String d s)) as [m0 r0]. simplify_eq. by eapply IH2.
Qed.

Definition uq_class (dq : bool) : ascii → bool := if dq then uq_stop else nq_stop.

Lemma plain_delimited c s m r dq :
  esc_span (uq_class dq) (String c s) = (m, r) → delimited dq r.
Proof.
  intros E. unfold delimited. destruct r as [|x r']; [done|].
  pose proof (esc_span_rest _ _ _ _ x r' E eq_refl) as Hr. unfold crinitArgvLex.
  destruct (is_ws x) eqn:Hx; [by destruct (span is_ws (String x r'))|].
  destruct dq; unfold lex_plain, uq_class in *; rewrite ?Hr; [|done].
  destruct (is_char x c_quote); [|done].
  by destruct (esc_span dq_stop r') as [m' [|q r'']]; [|destruct (is_char q c_quote)].
Qed.

Lemma argv_lex_shape c s dq ty m r :
  crinitArgvLex (String c s) dq = (ty, m, r) →
  (ty = CRINIT_TK_DQSTR → (String.length m + String.length r + 2 = String.length (String c s))%nat) ∧
  (ty = CRINIT_TK_UQSTR → esc_span (uq_class dq) (String c s) = (m, r)).
Proof.
  unfold crinitArgvLex. destruct (is_ws c); [destruct (span is_ws (String c s)); by intros [= <- <- <-]|].
  assert (∀ stop, lex_plain stop c s = (ty, m, r) →
    ty ≠ CRINIT_TK_DQSTR ∧ (ty = CRINIT_TK_UQSTR → esc_span stop (String c s) = (m, r))) as Hplain.
  { intros stop. unfold lex_plain. destruct (esc_span stop (String c s)) as [[|a m'] r'];
      intros [= <- <- <-]; done. }
  destruct dq; [|intros [? ?]%Hplain; done].
  destruct (is_char c c_quote); [|intros [? ?]%Hplain; done].
  pose proof (esc_span_length dq_stop s) as Hl. revert Hl.
  destruct (esc_span dq_stop s) as [m' [|q r']]; intros Hl; [by intros [= <- <- <-]|].
  destruct (is_char q c_quote); intros [= <- <- <-]; split; try done. intros _. simpl in *. lia.
Qed.

Lemma bytes_needed_bound fuel s dq :
  (bytes_needed fuel s dq ≤ String.length s + 1)%nat ∧
  (delimited dq s → (bytes_needed fuel s dq ≤ String.length s)%nat).
Proof.
  revert s. induction fuel as [|fuel IH]; intros s; cbn [bytes_needed]; [lia|].
  destruct s as [|c s]; [simpl; lia|]. unfold delimited.
  pose proof (crinitArgvLex_progress (String c s) dq) as Hp. unfold progress in Hp.
  destruct (crinitArgvLex (String c s) dq) as [[ty m] r] eqn:E. simpl fst.
  destruct (argv_lex_shape _ _ _ _ _ _ E) as [Hdq Huq]. pose proof (IH r) as [IH1 IH2].
  destruct ty; try (simpl in *; lia).
  - specialize (Hp ltac:(done)). lia.
  - specialize (Hdq eq_refl). lia.
  - specialize (Hp ltac:(done)). specialize (IH2 (plain_delimited _ _ _ _ _ (Huq eq_refl))).
    split; [lia|done].
Qed.

(** The second pass finds as many elements as the first, whenever it succeeds. *)
Lemma collect_count fuel s dq args :
  collect_args fuel s dq = POk args → count_args fuel s dq = Some (length args).
Proof.
  revert s args. induction fuel as [|fuel IH]; intros s args; cbn [collect_args count_args]; [done|].
  destruct (crinitArgvLex s dq) as [[ty m] r]. destruct ty; try done.
  - by intros [= <-].
  - apply IH.
  - destruct (crinitCopyEscaped m); try done. destruct (collect_args fuel r dq) eqn:E; try done.
    intros [= <-]. by rewrite (IH _ _ E).
  - destruct (crinitCopyEscaped m); try done. destruct (collect_args fuel r dq) eqn:E; try done.
    intros [= <-]. by rewrite (IH _ _ E).
Qed.

(** The lexer consumes at least one character per token: one more than the
    length of the text is enough fuel for both passes. *)
Lemma count_fuel fuel s dq :
  (String.length s < fuel)%nat → count_args fuel s dq = count_args (S (String.length s)) s dq.
Proof.
  remember (String.length s) as n eqn:Hn. revert fuel s Hn.
  induction n as [n IH] using lt_wf_ind. intros [|fuel] s -> Hf; [lia|]. cbn [count_args].
  pose proof (crinitArgvLex_progress s dq) as Hp. unfold progress in Hp.
  destruct (crinitArgvLex s dq) as [[ty m] r]. destruct ty; try done;
    specialize (Hp ltac:(done)); destruct Hp as [_ Hp];
    (assert (count_args fuel r dq = count_args (String.length s) r dq) as ->; [|done]);
    (etrans; [|symmetry]; apply (IH (String.length r)); done || lia).
Qed.

(** ** Environment settings *)

(** The value with escape sequences resolved and references replaced by the
    values of [m], nothing for those that are not set. *)
Fixpoint expand (m : gmap string string) (fuel : nat) (s : string) : option string :=
  match fuel with
  | O => None
  | S fuel =>
      let '(ty, t, r) := crinitEnvVarInnerLex s in
      match ty with
      | CRINIT_TK_END => Some EmptyString
      | CRINIT_TK_CPY => String.append t <$> expand m fuel r
      | CRINIT_TK_ESC =>
          match t with
          | String _ (String c _) =>
              let e := if (nat_of_ascii c <? 128)%nat then crinitEscMap c else chr 0 in
              if is_char e (chr 0) then None else String e <$> expand m fuel r
          | _ => None
          end
      | CRINIT_TK_ESCX => String (hex_char t) <$> expand m fuel r
      | CRINIT_TK_VAR => String.append (default EmptyString (m !! t)) <$> expand m fuel r
      | _ => None
      end
  end.

Lemma alnum_no_eq c : is_alnum_ c = true → c ≠ "="%char.
Proof. by intros Hc ->. Qed.

Lemma span_alnum_no_eq s : str_has "=" (span is_alnum_ s).1 = false.
Proof.
  induction s as [|c s IH]; [done|]. cbn [span]. destruct (is_alnum_ c) eqn:Hc; [|done].
  revert IH. destruct (span is_alnum_ s) as [m r]. unfold str_has. simpl. intros IH.
  rewrite bool_decide_eq_false_2 by by apply alnum_no_eq. by destruct (str_break "=" m).
Qed.

Lemma cons_no_eq c m : is_alpha_ c = true → str_has "=" m = false → str_has "=" (String c m) = false.
Proof.
  intros Hc Hm. unfold str_has in *. simpl.
  rewrite bool_decide_eq_false_2 by (intros ->; done). by destruct (str_break "=" m).
Qed.

Lemma inner_var_no_eq s t r : crinitEnvVarInnerLex s = (CRINIT_TK_VAR, t, r) → str_has "=" t = false.
Proof.
  destruct s as [|c s]; [done|]. unfold crinitEnvVarInnerLex.
  destruct (lex_var (String c s)) as [[name r']|] eqn:E.
  - intros [= <- <-]. revert E. unfold lex_var. destruct s as [|b [|v s]]; try done.
    destruct (is_char c "$" && is_char b "{" && is_alpha_ v) eqn:Hc; [|done]. bool_hyps.
    pose proof (span_alnum_no_eq s) as Hs. revert Hs.
    destruct (span is_alnum_ s) as [m [|e r'']]; [done|]. simpl. intros Hs.
    destruct (is_char e "}"); [|done]. intros [= <- <-]. by apply cons_no_eq.
  - unfold lex_escape. destruct (is_char c c_backslash); [|done]. destruct s as [|x s]; [done|].
    destruct (is_char x "x"); [|done]. destruct s as [|h1 [|h2 s]]; try done.
    by destruct (is_hex h1 && is_hex h2).
Qed.

Lemma inner_cpy s t r : crinitEnvVarInnerLex s = (CRINIT_TK_CPY, t, r) → ∃ c, t = str1 c.
Proof.
  destruct s as [|c s]; [done|]. unfold crinitEnvVarInnerLex.
  destruct (lex_var (String c s)) as [[name r']|]; [done|].
  unfold lex_escape. destruct (is_char c c_backslash); [|intros [= <- <-]; eauto].
  destruct s as [|x s]; [done|]. destruct (is_char x "x"); [|done].
  destruct s as [|h1 [|h2 s]]; try done. by destruct (is_hex h1 && is_hex h2).
Qed.

Lemma string_app_nil a : (a +:+ EmptyString)%string = a.
Proof. induction a as [|c a IH]; [done|]. simpl. by f_equal. Qed.

Section EnvMemberSpec.
Context {S : Type} `{Faulty S}.

(** The value loop writes inside its buffer and computes the expansion. *)
Lemma wp_env_inner fuel es l s out alloc (st : S) :
  env_wf es l → (String.length out + String.length s < alloc)%nat →
  wp (env_inner fuel es s out alloc)
     (λ r st', only_faults st st' ∧
        match r with
        | Some v => ∃ v', expand (env_map l) fuel s = Some v' ∧ v = (out +:+ v')%string
        | None => quiet st → expand (env_map l) fuel s = None
        end) st.
Proof.
  intros Hwf. revert s out alloc st. induction fuel as [|fuel IH]; intros s out alloc st Hal.
  { by apply wp_ret. }
  cbn [env_inner expand]. pose proof (crinitEnvVarInnerLex_progress s) as Hp. unfold progress in Hp.
  destruct (crinitEnvVarInnerLex s) as [[ty t] r] eqn:E.
  assert (∀ st' c, only_faults st st' → (String.length r < String.length s)%nat →
    wp (out ← put out alloc c; env_inner fuel es r out alloc)
       (λ r' st'', only_faults st st'' ∧
          match r' with
          | Some v => ∃ v', String c <$> expand (env_map l) fuel r = Some v' ∧ v = (out +:+ v')%string
          | None => quiet st → String c <$> expand (env_map l) fuel r = None
          end) st') as Hput.
  { intros st' c Hst Hlt. unfold put. rewrite (proj2 (Nat.ltb_lt _ _)) by lia. apply wp_bind, wp_ret.
    eapply wp_mono; [|apply IH; rewrite string_length_app; simpl; lia].
    intros [v|] st2 [Hst2 Hv]; (split; [by etrans|]).
    - destruct Hv as (v' & -> & ->). eexists. split; [done|]. by rewrite string_app_assoc.
    - intros Hq. rewrite Hv; [done|]. by eapply only_faults_quiet. }
  destruct ty; try (by apply wp_ret); try (specialize (Hp ltac:(done)); destruct Hp as [Hp1 Hp2]).
  - rewrite (proj2 (Nat.ltb_lt _ _)) by lia. apply wp_ret. split; [done|]. exists EmptyString.
    split; [done|]. by rewrite string_app_nil.
  - apply wp_bind, wp_fallible_why. intros [] st1 Hst1 Hq1.
    { apply wp_ret. split; [done|]. intros Hq. by specialize (Hq1 Hq). }
    apply wp_bind. eapply wp_intro; [by apply get_wf, (inner_var_no_eq _ _ _ E)|].
    assert (∀ st2 alloc' out' pre, only_faults st1 st2 → (String.length out' + String.length r < alloc')%nat →
      out' = (out +:+ pre)%string → pre = default EmptyString (env_map l !! t) →
      wp (env_inner fuel es r out' alloc')
        (λ r' st'', only_faults st st'' ∧
           match r' with
           | Some v => ∃ v', String.append (default EmptyString (env_map l !! t)) <$> expand (env_map l) fuel r = Some v'
                             ∧ v = (out +:+ v')%string
           | None => quiet st → String.append (default EmptyString (env_map l !! t)) <$> expand (env_map l) fuel r = None
           end) st2) as Hgo.
    { intros st2 alloc' out' pre Hst2 Hlt -> <-. eapply wp_mono; [|by apply IH].
      intros [v|] st3 [Hst3 Hv]; (split; [by do 2 (etrans; [eassumption|])|]).
      - destruct Hv as (v' & -> & ->). eexists. split; [done|]. by rewrite string_app_assoc.
      - intros Hq. rewrite Hv; [done|]. by do 2 (eapply only_faults_quiet; [eassumption|]). }
    destruct (env_map l !! t) as [[|c v]|] eqn:Hv.
    + apply (Hgo _ _ _ EmptyString); [done|lia|by rewrite string_app_nil|done].
    + apply wp_bind, wp_fallible_why. intros [] st2 Hst2 Hq2.
      { apply wp_ret. split; [by etrans|]. intros Hq. exfalso.
        assert (quiet st1) as Hq' by (by eapply only_faults_quiet). by specialize (Hq2 Hq'). }
      unfold put_str. rewrite (proj2 (Nat.ltb_lt _ _)) by lia. apply wp_bind, wp_ret.
      apply (Hgo _ _ _ (String c v)); [done|rewrite string_length_app; lia|done|done].
    + apply (Hgo _ _ _ EmptyString); [done|lia|by rewrite string_app_nil|done].
  - destruct t as [|a [|c t']]; [by apply wp_ret..|]. case_if; [by apply wp_ret|]. by apply Hput.
  - by apply Hput.
  - destruct (inner_cpy _ _ _ E) as [c ->]. by apply Hput.
Qed.

(** Key and quoted value of a setting, without the allocations. *)
Fixpoint parse_setting (fuel : nat) (s : string) (key val : option string) : option (string * string) :=
  match fuel with
  | O => None
  | Datatypes.S fuel =>
      let '(ty, m, r) := crinitEnvVarOuterLex s in
      match ty, key, val with
      | CRINIT_TK_END, Some k, Some v => Some (k, v)
      | CRINIT_TK_WSPC, _, _ => parse_setting fuel r key val
      | CRINIT_TK_ENVKEY, None, _ => parse_setting fuel r (Some m) val
      | CRINIT_TK_ENVVAL, Some _, None => parse_setting fuel r key (Some m)
      | _, _, _ => None
      end
  end.

Lemma outer_key_no_eq s m r : crinitEnvVarOuterLex s = (CRINIT_TK_ENVKEY, m, r) → str_has "=" m = false.
Proof.
  destruct s as [|c s]; [done|]. unfold crinitEnvVarOuterLex. destruct (is_alpha_ c) eqn:Hc.
  - pose proof (span_alnum_no_eq s) as Hs. revert Hs. destruct (span is_alnum_ s) as [m' r'].
    intros Hs [= <- <-]. by apply cons_no_eq.
  - destruct (is_ws c); [by destruct (span is_ws (String c s))|].
    destruct (is_char c c_quote); [|done]. by destruct (last_quote s) as [[??]|].
Qed.

Lemma wp_env_outer fuel s key val (st : S) :
  (∀ k, key = Some k → str_has "=" k = false) →
  wp (env_outer fuel s key val)
     (λ o st', only_faults st st' ∧
        match o with
        | OuterDone CRINIT_TK_END (Some k) (Some v) =>
            parse_setting fuel s key val = Some (k, v) ∧ str_has "=" k = false
        | _ => quiet st → parse_setting fuel s key val = None
        end) st.
Proof.
  revert s key val st. induction fuel as [|fuel IH]; intros s key val st Hkey; [by apply wp_ret|].
  cbn [env_outer parse_setting]. destruct (crinitEnvVarOuterLex s) as [[ty m] r] eqn:E.
  assert (∀ key' val' st', only_faults st st' → (∀ k, key' = Some k → str_has "=" k = false) →
    wp (env_outer fuel r key' val')
     (λ o st', only_faults st st' ∧
        match o with
        | OuterDone CRINIT_TK_END (Some k) (Some v) =>
            parse_setting fuel r key' val' = Some (k, v) ∧ str_has "=" k = false
        | _ => quiet st → parse_setting fuel r key' val' = None
        end) st') as Hgo.
  { intros key' val' st' Hst Hk. eapply wp_mono; [|by apply IH]. intros o st2 [Hst2 Ho].
    split; [by etrans|]. pose proof (only_faults_quiet _ _ Hst).
    destruct o as [[] [] []|]; auto. }
  destruct ty; try (by apply wp_ret).
  - apply wp_ret. split; [done|]. destruct key, val; auto.
  - destruct key as [k|]; [by apply wp_ret|]. apply wp_bind, wp_fallible_why. intros [] st1 Hst1 Hq1.
    { apply wp_ret. split; [done|]. intros Hq. by specialize (Hq1 Hq). }
    apply Hgo; [done|]. intros k [= <-]. by eapply outer_key_no_eq.
  - destruct key as [k|], val as [v|]; try (by apply wp_ret).
    apply wp_bind, wp_fallible_why. intros [] st1 Hst1 Hq1; [|by apply Hgo].
    apply wp_ret. split; [done|]. intros Hq. by specialize (Hq1 Hq).
  - by apply Hgo.
Qed.

(** A setting whose text is too long for the int of snprintf() is refused. *)
Lemma set_too_long es k v (s : S) :
  INT_MAX < Z.of_nat (String.length (k +:+ "=" +:+ v)%string) →
  wlp (crinitEnvSetSet es k v) (λ r _, r.1 = -1) s.
Proof.
  intros Hlen. unfold crinitEnvSetSet.
  assert (∀ es idx (s' : S), wlp (env_write es idx k v) (λ r _, r.1 = -1) s') as Hw.
  { intros es' idx s'. unfold env_write. by rewrite (proj2 (Z.ltb_lt _ _) Hlen). }
  destruct (crinitEnvSetValid es); [|done]. destruct (crinitEnvSetSearch es k) as [idx|]; [|done]. cbn [negb].
  destruct (envp es ≫= _) as [[e|]|]; [| |done].
  - apply wlp_bind_any. intros [] s1; [done|apply Hw].
  - apply wlp_bind_any. intros [r es'] s1. cbv beta iota. destruct (r =? -1); [done|].
    apply wlp_bind_any. intros [] s2; [done|apply Hw].
Qed.

(** Whatever the text and whichever allocations fail, a set that took a setting
    is well formed. *)
Lemma env_member_ok es v (s : S) :
  env_ok es → wlp (crinitConfConvToEnvSetMember es v) (λ r _, r.1 ≠ -1 → env_ok r.2) s.
Proof.
  intros [l Hwf]. unfold crinitConfConvToEnvSetMember. rewrite (env_wf_valid _ _ Hwf). cbn [negb].
  apply wlp_bind. eapply wlp_mono; [|apply wp_wlp; by apply wp_env_outer]. intros o s1 [_ Ho].
  destruct o as [[] [key|] [val|]|]; try (by apply wlp_ret). destruct Ho as [_ Hkey].
  apply wlp_bind_any. intros [] s2; [by apply wlp_ret|].
  apply wlp_bind_any. intros [w|] s3; [|by apply wlp_ret].
  destruct (Z.leb_spec (Z.of_nat (String.length (key +:+ "=" +:+ c_str w)%string)) INT_MAX) as [Hle|Hgt].
  - eapply wlp_mono; [|apply wp_wlp; by apply set_wf]. intros r s4 (_ & _ & l' & Hwf' & _) _. by exists l'.
  - eapply wlp_mono; [|by apply set_too_long]. intros r s4 -> Hr. done.
Qed.
End EnvMemberSpec.

Section Theorems.
Context {S : Type} `{Faulty S}.

(** An array of strings without NUL characters that is written in double
    quotes, with quotes, backslashes and line breaks escaped, is read back
    unchanged by crinitConfConvToStrArr(). *)
Theorem crinitConfConvToStrArr_roundtrip args (s : S) :
  Forall (λ a, no_nul a = true) args → quiet s →
  crinitConfConvToStrArr (write_args args) true s = Ret (Some args) s.
Proof. apply run_written. Qed.

(** The second pass of crinitConfConvToStrArr() never writes more than the
    strlen() + 1 bytes that were allocated for its backing buffer, for any
    text and quoting mode, and never disagrees with the first pass about the
    number of elements. *)
Theorem crinitConfConvToStrArr_fits confVal dq :
  let fuel := Datatypes.S (String.length confVal) in
  (bytes_needed fuel confVal dq ≤ String.length confVal + 1)%nat ∧
  ∀ args, collect_args fuel confVal dq = POk args → count_args fuel confVal dq = Some (length args).
Proof. split; [apply bytes_needed_bound|]. intros args. apply collect_count. Qed.

(** A backslash in front of a character from 128 on (a UTF-8 sequence, for
    instance) makes crinitCopyEscaped() read outside of crinitEscMap. *)
Theorem crinitCopyEscaped_high_char_undefined c r :
  (128 ≤ nat_of_ascii c)%nat → crinitCopyEscaped (String c_backslash (String c r)) = PUndef.
Proof.
  intros Hc. unfold crinitCopyEscaped. cbn [copy_escaped crinitEscLex]. unfold lex_escape.
  change (is_char c_backslash c_backslash) with true. cbn iota.
  assert (is_char c "x" = false) as ->.
  { apply not_true_is_false. rewrite is_char_true. intros ->. apply Nat.leb_le in Hc. done. }
  cbn iota beta. unfold str1. destruct (Nat.leb_spec 128 (nat_of_ascii c)); [done|lia].
Qed.

End Theorems.

(** ** Witnesses *)

Lemma crinitConfConvToIntegerI_decimal_witness :
  crinitConfConvToIntegerI 7 "4294967297" 10 = (0, 1).
Proof.
  change "4294967297"%string with (print_dec 4294967297). change 1 with (int32 4294967297).
  apply crinitConfConvToIntegerI_decimal. unfold LONG_MIN, LONG_MAX. lia.
Defined.

Lemma crinitConfConvToIntegerI_roundtrip_witness :
  crinitConfConvToIntegerI 7 "-42" 10 = (0, -42).
Proof.
  change "-42"%string with (print_dec (-42)).
  apply crinitConfConvToIntegerI_roundtrip. unfold INT_MIN, INT_MAX. lia.
Defined.

Lemma crinitConfConvToStrArr_roundtrip_witness :
  crinitConfConvToStrArr (write_args ["/bin/sh"; "-c"; "echo a\b"]%string) true [] =
  Ret (Some ["/bin/sh"; "-c"; "echo a\b"]%string) [].
Proof.
  apply (crinitConfConvToStrArr_roundtrip ["/bin/sh"; "-c"; "echo a\b"]%string []); [|reflexivity].
  repeat constructor.
Defined.

Lemma crinitCopyEscaped_high_char_undefined_witness :
  crinitCopyEscaped (String c_backslash (String (chr 195) EmptyString)) = PUndef.
Proof. apply crinitCopyEscaped_high_char_undefined. apply Nat.leb_le. reflexivity. Defined.

(** KEY "a${A}\n" *)
Definition demo_setting : string :=
  ("B " +:+ str1 c_quote +:+ "a${A}\n" +:+ str1 c_quote)%string.

