(* ===== verification/TimerPrint.v ===== *)
(** * Printing timer definitions: crinitSPrintTimerDef() and crinitPrintTimerDef() of src/timer.c

    The text of a definition, and that it fits into the array of the caller for every
    value of the fields. *)

From Stdlib Require Import ZArith Lia Bool List String Ascii.
From stdpp Require Import base list strings.
From S2P Require Import Prelude Timer ConfConv.

Open Scope Z_scope.
Open Scope crinit_scope.

#[local] Arguments String.append : simpl nomatch.

(** ** Formats *)

Fixpoint zeros (n : nat) : string := match n with O => EmptyString | S n => String "0" (zeros n) end.

(** %0<w>d *)
Definition fmt_d (w : nat) (n : Z) : string :=
  if n <? 0 then let s := print_dec (- n) in String "-" (zeros (w - 1 - String.length s) +:+ s)
  else let s := print_dec n in zeros (w - String.length s) +:+ s.

(** A field with one value or with two. *)
Definition fmt_range (f : Z → string) (r : range) : string :=
  if r.1 =? r.2 then f r.1 else f r.1 +:+ ".." +:+ f r.2.

(** ** The functions *)

Definition crinitSPrintTimerDef (td : crinitTimerDef) : string :=
  let day k name := if Z.land (wDay td) (Z.shiftl 1 k) =? 0 then "_  "%string else name in
  fmt_range (fmt_d 4) (years td) +:+ "-" +:+
  fmt_range crinitMonthToStr (month td) +:+ "-" +:+
  fmt_range (fmt_d 2) (days td) +:+ " " +:+
  fmt_range (fmt_d 2) (hours td) +:+ ":" +:+
  fmt_range (fmt_d 2) (minutes td) +:+ ":" +:+
  fmt_range (fmt_d 2) (seconds td) +:+ " " +:+
  (if (timezone td).1 <? 0 then "-" else "+") +:+ fmt_d 2 (Z.abs (timezone td).1) +:+ fmt_d 2 (timezone td).2 +:+ " " +:+
  "|" +:+ day 0 "Mon" +:+ " " +:+ day 1 "Tue" +:+ " " +:+ day 2 "Wed" +:+ " " +:+ day 3 "Thu" +:+ " " +:+
  day 4 "Fri" +:+ " " +:+ day 5 "Sat" +:+ " " +:+ day 6 "Sun" +:+ "|".

(** The message; [None] if the text and its terminator do not fit into the array. *)
Definition crinitPrintTimerDef (td : crinitTimerDef) : option string :=
  let s := crinitSPrintTimerDef td in
  if (String.length s <? 100)%nat then Some ("@timer:" +:+ s) else None.

(** ** Lengths *)

Definition text_le (k : nat) (s : string) : Prop := (String.length s ≤ k)%nat.

Lemma text_le_app a b s t : text_le a s → text_le b t → text_le (a + b) (s +:+ t).
Proof. unfold text_le. rewrite string_length_app. lia. Qed.

Lemma dec_go_length fuel k n acc :
  0 ≤ n < 10 ^ Z.of_nat (S k) → (String.length (dec_go fuel n acc) ≤ String.length acc + S k)%nat.
Proof.
  revert k n acc. induction fuel as [|fuel IH]; intros k n acc Hn; cbn [dec_go]; [lia|].
  destruct (Z.ltb_spec n 10); [cbn; lia|]. destruct k as [|k]; [cbn in Hn; lia|].
  etransitivity; [apply (IH k)|cbn; lia]. rewrite (Nat2Z.inj_succ (S k)), Z.pow_succ_r in Hn by lia.
  split; [apply Z.div_pos; lia|]. apply Z.div_lt_upper_bound; lia.
Qed.

Lemma print_dec_length k n : 0 ≤ n < 10 ^ Z.of_nat (S k) → text_le (S k) (print_dec n).
Proof.
  intros Hn. unfold print_dec, text_le. rewrite (proj2 (Z.ltb_ge _ _)) by lia. by apply (dec_go_length _ k).
Qed.

Lemma zeros_length n : String.length (zeros n) = n.
Proof. induction n as [|n IH]; cbn; congruence. Qed.

Lemma fmt_d_length w k n : 0 ≤ n < 10 ^ Z.of_nat (S k) → (w ≤ S k)%nat → text_le (S k) (fmt_d w n).
Proof.
  intros Hn Hw. unfold fmt_d. rewrite (proj2 (Z.ltb_ge _ _)) by lia. pose proof (print_dec_length k n Hn) as Hp.
  unfold text_le in *. rewrite string_length_app, zeros_length. lia.
Qed.

Lemma fmt_d_signed w k n : - 10 ^ Z.of_nat (S k) < n < 10 ^ Z.of_nat (S k) → (w ≤ S (S k))%nat → text_le (S (S k)) (fmt_d w n).
Proof.
  intros Hn Hw. destruct (Z.lt_ge_cases n 0) as [H|H].
  - unfold fmt_d. rewrite (proj2 (Z.ltb_lt _ _)) by lia. pose proof (print_dec_length k (- n) ltac:(lia)) as Hp.
    unfold text_le in *. cbn [String.length]. rewrite string_length_app, zeros_length. lia.
  - unfold fmt_d. rewrite (proj2 (Z.ltb_ge _ _)) by lia. pose proof (print_dec_length k n ltac:(lia)) as Hp.
    unfold text_le in *. rewrite string_length_app, zeros_length. lia.
Qed.

Lemma fmt_range_length f k r : text_le k (f r.1) → text_le k (f r.2) → text_le (k + (2 + k)) (fmt_range f r).
Proof.
  intros H1 H2. unfold fmt_range. case_match; [unfold text_le in *; lia|].
  apply text_le_app; [done|]. by apply text_le_app; [unfold text_le; cbn; lia|].
Qed.

Lemma month_length m : text_le 3 (crinitMonthToStr m).
Proof.
  unfold crinitMonthToStr, text_le. destruct (Z.to_nat m) as [|n]; [cbn; lia|].
  do 12 (destruct n as [|n]; [cbn; lia|]). destruct n; cbn; lia.
Qed.

(** The fields as machine integers: uint16_t, uint8_t and int8_t. *)
Definition machine_def (td : crinitTimerDef) : Prop :=
  within 0 65535 (years td) ∧ within 0 255 (month td) ∧ within 0 255 (days td) ∧ within 0 255 (hours td) ∧
  within 0 255 (minutes td) ∧ within 0 255 (seconds td) ∧ within (-128) 127 (timezone td).

(** The text of a definition fits into the array of crinitPrintTimerDef() whatever the
    values of its fields are. *)
Theorem crinitPrintTimerDef_fits td : machine_def td → is_Some (crinitPrintTimerDef td).
Proof.
  intros (Hy & _ & Hd & Hh & Hm & Hs & Hz). unfold crinitPrintTimerDef.
  assert (text_le 99 (crinitSPrintTimerDef td)) as Hlen.
  { assert (∀ (b : bool) s t, text_le 3 s → text_le 3 t → text_le 3 (if b then s else t)) as Hif by (by intros []).
    assert (∀ r, within 0 255 r → text_le (3 + (2 + 3)) (fmt_range (fmt_d 2) r)) as Hr.
    { intros r [H1 H2]. apply fmt_range_length; apply fmt_d_length; cbn; lia. }
    unfold crinitSPrintTimerDef.
    eapply (Nat.le_trans _ (12 + (1 + (8 + (1 + (8 + (1 + (8 + (1 + (8 + (1 + (8 + (1 + (1 + (3 + (4 + (1 + (1 + (3 + (1 + (3 + (1 + (3 + (1 + (3 + (1 + (3 + (1 + (3 + (1 + (3 + 1))))))))))))))))))))))))))))))).
    2: lia.
    repeat (apply text_le_app; [|]); try (apply Hr; done); try (apply Hif; unfold text_le; cbn; lia); try (unfold text_le; cbn; lia).
    - destruct Hy as [H1 H2]. apply (fmt_range_length _ 5); apply fmt_d_length; cbn; lia.
    - apply (fmt_range_length _ 3); apply month_length.
    - unfold text_le. case_match; cbn; lia.
    - destruct Hz as [H1 _]. apply (fmt_d_length 2 2); cbn; lia.
    - destruct Hz as [_ H2]. apply (fmt_d_signed 2 2); cbn; lia. }
  rewrite (proj2 (Nat.ltb_lt _ _)) by (unfold text_le in Hlen; lia). by eexists.
Qed.
