(* ===== verification/Ini.v ===== *)
(** * The INI parser: deps/inih/ini.c

    ini_parse_string() as crinit builds it (lines of at most 4095 bytes,
    continuation lines, byte order mark, no inline comments, no stop at the first
    error).  The parser calls a handler for every name and value it finds; here
    it lists these calls together with its syntax errors, each with the number
    of its line.  Section names are only passed through to the handler, which
    ignores them, and are left out. *)

From Stdlib Require Import ZArith Lia Bool List String Ascii.
From stdpp Require Import base list strings.
From S2P Require Import Prelude CString Lexers ConfConv.

Open Scope Z_scope.
Open Scope crinit_scope.

#[local] Arguments String.append : simpl nomatch.

(** ** Helpers of ini.c *)

Fixpoint rstrip (s : string) : string :=
  match s with
  | EmptyString => EmptyString
  | String c s =>
      match rstrip s with
      | EmptyString => if is_space c then EmptyString else String c EmptyString
      | r => String c r
      end
  end.

Fixpoint lskip (s : string) : string :=
  match s with
  | String c s' => if is_space c then lskip s' else s
  | EmptyString => EmptyString
  end.

(** find_chars_or_comment(): what is before and after the first character of a
    set. *)
Fixpoint find_chars (chars : list ascii) (s : string) : option (string * string) :=
  match s with
  | EmptyString => None
  | String c s =>
      if existsb (is_char c) chars then Some (EmptyString, s)
      else (λ p, (String c p.1, p.2)) <$> find_chars chars s
  end.

Fixpoint str_take (n : nat) (s : string) : string :=
  match n, s with
  | S n, String c s => String c (str_take n s)
  | _, _ => EmptyString
  end.

Fixpoint str_drop (n : nat) (s : string) : string :=
  match n, s with
  | Datatypes.S n, String _ s => str_drop n s
  | _, _ => s
  end.

Definition INI_MAX_LINE : nat := 4096.
Definition MAX_NAME : nat := 50.

(** strncpy0() *)
Definition strncpy0 (s : string) (size : nat) : string := str_take (size - 1) s.

(** ini_reader_string(): at most [n] bytes, up to a newline. *)
Fixpoint ini_reader_string (n : nat) (s : string) : string * string :=
  match n, s with
  | S n, String c s =>
      if is_char c c_newline then (String c EmptyString, s)
      else let '(l, r) := ini_reader_string n s in (String c l, r)
  | _, _ => (EmptyString, s)
  end.

(** ** The parser *)

Inductive ini_event :=
| IniPair (name value : string)  (* the handler is called *)
| IniError.                      (* a line that is not understood *)

Definition skip_bom (lineno : Z) (line : string) : string :=
  match line with
  | String a (String b (String c r)) =>
      if (lineno =? 1) && is_char a (chr 239) && is_char b (chr 187) && is_char c (chr 191) then r else line
  | _ => line
  end.

(** One line: the event, if there is one, and the name that a continuation
    line belongs to.  A byte order mark also makes [start > line], on a line on
    which there is no previous name. *)
Definition ini_line (lineno : Z) (prev_name line : string) : option ini_event * string :=
  let stripped := rstrip (skip_bom lineno line) in
  let start := lskip stripped in
  match start with
  | EmptyString => (None, prev_name)
  | String c r =>
      if is_char c ";" || is_char c "#" then (None, prev_name)
      else if negb (str_eqb prev_name "") && negb (Nat.eqb (String.length start) (String.length stripped)) then
         (Some (IniPair prev_name start), prev_name)
      else if is_char c "[" then
        match find_chars ["]"%char] r with
        | Some _ => (None, EmptyString)
        | None => (Some IniError, prev_name)
        end
      else
        match find_chars ["="%char; ":"%char] start with
        | Some (n, v) =>
            let name := rstrip n in
            (Some (IniPair name (rstrip (lskip v))), strncpy0 name MAX_NAME)
        | None => (Some IniError, prev_name)
        end
  end.

Fixpoint ini_lines (fuel : nat) (lineno : Z) (prev_name s : string) : list (Z * ini_event) :=
  match fuel, s with
  | S fuel, String _ _ =>
      let '(line, r) := ini_reader_string (INI_MAX_LINE - 1) s in
      let '(ev, prev) := ini_line (lineno + 1) prev_name line in
      match ev with
      | Some e => (lineno + 1, e) :: ini_lines fuel (lineno + 1) prev r
      | None => ini_lines fuel (lineno + 1) prev r
      end
  | _, _ => []
  end.

Definition ini_parse_string (s : string) : list (Z * ini_event) := ini_lines (String.length s) 0 EmptyString s.

(** ** Writing and reading back *)

Lemma take_drop n s : (str_take n s +:+ str_drop n s)%string = s.
Proof. revert n. induction s as [|c s IH]; intros [|n]; [done..|]. simpl. cbn [String.append]. by rewrite IH. Qed.

Lemma drop_length n s : String.length (str_drop n s) = (String.length s - n)%nat.
Proof. revert n. induction s as [|c s IH]; intros [|n]; [done..|]. apply IH. Qed.

Definition str_none (p : ascii → bool) (s : string) : Prop := ∀ c, str_has c s = true → p c = false.

Lemma str_none_cons p c s : str_none p (String c s) ↔ p c = false ∧ str_none p s.
Proof.
  unfold str_none. split.
  - intros Hn. split; [|intros d Hd]; apply Hn; rewrite str_has_cons; [by rewrite bool_decide_eq_true_2|].
    by rewrite Hd, orb_true_r.
  - intros [Hc Hs] d. rewrite str_has_cons, orb_true_iff, bool_decide_eq_true. intros [<-|Hd]; [done|auto].
Qed.

Lemma str_none_forallb (p : ascii → bool) v :
  forallb (λ c, negb (p c)) (list_ascii_of_string v) = true → str_none p v.
Proof.
  induction v as [|c v IH]; [done|]. simpl. intros [Hc Hv]%andb_prop. apply str_none_cons.
  split; [by apply negb_true_iff|auto].
Qed.

Lemma rstrip_app a b : rstrip b ≠ EmptyString → rstrip (a +:+ b) = (a +:+ rstrip b)%string.
Proof.
  intros Hb. induction a as [|c a IH]; [done|]. cbn [String.append rstrip]. rewrite IH.
  destruct a; [|done]. cbn [String.append]. by destruct (rstrip b).
Qed.

Lemma rstrip_space s c : is_space c = true → rstrip (s +:+ String c EmptyString) = rstrip s.
Proof.
  intros Hc. induction s as [|d s IH]; cbn [String.append rstrip]; [by rewrite Hc|]. by rewrite IH.
Qed.

Lemma rstrip_solid c s : is_space c = false → rstrip (String c s) = String c (rstrip s).
Proof. intros Hc. cbn [rstrip]. rewrite Hc. by destruct (rstrip s). Qed.

Lemma find_chars_app chars a c b :
  str_none (λ c, existsb (is_char c) chars) a → existsb (is_char c) chars = true →
  find_chars chars (a +:+ String c b) = Some (a, b).
Proof.
  intros Ha Hc. induction a as [|d a IH]; cbn [String.append find_chars]; [by rewrite Hc|].
  apply str_none_cons in Ha as [-> Ha]. by rewrite IH.
Qed.

Lemma reader_line n l r :
  str_none (λ c, is_char c c_newline) l → (String.length l < n)%nat →
  ini_reader_string n (l +:+ String c_newline r) = ((l +:+ String c_newline EmptyString)%string, r).
Proof.
  revert n. induction l as [|c l IH]; intros [|n] Hl Hn; cbn [String.append String.length] in *; try lia.
  - done.
  - apply str_none_cons in Hl as [Hc Hl]. cbn [ini_reader_string]. rewrite Hc, IH by (done || lia). done.
Qed.

(** Names and values that survive: trimmed, on one line, and the name without a
    separator and not the start of a comment, a section or a byte order mark. *)
Record name_ok (n : string) : Prop := {
  name_trim : rstrip n = n;
  name_chars : str_none (λ c, is_char c c_newline || is_char c "=" || is_char c ":") n;
  name_start : match n with
    | EmptyString => False
    | String c _ => is_space c = false ∧
        negb (is_char c ";" || is_char c "#" || is_char c "[" || is_char c (chr 239)) = true
    end;
}.

Record value_ok (v : string) : Prop := {
  value_trim : rstrip v = v;
  value_start : lskip v = v;
  value_chars : str_none (λ c, is_char c c_newline) v;
}.

Definition pair_line (n v : string) : string := (n +:+ " = " +:+ v)%string.

(** The line without the white space at its end. *)
Lemma rstrip_pair n v :
  rstrip (pair_line n v +:+ String c_newline EmptyString) = (n +:+ String " " (String "=" (rstrip (String c_space v))))%string.
Proof.
  rewrite rstrip_space by done. unfold pair_line.
  change (n +:+ " = " +:+ v)%string with (n +:+ String " " EmptyString +:+ String "=" (String c_space v))%string.
  rewrite rstrip_app; rewrite rstrip_app; rewrite rstrip_solid by done; done.
Qed.

Lemma skip_bom_name lineno c n s :
  is_char c (chr 239) = false → skip_bom lineno (String c n +:+ s)%string = (String c n +:+ s)%string.
Proof.
  intros Hc. cbn [String.append]. unfold skip_bom. rewrite Hc, andb_false_r.
  by destruct (n +:+ s)%string as [|? [|??]].
Qed.

Lemma ini_line_pair lineno prev n v :
  name_ok n → value_ok v →
  ini_line lineno prev (pair_line n v +:+ String c_newline EmptyString) =
  (Some (IniPair n v), strncpy0 n MAX_NAME).
Proof.
  intros [Hn Hnc Hns] [Hv Hvs _]. destruct n as [|c n]; [done|]. destruct Hns as [Hsp Hst].
  apply negb_true_iff in Hst. bool_hyps.
  assert (skip_bom lineno (pair_line (String c n) v +:+ String c_newline EmptyString)
          = pair_line (String c n) v +:+ String c_newline EmptyString)%string as Hb.
  { unfold pair_line. rewrite string_app_assoc. by apply skip_bom_name. }
  unfold ini_line. rewrite Hb, rstrip_pair. cbn [String.append lskip]. rewrite Hsp, Nat.eqb_refl, andb_false_r.
  repeat match goal with H : is_char c _ = false |- _ => rewrite H; clear H end. cbn [orb].
  set (x := rstrip (String c_space v)).
  change (String c (n +:+ String " " (String "=" x)))%string
    with (String c n +:+ String " " EmptyString +:+ String "=" x)%string.
  rewrite <- string_app_assoc, find_chars_app; [|..|done].
  - rewrite rstrip_space, Hn by done. do 3 f_equal. subst x. cbn [rstrip]. rewrite Hv.
    destruct v as [|d v]; [done|]. change (lskip (String c_space (String d v))) with (lskip (String d v)).
    by rewrite Hvs, Hv.
  - intros d. rewrite str_has_app, (str_has_cons d " "). change (str_has d EmptyString) with false.
    rewrite orb_false_r, orb_true_iff, bool_decide_eq_true.
    intros [Hd|<-]; [|done]. specialize (Hnc d Hd). simpl in *. bool_hyps. by rewrite orb_false_r; apply orb_false_intro.
Qed.

Fixpoint pair_lines (l : list (string * string)) : string :=
  match l with
  | [] => EmptyString
  | (n, v) :: l => (pair_line n v +:+ String c_newline (pair_lines l))%string
  end.

Definition writable (p : string * string) : Prop :=
  name_ok p.1 ∧ value_ok p.2 ∧ (String.length (pair_line p.1 p.2) < INI_MAX_LINE - 1)%nat.

Lemma pair_line_one_line n v : name_ok n → value_ok v → str_none (λ c, is_char c c_newline) (pair_line n v).
Proof.
  intros [_ Hn _] [_ _ Hv] c. unfold pair_line. rewrite !str_has_app, !orb_true_iff.
  intros [Hc|[Hc|Hc]]; [|revert Hc; by destruct (decide (c = c_newline)) as [->|]; [|intros _; apply bool_decide_eq_false_2]|by apply Hv].
  specialize (Hn c Hc). simpl in Hn. bool_hyps. done.
Qed.

Lemma ini_lines_pairs l lineno prev fuel :
  Forall writable l → (length l ≤ fuel)%nat →
  ini_lines fuel lineno prev (pair_lines l)
  = imap (λ i p, (lineno + 1 + Z.of_nat i, IniPair p.1 p.2)) l.
Proof.
  intros Hl. revert lineno prev fuel. induction Hl as [|[n v] l (Hn & Hv & Hlen) Hl IH]; intros lineno prev fuel Hf.
  { by destruct fuel. }
  destruct fuel as [|fuel]; [simpl in Hf; lia|]. cbn [pair_lines fst snd] in *.
  assert (∃ c r, (pair_line n v +:+ String c_newline (pair_lines l))%string = String c r) as (c & r & E).
  { destruct n as [|c n]; [by destruct Hn|]. by do 2 eexists. }
  cbn [ini_lines]. rewrite E. rewrite <- E. rewrite reader_line by (done || by apply pair_line_one_line).
  rewrite ini_line_pair by done. rewrite IH by (simpl in Hf; lia). cbn [imap]. f_equal.
  - f_equal. lia.
  - apply imap_ext. intros i p _. simpl. f_equal. lia.
Qed.

Lemma pair_lines_length l : (length l ≤ String.length (pair_lines l))%nat.
Proof.
  induction l as [|[n v] l IH]; [done|]. cbn [pair_lines length]. rewrite string_length_app.
  cbn [String.length]. lia.
Qed.

(** A file with one line "name = value" per setting is read back as these
    settings in order, whatever their number, provided the names and values are
    trimmed, fit on a line and have none of the characters with a meaning of
    their own. *)
Lemma ini_roundtrip l :
  Forall writable l →
  ini_parse_string (pair_lines l) = imap (λ i p, (Z.of_nat i + 1, IniPair p.1 p.2)) l.
Proof.
  intros Hl. unfold ini_parse_string. rewrite ini_lines_pairs by (done || apply pair_lines_length).
  apply imap_ext. intros i p _. simpl. f_equal. lia.
Qed.
