(* ===== verification/GlobOpt.v ===== *)
(** * The global options and the feature hooks: src/globopt.c, src/optfeat.c

    One store with a mutex.  A member is chosen by its offset in the C
    structure; here by a constructor per member, one type of constructors per C
    type.  A string member is a pointer to an allocation of its own, so that a
    getter that follows a freed pointer can be told from one that reads a new
    value. *)

From Stdlib Require Import ZArith Lia Bool List String Ascii.
From stdpp Require Import base functions list strings gmap.
From S2P Require Import Prelude EnvSet Timer Task TaskDB.

Open Scope Z_scope.
Open Scope crinit_scope.

(** ** Data *)

Inductive str_member :=
| SIGKEYDIR | ELOS_SERVER | INCLDIR | INCL_SUFFIX | TASKDIR | TASK_FILE_SUFFIX | LAUNCHER_CMD | DEFAULTCAPS.
Inductive bool_member := DEBUG | USE_SYSLOG | USE_ELOS | SIGNATURES | TASKDIR_FOLLOW_SYMLINKS.
Inductive int_member := ELOS_PORT.
Inductive ull_member := ELOS_EVENT_POLL_INTERVAL | SHDGRACEP.
Inductive env_member := ENV | FILTERS.

#[export] Instance str_member_eq_dec : EqDecision str_member. Proof. solve_decision. Defined.
#[export] Instance bool_member_eq_dec : EqDecision bool_member. Proof. solve_decision. Defined.
#[export] Instance int_member_eq_dec : EqDecision int_member. Proof. solve_decision. Defined.
#[export] Instance ull_member_eq_dec : EqDecision ull_member. Proof. solve_decision. Defined.
#[export] Instance env_member_eq_dec : EqDecision env_member. Proof. solve_decision. Defined.

(** The members that are lists of their own: TASKS and the cgroups; NULL is
    [None], globCgroupsCount is the length of the list. *)
Record glob_lists := mkLists {
  tasks : option (list string);
  rootCgroup : option crinitCgroup;
  globCgroups : option (list crinitCgroup);
}.
Definition no_lists : glob_lists := mkLists None None None.

(** crinitGlobOptStore_t with its mutex.  A string member is NULL or the number
    of an allocation; [heap] are the allocations that have not been freed and
    [brk] is above all numbers handed out. *)
Record crinitGlobOptStore := mkOpts {
  strs : str_member → option nat;
  bools : bool_member → bool;
  ints : int_member → Z;
  ulls : ull_member → Z;
  envs : env_member → crinitEnvSet;
  heap : gmap nat string;
  brk : nat;
  lists : glob_lists;
  opt_locked : bool;
}.
Definition set_strs v o := mkOpts v (bools o) (ints o) (ulls o) (envs o) (heap o) (brk o) (lists o) (opt_locked o).
Definition set_bools v o := mkOpts (strs o) v (ints o) (ulls o) (envs o) (heap o) (brk o) (lists o) (opt_locked o).
Definition set_ints v o := mkOpts (strs o) (bools o) v (ulls o) (envs o) (heap o) (brk o) (lists o) (opt_locked o).
Definition set_ulls v o := mkOpts (strs o) (bools o) (ints o) v (envs o) (heap o) (brk o) (lists o) (opt_locked o).
Definition set_envs v o := mkOpts (strs o) (bools o) (ints o) (ulls o) v (heap o) (brk o) (lists o) (opt_locked o).
Definition set_lists v o := mkOpts (strs o) (bools o) (ints o) (ulls o) (envs o) (heap o) (brk o) v (opt_locked o).
Definition set_opt_locked v o := mkOpts (strs o) (bools o) (ints o) (ulls o) (envs o) (heap o) (brk o) (lists o) v.

(** free(): of NULL it is nothing. *)
Definition free_str (p : option nat) (o : crinitGlobOptStore) : crinitGlobOptStore :=
  mkOpts (strs o) (bools o) (ints o) (ulls o) (envs o)
    (match p with Some n => delete n (heap o) | None => heap o end) (brk o) (lists o) (opt_locked o).

(** A new allocation as the value of a member. *)
Definition put_str (m : str_member) (v : string) (o : crinitGlobOptStore) : crinitGlobOptStore :=
  mkOpts (<[m := Some (brk o)]> (strs o)) (bools o) (ints o) (ulls o) (envs o)
    (<[brk o := v]> (heap o)) (Datatypes.S (brk o)) (lists o) (opt_locked o).

(** The default values; the paths come from the build configuration. *)
Record defaults := mkDefaults {
  DEFAULT_SIGKEYDIR : string;
  DEFAULT_INCLDIR : string;
  DEFAULT_TASKDIR : string;
  DEFAULT_ELOS_EVENT_POLLING_TIME : Z;
}.
Definition default_str (c : defaults) (m : str_member) : string :=
  match m with
  | SIGKEYDIR => DEFAULT_SIGKEYDIR c
  | ELOS_SERVER => "127.0.0.1"
  | INCLDIR => DEFAULT_INCLDIR c
  | INCL_SUFFIX => ".crincl"
  | TASKDIR => DEFAULT_TASKDIR c
  | TASK_FILE_SUFFIX => ".crinit"
  | LAUNCHER_CMD => "/usr/bin/crinit-launch"
  | DEFAULTCAPS => ""
  end.
Definition default_bool (m : bool_member) : bool :=
  match m with TASKDIR_FOLLOW_SYMLINKS => true | _ => false end.
Definition default_ull (c : defaults) (m : ull_member) : Z :=
  match m with ELOS_EVENT_POLL_INTERVAL => DEFAULT_ELOS_EVENT_POLLING_TIME c | SHDGRACEP => 100000 end.

Class OptState (S : Type) `{Faulty S} := {
  get_opts : S → crinitGlobOptStore;
  set_opts : crinitGlobOptStore → S → S;
  get_set_opts : ∀ o s, get_opts (set_opts o s) = o;
  set_set_opts : ∀ o o' s, set_opts o (set_opts o' s) = set_opts o s;
  set_get_opts : ∀ s, set_opts (get_opts s) s = s;
  opts_faults : ∀ l s, get_opts (set_faults l s) = get_opts s;
  faults_opts : ∀ o s, faults (set_opts o s) = faults s;
}.

(** ** Operations *)

Section Operations.
Context {S : Type} `{OptState S}.

Definition mopts : M S crinitGlobOptStore := λ s, Ret (get_opts s) s.
Definition mopts_modify (f : crinitGlobOptStore → crinitGlobOptStore) : M S unit :=
  λ s, Ret tt (set_opts (f (get_opts s)) s).

(** crinitGlobOptBorrow(): an error of pthread_mutex_lock() is positive and
    compared with -1, so the caller goes on without the mutex. *)
Definition crinitGlobOptBorrow : M S unit :=
  err ← fallible;
  if (err : bool) then mret tt else
  o ← mopts;
  if opt_locked o then mblock else mopts_modify (set_opt_locked true).

(** Releasing a mutex that is not held is undefined. *)
Definition crinitGlobOptRemit : M S Z :=
  o ← mopts;
  if opt_locked o then mopts_modify (set_opt_locked false) ;; mret 0 else mundef.

(** The pointers to what has been freed stay in the store. *)
Definition crinitGlobOptDestroy : M S unit :=
  crinitGlobOptBorrow ;;
  mopts_modify (λ o, foldr free_str o
    (strs o <$> [INCLDIR; INCL_SUFFIX; TASKDIR; TASK_FILE_SUFFIX; SIGKEYDIR; ELOS_SERVER; LAUNCHER_CMD; DEFAULTCAPS])) ;;
  o ← mopts;
  '(_, e) ← crinitEnvSetDestroy (envs o ENV);
  mopts_modify (λ o, set_envs (<[ENV := e]> (envs o)) o) ;;
  '(_, f) ← crinitEnvSetDestroy (envs o FILTERS);
  mopts_modify (λ o, set_envs (<[FILTERS := f]> (envs o)) o) ;;
  _ ← crinitGlobOptRemit; mret tt.

(** The string members in the order of their initialisation; [false] when a
    duplicate could not be allocated, which leaves the member NULL. *)
Fixpoint init_strs (c : defaults) (l : list str_member) : M S bool :=
  match l with
  | [] => mret true
  | m :: l =>
      oom ← fallible;
      if (oom : bool) then mopts_modify (λ o, set_strs (<[m := None]> (strs o)) o) ;; mret false
      else mopts_modify (put_str m (default_str c m)) ;; init_strs c l
  end.

Definition init_env (m : env_member) : M S bool :=
  o ← mopts;
  '(r, es) ← crinitEnvSetInit (envs o m) 128 64;
  mopts_modify (λ o, set_envs (<[m := es]> (envs o)) o) ;; mret (negb (r =? -1)).

Definition crinitGlobOptInitDefault (c : defaults) : M S Z :=
  crinitGlobOptBorrow ;;
  mopts_modify (λ o, set_lists no_lists
    (set_ulls (default_ull c) (set_ints (λ _, 54321) (set_bools default_bool o)))) ;;
  ok ← init_strs c [DEFAULTCAPS; INCLDIR; INCL_SUFFIX; TASKDIR; TASK_FILE_SUFFIX; SIGKEYDIR; ELOS_SERVER; LAUNCHER_CMD];
  ok ← (if (ok : bool) then init_env ENV else mret false);
  ok ← (if (ok : bool) then init_env FILTERS else mret false);
  if (ok : bool) then _ ← crinitGlobOptRemit; mret 0
  else crinitGlobOptDestroy ;; _ ← crinitGlobOptRemit; mret (-1).

Definition crinitGlobOptSetString (m : str_member) (v : string) : M S Z :=
  crinitGlobOptBorrow ;;
  mopts_modify (λ o, free_str (strs o m) o) ;;
  oom ← fallible;
  if (oom : bool) then
    mopts_modify (λ o, set_strs (<[m := None]> (strs o)) o) ;; _ ← crinitGlobOptRemit; mret (-1)
  else mopts_modify (put_str m v) ;; _ ← crinitGlobOptRemit; mret 0.

(** strdup(): of NULL or freed memory it is undefined; [None] when there is
    no memory. *)
Definition strdup_ptr (p : option nat) : M S (option string) :=
  o ← mopts;
  match p ≫= (λ n, heap o !! n) with
  | None => mundef
  | Some v => oom ← fallible; mret (if (oom : bool) then None else Some v)
  end.

(** crinitGlobOptGetString() reads the pointer first and takes the mutex
    afterwards: other threads may run between the two halves. *)
Definition get_string_start (m : str_member) : M S (option nat) := o ← mopts; mret (strs o m).
Definition get_string_finish (src : option nat) : M S (option string) :=
  crinitGlobOptBorrow ;;
  v ← strdup_ptr src;
  _ ← crinitGlobOptRemit; mret v.
Definition crinitGlobOptGetString (m : str_member) : M S (option string) :=
  src ← get_string_start m; get_string_finish src.

Definition crinitGlobOptSetBoolean (m : bool_member) (v : bool) : M S Z :=
  crinitGlobOptBorrow ;; mopts_modify (λ o, set_bools (<[m := v]> (bools o)) o) ;; crinitGlobOptRemit.
Definition crinitGlobOptGetBoolean (m : bool_member) : M S bool :=
  crinitGlobOptBorrow ;; o ← mopts; _ ← crinitGlobOptRemit; mret (bools o m).

Definition crinitGlobOptSetInteger (m : int_member) (v : Z) : M S Z :=
  crinitGlobOptBorrow ;; mopts_modify (λ o, set_ints (<[m := v]> (ints o)) o) ;; crinitGlobOptRemit.
Definition crinitGlobOptGetInteger (m : int_member) : M S Z :=
  crinitGlobOptBorrow ;; o ← mopts; _ ← crinitGlobOptRemit; mret (ints o m).

Definition crinitGlobOptSetUnsignedLL (m : ull_member) (v : Z) : M S Z :=
  crinitGlobOptBorrow ;; mopts_modify (λ o, set_ulls (<[m := v]> (ulls o)) o) ;; crinitGlobOptRemit.
Definition crinitGlobOptGetUnsignedLL (m : ull_member) : M S Z :=
  crinitGlobOptBorrow ;; o ← mopts; _ ← crinitGlobOptRemit; mret (ulls o m).

Definition crinitGlobOptSetEnvSet (m : env_member) (v : crinitEnvSet) : M S Z :=
  crinitGlobOptBorrow ;;
  o ← mopts;
  '(r, es) ← crinitEnvSetDestroy (envs o m);
  mopts_modify (λ o, set_envs (<[m := es]> (envs o)) o) ;;
  if r =? -1 then _ ← crinitGlobOptRemit; mret (-1) else
  '(r, es) ← crinitEnvSetDup es v;
  mopts_modify (λ o, set_envs (<[m := es]> (envs o)) o) ;;
  _ ← crinitGlobOptRemit; mret (if r =? -1 then -1 else 0).

Definition crinitGlobOptGetEnvSet (m : env_member) (val : crinitEnvSet) : M S (Z * crinitEnvSet) :=
  crinitGlobOptBorrow ;;
  o ← mopts;
  '(r, es) ← crinitEnvSetDup val (envs o m);
  _ ← crinitGlobOptRemit; mret (if r =? -1 then -1 else 0, es).
End Operations.

(** ** Feature hooks (optfeat.c) *)

(** What the hooks switch on and off. *)
Class FeatureServices (S : Type) `{OptState S} := {
  crinitSetUseSyslog : bool → M S unit;
  crinitElosdepActivate : bool → M S Z;
  crinitElosdepTaskAdded : hook_data → M S Z;
  crinitEloslogInit : M S Z;
  crinitEloslogActivate : bool → M S Z;
}.

#[export] Instance hook_type_eq_dec : EqDecision crinitHookType. Proof. solve_decision. Defined.

Record crinitOptFeatMap {S : Type} := mkFeat {
  feat_name : string;
  feat_type : crinitHookType;
  feat_af : hook_data → M S Z;
  feat_member : bool_member;
}.
Arguments crinitOptFeatMap : clear implicits.

Section Hooks.
Context {S : Type} `{FeatureServices S}.

Definition crinitActivateSyslog (_ : hook_data) : M S Z := crinitSetUseSyslog true ;; mret 0.

Definition fmap_table : list (crinitOptFeatMap S) := [
  mkFeat S "syslog" CRINIT_HOOK_START crinitActivateSyslog USE_SYSLOG;
  mkFeat S "elos" CRINIT_HOOK_START (λ _, crinitElosdepActivate true) USE_ELOS;
  mkFeat S "elos" CRINIT_HOOK_STOP (λ _, crinitElosdepActivate false) USE_ELOS;
  mkFeat S "elos" CRINIT_HOOK_TASK_ADDED crinitElosdepTaskAdded USE_ELOS;
  mkFeat S "elos" CRINIT_HOOK_INIT (λ _, crinitEloslogInit) USE_ELOS;
  mkFeat S "elos" CRINIT_HOOK_START (λ _, crinitEloslogActivate true) USE_ELOS;
  mkFeat S "elos" CRINIT_HOOK_STOP (λ _, crinitEloslogActivate false) USE_ELOS].

Definition feat_matches (name : option string) (ty : crinitHookType) (f : crinitOptFeatMap S) : bool :=
  match name with None => true | Some n => str_eqb (feat_name f) n end && bool_decide (feat_type f = ty).

Fixpoint hook_loop (l : list (crinitOptFeatMap S)) (name : option string) (ty : crinitHookType)
    (data : hook_data) (res : Z) : M S Z :=
  match l with
  | [] => mret res
  | f :: l =>
      if feat_matches name ty f then
        armed ← crinitGlobOptGetBoolean (feat_member f);
        r ← (if (armed : bool) then feat_af f data else mret 0);
        hook_loop l name ty data (Z.lor res r)
      else hook_loop l name ty data res
  end.

Definition crinitFeatureHook (name : option string) (ty : crinitHookType) (data : hook_data) : M S Z :=
  hook_loop fmap_table name ty data 0.
End Hooks.

(** ** The store as a table of values *)

Definition str_view (o : crinitGlobOptStore) (m : str_member) : option string := strs o m ≫= λ p, heap o !! p.

(** Every string member has an allocation of its own. *)
Record opts_ok (o : crinitGlobOptStore) : Prop := {
  str_live : ∀ m, is_Some (str_view o m);
  str_inj : ∀ m m' p, strs o m = Some p → strs o m' = Some p → m = m';
  str_brk : ∀ p, is_Some (heap o !! p) → (p < brk o)%nat;
}.

(** What clients see of a store. *)
Record view := mkView {
  v_str : str_member → option string;
  v_bool : bool_member → bool;
  v_int : int_member → Z;
  v_ull : ull_member → Z;
  v_env : env_member → crinitEnvSet;
}.
Definition view_of (o : crinitGlobOptStore) : view := mkView (str_view o) (bools o) (ints o) (ulls o) (envs o).

Lemma str_view_put m v o m' :
  opts_ok o → str_view (put_str m v (free_str (strs o m) o)) m' = <[m := Some v]> (str_view o) m'.
Proof.
  intros [Hl Hinj Hb]. unfold str_view, put_str. simpl. destruct (decide (m = m')) as [<-|Hne].
  - rewrite !fn_lookup_insert. simpl. by rewrite lookup_insert_eq.
  - rewrite !fn_lookup_insert_ne by done. destruct (Hl m') as [v' Hv']. unfold str_view in Hv'.
    destruct (strs o m') as [p|] eqn:Hp; simpl in *; [|done].
    pose proof (Hb p (ex_intro _ _ Hv')). rewrite lookup_insert_ne by lia.
    destruct (strs o m) as [q|] eqn:Hq; [|done]. rewrite lookup_delete_ne; [done|].
    intros ->. apply Hne. by eapply Hinj.
Qed.

Lemma opts_ok_put m v o : opts_ok o → opts_ok (put_str m v (free_str (strs o m) o)).
Proof.
  intros Hok. pose proof Hok as [Hl Hinj Hb]. split.
  - intros m'. rewrite str_view_put by done. destruct (decide (m = m')) as [<-|Hne].
    + rewrite fn_lookup_insert. eauto.
    + by rewrite fn_lookup_insert_ne.
  - assert (∀ m' p, strs o m' = Some p → (p < brk o)%nat) as Hlt.
    { intros m' p Hp. apply Hb. destruct (Hl m') as [v' Hv']. unfold str_view in Hv'. rewrite Hp in Hv'. eauto. }
    intros m1 m2 p. simpl. destruct (decide (m = m1)) as [<-|H1], (decide (m = m2)) as [<-|H2];
      rewrite ?fn_lookup_insert, ?fn_lookup_insert_ne by done.
    + done.
    + intros [= <-] Hp. specialize (Hlt _ _ Hp). lia.
    + intros Hp [= <-]. specialize (Hlt _ _ Hp). lia.
    + apply Hinj.
  - simpl. intros p Hp. destruct (decide (p = brk o)) as [->|Hne]; [lia|].
    rewrite lookup_insert_ne in Hp by done. apply Nat.lt_lt_succ_r, Hb.
    destruct (strs o m) as [q|]; [|done]. destruct Hp as [x Hx]. apply lookup_delete_Some in Hx as [_ Hx]. eauto.
Qed.

Lemma opts_ok_same o o' :
  strs o' = strs o → heap o' = heap o → brk o' = brk o → opts_ok o → opts_ok o'.
Proof.
  intros E1 E2 E3 [Hl Hinj Hb]. unfold str_view in *.
  split; unfold str_view; rewrite ?E1, ?E2, ?E3; done.
Qed.

Lemma opts_relock o f :
  opt_locked o = false → (∀ o', opt_locked (f o') = opt_locked o') →
  (∀ b o', f (set_opt_locked b o') = set_opt_locked b (f o')) →
  set_opt_locked false (f (set_opt_locked true o)) = f o.
Proof.
  intros Hu Hl Hf. rewrite Hf. pose proof (Hl o) as E. rewrite Hu in E. by destruct (f o); simpl in *; subst.
Qed.

Section StoreSpec.
Context {S : Type} `{OptState S}.
Implicit Types s : S.

Lemma quiet_opts o s : quiet (set_opts o s) ↔ quiet s.
Proof. unfold quiet. by rewrite faults_opts. Qed.

Lemma run_borrow s :
  quiet s → opt_locked (get_opts s) = false →
  crinitGlobOptBorrow s = Ret tt (set_opts (set_opt_locked true (get_opts s)) s).
Proof.
  intros Hq Hu. unfold crinitGlobOptBorrow. rewrite bind_fallible by done.
  rewrite (bind_run mopts _ s (get_opts s) s) by done. by rewrite Hu.
Qed.

Lemma run_remit s :
  opt_locked (get_opts s) = true →
  crinitGlobOptRemit s = Ret 0 (set_opts (set_opt_locked false (get_opts s)) s).
Proof.
  intros Hl. unfold crinitGlobOptRemit. rewrite (bind_run mopts _ s (get_opts s) s) by done. by rewrite Hl.
Qed.

(** A setter: take the mutex, assign, release the mutex. *)
Lemma run_setter (f : crinitGlobOptStore → crinitGlobOptStore) s :
  quiet s → opt_locked (get_opts s) = false → (∀ o, opt_locked (f o) = opt_locked o) →
  (∀ b o, f (set_opt_locked b o) = set_opt_locked b (f o)) →
  (crinitGlobOptBorrow ;; mopts_modify f ;; crinitGlobOptRemit) s = Ret 0 (set_opts (f (get_opts s)) s).
Proof.
  intros Hq Hu Hl Hf. rewrite (bind_run _ _ _ _ _ (run_borrow s Hq Hu)).
  rewrite (bind_run (mopts_modify f) _ _ tt (set_opts (f (set_opt_locked true (get_opts s))) s)).
  2:{ unfold mopts_modify. by rewrite get_set_opts, set_set_opts. }
  rewrite run_remit by (by rewrite get_set_opts, Hl).
  rewrite get_set_opts, set_set_opts. by rewrite opts_relock.
Qed.

(** A getter leaves the store as it is. *)
Lemma run_getter {A} (f : crinitGlobOptStore → A) s :
  quiet s → opt_locked (get_opts s) = false → (∀ b o, f (set_opt_locked b o) = f o) →
  (crinitGlobOptBorrow ;; o ← mopts; _ ← crinitGlobOptRemit; mret (f o)) s = Ret (f (get_opts s)) s.
Proof.
  intros Hq Hu Hf. rewrite (bind_run _ _ _ _ _ (run_borrow s Hq Hu)).
  set (s1 := set_opts _ s). rewrite (bind_run mopts _ s1 (get_opts s1) s1) by done.
  assert (get_opts s1 = set_opt_locked true (get_opts s)) as E by apply get_set_opts.
  rewrite (bind_run _ _ _ _ _ (run_remit s1 ltac:(by rewrite E))). rewrite E, Hf. unfold s1.
  rewrite set_set_opts. simpl.
  assert (set_opt_locked false (set_opt_locked true (get_opts s)) = get_opts s) as ->
    by (by destruct (get_opts s); simpl in *; subst).
  by rewrite set_get_opts.
Qed.

Lemma run_set_string m v s :
  quiet s → opt_locked (get_opts s) = false →
  crinitGlobOptSetString m v s = Ret 0 (set_opts (put_str m v (free_str (strs (get_opts s) m) (get_opts s))) s).
Proof.
  intros Hq Hu. unfold crinitGlobOptSetString. rewrite (bind_run _ _ _ _ _ (run_borrow s Hq Hu)).
  set (s1 := set_opts _ s). assert (get_opts s1 = set_opt_locked true (get_opts s)) as E1 by apply get_set_opts.
  set (s2 := set_opts (free_str (strs (get_opts s) m) (get_opts s1)) s1).
  rewrite (bind_run (mopts_modify _) _ s1 tt s2) by (unfold mopts_modify, s2; by rewrite E1).
  rewrite bind_fallible by (unfold s2, s1; by rewrite !quiet_opts).
  set (s3 := set_opts (put_str m v (get_opts s2)) s2). rewrite (bind_run (mopts_modify _) _ s2 tt s3) by done.
  assert (get_opts s3 = put_str m v (free_str (strs (get_opts s) m) (set_opt_locked true (get_opts s)))) as E3.
  { unfold s3, s2. by rewrite !get_set_opts, E1. }
  rewrite (bind_run _ _ _ _ _ (run_remit s3 ltac:(by rewrite E3))). unfold mret, M_ret. f_equal.
  rewrite E3. unfold s3, s2, s1. rewrite !set_set_opts. f_equal.
  by destruct (get_opts s); simpl in *; subst.
Qed.

Lemma run_get_string m v s :
  quiet s → opt_locked (get_opts s) = false → str_view (get_opts s) m = Some v →
  crinitGlobOptGetString m s = Ret (Some v) s.
Proof.
  intros Hq Hu Hv. unfold crinitGlobOptGetString, get_string_start.
  rewrite (bind_run _ _ s (strs (get_opts s) m) s) by done. unfold get_string_finish.
  rewrite (bind_run _ _ _ _ _ (run_borrow s Hq Hu)).
  set (s1 := set_opts _ s). assert (get_opts s1 = set_opt_locked true (get_opts s)) as E1 by apply get_set_opts.
  rewrite (bind_run (strdup_ptr _) _ s1 (Some v) s1).
  2:{ unfold strdup_ptr. rewrite (bind_run mopts _ s1 (get_opts s1) s1) by done. rewrite E1. simpl.
      unfold str_view in Hv. destruct (strs (get_opts s) m) as [p|]; simpl in *; [|done]. rewrite Hv.
      rewrite bind_fallible; [done|]. unfold s1. by rewrite quiet_opts. }
  rewrite (bind_run _ _ _ _ _ (run_remit s1 ltac:(by rewrite E1))). unfold mret, M_ret. f_equal.
  rewrite E1. unfold s1. rewrite set_set_opts. rewrite <- (set_get_opts s) at 3. f_equal.
  by destruct (get_opts s); simpl in *; subst.
Qed.
End StoreSpec.

(** ** Sequences of assignments *)

Inductive opt_op :=
| SetString (m : str_member) (v : string)
| SetBoolean (m : bool_member) (v : bool)
| SetInteger (m : int_member) (v : Z)
| SetUnsignedLL (m : ull_member) (v : Z)
| SetEnvSet (m : env_member) (v : crinitEnvSet).

Definition op_ok (op : opt_op) : Prop :=
  match op with SetEnvSet _ v => env_ok v | _ => True end.

Definition run_op {S} `{OptState S} (op : opt_op) : M S Z :=
  match op with
  | SetString m v => crinitGlobOptSetString m v
  | SetBoolean m v => crinitGlobOptSetBoolean m v
  | SetInteger m v => crinitGlobOptSetInteger m v
  | SetUnsignedLL m v => crinitGlobOptSetUnsignedLL m v
  | SetEnvSet m v => crinitGlobOptSetEnvSet m v
  end.
Fixpoint run_ops {S} `{OptState S} (ops : list opt_op) : M S unit :=
  match ops with
  | [] => mret tt
  | op :: ops => _ ← run_op op; run_ops ops
  end.

Definition assign (v : view) (op : opt_op) : view :=
  match op with
  | SetString m x => mkView (<[m := Some x]> (v_str v)) (v_bool v) (v_int v) (v_ull v) (v_env v)
  | SetBoolean m x => mkView (v_str v) (<[m := x]> (v_bool v)) (v_int v) (v_ull v) (v_env v)
  | SetInteger m x => mkView (v_str v) (v_bool v) (<[m := x]> (v_int v)) (v_ull v) (v_env v)
  | SetUnsignedLL m x => mkView (v_str v) (v_bool v) (v_int v) (<[m := x]> (v_ull v)) (v_env v)
  | SetEnvSet m x => mkView (v_str v) (v_bool v) (v_int v) (v_ull v) (<[m := x]> (v_env v))
  end.

(** Two views are the same when every member is. *)
Definition view_eq (a b : view) : Prop :=
  (∀ m, v_str a m = v_str b m) ∧ (∀ m, v_bool a m = v_bool b m) ∧ (∀ m, v_int a m = v_int b m) ∧
  (∀ m, v_ull a m = v_ull b m) ∧ (∀ m, v_env a m = v_env b m).

#[export] Instance view_equivalence : Equivalence view_eq.
Proof.
  split.
  - by intros a.
  - intros a b (H1 & H2 & H3 & H4 & H5). by split_and!.
  - intros a b c (H1 & H2 & H3 & H4 & H5) (K1 & K2 & K3 & K4 & K5). split_and!; intros m; congruence.
Qed.

Lemma fn_insert_ext {A B} `{EqDecision A} (f g : A → B) k x :
  (∀ m, f m = g m) → ∀ m, <[k := x]> f m = <[k := x]> g m.
Proof. intros E m. unfold insert, fn_insert. by case_decide. Qed.

#[export] Instance assign_proper : Proper (view_eq ==> eq ==> view_eq) assign.
Proof.
  intros a b (H1 & H2 & H3 & H4 & H5) op ? <-.
  destruct op; split_and!; simpl; try done; by apply fn_insert_ext.
Qed.

#[export] Instance assigns_proper ops : Proper (view_eq ==> view_eq) (λ v, foldl assign v ops).
Proof. induction ops as [|op ops IH]; intros a b E; simpl; [done|]. apply IH. by rewrite E. Qed.

(** The store between two calls. *)
Record settled {S} `{OptState S} (s : S) : Prop := {
  set_quiet : quiet s;
  set_free : opt_locked (get_opts s) = false;
  set_strings : opts_ok (get_opts s);
  set_environments : ∀ m, env_ok (envs (get_opts s) m);
}.

Section Sequences.
Context {S : Type} `{OptState S}.
Implicit Types s : S.

Lemma destroy_ok es s : env_ok es → crinitEnvSetDestroy es s = Ret (0, mkEnvSet None 0 0) s.
Proof.
  intros [l [Harr Hroom _ _]]. destruct es as [arr sz inc]. simpl in *. subst arr.
  apply destroy_terminated. lia.
Qed.

Lemma dup_ok copy es s : env_ok es → quiet s → crinitEnvSetDup copy es s = Ret (0, es) s.
Proof.
  intros [l Hwf] Hq. destruct (wp_elim _ _ _ (dup_wf copy es l s Hwf)) as (r & s' & -> & [_ Hs] & Hr).
  rewrite (Hs Hq). destruct Hr as [->|(_ & _ & Hnq)]; [done|by destruct (Hnq Hq)].
Qed.

Lemma run_set_env m v s :
  settled s → env_ok v →
  crinitGlobOptSetEnvSet m v s =
  Ret 0 (set_opts (set_envs (<[m := v]> (<[m := mkEnvSet None 0 0]> (envs (get_opts s)))) (get_opts s)) s).
Proof.
  intros [Hq Hu Hok He] Hv. unfold crinitGlobOptSetEnvSet. rewrite (bind_run _ _ _ _ _ (run_borrow s Hq Hu)).
  set (s1 := set_opts _ s). assert (get_opts s1 = set_opt_locked true (get_opts s)) as E1 by apply get_set_opts.
  rewrite (bind_run mopts _ s1 (get_opts s1) s1) by done. rewrite E1. simpl.
  rewrite (bind_run _ _ _ _ _ (destroy_ok _ s1 (He m))). cbv beta iota.
  set (s2 := set_opts (set_envs (<[m := mkEnvSet None 0 0]> (envs (get_opts s1))) (get_opts s1)) s1).
  rewrite (bind_run (mopts_modify _) _ s1 tt s2) by done. simpl.
  assert (quiet s2) as Hq2 by (unfold s2, s1; by rewrite !quiet_opts).
  rewrite (bind_run _ _ _ _ _ (dup_ok (mkEnvSet None 0 0) v s2 Hv Hq2)). cbv beta iota.
  set (s3 := set_opts (set_envs (<[m := v]> (envs (get_opts s2))) (get_opts s2)) s2).
  rewrite (bind_run (mopts_modify _) _ s2 tt s3) by done.
  assert (get_opts s3 = set_envs (<[m := v]> (<[m := mkEnvSet None 0 0]> (envs (get_opts s))))
    (set_opt_locked true (get_opts s))) as E3.
  { unfold s3, s2. by rewrite !get_set_opts, E1. }
  rewrite (bind_run _ _ _ _ _ (run_remit s3 ltac:(by rewrite E3))). simpl. unfold mret, M_ret. f_equal.
  rewrite E3. unfold s3, s2, s1. rewrite !set_set_opts. f_equal. by destruct (get_opts s); simpl in *; subst.
Qed.

(** One assignment. *)
Lemma opt_run_op_spec op s :
  settled s → op_ok op →
  ∃ s', run_op op s = Ret 0 s' ∧ settled s' ∧
    view_eq (view_of (get_opts s')) (assign (view_of (get_opts s)) op).
Proof.
  intros Hs Hop. pose proof Hs as [Hq Hu Hok He]. destruct op as [m v|m v|m v|m v|m v]; simpl.
  1: { rewrite run_set_string by done. eexists. split; [done|]. rewrite get_set_opts. split.
       - split; rewrite ?get_set_opts, ?quiet_opts; [done|done|by apply opts_ok_put|done].
       - split_and!; simpl; try done. intros m'. by rewrite str_view_put. }
  4: { rewrite run_set_env by done. eexists. split; [done|]. rewrite get_set_opts.
       assert (∀ m', <[m := v]> (<[m := mkEnvSet None 0 0]> (envs (get_opts s))) m' =
         <[m := v]> (envs (get_opts s)) m') as E.
       { intros m'. unfold insert, fn_insert. by case_decide. }
       split; [|by split_and!; simpl].
       split; rewrite ?get_set_opts, ?quiet_opts; [done|done|by apply (opts_ok_same (get_opts s))|].
       intros m'. simpl. rewrite E. unfold insert, fn_insert. by case_decide. }
  all: unfold crinitGlobOptSetBoolean, crinitGlobOptSetInteger, crinitGlobOptSetUnsignedLL;
    rewrite run_setter by done; eexists; split; [done|]; rewrite get_set_opts;
    split; [split; rewrite ?get_set_opts, ?quiet_opts; [done|done|by apply (opts_ok_same (get_opts s))|done]|by split_and!].
Qed.

Lemma run_ops_spec ops s :
  settled s → Forall op_ok ops →
  ∃ s', run_ops ops s = Ret tt s' ∧ settled s' ∧
    view_eq (view_of (get_opts s')) (foldl assign (view_of (get_opts s)) ops).
Proof.
  intros Hs Hops. revert s Hs. induction Hops as [|op ops Hop Hops IH]; intros s Hs; [by exists s|]. simpl.
  destruct (opt_run_op_spec op s Hs Hop) as (s1 & E1 & Hs1 & V1).
  destruct (IH s1 Hs1) as (s2 & E2 & Hs2 & V2). exists s2. split; [|split; [done|]].
  - by rewrite (bind_run _ _ _ _ _ E1).
  - rewrite V2. exact (assigns_proper ops _ _ V1).
Qed.
End Sequences.
