(* ===== verification/GlobOptProps.v ===== *)
(** * What the global options promise: theorems about globopt.c and optfeat.c *)

From Stdlib Require Import ZArith Lia Bool List String Ascii.
From stdpp Require Import base functions list strings gmap.
From S2P Require Import Prelude EnvSet Timer Task TaskDB GlobOpt.

Open Scope Z_scope.
Open Scope crinit_scope.

(** ** Initialisation *)

(** The members in [l] have been set to their defaults. *)
Record filled (c : defaults) (l : list str_member) (o : crinitGlobOptStore) : Prop := {
  fill_str : ∀ m, m ∈ l → str_view o m = Some (default_str c m);
  fill_inj : ∀ m m' p, m ∈ l → m' ∈ l → strs o m = Some p → strs o m' = Some p → m = m';
  fill_brk : ∀ p, is_Some (heap o !! p) → (p < brk o)%nat;
}.

Lemma filled_put c l m o : filled c l o → filled c (l ++ [m]) (put_str m (default_str c m) o).
Proof.
  intros [Hs Hinj Hb].
  assert (∀ m' p, m' ∈ l → strs o m' = Some p → (p < brk o)%nat) as Hlt.
  { intros m' p Hm' Hp. apply Hb. specialize (Hs _ Hm'). unfold str_view in Hs. rewrite Hp in Hs. eauto. }
  split.
  - intros m' [Hm'|<-%list_elem_of_singleton]%elem_of_app; unfold str_view, put_str; simpl.
    + destruct (decide (m = m')) as [<-|Hne]; [rewrite fn_lookup_insert; simpl; by rewrite lookup_insert_eq|].
      rewrite fn_lookup_insert_ne by done. specialize (Hs _ Hm'). unfold str_view in Hs.
      destruct (strs o m') as [p|] eqn:Hp; simpl in *; [|done].
      rewrite lookup_insert_ne; [done|]. pose proof (Hlt _ _ Hm' Hp). lia.
    + rewrite fn_lookup_insert. simpl. by rewrite lookup_insert_eq.
  - intros m1 m2 p. rewrite !elem_of_app, !list_elem_of_singleton. simpl.
    destruct (decide (m = m1)) as [<-|H1], (decide (m = m2)) as [<-|H2];
      rewrite ?fn_lookup_insert, ?fn_lookup_insert_ne by done; [done| | |].
    + intros _ [Hm2|Hm2] [= <-] Hp; [|congruence]. specialize (Hlt _ _ Hm2 Hp). lia.
    + intros [Hm1|Hm1] _ Hp [= <-]; [|congruence]. specialize (Hlt _ _ Hm1 Hp). lia.
    + intros [Hm1|Hm1] [Hm2|Hm2]; try congruence. by apply Hinj.
  - simpl. intros p Hp. destruct (decide (p = brk o)) as [->|Hne]; [lia|].
    rewrite lookup_insert_ne in Hp by done. specialize (Hb _ Hp). lia.
Qed.

Definition all_strs : list str_member :=
  [DEFAULTCAPS; INCLDIR; INCL_SUFFIX; TASKDIR; TASK_FILE_SUFFIX; SIGKEYDIR; ELOS_SERVER; LAUNCHER_CMD].

Section Init.
Context {S : Type} `{OptState S}.
Implicit Types s : S.

Lemma init_strs_run c l l0 s :
  quiet s → filled c l0 (get_opts s) →
  ∃ o, init_strs c l s = Ret true (set_opts o s) ∧ filled c (l0 ++ l) o ∧ bools o = bools (get_opts s) ∧
    ints o = ints (get_opts s) ∧ ulls o = ulls (get_opts s) ∧ envs o = envs (get_opts s) ∧
    opt_locked o = opt_locked (get_opts s).
Proof.
  revert l0 s. induction l as [|m l IH]; intros l0 s Hq Hf; simpl.
  { exists (get_opts s). rewrite set_get_opts, app_nil_r. by split_and!. }
  rewrite bind_fallible by done. set (s1 := set_opts (put_str m (default_str c m) (get_opts s)) s).
  rewrite (bind_run (mopts_modify _) _ s tt s1) by done.
  destruct (IH (l0 ++ [m]) s1) as (o & E & Hf' & H1 & H2 & H3 & H4 & H5).
  { unfold s1. by rewrite quiet_opts. } { unfold s1. rewrite get_set_opts. by apply filled_put. }
  exists o. unfold s1 in *. rewrite set_set_opts in E. rewrite get_set_opts in *. rewrite <- app_assoc in Hf'.
  by split_and!.
Qed.

Lemma init_env_run m s :
  quiet s →
  init_env m s = Ret true (set_opts (set_envs (<[m := mkEnvSet (Some (replicate 128 None)) 128 64]>
                                                 (envs (get_opts s))) (get_opts s)) s).
Proof.
  intros Hq. unfold init_env. rewrite (bind_run mopts _ s (get_opts s) s) by done.
  rewrite (bind_run _ _ s (0, mkEnvSet (Some (replicate 128 None)) 128 64) s); [done|].
  unfold crinitEnvSetInit. by rewrite bind_fallible.
Qed.

Lemma empty_env_ok : env_ok (mkEnvSet (Some (replicate 128 None)) 128 64).
Proof. exists []. split; simpl; [done|lia|constructor|constructor]. Qed.
End Init.

(** ** A failing allocation during initialisation *)

Section InitFails.
Context {S : Type} `{OptState S}.
Implicit Types s : S.

Lemma run_fault b l s : faults s = b :: l → fallible s = Ret b (set_faults l s).
Proof. intros E. unfold fallible. by rewrite E. Qed.

(** The next [k] calls succeed and the one after them fails. *)
Definition fails_after (k : nat) s : Prop := faults s = replicate k false ++ [true].

Lemma init_strs_fails c l k s :
  fails_after k s →
  ∃ s', opt_locked (get_opts s') = opt_locked (get_opts s) ∧
    if (k <? length l)%nat then init_strs c l s = Ret false s' ∧ quiet s'
    else init_strs c l s = Ret true s' ∧ fails_after (k - length l) s'.
Proof.
  revert k s. induction l as [|m l IH]; intros k s Hf; simpl.
  { exists s. by rewrite Nat.sub_0_r. }
  destruct k as [|k]; simpl.
  - rewrite (bind_run _ _ _ _ _ (run_fault true [] s Hf)). eexists. split; [|split; [done|]].
    + rewrite get_set_opts. simpl. by rewrite opts_faults.
    + by rewrite quiet_opts, quiet_set_faults.
  - rewrite (bind_run _ _ _ _ _ (run_fault false _ s Hf)).
    set (s0 := set_faults (replicate k false ++ [true]) s).
    set (s1 := set_opts (put_str m (default_str c m) (get_opts s0)) s0).
    rewrite (bind_run (mopts_modify _) _ _ tt s1) by done.
    destruct (IH k s1) as (s' & Hl & Hs').
    { unfold fails_after, s1, s0. by rewrite faults_opts, faults_set. }
    exists s'. split; [|done]. rewrite Hl. unfold s1, s0. rewrite get_set_opts. simpl. by rewrite opts_faults.
Qed.

Lemma init_env_fails m k s :
  fails_after k s →
  ∃ s', opt_locked (get_opts s') = opt_locked (get_opts s) ∧
    match k with
    | O => init_env m s = Ret false s' ∧ quiet s'
    | Datatypes.S k => init_env m s = Ret true s' ∧ fails_after k s'
    end.
Proof.
  intros Hf. unfold init_env. rewrite (bind_run mopts _ s (get_opts s) s) by done.
  unfold crinitEnvSetInit. destruct k as [|k]; simpl in Hf.
  - eexists. split; [|split].
    2:{ erewrite bind_run; [|rewrite (bind_run _ _ _ _ _ (run_fault true [] s Hf)); done]. done. }
    + rewrite get_set_opts. simpl. by rewrite opts_faults.
    + by rewrite quiet_opts, quiet_set_faults.
  - eexists. split; [|split].
    2:{ erewrite bind_run; [|rewrite (bind_run _ _ _ _ _ (run_fault false _ s Hf)); done]. done. }
    + rewrite get_set_opts. simpl. by rewrite opts_faults.
    + unfold fails_after. by rewrite faults_opts, faults_set.
Qed.

Lemma destroy_blocks s : quiet s → opt_locked (get_opts s) = true → crinitGlobOptDestroy s = Block.
Proof.
  intros Hq Hl. unfold crinitGlobOptDestroy. apply bind_block. unfold crinitGlobOptBorrow.
  rewrite bind_fallible by done. rewrite (bind_run mopts _ s (get_opts s) s) by done. by rewrite Hl.
Qed.
End InitFails.

(** ** Theorems *)

Section Theorems.
Context {S : Type} `{OptState S}.
Implicit Types s : S.


(** crinitGlobOptInitDefault() on a store that is not in use returns 0 and
    leaves every member at its documented default, unless an allocation
    fails. *)
Theorem crinitGlobOptInitDefault_defaults c s :
  quiet s → opt_locked (get_opts s) = false → (∀ p, is_Some (heap (get_opts s) !! p) → (p < brk (get_opts s))%nat) →
  ∃ s', crinitGlobOptInitDefault c s = Ret 0 s' ∧ settled s' ∧
    (∀ m, str_view (get_opts s') m = Some (default_str c m)) ∧
    bools (get_opts s') = default_bool ∧ ulls (get_opts s') = default_ull c ∧
    ints (get_opts s') ELOS_PORT = 54321 ∧
    (∀ m, envs (get_opts s') m = mkEnvSet (Some (replicate 128 None)) 128 64).
Proof.
  intros Hq Hu Hb. unfold crinitGlobOptInitDefault. rewrite (bind_run _ _ _ _ _ (run_borrow s Hq Hu)).
  set (s1 := set_opts _ s). assert (get_opts s1 = set_opt_locked true (get_opts s)) as E1 by apply get_set_opts.
  set (f := λ o, set_lists no_lists (set_ulls (default_ull c) (set_ints (λ _, 54321) (set_bools default_bool o)))).
  set (s2 := set_opts (f (get_opts s1)) s1). rewrite (bind_run (mopts_modify f) _ s1 tt s2) by done.
  assert (get_opts s2 = f (set_opt_locked true (get_opts s))) as E2 by (unfold s2; by rewrite get_set_opts, E1).
  assert (quiet s2) as Hq2 by (unfold s2, s1; by rewrite !quiet_opts).
  destruct (init_strs_run c all_strs [] s2 Hq2) as (o & Eo & Hf & H1 & H2 & H3 & H4 & H5).
  { rewrite E2. split; simpl; [set_solver|set_solver|done]. }
  rewrite (bind_run _ _ _ _ _ Eo). set (s3 := set_opts o s2).
  assert (quiet s3) as Hq3 by (unfold s3; by rewrite quiet_opts).
  rewrite (bind_run _ _ _ _ _ (init_env_run ENV s3 Hq3)). set (s4 := set_opts _ s3).
  assert (quiet s4) as Hq4 by (unfold s4; by rewrite quiet_opts).
  rewrite (bind_run _ _ _ _ _ (init_env_run FILTERS s4 Hq4)). set (s5 := set_opts _ s4).
  set (es := mkEnvSet (Some (replicate 128 None)) 128 64) in *.
  assert (get_opts s5 = set_envs (<[FILTERS := es]> (<[ENV := es]> (envs o))) o) as E5.
  { unfold s5, s4, s3. by rewrite !get_set_opts. }
  rewrite (bind_run _ _ _ _ _ (run_remit s5 ltac:(rewrite E5; simpl; by rewrite H5, E2))).
  set (s6 := set_opts _ s5). exists s6. split; [done|].
  assert (get_opts s6 = set_opt_locked false (get_opts s5)) as E6 by apply get_set_opts.
  assert (∀ m, m ∈ [] ++ all_strs) as Hall by (intros []; vm_compute; set_solver).
  assert (∀ m, envs (get_opts s6) m = es) as Henv by (rewrite E6, E5; by intros []).
  rewrite E2 in H1, H2, H3. split; [split|].
  - unfold s6, s5. by rewrite !quiet_opts.
  - by rewrite E6.
  - rewrite E6, E5. destruct Hf as [Hf1 Hf2 Hf3]. split; simpl; [|by intros; apply (Hf2 _ _ p)|done].
    intros m. exists (default_str c m). by apply Hf1.
  - intros m. rewrite Henv. apply empty_env_ok.
  - rewrite E6, E5 in *. split_and!; simpl; [intros m; by apply (fill_str _ _ _ Hf)|by rewrite H1|by rewrite H3|by rewrite H2|done].
Qed.

(** When one of the ten allocations of crinitGlobOptInitDefault() fails it
    never returns: the error path calls crinitGlobOptDestroy() with the mutex
    held, and that takes the same mutex. *)
Theorem crinitGlobOptInitDefault_error_deadlock c k s :
  opt_locked (get_opts s) = false → fails_after (Datatypes.S k) s → (k < 10)%nat →
  crinitGlobOptInitDefault c s = Block.
Proof.
  intros Hu Hf Hk. unfold crinitGlobOptInitDefault.
  set (s1 := set_opts (set_opt_locked true (get_opts s)) (set_faults (replicate k false ++ [true]) s)).
  rewrite (bind_run crinitGlobOptBorrow _ s tt s1).
  2:{ unfold crinitGlobOptBorrow. rewrite (bind_run _ _ _ _ _ (run_fault false _ s Hf)).
      rewrite (bind_run mopts _ _ (get_opts s) (set_faults (replicate k false ++ [true]) s))
        by (unfold mopts; by rewrite opts_faults).
      rewrite Hu. unfold mopts_modify. by rewrite opts_faults. }
  set (f := λ o, set_lists no_lists (set_ulls (default_ull c) (set_ints (λ _, 54321) (set_bools default_bool o)))).
  set (s2 := set_opts (f (get_opts s1)) s1). rewrite (bind_run (mopts_modify f) _ s1 tt s2) by done.
  assert (opt_locked (get_opts s2) = true) as Hl2 by (unfold s2, s1; by rewrite !get_set_opts).
  assert (fails_after k s2) as Hf2 by (unfold fails_after, s2, s1; by rewrite !faults_opts, faults_set).
  destruct (init_strs_fails c all_strs k s2 Hf2) as (s3 & Hl3 & H3). rewrite Hl2 in Hl3.
  assert (∀ s0, quiet s0 → opt_locked (get_opts s0) = true →
    (crinitGlobOptDestroy ;; _ ← crinitGlobOptRemit; mret (-1)) s0 = Block) as Hend.
  { intros s0 Hq0 Hl0. by apply bind_block, destroy_blocks. }
  destruct (Nat.ltb_spec k (length all_strs)) as [Hlt|Hge]; destruct H3 as [E3 H3];
    rewrite (bind_run _ _ _ _ _ E3); [by apply Hend|].
  destruct (init_env_fails ENV _ s3 H3) as (s4 & Hl4 & H4). rewrite Hl3 in Hl4.
  destruct (k - length all_strs)%nat as [|k'] eqn:Ek; destruct H4 as [E4 H4];
    rewrite (bind_run _ _ _ _ _ E4); [by apply Hend|].
  destruct (init_env_fails FILTERS _ s4 H4) as (s5 & Hl5 & H5). rewrite Hl4 in Hl5.
  destruct k' as [|k']; [|simpl in *; lia]. destruct H5 as [E5 H5].
  rewrite (bind_run _ _ _ _ _ E5). by apply Hend.
Qed.

(** crinitGlobOptGetString() reads the pointer before it takes the mutex.
    If another thread assigns the member in between, the getter copies from
    freed memory. *)
Theorem crinitGlobOptGetString_race m v s :
  settled s →
  (src ← get_string_start m; _ ← crinitGlobOptSetString m v; get_string_finish src) s = Undef.
Proof.
  intros [Hq Hu Hok He]. rewrite (bind_run _ _ s (strs (get_opts s) m) s) by done.
  rewrite (bind_run _ _ _ _ _ (run_set_string m v s Hq Hu)). set (s1 := set_opts _ s).
  assert (get_opts s1 = put_str m v (free_str (strs (get_opts s) m) (get_opts s))) as E1 by apply get_set_opts.
  unfold get_string_finish. rewrite (bind_run _ _ _ _ _ (run_borrow s1 ltac:(by apply quiet_opts) ltac:(by rewrite E1))).
  set (s2 := set_opts _ s1).
  assert (get_opts s2 = set_opt_locked true (get_opts s1)) as E2 by apply get_set_opts.
  assert (strdup_ptr (strs (get_opts s) m) s2 = Undef) as Hdup; [|unfold mbind, M_bind; by rewrite Hdup].
  unfold strdup_ptr. rewrite (bind_run mopts _ s2 (get_opts s2) s2) by done. rewrite E2, E1. simpl.
  destruct (str_live _ Hok m) as [x Hx]. unfold str_view in Hx.
  destruct (strs (get_opts s) m) as [p|] eqn:Hp; simpl in *; [|done].
  pose proof (str_brk _ Hok p (ex_intro _ _ Hx)). rewrite lookup_insert_ne by lia. by rewrite lookup_delete_eq.
Qed.
End Theorems.

(** ** Feature hooks *)

Section Hooks.
Context {S : Type} `{FeatureServices S}.
Implicit Types s : S.

Definition hook_ready s : Prop := quiet s ∧ opt_locked (get_opts s) = false.

(** Run the activation functions of [l] in order and join their results. *)
Fixpoint run_armed (l : list (crinitOptFeatMap S)) (data : hook_data) (res : Z) : M S Z :=
  match l with
  | [] => mret res
  | f :: l => r ← feat_af f data; run_armed l data (Z.lor res r)
  end.

Context (data : hook_data).
Context (Hact : ∀ f, f ∈ fmap_table → ∀ s, hook_ready s →
  wlp (feat_af f data) (λ _ s', hook_ready s' ∧ bools (get_opts s') = bools (get_opts s)) s).

Lemma hook_loop_armed l name ty res s :
  l ⊆ fmap_table → hook_ready s →
  hook_loop l name ty data res s =
  run_armed (List.filter (λ f, feat_matches name ty f && bools (get_opts s) (feat_member f)) l) data res s.
Proof using Hact.
  revert res s. induction l as [|f l IH]; intros res s Hsub Hs; simpl; [done|].
  assert (l ⊆ fmap_table) as Hl by set_solver.
  destruct (feat_matches name ty f) eqn:Hm; simpl; [|by apply IH].
  rewrite (bind_run _ _ s (bools (get_opts s) (feat_member f)) s).
  2:{ destruct Hs. by apply (run_getter (λ o, bools o (feat_member f))). }
  destruct (bools (get_opts s) (feat_member f)); simpl.
  - assert (f ∈ fmap_table) as Hf by set_solver. specialize (Hact f Hf s Hs).
    unfold mbind, M_bind. destruct (feat_af f data s) as [r s1| |] eqn:Er; [|done|done].
    destruct (wlp_elim _ _ _ _ _ Hact Er) as [Hs1 Hb]. rewrite <- Hb. by apply IH.
  - rewrite (bind_run _ _ s 0 s) by done. rewrite Z.lor_0_r. by apply IH.
Qed.
End Hooks.

(** crinitFeatureHook() runs exactly the activation functions of its table
    that match the name and the type and whose option is switched on, in the
    order of the table, and its result is -1 if one of them returns -1.  With
    the options off it does nothing. *)
Theorem crinitFeatureHook_runs_armed {S} `{FeatureServices S} name ty data (s : S) :
  (∀ f, f ∈ fmap_table → ∀ s, hook_ready s →
     wlp (feat_af f data) (λ _ s', hook_ready s' ∧ bools (get_opts s') = bools (get_opts s)) s) →
  hook_ready s →
  crinitFeatureHook name ty data s =
    run_armed (List.filter (λ f, feat_matches name ty f && bools (get_opts s) (feat_member f)) fmap_table) data 0 s ∧
  (bools (get_opts s) USE_SYSLOG = false → bools (get_opts s) USE_ELOS = false →
   crinitFeatureHook name ty data s = Ret 0 s).
Proof.
  intros Hact Hs. assert (crinitFeatureHook name ty data s =
    run_armed (List.filter (λ f, feat_matches name ty f && bools (get_opts s) (feat_member f)) fmap_table) data 0 s) as E.
  { by apply hook_loop_armed. }
  split; [done|]. intros Hsys Helos. rewrite E. simpl. rewrite Hsys, Helos. by rewrite !andb_false_r.
Qed.

(** ** Witnesses *)

Record optd := mkOptd { od_faults : list bool; od_opts : crinitGlobOptStore }.

#[export, refine] Instance optd_faulty : Faulty optd := {|
  faults := od_faults;
  set_faults := λ l s, mkOptd l (od_opts s);
  idle := λ s, opt_locked (od_opts s) = false;
|}.
Proof. all: done || by intros []. Defined.

#[export, refine] Instance optd_opts : OptState optd := {|
  get_opts := od_opts;
  set_opts := λ o s, mkOptd (od_faults s) o;
|}.
Proof. all: done || by intros []. Defined.

#[export] Instance optd_features : FeatureServices optd := {|
  crinitSetUseSyslog := λ _, mret tt;
  crinitElosdepActivate := λ _, mret 0;
  crinitElosdepTaskAdded := λ _, mret 0;
  crinitEloslogInit := mret 0;
  crinitEloslogActivate := λ _, mret 0;
|}.

Definition demo_ptr (m : str_member) : nat :=
  match m with
  | SIGKEYDIR => 0 | ELOS_SERVER => 1 | INCLDIR => 2 | INCL_SUFFIX => 3
  | TASKDIR => 4 | TASK_FILE_SUFFIX => 5 | LAUNCHER_CMD => 6 | DEFAULTCAPS => 7
  end.
Definition demo_no_env : crinitEnvSet := mkEnvSet (Some (replicate 128 None)) 128 64.
Definition demo_opts : crinitGlobOptStore :=
  mkOpts (λ m, Some (demo_ptr m)) default_bool (λ _, 54321) (λ _, 0) (λ _, demo_no_env)
    (list_to_map ((λ n, (n, "x"%string)) <$> seq 0 8)) 8 no_lists false.
Definition demo_optd : optd := mkOptd [] demo_opts.
Definition demo_defaults : defaults := mkDefaults "/etc/crinit/pk" "/etc/crinit" "/etc/crinit" 500000.

Lemma demo_settled : settled demo_optd.
Proof.
  split; [done|done| |intros m; apply empty_env_ok]. split.
  - intros []; vm_compute; eauto.
  - intros [] [] p [= <-] [=]; done.
  - intros p [v Hv]. apply elem_of_list_to_map_2, list_elem_of_fmap in Hv as (n & [= -> ->] & Hn%elem_of_seq).
    simpl. lia.
Qed.


Definition demo_unset (fs : list bool) : optd :=
  mkOptd fs (mkOpts (λ _, None) (λ _, false) (λ _, 0) (λ _, 0) (λ _, mkEnvSet None 0 0) ∅ 0 no_lists false).

Lemma crinitGlobOptInitDefault_defaults_witness :
  ∃ s', crinitGlobOptInitDefault demo_defaults (demo_unset []) = Ret 0 s' ∧
    str_view (get_opts s') TASK_FILE_SUFFIX = Some ".crinit"%string.
Proof.
  destruct (crinitGlobOptInitDefault_defaults demo_defaults (demo_unset [])) as (s' & E & _ & Hs & _).
  { reflexivity. } { reflexivity. } { intros p [v Hv]. simpl in Hv. rewrite lookup_empty in Hv. discriminate Hv. }
  exists s'. split; [exact E|exact (Hs TASK_FILE_SUFFIX)].
Defined.

Lemma crinitGlobOptInitDefault_error_deadlock_witness :
  crinitGlobOptInitDefault demo_defaults (demo_unset [false; false; false; true]) = Block.
Proof.
  apply (crinitGlobOptInitDefault_error_deadlock demo_defaults 2); [reflexivity|reflexivity|lia].
Defined.

Lemma crinitGlobOptGetString_race_witness :
  (src ← get_string_start TASKDIR; _ ← crinitGlobOptSetString TASKDIR "/tmp"; get_string_finish src) demo_optd = Undef.
Proof. apply crinitGlobOptGetString_race, demo_settled. Defined.

Lemma crinitFeatureHook_runs_armed_witness :
  crinitFeatureHook (Some "elos"%string) CRINIT_HOOK_START HookDB demo_optd = Ret 0 demo_optd.
Proof.
  apply (crinitFeatureHook_runs_armed (Some "elos"%string) CRINIT_HOOK_START HookDB demo_optd); [|done|reflexivity|reflexivity].
  intros f Hf s Hs. repeat (apply elem_of_cons in Hf as [->|Hf]); try done. by apply elem_of_nil in Hf.
Defined.
