(* ===== verification/Cgroup.v ===== *)
(** * The configuration of cgroups: src/cgroup.c

    The global groups live in the store of the global options, behind its
    mutex; a task refers to one of them by its name or owns a group of its
    own.  CgroupFs has the functions that write to the cgroup file system. *)

From Stdlib Require Import ZArith Lia Bool List String Ascii.
From stdpp Require Import base functions list strings gmap.
From S2P Require Import Prelude EnvSet Timer Task TaskDB GlobOpt.

Open Scope Z_scope.
Open Scope crinit_scope.

Definition set_cg_config (c : option (list crinitCgroupParam)) (g : crinitCgroup) : crinitCgroup :=
  let 'mkCgroup n f p _ := g in mkCgroup n f p c.
Definition set_cg_name (n : option string) (g : crinitCgroup) : crinitCgroup :=
  let 'mkCgroup _ f p c := g in mkCgroup n f p c.
Definition set_cg_parent (p : option crinitCgroup) (g : crinitCgroup) : crinitCgroup :=
  let 'mkCgroup n f _ c := g in mkCgroup n f p c.
Definition new_cgroup : crinitCgroup := mkCgroup None 0 None None.

(** A group with one parameter more. *)
Definition add_param (p : crinitCgroupParam) (g : crinitCgroup) : crinitCgroup :=
  set_cg_config (Some (default [] (cg_config g) ++ [p])) g.

Definition set_globals (l : option (list crinitCgroup)) (o : crinitGlobOptStore) : crinitGlobOptStore :=
  set_lists (mkLists (tasks (lists o)) (rootCgroup (lists o)) l) o.
Definition set_root (g : option crinitCgroup) (o : crinitGlobOptStore) : crinitGlobOptStore :=
  set_lists (mkLists (tasks (lists o)) g (globCgroups (lists o))) o.
Definition set_tasks (l : option (list string)) (o : crinitGlobOptStore) : crinitGlobOptStore :=
  set_lists (mkLists l (rootCgroup (lists o)) (globCgroups (lists o))) o.

(** The global groups; NULL has none. *)
Definition global_cgroups (o : crinitGlobOptStore) : list crinitCgroup := default [] (globCgroups (lists o)).

(** ** Operations *)

Section Operations.
Context {S : Type} `{OptState S}.

(** A parameter "file=value".  The duplicates are not checked: a member that is
    NULL is passed to strdup() when the task is copied, so a failing
    duplication counts as undefined here. *)
Definition crinitCgroupConvertSingleParamToObject (line : string) : M S (option crinitCgroupParam) :=
  match str_break "=" line with
  | None => mret None
  | Some (f, o) =>
      oom1 ← fallible; oom2 ← fallible;
      if (oom1 : bool) || (oom2 : bool) then mundef else mret (Some (mkCgroupParam f o))
  end.

(** "group:file=value" *)
Definition crinitCgroupGlobalParamSplitNameAndParam (val : string) : M S (option (string * string)) :=
  match str_break ":" val with
  | None => mret None
  | Some (name, param) =>
      oom ← fallible;
      if (oom : bool) then mret None else
      oom ← fallible;
      if (oom : bool) then mret None else mret (Some (name, param))
  end.

(** The group at the first index with that name; one without a configuration
    gets an empty one.  strcmp() with a name that is NULL is undefined. *)
Fixpoint find_cgroup (name : string) (i : nat) (l : list crinitCgroup) : M S (option (nat * crinitCgroup)) :=
  match l with
  | [] => mret None
  | g :: l =>
      match cg_name g with
      | None => mundef
      | Some n =>
          if str_eqb n name then
            match cg_config g with
            | Some _ => mret (Some (i, g))
            | None => oom ← fallible; mret (Some (i, if (oom : bool) then g else set_cg_config (Some []) g))
            end
          else find_cgroup name (Datatypes.S i) l
      end
  end.

(** crinitFindCgroupByName() on the global groups. *)
Definition crinitFindCgroupByName (name : option string) : M S (option (nat * crinitCgroup)) :=
  o ← mopts;
  match global_cgroups o, name with
  | [], _ | _, None => mret None
  | l, Some name =>
      r ← find_cgroup name 0 l;
      match r with
      | Some (i, g) => mopts_modify (set_globals (Some (<[i := g]> l))) ;; mret r
      | None => mret None
      end
  end.

Definition crinitCgroupNameIsGlobalCgroup (name : option string) : M S (Z * bool) :=
  crinitGlobOptBorrow ;;
  r ← crinitFindCgroupByName name;
  _ ← crinitGlobOptRemit;
  mret (0, bool_decide (is_Some r)).

(** crinitConvertConfigArrayToCGroupConfiguration(): the array has 8 bytes for
    each element (the size of a pointer), an element takes 16. *)
Fixpoint convert_lines (lines : list string) (offset alloc : Z) : M S (option (list crinitCgroupParam)) :=
  match lines with
  | [] => mret (Some [])
  | line :: lines =>
      r ← crinitCgroupConvertSingleParamToObject line;
      match r with
      | None => mret None
      | Some p =>
          if alloc <? offset + 16 then mundef else
          ps ← convert_lines lines (offset + 16) alloc; mret (cons p <$> ps)
      end
  end.
Definition crinitConvertConfigArrayToCGroupConfiguration (lines : list string) : M S (option (list crinitCgroupParam)) :=
  oom ← fallible;
  if (oom : bool) then mret None else convert_lines lines 0 (8 * Z.of_nat (length lines)).
End Operations.

(** ** Properties *)

(** Every global group has a name. *)
Definition cgroups_named (o : crinitGlobOptStore) : Prop :=
  Forall (λ g, is_Some (cg_name g)) (global_cgroups o).

Lemma cg_name_set_config c g : cg_name (set_cg_config c g) = cg_name g.
Proof. by destruct g. Qed.
