(* ===== verification/ConfParse.v ===== *)
(** * Reading configuration files: src/confparse.c, inc/confparse.h, src/confmap.c

    A configuration file becomes a list of keys and values.  The INI parser
    calls crinitIniHandler() for every setting; keys with array brackets are a
    deprecated way to write a list.  The file system and the signature check
    are services of the state. *)

From Stdlib Require Import ZArith Lia Bool List String Ascii.
From stdpp Require Import base functions list strings gmap.
From S2P Require Import Prelude CString EnvSet Timer Task TaskDB Lexers ConfConv Ini GlobOpt.

Open Scope Z_scope.
Open Scope crinit_scope.

#[local] Arguments String.append : simpl nomatch.

(** ** Configuration keys *)

Inductive crinitConfigs :=
| CRINIT_CONFIG_COMMAND | CRINIT_CONFIG_DEBUG | CRINIT_CONFIG_DEFAULTCAPS | CRINIT_CONFIG_DEPENDS
| CRINIT_CONFIG_ELOS_EVENT_POLL_INTERVAL | CRINIT_CONFIG_ELOS_PORT | CRINIT_CONFIG_ELOS_SERVER
| CRINIT_CONFIG_ENV_SET | CRINIT_CONFIG_FILTER_DEFINE | CRINIT_CONFIG_GROUP | CRINIT_CONFIG_INCLUDE
| CRINIT_CONFIG_INCLUDE_SUFFIX | CRINIT_CONFIG_INCLUDEDIR | CRINIT_CONFIG_IOREDIR | CRINIT_CONFIG_NAME
| CRINIT_CONFIG_PROVIDES | CRINIT_CONFIG_RESPAWN | CRINIT_CONFIG_RESPAWN_RETRIES | CRINIT_CONFIG_SHDGRACEP
| CRINIT_CONFIG_SIGKEYDIR | CRINIT_CONFIG_SIGNATURES | CRINIT_CONFIG_STOP_COMMAND
| CRINIT_CONFIG_TASK_FILE_SUFFIX | CRINIT_CONFIG_TASKDIR | CRINIT_CONFIG_TASKDIR_FOLLOW_SYMLINKS
| CRINIT_CONFIG_TASKS | CRINIT_CONFIG_TRIGGER | CRINIT_CONFIG_TRIGGER_REARM | CRINIT_CONFIG_USE_SYSLOG
| CRINIT_CONFIG_USE_ELOS | CRINIT_CONFIG_USER | CRINIT_CONFIG_LAUNCHER_CMD | CRINIT_CONFIG_CAP_CLEAR
| CRINIT_CONFIG_CAP_SET | CRINIT_CONFIG_CGROUP_NAME | CRINIT_CONFIG_CGROUP_PARAMS
| CRINIT_CONFIG_CGROUP_ROOT_NAME | CRINIT_CONFIG_CGROUP_ROOT_PARAMS | CRINIT_CONFIG_CGROUP_GLOBAL_NAME
| CRINIT_CONFIG_CGROUP_GLOBAL_PARAMS.

#[export] Instance configs_eq_dec : EqDecision crinitConfigs.
Proof. solve_decision. Defined.

(** The source of a setting. *)
Inductive crinitConfigType := CRINIT_CONFIG_TYPE_SERIES | CRINIT_CONFIG_TYPE_TASK | CRINIT_CONFIG_TYPE_KCMDLINE.

#[export] Instance config_type_eq_dec : EqDecision crinitConfigType.
Proof. solve_decision. Defined.

(** One row of a table of keys; [H] is the type of its handlers. *)
Record crinitConfigMapping {H : Type} := mkMapping {
  cm_config : crinitConfigs;
  configKey : string;
  arrayLike : bool;
  includeSafe : bool;
  cfgHandler : H;
}.
Arguments crinitConfigMapping : clear implicits.
Arguments mkMapping {H}.

(** bsearch() with strcmp() on the keys. *)
Definition crinitFindConfigMapping {H} (map : list (crinitConfigMapping H)) (keyStr : string) :
    option (crinitConfigMapping H) :=
  bsearch (length map) (λ e, strcmp keyStr (configKey e)) map 0 (length map).

(** ** The quotes around a value *)

Fixpoint lskip_sp (s : string) : string :=
  match s with
  | String c s' => if is_char c c_space then lskip_sp s' else s
  | EmptyString => EmptyString
  end.

(** The text before the last quote, if only spaces follow that. *)
Fixpoint before_quote (s : string) : option string :=
  match s with
  | EmptyString => None
  | String c r =>
      match before_quote r with
      | Some b => Some (String c b)
      | None => if is_char c c_quote && str_eqb (lskip_sp r) EmptyString then Some EmptyString else None
      end
  end.

(** crinitMatchQuotedConfig(): what is between the quotes, [None] when the value
    is not quoted. *)
Definition crinitMatchQuotedConfig (s : string) : option string :=
  match lskip_sp s with
  | String c r => if is_char c c_quote then before_quote r else None
  | EmptyString => None
  end.

(** ** Files *)

Class ConfFiles (S : Type) `{OptState S} := {
  (* fopen() and getdelim(): None when either fails *)
  read_file : string → M S (option string);
  (* fopen() for binary reading: the bytes of the file *)
  open_file : string → M S (option string);
  SIGNATURE_SUPPORT : bool;  (* of the build *)
  (* what an array of this size on the stack holds before it is written *)
  uninitialised : nat → string;
  uninitialised_length : ∀ n, String.length (uninitialised n) = n;
  crinitVerifySignature : string → string → M S Z;
}.

Definition CRINIT_SIGNATURE_FILE_SUFFIX : string := ".sig".
Definition CRINIT_RSASSA_PSS_SIGNATURE_SIZE : nat := 512.

(** ** The parser context *)

(** The settings so far, the last one at the end, and the counter for keys with
    array brackets. *)
Record crinitIniParserCtx := mkCtx { kvs : list (string * string); keyArrayCount : Z }.

(** Whether a key without its subscript, of length [len], is the key of the
    setting before it. *)
Definition same_key (ctx : crinitIniParserCtx) (key : string) (len : nat) : bool :=
  match last (kvs ctx) with
  | None => true
  | Some (k, _) => Nat.eqb len (String.length k) && strncmp_eq len key k
  end.

(** A key with array brackets: the length of the key proper and the counter
    after it; [false] for a subscript that is no number or out of order. *)
Definition array_key (ctx : crinitIniParserCtx) (key brck : string) : bool * nat * Z :=
  let keyLen := String.length key in
  let count len := if same_key ctx key len then keyArrayCount ctx else 0 in
  match brck with
  | String "]" _ => let len := (keyLen - 2)%nat in (true, len, uint64 (count len + 1))
  | _ =>
      let len := (keyLen - Datatypes.S (String.length brck))%nat in
      let '(idx, _, rest) := strtoul brck 10 in
      let closed := match rest with String "]" _ => negb (str_eqb rest brck) | _ => false end in
      if closed && (idx =? count len) then (true, len, uint64 (count len + 1)) else (false, len, count len)
  end.

Section Parse.
Context {S : Type} `{ConfFiles S}.

(** The array [buf] after the call, with the number of bytes read.  fread() sees
    the end of the file only if it asks for more bytes than the file has.  After
    an error the contents of the array are not used. *)
Definition crinitBinReadAll (buf path : string) : M S (Z * string) :=
  inf ← open_file path;
  match inf with
  | None => mret (-1, buf)
  | Some content =>
      let ret := String.length content in
      err ← fallible;  (* ferror *)
      if (err : bool) || (String.length buf <=? ret)%nat then mret (-1, buf) else
      mret (Z.of_nat ret, content +:+ str_drop ret buf)%string
  end.

(** [false] tells the parser that the setting is in error. *)
Definition crinitIniHandler (ctx : crinitIniParserCtx) (key value : string) : M S (bool * crinitIniParserCtx) :=
  let '(ok, keyLen, count) :=
    match str_break "[" key with
    | Some (_, brck) =>
        if (2 <? String.length key)%nat then array_key ctx key brck
        else (true, String.length key, keyArrayCount ctx)
    | None => (true, String.length key, keyArrayCount ctx)
    end in
  if negb ok then mret (false, mkCtx (kvs ctx) count) else
  let value := default value (crinitMatchQuotedConfig value) in
  oom1 ← fallible; oom2 ← fallible;  (* strndup of both *)
  if (oom1 : bool) || (oom2 : bool) then mret (false, mkCtx (kvs ctx) count) else
  let ctx := mkCtx (kvs ctx ++ [(str_take keyLen key, value)]) count in
  oom ← fallible;  (* the next element *)
  mret (negb oom, ctx).

(** ini_parse_string() with that handler: the line of the first error, or 0. *)
Fixpoint ini_run (events : list (Z * ini_event)) (ctx : crinitIniParserCtx) (error : Z) :
    M S (crinitIniParserCtx * Z) :=
  match events with
  | [] => mret (ctx, error)
  | (lineno, ev) :: events =>
      '(ok, ctx) ← match ev with
                   | IniPair n v => crinitIniHandler ctx n v
                   | IniError => mret (false, ctx)
                   end;
      ini_run events ctx (if negb ok && (error =? 0) then lineno else error)
  end.

Definition is_pair (e : Z * ini_event) : bool := match e.2 with IniPair _ _ => true | IniError => false end.

(** crinitParseConf(): [None] on error.  If the handler is never called, the
    only element of the list has an uninitialised key and value, which the error
    path frees and every user of the list reads. *)
Definition crinitParseConf (filename : string) : M S (option (list (string * string))) :=
  content ← read_file filename;
  match content with
  | None | Some EmptyString => mret None  (* nothing to read is an error, too *)
  | Some content =>
      let fileBuf := c_str content in
      sigRequired ← crinitGlobOptGetBoolean SIGNATURES;
      ok ← (if negb sigRequired then mret true
            else if negb SIGNATURE_SUPPORT then mret false
            else
              oom ← fallible;
              if (oom : bool) then mret false else
              '(n, sigBuf) ← crinitBinReadAll (uninitialised (CRINIT_RSASSA_PSS_SIGNATURE_SIZE + 1))
                               (filename +:+ CRINIT_SIGNATURE_FILE_SUFFIX)%string;
              if n =? -1 then mret false else
              r ← crinitVerifySignature fileBuf sigBuf;
              mret (negb (r =? -1)));
      if negb (ok : bool) then mret None else
      oom ← fallible;  (* the first element *)
      if (oom : bool) then mret None else
      let events := ini_parse_string fileBuf in
      if negb (existsb is_pair events) then mundef else
      '(ctx, error) ← ini_run events (mkCtx [] 0) 0;
      mret (if error =? 0 then Some (kvs ctx) else None)
  end.
End Parse.

(** ** Table lookup *)

(** The binary search finds the row a search from the front finds, in a table
    that is in the order of its keys. *)
Lemma find_mapping {H} (map : list (crinitConfigMapping H)) key :
  sorted_b configKey map = true →
  crinitFindConfigMapping map key = find (λ e, str_eqb (configKey e) key) map.
Proof. apply (bsearch_find configKey key). Qed.

(** ** Writing a file and reading it *)

Definition in_quotes (v : string) : string := String c_quote (v +:+ str1 c_quote)%string.

Lemma before_quote_last v : before_quote (v +:+ str1 c_quote) = Some v.
Proof. induction v as [|c v IH]; [done|]. cbn [String.append before_quote]. by rewrite IH. Qed.

Lemma match_quoted v : crinitMatchQuotedConfig (in_quotes v) = Some v.
Proof. apply before_quote_last. Qed.

Definition conf_text (l : list (string * string)) : string := pair_lines ((λ p, (p.1, in_quotes p.2)) <$> l).

(** A setting that can be written: the value may have any characters but
    newlines and NUL. *)
Record setting_ok (p : string * string) : Prop := {
  so_name : name_ok p.1;
  so_plain : str_has "[" p.1 = false;
  so_line : str_none (λ c, is_char c c_newline) p.2;
  so_nul : no_nul p.1 = true ∧ no_nul p.2 = true;
  so_fits : (String.length (pair_line p.1 (in_quotes p.2)) < INI_MAX_LINE - 1)%nat;
}.

Lemma no_nul_app a b : no_nul (a +:+ b) = no_nul a && no_nul b.
Proof. induction a as [|c a IH]; [done|]. cbn [String.append no_nul]. by rewrite IH, andb_assoc. Qed.

Lemma in_quotes_value v : str_none (λ c, is_char c c_newline) v → value_ok (in_quotes v).
Proof.
  intros Hv. split; [|done|].
  - unfold in_quotes. rewrite rstrip_solid by done. by rewrite rstrip_app.
  - unfold in_quotes. apply str_none_cons. split; [done|]. intros c.
    rewrite str_has_app, orb_true_iff. intros [Hc|Hc]; [by apply Hv|].
    destruct (decide (c = c_newline)) as [->|Hne]; [done|]. by apply bool_decide_eq_false_2.
Qed.

Lemma setting_writable p : setting_ok p → writable (p.1, in_quotes p.2).
Proof. intros [Hn _ Hl _ Hf]. split; [done|]. split; [by apply in_quotes_value|done]. Qed.

Lemma conf_text_no_nul l : Forall setting_ok l → no_nul (conf_text l) = true.
Proof.
  induction 1 as [|[n v] l [_ _ _ [Hn Hv] _] _ IH]; [done|]. unfold conf_text. cbn [fmap list_fmap pair_lines fst snd].
  unfold pair_line, in_quotes. rewrite !no_nul_app. cbn [no_nul]. rewrite no_nul_app. simpl in Hn, Hv. rewrite Hn, Hv.
  exact IH.
Qed.

Lemma str_take_all s : str_take (String.length s) s = s.
Proof. induction s as [|c s IH]; [done|]. cbn [String.length str_take]. by rewrite IH. Qed.

Section ParseSpec.
Context {S : Type} `{ConfFiles S}.
Implicit Types s : S.

Lemma run_ini_handler ctx k v s :
  quiet s → str_has "[" k = false →
  crinitIniHandler ctx k (in_quotes v) s = Ret (true, mkCtx (kvs ctx ++ [(k, v)]) (keyArrayCount ctx)) s.
Proof.
  intros Hq Hk. unfold crinitIniHandler. unfold str_has in Hk. destruct (str_break "[" k) as [[??]|]; [done|].
  cbn [negb]. rewrite match_quoted. cbn [default]. rewrite !bind_fallible by done. cbn [orb].
  rewrite bind_fallible by done. by rewrite str_take_all.
Qed.

Lemma run_ini l lineno ctx s :
  quiet s → Forall setting_ok l →
  ini_run (imap (λ i p, (lineno + Z.of_nat i, IniPair p.1 p.2)) ((λ p, (p.1, in_quotes p.2)) <$> l)) ctx 0 s
  = Ret (mkCtx (kvs ctx ++ l) (keyArrayCount ctx), 0) s.
Proof.
  intros Hq Hl. revert lineno ctx. induction Hl as [|[k v] l Hp Hl IH]; intros lineno ctx.
  { simpl. rewrite app_nil_r. by destruct ctx. }
  cbn [fmap list_fmap imap ini_run fst snd].
  rewrite (bind_run _ _ _ _ _ (run_ini_handler ctx k v s Hq (so_plain _ Hp))). cbn [negb andb].
  set (f := λ (i : nat) (p : string * string), (lineno + 1 + Z.of_nat i, IniPair p.1 p.2)).
  rewrite (imap_ext _ f).
  2:{ intros i p _. unfold f, compose. f_equal. lia. }
  unfold f. rewrite IH. cbn [kvs keyArrayCount]. by rewrite <- app_assoc.
Qed.

Lemma pairs_present l (f : nat → string * string → Z) :
  l ≠ [] → existsb is_pair (imap (λ i p, (f i p, IniPair p.1 p.2)) l) = true.
Proof. by destruct l. Qed.

Lemma run_parse_conf f l s :
  settled s → bools (get_opts s) SIGNATURES = false → l ≠ [] → Forall setting_ok l →
  read_file f s = Ret (Some (conf_text l)) s →
  crinitParseConf f s = Ret (Some l) s.
Proof.
  intros [Hq Hu _ _] Hsig Hne Hl Hf. unfold crinitParseConf. rewrite (bind_run _ _ _ _ _ Hf).
  assert (∃ c r, conf_text l = String c r) as (c & r & E).
  { destruct l as [|[[|c n] v] l]; [done| |by do 2 eexists]. inversion Hl as [|?? [Hn _ _ _ _] _]. by destruct Hn. }
  rewrite E. cbv beta iota. rewrite <- E. clear c r E.
  assert (crinitGlobOptGetBoolean SIGNATURES s = Ret false s) as Es.
  { rewrite <- Hsig. by apply (run_getter (λ o, bools o SIGNATURES)). }
  rewrite (bind_run _ _ _ _ _ Es). cbn [negb]. rewrite (bind_run (mret true) _ s true s) by done. cbn [negb].
  rewrite bind_fallible by done. rewrite c_str_no_nul by (by apply conf_text_no_nul).
  assert (Forall writable ((λ p, (p.1, in_quotes p.2)) <$> l)) as Hw.
  { apply Forall_fmap. eapply Forall_impl; [exact Hl|]. intros p Hp. by apply setting_writable. }
  unfold conf_text. rewrite ini_roundtrip by done. rewrite pairs_present by (by destruct l). cbn [negb].
  rewrite (imap_ext _ (λ i p, (1 + Z.of_nat i, IniPair p.1 p.2))).
  2:{ intros i p _. f_equal. lia. }
  rewrite (bind_run _ _ _ _ _ (run_ini l 1 (mkCtx [] 0) s Hq Hl)). done.
Qed.

(** A configuration file with one line 'KEY = "value"' per setting is read
    as exactly these settings, in order: crinitParseConf() undoes the writing
    for every value without newlines and NUL bytes. *)
Theorem crinitParseConf_roundtrip f l s :
  settled s → bools (get_opts s) SIGNATURES = false → l ≠ [] → Forall setting_ok l →
  read_file f s = Ret (Some (conf_text l)) s →
  crinitParseConf f s = Ret (Some l) s.
Proof. apply run_parse_conf. Qed.
End ParseSpec.
