(* ===== verification/ConfTask.v ===== *)
(** * From a task file to a task: the handlers of src/confhdl.c, the task table of
    src/confmap.c, the loader of src/task.c

    A task is built from the settings of its file, one handler call per
    setting.  INCLUDE merges the settings of another file; only some keys are
    allowed there.  The build has elos, cgroup and capability support as
    [ENABLE_ELOS] says and for the latter two always. *)

From Stdlib Require Import ZArith Lia Bool List String Ascii.
From stdpp Require Import base functions list strings gmap.
From S2P Require Import Prelude CString EnvSet Timer Task TaskDB TimerDB Lexers ConfConv Ini GlobOpt Cgroup ConfParse.

Open Scope Z_scope.
Open Scope crinit_scope.

#[local] Arguments String.append : simpl nomatch.

(** ** The task under construction *)

(** A task points to a global group, at an index, or owns its group. *)
Inductive cgroup_ref := SharedGroup (i : nat) | OwnGroup (g : crinitCgroup).

(** The name is NULL until NAME is read; [t_name] and [t_cgroup] of the task
    are filled in at the end. *)
Record draft := mkDraft { df_name : option string; df_cgroup : option cgroup_ref; df_task : crinitTask }.

Definition on_task (f : crinitTask → crinitTask) (d : draft) : draft :=
  mkDraft (df_name d) (df_cgroup d) (f (df_task d)).

(** calloc() and the three assignments after it. *)
Definition no_env : crinitEnvSet := mkEnvSet None 0 0.
Definition blank_task : crinitTask :=
  mkTask EmptyString [] [] no_env no_env [] [] false [] 0 0 (-1) [] (-1) 0 false
    (mkTimespec 0 0) (mkTimespec 0 0) (mkTimespec 0 0) 0 0 [] None None 0 0 None.

Inductive crinitTaskType := CRINIT_TASK_TYPE_STANDARD | CRINIT_TASK_TYPE_INCLUDE.

#[export] Instance task_type_eq_dec : EqDecision crinitTaskType.
Proof. solve_decision. Defined.

(** ** What the handlers need of the system *)

Class ConfEnv (S : Type) `{Faulty S, !OptState S, !ConfFiles S, !TimerState S} := {
  ENABLE_ELOS : bool;  (* of the build *)
  getpwnam : string → option Z;
  getpwuid : Z → option string;
  getgrnam : string → option Z;
  getgrgid : Z → option string;
  lookup_capability : string → option Z;  (* libcap *)
  errno_set : S → bool;  (* errno is not 0 *)
  clock_now : M S (option timespec);  (* clock_gettime(CLOCK_MONOTONIC) *)
  clock_now_ok : ∀ s, wp clock_now (λ _ s', only_faults s s') s;
}.

(** ** Parsing without side effects *)

Definition starts_with (c : ascii) (s : string) : bool :=
  match s with String d _ => is_char d c | EmptyString => false end.

(** One DEPENDS or TRIGGER entry. *)
Inductive dep_text := DepOk (d : crinitTaskDep) | DepBad | DepUndef.

(** strtok_r() with ":" and then " " on a copy of the entry.  A colon at its
    start makes the name a pointer into the allocation, which is freed later; a
    space before the event separates the two in memory, where the copy of a task
    expects one after the other: both count as undefined. *)
Definition parse_dep (entry : string) : dep_text :=
  match strtok ":" entry with
  | None => DepBad
  | Some (name, rest) =>
      if starts_with ":" entry then DepUndef else
      match strtok " " rest with
      | None => DepBad
      | Some (event, _) =>
          if starts_with " " rest then DepUndef else DepOk (mkDep name event)
      end
  end.

Definition CRINIT_TASK_EVENT_NOTIFY_SUFFIX : string := "-notified".

(** One PROVIDES entry. *)
Definition parse_prv (entry : string) : option crinitTaskPrv :=
  match str_break ":" entry with
  | None => None
  | Some (name, event) =>
      let len := String.length CRINIT_TASK_EVENT_RUNNING in
      let state :=
        if strncmp_eq len event CRINIT_TASK_EVENT_RUNNING then Some CRINIT_TASK_STATE_RUNNING
        else if strncmp_eq len event CRINIT_TASK_EVENT_DONE then Some CRINIT_TASK_STATE_DONE
        else if strncmp_eq (String.length CRINIT_TASK_EVENT_FAILED) event CRINIT_TASK_EVENT_FAILED
             then Some CRINIT_TASK_STATE_FAILED
        else None in
      match state with
      | None => None
      | Some state =>
          let notified := match str_break "-" event with
                          | Some (_, r) => str_eqb (String "-" r) CRINIT_TASK_EVENT_NOTIFY_SUFFIX
                          | None => false
                          end in
          Some (mkPrv name (if notified then Z.lor state CRINIT_TASK_STATE_NOTIFIED else state))
      end
  end.

(** isalpha() of the first character. *)
Definition starts_alpha (val : string) : bool :=
  match val with String c _ => in_range "a" "z" c || in_range "A" "Z" c | EmptyString => false end.

(** A numeric ID: not negative as a 64-bit number, then stored in 32 bits. *)
Definition parse_id (val : string) : option Z :=
  let '(r, v) := crinitConfConvToIntegerLL 0 val 10 in
  if (r =? -1) || (v <? 0) then None else
  let '(r, id) := crinitConfConvToIntegerUI 0 val 10 in
  if r =? -1 then None else Some id.

(** crinitCfgHandlerSetTaskOptFromStr(): the new option bits. *)
Definition crinitCfgHandlerSetTaskOptFromStr (opts opt : Z) (val : string) : option Z :=
  let '(r, b) := crinitConfConvToBool false val in
  if r =? -1 then None else Some (if (b : bool) then Z.lor opts opt else opts &~ opt).

(** ** Handlers *)

Definition crinitConfigHandler (S : Type) : Type :=
  option draft → string → crinitConfigType → M S (Z * option draft).

Section Handlers.
Context {S : Type} `{ConfEnv S}.

(** crinitNullCheck() and crinitCfgHandlerTypeCheck() of a task handler. *)
Definition task_handler (f : draft → string → M S (Z * draft)) : crinitConfigHandler S := λ tgt val type,
  match tgt with
  | None => mret (-1, None)
  | Some d =>
      if bool_decide (type = CRINIT_CONFIG_TYPE_TASK) then '(r, d) ← f d val; mret (r, Some d)
      else mret (-1, tgt)
  end.

(** What a failing handler leaves in the arrays of the task is only freed: the
    draft is returned as it was. *)
Definition fails (d : draft) : M S (Z * draft) := mret (-1, d).
Definition sets (d : draft) (f : crinitTask → crinitTask) : M S (Z * draft) := mret (0, on_task f d).

Definition crinitCfgCmdHandler : crinitConfigHandler S := task_handler (λ d val,
  oom ← fallible;  (* realloc *)
  if (oom : bool) then fails d else
  arr ← crinitConfConvToStrArr val true;
  match arr with
  | None => fails d
  | Some a => sets d (λ t, set_t_cmds (t_cmds t ++ [mkCmd a]) t)
  end).

Definition crinitCfgStopCmdHandler : crinitConfigHandler S := task_handler (λ d val,
  oom ← fallible;
  if (oom : bool) then fails d else
  arr ← crinitConfConvToStrArr val true;
  match arr with
  | None => fails d
  | Some a => sets d (λ t, set_t_stopCmds (t_stopCmds t ++ [mkCmd a]) t)
  end).

Fixpoint dep_entries (entries : list string) : M S (option (list crinitTaskDep)) :=
  match entries with
  | [] => mret (Some [])
  | e :: entries =>
      oom ← fallible;  (* strdup *)
      if (oom : bool) then mret None else
      match parse_dep e with
      | DepBad => mret None
      | DepUndef => mundef
      | DepOk dep =>
          (if str_eqb (dep_name dep) "@timer" then crinitTimerDBAddTimer (dep_event dep) else mret tt) ;;
          if negb ENABLE_ELOS && str_eqb (dep_name dep) "@elos" then mret None else
          l ← dep_entries entries; mret (cons dep <$> l)
      end
  end.

(** The entries to append; [None] on error. *)
Definition crinitDepListHandler (val : string) : M S (option (list crinitTaskDep)) :=
  arr ← crinitConfConvToStrArr val false;
  match arr with
  | None => mret None
  | Some [] => mret (Some [])
  | Some entries =>
      oom ← fallible;
      if (oom : bool) then mret None else dep_entries entries
  end.

Definition crinitCfgDepHandler : crinitConfigHandler S := task_handler (λ d val,
  r ← crinitDepListHandler val;
  match r with None => fails d | Some l => sets d (λ t, set_t_deps (t_deps t ++ l) t) end).

Definition crinitCfgTrigHandler : crinitConfigHandler S := task_handler (λ d val,
  r ← crinitDepListHandler val;
  match r with None => fails d | Some l => sets d (λ t, set_t_trig (t_trig t ++ l) t) end).

Definition opt_handler (opt : Z) : crinitConfigHandler S := task_handler (λ d val,
  match crinitCfgHandlerSetTaskOptFromStr (t_opts (df_task d)) opt val with
  | None => fails d
  | Some v => sets d (set_t_opts v)
  end).
Definition crinitCfgTrigRearmHandler : crinitConfigHandler S := opt_handler CRINIT_TASK_OPT_TRIGGER_REARM.
Definition crinitCfgRespHandler : crinitConfigHandler S := opt_handler CRINIT_TASK_OPT_RESPAWN.

Fixpoint prv_entries (entries : list string) : M S (option (list crinitTaskPrv)) :=
  match entries with
  | [] => mret (Some [])
  | e :: entries =>
      oom ← fallible;
      if (oom : bool) then mret None else
      match parse_prv e with
      | None => mret None
      | Some p => l ← prv_entries entries; mret (cons p <$> l)
      end
  end.

Definition crinitCfgPrvHandler : crinitConfigHandler S := task_handler (λ d val,
  arr ← crinitConfConvToStrArr val false;
  match arr with
  | None => fails d
  | Some [] => mret (0, d)
  | Some entries =>
      oom ← fallible;
      if (oom : bool) then fails d else
      r ← prv_entries entries;
      match r with None => fails d | Some l => sets d (λ t, set_t_prv (t_prv t ++ l) t) end
  end).

(** An environment set of the task, or one of the global options. *)
Definition env_handler (m : env_member) (get : crinitTask → crinitEnvSet)
    (set : crinitEnvSet → crinitTask → crinitTask) : crinitConfigHandler S := λ tgt val type,
  match type with
  | CRINIT_CONFIG_TYPE_TASK =>
      match tgt with
      | None => mret (-1, None)
      | Some d =>
          '(r, es) ← crinitConfConvToEnvSetMember (get (df_task d)) val;
          mret (if r =? -1 then -1 else 0, Some (on_task (set es) d))
      end
  | CRINIT_CONFIG_TYPE_SERIES =>
      crinitGlobOptBorrow ;;
      o ← mopts;
      '(r, es) ← crinitConfConvToEnvSetMember (envs o m) val;
      mopts_modify (λ o, set_envs (<[m := es]> (envs o)) o) ;;
      r' ← crinitGlobOptRemit;
      mret (if (r =? -1) || (r' =? -1) then -1 else 0, tgt)
  | CRINIT_CONFIG_TYPE_KCMDLINE => mret (-1, tgt)
  end.
Definition crinitCfgEnvHandler : crinitConfigHandler S := env_handler ENV t_taskEnv set_t_taskEnv.
Definition crinitCfgFilterHandler : crinitConfigHandler S := λ tgt val type,
  if ENABLE_ELOS then env_handler FILTERS t_elosFilters set_t_elosFilters tgt val type else mret (-1, tgt).

Definition crinitCfgIoRedirHandler : crinitConfigHandler S := task_handler (λ d val,
  oom ← fallible;
  if (oom : bool) then fails d else
  s ← mget;
  r ← crinitConfConvToIoRedir (errno_set s) val;
  match r with None => fails d | Some ior => sets d (λ t, set_t_redirs (t_redirs t ++ [ior]) t) end).

Definition crinitCfgNameHandler : crinitConfigHandler S := task_handler (λ d val,
  oom ← fallible;
  if (oom : bool) then fails d else mret (0, mkDraft (Some val) (df_cgroup d) (df_task d))).

Definition crinitCfgRespRetHandler : crinitConfigHandler S := task_handler (λ d val,
  let '(r, v) := crinitConfConvToIntegerI (t_maxRetries (df_task d)) val 10 in
  if r =? -1 then fails d else sets d (set_t_maxRetries v)).

Definition crinitCfgCapClearHandler : crinitConfigHandler S := task_handler (λ d val,
  r ← crinitCapConvertToBitmask lookup_capability val;
  match r with None => fails d | Some m => sets d (set_t_capabilitiesClear m) end).
Definition crinitCfgCapSetHandler : crinitConfigHandler S := task_handler (λ d val,
  r ← crinitCapConvertToBitmask lookup_capability val;
  match r with None => fails d | Some m => sets d (set_t_capabilitiesSet m) end).

Definition set_user (uid : Z) (name : string) (t : crinitTask) : crinitTask :=
  set_t_username (Some name) (set_t_user uid t).

(** The lookup of an entry of the databases of users and groups, in a buffer. *)
Definition find_entry {A} (entry : option A) : M S (option A) :=
  oom ← fallible;  (* malloc *)
  if (oom : bool) then mret None else
  err ← fallible;  (* getpwnam_r and the like *)
  mret (if (err : bool) then None else entry).
Definition strndup (name : option string) : M S (option string) :=
  match name with
  | None => mret None
  | Some n => oom ← fallible; mret (if (oom : bool) then None else Some n)
  end.

Definition crinitUsernameToUid (name : string) : M S (option Z) := find_entry (getpwnam name).
Definition crinitUidToUsername (uid : Z) : M S (option string) := resPwd ← find_entry (getpwuid uid); strndup resPwd.
Definition crinitGroupnameToGid (name : string) : M S (option Z) := find_entry (getgrnam name).
Definition crinitGidToGroupname (gid : Z) : M S (option string) := resGrp ← find_entry (getgrgid gid); strndup resGrp.

Definition crinitCfgUserHandler : crinitConfigHandler S := task_handler (λ d val,
  known ← (if starts_alpha val then crinitUsernameToUid val else mret None);
  match known with
  | Some uid =>
      oom ← fallible;
      if (oom : bool) then fails d else sets d (set_user uid val)
  | None =>
      match parse_id val with
      | None => fails d
      | Some uid =>
          name ← crinitUidToUsername uid;
          match name with None => fails d | Some name => sets d (set_user uid name) end
      end
  end).

(** The entry at an index becomes the main group, or a supplementary one. *)
Definition put_group (i : nat) (gid : Z) (name : string) (t : crinitTask) : crinitTask :=
  match i with
  | O => set_t_groupname (Some name) (set_t_group gid t)
  | Datatypes.S j => set_t_supGroups (<[j := gid]> (t_supGroups t)) t
  end.

(** A name that is not known, or cannot be looked up, leaves its place as it is. *)
Fixpoint group_entries (i : nat) (entries : list string) (t : crinitTask) : M S (option crinitTask) :=
  match entries with
  | [] => mret (Some t)
  | e :: entries =>
      if starts_alpha e then
        known ← crinitGroupnameToGid e;
        match known with
        | None => group_entries (Datatypes.S i) entries t
        | Some gid =>
            oom ← (if Nat.eqb i 0 then fallible else mret false);
            if (oom : bool) then mret None else group_entries (Datatypes.S i) entries (put_group i gid e t)
        end
      else
        match parse_id e with
        | None => mret None
        | Some gid =>
            name ← crinitGidToGroupname gid;
            match name with
            | None => mret None
            | Some name => group_entries (Datatypes.S i) entries (put_group i gid name t)
            end
        end
  end.

Definition crinitCfgGroupHandler : crinitConfigHandler S := task_handler (λ d val,
  arr ← crinitConfConvToStrArr val true;
  match arr with
  | None => fails d
  | Some entries =>
      let n := length entries in
      oom ← (if (1 <? n)%nat then fallible else mret false);
      if (oom : bool) then fails d else
      let t := if (1 <? n)%nat then set_t_supGroups (replicate (n - 1) 0) (df_task d) else df_task d in
      r ← group_entries 0 entries t;
      match r with
      | None => fails d
      | Some t => match t_groupname t with None => fails d | Some _ => sets d (λ _, t) end
      end
  end).

(** *** Cgroups *)

Definition ref_name (o : crinitGlobOptStore) (r : cgroup_ref) : option string :=
  match r with SharedGroup i => global_cgroups o !! i ≫= cg_name | OwnGroup g => cg_name g end.
Definition ref_group (o : crinitGlobOptStore) (r : cgroup_ref) : option crinitCgroup :=
  match r with SharedGroup i => global_cgroups o !! i | OwnGroup g => Some g end.

(** Assignment through the pointer of the task. *)
Definition update_ref (f : crinitCgroup → crinitCgroup) (r : cgroup_ref) : M S cgroup_ref :=
  match r with
  | SharedGroup i => mopts_modify (λ o, set_globals (Some (alter f i (global_cgroups o))) o) ;; mret r
  | OwnGroup g => mret (OwnGroup (f g))
  end.

Definition with_cgroup (d : draft) (r : cgroup_ref) : draft := mkDraft (df_name d) (Some r) (df_task d).

Definition crinitCfgCgroupNameHandler : crinitConfigHandler S := task_handler (λ d val,
  if str_eqb val EmptyString then fails d else
  crinitGlobOptBorrow ;;
  g ← crinitFindCgroupByName (Some val);
  match g with
  | Some (i, _) => _ ← crinitGlobOptRemit; mret (0, with_cgroup d (SharedGroup i))
  | None =>
      oom ← match df_cgroup d with None => fallible | Some _ => mret false end;
      if (oom : bool) then _ ← crinitGlobOptRemit; fails d else
      o ← mopts;
      r ← update_ref (set_cg_parent (rootCgroup (lists o))) (default (OwnGroup new_cgroup) (df_cgroup d));
      _ ← crinitGlobOptRemit;
      oom ← fallible;  (* strdup: the name stays NULL when it fails *)
      r ← update_ref (set_cg_name (if (oom : bool) then None else Some val)) r;
      mret (if (oom : bool) then -1 else 0, with_cgroup d r)
  end).

(** On a malformed parameter the configuration is freed.  If the group already
    had one it refers to it still, and it is freed again with the task, or read
    again with the global group: undefined. *)
Definition crinitCfgCgroupParamsHandler : crinitConfigHandler S := task_handler (λ d val,
  o ← mopts;
  match df_cgroup d ≫= λ r, ref_name o r ≫= λ _, (λ g, (r, g)) <$> ref_group o r with
  | None => fails d
  | Some (r, g) =>
      oom ← match cg_config g with None => fallible | Some _ => mret false end;
      if (oom : bool) then fails d else
      oom ← fallible;  (* realloc: the error path frees the configuration *)
      if (oom : bool) then match cg_config g with None => fails d | Some _ => mundef end else
      p ← crinitCgroupConvertSingleParamToObject val;
      match p with
      | None => match cg_config g with None => fails d | Some _ => mundef end
      | Some p =>
          crinitGlobOptBorrow ;;
          r ← update_ref (add_param p) r;
          _ ← crinitGlobOptRemit;
          mret (0, with_cgroup d r)
      end
  end).
End Handlers.

(** ** The table and the loader *)

Section Loader.
Context {S : Type} `{ConfEnv S}.
Notation handler := (crinitConfigHandler S).

(** crinitTaskCfgMap; the handler of INCLUDE is a parameter because it uses the
    table again. *)
Definition crinitTaskCfgMap (include : handler) : list (crinitConfigMapping handler) := [
  mkMapping CRINIT_CONFIG_CAP_CLEAR "CAPABILITY_CLEAR" true false crinitCfgCapClearHandler;
  mkMapping CRINIT_CONFIG_CAP_SET "CAPABILITY_SET" true false crinitCfgCapSetHandler;
  mkMapping CRINIT_CONFIG_CGROUP_NAME "CGROUP_NAME" false false crinitCfgCgroupNameHandler;
  mkMapping CRINIT_CONFIG_CGROUP_PARAMS "CGROUP_PARAMS" true false crinitCfgCgroupParamsHandler;
  mkMapping CRINIT_CONFIG_COMMAND "COMMAND" true false crinitCfgCmdHandler;
  mkMapping CRINIT_CONFIG_DEPENDS "DEPENDS" true true crinitCfgDepHandler;
  mkMapping CRINIT_CONFIG_ENV_SET "ENV_SET" true true crinitCfgEnvHandler;
  mkMapping CRINIT_CONFIG_FILTER_DEFINE "FILTER_DEFINE" true true crinitCfgFilterHandler;
  mkMapping CRINIT_CONFIG_GROUP "GROUP" true false crinitCfgGroupHandler;
  mkMapping CRINIT_CONFIG_INCLUDE "INCLUDE" true false include;
  mkMapping CRINIT_CONFIG_IOREDIR "IO_REDIRECT" true true crinitCfgIoRedirHandler;
  mkMapping CRINIT_CONFIG_NAME "NAME" false false crinitCfgNameHandler;
  mkMapping CRINIT_CONFIG_PROVIDES "PROVIDES" true false crinitCfgPrvHandler;
  mkMapping CRINIT_CONFIG_RESPAWN "RESPAWN" false false crinitCfgRespHandler;
  mkMapping CRINIT_CONFIG_RESPAWN_RETRIES "RESPAWN_RETRIES" false false crinitCfgRespRetHandler;
  mkMapping CRINIT_CONFIG_STOP_COMMAND "STOP_COMMAND" true false crinitCfgStopCmdHandler;
  mkMapping CRINIT_CONFIG_TRIGGER "TRIGGER" true true crinitCfgTrigHandler;
  mkMapping CRINIT_CONFIG_TRIGGER_REARM "TRIGGER_REARM" false false crinitCfgTrigRearmHandler;
  mkMapping CRINIT_CONFIG_USER "USER" false false crinitCfgUserHandler ].

(** The keys of an import list, separated by commas; [None] if one is unknown. *)
Fixpoint import_keys (map : list (crinitConfigMapping handler)) (keys : list string)
    (importArr : crinitConfigs → bool) : option (crinitConfigs → bool) :=
  match keys with
  | [] => Some importArr
  | k :: keys =>
      match crinitFindConfigMapping map k with
      | None => None
      | Some cfg => import_keys map keys (<[cm_config cfg := true]> importArr)
      end
  end.

Definition import_set (map : list (crinitConfigMapping handler)) (type : crinitTaskType) (importList : option string) :
    option (crinitConfigs → bool) :=
  match type, importList with
  | CRINIT_TASK_TYPE_STANDARD, _ | _, None => Some (λ _, true)
  | CRINIT_TASK_TYPE_INCLUDE, Some l => import_keys map (tokens "," l) (λ _, false)
  end.

(** The loop over the settings; [dupl] are the keys met so far. *)
Fixpoint apply_settings (map : list (crinitConfigMapping handler)) (type : crinitTaskType)
    (import dupl : crinitConfigs → bool) (src : list (string * string)) (d : draft) : M S (Z * draft) :=
  match src with
  | [] => mret (0, d)
  | (key, val) :: src =>
      match crinitFindConfigMapping map key with
      | None => apply_settings map type import dupl src d  (* a warning *)
      | Some tcm =>
          if negb (includeSafe tcm) && bool_decide (type = CRINIT_TASK_TYPE_INCLUDE) then mret (-1, d)
          else if negb (arrayLike tcm) && dupl (cm_config tcm) then mret (-1, d)
          else
            '(r, d) ← (if import (cm_config tcm) then
                         '(r, d') ← cfgHandler tcm (Some d) val CRINIT_CONFIG_TYPE_TASK;
                         mret (r, default d d')
                       else mret (0, d));
            if r =? -1 then mret (-1, d)
            else apply_settings map type import (<[cm_config tcm := true]> dupl) src d
      end
  end.

Definition crinitTaskSetFromConfKvList (include : handler) (d : draft) (src : list (string * string))
    (type : crinitTaskType) (importList : option string) : M S (Z * draft) :=
  let map := crinitTaskCfgMap include in
  match import_set map type importList with
  | None => mret (-1, d)
  | Some import => apply_settings map type import (λ _, false) src d
  end.

Definition crinitTaskMergeInclude (include : handler) (d : draft) (src : string) (importList : option string) :
    M S (Z * draft) :=
  inclDir ← crinitGlobOptGetString INCLDIR;
  match inclDir with None => mret (-1, d) | Some inclDir =>
  inclSuffix ← crinitGlobOptGetString INCL_SUFFIX;
  match inclSuffix with None => mret (-1, d) | Some inclSuffix =>
  oom ← fallible;
  if (oom : bool) then mret (-1, d) else
  conf ← crinitParseConf (inclDir +:+ "/" +:+ src +:+ inclSuffix)%string;
  match conf with
  | None => mret (-1, d)
  | Some conf => crinitTaskSetFromConfKvList include d conf CRINIT_TASK_TYPE_INCLUDE importList
  end end end.

(** The handler of INCLUDE, which may be entered at most [depth] times within
    itself. *)
Fixpoint crinitTaskIncludeHandler (depth : nat) : handler :=
  match depth with
  | O => λ _ _ _, mundef
  | Datatypes.S depth => task_handler (λ d val,
      arr ← crinitConfConvToStrArr val true;
      match arr with
      | Some [src] => crinitTaskMergeInclude (crinitTaskIncludeHandler depth) d src None
      | Some [src; importList] => crinitTaskMergeInclude (crinitTaskIncludeHandler depth) d src (Some importList)
      | _ => mret (-1, d)
      end)
  end.

(** crinitFreeTask() on a task that is not complete. *)
Definition free_draft (d : draft) : M S unit :=
  match df_cgroup d with
  | None => mret tt
  | Some r => o ← mopts; _ ← Cgroup.crinitCgroupNameIsGlobalCgroup (ref_name o r); mret tt
  end.

Definition crinitTaskCreateFromConfKvList (depth : nat) (conf : list (string * string)) : M S (option crinitTask) :=
  oom ← fallible;
  if (oom : bool) then mret None else
  let fail d := free_draft d ;; mret None in
  let d := mkDraft None None blank_task in
  '(r, env) ← crinitGlobOptGetEnvSet ENV no_env;
  let d := on_task (set_t_taskEnv env) d in
  if r =? -1 then fail d else
  '(r, filters) ← crinitGlobOptGetEnvSet FILTERS no_env;
  let d := on_task (set_t_elosFilters filters) d in
  if r =? -1 then fail d else
  '(r, d) ← crinitTaskSetFromConfKvList (crinitTaskIncludeHandler depth) d conf CRINIT_TASK_TYPE_STANDARD None;
  if r =? -1 then fail d else
  match df_name d with
  | None => fail d
  | Some name =>
      let t := df_task d in
      if Nat.eqb (length (t_cmds t)) 0 && Nat.eqb (length (t_deps t)) 0 then fail d else
      now ← clock_now;
      o ← mopts;
      mret (Some (set_t_createTime (default (mkTimespec 0 0) now)
        (set_t_triggered (Nat.eqb (length (t_trig t)) 0)
          (set_t_cgroup (df_cgroup d ≫= ref_group o) (set_t_name name t)))))
  end.
End Loader.
