(* ===== verification/ConfTaskProps.v ===== *)
(** * What the loader of task files promises: theorems about confhdl.c, confmap.c
    and task.c *)

From Stdlib Require Import ZArith Lia Bool List String Ascii.
From stdpp Require Import base functions list strings gmap.
From S2P Require Import Prelude CString EnvSet Timer Task TaskDB TimerDB Lexers ConfConv Ini GlobOpt Cgroup.
From S2P Require Import GlobOptProps ConfParse ConfTask.

Open Scope Z_scope.
Open Scope crinit_scope.

#[local] Arguments String.append : simpl nomatch.

(** ** The table of keys *)

Section Table.
Context {S : Type} `{ConfEnv S}.
Notation handler := (crinitConfigHandler S).
Implicit Types incl : handler.

Lemma task_map_sorted incl : sorted_b configKey (crinitTaskCfgMap incl) = true.
Proof. reflexivity. Qed.

Lemma find_task_row incl key :
  crinitFindConfigMapping (crinitTaskCfgMap incl) key = find (λ e, str_eqb (configKey e) key) (crinitTaskCfgMap incl).
Proof. apply find_mapping, task_map_sorted. Qed.

(** Two tables row by row: all rows are the same, but the handlers of INCLUDE. *)
Definition row_rel (R : handler → handler → Prop) (a b : crinitConfigMapping handler) : Prop :=
  cm_config a = cm_config b ∧ configKey a = configKey b ∧ arrayLike a = arrayLike b ∧
  includeSafe a = includeSafe b ∧
  (cfgHandler a = cfgHandler b ∨ includeSafe a = false ∧ R (cfgHandler a) (cfgHandler b)).

Lemma task_map_rel (R : handler → handler → Prop) incl incl' :
  R incl incl' → Forall2 (row_rel R) (crinitTaskCfgMap incl) (crinitTaskCfgMap incl').
Proof. intros HR. unfold crinitTaskCfgMap. repeat (constructor; [split_and!; simpl; auto|]). constructor. Qed.

Lemma find_rel (R : handler → handler → Prop) l l' key :
  Forall2 (row_rel R) l l' →
  match find (λ e, str_eqb (configKey e) key) l, find (λ e, str_eqb (configKey e) key) l' with
  | Some a, Some b => row_rel R a b
  | None, None => True
  | _, _ => False
  end.
Proof.
  induction 1 as [|a b l l' Hab Hl IH]; simpl; [done|].
  destruct Hab as (Hc & Hk & Ha & Hi & Hh). rewrite <- Hk. destruct (str_eqb (configKey a) key); [|done].
  by split_and!.
Qed.

Lemma find_task_rel (R : handler → handler → Prop) incl incl' key :
  R incl incl' →
  match crinitFindConfigMapping (crinitTaskCfgMap incl) key, crinitFindConfigMapping (crinitTaskCfgMap incl') key with
  | Some a, Some b => row_rel R a b
  | None, None => True
  | _, _ => False
  end.
Proof. intros HR. rewrite !find_task_row. by apply find_rel, task_map_rel. Qed.

Lemma find_task_In incl key row :
  crinitFindConfigMapping (crinitTaskCfgMap incl) key = Some row → row ∈ crinitTaskCfgMap incl ∧ configKey row = key.
Proof.
  rewrite find_task_row. intros Hf. apply find_some in Hf as [Hin Hk].
  by apply list_elem_of_In in Hin; apply str_eqb_true in Hk.
Qed.
End Table.

(** ** Includes do not nest *)

Lemma bind_ext {S A B} (m m' : M S A) (k k' : A → M S B) s :
  m s = m' s → (∀ a s', k a s' = k' a s') → (m ≫= k) s = (m' ≫= k') s.
Proof. intros E Hk. unfold mbind, M_bind. rewrite E. by destruct (m' s). Qed.

Section Nesting.
Context {S : Type} `{ConfEnv S}.
Notation handler := (crinitConfigHandler S).
Implicit Types incl h : handler.

(** Two handlers that do the same. *)
Definition same_handler h h' : Prop := ∀ tgt val type s, h tgt val type s = h' tgt val type s.

Lemma import_set_same (R : handler → handler → Prop) incl incl' type l :
  R incl incl' → import_set (crinitTaskCfgMap incl) type l = import_set (crinitTaskCfgMap incl') type l.
Proof.
  intros HR. destruct type, l as [l|]; try done. simpl. generalize (λ _ : crinitConfigs, false) as acc.
  induction (tokens "," l) as [|k keys IH]; intros acc; [done|]. cbn [import_keys].
  pose proof (find_task_rel R incl incl' k HR) as Hf.
  destruct (crinitFindConfigMapping (crinitTaskCfgMap incl) k), (crinitFindConfigMapping (crinitTaskCfgMap incl') k);
    try done. destruct Hf as (-> & _). apply IH.
Qed.

(** The loop depends on the handler of INCLUDE only through what it does, and
    not at all in an include file. *)
Lemma apply_same incl incl' type import dupl src d s :
  type = CRINIT_TASK_TYPE_INCLUDE ∨ same_handler incl incl' →
  apply_settings (crinitTaskCfgMap incl) type import dupl src d s =
  apply_settings (crinitTaskCfgMap incl') type import dupl src d s.
Proof.
  intros Hty. revert dupl d s. induction src as [|[key val] src IH]; intros dupl d s; [done|].
  cbn [apply_settings].
  pose proof (find_task_rel (λ h h', type = CRINIT_TASK_TYPE_INCLUDE ∨ same_handler h h') incl incl' key Hty) as Hf.
  destruct (crinitFindConfigMapping (crinitTaskCfgMap incl) key) as [a|],
    (crinitFindConfigMapping (crinitTaskCfgMap incl') key) as [b|]; try done.
  destruct Hf as (-> & _ & -> & Hi & Hh). rewrite Hi in *.
  assert (∀ r s1, (let '(r, d) := r in
      if r =? -1 then mret (-1, d)
      else apply_settings (crinitTaskCfgMap incl) type import (<[cm_config b := true]> dupl) src d) s1
    = (let '(r, d) := r in
      if r =? -1 then mret (-1, d)
      else apply_settings (crinitTaskCfgMap incl') type import (<[cm_config b := true]> dupl) src d) s1) as Hk.
  { intros [r d'] s1. destruct (r =? -1); [done|apply IH]. }
  destruct (includeSafe b); cbn [negb andb] in *.
  - destruct (negb (arrayLike b) && dupl (cm_config b)); [done|]. apply bind_ext; [|apply Hk].
    destruct Hh as [->|[? _]]; [|done]. by destruct (import (cm_config b)).
  - case_bool_decide as Et; [done|]. destruct (negb (arrayLike b) && dupl (cm_config b)); [done|].
    apply bind_ext; [|apply Hk]. destruct (import (cm_config b)); [|done]. apply bind_ext; [|done].
    destruct Hh as [->|[_ [?|Hs]]]; [done|done|apply Hs].
Qed.

Lemma merge_same incl incl' d src l s :
  crinitTaskMergeInclude incl d src l s = crinitTaskMergeInclude incl' d src l s.
Proof.
  unfold crinitTaskMergeInclude. apply bind_ext; [done|]. intros [dir|] s1; [|done].
  apply bind_ext; [done|]. intros [suf|] s2; [|done]. apply bind_ext; [done|]. intros [] s3; [done|].
  apply bind_ext; [done|]. intros [conf|] s4; [|done]. unfold crinitTaskSetFromConfKvList.
  rewrite (import_set_same (λ _ _, True) incl incl' CRINIT_TASK_TYPE_INCLUDE l) by done.
  destruct (import_set _ _ _); [|done]. apply apply_same. by left.
Qed.

Lemma include_depth n m : same_handler (crinitTaskIncludeHandler (Datatypes.S n)) (crinitTaskIncludeHandler (Datatypes.S m)).
Proof.
  intros tgt val type s. cbn [crinitTaskIncludeHandler]. unfold task_handler. destruct tgt as [d|]; [|done].
  case_bool_decide; [|done]. apply bind_ext; [|done]. apply bind_ext; [done|].
  intros [[|a [|b [|c l]]]|] s1; try done; apply merge_same.
Qed.

(** C11: loading a task terminates: an include file cannot include another one,
    so crinitTaskIncludeHandler() is never entered again from within itself and
    one level of nesting is enough for every task file. *)
Theorem crinitTaskIncludeHandler_not_reentered n conf s :
  crinitTaskCreateFromConfKvList (Datatypes.S n) conf s = crinitTaskCreateFromConfKvList 1 conf s.
Proof.
  unfold crinitTaskCreateFromConfKvList. apply bind_ext; [done|]. intros [] s1; [done|].
  apply bind_ext; [done|]. intros [r env] s2. destruct (r =? -1); [done|].
  apply bind_ext; [done|]. intros [r2 filters] s3. destruct (r2 =? -1); [done|].
  apply bind_ext; [|done]. unfold crinitTaskSetFromConfKvList. simpl import_set. cbv beta iota.
  apply apply_same. right. apply include_depth.
Qed.
End Nesting.

(** ** What the handlers change *)

Section Keeps.
Context {S : Type} `{ConfEnv S}.
Notation handler := (crinitConfigHandler S).
Implicit Types incl h : handler.

(** When the handler succeeds, the new draft is related to the old one; [ok]
    says which values are considered. *)
Definition hkeeps (P : draft → draft → Prop) (ok : string → Prop) h : Prop :=
  ∀ d val s, ok val →
    wlp (h (Some d) val CRINIT_CONFIG_TYPE_TASK) (λ r _, r.1 ≠ -1 → ∃ d', r.2 = Some d' ∧ P d d') s.

Lemma keeps_task P ok f :
  (∀ d val s, ok val → wlp (f d val) (λ r _, r.1 ≠ -1 → P d r.2) s) → hkeeps P ok (task_handler f).
Proof.
  intros Hf d val s Hok. unfold task_handler. cbn [bool_decide]. rewrite bool_decide_eq_true_2 by done.
  apply wlp_bind. eapply wlp_mono; [|by apply Hf]. intros [r d'] s' Hr. apply wlp_ret. simpl in *. eauto.
Qed.

Lemma apply_keeps P `{!PreOrder P} (ok : string → string → Prop) incl type import dupl src d s :
  (∀ row, row ∈ crinitTaskCfgMap incl → (type = CRINIT_TASK_TYPE_INCLUDE → includeSafe row = true) →
     hkeeps P (ok (configKey row)) (cfgHandler row)) →
  Forall (λ kv, ok kv.1 kv.2) src →
  wlp (apply_settings (crinitTaskCfgMap incl) type import dupl src d) (λ r _, r.1 ≠ -1 → P d r.2) s.
Proof.
  intros Hrows Hsrc. revert dupl d s. induction Hsrc as [|[key val] src Hok Hsrc IH]; intros dupl d s.
  { by apply wlp_ret. }
  cbn [apply_settings]. destruct (crinitFindConfigMapping _ key) as [row|] eqn:Ef; [|apply IH].
  apply find_task_In in Ef as [Hin <-]. simpl in Hok.
  destruct (negb (includeSafe row) && _) eqn:Es; [by apply wlp_ret|].
  destruct (negb (arrayLike row) && _); [by apply wlp_ret|].
  assert (hkeeps P (ok (configKey row)) (cfgHandler row)) as Hk.
  { apply Hrows; [done|]. intros ->. by destruct (includeSafe row). }
  apply wlp_bind. apply (wlp_mono _ (λ r _, r.1 ≠ -1 → P d r.2)).
  { intros [r d1] s1 Hr. destruct (Z.eqb_spec r (-1)) as [->|Hne]; [by apply wlp_ret|].
    eapply wlp_mono; [|apply IH]. intros r2 s2 H2 Hr2. etrans; [by apply Hr|auto]. }
  destruct (import (cm_config row)); [|by apply wlp_ret].
  apply wlp_bind. eapply wlp_mono; [|by apply Hk]. intros [r d'] s1 Hr. apply wlp_ret. intros Hne.
  destruct (Hr Hne) as (d1 & E & Hd). simpl in *. by rewrite E.
Qed.

Lemma merge_keeps P `{!PreOrder P} incl d src l s :
  (∀ row, row ∈ crinitTaskCfgMap incl → includeSafe row = true → hkeeps P (λ _, True) (cfgHandler row)) →
  wlp (crinitTaskMergeInclude incl d src l) (λ r _, r.1 ≠ -1 → P d r.2) s.
Proof.
  intros Hrows. unfold crinitTaskMergeInclude. apply wlp_bind_any. intros [dir|] s1; [|by apply wlp_ret].
  apply wlp_bind_any. intros [suf|] s2; [|by apply wlp_ret]. apply wlp_bind_any. intros [] s3; [by apply wlp_ret|].
  apply wlp_bind_any. intros [conf|] s4; [|by apply wlp_ret]. unfold crinitTaskSetFromConfKvList.
  destruct (import_set _ _ _); [|by apply wlp_ret]. apply (apply_keeps P (λ _ _, True)).
  - intros row Hin Hsafe. by apply Hrows, Hsafe.
  - by apply Forall_true.
Qed.

Lemma include_keeps P `{!PreOrder P} depth :
  (∀ incl row, row ∈ crinitTaskCfgMap incl → includeSafe row = true → hkeeps P (λ _, True) (cfgHandler row)) →
  hkeeps P (λ _, True) (crinitTaskIncludeHandler depth).
Proof.
  intros Hrows. destruct depth as [|depth]; [by intros d val s _|]. cbn [crinitTaskIncludeHandler].
  apply keeps_task. intros d val s _. apply wlp_bind_any.
  intros [[|a [|b [|c l]]]|] s1; try (by apply wlp_ret); by apply merge_keeps, Hrows.
Qed.
End Keeps.

(** The end of a handler: nothing on failure, an assignment on success. *)
Ltac handler_wlp :=
  repeat match goal with
  | |- wlp (_ ≫= _) _ _ => apply wlp_bind_any; intros ? ?
  | |- wlp (let '(_, _) := ?x in _) _ _ => destruct x
  | |- wlp (if ?b then _ else _) _ _ => destruct b eqn:?
  | |- wlp (match ?o with _ => _ end) _ _ => destruct o eqn:?
  | |- wlp (fails _) _ _ => by apply wlp_ret
  | |- wlp (sets _ _) _ _ => apply wlp_ret; intros _
  | |- wlp (mret (-1, _)) _ _ => by apply wlp_ret
  | |- wlp (mret (0, _)) _ _ => apply wlp_ret; intros _
  | |- wlp mundef _ _ => done
  end; simpl.

(** ** Include files *)

(** Everything about a task that an include file must not touch. *)
Record same_identity (d d' : draft) : Prop := {
  si_name : df_name d' = df_name d;
  si_cgroup : df_cgroup d' = df_cgroup d;
  si_cmds : t_cmds (df_task d') = t_cmds (df_task d);
  si_stop : t_stopCmds (df_task d') = t_stopCmds (df_task d);
  si_prv : t_prv (df_task d') = t_prv (df_task d);
  si_opts : t_opts (df_task d') = t_opts (df_task d);
  si_retries : t_maxRetries (df_task d') = t_maxRetries (df_task d);
  si_user : (t_user (df_task d'), t_username (df_task d')) = (t_user (df_task d), t_username (df_task d));
  si_group : (t_group (df_task d'), t_groupname (df_task d'), t_supGroups (df_task d')) =
             (t_group (df_task d), t_groupname (df_task d), t_supGroups (df_task d));
  si_caps : (t_capabilitiesSet (df_task d'), t_capabilitiesClear (df_task d')) =
            (t_capabilitiesSet (df_task d), t_capabilitiesClear (df_task d));
}.

#[export] Instance same_identity_preorder : PreOrder same_identity.
Proof.
  split; [by intros d; split|].
  intros a b c [] []. split; congruence.
Qed.

Section IncludeSafety.
Context {S : Type} `{ConfEnv S}.
Notation handler := (crinitConfigHandler S).

Lemma include_rows_keep (incl : handler) row :
  row ∈ crinitTaskCfgMap incl → includeSafe row = true → hkeeps same_identity (λ _, True) (cfgHandler row).
Proof.
  unfold crinitTaskCfgMap. intros Hin Hsafe.
  repeat (apply elem_of_cons in Hin as [->|Hin]; [try done; simpl; clear Hsafe|]); [..|by apply elem_of_nil in Hin].
  1,4,5: apply keeps_task; intros d val s _; handler_wlp; try done; by split.
  - intros d val s _. unfold crinitCfgEnvHandler, env_handler. apply wlp_bind_any. intros [r es] s1. apply wlp_ret.
    intros _. eexists. split; [done|by split].
  - intros d val s _. unfold crinitCfgFilterHandler. destruct ENABLE_ELOS; [|by apply wlp_ret].
    unfold env_handler. apply wlp_bind_any. intros [r es] s1. apply wlp_ret. intros _. eexists. split; [done|by split].
Qed.

(** C10: whatever an include file contains, merging it into a task leaves the
    name of the task, its commands, user and groups, capabilities, cgroup,
    provided features and respawn options as they were. *)
Theorem crinitTaskMergeInclude_safe incl d src importList s :
  wlp (crinitTaskMergeInclude incl d src importList) (λ r _, r.1 ≠ -1 → same_identity d r.2) s.
Proof. apply merge_keeps; [apply _|]. apply include_rows_keep. Qed.
End IncludeSafety.

(** ** The tasks that are created *)

(** A command line with at least one argument. *)
Definition has_argument (val : string) : Prop := count_args (Datatypes.S (String.length val)) val true ≠ Some O.

(** The settings for which every created task is well formed. *)
Definition sound_setting (key val : string) : Prop :=
  key ≠ "CGROUP_NAME"%string ∧ (key = "COMMAND"%string ∨ key = "STOP_COMMAND"%string → has_argument val).

Record draft_ok (d : draft) : Prop := {
  do_cmds : Forall (λ c, argv c ≠ []) (t_cmds (df_task d));
  do_stop : Forall (λ c, argv c ≠ []) (t_stopCmds (df_task d));
  do_env : env_ok (t_taskEnv (df_task d));
  do_filters : env_ok (t_elosFilters (df_task d));
  do_cgroup : df_cgroup d = None;
  do_fresh : t_state (df_task d) = CRINIT_TASK_STATE_LOADED ∧ t_pid (df_task d) = -1 ∧
             t_failCount (df_task d) = 0 ∧ t_inhibitRespawn (df_task d) = false;
}.
Definition preserves (d d' : draft) : Prop := draft_ok d → draft_ok d'.

#[export] Instance preserves_preorder : PreOrder preserves.
Proof. unfold preserves. split; [by intros d|]. intros a b c; auto. Qed.

Section Created.
Context {S : Type} `{ConfEnv S}.
Notation handler := (crinitConfigHandler S).

(** The array conversion: a text with an argument has one. *)
Lemma str_arr_argument val (s : S) :
  has_argument val → wlp (crinitConfConvToStrArr val true) (λ r _, r ≠ Some []) s.
Proof.
  intros Hv. unfold crinitConfConvToStrArr. apply wlp_bind_any. intros [] s1; [by apply wlp_ret|].
  unfold has_argument in Hv. destruct (count_args _ _ _) as [n|]; [|by apply wlp_ret].
  apply wlp_bind_any. intros [] s2; [by apply wlp_ret|].
  destruct (Nat.eqb_spec n 0) as [->|Hn]; [done|]. destruct (collect_args _ _ _) as [args| |]; [|by apply wlp_ret|done].
  destruct (Nat.eqb_spec (length args) n) as [E|_]; apply wlp_ret; [|done]. intros [= ->]. simpl in E. congruence.
Qed.

Lemma env_keeps m get set d val (s : S) :
  (draft_ok d → env_ok (get (df_task d))) →
  (∀ es, env_ok es → draft_ok d → draft_ok (on_task (set es) d)) →
  wlp (env_handler m get set (Some d) val CRINIT_CONFIG_TYPE_TASK)
    (λ r _, r.1 ≠ -1 → ∃ d', r.2 = Some d' ∧ preserves d d') s.
Proof.
  intros Hget Hset. unfold env_handler. apply wlp_bind.
  apply (wlp_mono _ (λ r _, draft_ok d → r.1 ≠ -1 → env_ok r.2)).
  - intros [r es] s1 Hes. apply wlp_ret. simpl in *. intros Hr. eexists. split; [done|]. intros Hd.
    apply Hset; [|done]. apply Hes; [done|]. intros ->. done.
  - unfold wlp. destruct (crinitConfConvToEnvSetMember _ _ s) as [r s'| |] eqn:E; [|done..]. intros Hd.
    by apply (wlp_elim _ _ _ _ _ (env_member_ok _ val s (Hget Hd)) E).
Qed.

Lemma group_entries_keep i entries t (s : S) :
  wlp (group_entries i entries t) (λ r _, ∀ t' d, r = Some t' → draft_ok (on_task (λ _, t) d) → draft_ok (on_task (λ _, t') d)) s.
Proof.
  assert (∀ i gid name t d, draft_ok (on_task (λ _, t) d) → draft_ok (on_task (λ _, put_group i gid name t) d)) as Hp.
  { intros [|j] gid name t' d [????? Hf]; by split. }
  revert i t s. induction entries as [|e entries IH]; intros i t s; cbn [group_entries].
  { apply wlp_ret. by intros t' d [= ->]. }
  assert (∀ gid name s1, wlp (group_entries (Datatypes.S i) entries (put_group i gid name t))
    (λ r _, ∀ t' d, r = Some t' → draft_ok (on_task (λ _, t) d) → draft_ok (on_task (λ _, t') d)) s1) as Hnext.
  { intros gid name s1. eapply wlp_mono; [|apply IH]. intros r s2 Hr t' d E Hd. eapply Hr; [done|]. by apply Hp. }
  destruct (starts_alpha e).
  - apply wlp_bind_any. intros [gid|] s0; [|apply IH]. apply wlp_bind_any. intros [] s1; [by apply wlp_ret|apply Hnext].
  - destruct (parse_id e); [|by apply wlp_ret]. apply wlp_bind_any. intros [name|] s1; [apply Hnext|by apply wlp_ret].
Qed.

Lemma cmd_keeps (f : crinitTaskCmd → crinitTask → crinitTask) d val (s : S) :
  has_argument val →
  (∀ c, argv c ≠ [] → preserves d (on_task (f c) d)) →
  wlp (oom ← fallible; if (oom : bool) then fails d else
       arr ← crinitConfConvToStrArr val true;
       match arr with None => fails d | Some a => sets d (f (mkCmd a)) end)
    (λ r _, r.1 ≠ -1 → preserves d r.2) s.
Proof.
  intros Hv Hf. apply wlp_bind_any. intros [] s1; [by apply wlp_ret|]. apply wlp_bind.
  eapply wlp_mono; [|by apply str_arr_argument]. intros [a|] s2 Ha; apply wlp_ret; [|done].
  intros _. apply Hf. simpl. congruence.
Qed.

Lemma group_keeps d val (s : S) :
  wlp (crinitCfgGroupHandler (Some d) val CRINIT_CONFIG_TYPE_TASK)
    (λ r _, r.1 ≠ -1 → ∃ d', r.2 = Some d' ∧ preserves d d') s.
Proof.
  apply (keeps_task preserves (λ _, True)); [|done]. clear d val s. intros d val s _.
  apply wlp_bind_any. intros [entries|] s1; [|by apply wlp_ret].
  apply wlp_bind_any. intros oom s2. cbv zeta. destruct oom; [by apply wlp_ret|]. apply wlp_bind.
  eapply wlp_mono; [|apply group_entries_keep]. intros [t|] s3 Ht; [|by apply wlp_ret].
  destruct (t_groupname t); apply wlp_ret; [|done]. intros _ Hd.
  apply (Ht t d eq_refl). destruct Hd as [????? Hf]. by destruct (1 <? length entries)%nat; split.
Qed.

(** Every handler of the table, INCLUDE apart. *)
Lemma rows_keep (incl : handler) row :
  (includeSafe row = false → hkeeps preserves (λ _, True) incl) → row ∈ crinitTaskCfgMap incl →
  hkeeps preserves (sound_setting (configKey row)) (cfgHandler row).
Proof.
  unfold crinitTaskCfgMap. intros Hincl Hin.
  repeat (apply elem_of_cons in Hin as [->|Hin]; [simpl|]); [..|by apply elem_of_nil in Hin].
  3: by intros d val s [? _].
  4: { apply keeps_task. intros d val s [_ Hv]. apply (cmd_keeps (λ c t, set_t_cmds (t_cmds t ++ [c]) t)); [auto|].
       intros c Hc [????? Hf]. split; try done. simpl. apply Forall_app_2; [done|by repeat constructor]. }
  14: { apply keeps_task. intros d val s [_ Hv]. apply (cmd_keeps (λ c t, set_t_stopCmds (t_stopCmds t ++ [c]) t)); [auto|].
       intros c Hc [????? Hf]. split; try done. simpl. apply Forall_app_2; [done|by repeat constructor]. }
  5: { intros d val s _. apply env_keeps; [apply do_env|]. intros es Hes [????? Hf]. by split. }
  5: { intros d val s _. unfold crinitCfgFilterHandler. destruct ENABLE_ELOS; [|by apply wlp_ret].
       apply env_keeps; [apply do_filters|]. intros es Hes [????? Hf]. by split. }
  5: { intros d val s _. apply group_keeps. }
  5: { intros d val s _. by apply Hincl. }
  3: { apply keeps_task. intros d val s _. apply wlp_bind_any. intros o s1.
       destruct (df_cgroup d) as [r|] eqn:Er; simpl; [|by apply wlp_ret].
       unfold preserves. handler_wlp; try done; intros [????? Hf]; congruence. }
  all: apply keeps_task; intros d val s _; handler_wlp; try done; intros [????? Hf]; by split.
Qed.

Lemma safe_rows_keep (incl : handler) row :
  row ∈ crinitTaskCfgMap incl → includeSafe row = true → hkeeps preserves (λ _, True) (cfgHandler row).
Proof.
  intros Hin Hsafe d val s _. apply (rows_keep incl); [by rewrite Hsafe|done|].
  revert Hsafe. unfold crinitTaskCfgMap in Hin.
  repeat (apply elem_of_cons in Hin as [->|Hin]; [done || (intros _; split; simpl; [done|by intros [?|?]])|]).
  by apply elem_of_nil in Hin.
Qed.

Lemma get_env_ok m (s : S) :
  env_ok (envs (get_opts s) m) →
  wlp (crinitGlobOptGetEnvSet m no_env)
    (λ r s', envs (get_opts s') = envs (get_opts s) ∧ (r.1 ≠ -1 → env_ok r.2)) s.
Proof.
  intros [l Hwf]. unfold crinitGlobOptGetEnvSet. apply wlp_bind.
  apply (wlp_mono _ (λ _ s', envs (get_opts s') = envs (get_opts s))).
  2:{ unfold crinitGlobOptBorrow. apply wlp_bind, wp_wlp, wp_fallible. intros [] fs; [apply wlp_ret; by rewrite opts_faults|].
      apply wlp_bind. unfold wlp, mopts. destruct (opt_locked _); [done|]. unfold mopts_modify.
      by rewrite get_set_opts, opts_faults. }
  intros [] s1 E1. apply wlp_bind. unfold wlp at 1, mopts. rewrite E1.
  apply wlp_bind. eapply wlp_mono; [|apply wp_wlp; by apply (dup_wf no_env (envs (get_opts s) m) l s1)].
  intros [r es] s2 [[[fs ->] _] Hr]. cbv beta iota.
  assert (r ≠ -1 → env_ok es) as Hes. { destruct Hr as [[= -> ->]|(Hr & _)]; [by exists l|done]. }
  apply wlp_bind. unfold crinitGlobOptRemit, wlp at 1, mopts, mbind, M_bind. rewrite opts_faults.
  destruct (opt_locked _); [|done]. unfold mopts_modify, mret, M_ret. unfold wlp. rewrite get_set_opts, opts_faults.
  split; [done|]. simpl. destruct (Z.eqb_spec r (-1)); auto.
Qed.

End Created.

(** ** From a file to a task *)

Definition dep_word (d : crinitTaskDep) : string := (dep_name d +:+ ":" +:+ dep_event d)%string.

(** The settings of a task with a name, commands and dependencies. *)
Definition task_conf (name : string) (cmds : list (list string)) (deps : list crinitTaskDep) : list (string * string) :=
  ("NAME"%string, name) :: ((λ a, ("COMMAND"%string, write_args a)) <$> cmds) ++
  [("DEPENDS"%string, write_words (dep_word <$> deps))].

(** A dependency that can be written: no timers and elos filters, no colon in
    the name. *)
Record dep_plain (d : crinitTaskDep) : Prop := {
  dp_name : dep_name d ≠ EmptyString ∧ str_has ":" (dep_name d) = false;
  dp_event : dep_event d ≠ EmptyString;
  dp_word : is_word (dep_word d);
  dp_special : dep_name d ≠ "@timer"%string ∧ dep_name d ≠ "@elos"%string;
}.

Lemma tok_span_plain c a r : str_has c a = false → tok_span c (a +:+ String c r) = (a, r).
Proof.
  induction a as [|x a IH]; simpl; [by rewrite is_delim_delim|]. rewrite str_has_cons.
  intros [Hx Ha]%orb_false_iff. unfold is_delim. rewrite Hx. by rewrite IH.
Qed.

Lemma tok_span_all c a : str_has c a = false → tok_span c a = (a, EmptyString).
Proof.
  induction a as [|x a IH]; simpl; [done|]. rewrite str_has_cons.
  intros [Hx Ha]%orb_false_iff. unfold is_delim. rewrite Hx. by rewrite IH.
Qed.

Lemma strtok_first c x a r : str_has c (String x a) = false → strtok c (String x a +:+ r) = Some (tok_span c (String x a +:+ r)).
Proof.
  rewrite str_has_cons. intros [Hx _]%orb_false_iff. unfold strtok. cbn [String.append tok_skip].
  unfold is_delim. by rewrite Hx.
Qed.

Lemma parse_dep_word d : dep_plain d → parse_dep (dep_word d) = DepOk d.
Proof.
  intros [[Hn Hc] He (_ & _ & Hw) _]. unfold parse_dep, dep_word in *. destruct d as [[|x n] e]; [done|]. cbn [dep_name dep_event] in *.
  change (String x n +:+ ":" +:+ e)%string with (String x n +:+ String ":" e)%string in *.
  assert (str_has " " e = false) as Hsp.
  { apply not_true_is_false. intros Hs. destruct (Hw " "%char) as [Hq _]; [|done].
    cbn [String.append]. rewrite str_has_cons, str_has_app, str_has_cons, Hs. by rewrite !orb_true_r. }
  rewrite (strtok_first ":" x n), tok_span_plain by done.
  assert (starts_with ":" (String x n +:+ String ":" e) = false) as ->.
  { rewrite str_has_cons in Hc. by apply orb_false_iff in Hc as [Hx _]. }
  destruct e as [|y e]; [done|]. rewrite <- (string_app_nil_r (String y e)) at 1.
  rewrite (strtok_first " " y e), string_app_nil_r, tok_span_all by done.
  assert (starts_with " " (String y e) = false) as ->; [|done].
  rewrite str_has_cons in Hsp. by apply orb_false_iff in Hsp as [Hx _].
Qed.

Section Load.
Context {S : Type} `{ConfEnv S}.
Notation handler := (crinitConfigHandler S).
Implicit Types s : S.

Lemma run_task_handler f d val s r d' s' :
  f d val s = Ret (r, d') s' → task_handler f (Some d) val CRINIT_CONFIG_TYPE_TASK s = Ret (r, Some d') s'.
Proof.
  intros E. unfold task_handler. rewrite bool_decide_eq_true_2 by done. by rewrite (bind_run _ _ _ _ _ E).
Qed.

(** One setting whose handler succeeds. *)
Lemma apply_step (incl : handler) dupl key val src row d d' s :
  crinitFindConfigMapping (crinitTaskCfgMap incl) key = Some row →
  arrayLike row = true ∨ dupl (cm_config row) = false →
  cfgHandler row (Some d) val CRINIT_CONFIG_TYPE_TASK s = Ret (0, Some d') s →
  apply_settings (crinitTaskCfgMap incl) CRINIT_TASK_TYPE_STANDARD (λ _, true) dupl ((key, val) :: src) d s =
  apply_settings (crinitTaskCfgMap incl) CRINIT_TASK_TYPE_STANDARD (λ _, true)
    (<[cm_config row := true]> dupl) src d' s.
Proof.
  intros Ef Hd Eh. cbn [apply_settings]. rewrite Ef. rewrite bool_decide_eq_false_2, andb_false_r by done.
  assert (negb (arrayLike row) && dupl (cm_config row) = false) as ->.
  { destruct Hd as [-> | ->]; [done|by rewrite andb_false_r]. }
  rewrite (bind_run _ _ s (0, d') s); [done|]. by rewrite (bind_run _ _ _ _ _ Eh).
Qed.

Lemma apply_cmds (incl : handler) cmds dupl src d s :
  quiet s → Forall (Forall (λ a, no_nul a = true)) cmds →
  ∃ dupl',
  apply_settings (crinitTaskCfgMap incl) CRINIT_TASK_TYPE_STANDARD (λ _, true) dupl
    (((λ a, ("COMMAND"%string, write_args a)) <$> cmds) ++ src) d s =
  apply_settings (crinitTaskCfgMap incl) CRINIT_TASK_TYPE_STANDARD (λ _, true) dupl' src
    (on_task (λ t, set_t_cmds (t_cmds t ++ (mkCmd <$> cmds)) t) d) s.
Proof.
  intros Hq Hc. revert dupl d. induction Hc as [|a cmds Ha Hc IH]; intros dupl d.
  { exists dupl. simpl. unfold on_task. rewrite app_nil_r. by destruct d as [? ? []]. }
  cbn [fmap list_fmap app].
  erewrite (apply_step incl dupl "COMMAND" _ _ _ d); [|reflexivity|by left|].
  2:{ apply run_task_handler. rewrite bind_fallible by done. by rewrite (bind_run _ _ _ _ _ (run_written a s Ha Hq)). }
  edestruct IH as [dupl' ->]. exists dupl'. unfold on_task. simpl. by rewrite <- app_assoc.
Qed.

Lemma run_deps deps s :
  quiet s → Forall dep_plain deps → dep_entries (dep_word <$> deps) s = Ret (Some deps) s.
Proof.
  intros Hq. induction 1 as [|d deps Hd Hds IH]; [done|]. cbn [fmap list_fmap dep_entries].
  rewrite bind_fallible by done. rewrite parse_dep_word by done. destruct (dp_special _ Hd) as [Ht He].
  rewrite (proj2 (str_eqb_false _ _) Ht), (proj2 (str_eqb_false _ _) He), andb_false_r.
  rewrite (bind_run _ _ _ tt s) by done. by rewrite (bind_run _ _ _ _ _ IH).
Qed.

Lemma run_dep_list deps s :
  quiet s → Forall dep_plain deps → crinitDepListHandler (write_words (dep_word <$> deps)) s = Ret (Some deps) s.
Proof.
  intros Hq Hd. unfold crinitDepListHandler.
  assert (Forall is_word (dep_word <$> deps)) as Hw.
  { apply Forall_fmap. eapply Forall_impl; [done|]. intros d. apply dp_word. }
  rewrite (bind_run _ _ _ _ _ (run_words _ s Hw Hq)). destruct deps as [|d deps]; [done|].
  cbn [fmap list_fmap]. rewrite bind_fallible by done. by apply (run_deps (d :: deps)).
Qed.

Lemma run_get_env m v s :
  settled s → crinitGlobOptGetEnvSet m v s = Ret (0, envs (get_opts s) m) s.
Proof.
  intros [Hq Hu Hok He]. unfold crinitGlobOptGetEnvSet. rewrite (bind_run _ _ _ _ _ (run_borrow s Hq Hu)).
  set (s1 := set_opts _ s). assert (get_opts s1 = set_opt_locked true (get_opts s)) as E1 by apply get_set_opts.
  rewrite (bind_run mopts _ s1 (get_opts s1) s1) by done. rewrite E1. simpl.
  assert (quiet s1) as Hq1 by (unfold s1; by rewrite quiet_opts).
  rewrite (bind_run _ _ _ _ _ (dup_ok v _ s1 (He m) Hq1)). cbv beta iota.
  rewrite (bind_run _ _ _ _ _ (run_remit s1 ltac:(by rewrite E1))). rewrite E1. unfold s1.
  rewrite set_set_opts. unfold mret, M_ret. f_equal.
  assert (set_opt_locked false (set_opt_locked true (get_opts s)) = get_opts s) as ->; [|apply set_get_opts].
  by destruct (get_opts s); simpl in *; subst.
Qed.

(** The task with these settings and nothing else. *)
Definition plain_task (name : string) (cmds : list (list string)) (deps : list crinitTaskDep)
    (env filters : crinitEnvSet) (created : timespec) : crinitTask :=
  mkTask name (mkCmd <$> cmds) [] env filters deps [] true [] 0 0 (-1) [] (-1) 0 false
    created (mkTimespec 0 0) (mkTimespec 0 0) 0 0 [] None None 0 0 None.

Lemma run_create name cmds deps s :
  settled s → Forall (Forall (λ a, no_nul a = true)) cmds → Forall dep_plain deps → cmds ≠ [] ∨ deps ≠ [] →
  ∃ created, crinitTaskCreateFromConfKvList 1 (task_conf name cmds deps) s =
    Ret (Some (plain_task name cmds deps (envs (get_opts s) ENV) (envs (get_opts s) FILTERS) created)) s.
Proof.
  intros Hs Hc Hd Hne. pose proof Hs as [Hq _ _ _]. unfold crinitTaskCreateFromConfKvList.
  rewrite bind_fallible by done. cbv zeta. rewrite (bind_run _ _ _ _ _ (run_get_env ENV no_env s Hs)). cbv beta iota.
  change (0 =? -1) with false. cbv iota. rewrite (bind_run _ _ _ _ _ (run_get_env FILTERS no_env s Hs)).
  cbv beta iota. change (0 =? -1) with false. cbv iota.
  destruct (wp_elim _ _ _ (clock_now_ok s)) as (now & s' & En & _ & Es). rewrite (Es Hq) in En.
  exists (default (mkTimespec 0 0) now). unfold crinitTaskSetFromConfKvList, task_conf. simpl import_set. cbv beta iota.
  set (d0 := on_task _ _). erewrite (bind_run _ _ s (0, _) s).
  2:{ erewrite (apply_step _ _ "NAME" _ _ _ d0); [|reflexivity|by right|].
      2:{ apply run_task_handler. by rewrite bind_fallible. }
      edestruct (apply_cmds (crinitTaskIncludeHandler 1) cmds) as [dupl' ->]; [done|done|].
      erewrite (apply_step _ _ "DEPENDS"); [reflexivity|reflexivity|by left|].
      apply run_task_handler. by rewrite (bind_run _ _ _ _ _ (run_dep_list deps s Hq Hd)). }
  cbv beta iota. change (0 =? -1) with false. cbv iota. cbn [df_name on_task df_task].
  match goal with |- (if ?b then _ else _) _ = _ => assert (b = false) as -> end.
  { destruct Hne as [Hne|Hne]; [by destruct cmds|]. destruct deps; [done|]. by rewrite andb_false_r. }
  rewrite (bind_run _ _ _ _ _ En). rewrite (bind_run mopts _ s (get_opts s) s) by done. done.
Qed.

(** C8: a task file in which the name, the command lines (quoted and escaped)
    and the dependencies of a task are written out, one setting per line, is
    read and turned into the task with exactly these commands and dependencies,
    in order, and the defaults for everything else. *)
Theorem task_file_roundtrip file name cmds deps s :
  settled s → bools (get_opts s) SIGNATURES = false →
  Forall (Forall (λ a, no_nul a = true)) cmds → Forall dep_plain deps → cmds ≠ [] ∨ deps ≠ [] →
  Forall setting_ok (task_conf name cmds deps) →
  read_file file s = Ret (Some (conf_text (task_conf name cmds deps))) s →
  ∃ created,
    (conf ← crinitParseConf file;
     match conf with Some conf => crinitTaskCreateFromConfKvList 1 conf | None => mret None end) s =
    Ret (Some (plain_task name cmds deps (envs (get_opts s) ENV) (envs (get_opts s) FILTERS) created)) s.
Proof.
  intros Hs Hsig Hc Hd Hne Hok Hf. destruct (run_create name cmds deps s Hs Hc Hd Hne) as [created E].
  exists created. rewrite (bind_run _ _ s (Some (task_conf name cmds deps)) s); [done|].
  by apply run_parse_conf.
Qed.
End Load.

(** ** Settings that may be given once *)

Definition occurrences (key : string) (conf : list (string * string)) : nat :=
  length (filter (λ kv, kv.1 = key) conf).

Section Once.
Context {S : Type} `{ConfEnv S}.
Notation handler := (crinitConfigHandler S).

Lemma configs_unique (incl : handler) : NoDup (cm_config <$> crinitTaskCfgMap incl).
Proof. apply (bool_decide_eq_true_1 (NoDup (cm_config <$> crinitTaskCfgMap incl))). reflexivity. Qed.

Lemma row_of_config (incl : handler) a b :
  a ∈ crinitTaskCfgMap incl → b ∈ crinitTaskCfgMap incl → cm_config a = cm_config b → a = b.
Proof.
  intros [i Hi]%list_elem_of_lookup [j Hj]%list_elem_of_lookup E.
  assert (i = j) as ->; [|congruence].
  eapply (NoDup_lookup _ _ _ (cm_config a) (configs_unique incl)); rewrite list_lookup_fmap; [by rewrite Hi|].
  by rewrite Hj, E.
Qed.

Lemma apply_once (incl : handler) type import dupl src d s :
  wlp (apply_settings (crinitTaskCfgMap incl) type import dupl src d)
    (λ r _, r.1 ≠ -1 → ∀ key row,
       crinitFindConfigMapping (crinitTaskCfgMap incl) key = Some row → arrayLike row = false →
       (occurrences key src + (if dupl (cm_config row) then 1 else 0) ≤ 1)%nat) s.
Proof.
  revert dupl d s. induction src as [|[k v] src IH]; intros dupl d s.
  { apply wlp_ret. intros _ key row _ _. unfold occurrences. simpl. destruct (dupl _); lia. }
  cbn [apply_settings]. destruct (crinitFindConfigMapping _ k) as [row|] eqn:Ek.
  2:{ eapply wlp_mono; [|apply IH]. intros r s1 Hr Hne key row Ekey Ha. unfold occurrences.
      rewrite filter_cons_False; [by apply Hr|]. simpl. intros ->. congruence. }
  destruct (negb (includeSafe row) && _); [by apply wlp_ret|].
  destruct (negb (arrayLike row) && _) eqn:Ed; [by apply wlp_ret|].
  apply wlp_bind_any. intros [r d1] s1. destruct (Z.eqb_spec r (-1)); [by apply wlp_ret|].
  eapply wlp_mono; [|apply IH]. intros r2 s2 Hr2 Hne key row' Ekey Ha. specialize (Hr2 Hne key row' Ekey Ha).
  unfold occurrences in *. destruct (decide (k = key)) as [->|Hk].
  - rewrite Ekey in Ek. injection Ek as ->. rewrite filter_cons_True by done. simpl length.
    rewrite fn_lookup_insert in Hr2. rewrite Ha in Ed. simpl in Ed. rewrite Ed. lia.
  - rewrite filter_cons_False by done. destruct (decide (cm_config row = cm_config row')) as [E|Hc].
    + exfalso. apply find_task_In in Ek as [Hin Hkey], Ekey as [Hin' Hkey'].
      rewrite (row_of_config _ _ _ Hin Hin' E) in Hkey. congruence.
    + by rewrite fn_lookup_insert_ne in Hr2.
Qed.

(** A task is only created from settings in which every key that is not
    array-like (NAME, USER, RESPAWN and the like) is given at most once. *)
Theorem crinitTaskCreateFromConfKvList_once depth conf s :
  wlp (crinitTaskCreateFromConfKvList depth conf)
    (λ r _, is_Some r → ∀ key row,
       crinitFindConfigMapping (crinitTaskCfgMap (crinitTaskIncludeHandler depth)) key = Some row →
       arrayLike row = false → (occurrences key conf ≤ 1)%nat) s.
Proof.
  assert (∀ d (s0 : S) (Q : Prop), wlp (free_draft d ;; mret (None : option crinitTask)) (λ r _, is_Some r → Q) s0) as Hfail.
  { intros d s0 Q. apply wlp_bind_any. intros [] s1. apply wlp_ret. by intros []. }
  unfold crinitTaskCreateFromConfKvList. apply wlp_bind_any. intros [] s1; [apply wlp_ret; by intros []|]. cbv zeta.
  apply wlp_bind_any. intros [r env] s2. destruct (r =? -1); [apply Hfail|].
  apply wlp_bind_any. intros [r2 filters] s3. destruct (r2 =? -1); [apply Hfail|].
  apply wlp_bind. eapply wlp_mono; [|apply apply_once]. intros [r3 d] s4 Hr. simpl in Hr.
  destruct (Z.eqb_spec r3 (-1)) as [|Hne]; [apply Hfail|]. specialize (Hr Hne).
  destruct (df_name d); [|apply Hfail]. destruct (Nat.eqb _ _ && _); [apply Hfail|].
  apply wlp_bind_any. intros now s5. apply wlp_bind_any. intros o s6. apply wlp_ret. intros _ key row Hf Ha.
  specialize (Hr key row Hf Ha). lia.
Qed.
End Once.

(** ** Witnesses *)

Record confd := mkConfd {
  cf_faults : list bool;
  cf_opts : crinitGlobOptStore;
  cf_pool : crinitTimerDB;
  cf_files : list (string * string);
}.

#[export, refine] Instance confd_faulty : Faulty confd := {|
  faults := cf_faults;
  set_faults := λ l s, mkConfd l (cf_opts s) (cf_pool s) (cf_files s);
  idle := λ s, opt_locked (cf_opts s) = false;
|}.
Proof. all: done || by intros []. Defined.

#[export, refine] Instance confd_opts : OptState confd := {|
  get_opts := cf_opts;
  set_opts := λ o s, mkConfd (cf_faults s) o (cf_pool s) (cf_files s);
|}.
Proof. all: done || by intros []. Defined.

#[export, refine] Instance confd_files : ConfFiles confd := {|
  read_file := λ path s, Ret (snd <$> find (λ f, str_eqb f.1 path) (cf_files s)) s;
  SIGNATURE_SUPPORT := false;
  open_file := λ path s, Ret (snd <$> find (λ f, str_eqb f.1 path) (cf_files s)) s;
  uninitialised := λ n, string_of_list_ascii (replicate n zero);
  crinitVerifySignature := λ _ _, mret (-1);
|}.
Proof. induction n as [|n IH]; simpl; congruence. Defined.

#[export, refine] Instance confd_pool : TimerState confd := {|
  get_pool := cf_pool;
  set_pool := λ p s, mkConfd (cf_faults s) (cf_opts s) p (cf_files s);
  now := λ _, mkTimespec 9 0;
|}.
Proof. all: done || by intros []. Defined.

#[export, refine] Instance confd_env : ConfEnv confd := {|
  ENABLE_ELOS := false;
  getpwnam := λ n, if str_eqb n "root" then Some 0 else None;
  getpwuid := λ u, if u =? 0 then Some "root"%string else None;
  getgrnam := λ n, if str_eqb n "root" then Some 0 else None;
  getgrgid := λ g, if g =? 0 then Some "root"%string else None;
  lookup_capability := λ _, None;
  errno_set := λ _, false;
  clock_now := mret (Some (mkTimespec 7 0));
|}.
Proof. intros s. by apply wp_ret. Defined.

Definition demo_confd (files : list (string * string)) : confd :=
  mkConfd [] demo_opts (mkPool 8 [] true false ∅ 0) files.

Lemma demo_confd_settled files : settled (demo_confd files).
Proof. destruct demo_settled as [H1 H2 H3 H4]. by split. Qed.

Definition demo_conf : list (string * string) :=
  task_conf "net" [["/sbin/ip"; "link set up"]]%string [mkDep "fs" "wait"].

Lemma demo_conf_ok : Forall setting_ok demo_conf.
Proof.
  unfold demo_conf, task_conf. cbn [fmap list_fmap app].
  repeat (constructor; [constructor; [constructor; [reflexivity|apply str_none_forallb; reflexivity|split; reflexivity]
    |reflexivity|apply str_none_forallb; reflexivity|split; reflexivity|apply Nat.ltb_lt; vm_compute; reflexivity]|]).
  constructor.
Qed.

Lemma demo_dep_plain : dep_plain (mkDep "fs" "wait").
Proof.
  split; try done. split; [done|]. split; [done|]. unfold dep_word. simpl.
  repeat (apply word_cons; split; [done|]). done.
Qed.

Lemma task_file_roundtrip_witness :
  ∃ created,
    (conf ← crinitParseConf "/etc/crinit/net.crinit";
     match conf with Some conf => crinitTaskCreateFromConfKvList 1 conf | None => mret None end)
      (demo_confd [("/etc/crinit/net.crinit", conf_text demo_conf)]%string) =
    Ret (Some (plain_task "net" [["/sbin/ip"; "link set up"]]%string [mkDep "fs" "wait"] demo_no_env demo_no_env created))
      (demo_confd [("/etc/crinit/net.crinit", conf_text demo_conf)]%string).
Proof.
  destruct (task_file_roundtrip "/etc/crinit/net.crinit" "net" [["/sbin/ip"; "link set up"]]%string [mkDep "fs" "wait"]
    (demo_confd [("/etc/crinit/net.crinit", conf_text demo_conf)]%string)) as [created E].
  - apply demo_confd_settled.
  - reflexivity.
  - repeat constructor.
  - constructor; [exact demo_dep_plain|constructor].
  - left. discriminate.
  - exact demo_conf_ok.
  - reflexivity.
  - exists created. exact E.
Defined.

