(* ===== verification/ConfGlob.v ===== *)
(** * Global settings: the other handlers of src/confhdl.c, the series and kernel
    command line tables of src/confmap.c, crinitLoadSeriesConf() of
    src/confparse.c, src/kcmdline.c

    The series file and the kernel command line set the global options, one
    handler call per setting. *)

From Stdlib Require Import ZArith Lia Bool List String Ascii.
From stdpp Require Import base functions list strings gmap.
From S2P Require Import Prelude CString EnvSet Timer Task TaskDB TimerDB Lexers ConfConv Ini GlobOpt Cgroup ConfParse.
From S2P Require Import ConfTask.

Open Scope Z_scope.
Open Scope crinit_scope.

#[local] Arguments String.append : simpl nomatch.

(** ** What the handlers ask the file system *)

Class SeriesEnv (S : Type) `{ConfEnv S} := {
  stat_mode : string → M S (option Z);  (* st_mode; None: stat() fails *)
  stat_mode_ok : ∀ path s, wp (stat_mode path) (λ _ s', only_faults s s') s;
}.

Definition S_IFMT : Z := 61440.
Definition S_IFDIR : Z := 16384.
Definition S_IFREG : Z := 32768.
Definition S_IXUSR : Z := 64.
Definition S_ISDIR (mode : Z) : bool := Z.land mode S_IFMT =? S_IFDIR.
Definition S_ISREG (mode : Z) : bool := Z.land mode S_IFMT =? S_IFREG.

(** ** Handlers *)

Section Handlers.
Context {S : Type} `{SeriesEnv S}.
Notation handler := (crinitConfigHandler S).

Definition crinitDirExists (path : string) : M S bool :=
  st ← stat_mode path;
  mret match st with None => false | Some mode => S_ISDIR mode end.
Definition crinitFileIsExecutable (path : string) : M S bool :=
  st ← stat_mode path;
  mret match st with None => false | Some mode => if S_ISREG mode then mode &? S_IXUSR else false end.

(** crinitCfgHandlerTypeCheck() of a handler without a target. *)
Definition global_handler (expected : crinitConfigType) (f : string → M S Z) : handler := λ tgt val type,
  if bool_decide (type = expected) then r ← f val; mret (r, tgt) else mret (-1, tgt).
Definition series_handler : (string → M S Z) → handler := global_handler CRINIT_CONFIG_TYPE_SERIES.

(** The setter, whose result is only compared with -1. *)
Definition store (set : M S Z) : M S Z := r ← set; mret (if r =? -1 then -1 else 0).

Definition set_bool_text (m : bool_member) (val : string) : M S Z :=
  let '(r, v) := crinitConfConvToBool false val in
  if r =? -1 then mret (-1) else store (crinitGlobOptSetBoolean m v).
Definition set_ull_text (m : ull_member) (val : string) : M S Z :=
  let '(r, v) := crinitConfConvToIntegerULL 0 val 10 in
  if r =? -1 then mret (-1) else store (crinitGlobOptSetUnsignedLL m v).
Definition set_suffix (m : str_member) (val : string) : M S Z :=
  if starts_with "." val then store (crinitGlobOptSetString m val) else mret (-1).
Definition set_path (check : string → M S bool) (m : str_member) (val : string) : M S Z :=
  if negb (crinitIsAbsPath val) then mret (-1) else
  ok ← check val;
  if negb ok then mret (-1) else store (crinitGlobOptSetString m val).

Definition crinitCfgDefaultCapsHandler : handler :=
  series_handler (λ val, store (crinitGlobOptSetString DEFAULTCAPS val)).
Definition crinitCfgDebugHandler : handler := series_handler (set_bool_text DEBUG).
Definition crinitCfgInclSuffixHandler : handler := series_handler (set_suffix INCL_SUFFIX).
Definition crinitCfgInclDirHandler : handler := series_handler (set_path crinitDirExists INCLDIR).
Definition crinitCfgShdGpHandler : handler := series_handler (set_ull_text SHDGRACEP).
Definition crinitCfgTaskSuffixHandler : handler := series_handler (set_suffix TASK_FILE_SUFFIX).
Definition crinitCfgTaskDirHandler : handler := series_handler (set_path crinitDirExists TASKDIR).
Definition crinitCfgTaskDirSlHandler : handler := series_handler (set_bool_text TASKDIR_FOLLOW_SYMLINKS).
Definition crinitCfgSyslogHandler : handler := series_handler (set_bool_text USE_SYSLOG).
Definition crinitCfgElosHandler : handler := λ tgt val type,
  if ENABLE_ELOS then series_handler (set_bool_text USE_ELOS) tgt val type else mret (-1, tgt).
Definition crinitCfgElosServerHandler : handler := series_handler (λ val,
  if ENABLE_ELOS then store (crinitGlobOptSetString ELOS_SERVER val) else mret (-1)).
Definition crinitCfgElosPortHandler : handler := series_handler (λ val,
  if ENABLE_ELOS then
    let '(r, port) := crinitConfConvToIntegerI 0 val 10 in
    if r =? -1 then mret (-1) else store (crinitGlobOptSetInteger ELOS_PORT port)
  else mret (-1)).
Definition crinitCfgElosEventPollIntervalHandler : handler := series_handler (set_ull_text ELOS_EVENT_POLL_INTERVAL).
Definition crinitCfgLauncherCmdHandler : handler := series_handler (set_path crinitFileIsExecutable LAUNCHER_CMD).
Definition crinitCfgSigKeyDirHandler : handler :=
  global_handler CRINIT_CONFIG_TYPE_KCMDLINE (λ val, store (crinitGlobOptSetString SIGKEYDIR val)).
Definition crinitCfgSignaturesHandler : handler :=
  global_handler CRINIT_CONFIG_TYPE_KCMDLINE (set_bool_text SIGNATURES).

(** TASKS: the first list is stored, later ones are appended.  The last element
    of either list is looked at when appending: undefined if there is none.  If
    the second reallocation fails the store keeps a pointer to freed memory. *)
Definition crinitCfgTasksHandler : handler := series_handler (λ val,
  arr ← crinitConfConvToStrArr val true;
  match arr with
  | None => mret (-1)
  | Some new =>
      crinitGlobOptBorrow ;;
      o ← mopts;
      match tasks (lists o) with
      | None => mopts_modify (set_tasks (Some new)) ;; _ ← crinitGlobOptRemit; mret 0
      | Some old =>
          oom ← fallible;
          if (oom : bool) then _ ← crinitGlobOptRemit; mret (-1) else
          match old, new with
          | [], _ | _, [] => mundef
          | _, _ =>
              oom ← fallible;
              if (oom : bool) then mundef else
              mopts_modify (set_tasks (Some (old ++ new))) ;; _ ← crinitGlobOptRemit; mret 0
          end
      end
  end).

(** *** Cgroups *)

Definition crinitCfgCgroupRootNameHandler : handler := series_handler (λ val,
  if str_eqb val EmptyString then mret (-1) else
  crinitGlobOptBorrow ;;
  o ← mopts;
  oom ← match rootCgroup (lists o) with None => fallible | Some _ => mret false end;
  if (oom : bool) then _ ← crinitGlobOptRemit; mret (-1) else
  oom ← fallible;  (* strdup *)
  mopts_modify (set_root (Some (set_cg_name (if (oom : bool) then None else Some val)
    (default new_cgroup (rootCgroup (lists o)))))) ;;
  _ ← crinitGlobOptRemit; mret (if (oom : bool) then -1 else 0)).

(** One parameter more for a group whose configuration exists after this, with
    the mutex held: the group and whether it worked.  A parameter that is not
    understood leaves an element without a file and a value. *)
Definition grow_config (g : crinitCgroup) (param : string) : M S (Z * crinitCgroup) :=
  oom ← match cg_config g with None => fallible | Some _ => mret false end;
  if (oom : bool) then mret (-1, g) else
  let g := set_cg_config (Some (default [] (cg_config g))) g in
  oom ← fallible;  (* realloc *)
  if (oom : bool) then mret (-1, g) else
  p ← crinitCgroupConvertSingleParamToObject param;
  mret (match p with
        | None => (-1, add_param (mkCgroupParam EmptyString EmptyString) g)
        | Some p => (0, add_param p g)
        end).

Definition crinitCfgCgroupRootParamsHandler : handler := series_handler (λ val,
  crinitGlobOptBorrow ;;
  o ← mopts;
  match rootCgroup (lists o) with
  | Some g =>
      match cg_name g with
      | None => _ ← crinitGlobOptRemit; mret (-1)
      | Some _ =>
          '(r, g) ← grow_config g val;
          mopts_modify (set_root (Some g)) ;; _ ← crinitGlobOptRemit; mret r
      end
  | None => _ ← crinitGlobOptRemit; mret (-1)
  end).

(** The new groups; two allocations for each. *)
Fixpoint named_groups (names : list string) : M S (option (list crinitCgroup)) :=
  match names with
  | [] => mret (Some [])
  | n :: names =>
      oom ← fallibleN 2;
      if (oom : bool) then mret None else
      l ← named_groups names; mret (cons (set_cg_name (Some n) new_cgroup) <$> l)
  end.

(** CGROUP_GLOBAL_NAME: an array that exists is kept, whatever its size, and
    written to: undefined if it is too short. *)
Definition crinitCfgCgroupGlobalNameHandler : handler := series_handler (λ val,
  arr ← crinitConfConvToStrArr val true;
  match arr with
  | None | Some [] => mret (-1)
  | Some names =>
      crinitGlobOptBorrow ;;
      o ← mopts;
      oom ← match globCgroups (lists o) with None => fallible | Some _ => mret false end;
      if (oom : bool) then _ ← crinitGlobOptRemit; mret (-1) else
      match globCgroups (lists o) with
      | Some old => if (length old <? length names)%nat then mundef else mret tt
      | None => mret tt
      end ;;
      l ← named_groups names;
      mopts_modify (set_globals l) ;; _ ← crinitGlobOptRemit;
      mret (match l with Some _ => 0 | None => -1 end)
  end).

Definition crinitCfgCgroupGlobalParamsHandler : handler := series_handler (λ val,
  crinitGlobOptBorrow ;;
  o ← mopts;
  r ← match globCgroups (lists o) with
      | None => mret (-1)
      | Some _ =>
          np ← crinitCgroupGlobalParamSplitNameAndParam val;
          match np with
          | None => mret (-1)
          | Some (name, param) =>
              g ← crinitFindCgroupByName (Some name);
              match g with
              | None => mret (-1)
              | Some (i, g) =>
                  '(r, g) ← grow_config g param;
                  mopts_modify (λ o, set_globals (Some (<[i := g]> (global_cgroups o))) o) ;; mret r
              end
          end
      end;
  _ ← crinitGlobOptRemit; mret r).

(** ** Tables and loaders *)

Definition crinitSeriesCfgMap : list (crinitConfigMapping handler) := [
  mkMapping CRINIT_CONFIG_CGROUP_GLOBAL_NAME "CGROUP_GLOBAL_NAME" true false crinitCfgCgroupGlobalNameHandler;
  mkMapping CRINIT_CONFIG_CGROUP_GLOBAL_PARAMS "CGROUP_GLOBAL_PARAMS" true false crinitCfgCgroupGlobalParamsHandler;
  mkMapping CRINIT_CONFIG_CGROUP_ROOT_NAME "CGROUP_ROOT_NAME" false false crinitCfgCgroupRootNameHandler;
  mkMapping CRINIT_CONFIG_CGROUP_ROOT_PARAMS "CGROUP_ROOT_PARAMS" true false crinitCfgCgroupRootParamsHandler;
  mkMapping CRINIT_CONFIG_DEBUG "DEBUG" false false crinitCfgDebugHandler;
  mkMapping CRINIT_CONFIG_DEFAULTCAPS "DEFAULTCAPS" true false crinitCfgDefaultCapsHandler;
  mkMapping CRINIT_CONFIG_ELOS_EVENT_POLL_INTERVAL "ELOS_EVENT_POLL_INTERVAL" false false
    crinitCfgElosEventPollIntervalHandler;
  mkMapping CRINIT_CONFIG_ELOS_PORT "ELOS_PORT" false false crinitCfgElosPortHandler;
  mkMapping CRINIT_CONFIG_ELOS_SERVER "ELOS_SERVER" false false crinitCfgElosServerHandler;
  mkMapping CRINIT_CONFIG_ENV_SET "ENV_SET" true false crinitCfgEnvHandler;
  mkMapping CRINIT_CONFIG_FILTER_DEFINE "FILTER_DEFINE" true false crinitCfgFilterHandler;
  mkMapping CRINIT_CONFIG_INCLUDEDIR "INCLUDEDIR" false false crinitCfgInclDirHandler;
  mkMapping CRINIT_CONFIG_INCLUDE_SUFFIX "INCLUDE_SUFFIX" false false crinitCfgInclSuffixHandler;
  mkMapping CRINIT_CONFIG_LAUNCHER_CMD "LAUNCHER_CMD" false false crinitCfgLauncherCmdHandler;
  mkMapping CRINIT_CONFIG_SHDGRACEP "SHUTDOWN_GRACE_PERIOD_US" false false crinitCfgShdGpHandler;
  mkMapping CRINIT_CONFIG_TASKDIR "TASKDIR" false false crinitCfgTaskDirHandler;
  mkMapping CRINIT_CONFIG_TASKDIR_FOLLOW_SYMLINKS "TASKDIR_FOLLOW_SYMLINKS" false false crinitCfgTaskDirSlHandler;
  mkMapping CRINIT_CONFIG_TASKS "TASKS" true false crinitCfgTasksHandler;
  mkMapping CRINIT_CONFIG_TASK_FILE_SUFFIX "TASK_FILE_SUFFIX" false false crinitCfgTaskSuffixHandler;
  mkMapping CRINIT_CONFIG_USE_ELOS "USE_ELOS" false false crinitCfgElosHandler;
  mkMapping CRINIT_CONFIG_USE_SYSLOG "USE_SYSLOG" false false crinitCfgSyslogHandler ].

Definition crinitKCmdlineCfgMap : list (crinitConfigMapping handler) := [
  mkMapping CRINIT_CONFIG_SIGKEYDIR "sigkeydir" false false crinitCfgSigKeyDirHandler;
  mkMapping CRINIT_CONFIG_SIGNATURES "signatures" false false crinitCfgSignaturesHandler ].

(** The loop of crinitLoadSeriesConf(): the keys met, or [None] on error. *)
Fixpoint apply_series (src : list (string * string)) (dupl : crinitConfigs → bool) :
    M S (option (crinitConfigs → bool)) :=
  match src with
  | [] => mret (Some dupl)
  | (key, val) :: src =>
      match crinitFindConfigMapping crinitSeriesCfgMap key with
      | None => apply_series src dupl  (* a warning *)
      | Some scm =>
          if negb (arrayLike scm) && dupl (cm_config scm) then mret None else
          '(r, _) ← cfgHandler scm None val CRINIT_CONFIG_TYPE_SERIES;
          if r =? -1 then mret None else apply_series src (<[cm_config scm := true]> dupl)
      end
  end.

Definition crinitLoadSeriesConf (filename : string) : M S Z :=
  if negb (crinitIsAbsPath filename) then mret (-1) else
  c ← crinitParseConf filename;
  match c with
  | None => mret (-1)
  | Some c =>
      r ← apply_series c (λ _, false);
      match r with
      | None => mret (-1)
      | Some dupl =>
          taskDir ← crinitGlobOptGetString TASKDIR;
          match taskDir with
          | None => mret (-1)
          | Some taskDir =>
              if (dupl : crinitConfigs → bool) CRINIT_CONFIG_INCLUDEDIR then mret 0 else
              '(r, _) ← crinitCfgInclDirHandler None taskDir CRINIT_CONFIG_TYPE_SERIES;
              mret (if r =? -1 then -1 else 0)
          end
      end
  end.
End Handlers.

(** ** The kernel command line *)

Definition CRINIT_KCMDLINE_MAX_LEN : nat := 4096.

(** A token with the key and the value of a setting. *)
Inductive kcmd_token := KEnd | KSpace (r : string) | KChar (r : string) | KVar (key val r : string).

(** "crinit." varname "=" and a value, quoted or not. *)
Definition lex_crinit_var (s : string) : option (string * string * string) :=
  if negb (String.prefix "crinit." s) then None else
  match String.substring 7 (String.length s) s with
  | String v s' =>
      if negb (is_alpha_ v) then None else
      let '(m, r) := span is_alnum_ s' in
      match r with
      | String e r =>
          if negb (is_char e "=") then None else
          match r with
          | String q r' =>
              if is_char q c_quote then
                match esc_span dq_stop r' with
                | (val, String q' r'') => if is_char q' c_quote then Some (String v m, val, r'') else None
                | _ => None
                end
              else
                match esc_span uq_stop r with
                | (EmptyString, _) => None
                | (val, r'') => Some (String v m, val, r'')
                end
          | EmptyString => None
          end
      | EmptyString => None
      end
  | EmptyString => None
  end.

Definition crinitKernelCmdlineLex (s : string) : kcmd_token :=
  match s with
  | EmptyString => KEnd
  | String c s' =>
      if is_ws c then KSpace (snd (span is_ws s)) else
      match lex_crinit_var s with
      | Some (key, val, r) => KVar key val r
      | None => KChar s'
      end
  end.

Section KCmdline.
Context {S : Type} `{SeriesEnv S}.

(** [start]: at the start of a word.  When a duplicate cannot be allocated the
    setting is dropped and the loop goes on. *)
Fixpoint kcmdline_loop (fuel : nat) (s : string) (start : bool) : M S Z :=
  match fuel with
  | O => mret (-1)
  | Datatypes.S fuel =>
      match crinitKernelCmdlineLex s with
      | KEnd => mret 0
      | KChar r => kcmdline_loop fuel r false
      | KSpace r => kcmdline_loop fuel r true
      | KVar key val r =>
          if negb start then kcmdline_loop fuel r start else
          oom ← fallibleN 2;
          if (oom : bool) then kcmdline_loop fuel r false else
          match crinitFindConfigMapping crinitKCmdlineCfgMap key with
          | None => kcmdline_loop fuel r false  (* a warning *)
          | Some kccm =>
              '(rc, _) ← cfgHandler kccm None val CRINIT_CONFIG_TYPE_KCMDLINE;
              if rc =? -1 then mret (-1) else kcmdline_loop fuel r false
          end
      end
  end.

(** fgets() reads one line.  A line that starts with NUL has length 0, and the
    byte before the buffer is looked at. *)
Definition crinitKernelCmdlineParse (path : string) : M S Z :=
  content ← read_file path;
  match content with
  | None | Some EmptyString => mret (-1)
  | Some content =>
      let line := c_str (fst (ini_reader_string (CRINIT_KCMDLINE_MAX_LEN - 1) content)) in
      if (CRINIT_KCMDLINE_MAX_LEN - 1 <=? String.length line)%nat then mret (-1) else
      match line with
      | EmptyString => mundef
      | _ =>
          let text := match str_break c_newline line with Some (t, _) => t | None => line end in
          kcmdline_loop (Datatypes.S (String.length text)) text true
      end
  end.
End KCmdline.
