(* ===== verification/ConfGlobProps.v ===== *)
(** * What the loaders of global settings promise: theorems about confhdl.c,
    confmap.c and confparse.c *)

From Stdlib Require Import ZArith Lia Bool List String Ascii.
From stdpp Require Import base functions list strings gmap.
From S2P Require Import Prelude CString EnvSet Timer Task TaskDB TimerDB Lexers ConfConv Ini GlobOpt Cgroup.
From S2P Require Import GlobOptProps ConfParse ConfTask ConfTaskProps ConfGlob.

Open Scope Z_scope.
Open Scope crinit_scope.

#[local] Arguments String.append : simpl nomatch.

(** ** The tables *)

Section Tables.
Context {S : Type} `{SeriesEnv S}.
Notation handler := (crinitConfigHandler S).

Lemma series_map_sorted : sorted_b configKey (crinitSeriesCfgMap (S := S)) = true.
Proof. reflexivity. Qed.

Lemma find_series_row key :
  crinitFindConfigMapping (crinitSeriesCfgMap (S := S)) key =
  find (λ e, str_eqb (configKey e) key) crinitSeriesCfgMap.
Proof. apply find_mapping, series_map_sorted. Qed.

(** All three tables of configuration keys are in the order that the binary
    search needs: crinitFindConfigMapping() finds, for every text, exactly the
    row with that key, and nothing if there is none. *)
Theorem crinitFindConfigMapping_exact (include : handler) key :
  crinitFindConfigMapping (crinitTaskCfgMap include) key =
    find (λ e, str_eqb (configKey e) key) (crinitTaskCfgMap include) ∧
  crinitFindConfigMapping (crinitSeriesCfgMap (S := S)) key =
    find (λ e, str_eqb (configKey e) key) crinitSeriesCfgMap ∧
  crinitFindConfigMapping (crinitKCmdlineCfgMap (S := S)) key =
    find (λ e, str_eqb (configKey e) key) crinitKCmdlineCfgMap.
Proof. split_and!; apply find_mapping; reflexivity. Qed.

Lemma series_configs_unique : NoDup (cm_config <$> crinitSeriesCfgMap (S := S)).
Proof. apply (bool_decide_eq_true_1 (NoDup (cm_config <$> crinitSeriesCfgMap (S := S)))). reflexivity. Qed.

Lemma find_series_In key row :
  crinitFindConfigMapping (crinitSeriesCfgMap (S := S)) key = Some row → row ∈ crinitSeriesCfgMap ∧ configKey row = key.
Proof.
  rewrite find_series_row. intros [Hin Hk]%find_some.
  by apply list_elem_of_In in Hin; apply str_eqb_true in Hk.
Qed.

Lemma series_row_of_config a b :
  a ∈ crinitSeriesCfgMap (S := S) → b ∈ crinitSeriesCfgMap → cm_config a = cm_config b → a = b.
Proof.
  intros [i Hi]%list_elem_of_lookup [j Hj]%list_elem_of_lookup E.
  assert (i = j) as ->; [|congruence].
  eapply (NoDup_lookup _ _ _ (cm_config a) series_configs_unique); rewrite list_lookup_fmap; [by rewrite Hi|].
  by rewrite Hj, E.
Qed.
End Tables.

(** ** A series file as a sequence of assignments *)

Definition bool_op (m : bool_member) (val : string) : option opt_op :=
  let '(r, v) := crinitConfConvToBool false val in if r =? -1 then None else Some (SetBoolean m v).
Definition ull_op (m : ull_member) (val : string) : option opt_op :=
  let '(r, v) := crinitConfConvToIntegerULL 0 val 10 in if r =? -1 then None else Some (SetUnsignedLL m v).
Definition suffix_op (m : str_member) (val : string) : option opt_op :=
  if starts_with "." val then Some (SetString m val) else None.

(** What a setting assigns; only those that do not depend on the file system and
    the build. *)
Definition series_op (key val : string) : option opt_op :=
  if str_eqb key "DEBUG" then bool_op DEBUG val
  else if str_eqb key "USE_SYSLOG" then bool_op USE_SYSLOG val
  else if str_eqb key "TASKDIR_FOLLOW_SYMLINKS" then bool_op TASKDIR_FOLLOW_SYMLINKS val
  else if str_eqb key "SHUTDOWN_GRACE_PERIOD_US" then ull_op SHDGRACEP val
  else if str_eqb key "ELOS_EVENT_POLL_INTERVAL" then ull_op ELOS_EVENT_POLL_INTERVAL val
  else if str_eqb key "INCLUDE_SUFFIX" then suffix_op INCL_SUFFIX val
  else if str_eqb key "TASK_FILE_SUFFIX" then suffix_op TASK_FILE_SUFFIX val
  else if str_eqb key "DEFAULTCAPS" then Some (SetString DEFAULTCAPS val)
  else None.

Section Series.
Context {S : Type} `{SeriesEnv S}.
Notation handler := (crinitConfigHandler S).
Implicit Types s : S.

Lemma run_series f val tgt s r s' :
  f val s = Ret r s' → series_handler f tgt val CRINIT_CONFIG_TYPE_SERIES s = Ret (r, tgt) s'.
Proof.
  intros E. unfold series_handler, global_handler. rewrite bool_decide_eq_true_2 by done.
  by rewrite (bind_run _ _ _ _ _ E).
Qed.

Lemma run_store m s s' : m s = Ret 0 s' → store (S := S) m s = Ret 0 s'.
Proof. intros E. unfold store. by rewrite (bind_run _ _ _ _ _ E). Qed.

(** The handler of the key does the assignment. *)
Lemma series_op_handler key val op s s' :
  series_op key val = Some op → run_op op s = Ret 0 s' →
  ∃ row, crinitFindConfigMapping (crinitSeriesCfgMap (S := S)) key = Some row ∧
    cfgHandler row None val CRINIT_CONFIG_TYPE_SERIES s = Ret (0, None) s'.
Proof.
  unfold series_op, bool_op, ull_op, suffix_op. intros Hop Hrun.
  repeat match goal with
  | H : (if str_eqb key ?k then _ else _) = _ |- _ =>
      destruct (str_eqb key k) eqn:E; [apply str_eqb_true in E; subst key|clear E]
  end; [..|done].
  all: eexists; split; [reflexivity|]; cbn [cfgHandler]; apply run_series.
  1-3: unfold set_bool_text; destruct (crinitConfConvToBool false val) as [r v]; destruct (r =? -1); [done|];
    injection Hop as <-; by apply run_store.
  1-2: unfold set_ull_text; destruct (crinitConfConvToIntegerULL 0 val 10) as [r v]; destruct (r =? -1); [done|];
    injection Hop as <-; by apply run_store.
  1-2: unfold set_suffix; destruct (starts_with "." val); [|done]; injection Hop as <-; by apply run_store.
  injection Hop as <-. by apply run_store.
Qed.

Lemma series_op_ok key val op : series_op key val = Some op → op_ok op.
Proof.
  unfold series_op, bool_op, ull_op, suffix_op.
  repeat case_match; intros [= <-]; done.
Qed.

Lemma apply_series_refines src ops dupl s :
  settled s → NoDup src.*1 → Forall2 (λ kv op, series_op kv.1 kv.2 = Some op) src ops →
  (∀ key row, key ∈ src.*1 → crinitFindConfigMapping (crinitSeriesCfgMap (S := S)) key = Some row →
     dupl (cm_config row) = false) →
  ∃ dupl' s', apply_series src dupl s = Ret (Some dupl') s' ∧ settled s' ∧
    view_eq (view_of (get_opts s')) (foldl assign (view_of (get_opts s)) ops) ∧
    (∀ c, dupl' c = true → dupl c = true ∨ ∃ key row, key ∈ src.*1 ∧ cm_config row = c ∧
       crinitFindConfigMapping (crinitSeriesCfgMap (S := S)) key = Some row).
Proof.
  intros Hs Hnd Hops. revert dupl s Hs Hnd.
  induction Hops as [|[key val] op src ops Hop Hops IH]; intros dupl s Hs Hnd Hd.
  { exists dupl, s. split_and!; [done|done|done|auto]. }
  simpl in *. apply NoDup_cons in Hnd as [Hkey Hnd].
  destruct (opt_run_op_spec op s Hs (series_op_ok _ _ _ Hop)) as (s1 & E1 & Hs1 & Hv1).
  destruct (series_op_handler key val op s s1 Hop E1) as (row & Hrow & Eh).
  edestruct (IH (<[cm_config row := true]> dupl) s1) as (dupl' & s' & E & Hs' & Hv & Hk); [done|done| |].
  { intros key' row' Hin' Hrow'. rewrite fn_lookup_insert_ne; [apply (Hd key'); [by right|done]|].
    intros Ec. apply find_series_In in Hrow as [Hin Hk], Hrow' as [Hin2 Hk'].
    rewrite (series_row_of_config _ _ Hin Hin2 Ec), Hk' in Hk. by subst. }
  exists dupl', s'. rewrite Hrow. rewrite (Hd key row) by (done || by left). rewrite andb_false_r.
  rewrite (bind_run _ _ _ _ _ Eh). split_and!; [done|done| |].
  - rewrite Hv. by apply assigns_proper.
  - intros c Hc. destruct (Hk c Hc) as [Hc'|(k & r & Hin & Hr)]; [|right; exists k, r; split; [by right|done]].
    destruct (decide (cm_config row = c)) as [<-|Hne]; [right; exists key, row; split; [by left|done]|].
    left. by rewrite fn_lookup_insert_ne in Hc'.
Qed.

Lemma series_op_no_incldir key val op row :
  series_op key val = Some op → crinitFindConfigMapping (crinitSeriesCfgMap (S := S)) key = Some row →
  cm_config row ≠ CRINIT_CONFIG_INCLUDEDIR.
Proof.
  unfold series_op. intros Hop Hrow.
  repeat match goal with
  | H : (if str_eqb key ?k then _ else _) = _ |- _ =>
      destruct (str_eqb key k) eqn:E; [apply str_eqb_true in E; subst key|clear E]
  end; [..|done].
  all: intros E; apply (f_equal Some) in E; change (Some (cm_config row)) with (cm_config <$> Some row) in E;
    rewrite <- Hrow in E; lazy in E; discriminate E.
Qed.

(** C12: loading a series file whose settings are of these kinds, each key at
    most once, has the effect of the assignments to the global options in the
    order of the file; after that INCLUDEDIR, which is not among them, becomes
    the task directory. *)
Theorem crinitLoadSeriesConf_refines file src ops dir s :
  settled s → bools (get_opts s) SIGNATURES = false → str_view (get_opts s) TASKDIR = Some dir →
  crinitIsAbsPath file = true → crinitIsAbsPath dir = true → (∀ s', crinitDirExists dir s' = Ret true s') →
  src ≠ [] → Forall setting_ok src → NoDup src.*1 →
  Forall2 (λ kv op, series_op kv.1 kv.2 = Some op) src ops →
  read_file file s = Ret (Some (conf_text src)) s →
  ∃ s', crinitLoadSeriesConf file s = Ret 0 s' ∧ settled s' ∧
    view_eq (view_of (get_opts s')) (foldl assign (view_of (get_opts s)) (ops ++ [SetString INCLDIR dir])).
Proof.
  intros Hs Hsig Hdir Hfile Habs Hex Hne Hok Hnd Hops Hf. unfold crinitLoadSeriesConf. rewrite Hfile. cbn [negb].
  rewrite (bind_run _ _ _ _ _ (run_parse_conf file src s Hs Hsig Hne Hok Hf)).
  destruct (apply_series_refines src ops (λ _, false) s Hs Hnd Hops) as (dupl & s1 & E1 & Hs1 & Hv1 & Hk); [done|].
  rewrite (bind_run _ _ _ _ _ E1).
  assert (str_view (get_opts s1) TASKDIR = Some dir) as Hdir1.
  { destruct Hv1 as [Hv _]. specialize (Hv TASKDIR). simpl in Hv. rewrite Hv. clear - Hops Hdir.
    revert Hdir. change (str_view (get_opts s) TASKDIR) with (v_str (view_of (get_opts s)) TASKDIR).
    generalize (view_of (get_opts s)). induction Hops as [|kv op src ops Hop Hops IH]; intros v Hv; [done|]. simpl.
    apply IH. revert Hop. unfold series_op, bool_op, ull_op, suffix_op. repeat case_match; intros [= <-]; done. }
  pose proof Hs1 as [Hq1 Hu1 _ _].
  rewrite (bind_run _ _ _ _ _ (run_get_string TASKDIR dir s1 Hq1 Hu1 Hdir1)).
  assert (dupl CRINIT_CONFIG_INCLUDEDIR = false) as ->.
  { apply not_true_is_false. intros Hc. destruct (Hk _ Hc) as [?|(key & row & Hin & Hr & Hrow)]; [done|].
    apply list_elem_of_fmap in Hin as ([k v] & -> & Hin). apply list_elem_of_lookup in Hin as [i Hi].
    destruct (Forall2_lookup_l _ _ _ _ _ Hops Hi) as (op & _ & Hop). by eapply series_op_no_incldir. }
  destruct (opt_run_op_spec (SetString INCLDIR dir) s1 Hs1 I) as (s' & E & Hs' & Hv').
  exists s'. rewrite (bind_run _ _ s1 (0, None) s'); [|apply run_series; unfold set_path].
  - split_and!; [done|done|]. rewrite Hv', foldl_app. by apply (assigns_proper [SetString INCLDIR dir]).
  - rewrite Habs. cbn [negb]. rewrite (bind_run _ _ _ _ _ (Hex s1)). cbn [negb]. by apply run_store.
Qed.
End Series.

(** ** Witnesses *)

(** A file system in which the programs are below bin and everything else is a directory. *)
Definition is_command (path : string) : bool := String.prefix "/usr/bin/" path.

#[export, refine] Instance confd_series : SeriesEnv confd := {|
  stat_mode := λ path, mret (Some (if is_command path then S_IFREG + 493 else S_IFDIR + 493));
|}.
Proof. all: intros; by apply wp_ret. Defined.

Definition demo_series : list (string * string) := [("DEBUG", "yes"); ("TASK_FILE_SUFFIX", ".task")]%string.

Definition demo_series_state : confd :=
  mkConfd [] (put_str TASKDIR "/etc/crinit" (free_str (strs demo_opts TASKDIR) demo_opts))
    (mkPool 8 [] true false ∅ 0) [("/etc/crinit/default.series", conf_text demo_series)]%string.

Lemma demo_series_settled : settled demo_series_state.
Proof. destruct demo_settled as [H1 H2 H3 H4]. split; [done|done|by apply opts_ok_put|done]. Qed.

Lemma demo_series_ok : Forall setting_ok demo_series.
Proof.
  unfold demo_series.
  repeat (constructor; [constructor; [constructor; [reflexivity|apply str_none_forallb; reflexivity|split; reflexivity]
    |reflexivity|apply str_none_forallb; reflexivity|split; reflexivity|apply Nat.ltb_lt; vm_compute; reflexivity]|]).
  constructor.
Qed.

Lemma crinitLoadSeriesConf_refines_witness :
  ∃ s', crinitLoadSeriesConf "/etc/crinit/default.series" demo_series_state = Ret 0 s' ∧ settled s' ∧
    bools (get_opts s') DEBUG = true ∧ str_view (get_opts s') INCLDIR = Some "/etc/crinit"%string.
Proof.
  destruct (crinitLoadSeriesConf_refines "/etc/crinit/default.series" demo_series
    [SetBoolean DEBUG true; SetString TASK_FILE_SUFFIX ".task"] "/etc/crinit" demo_series_state)
    as (s' & E & Hs & Hv).
  - exact demo_series_settled.
  - reflexivity.
  - reflexivity.
  - reflexivity.
  - reflexivity.
  - reflexivity.
  - discriminate.
  - exact demo_series_ok.
  - unfold demo_series. simpl. repeat constructor; set_solver.
  - repeat constructor.
  - reflexivity.
  - exists s'. split; [exact E|]. split; [exact Hs|]. destruct Hv as (Hstr & Hbool & _).
    split; [exact (Hbool DEBUG)|exact (Hstr INCLDIR)].
Defined.

Lemma crinitParseConf_roundtrip_witness :
  crinitParseConf "/etc/crinit/default.series" demo_series_state = Ret (Some demo_series) demo_series_state.
Proof.
  apply (crinitParseConf_roundtrip "/etc/crinit/default.series" demo_series demo_series_state).
  - exact demo_series_settled.
  - reflexivity.
  - discriminate.
  - exact demo_series_ok.
  - reflexivity.
Defined.
