(* ===== verification/FSeries.v ===== *)
(** * File series: inc/fseries.h, src/fseries.c and crinitLoadTasks() of
    src/confparse.c

    The names of the task files: those of the TASKS option, or the regular files
    of the task directory with the configured suffix, in the order of strcmp().
    The entries of a directory and their types are services of the state. *)

From Stdlib Require Import ZArith Lia Bool List String Ascii.
From stdpp Require Import base list strings sorting.
From S2P Require Import Prelude CString EnvSet Timer Task Lexers ConfConv GlobOpt Cgroup GlobOptProps ConfTaskProps.

Open Scope Z_scope.
Open Scope crinit_scope.

(** ** Data *)

(** The elements of fnames without the terminating NULL; [None] is a NULL
    pointer among them.  The size is the length. *)
Record crinitFileSeries := mkSeries { fnames : list (option string); baseDir : option string }.

(** [dir_entries] is what opendir() and readdir() see, [None] when the directory
    cannot be opened; [is_regular dir name follow] is S_ISREG() of fstatat(). *)
Class DirEnv (S : Type) `{OptState S} := {
  dir_entries : S → string → option (list string);
  is_regular : S → string → string → bool → bool;
  entries_faults : ∀ l s path, dir_entries (set_faults l s) path = dir_entries s path;
  regular_faults : ∀ l s dir name fl, is_regular (set_faults l s) dir name fl = is_regular s dir name fl;
  entries_opts : ∀ o s path, dir_entries (set_opts o s) path = dir_entries s path;
  regular_opts : ∀ o s dir name fl, is_regular (set_opts o s) dir name fl = is_regular s dir name fl;
}.

(** ** Order of file names: alphasort() in the C locale *)

Definition alphasort (a b : string) : Prop := strcmp a b ≠ Gt.

#[export] Instance alphasort_dec : RelDecision alphasort.
Proof. intros a b. unfold alphasort. apply _. Defined.

#[export] Instance alphasort_total : Total alphasort.
Proof.
  intros a b. unfold alphasort. rewrite (strcmp_antisym a b). destruct (strcmp b a); simpl; auto.
Qed.

Lemma alphasort_strict a b : alphasort a b → a ≠ b → strcmp a b = Lt.
Proof.
  unfold alphasort. intros Hab Hne. destruct (strcmp a b) eqn:E; [|done|done]. by apply strcmp_eq in E.
Qed.

#[export] Instance alphasort_trans : Transitive alphasort.
Proof.
  intros a b c Hab Hbc. destruct (decide (a = b)) as [->|Hne]; [done|].
  destruct (decide (b = c)) as [->|Hne2]; [done|]. unfold alphasort.
  by rewrite (strcmp_trans a b c) by (by apply alphasort_strict).
Qed.

(** ** Operations *)

(** strcmp() of the end of the name with the suffix, if the name is not
    shorter. *)
Definition crinitSuffixFilter (name suffix : string) : bool :=
  if str_eqb suffix EmptyString then true else
  (String.length suffix <=? String.length name)%nat &&
  str_eqb (substring (String.length name - String.length suffix) (String.length suffix) name) suffix.

Section Operations.
Context {S : Type} `{DirEnv S}.

Definition crinitDestroyFileSeries (fse : crinitFileSeries) : crinitFileSeries := mkSeries [] None.

(** NULL pointers are added at the end; growing from or to nothing apart, the
    elements stay. *)
Definition crinitResizeFileSeries (fse : crinitFileSeries) (numElements : nat) : M S (Z * crinitFileSeries) :=
  let size := length (fnames fse) in
  if Nat.eqb numElements size then mret (0, fse) else
  if Nat.eqb numElements 0 then mret (-1, fse) else
  oom ← fallible;
  if (oom : bool) then mret (-1, fse) else
  mret (0, mkSeries (take numElements (fnames fse) ++ replicate (numElements - size) None) (baseDir fse)).

Definition crinitInitFileSeries (numElements : nat) (base : option string) : M S (Z * crinitFileSeries) :=
  match base with
  | None => crinitResizeFileSeries (mkSeries [] None) numElements
  | Some _ =>
      oom ← fallible;
      if (oom : bool) then mret (-1, mkSeries [] None) else crinitResizeFileSeries (mkSeries [] base) numElements
  end.

Definition crinitStatFilter (s : S) (dir name : string) (followLinks : bool) : bool := is_regular s dir name followLinks.

(** The settings that crinitScState passes to the filter are arguments: they are
    set and used with dirScanLock held. *)
Definition crinitScanDirFilter (s : S) (dir fileSuffix : string) (followLinks : bool) (name : string) : bool :=
  crinitStatFilter s dir name followLinks && crinitSuffixFilter name fileSuffix.

(** scandir() with the filter and alphasort(). *)
Definition scandir (path fileSuffix : string) (followLinks : bool) : M S (option (list string)) :=
  err ← fallible;
  if (err : bool) then mret None else
  s ← mget;
  mret (merge_sort alphasort <$>
    (filter (λ n, crinitScanDirFilter s path fileSuffix followLinks n) <$> dir_entries s path)).

(** The loop that copies the names behind the first pointer; it covers fse->size
    elements. *)
Fixpoint fill_names (slots : list (option string)) (names : list string) : list (option string) :=
  match slots, names with
  | _ :: slots, n :: names => Some n :: fill_names slots names
  | _, _ => slots
  end.

Definition crinitFileSeriesFromDir (path fileSuffix : string) (followLinks : bool) : M S (option crinitFileSeries) :=
  s ← mget;
  match dir_entries s path with
  | None => mret None  (* opendir *)
  | Some _ =>
      err ← fallible;  (* dirfd *)
      if (err : bool) then mret None else
      err ← fallible;  (* dirScanLock *)
      if (err : bool) then mret None else
      scanRes ← scandir path fileSuffix followLinks;
      match scanRes with
      | None => mret None
      | Some scanList =>
          '(r, fse) ← crinitInitFileSeries (length scanList) (Some path);
          if r =? -1 then mret None else
          if Nat.eqb (length scanList) 0 then mret (Some fse) else
          oom ← fallible;
          if (oom : bool) then mret None else
          mret (Some (mkSeries (fill_names (fnames fse) scanList) (baseDir fse)))
      end
  end.

Fixpoint crinitStrArrDeepCopy (source : list string) : M S (option (list string)) :=
  match source with
  | [] => mret (Some [])
  | x :: source =>
      oom ← fallible;
      if (oom : bool) then mret None else
      r ← crinitStrArrDeepCopy source;
      mret (cons x <$> r)
  end.

Definition crinitFileSeriesFromStrArr (base : string) (strArr : list string) : M S (option crinitFileSeries) :=
  oom ← fallible;
  if (oom : bool) then mret None else
  copy ← crinitStrArrDeepCopy strArr;
  match copy with
  | None => mret None
  | Some names =>
      oom ← fallible;
      if (oom : bool) then mret None else mret (Some (mkSeries (Some <$> names) (Some base)))
  end.

(** When the names of the TASKS option cannot be copied they are freed and stay
    in the store: every later use of the store is undefined, and the model stops
    there. *)
Definition crinitLoadTasks : M S (option crinitFileSeries) :=
  taskDir ← crinitGlobOptGetString TASKDIR;
  match taskDir with None => mret None | Some taskDir =>
  taskFileSuffix ← crinitGlobOptGetString TASK_FILE_SUFFIX;
  match taskFileSuffix with None => mret None | Some taskFileSuffix =>
  taskDirFollowSl ← crinitGlobOptGetBoolean TASKDIR_FOLLOW_SYMLINKS;
  crinitGlobOptBorrow ;;
  o ← mopts;
  series ← match tasks (lists o) with
           | None => crinitFileSeriesFromDir taskDir taskFileSuffix taskDirFollowSl
           | Some l =>
               r ← crinitFileSeriesFromStrArr taskDir l;
               match r with None => mundef | Some fse => mret (Some fse) end
           end;
  r ← crinitGlobOptRemit;
  mret (if r =? -1 then None else series)
  end end.
End Operations.

(** ** What is found *)

Lemma substring_all n s : (String.length s ≤ n)%nat → substring 0 n s = s.
Proof.
  revert n. induction s as [|c s IH]; intros [|n]; simpl; intros Hn; [done|done|lia|]. f_equal. apply IH. lia.
Qed.

Lemma substring_end p s : substring (String.length p) (String.length s) (p +:+ s)%string = s.
Proof. induction p as [|c p IH]; simpl; [by apply substring_all|done]. Qed.

Lemma substring_split n s :
  (n ≤ String.length s)%nat → s = (substring 0 n s +:+ substring n (String.length s - n) s)%string.
Proof.
  revert n. induction s as [|c s IH]; intros [|n]; simpl; intros Hn; [done|lia| |].
  - change (String c s = String c (substring 0 (String.length s) s)). f_equal. symmetry. by apply substring_all.
  - change (String c s = String c (substring 0 n s +:+ substring n (String.length s - n) s)). f_equal. apply IH. lia.
Qed.

Lemma crinitSuffixFilter_spec name suffix :
  crinitSuffixFilter name suffix = true ↔ ∃ p, name = (p +:+ suffix)%string.
Proof.
  unfold crinitSuffixFilter. split.
  - destruct (str_eqb suffix EmptyString) eqn:E.
    { apply str_eqb_true in E as ->. intros _. exists name. by rewrite string_app_nil_r. }
    intros [Hlen%Nat.leb_le Heq%str_eqb_true]%andb_prop.
    exists (substring 0 (String.length name - String.length suffix) name).
    rewrite <- Heq at 2. set (n := (String.length name - String.length suffix)%nat).
    replace (String.length suffix) with (String.length name - n)%nat by (unfold n; lia).
    apply substring_split. unfold n. lia.
  - intros [p ->]. case_if; [done|]. rewrite string_length_app, Nat.add_sub, substring_end, str_eqb_refl, andb_true_r.
    apply Nat.leb_le. lia.
Qed.

Lemma merge_sort_strict l : NoDup l → StronglySorted (λ a b, strcmp a b = Lt) (merge_sort alphasort l).
Proof.
  intros Hnd. pose proof (StronglySorted_merge_sort alphasort l) as Hs.
  assert (NoDup (merge_sort alphasort l)) as Hnd' by (by rewrite merge_sort_Permutation).
  induction Hs as [|x m Hs IH Hx]; [constructor|]. apply NoDup_cons in Hnd' as [Hnotin Hnd'].
  constructor; [by apply IH|]. apply Forall_forall. intros y Hy. apply alphasort_strict.
  - rewrite Forall_forall in Hx. by apply Hx.
  - intros ->. done.
Qed.

Lemma fill_names_all n names : n = length names → fill_names (replicate n None) names = Some <$> names.
Proof. intros ->. induction names as [|x names IH]; simpl; [done|]. by rewrite IH. Qed.

(** The names of a series file directory. *)
Record dir_series {S} `{DirEnv S} (s : S) (dir suffix : string) (follow : bool) (entries names : list string) : Prop := {
  ds_sorted : StronglySorted (λ a b, strcmp a b = Lt) names;
  ds_exact : ∀ n, n ∈ names ↔ n ∈ entries ∧ is_regular s dir n follow = true ∧ ∃ p, n = (p +:+ suffix)%string;
}.

Section Found.
Context {S : Type} `{DirEnv S}.
Implicit Types s : S.

Lemma run_from_dir dir suffix follow entries s :
  quiet s → dir_entries s dir = Some entries → NoDup entries →
  ∃ names, crinitFileSeriesFromDir dir suffix follow s = Ret (Some (mkSeries (Some <$> names) (Some dir))) s ∧
    dir_series s dir suffix follow entries names.
Proof.
  intros Hq He Hnd. set (l := filter (λ n, crinitScanDirFilter s dir suffix follow n) entries).
  exists (merge_sort alphasort l). split.
  - unfold crinitFileSeriesFromDir. rewrite (bind_run mget _ s s s) by done. rewrite He.
    do 2 (rewrite bind_fallible by done). rewrite (bind_run _ _ s (Some (merge_sort alphasort l)) s).
    2:{ unfold scandir. rewrite bind_fallible by done. rewrite (bind_run mget _ s s s) by done. by rewrite He. }
    set (names := merge_sort alphasort l). unfold crinitInitFileSeries, crinitResizeFileSeries. simpl length.
    rewrite (bind_run _ _ s (0, mkSeries (replicate (length names) None) (Some dir)) s).
    2:{ rewrite bind_fallible by done. destruct names as [|n names]; [done|]. simpl. rewrite bind_fallible by done. done. }
    simpl. destruct names as [|n names]; [done|]. cbn [length Nat.eqb]. rewrite bind_fallible by done.
    unfold mret, M_ret. do 3 f_equal. by apply fill_names_all.
  - split.
    + apply merge_sort_strict. unfold l. by apply NoDup_filter.
    + intros n. rewrite merge_sort_Permutation. unfold l. rewrite list_elem_of_filter.
      unfold crinitScanDirFilter, crinitStatFilter. rewrite Is_true_true, andb_true_iff, crinitSuffixFilter_spec. naive_solver.
Qed.

Lemma run_str_copy l s : quiet s → crinitStrArrDeepCopy l s = Ret (Some l) s.
Proof.
  intros Hq. induction l as [|x l IH]; simpl; [done|]. rewrite bind_fallible by done. by rewrite (bind_run _ _ _ _ _ IH).
Qed.

Lemma run_from_arr dir l s :
  quiet s → crinitFileSeriesFromStrArr dir l s = Ret (Some (mkSeries (Some <$> l) (Some dir))) s.
Proof.
  intros Hq. unfold crinitFileSeriesFromStrArr. rewrite bind_fallible by done.
  rewrite (bind_run _ _ _ _ _ (run_str_copy l s Hq)). by rewrite bind_fallible by done.
Qed.

Lemma dir_series_opts o s dir suffix follow entries names :
  dir_series (set_opts o s) dir suffix follow entries names → dir_series s dir suffix follow entries names.
Proof. intros [Hs He]. split; [done|]. intros n. rewrite He, regular_opts. done. Qed.

(** C32: the task files are the names of the TASKS option if there is one, in its
    order; otherwise exactly the regular files of the task directory that end in
    the configured suffix (symbolic links to such files count if they are
    followed), each once and in the order of strcmp().  Nothing else changes. *)
Theorem crinitLoadTasks_exact dir suffix s :
  settled s → str_view (get_opts s) TASKDIR = Some dir → str_view (get_opts s) TASK_FILE_SUFFIX = Some suffix →
  match tasks (lists (get_opts s)) with
  | Some l => crinitLoadTasks s = Ret (Some (mkSeries (Some <$> l) (Some dir))) s
  | None => ∀ entries, dir_entries s dir = Some entries → NoDup entries →
      ∃ names, crinitLoadTasks s = Ret (Some (mkSeries (Some <$> names) (Some dir))) s ∧
        dir_series s dir suffix (bools (get_opts s) TASKDIR_FOLLOW_SYMLINKS) entries names
  end.
Proof.
  intros [Hq Hu Hok Henv] Hdir Hsuf.
  set (s1 := set_opts (set_opt_locked true (get_opts s)) s).
  assert (get_opts s1 = set_opt_locked true (get_opts s)) as E1 by apply get_set_opts.
  assert (quiet s1) as Hq1 by (by apply quiet_opts).
  assert (set_opts (set_opt_locked false (get_opts s1)) s1 = s) as Eback.
  { unfold s1. rewrite get_set_opts, set_set_opts.
    rewrite (opts_relock (get_opts s) (λ o, o)) by done. apply set_get_opts. }
  assert (∀ fse, (match tasks (lists (get_opts s)) with
            | None => crinitFileSeriesFromDir dir suffix (bools (get_opts s) TASKDIR_FOLLOW_SYMLINKS)
            | Some l => r ← crinitFileSeriesFromStrArr dir l;
                match r with None => mundef | Some fse => mret (Some fse) end
            end) s1 = Ret (Some fse) s1 → crinitLoadTasks s = Ret (Some fse) s) as Hrun.
  { intros fse E. unfold crinitLoadTasks. rewrite (bind_run _ _ _ _ _ (run_get_string TASKDIR dir s Hq Hu Hdir)).
    rewrite (bind_run _ _ _ _ _ (run_get_string TASK_FILE_SUFFIX suffix s Hq Hu Hsuf)).
    unfold crinitGlobOptGetBoolean.
    rewrite (bind_run _ _ _ _ _ (run_getter (λ o, bools o TASKDIR_FOLLOW_SYMLINKS) s Hq Hu ltac:(done))).
    rewrite (bind_run _ _ _ _ _ (run_borrow s Hq Hu)). fold s1. rewrite (bind_run mopts _ s1 (get_opts s1) s1) by done.
    rewrite E1. change (lists (set_opt_locked true (get_opts s))) with (lists (get_opts s)).
    rewrite (bind_run _ _ s1 (Some fse) s1) by exact E.
    rewrite (bind_run _ _ _ _ _ (run_remit s1 ltac:(by rewrite E1))). rewrite Eback. done. }
  destruct (tasks (lists (get_opts s))) as [l|].
  - apply Hrun. by rewrite (bind_run _ _ _ _ _ (run_from_arr dir l s1 Hq1)).
  - intros entries He Hnd.
    destruct (run_from_dir dir suffix (bools (get_opts s) TASKDIR_FOLLOW_SYMLINKS) entries s1) as (names & E & Hds);
      [done|unfold s1; by rewrite entries_opts|done|].
    exists names. split; [by apply Hrun|]. by eapply dir_series_opts.
Qed.
End Found.

(** ** Witness *)

(** The files of the demonstration state as directory entries. *)
Definition entry_of (dir path : string) : option string :=
  let p := (dir +:+ "/")%string in
  if String.prefix p path then Some (substring (String.length p) (String.length path - String.length p) path) else None.

#[export, refine] Instance confd_dirs : DirEnv confd := {|
  dir_entries := λ s path, Some ("." :: ".." :: omap (λ f, entry_of path f.1) (cf_files s))%string;
  is_regular := λ s dir name _, existsb (λ f, str_eqb f.1 (dir +:+ "/" +:+ name)%string) (cf_files s);
|}.
Proof. all: done. Defined.

Definition demo_dir : confd := demo_confd [("x/b.x", ""); ("x/readme", ""); ("x/a.x", ""); ("y/c.x", "")]%string.

Lemma crinitLoadTasks_exact_witness :
  crinitLoadTasks demo_dir = Ret (Some (mkSeries [Some "a.x"; Some "b.x"]%string (Some "x"%string))) demo_dir ∧
  ∃ names, dir_series demo_dir "x" "x" true ["."; ".."; "b.x"; "readme"; "a.x"]%string names.
Proof.
  split; [vm_compute; reflexivity|].
  destruct (crinitLoadTasks_exact "x" "x" demo_dir (demo_confd_settled _) eq_refl eq_refl
    ["."; ".."; "b.x"; "readme"; "a.x"]%string) as (names & _ & Hd).
  - vm_compute. reflexivity.
  - apply (bool_decide_eq_true_1 (NoDup _)). vm_compute. reflexivity.
  - exists names. exact Hd.
Defined.
