(* ===== verification/Dispatch.v ===== *)
(** * The process dispatcher: src/procdip.c

    A dispatcher thread copies its task, runs the commands one after the other
    (each a process it waits for), and reports the outcome to the task
    database.  The kernel (processes, FIFOs), the global options and the cgroup
    file system are services of the state (class [DispatchServices]); while a
    thread waits for a process other threads run, so of the database only its
    being in order survives a wait. *)

From Stdlib Require Import ZArith Lia Bool List String Ascii.
From stdpp Require Import base list strings gmap.
From S2P Require Import Prelude EnvSet Timer Task TaskDB TaskDBSpec Lexers ConfConv.

Open Scope Z_scope.
Open Scope crinit_scope.

(** ** Data *)

(** posix_spawn_file_actions_t *)
Inductive file_action :=
| FaOpen (fd : Z) (path : string) (oflags mode : Z)
| FaDup2 (oldFd newFd : Z).

(** The result of waitid() after the loop over EINTR. *)
Record wait_status := mkWait { w_ret : Z; w_code : Z; w_status : Z }.
Definition CLD_EXITED : Z := 1.
Definition ECHILD : Z := 10.
Definition EEXIST : Z := 17.

Definition CRINIT_ENV_NOTIFY_NAME : string := "CRINIT_TASK_NAME".
Definition CRINIT_CONFIG_DEFAULT_DEFAULTCAPS : string := "".

(** Other threads have run between [s] and [s']. *)
Definition resumed {S} `{TaskDBServices S} (s s' : S) : Prop :=
  orderly s' ∧ (calm s → calm s') ∧ (quiet s → quiet s').

(** ** What the dispatcher needs of its environment *)
Class DispatchServices (S : Type) `{TaskDBServices S} := {
  crinitGlobOptGet_LAUNCHER_CMD : M S (Z * string);
  crinitGlobOptGet_DEFAULTCAPS : M S (Z * string);
  crinitCGroupConfigure : crinitCgroup → M S Z;
  cap_from_name : string → option Z;
  (* errno and the PID *)
  posix_spawn : string → list string → crinitEnvSet → option (list file_action) → M S (Z * Z);
  waitid : Z → M S wait_status;
  (* wait until reaping is not inhibited, then waitpid(): errno at the end *)
  crinitBlockOnWaitInhibit : M S Z;
  waitpid : Z → M S Z;
  mkfifo : string → Z → M S Z;  (* errno *)
  stat_is_fifo : string → M S (option bool);

  launcher_ok : ∀ s, idle s → wp crinitGlobOptGet_LAUNCHER_CMD (λ _ s', only_faults s s') s;
  defaultcaps_ok : ∀ s, idle s →
    wp crinitGlobOptGet_DEFAULTCAPS
       (λ r s', only_faults s s' ∧
          (r.1 ≠ -1 → collect_args (Datatypes.S (String.length r.2)) r.2 true ≠ PUndef)) s;
  cgroup_ok : ∀ g s, idle s → wp (crinitCGroupConfigure g) (λ _ s', only_faults s s') s;
  cap_range : ∀ name c, cap_from_name name = Some c → 0 ≤ c < 64;
  spawn_process_ok : ∀ cmd argv env fa s, wp (posix_spawn cmd argv env fa) (λ _ s', only_faults s s') s;
  mkfifo_ok : ∀ path mode s, wp (mkfifo path mode) (λ _ s', only_faults s s') s;
  stat_ok : ∀ path s, wp (stat_is_fifo path) (λ _ s', only_faults s s') s;
  waitid_ok : ∀ pid s, orderly s → wp (waitid pid) (λ _ s', resumed s s') s;
  block_ok : ∀ s, orderly s → wp crinitBlockOnWaitInhibit (λ _ s', resumed s s') s;
  waitpid_ok : ∀ pid s, orderly s → wp (waitpid pid) (λ _ s', resumed s s') s;
}.

(** ** Operations *)

(** printf("%lx") *)
Fixpoint hex_go (fuel : nat) (n : Z) (acc : string) : string :=
  match fuel with
  | O => acc
  | S fuel =>
      let d := n mod 16 in
      let acc := String (chr (Z.to_nat (if d <? 10 then 48 + d else 87 + d))) acc in
      if n <? 16 then acc else hex_go fuel (n / 16) acc
  end.
Definition print_hex (n : Z) : string := hex_go 16 n EmptyString.

Section Operations.
Context {S : Type} `{DispatchServices S}.

(** *** Threads *)

(** crinitProcDispatchSpawnFunc(): memory for the arguments, the attributes
    of the thread, the thread; [create] is the new thread. *)
Definition crinitProcDispatchSpawnFunc (create : M S unit) : M S Z :=
  failed ← fallibleN 5;  (* malloc, attr_init, setdetachstate, setstacksize, pthread_create *)
  if (failed : bool) then mret (-1) else create ;; mret 0.

(** *** Redirections *)

Definition crinitEnsureFifo (path : option string) (mode : Z) : M S Z :=
  match path with
  | None => mret (-1)
  | Some p =>
      err ← mkfifo p mode;
      if err =? 0 then mret 0
      else if err =? EEXIST then
        st ← stat_is_fifo p;
        match st with
        | None => mret (-1)
        | Some isFifo => mret (if (isFifo : bool) then 0 else -1)
        end
      else mret (-1)
  end.

Definition crinitPosixSpawnAddIOFileAction (ior : crinitIoRedir) : M S (option file_action) :=
  if negb (newFd ior =? 1) && negb (newFd ior =? 2) && negb (newFd ior =? 0) then mret None else
  match path ior with
  | Some p =>
      err ← fallible;
      if (err : bool) then mret None else mret (Some (FaOpen (newFd ior) p (oflags ior) (mode ior)))
  | None =>
      if oldFd ior =? -1 then mret None else
      err ← fallible;
      if (err : bool) then mret None else mret (Some (FaDup2 (oldFd ior) (newFd ior)))
  end.

(** [None] on error. *)
Fixpoint crinitPrepareIoRedirectionsForSpawn (redirs : list crinitIoRedir) : M S (option (list file_action)) :=
  match redirs with
  | [] => mret (Some [])
  | r :: redirs =>
      f ← (if fifo r then crinitEnsureFifo (path r) (mode r) else mret 0);
      if f =? -1 then mret None else
      a ← crinitPosixSpawnAddIOFileAction r;
      match a with
      | None => mret None
      | Some a => rest ← crinitPrepareIoRedirectionsForSpawn redirs;
          mret (cons a <$> rest)
      end
  end.

(** *** The launcher *)

(** crinitCalculateVariableGroupParamLength(): the group IDs are printed as
    signed numbers. *)
Definition group_text (gid : Z) : string := String "," (print_dec (int32 gid)).

Definition crinitCalculateVariableGroupParamLength (supGroups : list Z) : Z :=
  match supGroups with
  | [] => 0
  | _ => foldr (λ g n, Z.of_nat (String.length (group_text g)) + n) 1 supGroups
  end.

Fixpoint crinitCreateSupGroupsParamString (supGroups : list Z) : string :=
  match supGroups with
  | [] => EmptyString
  | g :: supGroups => (group_text g +:+ crinitCreateSupGroupsParamString supGroups)%string
  end.

(** The text of the cgroup, below its parent. *)
Definition cgroup_path (g : crinitCgroup) : option string :=
  match cg_name g with
  | None => None
  | Some n =>
      match cg_parent g ≫= cg_name with
      | Some p => Some (p +:+ "/" +:+ n)%string
      | None => Some n
      end
  end.

(** Bytes of the arguments after the first, with their NULs. *)
Definition target_length (args : list string) : Z :=
  foldr (λ a n, Z.of_nat (String.length a) + 1 + n) 0 args.

(** The effective capabilities. *)
Definition cap_eff (defaultMask : Z) (t : crinitTask) : Z :=
  Z.lor (Z.land defaultMask (Z.lxor (t_capabilitiesClear t) ULONG_MAX)) (t_capabilitiesSet t).

(** The argument vector of the launcher. *)
Definition launcher_argv (cmd : string) (args : list string) (t : crinitTask) (caps : Z) (arg0 : string) : list string :=
  [cmd;
   ("--cmd=" +:+ arg0)%string;
   ("--user=" +:+ print_dec (int32 (t_user t)))%string;
   ("--group=" +:+ print_dec (int32 (t_group t)) +:+ crinitCreateSupGroupsParamString (t_supGroups t))%string;
   ("--caps=" +:+ print_hex caps)%string] ++
  match t_cgroup t with
  | None => []
  | Some g => [match cgroup_path g with Some p => ("--cgroup=" +:+ p)%string | None => "--"%string end]
  end ++
  "--"%string :: args.

(** The arguments are followed as pointers, but their total length in bytes
    is also copied out of the array of pointers itself, which has
    [8 * (argc + 1)] bytes. *)
Definition crinitCreateLauncherParameters (taskCmd : crinitTaskCmd) (t : crinitTask) (cmd : string) :
    M S (option (list string)) :=
  match argv taskCmd with
  | [] => mundef
  | arg0 :: args =>
      '(rc, caps) ← crinitGlobOptGet_DEFAULTCAPS;
      defaultCaps ← (if rc =? -1 then oom ← fallible; mret (if (oom : bool) then None else Some CRINIT_CONFIG_DEFAULT_DEFAULTCAPS)
                     else mret (Some caps));
      mask ← match defaultCaps with None => mret None | Some c => crinitCapConvertToBitmask cap_from_name c end;
      match mask with
      | None => mret None
      | Some mask =>
          oom ← match t_cgroup t with Some g => match cg_name g with Some _ => fallible | None => mret false end
                | None => mret false end;
          if (oom : bool) then mret None else
          oom ← fallibleN 2;  (* argBuf, av *)
          if (oom : bool) then mret None else
          oom ← match t_supGroups t with [] => mret false | _ => fallible end;
          if (oom : bool) then mret None else
          if 8 * (Z.of_nat (length (argv taskCmd)) + 1) <? target_length args then mundef
          else mret (Some (launcher_argv cmd args t (cap_eff mask t) arg0))
      end
  end.

(** *** Reaping *)

Definition crinitReapPid (pid : Z) : M S Z :=
  r ← crinitBlockOnWaitInhibit;
  if r =? -1 then mret (-1) else
  errno ← waitpid pid;
  if errno =? ECHILD then mret 0
  else if negb (errno =? 0) then mret (-1) else mret 0.

(** *** Running the commands of a task *)

Definition use_launcher (t : crinitTask) : bool :=
  negb (t_user t =? 0) || negb (t_group t =? 0) || bool_decide (t_cgroup t ≠ None).

(** Program and arguments of one command; [None] on error. *)
Definition command_argv (cmd : crinitTaskCmd) (t : crinitTask) (launcher : string) :
    M S (option (string * list string)) :=
  if use_launcher t then
    r ← crinitCreateLauncherParameters cmd t launcher;
    mret ((λ a, (launcher, a)) <$> r)
  else match argv cmd with [] => mundef | arg0 :: _ => mret (Some (arg0, argv cmd)) end.

(** What a first command that runs means to the other tasks; [false] ends the
    thread with an error. *)
Definition announce_running (name : string) (t : crinitTask) : M S bool :=
  r ← crinitTaskDBSetTaskState CRINIT_TASK_STATE_RUNNING name;
  if r =? -1 then mret false else
  r ← crinitTaskDBFulfillDep (mkDep name CRINIT_TASK_EVENT_RUNNING) None;
  if r =? -1 then mret false else
  _ ← crinitTaskDBProvideFeature t CRINIT_TASK_STATE_RUNNING;
  mret true.

(** The result and the PID. *)
Definition crinitSpawnSingleCommand (cmd : string) (av : list string) (env : crinitEnvSet) (fa : option (list file_action)) :
    M S (Z * Z) :=
  '(errno, pid) ← posix_spawn cmd av env fa;
  mret (if negb (errno =? 0) || (pid =? -1) then -1 else 0, pid).

(** The loop over the commands from index [i] on.  The result, the last PID,
    and, for the specification, the processes started in their order. *)
Fixpoint handle_loop (i : nat) (cmds : list crinitTaskCmd) (name : string) (t : crinitTask)
    (launcher : string) (noFileact : bool) (pid : Z) : M S (Z * Z * list (list string)) :=
  match cmds with
  | [] => mret (0, pid, [])
  | c :: cmds =>
      err ← fallible;  (* posix_spawn_file_actions_init *)
      if (err : bool) then mret (-1, pid, []) else
      fa ← crinitPrepareIoRedirectionsForSpawn (t_redirs t);
      match fa with
      | None => mret (-1, pid, [])
      | Some fa =>
          prog ← command_argv c t launcher;
          match prog with
          | None => mret (-1, pid, [])
          | Some (cmd, av) =>
              '(r, pid') ← crinitSpawnSingleCommand cmd av (t_taskEnv t) (if noFileact then None else Some fa);
              if r =? -1 then mret (-1, pid', []) else
              r ← crinitTaskDBSetTaskPID pid' name;
              if r =? -1 then mret (-1, pid', [av]) else
              go ← (if Nat.eqb i 0 then announce_running name t else mret true);
              if negb go then mret (-1, pid', [av]) else
              w ← waitid pid';
              if negb (w_ret w =? 0) || negb (w_code w =? CLD_EXITED) || negb (w_status w =? 0)
              then mret (-1, pid', [av]) else
              _ ← crinitTaskDBSetTaskPID (-1) name;
              _ ← crinitReapPid pid';
              '(rc, pid', started) ← handle_loop (Datatypes.S i) cmds name t launcher noFileact pid';
              mret (rc, pid', av :: started)
          end
      end
  end.

Definition crinitHandleCommands (name : string) (cmds : list crinitTaskCmd) (t : crinitTask)
    (noFileact : bool) : M S (Z * Z * list (list string)) :=
  '(rc, launcher) ← crinitGlobOptGet_LAUNCHER_CMD;
  if negb (rc =? 0) then mret (-1, -1, []) else
  r ← match t_cgroup t with Some g => crinitCGroupConfigure g | None => mret 0 end;
  if negb (r =? 0) then mret (-1, -1, []) else
  handle_loop 0 cmds name t launcher noFileact (-1).

(** *** Stop commands *)

(** crinitExpandPIDVariablesInSingleCommand(): [result] is what has been
    assembled, [src] the text after it.  [None] on error, [Some None] if there
    was nothing to expand. *)
Fixpoint expand_pid_loop (fuel : nat) (s src : string) (copied : nat) (pid : string)
    (result : option string) : M S (option (option string)) :=
  match fuel with
  | O => mret None
  | Datatypes.S fuel =>
      let '(ty, m, r) := crinitEnvVarInnerLex s in
      match ty with
      | CRINIT_TK_END =>
          match result with
          | None => mret (Some None)
          | Some res => oom ← fallible; mret (if (oom : bool) then None else Some (Some (res +:+ src)%string))
          end
      | CRINIT_TK_CPY => expand_pid_loop fuel r src (Datatypes.S copied) pid result
      | CRINIT_TK_VAR =>
          oom ← fallible;
          if (oom : bool) then mret None else
          if str_eqb m "TASK_PID" then
            oom ← fallible;
            if (oom : bool) then mret None else
            let tmp := (String.substring 0 copied src +:+ pid)%string in
            match result with
            | None => expand_pid_loop fuel r r 0 pid (Some tmp)
            | Some res =>
                oom ← fallible;
                if (oom : bool) then mret None else expand_pid_loop fuel r r 0 pid (Some (res +:+ tmp)%string)
            end
          else expand_pid_loop fuel r src (copied + String.length m + 3) pid result
      | _ => mret None
      end
  end.

Definition crinitExpandPIDVariablesInSingleCommand (input : string) (pid : Z) : M S (option (option string)) :=
  oom ← fallible;
  if (oom : bool) then mret None else
  expand_pid_loop (Datatypes.S (String.length input)) input input 0 (print_dec pid) None.

(** The arguments of one command, copied to a buffer of [cap] bytes of which
    [used] are taken; [noOffsets] when the array of offsets could not be
    allocated, which is not checked.  [None] when an allocation or the
    expansion of an argument fails. *)
Fixpoint expand_args (args : list string) (pid : Z) (noOffsets : bool) (used cap : nat) :
    M S (option (list string)) :=
  match args with
  | [] =>
      if (used <? cap)%nat then oom ← fallible; if (oom : bool) then mundef else mret (Some [])
      else mret (Some [])
  | a :: args =>
      r ← crinitExpandPIDVariablesInSingleCommand a pid;
      match r with
      | None => mret None
      | Some e =>
          let a' := default a e in
          let used' := (used + String.length a' + 1)%nat in
          oom ← (if (cap <? used')%nat then fallible else mret false);
          if (oom : bool) then mret None else
          if noOffsets then mundef else
          rest ← expand_args args pid noOffsets used' (Nat.max cap used');
          mret (cons a' <$> rest)
      end
  end.

(** The first command that cannot be expanded ends the loop: it and the ones
    after it stay as they are. *)
Fixpoint crinitExpandPIDVariablesInCommands (cmds : list crinitTaskCmd) (pid : Z) : M S (list crinitTaskCmd) :=
  match cmds with
  | [] => mret []
  | c :: cmds' =>
      match argv c with
      | [] => rest ← crinitExpandPIDVariablesInCommands cmds' pid; mret (c :: rest)
      | args =>
          oom ← fallible;  (* argvBackbuf *)
          if (oom : bool) then mret cmds else
          noOffsets ← fallible;
          r ← expand_args args pid noOffsets 0 (2 * foldr (λ a n, String.length a + 1 + n)%nat O args);
          match r with
          | None => mret cmds
          | Some args' => rest ← crinitExpandPIDVariablesInCommands cmds' pid; mret (mkCmd args' :: rest)
          end
      end
  end.

(** *** The thread *)

(** threadExit: the trigger is armed again or its timers are given up, and
    the copy is freed. *)
Definition thread_exit (t : crinitTask) : M S unit :=
  (if t_opts t &? CRINIT_TASK_OPT_TRIGGER_REARM then
     _ ← crinitTaskRearmTrigger (t_name t); mret tt
   else
     mfor (t_trig t) (λ d, if str_eqb (dep_name d) "@timer" then crinitTimerDBRemoveTimer (dep_event d) else mret tt)) ;;
  crinitDestroyTask t.

Definition thread_done (t : crinitTask) : M S unit :=
  _ ← crinitTaskDBSetTaskState CRINIT_TASK_STATE_DONE (t_name t);
  _ ← crinitTaskDBFulfillDep (mkDep (t_name t) CRINIT_TASK_EVENT_DONE) None;
  _ ← crinitTaskDBProvideFeature t CRINIT_TASK_STATE_DONE;
  mret tt.

Definition thread_fail (t : crinitTask) (pid : Z) : M S unit :=
  _ ← crinitTaskDBSetTaskState CRINIT_TASK_STATE_FAILED (t_name t);
  _ ← crinitTaskDBSetTaskPID (-1) (t_name t);
  _ ← (if 0 <? pid then crinitReapPid pid else mret 0);
  _ ← crinitTaskDBFulfillDep (mkDep (t_name t) CRINIT_TASK_EVENT_FAILED) None;
  _ ← crinitTaskDBProvideFeature t CRINIT_TASK_STATE_FAILED;
  mret tt.

(** The commands the thread runs, by its mode. *)
Definition thread_commands (mode : crinitDispatchThreadMode) (t : crinitTask) : M S (list crinitTaskCmd) :=
  match mode with
  | CRINIT_DISPATCH_THREAD_MODE_START => mret (t_cmds t)
  | CRINIT_DISPATCH_THREAD_MODE_STOP => crinitExpandPIDVariablesInCommands (t_stopCmds t) (t_pid t)
  end.

(** Whether all commands succeeded, and the processes started.  When the lock
    or the copy fails, tCopy is NULL at threadExit, where it is followed. *)
Definition crinitDispatchThreadFunc (p : task_ptr) (mode : crinitDispatchThreadMode) :
    M S (bool * list (list string)) :=
  err ← lock_db;
  if negb (err =? 0) then mundef else
  t ← deref p;
  r ← crinitTaskDup t;
  match r with
  | None => mundef
  | Some t =>
      unlock_db ;;
      '(r, env) ← crinitEnvSetSet (t_taskEnv t) CRINIT_ENV_NOTIFY_NAME (t_name t);
      let t := set_t_taskEnv env t in
      if r =? -1 then thread_fail t (-1) ;; thread_exit t ;; mret (false, []) else
      cmds ← thread_commands mode t;
      '(rc, pid, started) ← crinitHandleCommands (t_name t) cmds t
         (match mode with CRINIT_DISPATCH_THREAD_MODE_STOP => true | _ => false end);
      if negb (rc =? 0) then thread_fail t pid ;; thread_exit t ;; mret (false, started)
      else thread_done t ;; thread_exit t ;; mret (true, started)
  end.
End Operations.

(** ** What the steps of the dispatcher do *)

(** A task of which dependencies have been removed or triggers fired. *)
Definition eased (t t' : crinitTask) : Prop :=
  ∃ deps trg, t' = set_t_triggered trg (set_t_deps deps t) ∧ deps ⊆+ t_deps t.

#[export] Instance eased_preorder : PreOrder eased.
Proof.
  split.
  - intros t. exists (t_deps t), (t_triggered t). by destruct t.
  - intros t1 t2 t3 (d1 & g1 & -> & H1) (d2 & g2 & -> & H2). exists d2, g2. split; [done|]. simpl in *. by etrans.
Qed.

(** All tasks at once. *)
Definition meased (m m' : gmap string crinitTask) : Prop := ∀ name, option_Forall2 eased (m !! name) (m' !! name).

#[export] Instance meased_preorder : PreOrder meased.
Proof.
  split.
  - intros m name. destruct (m !! name); constructor. reflexivity.
  - intros m1 m2 m3 H1 H2 name. specialize (H1 name). specialize (H2 name).
    destruct H1; inversion H2; subst; constructor. by etrans.
Qed.

Lemma fulfil_eased dep t : eased t (fulfil dep t).
Proof. eexists _, _. split; [done|]. apply remove_pure_submseteq. Qed.

Lemma fulfil_meased dep m : meased m (fulfil dep <$> m).
Proof.
  intros name. rewrite lookup_fmap. destruct (m !! name); simpl; constructor. apply fulfil_eased.
Qed.

Lemma submseteq_NoDup (l k : list crinitTaskDep) : l ⊆+ k → NoDup k → NoDup l.
Proof. intros (k' & Hk)%submseteq_Permutation. rewrite Hk. by intros [? _]%NoDup_app. Qed.

Section Steps.
Context {S : Type} `{DispatchServices S}.
Implicit Types s : S.

Lemma meased_orderly s s' : stable s' → meased (db_map (get_db s)) (db_map (get_db s')) → orderly s → orderly s'.
Proof.
  intros Hst Hm Ho. apply orderly_map; [done|]. intros n t' Hl. specialize (Hm n). rewrite Hl in Hm.
  inversion Hm as [t0 t1 He Heq1 Heq2|]; subst. destruct He as (d & g & -> & Hsub).
  apply (submseteq_NoDup _ _ Hsub). by eapply orderly_nodup.
Qed.

Lemma meased_calm s s' : stable s' → meased (db_map (get_db s)) (db_map (get_db s')) → calm s → calm s'.
Proof.
  intros Hst Hm [Ho Hc]. split; [by eapply meased_orderly|].
  intros n t' Hl. specialize (Hm n). rewrite Hl in Hm.
  inversion Hm as [t0 t1 He Heq1 Heq2|]; subst. destruct He as (d & g & -> & _). simpl. by eapply Hc.
Qed.

(** *** Without failing calls *)

Lemma quiet_setpid pid name s :
  calm s → quiet s →
  wp (crinitTaskDBSetTaskPID pid name) (λ r s', calm s' ∧ quiet s' ∧ updated name (set_t_pid pid) s r s') s.
Proof.
  intros Hc Hq. eapply wp_mono; [|apply setpid_spec; apply Hc].
  intros r s' Hup. split_and!; [by eapply updated_calm|by apply Hup|done].
Qed.

Lemma quiet_fulfill dep s :
  orderly s → quiet s →
  wp (crinitTaskDBFulfillDep dep None)
     (λ r s', r = 0 ∧ stable s' ∧ quiet s' ∧ meased (db_map (get_db s)) (db_map (get_db s')) ∧
        gone dep (get_db s') ∧ (∀ d, gone d (get_db s) → gone d (get_db s'))) s.
Proof.
  intros [Hst Hu] Hq. eapply wp_mono; [|by apply fulfill_spec].
  intros r s' (Hst' & Hf & [[-> Hdb]|(_ & _ & Hnq)]); [|done].
  split_and!; [done|done|by apply Hf| | |].
  - rewrite Hdb. change (db_map (add_changed ?d)) with (db_map d). rewrite db_map_fulfil. apply fulfil_meased.
  - rewrite Hdb. by apply (gone_fulfil dep (get_db s)).
  - intros d Hg. rewrite Hdb. by apply (gone_fulfil_other d dep (get_db s)).
Qed.

(** *** Calls that change nothing but the decisions of the environment *)

Definition harmless {A} (m : M S A) (Q : A → Prop) : Prop :=
  ∀ s, idle s → wp m (λ r s', only_faults s s' ∧ Q r) s.

Lemma harmless_ret {A} (a : A) (Q : A → Prop) : Q a → harmless (mret a) Q.
Proof. intros HQ s _. by apply wp_ret. Qed.

Lemma harmless_bind {A B} (m : M S A) (k : A → M S B) (P : A → Prop) (Q : B → Prop) :
  harmless m P → (∀ a, P a → harmless (k a) Q) → harmless (m ≫= k) Q.
Proof.
  intros Hm Hk s Hi. apply wp_bind. eapply wp_mono; [|by apply Hm]. intros a s1 [Hf1 HP].
  eapply wp_mono; [|apply Hk; [done|by eapply only_faults_idle]]. intros b s2 [Hf2 HQ].
  split; [by etrans|done].
Qed.

Lemma harmless_any {A} (m : M S A) (Q : A → Prop) : harmless m Q → harmless m (λ _, True).
Proof. intros Hm s Hi. eapply wp_mono; [|by apply Hm]. naive_solver. Qed.

Lemma spawn_single_ok cmd av env fa (s : S) : wp (crinitSpawnSingleCommand cmd av env fa) (λ _ s', only_faults s s') s.
Proof. apply wp_bind. eapply wp_mono; [|apply spawn_process_ok]. intros [errno pid] s' Hs. by apply wp_ret. Qed.

Lemma harmless_fallible : harmless fallible (λ _, True).
Proof. intros s _. apply wp_fallible_why. by intros b s' Hf _. Qed.

Lemma harmless_fallibleN n : harmless (fallibleN n) (λ _, True).
Proof.
  induction n as [|n IH]; simpl; [by apply harmless_ret|].
  eapply harmless_bind; [apply harmless_fallible|]. intros [] _; [by apply harmless_ret|done].
Qed.

Lemma harmless_fifo p m : harmless (crinitEnsureFifo p m) (λ _, True).
Proof.
  unfold crinitEnsureFifo. destruct p as [p|]; [|by apply harmless_ret].
  eapply (harmless_bind _ _ (λ _, True)).
  { intros s _. eapply wp_mono; [|apply mkfifo_ok]. naive_solver. }
  intros e _. case_if; [by apply harmless_ret|]. case_if; [|by apply harmless_ret].
  eapply (harmless_bind _ _ (λ _, True)).
  { intros s _. eapply wp_mono; [|apply stat_ok]. naive_solver. }
  intros [[]|] _; by apply harmless_ret.
Qed.

Lemma harmless_addaction r : harmless (crinitPosixSpawnAddIOFileAction r) (λ _, True).
Proof.
  unfold crinitPosixSpawnAddIOFileAction. case_if; [by apply harmless_ret|].
  destruct (path r); [|case_if; [by apply harmless_ret|]];
    (eapply harmless_bind; [apply harmless_fallible|]; intros [] _; by apply harmless_ret).
Qed.

Lemma harmless_redirs l : harmless (crinitPrepareIoRedirectionsForSpawn l) (λ _, True).
Proof.
  induction l as [|r l IH]; simpl; [by apply harmless_ret|].
  eapply (harmless_bind _ _ (λ _, True)); [case_if; [apply harmless_fifo|by apply harmless_ret]|].
  intros f _. case_if; [by apply harmless_ret|].
  eapply harmless_bind; [apply harmless_addaction|]. intros [a|] _; [|by apply harmless_ret].
  eapply harmless_bind; [apply IH|]. intros rest _. by apply harmless_ret.
Qed.

Lemma harmless_strarr text dq :
  collect_args (Datatypes.S (String.length text)) text dq ≠ PUndef →
  harmless (crinitConfConvToStrArr text dq) (λ _, True).
Proof.
  intros Hne. unfold crinitConfConvToStrArr. eapply harmless_bind; [apply harmless_fallible|].
  intros [] _; [by apply harmless_ret|]. destruct (count_args _ text dq); [|by apply harmless_ret].
  eapply harmless_bind; [apply harmless_fallible|]. intros [] _; [by apply harmless_ret|].
  case_if; [by apply harmless_ret|]. destruct (collect_args _ text dq); [case_if| |done]; by apply harmless_ret.
Qed.

(** A command the dispatcher can start: it has a program, and the launcher, if
    it is used, does not read past the argument array. *)
Definition launch_ok (t : crinitTask) (c : crinitTaskCmd) : Prop :=
  argv c ≠ [] ∧
  (use_launcher t = true → target_length (tail (argv c)) ≤ 8 * (Z.of_nat (length (argv c)) + 1)).

Lemma harmless_launcher c t cmd :
  launch_ok t c → use_launcher t = true → harmless (crinitCreateLauncherParameters c t cmd) (λ _, True).
Proof.
  intros [Hne Hfit] Hu. specialize (Hfit Hu). unfold crinitCreateLauncherParameters.
  destruct (argv c) as [|arg0 args]; [done|]. simpl in Hfit.
  eapply harmless_bind; [intros s Hi; by apply defaultcaps_ok|]. intros [rc caps] Hcaps. simpl in Hcaps.
  eapply (harmless_bind _ _ (λ o, ∀ c, o = Some c → collect_args (Datatypes.S (String.length c)) c true ≠ PUndef)).
  { destruct (Z.eqb_spec rc (-1)).
    - eapply harmless_bind; [apply harmless_fallible|]. intros [] _; apply harmless_ret; [done|].
      by intros ? [= <-].
    - apply harmless_ret. intros ? [= <-]. by apply Hcaps. }
  intros dc Hdc. eapply (harmless_bind _ _ (λ _, True)).
  { destruct dc as [dc|]; [|by apply harmless_ret]. unfold crinitCapConvertToBitmask.
    eapply harmless_bind; [apply harmless_strarr; by apply Hdc|]. intros [] _; by apply harmless_ret. }
  intros [mask|] _; [|by apply harmless_ret].
  eapply (harmless_bind _ _ (λ _, True)).
  { destruct (t_cgroup t) as [g|]; [destruct (cg_name g)|]; [apply harmless_fallible|by apply harmless_ret..]. }
  intros [] _; [by apply harmless_ret|]. eapply harmless_bind; [apply harmless_fallibleN|].
  intros [] _; [by apply harmless_ret|]. eapply (harmless_bind _ _ (λ _, True)).
  { destruct (t_supGroups t); [by apply harmless_ret|apply harmless_fallible]. }
  intros [] _; [by apply harmless_ret|].
  rewrite (proj2 (Z.ltb_ge _ _)) by (simpl in *; lia). by apply harmless_ret.
Qed.
Context (Hhook : ∀ name ty data s, idle s → wp (crinitFeatureHook name ty data) (λ r _, r ≠ -1) s).

Lemma good_hook name ty data (Q : Z → S → Prop) s :
  idle s → (∀ r s', r ≠ -1 → frame s s' → get_db s' = get_db s → Q r s') →
  wp (crinitFeatureHook name ty data) Q s.
Proof using Hhook.
  intros Hi HQ. destruct (wp_elim _ _ _ (hook_ok name ty data s Hi)) as (r & s' & Hr & Hdb & Hth & Hid & Hqq).
  pose proof (Hhook name ty data s Hi) as Hne. unfold wp in Hne. rewrite Hr in Hne.
  eapply wp_intro; [done|]. apply HQ; [done| |done]. split_and!; auto.
Qed.

Lemma quiet_provide prv st s :
  orderly s → quiet s →
  wp (provide_loop prv st)
     (λ r s', stable s' ∧ orderly s' ∧ quiet s' ∧ meased (db_map (get_db s)) (db_map (get_db s')) ∧
        (∀ d, gone d (get_db s) → gone d (get_db s'))) s.
Proof using Hhook.
  revert s. induction prv as [|p prv IH]; intros s Ho Hq; simpl.
  { apply wp_ret. split_and!; [apply Ho|done|done|done|done]. }
  assert (∀ s1, orderly s1 → quiet s1 → meased (db_map (get_db s)) (db_map (get_db s1)) →
    (∀ d, gone d (get_db s) → gone d (get_db s1)) → ∀ data ty,
    wp (r ← crinitFeatureHook (Some (prv_name p)) ty data; if r =? -1 then mret (-1) else provide_loop prv st)
      (λ r s', stable s' ∧ orderly s' ∧ quiet s' ∧ meased (db_map (get_db s)) (db_map (get_db s')) ∧
        (∀ d, gone d (get_db s) → gone d (get_db s'))) s1) as Hgo.
  { intros s1 Ho1 Hq1 Hm1 Hg1 data ty. apply wp_bind, good_hook; [apply Ho1|]. intros r s2 Hr Hf2 Hdb2.
    rewrite (proj2 (Z.eqb_neq _ _) Hr).
    eapply wp_mono; [|apply IH; [by eapply orderly_frame|by apply Hf2]].
    intros r3 s3 (Hst3 & Ho3 & Hq3 & Hm3 & Hg3). rewrite Hdb2 in Hm3, Hg3.
    split_and!; [done|done|done|by etrans|auto]. }
  destruct (prv_stateReq p =? st); [|by apply Hgo].
  apply wp_bind. eapply wp_mono; [|by apply quiet_fulfill].
  intros r s1 (-> & Hst1 & Hq1 & Hm1 & _ & Hg1). simpl. apply Hgo; [|done|done|done].
  by eapply meased_orderly.
Qed.

Lemma quiet_reap pid s : orderly s → wp (crinitReapPid pid) (λ _ s', resumed s s') s.
Proof.
  intros Ho. unfold crinitReapPid. apply wp_bind. eapply wp_mono; [|by apply block_ok].
  intros r s1 (Ho1 & Hc1 & Hq1). case_if; [by apply wp_ret|].
  apply wp_bind. eapply wp_mono; [|by apply waitpid_ok].
  intros e s2 (Ho2 & Hc2 & Hq2). repeat case_if; apply wp_ret; split_and!; auto.
Qed.

Lemma quiet_setstate st name s :
  calm s → quiet s →
  wp (crinitTaskDBSetTaskState st name)
     (λ r s', orderly s' ∧ quiet s' ∧ ∃ ts, updated name (to_state st ts) s r s') s.
Proof.
  intros [Ho Hc] Hq. eapply wp_mono; [|apply setstate_spec; [apply Ho|by apply Hc]].
  intros r s' (ts & Hup & _). split_and!; [|by apply Hup|by exists ts].
  eapply updated_orderly; [done| |done]. apply to_state_deps.
Qed.

(** The state RUNNING does not count as a failure. *)
Lemma quiet_running name s :
  calm s → quiet s →
  wp (crinitTaskDBSetTaskState CRINIT_TASK_STATE_RUNNING name) (λ r s', calm s' ∧ quiet s') s.
Proof.
  intros Hc Hq. eapply wp_mono; [|by apply quiet_setstate]. intros r s' (Ho & Hq' & ts & Hup).
  split; [|done]. eapply updated_calm; [done|apply to_state_deps| |done]. intros t. done.
Qed.

(** The process started for a command: without the launcher, the command
    itself. *)
Definition runs (t : crinitTask) (c : crinitTaskCmd) (av : list string) : Prop :=
  use_launcher t = false → av = argv c.

Lemma harmless_command c t launcher :
  launch_ok t c →
  harmless (command_argv c t launcher) (λ r, ∀ cmd av, r = Some (cmd, av) → runs t c av).
Proof.
  intros Hok. unfold command_argv, runs. destruct (use_launcher t) eqn:Hu.
  - eapply harmless_bind; [by apply harmless_launcher|]. intros a _. by apply harmless_ret.
  - destruct Hok as [Hne _]. destruct (argv c) as [|a0 args]; [done|]. apply harmless_ret.
    by intros cmd av [= <- <-].
Qed.

Lemma quiet_announce name t s :
  calm s → quiet s → wp (announce_running name t) (λ _ s', calm s' ∧ quiet s') s.
Proof using Hhook.
  intros Hc Hq. unfold announce_running. apply wp_bind. eapply wp_mono; [|by apply quiet_running].
  intros r s1 [Hc1 Hq1]. case_if; [by apply wp_ret|]. apply wp_bind.
  eapply wp_mono; [|apply quiet_fulfill; [apply Hc1|done]]. intros r2 s2 (-> & Hst2 & Hq2 & Hm2 & _ & _). simpl.
  assert (calm s2) as Hc2 by (by eapply meased_calm).
  apply wp_bind. eapply wp_mono; [|apply quiet_provide; [apply Hc2|done]].
  intros r3 s3 (Hst3 & Ho3 & Hq3 & Hm3 & _). apply wp_ret. split; [by eapply meased_calm|done].
Qed.

(** What the loop over the commands has started: all of them if it succeeds,
    else a prefix. *)
Definition started_ok (t : crinitTask) (cmds : list crinitTaskCmd) (rc : Z) (started : list (list string)) : Prop :=
  ∃ done_, done_ `prefix_of` cmds ∧ Forall2 (runs t) done_ started ∧ (rc = 0 → done_ = cmds).

Definition loop_post (t : crinitTask) (cmds : list crinitTaskCmd) (r : Z * Z * list (list string)) (s' : S) : Prop :=
  calm s' ∧ quiet s' ∧ (r.1.1 = 0 ∨ r.1.1 = -1) ∧ started_ok t cmds r.1.1 r.2.

Lemma started_none t cmds pid s :
  calm s → quiet s →
  wp (mret (-1, pid, [])) (loop_post t cmds) s.
Proof.
  intros Hc Hq. apply wp_ret. split_and!; [done|done|by right|]. exists []. split_and!; [apply prefix_nil|constructor|done].
Qed.

Lemma started_one t c cmds pid av s :
  calm s → quiet s → runs t c av →
  wp (mret (-1, pid, [av])) (loop_post t (c :: cmds)) s.
Proof.
  intros Hc Hq Hr. apply wp_ret. split_and!; [done|done|by right|]. exists [c].
  split_and!; [by apply prefix_cons, prefix_nil|by repeat constructor|done].
Qed.

Lemma quiet_handle_loop i cmds name t launcher nofa pid s :
  Forall (launch_ok t) cmds → calm s → quiet s →
  wp (handle_loop i cmds name t launcher nofa pid)
     (loop_post t cmds) s.
Proof using Hhook.
  intros Hall. revert i pid s. induction Hall as [|c cmds Hok Hall IH]; intros i pid s Hc Hq; simpl.
  { apply wp_ret. split_and!; [done|done|by left|]. exists []. split_and!; [done|constructor|done]. }
  assert (∀ {A} (m : M S A) P, harmless m P →
    ∀ (k : A → M S (Z * Z * list (list string))) Q s0, calm s0 → quiet s0 →
    (∀ a s', P a → calm s' → quiet s' → wp (k a) Q s') → wp (m ≫= k) Q s0) as Hstep.
  { intros A m P Hm k Q s0 Hc0 Hq0 Hk. apply wp_bind. eapply wp_mono; [|apply Hm; apply Hc0].
    intros a s' [Hf HP]. apply Hk; [done|by eapply calm_faults|by eapply only_faults_quiet]. }
  eapply Hstep; [apply harmless_fallible|done|done|]. intros [] s1 _ Hc1 Hq1; [by apply started_none|].
  eapply Hstep; [apply harmless_redirs|done|done|]. intros [fa|] s2 _ Hc2 Hq2; [|by apply started_none].
  eapply Hstep; [by apply harmless_command|done|done|].
  intros [[cmd av]|] s3 Hruns Hc3 Hq3; [|by apply started_none]. specialize (Hruns _ _ eq_refl).
  eapply (Hstep _ _ (λ _, True));
    [intros s' _; eapply wp_mono; [|apply spawn_single_ok]; naive_solver|done|done|].
  intros [errno pid'] s4 _ Hc4 Hq4. case_if; [by apply started_none|].
  apply wp_bind. eapply wp_mono; [|by apply quiet_setpid]. intros r s5 (Hc5 & Hq5 & _).
  case_if; [by apply started_one|]. apply wp_bind.
  apply (wp_mono _ (λ _ s', calm s' ∧ quiet s')); [|case_if; [by apply quiet_announce|by apply wp_ret]].
  intros go s6 [Hc6 Hq6]. case_if; [by apply started_one|].
  apply wp_bind. eapply wp_mono; [|apply waitid_ok; apply Hc6]. intros w s7 (_ & Hc7 & Hq7). specialize (Hc7 Hc6). specialize (Hq7 Hq6).
  case_if; [by apply started_one|].
  apply wp_bind. eapply wp_mono; [|by apply quiet_setpid]. intros r8 s8 (Hc8 & Hq8 & _).
  apply wp_bind. eapply wp_mono; [|apply quiet_reap; apply Hc8]. intros r9 s9 (_ & Hc9 & Hq9).
  specialize (Hc9 Hc8). specialize (Hq9 Hq8).
  apply wp_bind. eapply wp_mono; [|by apply IH]. intros [[rc pid2] started] s10 (Hc10 & Hq10 & Hrc & d & Hpre & Hf2 & Hall0).
  apply wp_ret. split_and!; [done|done|done|]. exists (c :: d).
  split_and!; [by apply prefix_cons|by constructor|]. intros Hz. simpl in *. by rewrite Hall0.
Qed.

Lemma quiet_handle name cmds t nofa s :
  Forall (launch_ok t) cmds → calm s → quiet s →
  wp (crinitHandleCommands name cmds t nofa)
     (loop_post t cmds) s.
Proof using Hhook.
  intros Hall Hc Hq. unfold crinitHandleCommands. apply wp_bind.
  eapply wp_mono; [|apply launcher_ok; apply Hc]. intros [rc launcher] s1 Hf1.
  assert (calm s1) as Hc1 by (by eapply calm_faults). assert (quiet s1) as Hq1 by (by eapply only_faults_quiet).
  case_if; [by apply started_none|]. apply wp_bind.
  apply (wp_mono _ (λ _ s', calm s' ∧ quiet s')).
  - intros r s2 [Hc2 Hq2]. case_if; [by apply started_none|by apply quiet_handle_loop].
  - destruct (t_cgroup t) as [g|]; [|by apply wp_ret].
    eapply wp_mono; [|apply cgroup_ok; apply Hc1]. intros r s2 Hf2.
    split; [by eapply calm_faults|by apply (only_faults_quiet s1)].
Qed.

(** *** The end of the thread *)

(** The task has ended in state [st], unless it is armed again for its next
    trigger. *)
Definition final_state (t : crinitTask) (st : Z) : Z :=
  if t_opts t &? CRINIT_TASK_OPT_TRIGGER_REARM then CRINIT_TASK_STATE_LOADED else st.

Definition in_state (name : string) (P : Z → Prop) (d : crinitTaskDB) : Prop :=
  ∀ t', db_map d !! name = Some t' → P (t_state t').

Lemma meased_in_state name P s s' :
  meased (db_map (get_db s)) (db_map (get_db s')) → in_state name P (get_db s) → in_state name P (get_db s').
Proof.
  intros Hm HP t' Hl. specialize (Hm name). rewrite Hl in Hm.
  inversion Hm as [t0 t1 He Heq1 Heq2|]; subst. destruct He as (d & g & -> & _). simpl. by apply HP.
Qed.

Lemma quiet_thread_done t s :
  calm s → quiet s →
  wp (thread_done t) (λ _ s', orderly s' ∧ quiet s' ∧
    in_state (t_name t) (λ st, st = CRINIT_TASK_STATE_DONE) (get_db s') ∧
    gone (mkDep (t_name t) CRINIT_TASK_EVENT_DONE) (get_db s')) s.
Proof using Hhook.
  intros Hc Hq. unfold thread_done. apply wp_bind. eapply wp_mono; [|by apply quiet_setstate].
  intros r1 s1 (Ho1 & Hq1 & ts & Hup). apply wp_bind. eapply wp_mono; [|by apply quiet_fulfill].
  intros r2 s2 (_ & Hst2 & Hq2 & Hm2 & Hg2 & _).
  assert (in_state (t_name t) (λ st, st = CRINIT_TASK_STATE_DONE) (get_db s1)) as Hs1.
  { destruct Hup as (_ & _ & [(_ & t0 & _ & E)|(_ & E & Hno)]); intros t' Hl.
    - rewrite E, lookup_insert_eq in Hl. by simplify_eq.
    - rewrite E, Hno in Hl by done. done. }
  assert (orderly s2) as Ho2 by (by eapply meased_orderly).
  apply wp_bind. eapply wp_mono; [|by apply quiet_provide].
  intros r3 s3 (_ & Ho3 & Hq3 & Hm3 & Hg3). apply wp_ret.
  split_and!; [done|done| |by apply Hg3]. eapply meased_in_state; [done|]. by eapply meased_in_state.
Qed.

Lemma quiet_thread_fail t pid s :
  calm s → quiet s →
  wp (thread_fail t pid) (λ _ s', orderly s' ∧ quiet s' ∧
    gone (mkDep (t_name t) CRINIT_TASK_EVENT_FAILED) (get_db s')) s.
Proof using Hhook.
  intros Hc Hq. unfold thread_fail. apply wp_bind. eapply wp_mono; [|by apply quiet_setstate].
  intros r1 s1 (Ho1 & Hq1 & _). apply wp_bind. eapply wp_mono; [|apply setpid_spec; apply Ho1].
  intros r2 s2 Hup2. assert (orderly s2) as Ho2 by (by eapply updated_orderly).
  assert (quiet s2) as Hq2 by (by apply Hup2).
  apply wp_bind, (wp_mono _ (λ _ s', orderly s' ∧ quiet s')).
  2:{ case_if; [|by apply wp_ret]. eapply wp_mono; [|by apply quiet_reap]. intros ? s' (? & _ & Hq'). auto. }
  intros r3 s3 [Ho3 Hq3]. apply wp_bind. eapply wp_mono; [|by apply quiet_fulfill].
  intros r4 s4 (_ & Hst4 & Hq4 & Hm4 & Hg4 & _).
  assert (orderly s4) as Ho4 by (by eapply meased_orderly).
  apply wp_bind. eapply wp_mono; [|by apply quiet_provide].
  intros r5 s5 (_ & Ho5 & Hq5 & _ & Hg5). apply wp_ret. split_and!; [done|done|by apply Hg5].
Qed.

Lemma wp_remove_timers (l : list crinitTaskDep) s :
  orderly s → quiet s →
  wp (mfor l (λ d, if str_eqb (dep_name d) "@timer" then crinitTimerDBRemoveTimer (dep_event d) else mret tt))
     (λ _ s', orderly s' ∧ quiet s' ∧ get_db s' = get_db s) s.
Proof.
  intros Ho Hq. apply (wp_for _ _ (λ s', orderly s' ∧ quiet s' ∧ get_db s' = get_db s)); [|done].
  intros d s1 _ (Ho1 & Hq1 & E1). case_if; [|by apply wp_ret].
  apply wp_removeTimer; [apply Ho1|]. intros s2 Hf2 E2.
  split_and!; [by eapply orderly_frame|by apply Hf2|congruence].
Qed.

Lemma quiet_thread_exit t s :
  orderly s → quiet s →
  wp (thread_exit t) (λ _ s', orderly s' ∧ quiet s' ∧
    (∀ st, in_state (t_name t) (λ x, x = st) (get_db s) →
           in_state (t_name t) (λ x, x = final_state t st) (get_db s')) ∧
    (∀ d, gone d (get_db s) → gone d (get_db s'))) s.
Proof.
  intros Ho Hq. unfold thread_exit, final_state. apply wp_bind.
  apply (wp_mono _ (λ _ s', orderly s' ∧ quiet s' ∧
    (∀ st, in_state (t_name t) (λ x, x = st) (get_db s) →
           in_state (t_name t) (λ x, x = final_state t st) (get_db s')) ∧
    (∀ d, gone d (get_db s) → gone d (get_db s')))).
  - intros [] s1 (Ho1 & Hq1 & Hs1 & Hg1).
    eapply wp_mono; [|apply (benign_destroy True); apply Ho1].
    intros [] s2 [Hof _]. pose proof (db_only_faults _ _ Hof) as E. rewrite E.
    split_and!; [|by eapply only_faults_quiet|done|done].
    eapply orderly_frame; [done|by apply frame_faults|done].
  - unfold final_state. destruct (t_opts t &? CRINIT_TASK_OPT_TRIGGER_REARM).
    2:{ eapply wp_mono; [|by apply wp_remove_timers]. intros [] s1 (Ho1 & Hq1 & E). rewrite E. by split_and!. }
    apply wp_bind. eapply wp_mono; [|apply rearm_spec; apply Ho].
    intros r s1 (Hst1 & Hf1 & [(_ & t0 & Ht0 & E)|(_ & E & Hno)]); apply wp_ret.
    + assert (∀ n t', db_map (get_db s1) !! n = Some t' →
        ∃ t2, db_map (get_db s) !! n = Some t2 ∧ t_deps t' = t_deps t2) as Hdeps.
      { intros n t'. rewrite E. intros [[<- <-]|[_ Hl]]%lookup_insert_Some; eauto. }
      split_and!; [|by apply Hf1| |].
      * apply orderly_map; [done|]. intros n t' (t2 & Ht2 & ->)%Hdeps. by eapply orderly_nodup.
      * intros st _ t' Hl. rewrite E, lookup_insert_eq in Hl. by simplify_eq.
      * intros d Hg. apply gone_map; [apply Hst1|]. intros n t' (t2 & Ht2 & ->)%Hdeps.
        eapply gone_map; [apply Ho|done|done].
    + assert (db_map (get_db s1) = db_map (get_db s)) as Em by (unfold db_map; by rewrite E).
      split_and!; [|by apply Hf1| |].
      * apply orderly_map; [done|]. rewrite Em. by intros n t'; apply orderly_nodup.
      * intros st _ t' Hl. rewrite Em, Hno in Hl by done. done.
      * intros d. unfold gone. by rewrite E.
Qed.

(** A thread that was started with a pointer that is still good. *)
Definition points_to (p : task_ptr) (t : crinitTask) (d : crinitTaskDB) : Prop :=
  p.1 = gen d ∧ taskSet d !! p.2 = Some (mkSlot Live t).

(** Locking, copying and unlocking at the start of the thread. *)
Lemma wp_thread_copy {A} p t (k : crinitTask → M S A) (Q : A → S → Prop) s :
  calm s → quiet s → points_to p t (get_db s) →
  (∀ s', calm s' → quiet s' → wp (k t) Q s') →
  wp (err ← lock_db;
      if negb (err =? 0) then mundef else
      t ← deref p;
      r ← crinitTaskDup t;
      match r with None => mundef | Some t => unlock_db ;; k t end) Q s.
Proof.
  intros Hc Hq [Hgen Hslot] HQ. pose proof Hc as [[[Hok Hu Hi] _] _].
  apply wp_bind, wp_lock; [apply Hok|done|by intros|]. intros s1 Hf1 Hdb1. simpl.
  apply wp_bind. unfold deref. apply wp_bind, wp_mdb. rewrite Hdb1. simpl.
  rewrite Hgen, Nat.eqb_refl. simpl. rewrite Hslot. apply wp_ret.
  apply wp_bind. eapply wp_intro; [apply dup_quiet|].
  { by eapply (find_ok s). } { by apply Hf1. } { by apply Hf1. }
  apply wp_bind, wp_unlock; [by rewrite Hdb1|]. intros s2 Hf2 Hdb2.
  rewrite Hdb1, unlock_lock in Hdb2 by done.
  apply HQ; [|by apply Hf2, Hf1]. eapply calm_frame; [done|by etrans|done].
Qed.

(** What a thread in start mode promises. *)
Record thread_post (t : crinitTask) (r : bool * list (list string)) (s' : S) : Prop := {
  th_orderly : orderly s';
  th_started : started_ok t (t_cmds t) (if r.1 then 0 else -1) r.2;
  th_done : r.1 = true →
    in_state (t_name t) (λ st, st = final_state t CRINIT_TASK_STATE_DONE) (get_db s') ∧
    gone (mkDep (t_name t) CRINIT_TASK_EVENT_DONE) (get_db s');
  th_failed : r.1 = false → gone (mkDep (t_name t) CRINIT_TASK_EVENT_FAILED) (get_db s');
}.

Lemma started_env t env cmds rc st : started_ok (set_t_taskEnv env t) cmds rc st → started_ok t cmds rc st.
Proof. done. Qed.

Lemma quiet_thread_failed t env pid started s :
  calm s → quiet s → started_ok t (t_cmds t) (-1) started →
  wp (thread_fail (set_t_taskEnv env t) pid ;; thread_exit (set_t_taskEnv env t) ;; mret (false, started))
     (thread_post t) s.
Proof using Hhook.
  intros Hc Hq Hst. apply wp_bind. eapply wp_mono; [|by apply quiet_thread_fail].
  intros [] s1 (Ho1 & Hq1 & Hg1). apply wp_bind. eapply wp_mono; [|by apply quiet_thread_exit].
  intros [] s2 (Ho2 & _ & _ & Hg2). apply wp_ret. split; [done|done|done|]. intros _. by apply Hg2.
Qed.

Lemma quiet_thread_succeeded t env started s :
  calm s → quiet s → started_ok t (t_cmds t) 0 started →
  wp (thread_done (set_t_taskEnv env t) ;; thread_exit (set_t_taskEnv env t) ;; mret (true, started))
     (thread_post t) s.
Proof using Hhook.
  intros Hc Hq Hst. apply wp_bind. eapply wp_mono; [|by apply quiet_thread_done].
  intros [] s1 (Ho1 & Hq1 & Hs1 & Hg1). apply wp_bind. eapply wp_mono; [|by apply quiet_thread_exit].
  intros [] s2 (Ho2 & _ & Hs2 & Hg2). apply wp_ret. split; [done|done| |done].
  intros _. split; [by apply Hs2|by apply Hg2].
Qed.

Lemma wp_dispatch p t s :
  calm s → quiet s → points_to p t (get_db s) → Forall (launch_ok t) (t_cmds t) →
  Z.of_nat (String.length (CRINIT_ENV_NOTIFY_NAME +:+ "=" +:+ t_name t)%string) ≤ INT_MAX →
  wp (crinitDispatchThreadFunc p CRINIT_DISPATCH_THREAD_MODE_START) (thread_post t) s.
Proof using Hhook.
  intros Hc Hq Hp Hl Hlen. pose proof (find_ok s p.2 t (ord_stable _ (proj1 Hc)) (proj2 Hp)) as Ht.
  apply (wp_thread_copy p t); [done|done|done|]. intros s1 Hc1 Hq1.
  destruct (ok_env _ Ht) as [l Hwf]. apply wp_bind.
  destruct (wp_elim _ _ _ (set_wf _ _ CRINIT_ENV_NOTIFY_NAME (t_name t) s1 Hwf eq_refl Hlen))
    as ([r env] & s2 & Hrun & _).
  destruct (wlp_elim _ _ _ _ _ (set_quiet_result _ _ CRINIT_ENV_NOTIFY_NAME (t_name t) s1 Hwf Hq1 Hlen) Hrun)
    as [-> _].
  eapply wp_intro; [done|]. simpl. case_if.
  { apply quiet_thread_failed; [done|done|]. exists []. split_and!; [apply prefix_nil|constructor|done]. }
  apply wp_bind, wp_ret, wp_bind. eapply wp_mono; [|by apply quiet_handle].
  intros [[rc pid] started] s3 (Hc3 & Hq3 & Hrc & Hst). simpl in Hrc, Hst. case_if.
  - apply quiet_thread_failed; [done|done|]. destruct Hrc as [->| ->]; [done|by apply started_env in Hst].
  - replace rc with 0 in Hst by lia. apply quiet_thread_succeeded; [done|done|by apply started_env in Hst].
Qed.
End Steps.
