(* ===== verification/DispatchProps.v ===== *)
(** * What the dispatcher promises: theorems about procdip.c

    The outcome of a dispatcher thread, the capabilities a task is started
    with, the expansion of the PID in stop commands, and the two places where a
    thread leaves defined behaviour. *)

From Stdlib Require Import ZArith Lia Bool List String Ascii.
From stdpp Require Import base list strings gmap.
From S2P Require Import Prelude EnvSet Timer Task TaskDB TaskDBSpec TaskDBProps Lexers ConfConv Dispatch.

Open Scope Z_scope.
Open Scope crinit_scope.

(** ** Replacing "${TASK_PID}" *)

Definition pid_var : string := "${TASK_PID}".

(** [skip] characters still belong to an occurrence. *)
Fixpoint replace_from (skip : nat) (pid s : string) : string :=
  match s with
  | EmptyString => EmptyString
  | String c s' =>
      match skip with
      | Datatypes.S k => replace_from k pid s'
      | O => if String.prefix pid_var s then (pid +:+ replace_from 10 pid s')%string
             else String c (replace_from 0 pid s')
      end
  end.
Definition replace_pid (pid s : string) : string := replace_from 0 pid s.

(** An occurrence somewhere in the text. *)
Fixpoint mentions_pid (s : string) : bool :=
  String.prefix pid_var s || match s with EmptyString => false | String _ s' => mentions_pid s' end.

Lemma prefix_split p s : String.prefix p s = true → ∃ r, s = (p +:+ r)%string.
Proof.
  revert p. induction s as [|d s IH]; intros [|c p] Hp; simpl in *; [by eexists|done|by eexists|].
  destruct (ascii_dec c d) as [->|]; [|done]. destruct (IH p Hp) as [r ->]. by exists r.
Qed.

Lemma prefix_pid_app r : String.prefix pid_var (pid_var +:+ r)%string = true.
Proof. by destruct r. Qed.

Lemma prefix_pid_lex s : String.prefix pid_var s = true → ∃ r, s = (pid_var +:+ r)%string ∧ lex_var s = Some ("TASK_PID"%string, r).
Proof. intros [r ->]%prefix_split. by exists r. Qed.

Lemma replace_pid_app pid r : replace_pid pid (pid_var +:+ r)%string = (pid +:+ replace_pid pid r)%string.
Proof.
  assert (∀ c s, replace_pid pid (String c s) =
    if String.prefix pid_var (String c s) then (pid +:+ replace_from 10 pid s)%string
    else String c (replace_pid pid s)) as Hstep by done.
  change (pid_var +:+ r)%string with (String "$" ("{TASK_PID}" +:+ r))%string.
  rewrite Hstep. change (String "$" ("{TASK_PID}" +:+ r))%string with (pid_var +:+ r)%string.
  by rewrite prefix_pid_app.
Qed.

Lemma mentions_pid_app r : mentions_pid (pid_var +:+ r)%string = true.
Proof.
  change (String.prefix pid_var (pid_var +:+ r)%string || mentions_pid ("{TASK_PID}" +:+ r)%string = true).
  by rewrite prefix_pid_app.
Qed.

(** A character that starts no occurrence is kept. *)
Lemma replace_pid_cons pid c s :
  String.prefix pid_var (String c s) = false →
  replace_pid pid (String c s) = String c (replace_pid pid s) ∧ mentions_pid (String c s) = mentions_pid s.
Proof.
  intros Hp. unfold replace_pid. cbn [replace_from mentions_pid]. by rewrite Hp.
Qed.

Lemma prefix_pid_dollar c s : c ≠ "$"%char → String.prefix pid_var (String c s) = false.
Proof. intros Hc. unfold pid_var. cbn [String.prefix]. by destruct (ascii_dec "$" c) as [<-|]. Qed.

Lemma replace_pid_plain pid m r :
  str_has "$"%char m = false →
  replace_pid pid (m +:+ r)%string = (m +:+ replace_pid pid r)%string ∧
  mentions_pid (m +:+ r)%string = mentions_pid r.
Proof.
  induction m as [|c m IH]; [done|]. rewrite str_has_cons. intros [Hc Hm]%orb_false_iff.
  apply bool_decide_eq_false in Hc. destruct (IH Hm) as [E1 E2].
  change (String c m +:+ r)%string with (String c (m +:+ r)).
  destruct (replace_pid_cons pid c (m +:+ r)%string (prefix_pid_dollar _ _ Hc)) as [-> ->].
  by rewrite E1, E2.
Qed.

Lemma substring_pre pre s : String.substring 0 (String.length pre) (pre +:+ s)%string = pre.
Proof.
  induction pre as [|c pre IH]; [by destruct s|].
  change (String c pre +:+ s)%string with (String c (pre +:+ s)). simpl. by rewrite IH.
Qed.

(** What the loop makes of the rest of the text, with [pre] seen but not yet
    copied. *)
Definition expanded (pid pre s : string) (result : option string) : option string :=
  match result with
  | None => if mentions_pid s then Some (pre +:+ replace_pid pid s)%string else None
  | Some res => Some (res +:+ pre +:+ replace_pid pid s)%string
  end.

Lemma expanded_pid pid pre r result :
  expanded pid "" r (Some (default "" result +:+ pre +:+ pid)%string) = expanded pid pre (pid_var +:+ r)%string result.
Proof.
  unfold expanded. rewrite replace_pid_app, mentions_pid_app. destruct result as [res|]; simpl;
    by rewrite ?string_app_assoc.
Qed.

Lemma expanded_plain pid pre m s result r :
  s = (m +:+ r)%string → replace_pid pid s = (m +:+ replace_pid pid r)%string → mentions_pid s = mentions_pid r →
  expanded pid (pre +:+ m)%string r result = expanded pid pre s result.
Proof. intros -> E1 E2. unfold expanded. rewrite E1, E2. destruct result; by rewrite ?string_app_assoc. Qed.

(** Another variable is kept as it is written. *)
Lemma replace_var pid name r :
  name ≠ "TASK_PID"%string → lex_var ("${" +:+ name +:+ "}" +:+ r)%string = Some (name, r) →
  str_has "$"%char name = false →
  let s := (("${" +:+ name +:+ "}") +:+ r)%string in
  replace_pid pid s = (("${" +:+ name +:+ "}") +:+ replace_pid pid r)%string ∧ mentions_pid s = mentions_pid r.
Proof.
  intros Hn Hlex Hd. simpl. rewrite !string_app_assoc.
  change ("${" +:+ ?x)%string with (String "$" ("{" +:+ x))%string.
  assert (String.prefix pid_var (String "$" ("{" +:+ name +:+ "}" +:+ r)%string) = false) as Hp.
  { destruct (String.prefix _ _) eqn:Hp; [|done]. apply prefix_pid_lex in Hp as (r' & _ & Hr).
    change (lex_var ("${" +:+ name +:+ "}" +:+ r)%string = Some ("TASK_PID"%string, r')) in Hr. congruence. }
  destruct (replace_pid_cons pid _ _ Hp) as [F1 F2].
  destruct (replace_pid_plain pid ("{" +:+ name +:+ "}")%string r) as [E1 E2].
  { by rewrite !str_has_app, Hd. }
  do 3 rewrite ?string_app_assoc in E1. rewrite !string_app_assoc in E2. rewrite <- E2. split; [|exact F2].
  etrans; [exact F1|]. exact (f_equal (String "$"%char) E1).
Qed.

Section Expand.
Context {S : Type} `{DispatchServices S}.

Lemma expand_loop fuel s pre pid result s0 :
  quiet s0 → (String.length s < fuel)%nat → str_has c_backslash s = false →
  expand_pid_loop fuel s (pre +:+ s)%string (String.length pre) pid result s0 =
  Ret (Some (expanded pid pre s result)) s0.
Proof.
  intros Hq. revert s pre result. induction fuel as [|fuel IH]; intros s pre result Hf Hb; [lia|].
  destruct s as [|c s]; cbn [expand_pid_loop crinitEnvVarInnerLex].
  { destruct result as [res|]; [|done]. rewrite bind_fallible by done. done. }
  destruct (lex_var (String c s)) as [[name r]|] eqn:E.
  - destruct (lex_var_split _ _ _ E) as [Es Hname]. pose proof (lex_var_length _ _ _ E) as Hlen.
    rewrite bind_fallible by done. destruct (str_eqb name "TASK_PID") eqn:En; bool_hyps.
    + subst name. rewrite bind_fallible by done. simpl in Hlen.
      change (String c s = pid_var +:+ r)%string in Es. rewrite Es in Hb |- *. rewrite substring_pre.
      rewrite str_has_app in Hb. apply orb_false_iff in Hb as [_ Hb]. rewrite <- expanded_pid.
      destruct result as [res|]; [rewrite bind_fallible by done|];
        apply (IH r ""%string); simpl in *; [lia|done|lia|done].
    + set (m := ("${" +:+ name +:+ "}")%string).
      assert (String c s = m +:+ r)%string as Em by (unfold m; rewrite !string_app_assoc; done).
      rewrite Em in Hb |- *. rewrite str_has_app in Hb. apply orb_false_iff in Hb as [_ Hb].
      replace (String.length pre + String.length name + 3)%nat with (String.length (pre +:+ m)%string)
        by (unfold m; rewrite !string_length_app; simpl; lia).
      rewrite <- string_app_assoc, IH; [|simpl in *; lia|done].
      rewrite Es in E. destruct (replace_var pid name r En E) as [E1 E2]; [by apply Hname|].
      do 2 f_equal. by apply expanded_plain.
  - rewrite str_has_cons in Hb. apply orb_false_iff in Hb as [Hc Hb].
    unfold lex_escape, is_char. rewrite Hc. simpl.
    replace (Datatypes.S (String.length pre)) with (String.length (pre +:+ String c "")%string)
      by (rewrite string_length_app; simpl; lia).
    assert (String.prefix pid_var (String c s) = false) as Hp.
    { destruct (String.prefix pid_var (String c s)) eqn:Hp; [|done].
      apply prefix_pid_lex in Hp as (r & _ & Hr). congruence. }
    destruct (replace_pid_cons pid _ _ Hp) as [E1 E2].
    replace (pre +:+ String c s)%string with ((pre +:+ String c "") +:+ s)%string by by rewrite string_app_assoc.
    rewrite IH; [|simpl in *; lia|done]. do 2 f_equal. by apply expanded_plain.
Qed.

Lemma expand_single a pid s0 :
  quiet s0 → str_has c_backslash a = false →
  crinitExpandPIDVariablesInSingleCommand a pid s0 = Ret (Some (expanded (print_dec pid) "" a None)) s0.
Proof.
  intros Hq Ha. unfold crinitExpandPIDVariablesInSingleCommand. rewrite bind_fallible by done.
  apply (expand_loop _ a ""%string); [done|lia|done].
Qed.

Lemma expanded_default pid a : default a (expanded pid "" a None) = replace_pid pid a.
Proof.
  unfold expanded. destruct (mentions_pid a) eqn:Hm; [done|]. simpl.
  induction a as [|c a IH]; [done|]. cbn [mentions_pid] in Hm. apply orb_false_iff in Hm as [Hp Hm].
  destruct (replace_pid_cons pid _ _ Hp) as [-> _]. by rewrite <- IH.
Qed.

Lemma expand_args_quiet args pid used cap s0 :
  quiet s0 → Forall (λ a, str_has c_backslash a = false) args →
  expand_args args pid false used cap s0 = Ret (Some (replace_pid (print_dec pid) <$> args)) s0.
Proof.
  intros Hq Hall. revert used cap. induction Hall as [|a args Ha Hall IH]; intros used cap; simpl.
  { case_if; [by rewrite bind_fallible|done]. }
  unfold mbind at 1, M_bind at 1. rewrite expand_single by done.
  unfold mbind at 1, M_bind at 1. rewrite expanded_default.
  replace ((if (cap <? used + String.length (replace_pid (print_dec pid) a) + 1)%nat then fallible else mret false) s0)
    with (Ret false s0) by (case_if; [by rewrite fallible_quiet|done]).
  unfold mbind at 1, M_bind at 1. by rewrite IH.
Qed.

End Expand.

(** ** Theorems *)

Section Theorems.
Context {S : Type} `{DispatchServices S}.

Lemma caps_mask_bits names m mask i :
  caps_mask cap_from_name names m = Some mask → 0 ≤ i →
  Z.testbit mask i = true ↔ Z.testbit m i = true ∨ ∃ n, n ∈ names ∧ cap_from_name n = Some i.
Proof.
  revert m. induction names as [|n names IH]; intros m Hm Hi; simpl in Hm.
  { injection Hm as <-. set_solver. }
  destruct (cap_from_name n) as [v|] eqn:E; [|done]. pose proof (cap_range _ _ E).
  rewrite (IH _ Hm Hi), Z.lor_spec, Z.shiftl_1_l, Z.pow2_bits_eqb, orb_true_iff, Z.eqb_eq by lia.
  setoid_rewrite elem_of_cons. naive_solver.
Qed.

(** The stop commands of a task are run with every "${TASK_PID}" in their
    arguments replaced by the PID and nothing else changed, other variables
    included, for arguments without backslashes and without failing
    allocations. *)
Theorem crinitExpandPIDVariablesInCommands_replaces cmds pid s :
  quiet s → Forall (λ c, Forall (λ a, str_has c_backslash a = false) (argv c)) cmds →
  crinitExpandPIDVariablesInCommands cmds pid s =
  Ret ((λ c, mkCmd (replace_pid (print_dec pid) <$> argv c)) <$> cmds) s.
Proof.
  intros Hq Hall. induction Hall as [|c cmds Hc Hall IH]; [done|].
  destruct c as [[|a args]]; cbn [argv crinitExpandPIDVariablesInCommands] in *.
  - unfold mbind at 1, M_bind at 1. by rewrite IH.
  - rewrite !bind_fallible by done. unfold mbind at 1, M_bind at 1.
    rewrite expand_args_quiet by done. unfold mbind at 1, M_bind at 1. by rewrite IH.
Qed.

(** A process is started with exactly the capabilities that are in the
    default set and not cleared by the task, or set by the task. *)
Theorem effective_capabilities names mask t i :
  caps_mask cap_from_name names 0 = Some mask → 0 ≤ i < 64 →
  Z.testbit (cap_eff mask t) i = true ↔
  ((∃ n, n ∈ names ∧ cap_from_name n = Some i) ∧ Z.testbit (t_capabilitiesClear t) i = false) ∨
  Z.testbit (t_capabilitiesSet t) i = true.
Proof.
  intros Hm Hi. unfold cap_eff. rewrite Z.lor_spec, Z.land_spec, Z.lxor_spec.
  assert (Z.testbit ULONG_MAX i = true) as ->.
  { change ULONG_MAX with (Z.ones 64). by apply Z.ones_spec_low. }
  rewrite xorb_true_r, orb_true_iff, andb_true_iff, negb_true_iff, (caps_mask_bits _ _ _ _ Hm) by lia.
  rewrite Z.bits_0. naive_solver.
Qed.

(** The launcher is handed the arguments by copying as many bytes out of
    the array of pointers as the arguments have characters; with more
    characters than the array has bytes crinitCreateLauncherParameters() reads
    past the array, whatever the options of the task, unless it fails earlier. *)
Theorem crinitCreateLauncherParameters_overread c t cmd s :
  8 * (Z.of_nat (length (argv c)) + 1) < target_length (tail (argv c)) →
  wlp (crinitCreateLauncherParameters c t cmd) (λ r _, r = None) s ∧
  (quiet s → crinitGlobOptGet_DEFAULTCAPS s = Ret (-1, ""%string) s →
   crinitCreateLauncherParameters c t cmd s = Undef).
Proof.
  intros Hlen. unfold crinitCreateLauncherParameters.
  destruct (argv c) as [|arg0 args] eqn:Ec; [simpl in Hlen; lia|]. simpl tail in Hlen.
  rewrite (proj2 (Z.ltb_lt _ _) Hlen). split.
  - apply wlp_bind_any. intros [rc caps] s1. apply wlp_bind_any. intros dc s2.
    apply wlp_bind_any. intros [mask|] s3; [|by apply wlp_ret].
    do 3 (apply wlp_bind_any; intros [] ?; [by apply wlp_ret|]). done.
  - intros Hq Hcaps. rewrite (bind_run _ _ _ _ _ Hcaps). cbv beta iota. rewrite Z.eqb_refl.
    rewrite (bind_run _ _ s (Some CRINIT_CONFIG_DEFAULT_DEFAULTCAPS) s) by by rewrite bind_fallible.
    rewrite (bind_run _ _ s (Some 0) s).
    2:{ unfold crinitCapConvertToBitmask, crinitConfConvToStrArr. simpl.
        rewrite (bind_run _ _ s (Some []) s); [done|]. by rewrite !bind_fallible. }
    rewrite (bind_run _ _ s false s).
    2:{ destruct (t_cgroup t) as [g|]; [destruct (cg_name g)|]; [by apply fallible_quiet|done..]. }
    rewrite (bind_run _ _ s false s) by by apply fallibleN_quiet.
    rewrite (bind_run _ _ s false s); [done|]. destruct (t_supGroups t); [done|by apply fallible_quiet].
Qed.

Lemma run_lock fs s :
  stable s → faults s = false :: fs →
  lock_db s = Ret 0 (set_db (set_locked true (get_db s)) (set_faults fs s)).
Proof.
  intros [Hok Hu _] Hfs. unfold lock_db. rewrite (bind_run mdb _ s (get_db s) s) by done.
  rewrite (db_mutex _ Hok). simpl. rewrite (bind_run fallible _ s false (set_faults fs s)).
  2:{ unfold fallible. by rewrite Hfs. }
  rewrite Hu. unfold mdb_modify, mbind, M_bind. by rewrite db_faults.
Qed.

(** A dispatcher thread that cannot take the lock of the database, or
    cannot copy its task, follows a NULL pointer at its end, in every mode. *)
Theorem crinitDispatchThreadFunc_null_copy p t mode fs s :
  stable s → points_to p t (get_db s) → faults s = true :: fs ∨ faults s = false :: true :: fs →
  crinitDispatchThreadFunc p mode s = Undef.
Proof.
  intros Hst [Hgen Hslot] [Hfs|Hfs]; unfold crinitDispatchThreadFunc.
  - rewrite (bind_run lock_db _ s 1 (set_faults fs s)); [done|].
    unfold lock_db. rewrite (bind_run mdb _ s (get_db s) s) by done.
    rewrite (db_mutex _ (st_ok _ Hst)). simpl. unfold mbind, M_bind, fallible. by rewrite Hfs.
  - rewrite (bind_run _ _ _ _ _ (run_lock _ _ Hst Hfs)). simpl.
    set (s1 := set_db _ _). rewrite (bind_run _ _ s1 t s1).
    2:{ unfold deref, mbind, M_bind, mdb, s1. rewrite get_set_db. simpl.
        by rewrite Hgen, Nat.eqb_refl, Hslot. }
    unfold crinitTaskDup, mbind, M_bind, fallible, s1. by rewrite faults_db, faults_set.
Qed.

Lemma insert_grows t ow s :
  stable s → task_ok t → db_find (t_name t) (get_db s) = None →
  Z.of_nat (length (taskSet (get_db s))) = taskSetSize (get_db s) →
  wp (crinitTaskDBInsert t ow) (λ r s', r.1 = 0 → gen (get_db s') = Datatypes.S (gen (get_db s))) s.
Proof.
  intros [Hok Hu Hi] Ht E Hfull. unfold crinitTaskDBInsert.
  assert (∀ (b : bool) s1, locked (get_db s1) = true →
    wp (unlock_db ;; mret (-1, b)) (λ r s', r.1 = 0 → gen (get_db s') = Datatypes.S (gen (get_db s))) s1) as Hfail.
  { intros b s1 Hl. apply wp_bind, wp_unlock; [done|]. intros s2 _ _. by apply wp_ret. }
  apply wp_bind, wp_lock; [apply Hok|done|by intros; apply wp_ret|]. intros s1 Hf1 Hdb1. simpl.
  apply wp_bind, wp_find; [rewrite Hdb1; apply Hok|]. rewrite Hdb1.
  change (db_find ?n (set_locked true (get_db s))) with (db_find n (get_db s)). rewrite E. simpl.
  apply wp_bind, wp_ret, wp_bind. unfold insert_slot. apply wp_bind, wp_mdb. rewrite Hdb1. simpl.
  rewrite (proj2 (Z.eqb_eq _ _) Hfull). apply wp_bind, wp_fallible_frame. intros [] s2 Hf2 Hdb2 _.
  { apply wp_ret, Hfail. by rewrite Hdb2, Hdb1. }
  apply wp_bind, wp_modify_db. intros s3 Hf3 Hdb3. apply wp_bind, wp_modify_db. intros s4 Hf4 Hdb4.
  rewrite Hdb3, Hdb2, Hdb1 in Hdb4. apply wp_ret, wp_bind, wp_copy; [done|by apply Hf4, Hf3, Hf2, Hf1| |].
  - intros s5 Hf5 Hdb5. apply wp_bind, wp_modify_db. intros s6 Hf6 Hdb6. rewrite Hdb5, Hdb4 in Hdb6.
    apply wp_bind, wp_elosLog; [by apply Hf6, Hf5, Hf4, Hf3, Hf2, Hf1|]. intros r7 s7 Hf7 Hdb7.
    apply wp_bind, wp_mdb, wp_bind, wp_hook; [by apply Hf7, Hf6, Hf5, Hf4, Hf3, Hf2, Hf1|].
    intros rc s8 Hdb8 _ _ _. rewrite Hdb7, Hdb6 in Hdb8. case_if; [apply Hfail; by rewrite Hdb8|].
    apply wp_bind, wp_modify_db. intros s9 _ Hdb9. apply wp_bind, wp_unlock; [by rewrite Hdb9, Hdb8|].
    intros s10 _ Hdb10. apply wp_ret. intros _. by rewrite Hdb10, Hdb9, Hdb8.
  - intros a b s5 Hf5 Hdb5 _. apply wp_bind, wp_modify_db. intros s6 Hf6 Hdb6. apply Hfail.
    by rewrite Hdb6, Hdb5, Hdb4.
Qed.

Lemma stale_thread p mode s :
  p.1 ≠ gen (get_db s) → wlp (crinitDispatchThreadFunc p mode) (λ _ _, False) s.
Proof.
  intros Hp. unfold crinitDispatchThreadFunc. apply wlp_bind.
  apply (wlp_mono _ (λ _ s', gen (get_db s') = gen (get_db s))).
  - intros e s1 Hg. case_if; [done|]. apply wlp_bind. unfold deref. apply wlp_bind.
    unfold wlp at 1. simpl. rewrite Hg, (proj2 (Nat.eqb_neq _ _) Hp). done.
  - unfold lock_db. apply wlp_bind. unfold wlp at 1. simpl. case_if; [done|].
    apply wlp_bind, wp_wlp, wp_fallible. intros [] fs; [by apply wlp_ret; rewrite db_faults|].
    case_if; [done|]. unfold wlp. simpl. by rewrite get_set_db, db_faults.
Qed.

(** An insert that grows the task set invalidates the pointers of the
    dispatcher threads that were started before and have not copied their
    task yet: such a thread does not complete. *)
Theorem dispatch_pointer_invalidated t ow p mode s :
  stable s → task_ok t → db_map (get_db s) !! t_name t = None →
  Z.of_nat (length (taskSet (get_db s))) = taskSetSize (get_db s) → p.1 = gen (get_db s) →
  wp (crinitTaskDBInsert t ow)
     (λ r s', r.1 = 0 → ∀ a s'', crinitDispatchThreadFunc p mode s' ≠ Ret a s'') s.
Proof.
  intros Hst Ht Hn Hfull Hp. eapply wp_mono; [|apply insert_grows; [done|done| |done]].
  2:{ by apply (db_find_None_map _ _ (st_ok _ Hst)). }
  intros r s' Hg Hr a s'' Hrun. specialize (Hg Hr).
  eapply (wlp_elim _ (λ _ _, False) _ _ _ (stale_thread p mode s' ltac:(lia)) Hrun).
Qed.

(** What may be handed to posix_spawn() for a redirection: a standard
    descriptor replaced by another one, or opened on an absolute path, for
    writing unless it is the standard input. *)
Definition sane_action (a : file_action) : Prop :=
  match a with
  | FaDup2 old new => 0 ≤ old ≤ 2 ∧ 0 ≤ new ≤ 2
  | FaOpen fd p oflags mode =>
      0 ≤ fd ≤ 2 ∧ crinitIsAbsPath p = true ∧ 0 ≤ mode ≤ 511 ∧ Z.testbit oflags 0 = negb (fd =? 0)
  end.

Lemma std_fd_range x fd : std_fd x = Some fd → 0 ≤ fd ≤ 2.
Proof. unfold std_fd. repeat case_if; naive_solver lia. Qed.

Lemma file_params_sane e fd p rest ior :
  0 ≤ fd ≤ 2 → crinitIsAbsPath p = true → file_params e fd p rest = Some ior →
  newFd ior = fd ∧ path ior = Some p ∧ sane_action (FaOpen fd p (oflags ior) (mode ior)).
Proof.
  intros Hfd Hp. unfold file_params.
  destruct (match rest with [] => _ | _ => _ end) as [[fl fifo]|]; [|done].
  destruct (match rest with [] => _ | _ => _ end) as [m|] eqn:Em; [|done]. intros [= <-]. simpl.
  assert (0 ≤ m ≤ 511) as Hm.
  { destruct rest as [|? [|m0 ?]]; [injection Em as <-; lia..|].
    destruct (strtoul m0 8) as [[v erange] r]; destruct (_ && _); [done|].
    destruct (Z.ltb_spec 511 (uint32 v)); [done|]. injection Em as <-. unfold uint32 in *.
    pose proof (Z.mod_pos_bound v 4294967296). lia. }
  split_and!; [done|done|lia|lia|done|lia|lia|].
  destruct (fd =? 0); [done|]. unfold O_WRONLY.
  change (Z.odd (Z.lor fl 1) = true). by rewrite <- Z.bit0_odd, Z.lor_spec, orb_true_r.
Qed.

(** Every redirection the configuration parser accepts is accepted by the
    dispatcher and becomes a sane file action. *)
Theorem accepted_redirection_spawns e confVal s :
  wlp (crinitConfConvToIoRedir e confVal)
    (λ r _, ∀ ior s1, r = Some ior → quiet s1 →
       ∃ a, crinitPosixSpawnAddIOFileAction ior s1 = Ret (Some a) s1 ∧ sane_action a) s.
Proof.
  unfold crinitConfConvToIoRedir. apply wlp_bind_any. intros [[|target [|src rest]]|] s0; try done.
  destruct (std_fd target) as [fd|] eqn:Efd; [|done]. pose proof (std_fd_range _ _ Efd).
  assert (negb (fd =? 1) && negb (fd =? 2) && negb (fd =? 0) = false) as Hstd.
  { destruct (Z.eqb_spec fd 1), (Z.eqb_spec fd 2), (Z.eqb_spec fd 0); try done. lia. }
  destruct (std_fd src) as [old|] eqn:Eold.
  - pose proof (std_fd_range _ _ Eold). apply wlp_ret. intros ior s1 [= <-] Hq.
    exists (FaDup2 old fd). unfold crinitPosixSpawnAddIOFileAction. simpl. rewrite Hstd.
    rewrite (proj2 (Z.eqb_neq old (-1))) by lia. rewrite bind_fallible by done. split; [done|]. simpl. lia.
  - case_if; [|done]. apply wlp_bind_any. intros [] s2; [by apply wlp_ret|]. apply wlp_ret.
    intros ior s1 Hior Hq. destruct (file_params_sane e fd src rest ior) as (Hn & Hpath & Hs); [done|done|done|].
    eexists. split; [|exact Hs]. unfold crinitPosixSpawnAddIOFileAction. rewrite Hn, Hpath, Hstd.
    by rewrite bind_fallible.
Qed.

End Theorems.

(** ** Witnesses *)

#[export, refine] Instance bare_dispatch : DispatchServices bare := {|
  crinitGlobOptGet_LAUNCHER_CMD := mret (0, "/usr/bin/crinit-launch"%string);
  crinitGlobOptGet_DEFAULTCAPS := mret (-1, ""%string);
  crinitCGroupConfigure := λ _, mret 0;
  cap_from_name := λ n, if str_eqb n "CAP_KILL" then Some 5 else None;
  posix_spawn := λ _ _ _ _, mret (0, 100);
  waitid := λ _, mret (mkWait 0 CLD_EXITED 0);
  crinitBlockOnWaitInhibit := mret 0;
  waitpid := λ _, mret 0;
  mkfifo := λ _ _, mret 0;
  stat_is_fifo := λ _, mret (Some true);
|}.
Proof.
  all: intros; try (apply wp_ret; done); try (apply wp_ret; split_and!; done).
  all: try (apply wp_ret; split_and!; auto).
  all: case_match; naive_solver lia.
Defined.

Lemma demo_calm : calm demo0.
Proof.
  split; [split; [apply demo_stable|apply demo_unique]|]. intros name t.
  unfold db_map. simpl. intros [[_ <-]|[_ [[_ <-]|[_ Hl]]%lookup_insert_Some]]%lookup_insert_Some; [done..|].
  by rewrite lookup_empty in Hl.
Qed.


Lemma crinitExpandPIDVariablesInCommands_replaces_witness :
  crinitExpandPIDVariablesInCommands [mkCmd ["/bin/kill"; "-15"; "${TASK_PID}"]%string] 42 demo0 =
  Ret [mkCmd ["/bin/kill"; "-15"; "42"]%string] demo0.
Proof.
  apply (crinitExpandPIDVariablesInCommands_replaces
    [mkCmd ["/bin/kill"; "-15"; "${TASK_PID}"]%string] 42 demo0); [reflexivity|]. repeat constructor.
Defined.

Lemma effective_capabilities_witness :
  Z.testbit (cap_eff 32 demo_fs) 5 = true ↔
  ((∃ n, n ∈ ["CAP_KILL"%string] ∧ cap_from_name n = Some 5) ∧ Z.testbit (t_capabilitiesClear demo_fs) 5 = false) ∨
  Z.testbit (t_capabilitiesSet demo_fs) 5 = true.
Proof. apply (effective_capabilities ["CAP_KILL"%string] 32 demo_fs 5); [reflexivity|lia]. Defined.

(** A shell command of 36 characters for another user. *)
Definition demo_shell : crinitTaskCmd :=
  mkCmd ["/bin/sh"; "-c"; "while true; do sleep 1; date; done"]%string.

Lemma crinitCreateLauncherParameters_overread_witness :
  crinitCreateLauncherParameters demo_shell demo_fs "/usr/bin/crinit-launch" demo0 = Undef.
Proof.
  apply (proj2 (crinitCreateLauncherParameters_overread demo_shell demo_fs "/usr/bin/crinit-launch" demo0
    ltac:(vm_compute; reflexivity))); reflexivity.
Defined.

Lemma crinitDispatchThreadFunc_null_copy_witness :
  crinitDispatchThreadFunc (0%nat, 0%nat) CRINIT_DISPATCH_THREAD_MODE_START
    (demo_state [false; true] [demo_fs; demo_net]) = Undef.
Proof.
  apply (crinitDispatchThreadFunc_null_copy (0%nat, 0%nat) demo_fs CRINIT_DISPATCH_THREAD_MODE_START []
    (demo_state [false; true] [demo_fs; demo_net])); [apply demo_stable|done|by right].
Defined.

(** A database of one task, full. *)
Definition demo_full : bare :=
  mkBare [] (mkDB [mkSlot Live demo_fs] 1 0 true false true false 0) [].

Lemma demo_full_stable : stable demo_full.
Proof.
  split; [|done|done]. split; simpl; [done|lia|by repeat constructor|repeat constructor; set_solver|].
  apply Forall_singleton, demo_fs_ok.
Qed.

Lemma dispatch_pointer_invalidated_witness :
  wp (crinitTaskDBInsert demo_net false)
     (λ r s', r.1 = 0 → ∀ a s'',
        crinitDispatchThreadFunc (0%nat, 0%nat) CRINIT_DISPATCH_THREAD_MODE_START s' ≠ Ret a s'') demo_full.
Proof.
  apply dispatch_pointer_invalidated; [apply demo_full_stable|apply demo_net_ok|reflexivity|reflexivity|reflexivity].
Defined.
