(* ===== verification/RtimMsg.v ===== *)
(** * Messages of the service interface: inc/rtimopmap.h, src/rtimopmap.c and
    the message half of src/rtimcmd.c

    A run-time command is an operation with string arguments.  On the socket it
    is one string: the name of the operation and the arguments, separated by
    newlines.  [crinitRtimCmdToMsgStr] writes that string and
    [crinitParseRtimCmd] reads it.  A C string is a [string] without its
    terminating zero; a pointer into one is the suffix it points at. *)

From Stdlib Require Import ZArith Lia Bool List String Ascii.
From stdpp Require Import base list strings.
From S2P Require Import Prelude CString.

Open Scope Z_scope.
Open Scope crinit_scope.

(** ** Operations *)

(** crinitGenOpMap(crinitGenOpEnum): commands and responses alternate. *)
Inductive crinitRtimOp :=
| CRINIT_RTIMCMD_C_ADDTASK | CRINIT_RTIMCMD_R_ADDTASK
| CRINIT_RTIMCMD_C_ADDSERIES | CRINIT_RTIMCMD_R_ADDSERIES
| CRINIT_RTIMCMD_C_ENABLE | CRINIT_RTIMCMD_R_ENABLE
| CRINIT_RTIMCMD_C_DISABLE | CRINIT_RTIMCMD_R_DISABLE
| CRINIT_RTIMCMD_C_STOP | CRINIT_RTIMCMD_R_STOP
| CRINIT_RTIMCMD_C_KILL | CRINIT_RTIMCMD_R_KILL
| CRINIT_RTIMCMD_C_RESTART | CRINIT_RTIMCMD_R_RESTART
| CRINIT_RTIMCMD_C_NOTIFY | CRINIT_RTIMCMD_R_NOTIFY
| CRINIT_RTIMCMD_C_STATUS | CRINIT_RTIMCMD_R_STATUS
| CRINIT_RTIMCMD_C_TASKLIST | CRINIT_RTIMCMD_R_TASKLIST
| CRINIT_RTIMCMD_C_SHUTDOWN | CRINIT_RTIMCMD_R_SHUTDOWN
| CRINIT_RTIMCMD_C_GETVER | CRINIT_RTIMCMD_R_GETVER.

#[export] Instance crinitRtimOp_eq_dec : EqDecision crinitRtimOp.
Proof. solve_decision. Defined.

(** crinitGenOpMap(crinitGenOpStruct) *)
Definition crinitRtimOps : list (crinitRtimOp * string) :=
  [(CRINIT_RTIMCMD_C_ADDTASK, "C_ADDTASK"); (CRINIT_RTIMCMD_R_ADDTASK, "R_ADDTASK");
   (CRINIT_RTIMCMD_C_ADDSERIES, "C_ADDSERIES"); (CRINIT_RTIMCMD_R_ADDSERIES, "R_ADDSERIES");
   (CRINIT_RTIMCMD_C_ENABLE, "C_ENABLE"); (CRINIT_RTIMCMD_R_ENABLE, "R_ENABLE");
   (CRINIT_RTIMCMD_C_DISABLE, "C_DISABLE"); (CRINIT_RTIMCMD_R_DISABLE, "R_DISABLE");
   (CRINIT_RTIMCMD_C_STOP, "C_STOP"); (CRINIT_RTIMCMD_R_STOP, "R_STOP");
   (CRINIT_RTIMCMD_C_KILL, "C_KILL"); (CRINIT_RTIMCMD_R_KILL, "R_KILL");
   (CRINIT_RTIMCMD_C_RESTART, "C_RESTART"); (CRINIT_RTIMCMD_R_RESTART, "R_RESTART");
   (CRINIT_RTIMCMD_C_NOTIFY, "C_NOTIFY"); (CRINIT_RTIMCMD_R_NOTIFY, "R_NOTIFY");
   (CRINIT_RTIMCMD_C_STATUS, "C_STATUS"); (CRINIT_RTIMCMD_R_STATUS, "R_STATUS");
   (CRINIT_RTIMCMD_C_TASKLIST, "C_TASKLIST"); (CRINIT_RTIMCMD_R_TASKLIST, "R_TASKLIST");
   (CRINIT_RTIMCMD_C_SHUTDOWN, "C_SHUTDOWN"); (CRINIT_RTIMCMD_R_SHUTDOWN, "R_SHUTDOWN");
   (CRINIT_RTIMCMD_C_GETVER, "C_GETVER"); (CRINIT_RTIMCMD_R_GETVER, "R_GETVER")]%string.

Definition CRINIT_RTIMCMD_ARGDELIM : ascii := "010".
Definition CRINIT_RTIMCMD_RES_OK : string := "RES_OK".
Definition CRINIT_RTIMCMD_RES_ERR : string := "RES_ERR".

Notation is_delim := (is_delim CRINIT_RTIMCMD_ARGDELIM).
Notation tokens := (tokens CRINIT_RTIMCMD_ARGDELIM).
Notation plain := (plain CRINIT_RTIMCMD_ARGDELIM).

Fixpoint crinitDelimitedStrlen (str : string) : nat :=
  match str with
  | EmptyString => 0
  | String c str => if is_delim c then 0 else S (crinitDelimitedStrlen str)
  end.

(** The loops over the table stop at the first hit. *)
Definition crinitRtimOpGetByOpStr (opStr : string) : option crinitRtimOp :=
  let n := crinitDelimitedStrlen opStr in
  fst <$> find (λ e, Nat.eqb n (String.length e.2) && strncmp_eq n e.2 opStr) crinitRtimOps.

Definition crinitOpStrGetByRtimOp (opCode : crinitRtimOp) : option string :=
  snd <$> find (λ e, bool_decide (e.1 = opCode)) crinitRtimOps.

(** ** Commands *)

(** [args0] is the offset of args[0] in its allocation: the backing string is
    released by freeing args[0]. *)
Record crinitRtimCmd := mkRtimCmd {
  op : crinitRtimOp;
  args : list string;
  args0 : nat;
}.

(** The loops of crinitParseRtimCmd() that move argStart and count arguments. *)
Fixpoint skip_to_delim (s : string) : string :=
  match s with
  | EmptyString => EmptyString
  | String c s' => if is_delim c then s else skip_to_delim s'
  end.

Fixpoint skip_delims (s : string) : string :=
  match s with
  | String _ (String c _ as s') => if is_delim c then skip_delims s' else s
  | _ => s
  end.

Fixpoint count_delims (s : string) : nat :=
  match s with
  | EmptyString => 0
  | String c s' =>
      (if is_delim c && match s' with EmptyString => false | String d _ => negb (is_delim d) end
       then S else id) (count_delims s')
  end.

#[local] Arguments String.append : simpl nomatch.

Section Operations.
Context {S : Type} `{Faulty S}.

(** When fewer tokens were found than counted the remaining pointers are
    uninitialised. *)
Definition crinitParseRtimCmd (cmdStr : string) : M S (option crinitRtimCmd) :=
  match crinitRtimOpGetByOpStr cmdStr with
  | None => mret None
  | Some op =>
      let argStart := skip_delims (skip_to_delim cmdStr) in
      let argCount := count_delims argStart in
      oom ← fallible;
      if (oom : bool) then mret None else
      if Nat.eqb argCount 0 then mret (Some (mkRtimCmd op [] 0)) else
      oom ← fallible;
      if (oom : bool) then mret None else
      match argStart with
      | EmptyString => mundef
      | String _ backing =>
          let toks := tok_loop CRINIT_RTIMCMD_ARGDELIM argCount backing in
          if Nat.eqb (length toks) argCount
          then mret (Some (mkRtimCmd op toks (String.length backing - String.length (tok_skip CRINIT_RTIMCMD_ARGDELIM backing))))
          else mundef
      end
  end.

(** The string and its length with the terminating zero. *)
Definition crinitRtimCmdToMsgStr (cmd : crinitRtimCmd) : M S (option (string * Z)) :=
  match crinitOpStrGetByRtimOp (op cmd) with
  | None => mret None
  | Some opStr =>
      let outLen := fold_left (λ n a, n + (Z.of_nat (String.length a) + 1)) (args cmd)
                      (Z.of_nat (String.length opStr) + 1) in
      oom ← fallible;
      if (oom : bool) then mret None else
      mret (Some (fold_left (λ out a, out +:+ String CRINIT_RTIMCMD_ARGDELIM a) (args cmd) opStr, outLen))
  end.

(** crinitBuildRtimCmd() and crinitBuildRtimCmdArray() *)
Definition crinitBuildRtimCmd (op : crinitRtimOp) (args : list string) : M S (option crinitRtimCmd) :=
  oom ← fallible;
  if (oom : bool) then mret None else
  oom ← fallible;
  if (oom : bool) then mret None else
  mret (Some (mkRtimCmd op args 0)).

(** free() of a pointer that is not the start of an allocation is undefined. *)
Definition crinitDestroyRtimCmd (c : crinitRtimCmd) : M S Z :=
  if Nat.eqb (args0 c) 0 then mret 0 else mundef.
End Operations.

(** ** The reference reading of a message: the tokens after the first newline *)

(** What follows the name of the operation. *)
Definition after_op (s : string) : string :=
  match skip_to_delim s with EmptyString => EmptyString | String _ r => r end.

(** Counting delimiters that are followed by an argument counts arguments. *)
Definition starts (s : string) : nat :=
  match s with EmptyString => 0 | String c _ => if is_delim c then 0 else 1 end.

Lemma count_delims_tokens s : length (tokens s) = (starts s + count_delims s)%nat.
Proof.
  induction s as [|c s IH]; [done|]. destruct (is_delim c) eqn:E.
  - rewrite tokens_delim by done. simpl. rewrite E. simpl. rewrite IH. destruct s as [|d s]; simpl; [done|].
    by destruct (is_delim d).
  - unfold CString.tokens in *. simpl. rewrite E. simpl. destruct (pieces CRINIT_RTIMCMD_ARGDELIM s) as [h t] eqn:Ep.
    unfold nonempty in *. rewrite filter_cons_True by done. simpl. f_equal.
    destruct s as [|d s]; [by injection Ep as <- <-|].
    cbn [pieces starts] in *. destruct (pieces CRINIT_RTIMCMD_ARGDELIM s) as [h' t']. destruct (is_delim d); injection Ep as <- <-.
    + rewrite filter_cons_False in IH by naive_solver. exact IH.
    + rewrite filter_cons_True in IH by done. cbn [length] in IH. by injection IH.
Qed.

(** The start of the arguments: the end of the string, or a delimiter that is
    not followed by another one. *)
Lemma skip_to_delim_head s c r : skip_to_delim s = String c r → is_delim c = true.
Proof. induction s as [|d s IH]; [done|]. simpl. destruct (is_delim d) eqn:E; [congruence|done]. Qed.

Lemma skip_delims_head c s :
  is_delim c = true →
  ∃ d r, skip_delims (String c s) = String d r ∧ is_delim d = true ∧ tokens r = tokens s ∧
    (r = EmptyString ∨ starts r = 1%nat).
Proof.
  revert c. induction s as [|d s IH]; intros c Hc; [by exists c, EmptyString; naive_solver|].
  change (skip_delims (String c (String d s)))
    with (if is_delim d then skip_delims (String d s) else String c (String d s)).
  destruct (is_delim d) eqn:E.
  - destruct (IH d E) as (d' & r & -> & ? & Ht & ?). exists d', r. split_and!; try done.
    by rewrite Ht, tokens_delim.
  - exists c, (String d s). split_and!; try done. right. simpl. by rewrite E.
Qed.

Lemma arg_start s :
  match skip_delims (skip_to_delim s) with
  | EmptyString => after_op s = EmptyString
  | String c r => is_delim c = true ∧ tokens r = tokens (after_op s) ∧ (r = EmptyString ∨ starts r = 1%nat)
  end.
Proof.
  unfold after_op. destruct (skip_to_delim s) as [|c u] eqn:E; [done|]. apply skip_to_delim_head in E.
  destruct (skip_delims_head c u E) as (d & r & -> & ? & ? & ?). done.
Qed.

Lemma count_arg_start s : count_delims (skip_delims (skip_to_delim s)) = length (tokens (after_op s)).
Proof.
  pose proof (arg_start s) as Ha. destruct (skip_delims (skip_to_delim s)) as [|c r]; [by rewrite Ha|].
  destruct Ha as (Hc & <- & _). rewrite <- (tokens_delim _ c r Hc), count_delims_tokens. simpl. by rewrite Hc.
Qed.

Lemma starts_tok_skip s : starts s = 1%nat → tok_skip CRINIT_RTIMCMD_ARGDELIM s = s.
Proof. destruct s as [|c s]; simpl; [done|]. by destruct (is_delim c). Qed.

Section Parse.
Context {S : Type} `{Faulty S}.

Lemma parse_reads cmdStr (s : S) :
  wp (crinitParseRtimCmd cmdStr) (λ r s', only_faults s s' ∧
    match r with
    | Some c => crinitRtimOpGetByOpStr cmdStr = Some (op c) ∧ args c = tokens (after_op cmdStr) ∧ args0 c = 0%nat
    | None => crinitRtimOpGetByOpStr cmdStr = None ∨ ¬ quiet s
    end) s.
Proof.
  unfold crinitParseRtimCmd. destruct (crinitRtimOpGetByOpStr cmdStr) as [o|]; [|by apply wp_ret; split; [|left]].
  rewrite count_arg_start. apply wp_bind, wp_fallible_why. intros [] s1 Hf1 Hq1.
  { apply wp_ret. split; [done|]. right. intros Hq. by specialize (Hq1 Hq). }
  destruct (Nat.eqb_spec (length (tokens (after_op cmdStr))) 0) as [H0|H0].
  { apply wp_ret. split; [done|]. by apply nil_length_inv in H0 as ->. }
  apply wp_bind, wp_fallible_why. intros [] s2 Hf2 Hq2.
  { apply wp_ret. split; [by etrans|]. right. intros Hq. specialize (Hq2 (only_faults_quiet _ _ Hf1 Hq)). done. }
  pose proof (arg_start cmdStr) as Ha. destruct (skip_delims (skip_to_delim cmdStr)) as [|c r].
  { by rewrite Ha in H0. }
  destruct Ha as (_ & Ht & Hr). rewrite <- Ht in *. rewrite tok_loop_all, Nat.eqb_refl.
  apply wp_ret. split; [by etrans|]. split_and!; [done..|]. simpl.
  destruct Hr as [->|Hr]; [done|]. rewrite starts_tok_skip by done. lia.
Qed.

(** crinitParseRtimCmd() reads every string the same way: the text up to the
    first newline selects the operation, the arguments are the non-empty pieces
    between the newlines after it.  It fails only for an unknown operation or
    when an allocation fails, leaves no pointer of the argument array
    uninitialised, and args[0] is the start of its allocation, as
    crinitDestroyRtimCmd() needs it. *)
Theorem crinitParseRtimCmd_reads cmdStr (s : S) :
  wp (crinitParseRtimCmd cmdStr) (λ r s', only_faults s s' ∧
    match r with
    | Some c => crinitRtimOpGetByOpStr cmdStr = Some (op c) ∧ args c = tokens (after_op cmdStr) ∧ args0 c = 0%nat
    | None => crinitRtimOpGetByOpStr cmdStr = None ∨ ¬ quiet s
    end) s.
Proof. apply parse_reads. Qed.
End Parse.

(** ** Writing and reading back *)

(** The names of the operations are plain and distinct. *)
Lemma op_name o :
  ∃ name, crinitOpStrGetByRtimOp o = Some name ∧ plain name ∧
    ∀ rest, rest = EmptyString ∨ (∃ r, rest = String CRINIT_RTIMCMD_ARGDELIM r) →
      crinitRtimOpGetByOpStr (name +:+ rest) = Some o.
Proof.
  by destruct o; (eexists; split_and!; [reflexivity|reflexivity|]; intros rest [->|[r ->]]).
Qed.

(** The arguments as they follow the name. *)
Fixpoint joined (l : list string) : string :=
  match l with
  | [] => EmptyString
  | a :: l => (String CRINIT_RTIMCMD_ARGDELIM a +:+ joined l)%string
  end.

Lemma message_joined (l : list string) (o : string) :
  fold_left (λ out a, out +:+ String CRINIT_RTIMCMD_ARGDELIM a)%string l o = (o +:+ joined l)%string.
Proof.
  revert o. induction l as [|a l IH]; intros o; cbn [fold_left joined]; [by rewrite string_app_nil_r|].
  by rewrite IH, string_app_assoc.
Qed.

Lemma message_length (l : list string) (n : Z) :
  fold_left (λ n a, n + (Z.of_nat (String.length a) + 1)) l n = n + Z.of_nat (String.length (joined l)).
Proof.
  revert n. induction l as [|a l IH]; intros n; cbn [fold_left joined]; [simpl; lia|].
  rewrite IH. rewrite string_length_app. cbn [String.length]. lia.
Qed.

Lemma after_op_joined name l :
  plain name → after_op (name +:+ joined l) = match l with [] => EmptyString | a :: l => a +:+ joined l end.
Proof.
  unfold after_op. induction name as [|c name IH]; cbn [String.append].
  - intros _. by destruct l.
  - intros [Hc Hn]%plain_cons. simpl. rewrite Hc. by apply IH.
Qed.

Lemma tokens_joined a l : tokens (a +:+ joined l) = concat (tokens <$> (a :: l)).
Proof.
  revert a. induction l as [|b l IH]; intros a; cbn [joined].
  - rewrite string_app_nil_r. simpl. by rewrite app_nil_r.
  - cbn [String.append]. rewrite tokens_app, IH. done.
Qed.

(** Arguments that arrive as they were sent. *)
Definition sendable (a : string) : Prop := a ≠ EmptyString ∧ plain a.

Lemma tokens_sendable l : Forall sendable l → concat (tokens <$> l) = l.
Proof.
  induction 1 as [|a l Ha _ IH]; [done|].
  rewrite fmap_cons. cbn [concat]. destruct Ha. by rewrite tokens_plain, IH.
Qed.

(** What a message carries: the operation, and the non-empty pieces of the
    arguments. *)
Definition carried (cmd : crinitRtimCmd) : crinitRtimCmd := mkRtimCmd (op cmd) (concat (tokens <$> args cmd)) 0.

Section RoundTrip.
Context {S : Type} `{Faulty S}.

Lemma wp_message cmd (s : S) :
  wp (crinitRtimCmdToMsgStr cmd) (λ r s', only_faults s s' ∧
    match r with
    | Some (str, len) => len = Z.of_nat (String.length str) + 1 ∧
        crinitRtimOpGetByOpStr str = Some (op cmd) ∧ tokens (after_op str) = concat (tokens <$> args cmd)
    | None => ¬ quiet s
    end) s.
Proof.
  unfold crinitRtimCmdToMsgStr. destruct (op_name (op cmd)) as (name & -> & Hplain & Hop).
  apply wp_bind, wp_fallible_why. intros [] s1 Hf Hq; apply wp_ret; (split; [done|]).
  { intros Hq'. by specialize (Hq Hq'). }
  rewrite message_joined, message_length, string_length_app. split_and!; [lia| |].
  - apply Hop. destruct (args cmd) as [|a l]; [by left|right; by eexists].
  - rewrite after_op_joined by done. destruct (args cmd) as [|a l]; [done|]. apply tokens_joined.
Qed.

(** A command that is written and read back has the same operation, and for
    arguments the non-empty pieces of its arguments between newlines: it is the
    same command when no argument is empty or has a newline.  The length sent
    ahead of the string is its size with the terminating zero.  Only a failing
    allocation stops it. *)
Theorem message_roundtrip cmd (s : S) :
  wp (m ← crinitRtimCmdToMsgStr cmd;
      match m with
      | None => mret (None, 0)
      | Some (str, len) => r ← crinitParseRtimCmd str; mret (r, len - Z.of_nat (String.length str))
      end)
    (λ r s', only_faults s s' ∧
       (quiet s → r = (Some (carried cmd), 1)) ∧ (∀ c, r.1 = Some c → c = carried cmd) ∧
       (Forall sendable (args cmd) → args (carried cmd) = args cmd)) s.
Proof.
  apply wp_bind. eapply wp_mono; [|apply wp_message]. intros [[str len]|] s1 (Hf1 & Hr).
  2:{ apply wp_ret. split_and!; [done|naive_solver..|]. intros Ha. by apply tokens_sendable. }
  destruct Hr as (-> & Hop & Hargs). apply wp_bind. eapply wp_mono; [|apply parse_reads].
  intros r s2 [Hf2 Hr]. apply wp_ret. rewrite Hop, Hargs in Hr.
  assert (∀ c, r = Some c → c = carried cmd) as Hc.
  { intros [o l n] ->. destruct Hr as ([= Ho] & Hl & Hn). unfold carried. simpl in *. by subst. }
  split_and!; [by etrans| |done|intros Ha; by apply tokens_sendable].
  intros Hq. destruct r as [c|].
  - rewrite (Hc c) by done. f_equal. lia.
  - destruct Hr as [Hr|Hr]; [done|]. destruct Hr. by eapply only_faults_quiet.
Qed.
End RoundTrip.
