(* ===== verification/RtimExec.v ===== *)
(** * Run-time commands: the handlers of src/rtimcmd.c, and the inhibition of
    waits of src/procdip.c

    The daemon's state has the part of the task database ([B]), the part of the
    configuration ([C]), the flag that keeps dispatcher threads from reaping, and
    the trace of what was asked of the kernel, with the answer.  A command runs
    the operations of taskdb.c on the first part and those of confparse.c, task.c
    and fseries.c on the second. *)

From Stdlib Require Import ZArith Lia Bool List String Ascii.
From stdpp Require Import base list strings.
From S2P Require Import Prelude CString EnvSet Timer Task TaskDB TimerDB Lexers ConfConv Ini GlobOpt Cgroup ConfParse.
From S2P Require Import ConfTask ConfGlob FSeries RtimMsg.

Open Scope Z_scope.
Open Scope crinit_scope.

#[local] Arguments String.append : simpl nomatch.

(** ** State *)

(** What the kernel was asked for. *)
Inductive sys_event :=
| SysKill (pid sig : Z)
| SysStopThread (t : crinitTask)  (* ctx->spawnFunc() on a copy of the task *)
| SysShdnThread (shutdownCmd : Z)
| SysSleep (until : timespec)
| SysUmount (target : string)
| SysRemountRo
| SysSync
| SysReboot (shutdownCmd : Z).

(** crinitWaitInhibit with its mutex and condition variable. *)
Record wait_state := mkInhibit { crinitWaitInhibit : bool; wi_locked : bool; wi_wakeups : nat }.

Record crinitVersion := mkVersion { major : Z; minor : Z; micro : Z; git : string }.

Record daemon {B C : Type} := mkDaemon {
  dm_db : B;
  dm_conf : C;
  dm_wait : wait_state;
  dm_trace : list (sys_event * bool);  (* true: the call succeeded *)
}.
Arguments daemon : clear implicits.
Arguments mkDaemon {B C}.

Section State.
Context {B C : Type}.

Definition set_dm_db (b : B) (s : daemon B C) : daemon B C := mkDaemon b (dm_conf s) (dm_wait s) (dm_trace s).
Definition set_dm_conf (c : C) (s : daemon B C) : daemon B C := mkDaemon (dm_db s) c (dm_wait s) (dm_trace s).
Definition set_dm_wait (w : wait_state) (s : daemon B C) : daemon B C := mkDaemon (dm_db s) (dm_conf s) w (dm_trace s).
Definition add_event (e : sys_event) (ok : bool) (s : daemon B C) : daemon B C :=
  mkDaemon (dm_db s) (dm_conf s) (dm_wait s) (dm_trace s ++ [(e, ok)]).

(** A call that only touches one part. *)
Definition on_db {A} (m : M B A) : M (daemon B C) A := λ s,
  match m (dm_db s) with Ret a b => Ret a (set_dm_db b s) | Block => Block | Undef => Undef end.
Definition on_conf {A} (m : M C A) : M (daemon B C) A := λ s,
  match m (dm_conf s) with Ret a c => Ret a (set_dm_conf c s) | Block => Block | Undef => Undef end.

Definition mwait : M (daemon B C) wait_state := λ s, Ret (dm_wait s) s.
Definition mwait_set (w : wait_state) : M (daemon B C) unit := λ s, Ret tt (set_dm_wait w s).
Definition mevent (e : sys_event) (ok : bool) : M (daemon B C) unit := λ s, Ret tt (add_event e ok s).

(** A request to the kernel: recorded, and [true] if it was refused. *)
Definition syscall `{Faulty B} (e : sys_event) : M (daemon B C) bool :=
  failed ← on_db fallible; mevent e (negb failed) ;; mret failed.
End State.

(** signal.h, sys/reboot.h, crinit-sdefs.h *)
Definition SIGKILL : Z := 9.
Definition SIGTERM : Z := 15.
Definition SIGCONT : Z := 18.
Definition RB_POWER_OFF : Z := 1126301404.
Definition RB_AUTOBOOT : Z := 19088743.
Definition CRINIT_SHD_POWEROFF : Z := 1.
Definition CRINIT_SHD_REBOOT : Z := 2.
Definition EINTR : Z := 4.
Definition PATH_MAX : nat := 4096.

(** The dependency that DISABLE adds and ENABLE removes. *)
Definition ctl_enable : crinitTaskDep := mkDep "@ctl" "enable".

(** /proc/mounts, [None] if it cannot be opened, and the version of the build. *)
Class RtimEnv (C : Type) := {
  proc_mounts : C → option string;
  crinitVersionInfo : crinitVersion;
}.

(** ** Waiting for processes *)

Section Wait.
Context {B C : Type} `{Faulty B}.

Definition crinitSetInhibitWait (inh : bool) : M (daemon B C) Z :=
  err ← on_db fallible;
  if (err : bool) then mret (-1) else
  w ← mwait;
  if wi_locked w then mblock else
  mwait_set (mkInhibit inh true (wi_wakeups w)) ;;
  ret ← (if inh then mret 0 else
           err ← on_db fallible;
           if (err : bool) then mret (-1) else
           mwait_set (mkInhibit inh true (Datatypes.S (wi_wakeups w))) ;; mret 0);
  w ← mwait;
  mwait_set (mkInhibit (crinitWaitInhibit w) false (wi_wakeups w)) ;;
  mret ret.

(** The condition variable is only signalled when the inhibition ends: waiting
    with the inhibition in place is waiting for another thread. *)
Definition crinitBlockOnWaitInhibit : M (daemon B C) Z :=
  err ← on_db fallible;
  if (err : bool) then mret (-1) else
  w ← mwait;
  if wi_locked w then mblock else
  if crinitWaitInhibit w then mblock else mret 0.
End Wait.

(** ** Text without side effects *)

(** MAINPID=, READY= and STOPPING= of sd_notify(): an argument is compared up to
    its first equals sign, with as many characters as come before it. *)
Record notify_args := mkNotify { n_pid : Z; n_ready : Z; n_stopping : Z }.

Definition notify_arg (n : notify_args) (arg : string) : notify_args :=
  match str_break "=" arg with
  | None => n
  | Some (key, val) =>
      let cmpLen := String.length key in
      let v := int32 (strtol val 10).1.1 in
      let n := if strncmp_eq cmpLen arg "MAINPID" then mkNotify v (n_ready n) (n_stopping n) else n in
      let n := if strncmp_eq cmpLen arg "READY" then mkNotify (n_pid n) v (n_stopping n) else n in
      if strncmp_eq cmpLen arg "STOPPING" then mkNotify (n_pid n) (n_ready n) v else n
  end.

(** "%.9ld" *)
Definition pad_nsec (n : Z) : string :=
  let d := print_dec (Z.abs n) in
  let zeros := String.concat EmptyString (replicate (9 - String.length d) "0"%string) in
  ((if (n <? 0)%Z then "-" else "") +:+ zeros +:+ d)%string.

(** "%lld.%.9ld" *)
Definition print_timespec (t : timespec) : string := (print_dec (tv_sec t) +:+ "." +:+ pad_nsec (tv_nsec t))%string.

(** The response to STATUS, one value per line. *)
Definition status_text (t : crinitTask) (username groupname : string) : string :=
  String.concat (str1 c_newline)
    [print_dec (uint64 (t_state t)); print_dec (int32 (t_pid t)); print_timespec (t_createTime t);
     print_timespec (t_startTime t); print_timespec (t_endTime t); print_dec (int32 (t_user t));
     print_dec (int32 (t_group t)); username; groupname].

(** Cut at the first [n] newlines; [None] if there are fewer. *)
Fixpoint cut_lines (n : nat) (s : string) : option (list string) :=
  match n with
  | O => Some [s]
  | Datatypes.S n =>
      match str_break c_newline s with
      | None => None
      | Some (line, rest) => cons line <$> cut_lines n rest
      end
  end.

(** One line of /proc/mounts.  [MountSkip] leaves the element empty;
    [MountRootRo] leaves the line up to the source of the root mount in it. *)
Inductive mount_line := MountSkip | MountRootRo (elem : string) | MountTarget (target : string).

Definition parse_mount (line : string) : mount_line :=
  match strtok " " line with
  | None => MountSkip
  | Some (source, r) =>
      if str_eqb source "none" then MountSkip else
      match strtok " " r with
      | None => MountSkip
      | Some (target, r) =>
          if str_eqb target "/" then
            match strtok " " r with
            | None => MountSkip
            | Some (_, r) =>
                match strtok " " r with
                | None => MountSkip
                | Some (opts, _) =>
                    if strncmp_eq 3 opts "ro," || strncmp_eq 3 opts "ro "
                    then MountRootRo (str_take (String.length line - String.length (tok_skip " " line) + String.length source) line)
                    else MountSkip
                end
            end
          else MountTarget target
      end
  end.

(** The settings with the values of DEPENDS emptied. *)
Definition empty_depends (l : list (string * string)) : list (string * string) :=
  (λ kv, if str_eqb kv.1 "DEPENDS" then (kv.1, EmptyString) else kv) <$> l.

(** ** Handlers *)

Section Handlers.
Context {B C : Type} `{TaskDBServices B} `{!Faulty C, !OptState C, !ConfFiles C, !TimerState C, !ConfEnv C, !SeriesEnv C}.
Context `{!DirEnv C, !RtimEnv C}.
Notation D := (daemon B C).

(** The response; [None] is the return code -1. *)
Definition respond (op : crinitRtimOp) (args : list string) : M D (option crinitRtimCmd) :=
  on_db (crinitBuildRtimCmd op args).
Definition respond_ok (op : crinitRtimOp) : M D (option crinitRtimCmd) := respond op [CRINIT_RTIMCMD_RES_OK].
Definition respond_err (op : crinitRtimOp) (text : string) : M D (option crinitRtimCmd) :=
  respond op [CRINIT_RTIMCMD_RES_ERR; text].
Definition wrong_arguments (op : crinitRtimOp) : M D (option crinitRtimCmd) := respond_err op "Wrong number of arguments.".

(** crinitFreeTask() of a task whose stop commands may have been freed. *)
Definition free_task (t : crinitTask) (stop_freed : bool) : M D unit :=
  if stop_freed then mundef else on_db (crinitDestroyTask t).

(** *** ADDTASK *)

(** The first DEPENDS gets the new value, later ones are emptied; [first] is
    whether none was met yet.  [None] when the copy of the value fails. *)
Fixpoint replace_depends (dep : string) (first : bool) (l : list (string * string)) :
    M D (option (bool * list (string * string))) :=
  match l with
  | [] => mret (Some (first, []))
  | (k, v) :: l =>
      if str_eqb k "DEPENDS" then
        oom ← (if first then on_db fallible else mret false);
        if (oom : bool) then mret None else
        r ← replace_depends dep false l;
        mret (prod_map id (cons (k, if first then dep else EmptyString)) <$> r)
      else
        r ← replace_depends dep first l;
        mret (prod_map id (cons (k, v)) <$> r)
  end.

(** The settings after the third argument was applied.  When the key of a new
    element cannot be copied, the list is freed with the value of that element
    not initialised. *)
Definition apply_depends (arg : string) (c : list (string * string)) : M D (option (list (string * string))) :=
  if str_eqb arg "@unchanged" then mret (Some c) else
  if str_eqb arg "@empty" then mret (Some (empty_depends c)) else
  r ← replace_depends arg true c;
  match r with
  | None => mret None
  | Some (false, c) => mret (Some c)
  | Some (true, c) =>
      oom ← on_db fallible;
      if (oom : bool) then mret None else
      oom ← on_db fallible;
      if (oom : bool) then mundef else
      oom ← on_db fallible;
      if (oom : bool) then mret None else mret (Some (c ++ [("DEPENDS"%string, arg)]))
  end.

Definition crinitExecRtimCmdAddTask (cmd : crinitRtimCmd) : M D (option crinitRtimCmd) :=
  let R := CRINIT_RTIMCMD_R_ADDTASK in
  match args cmd with
  | [file; overwrite; deps] =>
      c ← on_conf (crinitParseConf file);
      match c with
      | None => respond_err R "Could not parse given config."
      | Some c =>
          c ← apply_depends deps c;
          match c with
          | None => respond_err R "Could not set dependencies to given string."
          | Some c =>
              t ← on_conf (crinitTaskCreateFromConfKvList 1 c);
              match t with
              | None => respond_err R "Could not create task from config."
              | Some t =>
                  '(r, stop_freed) ← on_db (crinitTaskDBInsert t (str_eqb overwrite "true"));
                  free_task t stop_freed ;;
                  if r =? -1 then respond_err R "Could not insert new task into TaskDB." else respond_ok R
              end
          end
      end
  | _ => wrong_arguments R
  end.

(** *** ADDSERIES *)

(** The loop over the task files; [Some] is the response to a failure. *)
Fixpoint add_series_tasks (base : option string) (overwrite : bool) (fnames : list (option string)) :
    M D (option (option crinitRtimCmd)) :=
  let fail text := on_db (crinitTaskDBSetSpawnInhibit false) ;;
                   r ← respond_err CRINIT_RTIMCMD_R_ADDSERIES text; mret (Some r) in
  match fnames with
  | [] => mret None
  | None :: _ => mundef
  | Some fname :: fnames =>
      confFn ← (if crinitIsAbsPath fname then mret (Some fname) else
                  match base with
                  | None => mundef
                  | Some base =>
                      oom ← on_db fallible;
                      mret (if (oom : bool) then None else Some (base +:+ "/" +:+ fname)%string)
                  end);
      match confFn with
      | None => fail "Memory allocation error."%string
      | Some confFn =>
          c ← on_conf (crinitParseConf confFn);
          match c with
          | None => fail "Could not parse config file."%string
          | Some c =>
              t ← on_conf (crinitTaskCreateFromConfKvList 1 c);
              match t with
              | None => fail "Could not create task from config file."%string
              | Some t =>
                  '(r, stop_freed) ← on_db (crinitTaskDBInsert t overwrite);
                  free_task t stop_freed ;;
                  if r =? -1 then
                    r ← respond_err CRINIT_RTIMCMD_R_ADDTASK "Could not insert new task into TaskDB."; mret (Some r)
                  else add_series_tasks base overwrite fnames
              end
          end
      end
  end.

Definition crinitExecRtimCmdAddSeries (cmd : crinitRtimCmd) : M D (option crinitRtimCmd) :=
  let R := CRINIT_RTIMCMD_R_ADDSERIES in
  match args cmd with
  | [file; overwrite] =>
      if negb (crinitIsAbsPath file) then respond_err R "Path to series file must be absolute." else
      r ← on_db (crinitTaskDBSetSpawnInhibit true);
      if r =? -1 then respond_err R "Could not inhibit process spawning to load new series file." else
      on_conf crinitGlobOptBorrow ;;
      on_conf (mopts_modify (set_tasks None)) ;;
      r ← on_conf crinitGlobOptRemit;
      if r =? -1 then respond_err R "Could not release exclusive access to global option storage." else
      r ← on_conf (crinitLoadSeriesConf file);
      if r =? -1 then respond_err R "Could not load series file." else
      series ← on_conf crinitLoadTasks;
      match series with
      | None => respond_err R "Could not load crinit tasks."
      | Some taskSeries =>
          failed ← add_series_tasks (baseDir taskSeries) (str_eqb overwrite "true") (fnames taskSeries);
          match failed with
          | Some r => mret r
          | None =>
              r ← on_db (crinitTaskDBSetSpawnInhibit false);
              if r =? -1 then respond_err R "Could not re-enable spawning of processes." else respond_ok R
          end
      end
  | _ => wrong_arguments R
  end.

(** *** Control of a task *)

Definition crinitExecRtimCmdEnable (cmd : crinitRtimCmd) : M D (option crinitRtimCmd) :=
  let R := CRINIT_RTIMCMD_R_ENABLE in
  match args cmd with
  | [name] =>
      oom ← on_db fallible;
      if (oom : bool) then respond_err R "Memory allocation error." else
      r ← on_db (crinitTaskDBRemoveDepFromTask ctl_enable name);
      if r =? -1 then respond_err R "Could not remove 'enable' dependency from task." else respond_ok R
  | _ => wrong_arguments R
  end.

Definition crinitExecRtimCmdDisable (cmd : crinitRtimCmd) : M D (option crinitRtimCmd) :=
  let R := CRINIT_RTIMCMD_R_DISABLE in
  match args cmd with
  | [name] =>
      oom ← on_db fallible;
      if (oom : bool) then respond_err R "Memory allocation error." else
      r ← on_db (crinitTaskDBAddDepToTask ctl_enable name);
      if r =? -1 then respond_err R "Could not add dependency to task." else respond_ok R
  | _ => wrong_arguments R
  end.

(** Spawn the thread for the stop commands with the mutex held; the response to
    a failure. *)
Definition stop_by_commands (t : crinitTask) : M D (option (option crinitRtimCmd)) :=
  let R := CRINIT_RTIMCMD_R_STOP in
  err ← on_db lock_db;
  if negb (err =? 0) then r ← respond_err R "Could not prepare to spawn STOP_COMMAND(s)."; mret (Some r) else
  d ← on_db mdb;
  if negb (spawnFunc d) then mundef else
  failed ← syscall (SysStopThread t);
  on_db unlock_db ;;
  if (failed : bool) then r ← respond_err R "Could not spawn STOP_COMMAND(s)."; mret (Some r) else mret None.

Definition stop_by_signal (t : crinitTask) : M D (option (option crinitRtimCmd)) :=
  let R := CRINIT_RTIMCMD_R_STOP in
  if t_pid t <=? 0 then r ← respond_err R "No PID registered for task."; mret (Some r) else
  failed ← syscall (SysKill (t_pid t) SIGTERM);
  if (failed : bool) then r ← respond_err R "Could not send SIGTERM to process."; mret (Some r) else mret None.

(** On the error paths waiting stays inhibited. *)
Definition crinitExecRtimCmdStop (cmd : crinitRtimCmd) : M D (option crinitRtimCmd) :=
  let R := CRINIT_RTIMCMD_R_STOP in
  match args cmd with
  | [name] =>
      r ← crinitSetInhibitWait true;
      if r =? -1 then respond_err R "Could not inhibit waiting for processes." else
      r ← on_db (crinitTaskDBSetTaskRespawnInhibit true name);
      if negb (r =? 0) then respond_err R "Could not access task to set respawnInhibit." else
      '(r, pTask) ← on_db (crinitTaskDBGetTaskByName name);
      match pTask with
      | None => respond_err R "Could not access task."
      | Some t =>
          failed ← (if (0 <? length (t_stopCmds t))%nat then stop_by_commands t else stop_by_signal t);
          match failed with
          | Some r => mret r
          | None =>
              r ← crinitSetInhibitWait false;
              if r =? -1 then respond_err R "Could not reactivate waiting for processes." else respond_ok R
          end
      end
  | _ => wrong_arguments R
  end.

(** Trouble with the inhibition is answered as if STOP had been asked for. *)
Definition crinitExecRtimCmdKill (cmd : crinitRtimCmd) : M D (option crinitRtimCmd) :=
  let R := CRINIT_RTIMCMD_R_KILL in
  match args cmd with
  | [name] =>
      r ← crinitSetInhibitWait true;
      if r =? -1 then respond_err CRINIT_RTIMCMD_R_STOP "Could not inhibit waiting for processes." else
      '(r, taskPid) ← on_db (crinitTaskDBGetTaskPID name);
      if r =? -1 then respond_err R "Could not access task." else
      if taskPid <=? 0 then respond_err R "No PID registered for task." else
      failed ← syscall (SysKill taskPid SIGKILL);
      if (failed : bool) then respond_err R "Could not send SIGKILL to Process." else
      r ← crinitSetInhibitWait false;
      if r =? -1 then respond_err CRINIT_RTIMCMD_R_STOP "Could not reactivate waiting for processes." else respond_ok R
  | _ => wrong_arguments R
  end.

Definition crinitExecRtimCmdRestart (cmd : crinitRtimCmd) : M D (option crinitRtimCmd) :=
  let R := CRINIT_RTIMCMD_R_RESTART in
  match args cmd with
  | [name] =>
      '(r, st) ← on_db (crinitTaskDBGetTaskState name);
      if r =? -1 then respond_err R "Could not get task state from TaskDB." else
      if negb (st &? Z.lor CRINIT_TASK_STATE_DONE CRINIT_TASK_STATE_FAILED)
      then respond_err R "Task is not either DONE or FAILED." else
      r ← on_db (crinitTaskDBSetTaskRespawnInhibit false name);
      if r =? -1 then respond_err R "Failed to reset the task respawn inhibit flag." else
      r ← on_db (crinitTaskDBSetTaskState 0 name);
      if r =? -1 then respond_err R "Could not reset task state." else respond_ok R
  | _ => wrong_arguments R
  end.

(** *** NOTIFY *)

(** READY and STOPPING: the new state, the dependency on it and the features;
    [Some] is the response to a failure.  The texts of the last two failures are
    not formatted. *)
Definition notify_state (name : string) (st : Z) (event failure : string) : M D (option (option crinitRtimCmd)) :=
  let R := CRINIT_RTIMCMD_R_NOTIFY in
  let fail text := r ← respond_err R text; mret (Some r) in
  r ← on_db (crinitTaskDBSetTaskState st name);
  if r =? -1 then fail failure else
  r ← on_db (crinitTaskDBFulfillDep (mkDep name event) None);
  if r =? -1 then fail "Could not fulfill dependency '%s:%s'."%string else
  r ← on_db (crinitTaskDBProvideFeatureByTaskName name st);
  if r =? -1 then fail "Could not set features of spawned task '%s' as provided."%string else mret None.

Definition crinitExecRtimCmdNotify (cmd : crinitRtimCmd) : M D (option crinitRtimCmd) :=
  let R := CRINIT_RTIMCMD_R_NOTIFY in
  match args cmd with
  | name :: ((_ :: _) as l) =>
      let n := fold_left notify_arg l (mkNotify (-1) (-1) (-1)) in
      r ← (if 0 <? n_pid n then on_db (crinitTaskDBSetTaskPID (n_pid n) name) else mret 0);
      if r =? -1 then respond_err R "Could not set main PID of task." else
      failed ← (if 0 <? n_ready n then
                  notify_state name (Z.lor CRINIT_TASK_STATE_RUNNING CRINIT_TASK_STATE_NOTIFIED)
                    (CRINIT_TASK_EVENT_RUNNING +:+ CRINIT_TASK_EVENT_NOTIFY_SUFFIX)
                    "Could not set task state to RUNNING."
                else mret None);
      match failed with
      | Some r => mret r
      | None =>
          failed ← (if 0 <? n_stopping n then
                      notify_state name (Z.lor CRINIT_TASK_STATE_DONE CRINIT_TASK_STATE_NOTIFIED)
                        (CRINIT_TASK_EVENT_DONE +:+ CRINIT_TASK_EVENT_NOTIFY_SUFFIX)
                        "Could not set task state to DONE."
                    else mret None);
          match failed with Some r => mret r | None => respond_ok R end
      end
  | _ => wrong_arguments R
  end.

(** *** Queries *)

(** strdup() of a name; printing a NULL pointer is undefined. *)
Definition dup_name (name : option string) : M D (option string) :=
  oom ← on_db fallible; mret (if (oom : bool) then None else Some (default "root"%string name)).

Definition crinitExecRtimCmdStatus (cmd : crinitRtimCmd) : M D (option crinitRtimCmd) :=
  let R := CRINIT_RTIMCMD_R_STATUS in
  match args cmd with
  | [name] =>
      p ← on_db (crinitTaskDBBorrowTask name);
      match p with
      | None => respond_err R "Could not get access to requested task in TaskDB."
      | Some p =>
          t ← on_db (deref p);
          username ← dup_name (t_username t);
          groupname ← dup_name (t_groupname t);
          _ ← on_db crinitTaskDBRemit;
          match username, groupname with
          | Some username, Some groupname =>
              oom ← on_db fallible;
              if (oom : bool) then respond_err R "Memory allocation error." else
              match cut_lines 8 (status_text t username groupname) with
              | Some lines => respond R (CRINIT_RTIMCMD_RES_OK :: lines)
              | None => mundef
              end
          | _, _ => mundef
          end
      end
  | _ => wrong_arguments R
  end.

(** The errors are answered as if STATUS had been asked for. *)
Definition crinitExecRtimCmdTaskList (cmd : crinitRtimCmd) : M D (option crinitRtimCmd) :=
  match args cmd with
  | [] =>
      '(r, tasks, _) ← on_db crinitTaskDBExportTaskNamesToArray;
      match tasks with
      | None => respond_err CRINIT_RTIMCMD_R_STATUS "Memory allocation error."
      | Some tasks =>
          oom ← on_db fallible;
          if (oom : bool) then respond_err CRINIT_RTIMCMD_R_STATUS "Memory allocation error." else
          respond CRINIT_RTIMCMD_R_TASKLIST (CRINIT_RTIMCMD_RES_OK :: tasks)
      end
  | _ => wrong_arguments CRINIT_RTIMCMD_R_TASKLIST
  end.

(** The numbers are printed into buffers of eight bytes. *)
Definition crinitExecRtimCmdGetVer (cmd : crinitRtimCmd) : M D (option crinitRtimCmd) :=
  let R := CRINIT_RTIMCMD_R_GETVER in
  match args cmd with
  | [] =>
      let number n := str_take 6 (print_dec n) in
      respond R [CRINIT_RTIMCMD_RES_OK; number (major crinitVersionInfo); number (minor crinitVersionInfo);
                 number (micro crinitVersionInfo); git crinitVersionInfo]
  | _ => wrong_arguments R
  end.

(** *** SHUTDOWN *)

Definition crinitExecRtimCmdShutdown (cmd : crinitRtimCmd) : M D (option crinitRtimCmd) :=
  let R := CRINIT_RTIMCMD_R_SHUTDOWN in
  oom ← on_db fallible;
  if (oom : bool) then respond_err R "Memory allocation error." else
  match args cmd with
  | [arg] =>
      let sCmd := uint32 (strtol arg 10).1.1 in
      let start shutdownCmd :=
        failed ← syscall (SysShdnThread shutdownCmd);
        if (failed : bool) then respond_err R "Could not start shutdown thread." else respond_ok R in
      if sCmd =? CRINIT_SHD_POWEROFF then start RB_POWER_OFF
      else if sCmd =? CRINIT_SHD_REBOOT then start RB_AUTOBOOT
      else respond_err R "Invalid argument."
  | _ => wrong_arguments R
  end.

(** When the grace period ends. *)
Definition grace_end (micros : Z) (t : timespec) : timespec :=
  let sec := tv_sec t + micros / 1000000 in
  let nsec := uint64 (micros mod 1000000 * 1000 + tv_nsec t) in
  mkTimespec (sec + nsec / 1000000000) (nsec mod 1000000000).

(** clock_nanosleep() returns its error, which is never -1: an interrupted sleep
    is not resumed and not reported. *)
Definition crinitGracePeriod (micros : Z) : M D Z :=
  now ← on_db clock_monotonic;
  match now with
  | None => mret (-1)
  | Some t =>
      failed ← syscall (SysSleep (grace_end micros t));
      let ret := if (failed : bool) then EINTR else 0 in
      mret (if ret =? -1 then -1 else 0)
  end.

(** The loop over the lines: [cur] is the element being filled, [below] the
    elements after it, the newest first. *)
Fixpoint unmount_lines (fuel : nat) (text cur : string) (below : list string) (ro : bool) :
    M D (option (list string * bool)) :=
  match fuel, text with
  | Datatypes.S fuel, String _ _ =>
      let '(line, rest) := ini_reader_string (PATH_MAX - 1) text in
      match parse_mount line with
      | MountSkip => unmount_lines fuel rest EmptyString below ro
      | MountRootRo elem => unmount_lines fuel rest elem below true
      | MountTarget target =>
          oom ← on_db fallible;
          if (oom : bool) then mret None else unmount_lines fuel rest EmptyString (target :: below) ro
      end
  | _, _ => mret (Some (cur :: below, ro))
  end.

(** The targets, newest first, and whether the root is mounted read-only. *)
Definition crinitGenUnMountList : M D (option (list string * bool)) :=
  mounts ← on_conf (λ c, Ret (proc_mounts c) c);
  match mounts with
  | None => mret None
  | Some text =>
      oom ← on_db fallible;
      if (oom : bool) then mret None else unmount_lines (String.length text) text EmptyString [] false
  end.

(** Every target is tried; the result is whether all calls succeeded. *)
Fixpoint unmount_all (targets : list string) (out : Z) : M D Z :=
  match targets with
  | [] => mret out
  | t :: targets =>
      if str_eqb t EmptyString then unmount_all targets out else
      failed ← syscall (SysUmount t);
      unmount_all targets (if (failed : bool) then -1 else out)
  end.

Definition crinitFsPrepareShutdown : M D Z :=
  ml ← crinitGenUnMountList;
  '(out, ro) ← match ml with
               | None => mret (-1, false)
               | Some (targets, ro) => out ← unmount_all targets 0; mret (out, ro)
               end;
  out ← (if (ro : bool) then mret out else
           failed ← syscall SysRemountRo; mret (if (failed : bool) then -1 else out));
  mevent SysSync true ;;
  mret out.

(** The loop over the tasks with the mutex held: whether one has stop
    commands. *)
Fixpoint stop_threads (n i : nat) (have : bool) : M B bool :=
  match n with
  | O => mret have
  | Datatypes.S n =>
      d ← mdb;
      match taskSet d !! i with
      | None => mundef
      | Some sl =>
          if (0 <? length (t_stopCmds (sl_task sl)))%nat then
            if negb (spawnFunc d) then mundef else
            _ ← call_spawnFunc (gen d, i) CRINIT_DISPATCH_THREAD_MODE_STOP;
            stop_threads n (Datatypes.S i) true
          else stop_threads n (Datatypes.S i) have
      end
  end.

Definition start_stop_commands : M B bool :=
  err ← lock_db;
  if negb (err =? 0) then mret false else
  d ← mdb;
  have ← stop_threads (length (taskSet d)) 0 false;
  unlock_db ;; mret have.

Definition crinitShdnThread (shutdownCmd : Z) : M D unit :=
  haveStopCommands ← on_db start_stop_commands;
  gpMicros ← on_conf (crinitGlobOptGetUnsignedLL SHDGRACEP);
  (if (haveStopCommands : bool) then _ ← crinitGracePeriod gpMicros; mret tt else mret tt) ;;
  _ ← on_db (crinitTaskDBSetSpawnInhibit true);
  _ ← syscall (SysKill (-1) SIGCONT);
  _ ← syscall (SysKill (-1) SIGTERM);
  _ ← crinitGracePeriod gpMicros;
  _ ← syscall (SysKill (-1) SIGKILL);
  _ ← crinitFsPrepareShutdown;
  _ ← syscall (SysReboot shutdownCmd);
  mret tt.

(** *** The dispatcher *)

Definition crinitExecRtimCmd (cmd : crinitRtimCmd) : M D (option crinitRtimCmd) :=
  match op cmd with
  | CRINIT_RTIMCMD_C_ADDTASK => crinitExecRtimCmdAddTask cmd
  | CRINIT_RTIMCMD_C_ADDSERIES => crinitExecRtimCmdAddSeries cmd
  | CRINIT_RTIMCMD_C_ENABLE => crinitExecRtimCmdEnable cmd
  | CRINIT_RTIMCMD_C_DISABLE => crinitExecRtimCmdDisable cmd
  | CRINIT_RTIMCMD_C_STOP => crinitExecRtimCmdStop cmd
  | CRINIT_RTIMCMD_C_KILL => crinitExecRtimCmdKill cmd
  | CRINIT_RTIMCMD_C_RESTART => crinitExecRtimCmdRestart cmd
  | CRINIT_RTIMCMD_C_NOTIFY => crinitExecRtimCmdNotify cmd
  | CRINIT_RTIMCMD_C_STATUS => crinitExecRtimCmdStatus cmd
  | CRINIT_RTIMCMD_C_TASKLIST => crinitExecRtimCmdTaskList cmd
  | CRINIT_RTIMCMD_C_SHUTDOWN => crinitExecRtimCmdShutdown cmd
  | CRINIT_RTIMCMD_C_GETVER => crinitExecRtimCmdGetVer cmd
  | _ => mret None
  end.
End Handlers.
