(* ===== verification/RtimProps.v ===== *)
(** * Properties of the run-time commands *)

From Stdlib Require Import ZArith Lia Bool List String Ascii.
From stdpp Require Import base list strings gmap.
From S2P Require Import Prelude CString EnvSet Timer Task TaskDB TaskDBSpec TaskDBProps TimerDB Lexers ConfConv Ini.
From S2P Require Import GlobOpt Cgroup GlobOptProps ConfParse ConfTask ConfTaskProps ConfGlob ConfGlobProps FSeries.
From S2P Require Import RtimMsg RtimExec.

Open Scope Z_scope.
Open Scope crinit_scope.

#[local] Arguments String.append : simpl nomatch.

(** ** Rules *)

Section Rules.
Context {B C : Type} `{TaskDBServices B}.
Notation D := (daemon B C).
Implicit Types s : D.

Lemma wp_on_db {A} (m : M B A) (Q : A → D → Prop) s :
  wp m (λ a b, Q a (set_dm_db b s)) (dm_db s) → wp (on_db m) Q s.
Proof. unfold wp, on_db. by destruct (m (dm_db s)). Qed.

Lemma wp_on_conf {A} (m : M C A) (Q : A → D → Prop) s :
  wp m (λ a c, Q a (set_dm_conf c s)) (dm_conf s) → wp (on_conf m) Q s.
Proof. unfold wp, on_conf. by destruct (m (dm_conf s)). Qed.

(** A call that touches neither the configuration nor the rest. *)
Definition db_step s s' : Prop := ∃ b, s' = set_dm_db b s.

(** A failing call leaves the database as it is. *)
Definition db_faults_step s s' : Prop := db_step s s' ∧ only_faults (dm_db s) (dm_db s').

Lemma wp_db_fallible (Q : bool → D → Prop) s :
  (∀ r s', db_faults_step s s' → (quiet (dm_db s) → r = false) → Q r s') → wp (on_db fallible) Q s.
Proof.
  intros HQ. apply wp_on_db, wp_fallible_why. intros r b Hf Hq. apply HQ; [|done]. split; [by exists b|done].
Qed.

Lemma faults_step_trans s1 s2 s3 : db_faults_step s1 s2 → db_faults_step s2 s3 → db_faults_step s1 s3.
Proof. intros [[b ->] Hf1] [[b' ->] Hf2]. split; [by exists b'|]. by etrans. Qed.

Lemma only_faults_db (b b' : B) : only_faults b b' → get_db b' = get_db b.
Proof. apply db_only_faults. Qed.

(** The response is built or an allocation failed. *)
Lemma wp_respond o l (Q : option crinitRtimCmd → D → Prop) s :
  (∀ r s', db_faults_step s s' → r = Some (mkRtimCmd o l 0) ∨ r = None ∧ ¬ quiet (dm_db s) → Q r s') →
  wp (respond o l) Q s.
Proof.
  intros HQ. unfold respond, crinitBuildRtimCmd. apply wp_on_db, wp_bind, wp_fallible_why. intros [] b1 Hf1 Hq1.
  { apply wp_ret, HQ; [split; [by exists b1|done]|right]. split; [done|]. intros Hq. by specialize (Hq1 Hq). }
  apply wp_bind, wp_fallible_why. intros [] b2 Hf2 Hq2; apply wp_ret, HQ.
  - split; [by exists b2|by etrans].
  - right. split; [done|]. intros Hq. apply (only_faults_quiet _ _ Hf1) in Hq. by specialize (Hq2 Hq).
  - split; [by exists b2|by etrans].
  - by left.
Qed.
End Rules.

(** ** Lines of numbers *)

Definition lacks (c : ascii) (a : string) : Prop := str_has c a = false.
Notation one_line := (lacks c_newline).

Lemma lacks_app c a b : lacks c a → lacks c b → lacks c (a +:+ b)%string.
Proof. unfold lacks. intros Ha Hb. by rewrite str_has_app, Ha, Hb. Qed.

(** A character that is not used in numbers does not occur in one. *)
Section Lacks.
Context (c : ascii) (Hc : lacks c "0123456789-").

Lemma lacks_digit n acc : 0 ≤ n < 10 → lacks c acc → lacks c (String (dec_digit n) acc).
Proof.
  intros Hn Ha. unfold lacks. rewrite str_has_cons, Ha, orb_false_r. apply bool_decide_eq_false_2. intros <-.
  assert (n = 0 ∨ n = 1 ∨ n = 2 ∨ n = 3 ∨ n = 4 ∨ n = 5 ∨ n = 6 ∨ n = 7 ∨ n = 8 ∨ n = 9) as Hcase by lia.
  by destruct_or!; subst.
Qed.

Lemma lacks_dec_go fuel n acc : 0 ≤ n → lacks c acc → lacks c (dec_go fuel n acc).
Proof.
  revert n acc. induction fuel as [|fuel IH]; intros n acc Hn Ha; simpl; [done|].
  assert (lacks c (String (dec_digit (n mod 10)) acc)) as Hd by (apply lacks_digit; [apply Z.mod_pos_bound; lia|done]).
  case_if; [done|]. apply IH; [apply Z.div_pos; lia|done].
Qed.

Lemma lacks_sign : lacks c "-" ∧ lacks c "0".
Proof.
  revert Hc. unfold lacks. change "0123456789-"%string with ("0" +:+ "123456789" +:+ "-")%string.
  rewrite !str_has_app, !orb_false_iff. naive_solver.
Qed.

Lemma lacks_print n : lacks c (print_dec n).
Proof.
  unfold print_dec. case_if.
  - change (lacks c ("-" +:+ dec_go (Datatypes.S (Z.to_nat (Z.log2 (- n)))) (- n) EmptyString)).
    apply lacks_app; [apply lacks_sign|]. apply lacks_dec_go; [bool_hyps; lia|done].
  - apply lacks_dec_go; [bool_hyps; lia|done].
Qed.

Lemma lacks_zeros n : lacks c (String.concat EmptyString (replicate n "0"%string)).
Proof.
  induction n as [|[|n] IH]; [done|apply lacks_sign|].
  change (lacks c ("0" +:+ EmptyString +:+ String.concat EmptyString (replicate (Datatypes.S n) "0"))%string).
  apply lacks_app; [apply lacks_sign|]. by apply lacks_app.
Qed.

Lemma lacks_nsec n : lacks c (pad_nsec n).
Proof.
  unfold pad_nsec. apply lacks_app; [by destruct (_ <? 0); [apply lacks_sign|]|].
  apply lacks_app; [apply lacks_zeros|apply lacks_print].
Qed.

Lemma lacks_timespec t : lacks c "." → lacks c (print_timespec t).
Proof.
  intros Hd. unfold print_timespec. apply lacks_app; [apply lacks_print|]. apply lacks_app; [done|apply lacks_nsec].
Qed.
End Lacks.

(** Lines above a text. *)
Definition above (l : list string) (r : string) : string := foldr (λ a r, a +:+ String c_newline r)%string r l.

Lemma concat_above l u g : String.concat (str1 c_newline) (l ++ [u; g]) = above l (u +:+ String c_newline g)%string.
Proof.
  induction l as [|a l IH]; [done|]. cbn [app above foldr]. fold (above l (u +:+ String c_newline g)%string).
  rewrite <- IH. by destruct l.
Qed.

Lemma cut_lines_above l n r : Forall one_line l → cut_lines (length l + n) (above l r) = app l <$> cut_lines n r.
Proof.
  induction 1 as [|a l Ha Hl IH]; simpl; [by destruct (cut_lines n r)|].
  rewrite str_break_app by done. fold (above l r). rewrite IH. by destruct (cut_lines n r).
Qed.

Lemma str_break_mid u g : is_Some (str_break c_newline (u +:+ String c_newline g)%string).
Proof.
  pose proof (str_has_app c_newline u (String c_newline g)) as E. unfold str_has in *.
  destruct (str_break c_newline (u +:+ String c_newline g)%string); [done|].
  simpl in E. rewrite orb_true_r in E. done.
Qed.

Definition status_numbers (t : crinitTask) : list string :=
  [print_dec (uint64 (t_state t)); print_dec (int32 (t_pid t)); print_timespec (t_createTime t);
   print_timespec (t_startTime t); print_timespec (t_endTime t); print_dec (int32 (t_user t));
   print_dec (int32 (t_group t))].

Lemma status_cut t u g :
  ∃ u' g', cut_lines 8 (status_text t u g) = Some (status_numbers t ++ [u'; g']) ∧ (one_line u → u' = u ∧ g' = g).
Proof.
  replace (status_text t u g) with (String.concat (str1 c_newline) (status_numbers t ++ [u; g])) by done.
  rewrite concat_above.
  change 8%nat with (length (status_numbers t) + 1)%nat. rewrite cut_lines_above.
  2:{ by repeat constructor; first [apply lacks_print|apply lacks_timespec]. }
  simpl cut_lines. destruct (str_break_mid u g) as [[u' g'] E]. rewrite E. exists u', g'. split; [done|].
  intros Hu. rewrite str_break_app in E by done. by injection E as <- <-.
Qed.

#[local] Arguments cut_lines : simpl never.

(** ** Every command is answered *)

(** The response that belongs to a command. *)
Definition response_of (o : crinitRtimOp) : crinitRtimOp :=
  match o with
  | CRINIT_RTIMCMD_C_ADDTASK => CRINIT_RTIMCMD_R_ADDTASK
  | CRINIT_RTIMCMD_C_ADDSERIES => CRINIT_RTIMCMD_R_ADDSERIES
  | CRINIT_RTIMCMD_C_ENABLE => CRINIT_RTIMCMD_R_ENABLE
  | CRINIT_RTIMCMD_C_DISABLE => CRINIT_RTIMCMD_R_DISABLE
  | CRINIT_RTIMCMD_C_STOP => CRINIT_RTIMCMD_R_STOP
  | CRINIT_RTIMCMD_C_KILL => CRINIT_RTIMCMD_R_KILL
  | CRINIT_RTIMCMD_C_RESTART => CRINIT_RTIMCMD_R_RESTART
  | CRINIT_RTIMCMD_C_NOTIFY => CRINIT_RTIMCMD_R_NOTIFY
  | CRINIT_RTIMCMD_C_STATUS => CRINIT_RTIMCMD_R_STATUS
  | CRINIT_RTIMCMD_C_TASKLIST => CRINIT_RTIMCMD_R_TASKLIST
  | CRINIT_RTIMCMD_C_SHUTDOWN => CRINIT_RTIMCMD_R_SHUTDOWN
  | CRINIT_RTIMCMD_C_GETVER => CRINIT_RTIMCMD_R_GETVER
  | o => o
  end.

(** The commands that work on tasks that are loaded. *)
Definition is_control (o : crinitRtimOp) : bool :=
  match o with
  | CRINIT_RTIMCMD_C_ENABLE | CRINIT_RTIMCMD_C_DISABLE | CRINIT_RTIMCMD_C_STOP | CRINIT_RTIMCMD_C_KILL
  | CRINIT_RTIMCMD_C_RESTART | CRINIT_RTIMCMD_C_NOTIFY | CRINIT_RTIMCMD_C_STATUS | CRINIT_RTIMCMD_C_TASKLIST
  | CRINIT_RTIMCMD_C_SHUTDOWN | CRINIT_RTIMCMD_C_GETVER => true
  | _ => false
  end.

(** A result: the first argument says whether the command was carried out, and
    an error comes with a text. *)
Definition is_result (l : list string) : Prop :=
  (∃ l', l = CRINIT_RTIMCMD_RES_OK :: l') ∨ (∃ text, l = [CRINIT_RTIMCMD_RES_ERR; text]).

(** The response to a command of kind [o]; when nothing fails ([q]) it is there
    and has the opcode of the command. *)
Definition reply (o : crinitRtimOp) (q : Prop) (r : option crinitRtimCmd) : Prop :=
  match r with
  | Some c => is_result (args c) ∧ (q → op c = response_of o)
  | None => ¬ q
  end.

Section Answers.
Context {B C : Type} `{TaskDBServices B} `{!Faulty C, !OptState C, !ConfFiles C, !TimerState C, !ConfEnv C, !SeriesEnv C}.
Context `{!DirEnv C, !RtimEnv C}.
Notation D := (daemon B C).
Implicit Types s : D.

(** What holds of the daemon between two commands. *)
Record fine s : Prop := {
  fine_db : db_ok (get_db (dm_db s));
  fine_unlocked : locked (get_db (dm_db s)) = false;
  fine_wait : wi_locked (dm_wait s) = false;
}.

Definition answer (o : crinitRtimOp) (q : Prop) (r : option crinitRtimCmd) s : Prop := fine s ∧ reply o q r.

(** What holds while a command is carried out that was started with nothing
    about to fail if [q]. *)
Record sound (q : Prop) s : Prop := {
  snd_stable : stable (dm_db s);
  snd_wait : wi_locked (dm_wait s) = false;
  snd_quiet : q → quiet (dm_db s);
}.

Lemma sound_fine q s : sound q s → fine s.
Proof. by intros [[Ha Hb _] Hw _]. Qed.

Lemma fine_faults s s' : db_faults_step s s' → fine s → fine s'.
Proof. intros [[b ->] Hf] [Ha Hb Hc]. apply only_faults_db in Hf. simpl in Hf. split; simpl; by rewrite ?Hf. Qed.

Lemma stable_faults (b b' : B) : only_faults b b' → stable b → stable b'.
Proof. intros Hf Hst. eapply stable_same; [done|by apply frame_faults|by apply only_faults_db]. Qed.

Lemma sound_faults q s b : sound q s → only_faults (dm_db s) b → sound q (set_dm_db b s).
Proof.
  intros [Hst Hw Hq] Hf. split; [by eapply stable_faults|done|]. intros Hq'. by eapply only_faults_quiet, Hq.
Qed.

Lemma sound_db q s b : sound q s → stable b → frame (dm_db s) b → sound q (set_dm_db b s).
Proof. intros [Hst Hw Hq] Hb Hf. split; [done|done|]. intros Hq'. by apply Hf, Hq. Qed.

Lemma sound_same q s b : sound q s → get_db b = get_db (dm_db s) → frame (dm_db s) b → sound q (set_dm_db b s).
Proof. intros Hs Hb Hf. apply sound_db; [done| |done]. eapply stable_same; [apply Hs|done..]. Qed.

Lemma sound_wait q s w : sound q s → wi_locked w = false → sound q (set_dm_wait w s).
Proof. by intros [Hst Hw Hq]. Qed.

Lemma sound_event q s e ok : sound q s → sound q (add_event e ok s).
Proof. by intros [Hst Hw Hq]. Qed.

(** Fallible steps that keep the daemon sound and, with nothing about to fail,
    succeed. *)
Lemma sound_fallible q (Q : bool → D → Prop) s :
  sound q s →
  (∀ r b, only_faults (dm_db s) b → sound q (set_dm_db b s) → (q → r = false) → Q r (set_dm_db b s)) →
  wp (on_db fallible) Q s.
Proof.
  intros Hs HQ. apply wp_db_fallible. intros r s' [[b ->] Hf] Hr. apply HQ; [done|by apply sound_faults|].
  intros Hq. by apply Hr, Hs.
Qed.

Lemma sound_syscall q e (Q : bool → D → Prop) s :
  sound q s →
  (∀ failed b, only_faults (dm_db s) b → sound q (add_event e (negb failed) (set_dm_db b s)) →
     (q → failed = false) → Q failed (add_event e (negb failed) (set_dm_db b s))) →
  wp (syscall e) Q s.
Proof.
  intros Hs HQ. unfold syscall. apply wp_bind, (sound_fallible q); [done|]. intros failed b Hf Hs' Hr.
  apply wp_bind. unfold wp at 1, mevent. apply wp_ret, HQ; [done|by apply sound_event|done].
Qed.

Lemma wp_inhibit inh (Q : Z → D → Prop) s :
  wi_locked (dm_wait s) = false →
  (∀ r b w, only_faults (dm_db s) b → wi_locked w = false →
     (r = 0 ∧ crinitWaitInhibit w = inh ∨ r = -1 ∧ ¬ quiet (dm_db s)) →
     Q r (set_dm_wait w (set_dm_db b s))) →
  wp (crinitSetInhibitWait inh) Q s.
Proof.
  intros Hw HQ. unfold crinitSetInhibitWait. apply wp_bind, wp_db_fallible. intros [] s1 [[b ->] Hf1] Hq1.
  { apply wp_ret. specialize (HQ (-1) b (dm_wait s) Hf1 Hw). destruct s; simpl in *. apply HQ. right.
    split; [done|]. intros Hq. by specialize (Hq1 Hq). }
  apply wp_bind. unfold wp at 1, mwait. simpl. rewrite Hw. apply wp_bind. unfold wp at 1, mwait_set.
  apply wp_bind. destruct inh.
  - apply wp_ret. do 2 (apply wp_bind; unfold wp at 1, mwait, mwait_set). apply wp_ret.
    apply (HQ 0 b (mkInhibit true false (wi_wakeups (dm_wait s)))); [done|done|by left].
  - apply wp_bind, wp_db_fallible. intros [] s2 [[b' ->] Hf2] Hq2; simpl in *.
    + apply wp_ret. do 2 (apply wp_bind; unfold wp at 1, mwait, mwait_set). apply wp_ret.
      apply (HQ (-1) b' (mkInhibit false false (wi_wakeups (dm_wait s)))); [by etrans|done|right].
      split; [done|]. intros Hq. apply (only_faults_quiet _ _ Hf1) in Hq. by specialize (Hq2 Hq).
    + apply wp_bind; unfold wp at 1, mwait_set. apply wp_ret.
      do 2 (apply wp_bind; unfold wp at 1, mwait, mwait_set). apply wp_ret.
      apply (HQ 0 b' (mkInhibit false false (Datatypes.S (wi_wakeups (dm_wait s))))); [by etrans|done|by left].
Qed.

Lemma sound_inhibit q inh (Q : Z → D → Prop) s :
  sound q s →
  (∀ r b w, only_faults (dm_db s) b → sound q (set_dm_wait w (set_dm_db b s)) →
     (r = 0 ∧ crinitWaitInhibit w = inh ∨ r = -1 ∧ ¬ q) → Q r (set_dm_wait w (set_dm_db b s))) →
  wp (crinitSetInhibitWait inh) Q s.
Proof.
  intros Hs HQ. apply wp_inhibit; [apply Hs|]. intros r b w Hf Hw Hr.
  apply HQ; [done|by apply sound_wait; [apply sound_faults|]|]. destruct Hr as [Hr|[-> Hr]]; [by left|right].
  split; [done|]. intros Hq. by apply Hr, Hs.
Qed.

Lemma answer_respond o (q : Prop) o' l s :
  fine s → (q → quiet (dm_db s)) → (q → o' = response_of o) → is_result l → wp (respond o' l) (answer o q) s.
Proof.
  intros Hs Hq Ho Hl. apply wp_respond. intros r s' Hf Hr. split; [by eapply fine_faults|].
  destruct Hr as [->|[-> Hn]]; [done|]. intros Hq'. by apply Hn, Hq.
Qed.

Lemma answer_err o q o' text s : sound q s → (q → o' = response_of o) → wp (respond_err o' text) (answer o q) s.
Proof. intros Hs Ho. apply answer_respond; [by eapply sound_fine|apply Hs|done|right; by exists text]. Qed.

Lemma answer_ok o q o' l s : sound q s → o' = response_of o → wp (respond o' (CRINIT_RTIMCMD_RES_OK :: l)) (answer o q) s.
Proof. intros Hs Ho. apply answer_respond; [by eapply sound_fine|apply Hs|done|left; by exists l]. Qed.
End Answers.

(** Finish with a response. *)
Ltac answer_with := first [apply answer_err | apply answer_ok]; try done; auto.

Section Control.
Context {B C : Type} `{TaskDBServices B} `{!Faulty C, !OptState C, !ConfFiles C, !TimerState C, !ConfEnv C, !SeriesEnv C}.
Context `{!DirEnv C, !RtimEnv C}.
Notation D := (daemon B C).
Implicit Types s : D.

Lemma enable_answers q cmd s :
  sound q s → wp (crinitExecRtimCmdEnable cmd) (answer CRINIT_RTIMCMD_C_ENABLE q) s.
Proof.
  intros Hs. unfold crinitExecRtimCmdEnable. destruct (args cmd) as [|name [|]]; try answer_with.
  apply wp_bind, (sound_fallible q); [done|]. intros [] b _ Hs1 _; [answer_with|].
  apply wp_bind, wp_on_db. eapply wp_mono; [|apply removedep_spec, Hs1].
  intros r b2 ((Hst2 & Hf2 & _) & _). pose proof (sound_db _ _ _ Hs1 Hst2 Hf2) as Hs2. destruct (r =? -1); answer_with.
Qed.

Lemma disable_answers q cmd s :
  sound q s → wp (crinitExecRtimCmdDisable cmd) (answer CRINIT_RTIMCMD_C_DISABLE q) s.
Proof.
  intros Hs. unfold crinitExecRtimCmdDisable. destruct (args cmd) as [|name [|]]; try answer_with.
  apply wp_bind, (sound_fallible q); [done|]. intros [] b _ Hs1 _; [answer_with|].
  apply wp_bind, wp_on_db. eapply wp_mono; [|apply adddep_spec, Hs1].
  intros r b2 (Hst2 & Hf2 & _). pose proof (sound_db _ _ _ Hs1 Hst2 Hf2) as Hs2. destruct (r =? -1); answer_with.
Qed.

Lemma kill_answers q cmd s :
  sound q s → wp (crinitExecRtimCmdKill cmd) (answer CRINIT_RTIMCMD_C_KILL q) s.
Proof.
  intros Hs. unfold crinitExecRtimCmdKill. destruct (args cmd) as [|name [|]]; try answer_with.
  apply wp_bind, (sound_inhibit q); [done|]. intros r b w _ Hs1 [(-> & _)|(-> & Hnq)]; simpl; [|answer_with].
  apply wp_bind, wp_on_db. unfold crinitTaskDBGetTaskPID. eapply wp_mono; [|apply getter_spec, Hs1].
  intros [r pid] b2 (Hf2 & Hdb2 & _). pose proof (sound_same _ _ _ Hs1 Hdb2 Hf2) as Hs2.
  destruct (r =? -1); [answer_with|]. destruct (pid <=? 0); [answer_with|].
  apply wp_bind, (sound_syscall q); [done|]. intros [] b3 _ Hs3 _; [answer_with|].
  apply wp_bind, (sound_inhibit q); [done|]. intros r4 b4 w4 _ Hs4 [(-> & _)|(-> & Hnq)]; simpl; answer_with.
Qed.

Lemma restart_answers q cmd s :
  sound q s → can_count (get_db (dm_db s)) → wp (crinitExecRtimCmdRestart cmd) (answer CRINIT_RTIMCMD_C_RESTART q) s.
Proof.
  intros Hs Hcnt. unfold crinitExecRtimCmdRestart. destruct (args cmd) as [|name [|]]; try answer_with.
  apply wp_bind, wp_on_db. unfold crinitTaskDBGetTaskState. eapply wp_mono; [|apply getter_spec, Hs].
  intros [r st] b1 (Hf1 & Hdb1 & _). pose proof (sound_same _ _ _ Hs Hdb1 Hf1) as Hs1.
  destruct (r =? -1); [answer_with|]. destruct (negb _); [answer_with|].
  apply wp_bind, wp_on_db. eapply wp_mono; [|apply setinhibit_spec, Hs1].
  intros r2 b2 Hu2. pose proof Hu2 as (Hst2 & Hf2 & _). pose proof (sound_db _ _ _ Hs1 Hst2 Hf2) as Hs2.
  destruct (r2 =? -1); [answer_with|].
  apply wp_bind, wp_on_db. eapply wp_mono; [|apply setstate_spec; [apply Hs2|]].
  - intros r3 b3 (ts & (Hst3 & Hf3 & _) & _). pose proof (sound_db _ _ _ Hs2 Hst3 Hf3) as Hs3.
    destruct (r3 =? -1); answer_with.
  - destruct Hu2 as (_ & _ & [(_ & t & Ht & Hm)|(_ & Hdb2 & _)]); simpl in *; intros t'; [rewrite Hm|rewrite Hdb2].
    + intros [[_ <-]|[_ Hl]]%lookup_insert_Some; simpl; [eapply Hcnt|eapply Hcnt]; by rewrite <- Hdb1.
    + intros Hl. eapply Hcnt. by rewrite <- Hdb1.
Qed.

Lemma tasklist_answers q cmd s :
  sound q s → wp (crinitExecRtimCmdTaskList cmd) (answer CRINIT_RTIMCMD_C_TASKLIST q) s.
Proof.
  intros Hs. unfold crinitExecRtimCmdTaskList. destruct (args cmd) as [|]; [|answer_with].
  apply wp_bind, wp_on_db. eapply wp_mono; [|apply wp_export_names, Hs].
  intros r b (Hf & Hdb & Hr). pose proof (sound_same _ _ _ Hs Hdb Hf) as Hs1. simpl in Hr.
  destruct Hr as [->|(Hnq & leaked & -> & _)].
  - apply wp_bind, (sound_fallible q); [done|]. intros [] b2 _ Hs2 Hq2; answer_with. intros Hq. by specialize (Hq2 Hq).
  - answer_with. intros Hq. destruct Hnq. by apply Hs.
Qed.

Lemma shutdown_answers q cmd s :
  sound q s → wp (crinitExecRtimCmdShutdown cmd) (answer CRINIT_RTIMCMD_C_SHUTDOWN q) s.
Proof.
  intros Hs. unfold crinitExecRtimCmdShutdown. apply wp_bind, (sound_fallible q); [done|].
  intros [] b _ Hs1 _; [answer_with|]. destruct (args cmd) as [|arg [|]]; try answer_with.
  repeat case_if; try answer_with; apply wp_bind, (sound_syscall q); try done; intros [] b2 _ Hs2 _; answer_with.
Qed.

Lemma getver_answers q cmd s :
  sound q s → wp (crinitExecRtimCmdGetVer cmd) (answer CRINIT_RTIMCMD_C_GETVER q) s.
Proof. intros Hs. unfold crinitExecRtimCmdGetVer. destruct (args cmd); answer_with. Qed.

(** The answers of the two ways to stop a task, if they fail. *)
Definition stopped (q : Prop) (r : option (option crinitRtimCmd)) s : Prop :=
  match r with Some r => answer CRINIT_RTIMCMD_C_STOP q r s | None => sound q s end.

Lemma answer_stopped q o' text s :
  sound q s → (q → o' = CRINIT_RTIMCMD_R_STOP) →
  wp (r ← respond_err o' text; mret (Some r)) (stopped q) s.
Proof.
  intros Hs Ho. apply wp_bind. eapply wp_mono; [|by apply (answer_err CRINIT_RTIMCMD_C_STOP q)].
  intros r s' Hr. by apply wp_ret.
Qed.

Lemma stop_signal_answers q t s : sound q s → wp (stop_by_signal t) (stopped q) s.
Proof.
  intros Hs. unfold stop_by_signal. case_if; [by apply answer_stopped|].
  apply wp_bind, (sound_syscall q); [done|]. intros [] b _ Hs1 _; [by apply answer_stopped|by apply wp_ret].
Qed.

Lemma stop_commands_answers q t s :
  sound q s → spawnFunc (get_db (dm_db s)) = true → wp (stop_by_commands t) (stopped q) s.
Proof.
  intros Hs Hfn. pose proof (snd_stable _ _ Hs) as [Hok Hu Hi]. unfold stop_by_commands.
  apply wp_bind, wp_on_db, wp_lock; [apply Hok|done| |].
  { intros b Hf Hdb Hnq. simpl. apply answer_stopped; [by apply sound_same|done]. }
  intros b Hf Hdb. simpl. apply wp_bind, wp_on_db, wp_mdb. simpl. rewrite Hdb. simpl. rewrite Hfn. simpl.
  apply wp_bind. unfold syscall. apply wp_bind, wp_db_fallible. intros failed s2 [[b2 ->] Hf2] _. simpl in *.
  apply wp_bind. unfold wp at 1, mevent. apply wp_ret.
  pose proof (only_faults_db _ _ Hf2) as Hdb2. rewrite Hdb in Hdb2.
  apply wp_bind, wp_on_db, wp_unlock; [simpl; by rewrite Hdb2|]. simpl. intros b3 Hf3 Hdb3.
  rewrite Hdb2, unlock_lock in Hdb3 by done.
  assert (sound q (set_dm_db b3 (add_event (SysStopThread t) (negb failed) s))) as Hs3.
  { apply sound_same; [by apply sound_event|done|]. simpl. etrans; [exact Hf|]. etrans; [|exact Hf3]. by apply frame_faults. }
  destruct failed; [by apply answer_stopped|by apply wp_ret].
Qed.

Lemma setinhibit_spawnFunc inh name (b : B) :
  stable b → wp (crinitTaskDBSetTaskRespawnInhibit inh name) (λ _ b', spawnFunc (get_db b') = spawnFunc (get_db b)) b.
Proof.
  intros Hst. apply wp_with_task; [done|by intros s' _ -> _|].
  intros i t s1 _ Hdb1 _ _ _. apply wp_bind, wp_modify_db. intros s2 _ Hdb2. rewrite Hdb1 in Hdb2.
  apply wp_bind, wp_unlock; [by rewrite Hdb2|]. intros s3 _ Hdb3. apply wp_ret. by rewrite Hdb3, Hdb2.
Qed.

Lemma stop_answers q cmd s :
  sound q s → q → spawnFunc (get_db (dm_db s)) = true →
  wp (crinitExecRtimCmdStop cmd) (answer CRINIT_RTIMCMD_C_STOP q) s.
Proof.
  intros Hs Hq Hfn. unfold crinitExecRtimCmdStop. destruct (args cmd) as [|name [|]]; try answer_with.
  apply wp_bind, (sound_inhibit q); [done|]. intros r b w Hf1 Hs1 [(-> & _)|(-> & Hnq)]; simpl; [|answer_with].
  apply only_faults_db in Hf1. apply wp_bind, wp_on_db. eapply wp_mono; [|apply wp_and; [apply setinhibit_spec, Hs1|apply setinhibit_spawnFunc, Hs1]].
  intros r2 b2 ((Hst2 & Hf2 & _) & Hfn2). pose proof (sound_db _ _ _ Hs1 Hst2 Hf2) as Hs2.
  simpl in Hfn2. rewrite Hf1, Hfn in Hfn2.
  destruct (negb (r2 =? 0)); [answer_with|].
  apply wp_bind, wp_on_db. eapply wp_mono; [|apply getbyname_spec; [apply Hs2|by apply Hs2]].
  intros [r3 pTask] b3 (Hr3 & Hdb3 & Hf3). pose proof (sound_same _ _ _ Hs2 Hdb3 Hf3) as Hs3.
  destruct (_ !! name) as [t|]; injection Hr3 as -> ->; [|answer_with].
  apply wp_bind. apply (wp_mono _ (stopped q)).
  - intros [r|] s4 Hs4; [by apply wp_ret|].
    apply wp_bind, (sound_inhibit q); [done|]. intros r5 b5 w5 _ Hs5 [(-> & _)|(-> & Hnq)]; simpl; answer_with.
  - case_if; [apply stop_commands_answers; [done|]|by apply stop_signal_answers]. simpl in *. by rewrite Hdb3.
Qed.


Lemma status_answers q cmd s :
  sound q s → q → wp (crinitExecRtimCmdStatus cmd) (answer CRINIT_RTIMCMD_C_STATUS q) s.
Proof.
  intros Hs Hq. unfold crinitExecRtimCmdStatus. destruct (args cmd) as [|name [|]]; try answer_with.
  apply wp_bind, wp_on_db. eapply wp_mono; [|apply borrow_spec; [apply Hs|by apply Hs]].
  intros [p|] b (Hf & Hr); [|destruct Hr as [_ Hdb]; answer_with; by apply sound_same].
  destruct Hr as (t & _ & Hdb & Hd). assert (quiet b) as Hqb by (by apply Hf, Hs).
  apply wp_bind, wp_on_db. apply (wp_intro _ _ _ t b); [done|]. simpl.
  unfold dup_name. do 2 (apply wp_bind, wp_bind, wp_on_db; apply wp_fallible_quiet; [done|]; apply wp_ret).
  apply wp_bind, wp_on_db, wp_bind, wp_unlock; [simpl; by rewrite Hdb|]. intros b2 Hf2 Hdb2. simpl in *.
  apply wp_ret. rewrite Hdb, unlock_lock in Hdb2 by apply Hs.
  assert (sound q (set_dm_db b2 s)) as Hs2 by (apply sound_same; [done|done|by etrans]).
  apply wp_bind, (sound_fallible q); [done|]. intros [] b3 _ Hs3 _; [answer_with|].
  destruct (status_cut t (default "root"%string (t_username t)) (default "root"%string (t_groupname t)))
    as (u & g & -> & _). answer_with.
Qed.

(** *** NOTIFY *)

(** The result of one state change: an answer, or the daemon is as sound as
    before and no task waits twice for the same. *)
Definition notified (q : Prop) (r : option (option crinitRtimCmd)) s : Prop :=
  match r with
  | Some r => answer CRINIT_RTIMCMD_C_NOTIFY q r s
  | None => sound q s ∧ calm (dm_db s)
  end.

Lemma answer_notified (q : Prop) text s :
  fine s → (q → quiet (dm_db s)) →
  wp (r ← respond_err CRINIT_RTIMCMD_R_NOTIFY text; mret (Some r)) (notified q) s.
Proof.
  intros Hs Hq. apply wp_bind. eapply wp_mono; [|apply (answer_respond CRINIT_RTIMCMD_C_NOTIFY q); [done|done|done|]].
  - intros r s' Hr. by apply wp_ret.
  - right. by eexists.
Qed.

Lemma sound_notified q text s :
  sound q s → wp (r ← respond_err CRINIT_RTIMCMD_R_NOTIFY text; mret (Some r)) (notified q) s.
Proof. intros Hs. apply answer_notified; [by eapply sound_fine|apply Hs]. Qed.

Lemma notify_state_answers q name st event failure s :
  sound q s → calm (dm_db s) →
  (∀ ts t, t_failCount t < INT_MAX → t_failCount (to_state st ts t) < INT_MAX) →
  wp (notify_state name st event failure) (notified q) s.
Proof.
  intros Hs Hc Hst. unfold notify_state.
  apply wp_bind, wp_on_db. eapply wp_mono; [|apply setstate_spec; [apply Hs|apply (proj2 Hc)]].
  intros r1 b1 (ts & Hu1 & _). pose proof Hu1 as (Hst1 & Hf1 & Hr1). pose proof (sound_db _ _ _ Hs Hst1 Hf1) as Hs1.
  destruct Hr1 as [(-> & t & Ht & Hm1)|(-> & _)]; simpl; [|by apply sound_notified].
  assert (calm b1) as Hc1 by (eapply updated_calm_at; [done|apply to_state_deps|apply Hst|done]).
  apply wp_bind, wp_on_db. eapply wp_mono; [|apply fulfill_spec; apply Hs1].
  intros r2 b2 (Hst2 & Hf2 & Hr2). pose proof (sound_db _ _ _ Hs1 Hst2 Hf2) as Hs2.
  destruct Hr2 as [(-> & Hdb2)|(-> & _)]; simpl; [|by apply sound_notified].
  assert (calm b2) as Hc2 by (by eapply fulfil_calm).
  apply wp_bind, wp_on_db. eapply wp_mono; [|eapply provide_by_name_spec; [apply Hs2|apply Hc2|]].
  2:{ simpl in *. rewrite Hdb2. change (db_map (add_changed ?d)) with (db_map d).
      rewrite db_map_fulfil, Hm1, lookup_fmap, lookup_insert_eq. done. }
  intros r3 b3 (Hok3 & Hl3 & Hi3 & Hu3 & Hq3 & Hc3). destruct (Z.eqb_spec r3 (-1)) as [->|Hne].
  - apply answer_notified; [by split; [| |apply Hs2]|]. intros Hq. by apply Hq3, Hs2.
  - assert (stable b3) as Hst3 by (split; [done|done|by apply Hi3]). apply wp_ret. split.
    + split; [done|apply Hs2|]. intros Hq. by apply Hq3, Hs2.
    + split; [by split|]. by apply Hc3, Hc2.
Qed.

Lemma notify_answers q cmd s :
  sound q s → calm (dm_db s) → wp (crinitExecRtimCmdNotify cmd) (answer CRINIT_RTIMCMD_C_NOTIFY q) s.
Proof.
  intros Hs Hc. unfold crinitExecRtimCmdNotify. destruct (args cmd) as [|name [|a l]]; try answer_with.
  set (n := fold_left _ _ _). apply wp_bind. apply (wp_mono _ (λ _ s1, sound q s1 ∧ calm (dm_db s1))).
  2:{ case_if; [|by apply wp_ret]. apply wp_on_db. eapply wp_mono; [|apply setpid_spec; apply Hs].
      intros r b Hu. pose proof Hu as (Hst & Hf & _). split; [by apply sound_db|]. by eapply updated_calm. }
  intros r s1 [Hs1 Hc1]. destruct (r =? -1); [answer_with|].
  assert (∀ st ts t, st = CRINIT_TASK_STATE_RUNNING ∨ st = CRINIT_TASK_STATE_DONE → t_failCount t < INT_MAX →
    t_failCount (to_state (Z.lor st CRINIT_TASK_STATE_NOTIFIED) ts t) < INT_MAX) as Hcount.
  { intros st ts t [->| ->] Hlt; unfold to_state, state_change; simpl; unfold INT_MAX in *; lia. }
  apply wp_bind. apply (wp_mono _ (notified q)).
  2:{ case_if; [|by apply wp_ret]. apply notify_state_answers; [done|done|]. intros ts t. apply Hcount. by left. }
  intros [r1|] s2 Hs2; [by apply wp_ret|]. destruct Hs2 as [Hs2 Hc2].
  apply wp_bind. apply (wp_mono _ (notified q)).
  2:{ case_if; [|by apply wp_ret]. apply notify_state_answers; [done|done|]. intros ts t. apply Hcount. by right. }
  intros [r2|] s3 Hs3; [by apply wp_ret|]. destruct Hs3 as [Hs3 _]. answer_with.
Qed.

End Control.

(** ** Witness *)

(** The mounts and the version of the demonstration. *)
Definition demo_mounts : string :=
  ("/dev/root / ext4 rw,relatime 0 0" +:+ str1 c_newline +:+ "none /proc proc rw 0 0" +:+ str1 c_newline +:+
   "/dev/sda2 /var ext4 rw 0 0" +:+ str1 c_newline +:+ "tmpfs /var/tmp tmpfs rw 0 0" +:+ str1 c_newline)%string.
#[export] Instance confd_rtim : RtimEnv confd := {|
  proc_mounts := λ _, Some demo_mounts;
  crinitVersionInfo := mkVersion 0 15 1 "abc";
|}.

(** "fs" has a process, "net" has stop commands, "log" has ended. *)
Definition demo_run : crinitTask := set_t_state CRINIT_TASK_STATE_RUNNING (set_t_pid 42 demo_fs).
Definition demo_stop : crinitTask :=
   mkTask "net" demo_cmd demo_cmd demo_env demo_env [mkDep "fs" "wait"] [] true [] 0 0 (-1) [] (-1) 0 false
     (mkTimespec 5 0) (mkTimespec 0 0) (mkTimespec 0 0) 0 0 [] None None 0 0 None.
Definition demo_end : crinitTask :=
   mkTask "log" demo_cmd [] demo_env demo_env [] [] true [] 0 CRINIT_TASK_STATE_DONE (-1) [] (-1) 0 true
     (mkTimespec 5 0) (mkTimespec 6 0) (mkTimespec 7 0) 0 0 [] None None 0 0 None.
Definition demo_tasks : list crinitTask := [demo_run; demo_stop; demo_end].

Definition demo_daemon (fs : list bool) (files : list (string * string)) : daemon bare confd :=
  mkDaemon (demo_state fs demo_tasks) (demo_confd files) (mkInhibit false false 0) [].

Lemma demo_daemon_stable fs files : stable (dm_db (demo_daemon fs files)).
Proof.
  split; [|done|done]. split; simpl; [done|lia|by repeat constructor|repeat constructor; set_solver|].
  repeat (apply Forall_cons; split); [..|by apply Forall_nil];
    (split; simpl; [by repeat constructor|by repeat constructor|apply demo_env_ok|apply demo_env_ok|done]).
Qed.

Lemma demo_daemon_count fs files : can_count (get_db (dm_db (demo_daemon fs files))).
Proof.
  unfold can_count. rewrite <- (all_map (λ t, t_failCount t < INT_MAX) _ (st_ok _ (demo_daemon_stable fs files))).
  by repeat constructor.
Qed.

Lemma demo_daemon_calm fs files : calm (dm_db (demo_daemon fs files)).
Proof.
  split; [split; [apply demo_daemon_stable|]|apply demo_daemon_count]. repeat constructor; set_solver.
Qed.

