(* ===== verification/RtimCtl.v ===== *)
(** * What the commands that control a task do, when nothing fails *)

From Stdlib Require Import ZArith Lia Bool List String Ascii.
From stdpp Require Import base list strings gmap.
From S2P Require Import Prelude CString EnvSet Timer Task TaskDB TaskDBSpec TaskDBProps TimerDB Lexers ConfConv Ini.
From S2P Require Import GlobOpt Cgroup GlobOptProps ConfParse ConfTask ConfTaskProps ConfGlob ConfGlobProps FSeries.
From S2P Require Import RtimMsg RtimExec RtimProps.

Open Scope Z_scope.
Open Scope crinit_scope.

(** The tasks of the daemon by name. *)
Definition tasks_of {B C} `{TaskDBServices B} (s : daemon B C) : gmap string crinitTask := db_map (get_db (dm_db s)).

(** A command without a history. *)
Definition command (o : crinitRtimOp) (l : list string) : crinitRtimCmd := mkRtimCmd o l 0.
Definition success (o : crinitRtimOp) : option crinitRtimCmd := Some (command o [CRINIT_RTIMCMD_RES_OK]).
Definition failure (o : crinitRtimOp) (text : string) : option crinitRtimCmd :=
  Some (command o [CRINIT_RTIMCMD_RES_ERR; text]).

(** A daemon between two commands, with nothing about to fail. *)
Record at_rest {B C} `{TaskDBServices B} (s : daemon B C) : Prop := {
  rest_stable : stable (dm_db s);
  rest_wait : wi_locked (dm_wait s) = false;
  rest_quiet : quiet (dm_db s);
}.

Section Rest.
Context {B C : Type} `{TaskDBServices B}.
Notation D := (daemon B C).
Implicit Types s : D.

Lemma rest_db s b : at_rest s → stable b → frame (dm_db s) b → at_rest (set_dm_db b s).
Proof. intros [Hst Hw Hq] Hb Hf. split; [done|done|by apply Hf]. Qed.

Lemma rest_same s b : at_rest s → get_db b = get_db (dm_db s) → frame (dm_db s) b → at_rest (set_dm_db b s).
Proof. intros Hs Hb Hf. apply rest_db; [done| |done]. eapply stable_same; [apply Hs|done..]. Qed.

Lemma rest_inhibit s w : at_rest s → wi_locked w = false → at_rest (set_dm_wait w s).
Proof. by intros [Hst _ Hq]. Qed.

Lemma wp_rest_fallible (Q : bool → D → Prop) s : quiet (dm_db s) → Q false s → wp (on_db fallible) Q s.
Proof. intros Hq HQ. apply wp_on_db, wp_fallible_quiet; [done|]. by destruct s. Qed.

Lemma wp_rest_respond o l (Q : option crinitRtimCmd → D → Prop) s :
  quiet (dm_db s) → Q (Some (mkRtimCmd o l 0)) s → wp (respond o l) Q s.
Proof.
  intros Hq HQ. unfold respond, crinitBuildRtimCmd. apply wp_on_db. do 2 (apply wp_bind, wp_fallible_quiet; [done|]).
  apply wp_ret. by destruct s.
Qed.

Lemma wp_rest_syscall e (Q : bool → D → Prop) s :
  quiet (dm_db s) → Q false (add_event e true s) → wp (syscall e) Q s.
Proof.
  intros Hq HQ. unfold syscall. apply wp_bind, wp_rest_fallible; [done|]. apply wp_bind.
  unfold wp at 1, mevent. by apply wp_ret.
Qed.

Lemma wp_rest_inhibit inh (Q : Z → D → Prop) s :
  quiet (dm_db s) → wi_locked (dm_wait s) = false →
  (∀ w, wi_locked w = false → crinitWaitInhibit w = inh → Q 0 (set_dm_wait w s)) →
  wp (crinitSetInhibitWait inh) Q s.
Proof.
  intros Hq Hw HQ. unfold crinitSetInhibitWait. apply wp_bind, wp_rest_fallible; [done|].
  apply wp_bind. unfold wp at 1, mwait. simpl. rewrite Hw. apply wp_bind. unfold wp at 1, mwait_set. apply wp_bind.
  destruct inh.
  - apply wp_ret. do 2 (apply wp_bind; unfold wp at 1, mwait, mwait_set). apply wp_ret.
    by apply (HQ (mkInhibit true false (wi_wakeups (dm_wait s)))).
  - apply wp_bind, wp_rest_fallible; [done|]. apply wp_bind; unfold wp at 1, mwait_set. apply wp_ret.
    do 2 (apply wp_bind; unfold wp at 1, mwait, mwait_set). apply wp_ret.
    by apply (HQ (mkInhibit false false (Datatypes.S (wi_wakeups (dm_wait s))))).
Qed.
End Rest.

Lemma fulfil_added dep t :
  dep ∉ t_deps t → dep ∉ t_trig t → fulfil dep (set_t_deps (t_deps t ++ [dep]) t) = t.
Proof.
  intros Hd Ht. unfold fulfil. cbn [t_deps t_trig t_triggered set_t_deps]. rewrite remove_dep_last by done.
  assert (existsb (λ d, dep_eqb d dep) (t_trig t) = false) as ->; [|by rewrite orb_false_r; destruct t].
  apply not_true_is_false. rewrite existsb_exists. intros (d & Hin & ->%dep_eqb_true). by apply Ht, list_elem_of_In.
Qed.

Section Control.
Context {B C : Type} `{TaskDBServices B} `{!Faulty C, !OptState C, !ConfFiles C, !TimerState C, !ConfEnv C, !SeriesEnv C}.
Context `{!DirEnv C, !RtimEnv C}.
Notation D := (daemon B C).
Implicit Types s : D.

(** A task was changed and success reported. *)
Definition changed_task (o : crinitRtimOp) (name : string) (t : crinitTask) (m : gmap string crinitTask)
    (r : option crinitRtimCmd) s : Prop :=
  r = success o ∧ at_rest s ∧ tasks_of s = <[name := t]> m.

Lemma disable_spec name t s :
  at_rest s → tasks_of s !! name = Some t →
  wp (crinitExecRtimCmd (command CRINIT_RTIMCMD_C_DISABLE [name]))
    (changed_task CRINIT_RTIMCMD_R_DISABLE name (add_dep ctl_enable t) (tasks_of s)) s.
Proof.
  intros Hs Ht. unfold crinitExecRtimCmd, crinitExecRtimCmdDisable. cbn [op args command].
  apply wp_bind, wp_rest_fallible; [apply Hs|]. apply wp_bind, wp_on_db.
  eapply wp_mono; [|apply adddep_spec, Hs].
  intros r b (Hst & Hf & [(_ & _ & Hr)|(-> & _ & Hnq)]); [|by destruct Hnq; apply Hs].
  destruct Hr as [(-> & t' & Ht' & Hm)|(_ & _ & Hnone)]; [|unfold tasks_of in Ht; by rewrite Hnone in Ht; [|apply Hs]].
  apply wp_rest_respond; [by apply Hf, Hs|]. split_and!; [done|by apply rest_db|]. unfold tasks_of in *. simpl. congruence.
Qed.

Lemma enable_spec name t s :
  at_rest s → tasks_of s !! name = Some t →
  wp (crinitExecRtimCmd (command CRINIT_RTIMCMD_C_ENABLE [name]))
    (changed_task CRINIT_RTIMCMD_R_ENABLE name (fulfil ctl_enable t) (tasks_of s)) s.
Proof.
  intros Hs Ht. unfold crinitExecRtimCmd, crinitExecRtimCmdEnable. cbn [op args command].
  apply wp_bind, wp_rest_fallible; [apply Hs|]. apply wp_bind, wp_on_db.
  eapply wp_mono; [|apply removedep_spec, Hs].
  intros r b ((Hst & Hf & Hr) & _).
  destruct Hr as [(-> & t' & Ht' & Hm)|(_ & _ & Hnone)]; [|unfold tasks_of in Ht; by rewrite Hnone in Ht; [|apply Hs]].
  apply wp_rest_respond; [by apply Hf, Hs|]. split_and!; [done|by apply rest_db|]. unfold tasks_of in *. simpl. congruence.
Qed.

Lemma add_dep_waits dep t : crinitTaskIsReady (add_dep dep t) = false.
Proof.
  unfold add_dep, crinitTaskIsReady. destruct (existsb _ (t_deps t)) eqn:E; [|by cbn; rewrite length_app, Nat.add_comm].
  apply existsb_exists in E as (d & Hin & _). by destruct (t_deps t).
Qed.


(** *** RESTART *)

Definition restarted (t : crinitTask) : crinitTask := set_t_state 0 (set_t_inhibitRespawn false t).

Lemma to_state_loaded ts t : to_state 0 ts t = set_t_state 0 t.
Proof. done. Qed.

Lemma restarted_ready t : crinitTaskIsReady (restarted t) = bool_decide (t_deps t = []) && t_triggered t.
Proof.
  unfold crinitTaskIsReady, restarted. cbn [t_deps t_triggered t_state t_opts t_inhibitRespawn set_t_state set_t_inhibitRespawn].
  destruct (t_deps t); [|done]. simpl. destruct (t_triggered t); [|done]. simpl. by rewrite andb_false_r.
Qed.

(** RESTART is refused for a task that is not known or has not ended.
    Otherwise the task is loaded anew: it is ready to be started exactly if it
    waits for no dependency and no trigger, even if it was stopped or its
    retries are used up.  Nothing else changes. *)
Theorem crinitExecRtimCmdRestart_spec name s :
  at_rest s → can_count (get_db (dm_db s)) →
  wp (crinitExecRtimCmd (command CRINIT_RTIMCMD_C_RESTART [name]))
    (λ r s', at_rest s' ∧
       match tasks_of s !! name with
       | None => r = failure CRINIT_RTIMCMD_R_RESTART "Could not get task state from TaskDB." ∧ tasks_of s' = tasks_of s
       | Some t =>
           if t_state t &? Z.lor CRINIT_TASK_STATE_DONE CRINIT_TASK_STATE_FAILED then
             r = success CRINIT_RTIMCMD_R_RESTART ∧ tasks_of s' = <[name := restarted t]> (tasks_of s) ∧
             crinitTaskIsReady (restarted t) = bool_decide (t_deps t = []) && t_triggered t
           else r = failure CRINIT_RTIMCMD_R_RESTART "Task is not either DONE or FAILED." ∧ tasks_of s' = tasks_of s
       end) s.
Proof.
  intros Hs Hc. unfold crinitExecRtimCmd, crinitExecRtimCmdRestart. cbn [op args command].
  apply wp_bind, wp_on_db. unfold crinitTaskDBGetTaskState. eapply wp_mono; [|apply getter_spec, Hs].
  intros [r st] b1 (Hf1 & Hdb1 & Hr). pose proof (rest_same _ _ Hs Hdb1 Hf1) as Hs1.
  assert (tasks_of (set_dm_db b1 s) = tasks_of s) as Hm1 by (unfold tasks_of; simpl; by rewrite Hdb1).
  destruct Hr as [(t & Ht & [= -> ->])|([= -> ->] & Hnone)]; simpl.
  2:{ unfold tasks_of at 1. rewrite Hnone by apply Hs. by apply wp_rest_respond; [apply Hs1|]. }
  unfold tasks_of at 1. rewrite Ht. destruct (t_state t &? _); simpl; [|by apply wp_rest_respond; [apply Hs1|]].
  apply wp_bind, wp_on_db. eapply wp_mono; [|apply setinhibit_spec, Hs1].
  intros r2 b2 (Hst2 & Hf2 & Hr2). pose proof (rest_db _ _ Hs1 Hst2 Hf2) as Hs2. simpl in Hr2. rewrite Hdb1 in Hr2.
  destruct Hr2 as [(-> & t2 & Ht2 & Hm2)|(_ & _ & Hnone)]; [|rewrite Hnone in Ht; [done|by apply Hs1]]. simpl.
  assert (t2 = t) as -> by congruence.
  apply wp_bind, wp_on_db. eapply wp_mono; [|apply setstate_spec; [apply Hs2|]].
  2:{ simpl. rewrite Hm2, lookup_insert_eq. intros t' [= <-]. simpl. by eapply Hc. }
  intros r3 b3 (ts & (Hst3 & Hf3 & Hr3) & _). pose proof (rest_db _ _ Hs2 Hst3 Hf3) as Hs3. simpl in Hr3.
  destruct Hr3 as [(-> & t3 & Ht3 & Hm3)|(_ & _ & Hnone)].
  2:{ rewrite Hm2, lookup_insert_eq in Hnone. by specialize (Hnone (rest_quiet _ Hs2)). }
  rewrite Hm2, lookup_insert_eq in Ht3. injection Ht3 as <-.
  apply wp_rest_respond; [apply Hs3|]. split_and!; [done|done| |apply restarted_ready].
  unfold tasks_of. simpl. by rewrite Hm3, Hm2, insert_insert_eq, to_state_loaded.
Qed.

(** *** KILL and STOP *)

(** Signals and threads so far. *)
Definition did s s' (l : list sys_event) : Prop := dm_trace s' = dm_trace s ++ ((λ e, (e, true)) <$> l).

(** The response to KILL, the signal that is sent and whether waiting for
    processes is possible afterwards. *)
Definition kill_outcome (t : option crinitTask) : option crinitRtimCmd * list sys_event * bool :=
  match t with
  | None => (failure CRINIT_RTIMCMD_R_KILL "Could not access task.", [], false)
  | Some t =>
      if t_pid t <=? 0 then (failure CRINIT_RTIMCMD_R_KILL "No PID registered for task.", [], false)
      else (success CRINIT_RTIMCMD_R_KILL, [SysKill (t_pid t) SIGKILL], true)
  end.

Lemma did_nothing s s' : dm_trace s' = dm_trace s → did s s' [].
Proof. unfold did. simpl. by rewrite app_nil_r. Qed.

Lemma kill_spec name s :
  at_rest s →
  wp (crinitExecRtimCmd (command CRINIT_RTIMCMD_C_KILL [name]))
    (λ r s', at_rest s' ∧ get_db (dm_db s') = get_db (dm_db s) ∧
       let '(res, events, waits) := kill_outcome (tasks_of s !! name) in
       r = res ∧ did s s' events ∧ crinitWaitInhibit (dm_wait s') = negb waits) s.
Proof.
  intros Hs. unfold crinitExecRtimCmd, crinitExecRtimCmdKill. cbn [op args command].
  apply wp_bind, wp_rest_inhibit; [apply Hs..|]. intros w Hw Hinh. cbn [Z.eqb].
  apply wp_bind, wp_on_db. unfold crinitTaskDBGetTaskPID. eapply wp_mono; [|apply getter_spec, Hs].
  intros [r pid] b (Hf & Hdb & Hr). simpl in Hf, Hdb.
  assert (at_rest (set_dm_db b (set_dm_wait w s))) as Hs1 by (by apply rest_same; [apply rest_inhibit|..]).
  destruct Hr as [(t & Ht & [= -> ->])|([= -> ->] & Hnone)]; simpl.
  2:{ unfold tasks_of. simpl in Hnone. rewrite Hnone by apply Hs. apply wp_rest_respond; [apply Hs1|].
      simpl. split_and!; [done|done|done|by apply did_nothing|done]. }
  unfold tasks_of. simpl in Ht. rewrite Ht. simpl. destruct (t_pid t <=? 0).
  { apply wp_rest_respond; [apply Hs1|]. split_and!; [done|done|done|by apply did_nothing|done]. }
  apply wp_bind, wp_rest_syscall; [apply Hs1|]. cbn [negb].
  apply wp_bind, wp_rest_inhibit; [apply Hs1|done|]. intros w2 Hw2 Hinh2. cbn [Z.eqb].
  apply wp_rest_respond; [apply Hs1|]. split_and!; try done. by split; [apply Hs1|done|apply Hs1].
Qed.

(** KILL sends SIGKILL to the process that is registered for the task and to
    nothing else, changes no task, and reports an error if there is no such task
    or no process. *)
Theorem crinitExecRtimCmdKill_spec name s :
  at_rest s →
  wp (crinitExecRtimCmd (command CRINIT_RTIMCMD_C_KILL [name]))
    (λ r s', at_rest s' ∧ tasks_of s' = tasks_of s ∧
       match tasks_of s !! name with
       | Some t =>
           if 0 <? t_pid t then r = success CRINIT_RTIMCMD_R_KILL ∧ did s s' [SysKill (t_pid t) SIGKILL]
           else r = failure CRINIT_RTIMCMD_R_KILL "No PID registered for task." ∧ did s s' []
       | None => r = failure CRINIT_RTIMCMD_R_KILL "Could not access task." ∧ did s s' []
       end) s.
Proof.
  intros Hs. eapply wp_mono; [|by apply kill_spec]. intros r s' (Hs' & Hdb & Hr). split_and!; [done|unfold tasks_of; by rewrite Hdb|].
  destruct (tasks_of s !! name) as [t|]; simpl in Hr; [|by destruct Hr as (-> & ? & _)].
  destruct (Z.leb_spec (t_pid t) 0), (Z.ltb_spec 0 (t_pid t)); try lia; by destruct Hr as (-> & ? & _).
Qed.

(** After a KILL that failed because the task is unknown or has no process,
    waiting for processes stays inhibited: a dispatcher thread whose process
    ends then waits for another command to end that, and neither reaps the
    process nor reports its end to the tasks that depend on it. *)
Theorem failed_kill_inhibits_reaping name s :
  at_rest s → (∀ t, tasks_of s !! name = Some t → t_pid t ≤ 0) →
  wp (crinitExecRtimCmd (command CRINIT_RTIMCMD_C_KILL [name]))
    (λ r s', (∃ text, r = failure CRINIT_RTIMCMD_R_KILL text) ∧ crinitBlockOnWaitInhibit s' = Block) s.
Proof.
  intros Hs Hno. eapply wp_mono; [|by apply kill_spec]. intros r s' (Hs' & _ & Hr).
  assert ((∃ text, r = failure CRINIT_RTIMCMD_R_KILL text) ∧ crinitWaitInhibit (dm_wait s') = true) as [Hres Hinh].
  { destruct (tasks_of s !! name) as [t|]; simpl in Hr; [|destruct Hr as (-> & _ & ->); eauto].
    specialize (Hno t eq_refl). destruct (Z.leb_spec (t_pid t) 0); [|lia]. destruct Hr as (-> & _ & ->). eauto. }
  split; [done|]. unfold crinitBlockOnWaitInhibit.
  rewrite (bind_run _ _ s' false s'); [|unfold on_db; rewrite fallible_quiet by apply Hs'; by destruct s'].
  rewrite (bind_run mwait _ s' (dm_wait s') s') by done. by rewrite (rest_wait _ Hs'), Hinh.
Qed.

(** The task as STOP leaves it. *)
Definition inhibited (t : crinitTask) : crinitTask := set_t_inhibitRespawn true t.

Lemma stop_commands_spec t (Q : option (option crinitRtimCmd) → D → Prop) s :
  at_rest s → spawnFunc (get_db (dm_db s)) = true →
  (∀ b, get_db b = get_db (dm_db s) → frame (dm_db s) b →
     Q None (set_dm_db b (add_event (SysStopThread t) true s))) →
  wp (stop_by_commands t) Q s.
Proof.
  intros Hs Hfn HQ. pose proof (rest_stable _ Hs) as [Hok Hu Hi]. unfold stop_by_commands.
  apply wp_bind, wp_on_db, wp_lock; [apply Hok|done|by intros ? _ _ []; apply Hs|]. intros b Hf Hdb. simpl.
  apply wp_bind, wp_on_db, wp_mdb. simpl. rewrite Hdb. simpl. rewrite Hfn. simpl.
  apply wp_bind, wp_rest_syscall; [by apply Hf, Hs|].
  apply wp_bind, wp_on_db, wp_unlock; [simpl; by rewrite Hdb|]. simpl. intros b2 Hf2 Hdb2.
  rewrite Hdb, unlock_lock in Hdb2 by done. apply wp_ret, HQ; [done|by etrans].
Qed.

(** STOP keeps a known task from being respawned.  A task with stop commands
    gets a thread that runs them; otherwise the process that is registered for
    it, if there is one, gets SIGTERM.  Nothing else is signalled or started and
    no other task changes. *)
Theorem crinitExecRtimCmdStop_spec name t s :
  at_rest s → spawnFunc (get_db (dm_db s)) = true → tasks_of s !! name = Some t →
  wp (crinitExecRtimCmd (command CRINIT_RTIMCMD_C_STOP [name]))
    (λ r s', at_rest s' ∧ tasks_of s' = <[name := inhibited t]> (tasks_of s) ∧
       if (0 <? length (t_stopCmds t))%nat then
         r = success CRINIT_RTIMCMD_R_STOP ∧ did s s' [SysStopThread (inhibited t)]
       else if 0 <? t_pid t then r = success CRINIT_RTIMCMD_R_STOP ∧ did s s' [SysKill (t_pid t) SIGTERM]
       else r = failure CRINIT_RTIMCMD_R_STOP "No PID registered for task." ∧ did s s' []) s.
Proof.
  intros Hs Hfn Ht. unfold crinitExecRtimCmd, crinitExecRtimCmdStop. cbn [op args command].
  apply wp_bind, wp_rest_inhibit; [apply Hs..|]. intros w Hw Hinh. cbn [Z.eqb].
  apply wp_bind, wp_on_db. eapply wp_mono; [|apply wp_and; [apply setinhibit_spec, Hs|apply setinhibit_spawnFunc, Hs]].
  intros r b ((Hst & Hf & Hr) & Hfn1). simpl in Hf, Hfn1. unfold tasks_of in *.
  destruct Hr as [(-> & t0 & Ht0 & Hm)|(_ & _ & Hnone)]; [|simpl in Hnone; by rewrite Hnone in Ht; [|apply Hs]]. simpl in Ht0, Hm. cbn [Z.eqb negb].
  assert (t0 = t) as -> by congruence.
  assert (at_rest (set_dm_db b (set_dm_wait w s))) as Hs1 by (by apply rest_db; [apply rest_inhibit|..]).
  apply wp_bind, wp_on_db. eapply wp_mono; [|apply getbyname_spec; apply Hs1]. intros [r1 pTask] b1 (Hr1 & Hdb1 & Hf1). simpl in Hf1, Hdb1, Hr1.
  rewrite Hm, lookup_insert_eq in Hr1. injection Hr1 as -> ->.
  assert (at_rest (set_dm_db b1 (set_dm_wait w s))) as Hs2 by (by apply (rest_same _ _ Hs1)).
  change (t_stopCmds (set_t_inhibitRespawn true t)) with (t_stopCmds t). apply wp_bind. destruct (0 <? length (t_stopCmds t))%nat.
  - apply stop_commands_spec; [done|simpl; by rewrite Hdb1, Hfn1|]. intros b2 Hdb2 Hf2. simpl in Hdb2, Hf2.
    apply wp_bind, wp_rest_inhibit; [simpl; by apply Hf2, Hs2|done|]. intros w2 Hw2 _. cbn [Z.eqb].
    apply wp_rest_respond; [simpl; by apply Hf2, Hs2|]. simpl. rewrite Hdb2, Hdb1. split_and!; try done.
    split; [|done|by apply Hf2, Hs2]. eapply stable_same; [apply Hs2|done..].
  - unfold stop_by_signal. change (t_pid (set_t_inhibitRespawn true t)) with (t_pid t).
    destruct (Z.leb_spec (t_pid t) 0), (Z.ltb_spec 0 (t_pid t)); try lia.
    + apply wp_bind, wp_rest_respond; [apply Hs2|]. apply wp_ret, wp_ret. simpl. rewrite Hdb1.
      split_and!; [done|done|done|by apply did_nothing].
    + apply wp_bind, wp_rest_syscall; [apply Hs2|]. apply wp_ret.
      apply wp_bind, wp_rest_inhibit; [apply Hs2|done|]. intros w2 Hw2 _. cbn [Z.eqb].
      apply wp_rest_respond; [apply Hs2|]. simpl. rewrite Hdb1. split_and!; try done. by split; [apply Hs2| |apply Hs2].
Qed.
End Control.

(** ** Witnesses *)

Lemma demo_at_rest files : at_rest (demo_daemon [] files).
Proof. split; [apply demo_daemon_stable|done|done]. Qed.


Lemma crinitExecRtimCmdRestart_spec_witness :
  wp (crinitExecRtimCmd (command CRINIT_RTIMCMD_C_RESTART ["log"%string]))
    (λ r s', r = success CRINIT_RTIMCMD_R_RESTART) (demo_daemon [] []).
Proof.
  eapply wp_mono; [|apply (crinitExecRtimCmdRestart_spec "log" (demo_daemon [] [])); [apply demo_at_rest|apply demo_daemon_count]].
  intros r s' [_ Hr].
  replace (tasks_of (demo_daemon [] []) !! "log"%string) with (Some demo_end) in Hr by (vm_compute; reflexivity).
  apply Hr.
Defined.

Lemma crinitExecRtimCmdKill_spec_witness :
  wp (crinitExecRtimCmd (command CRINIT_RTIMCMD_C_KILL ["fs"%string]))
    (λ r s', r = success CRINIT_RTIMCMD_R_KILL ∧ did (demo_daemon [] []) s' [SysKill 42 SIGKILL]) (demo_daemon [] []).
Proof.
  eapply wp_mono; [|apply (crinitExecRtimCmdKill_spec "fs" (demo_daemon [] [])), demo_at_rest].
  intros r s' (_ & _ & Hr).
  replace (tasks_of (demo_daemon [] []) !! "fs"%string) with (Some demo_run) in Hr by (vm_compute; reflexivity).
  apply Hr.
Defined.

Lemma failed_kill_inhibits_reaping_witness :
  wp (crinitExecRtimCmd (command CRINIT_RTIMCMD_C_KILL ["net"%string]))
    (λ r s', (∃ text, r = failure CRINIT_RTIMCMD_R_KILL text) ∧ crinitBlockOnWaitInhibit s' = Block) (demo_daemon [] []).
Proof.
  apply (failed_kill_inhibits_reaping "net" (demo_daemon [] [])); [apply demo_at_rest|].
  intros t Ht. vm_compute in Ht. injection Ht as <-. vm_compute. discriminate.
Defined.

Lemma crinitExecRtimCmdStop_spec_witness :
  wp (crinitExecRtimCmd (command CRINIT_RTIMCMD_C_STOP ["net"%string]))
    (λ r s', r = success CRINIT_RTIMCMD_R_STOP ∧
       did (demo_daemon [] []) s' [SysStopThread (inhibited demo_stop)]) (demo_daemon [] []).
Proof.
  eapply wp_mono; [|apply (crinitExecRtimCmdStop_spec "net" demo_stop (demo_daemon [] []));
    [apply demo_at_rest|reflexivity|vm_compute; reflexivity]].
  intros r s' (_ & _ & Hr). exact Hr.
Defined.
