(* ===== verification/RtimAdd.v ===== *)
(** * ADDTASK: from a file to the task database *)

From Stdlib Require Import ZArith Lia Bool List String Ascii.
From stdpp Require Import base list strings gmap.
From S2P Require Import Prelude CString EnvSet Timer Task TaskDB TaskDBSpec TaskDBProps TimerDB Lexers ConfConv Ini.
From S2P Require Import GlobOpt Cgroup GlobOptProps ConfParse ConfTask ConfTaskProps ConfGlob ConfGlobProps FSeries.
From S2P Require Import RtimMsg RtimExec RtimProps RtimCtl.

Open Scope Z_scope.
Open Scope crinit_scope.

#[local] Arguments String.append : simpl nomatch.

(** ** The third argument *)

(** The settings with the first DEPENDS set to the argument and the others
    emptied; without any, one is added at the end. *)
Fixpoint put_depends (arg : string) (first : bool) (l : list (string * string)) : list (string * string) :=
  match l with
  | [] => if first then [("DEPENDS"%string, arg)] else []
  | (k, v) :: l =>
      if str_eqb k "DEPENDS" then (k, if first then arg else EmptyString) :: put_depends arg false l
      else (k, v) :: put_depends arg first l
  end.

(** What the settings are after ADDTASK has looked at its third argument. *)
Definition with_depends (arg : string) (l : list (string * string)) : list (string * string) :=
  if str_eqb arg "@unchanged" then l
  else if str_eqb arg "@empty" then empty_depends l
  else put_depends arg true l.

Section Depends.
Context {B C : Type} `{TaskDBServices B} `{!Faulty C, !OptState C, !ConfFiles C, !TimerState C, !ConfEnv C, !SeriesEnv C}.
Context `{!DirEnv C, !RtimEnv C}.
Notation D := (daemon B C).
Implicit Types s : D.

Lemma run_db_fallible s : quiet (dm_db s) → on_db fallible s = Ret false s.
Proof. intros Hq. unfold on_db. rewrite fallible_quiet by done. by destruct s. Qed.

Lemma run_replace arg first l s :
  quiet (dm_db s) →
  ∃ first' l', replace_depends arg first l s = Ret (Some (first', l')) s ∧
    put_depends arg first l = l' ++ (if first' then [("DEPENDS"%string, arg)] else []).
Proof.
  intros Hq. revert first. induction l as [|[k v] l IH]; intros first; simpl.
  { exists first, []. by destruct first. }
  destruct (str_eqb k "DEPENDS").
  - destruct (IH false) as (f & l' & E & Hp). exists f, ((k, if first then arg else EmptyString) :: l').
    rewrite (bind_run _ _ s false s) by (destruct first; [by apply run_db_fallible|done]).
    rewrite (bind_run _ _ _ _ _ E). by rewrite Hp.
  - destruct (IH first) as (f & l' & E & Hp). exists f, ((k, v) :: l').
    rewrite (bind_run _ _ _ _ _ E). by rewrite Hp.
Qed.

Lemma run_apply_depends arg l s : quiet (dm_db s) → apply_depends arg l s = Ret (Some (with_depends arg l)) s.
Proof.
  intros Hq. unfold apply_depends, with_depends. do 2 (case_if; [done|]).
  destruct (run_replace arg true l s Hq) as (f & l' & E & ->). rewrite (bind_run _ _ _ _ _ E). destruct f.
  - do 3 (rewrite (bind_run _ _ _ _ _ (run_db_fallible s Hq))). done.
  - by rewrite app_nil_r.
Qed.
End Depends.

(** The dependencies change and nothing else does. *)
Definition not_depends (kv : string * string) : bool := negb (str_eqb kv.1 "DEPENDS").

Lemma filter_depends (k v v' : string) (l l' : list (string * string)) :
  filter (λ kv, not_depends kv) l = filter (λ kv, not_depends kv) l' → (str_eqb k "DEPENDS" = false → v = v') →
  filter (λ kv, not_depends kv) ((k, v) :: l) = filter (λ kv, not_depends kv) ((k, v') :: l').
Proof.
  intros IH Hv. destruct (str_eqb k "DEPENDS") eqn:E.
  - rewrite !filter_cons_False; [done|unfold not_depends; simpl; rewrite E; by intros []..].
  - rewrite !filter_cons_True; [by rewrite IH, Hv|unfold not_depends; simpl; by rewrite E..].
Qed.

Lemma with_depends_others arg l : filter (λ kv, not_depends kv) (with_depends arg l) = filter (λ kv, not_depends kv) l.
Proof.
  unfold with_depends. case_if; [done|]. case_if.
  - induction l as [|[k v] l IH]; [done|]. unfold empty_depends in *. cbn [fmap list_fmap fst snd].
    destruct (str_eqb k "DEPENDS") eqn:E; by apply filter_depends; [|congruence].
  - generalize true. induction l as [|[k v] l IH]; intros first; simpl; [by destruct first|].
    destruct (str_eqb k "DEPENDS") eqn:E; apply filter_depends; [done|congruence|done|done].
Qed.

Lemma put_depends_task arg name cmds deps :
  put_depends arg true (task_conf name cmds deps) =
  ("NAME"%string, name) :: ((λ a, ("COMMAND"%string, write_args a)) <$> cmds) ++ [("DEPENDS"%string, arg)].
Proof.
  unfold task_conf. cbn [put_depends]. replace (str_eqb "NAME" "DEPENDS") with false by done. f_equal.
  induction cmds as [|c cmds IH]; [done|]. cbn [fmap list_fmap app put_depends].
  replace (str_eqb "COMMAND" "DEPENDS") with false by done. f_equal. exact IH.
Qed.

(** The dependencies a task gets: those of the file, none, or the given ones. *)
Inductive depends_arg (deps : list crinitTaskDep) : string → list crinitTaskDep → Prop :=
| dep_unchanged : depends_arg deps "@unchanged" deps
| dep_empty : depends_arg deps "@empty" []
| dep_given deps' : Forall dep_plain deps' → depends_arg deps (write_words (dep_word <$> deps')) deps'.

Lemma with_depends_task arg name cmds deps deps' :
  depends_arg deps arg deps' → with_depends arg (task_conf name cmds deps) = task_conf name cmds deps'.
Proof.
  unfold with_depends. intros [| |given _].
  - done.
  - simpl. unfold empty_depends, task_conf. cbn [fmap list_fmap fst]. replace (str_eqb "NAME" "DEPENDS") with false by done. f_equal.
    induction cmds as [|c cmds IH]; [done|]. cbn [fmap list_fmap app fst].
    replace (str_eqb "COMMAND" "DEPENDS") with false by done. f_equal. exact IH.
  - replace (str_eqb (write_words (dep_word <$> given)) "@unchanged") with false by (by destruct given).
    replace (str_eqb (write_words (dep_word <$> given)) "@empty") with false by (by destruct given).
    by rewrite put_depends_task.
Qed.

Section AddTask.
Context {B C : Type} `{TaskDBServices B} `{!Faulty C, !OptState C, !ConfFiles C, !TimerState C, !ConfEnv C, !SeriesEnv C}.
Context `{!DirEnv C, !RtimEnv C}.
Notation D := (daemon B C).
Implicit Types s : D.

(** What ADDTASK answers and leaves in the database. *)
Definition added (name : string) (t : crinitTask) (overwrite : string) s (r : option crinitRtimCmd) s' : Prop :=
  quiet (dm_db s') ∧
  (r = success CRINIT_RTIMCMD_R_ADDTASK ∧ stable (dm_db s') ∧ tasks_of s' = <[name := t]> (tasks_of s) ∧
     (overwrite = "true"%string ∨ tasks_of s !! name = None) ∨
   r = failure CRINIT_RTIMCMD_R_ADDTASK "Could not insert new task into TaskDB." ∧
     (tasks_of s' = tasks_of s ∧ overwrite ≠ "true"%string ∧ is_Some (tasks_of s !! name) ∨
      tasks_of s' = <[name := t]> (tasks_of s) ∧ (overwrite = "true"%string ∨ tasks_of s !! name = None))).

Lemma addtask_spec file overwrite arg c c1 c2 t s :
  at_rest s → crinitParseConf file (dm_conf s) = Ret (Some c) c1 →
  crinitTaskCreateFromConfKvList 1 (with_depends arg c) c1 = Ret (Some t) c2 →
  task_ok t → t_cgroup t = None →
  wp (crinitExecRtimCmd (command CRINIT_RTIMCMD_C_ADDTASK [file; overwrite; arg]))
    (λ r s', added (t_name t) t overwrite s r s' ∧ dm_conf s' = c2 ∧ dm_trace s' = dm_trace s ∧ dm_wait s' = dm_wait s) s.
Proof.
  intros Hs Hparse Hcreate Hok Hcg. unfold crinitExecRtimCmd, crinitExecRtimCmdAddTask. cbn [op args command].
  apply wp_bind. apply (wp_intro _ _ _ (Some c) (set_dm_conf c1 s)); [unfold on_conf; by rewrite Hparse|].
  apply wp_bind. eapply wp_intro; [by apply run_apply_depends; apply Hs|].
  apply wp_bind. apply (wp_intro _ _ _ (Some t) (set_dm_conf c2 s)); [unfold on_conf; simpl; by rewrite Hcreate|].
  apply wp_bind, wp_on_db. eapply wp_mono; [|apply wp_insert; [apply Hs|done]].
  intros [r freed] b [Hins Hq]. simpl in Hins, Hq. destruct (Hq (rest_quiet _ Hs)) as [-> Hqb].
  apply wp_bind. unfold free_task, crinitDestroyTask. rewrite Hcg. apply wp_on_db, wp_ret. unfold added, tasks_of.
  assert (str_eqb overwrite "true" = true → overwrite = "true"%string) as Ho by apply str_eqb_true.
  destruct Hins as [-> Hst [_ Hm] Hfree _| -> Hst Hdb Hwhy| -> [_ Hm] Hfree _|i sl _ Hnq _ _ _ _].
  - apply wp_rest_respond; [done|]. simpl. rewrite Hm. split_and!; [done|left|done..]. split_and!; [done..|]. naive_solver.
  - apply wp_rest_respond; [done|]. simpl. rewrite Hdb. split_and!; [done|right|done..]. split; [done|left].
    destruct (Hwhy (rest_quiet _ Hs)) as [Hf Hsome]. split_and!; [done| |done]. intros ->. done.
  - apply wp_rest_respond; [done|]. simpl. rewrite Hm. split_and!; [done|right|done..]. split; [done|right]. naive_solver.
  - by destruct Hnq; apply Hs.
Qed.

(** C29: ADDTASK with a file in which the name, the commands and the dependencies
    of a task are written out stores exactly this task, with the dependencies of
    the file, none, or those given in the command, as its third argument says.
    A task of that name is only replaced if the second argument asks for that;
    otherwise the command is refused and nothing changes.  When a feature hook
    refuses the task, the error is reported with the task in the database. *)
Theorem crinitExecRtimCmdAddTask_stores file overwrite arg name cmds deps deps' s :
  at_rest s → settled (dm_conf s) → bools (get_opts (dm_conf s)) SIGNATURES = false →
  Forall (Forall (λ a, no_nul a = true)) cmds → Forall (λ a, a ≠ []) cmds → Forall dep_plain deps' →
  cmds ≠ [] ∨ deps' ≠ [] → Forall setting_ok (task_conf name cmds deps) →
  read_file file (dm_conf s) = Ret (Some (conf_text (task_conf name cmds deps))) (dm_conf s) →
  depends_arg deps arg deps' →
  ∃ created,
    wp (crinitExecRtimCmd (command CRINIT_RTIMCMD_C_ADDTASK [file; overwrite; arg]))
      (λ r s', added name (plain_task name cmds deps' (envs (get_opts (dm_conf s)) ENV)
                 (envs (get_opts (dm_conf s)) FILTERS) created) overwrite s r s' ∧
         dm_conf s' = dm_conf s ∧ dm_trace s' = dm_trace s ∧ dm_wait s' = dm_wait s) s.
Proof.
  intros Hs Hc Hsig Hnul Hargs Hd Hne Hok Hfile Harg.
  destruct (run_create name cmds deps' (dm_conf s) Hc Hnul Hd Hne) as [created E]. exists created.
  change name with (t_name (plain_task name cmds deps' (envs (get_opts (dm_conf s)) ENV)
    (envs (get_opts (dm_conf s)) FILTERS) created)) at 1.
  eapply (addtask_spec file overwrite arg (task_conf name cmds deps)); [done|by apply run_parse_conf| | |done].
  - rewrite (with_depends_task arg name cmds deps deps') by done. exact E.
  - split; simpl; [by apply Forall_fmap|constructor|apply Hc|apply Hc|done].
Qed.

(** *** ADDSERIES *)

(** A series file that cannot be loaded leaves the spawning of tasks inhibited:
    the command reports the error, and no task is started until another series
    has been loaded. *)
Theorem failed_series_inhibits_spawning file overwrite c' s :
  at_rest s → quiet (dm_conf s) → opt_locked (get_opts (dm_conf s)) = false → crinitIsAbsPath file = true →
  crinitLoadSeriesConf file (set_opts (set_tasks None (get_opts (dm_conf s))) (dm_conf s)) = Ret (-1) c' →
  wp (crinitExecRtimCmd (command CRINIT_RTIMCMD_C_ADDSERIES [file; overwrite]))
    (λ r s', r = failure CRINIT_RTIMCMD_R_ADDSERIES "Could not load series file." ∧ tasks_of s' = tasks_of s ∧
       wp (crinitTaskDBSpawnReady CRINIT_DISPATCH_THREAD_MODE_START)
         (λ rc b, threads b = threads (dm_db s')) (dm_db s')) s.
Proof.
  intros Hs Hq Hu Habs Hload. unfold crinitExecRtimCmd, crinitExecRtimCmdAddSeries. cbn [op args command].
  rewrite Habs. cbn [negb]. apply wp_bind, wp_on_db. eapply wp_mono; [|apply setspawninhibit_spec, Hs].
  intros r b (Hst & Hf & _ & Hts & Hinh & Hr). rewrite Hr by apply Hs. cbn [Z.eqb].
  set (o := get_opts (dm_conf s)) in *. set (c1 := set_opts (set_opt_locked true o) (dm_conf s)).
  apply wp_bind. eapply wp_intro; [unfold on_conf; simpl; by rewrite run_borrow|]. fold o. fold c1.
  set (c2 := set_opts (set_tasks None (get_opts c1)) c1). apply wp_bind. apply (wp_intro _ _ _ tt (set_dm_conf c2 (set_dm_db b s))).
  { done. }
  assert (get_opts c2 = set_tasks None (set_opt_locked true o)) as E2 by (unfold c2, c1; by rewrite !get_set_opts).
  apply wp_bind. eapply wp_intro; [unfold on_conf; simpl; by rewrite run_remit by (by rewrite E2)|]. cbn [Z.eqb].
  replace (set_opts (set_opt_locked false (get_opts c2)) c2) with (set_opts (set_tasks None o) (dm_conf s)).
  2:{ rewrite E2. unfold c2, c1. rewrite !set_set_opts. f_equal. by destruct o; simpl in *; subst. }
  apply wp_bind. eapply wp_intro; [unfold on_conf; simpl; by rewrite Hload|]. cbn [Z.eqb].
  apply wp_rest_respond; [simpl; by apply Hf, Hs|]. split_and!; [done| |].
  - unfold tasks_of, db_map. simpl. by rewrite Hts.
  - simpl. eapply wp_mono; [|by apply wp_spawnready]. intros rc b2 Hsp.
    apply (sp_none _ _ _ _ Hsp). left. apply Hinh. by apply Hr, Hs.
Qed.
End AddTask.

(** ** Witnesses *)

Definition demo_files : list (string * string) := [("/etc/crinit/net.crinit", conf_text demo_conf)]%string.

(** "net" is replaced by the task of the file, with no dependency. *)
Lemma crinitExecRtimCmdAddTask_stores_witness :
  ∃ created,
    wp (crinitExecRtimCmd (command CRINIT_RTIMCMD_C_ADDTASK ["/etc/crinit/net.crinit"; "true"; "@empty"]%string))
      (λ r s', added "net" (plain_task "net" [["/sbin/ip"; "link set up"]]%string [] demo_no_env demo_no_env created) "true"
                 (demo_daemon [] demo_files) r s') (demo_daemon [] demo_files).
Proof.
  destruct (crinitExecRtimCmdAddTask_stores "/etc/crinit/net.crinit" "true" "@empty" "net"
    [["/sbin/ip"; "link set up"]]%string [mkDep "fs" "wait"] [] (demo_daemon [] demo_files)) as [created E].
  - apply demo_at_rest.
  - apply demo_confd_settled.
  - reflexivity.
  - repeat constructor.
  - repeat constructor. discriminate.
  - constructor.
  - left. discriminate.
  - exact demo_conf_ok.
  - reflexivity.
  - constructor.
  - exists created. eapply wp_mono; [|exact E]. intros r s' [Hr _]. exact Hr.
Defined.

Lemma failed_series_inhibits_spawning_witness :
  wp (crinitExecRtimCmd (command CRINIT_RTIMCMD_C_ADDSERIES ["/none.series"; "false"]%string))
    (λ r s', r = failure CRINIT_RTIMCMD_R_ADDSERIES "Could not load series file." ∧ tasks_of s' = tasks_of (demo_daemon [] []) ∧
       wp (crinitTaskDBSpawnReady CRINIT_DISPATCH_THREAD_MODE_START)
         (λ rc b, threads b = threads (dm_db s')) (dm_db s')) (demo_daemon [] []).
Proof.
  eapply (failed_series_inhibits_spawning "/none.series" "false" _ (demo_daemon [] []));
    [apply demo_at_rest|reflexivity|reflexivity|reflexivity|vm_compute; reflexivity].
Defined.
