(* ===== verification/RtimShdn.v ===== *)
(** * Shutting the system down: the thread that SHUTDOWN starts *)

From Stdlib Require Import ZArith Lia Bool List String Ascii.
From stdpp Require Import base list strings gmap.
From S2P Require Import Prelude CString EnvSet Timer Task TaskDB TaskDBSpec TaskDBProps TimerDB Lexers ConfConv Ini.
From S2P Require Import GlobOpt Cgroup GlobOptProps ConfParse ConfTask ConfTaskProps ConfGlob ConfGlobProps FSeries.
From S2P Require Import RtimMsg RtimExec RtimProps RtimCtl.

Open Scope Z_scope.
Open Scope crinit_scope.

#[local] Arguments String.append : simpl nomatch.

(** ** The grace period *)

Definition nanoseconds (t : timespec) : Z := tv_sec t * 1000000000 + tv_nsec t.

(** The sleep of the grace period ends at a valid time, exactly the
    configured number of microseconds after it began, for every period an
    unsigned long long can hold. *)
Theorem grace_end_exact micros t :
  0 ≤ micros ≤ ULONG_MAX → 0 ≤ tv_nsec t < 1000000000 →
  nanoseconds (grace_end micros t) = nanoseconds t + micros * 1000 ∧
  0 ≤ tv_nsec (grace_end micros t) < 1000000000.
Proof.
  intros Hm Ht. unfold grace_end, nanoseconds, uint64, ULONG_MAX in *. cbn [tv_sec tv_nsec].
  pose proof (Z.mod_pos_bound micros 1000000 ltac:(lia)) as Hb.
  rewrite (Z.mod_small (_ * 1000 + _)) by lia. set (n := micros mod 1000000 * 1000 + tv_nsec t).
  pose proof (Z.div_mod n 1000000000 ltac:(lia)). pose proof (Z.div_mod micros 1000000 ltac:(lia)).
  pose proof (Z.mod_pos_bound n 1000000000 ltac:(lia)). split; [|done]. unfold n in *. lia.
Qed.

(** ** Mounts *)

(** A line of the file as fgets() reads it, and the file. *)
Definition mount_line_ok (l : string) : Prop :=
  str_none (λ c, is_char c c_newline) l ∧ (String.length l < PATH_MAX - 1)%nat.
Definition with_newline (l : string) : string := (l +:+ str1 c_newline)%string.
Fixpoint mounts_text (lines : list string) : string :=
  match lines with [] => EmptyString | l :: lines => (l +:+ String c_newline (mounts_text lines))%string end.

Lemma mount_line_intro l :
  str_has c_newline l = false → (String.length l <? PATH_MAX - 1)%nat = true → mount_line_ok l.
Proof.
  intros Hn Hl%Nat.ltb_lt. split; [|done]. intros c Hc. apply bool_decide_eq_false. intros ->.
  congruence.
Qed.

(** What a line asks for. *)
Definition mount_of (l : string) : mount_line := parse_mount (with_newline l).
Definition mount_target (m : mount_line) : option string := match m with MountTarget t => Some t | _ => None end.
Definition mount_rest (m : mount_line) : string := match m with MountRootRo e => e | _ => EmptyString end.
Definition is_root_ro (m : mount_line) : bool := match m with MountRootRo _ => true | _ => false end.

(** What is left in the element that was being filled when the file ended. *)
Definition last_elem (cur : string) (lines : list string) : string :=
  match last lines with Some l => mount_rest (mount_of l) | None => cur end.

(** What is unmounted for these lines of /proc/mounts: the targets of the mounts
    with a source, but not the root, the newest first.  If the last line is the
    root mounted read-only, the start of that line is taken for a target. *)
Definition unmount_order (lines : list string) : list string :=
  filter (λ t, t ≠ EmptyString) (last_elem EmptyString lines :: reverse (omap (mount_target ∘ mount_of) lines)).
Definition root_is_ro (lines : list string) : bool := existsb (is_root_ro ∘ mount_of) lines.

Lemma last_elem_cons cur l lines :
  last_elem cur (l :: lines) = last_elem (mount_rest (mount_of l)) lines.
Proof. unfold last_elem. rewrite last_cons. by destruct (last lines). Qed.

Lemma mounts_text_not_empty l lines : ∃ c r, mounts_text (l :: lines) = String c r.
Proof. destruct l; simpl; eauto. Qed.

Section Shutdown.
Context {B C : Type} `{TaskDBServices B} `{!Faulty C, !OptState C, !ConfFiles C, !TimerState C, !ConfEnv C, !SeriesEnv C}.
Context `{!DirEnv C, !RtimEnv C}.
Notation D := (daemon B C).
Implicit Types s : D.

(** The kernel was asked for these things, whatever it answered; the tasks and
    the configuration are as before. *)
Record asked (l : list sys_event) s s' : Prop := {
  as_trace : (dm_trace s').*1 = (dm_trace s).*1 ++ l;
  as_db : get_db (dm_db s') = get_db (dm_db s);
  as_frame : frame (dm_db s) (dm_db s');
  as_conf : dm_conf s' = dm_conf s;
}.

Lemma asked_trans l1 l2 s1 s2 s3 : asked l1 s1 s2 → asked l2 s2 s3 → asked (l1 ++ l2) s1 s3.
Proof.
  intros [T1 D1 F1 C1] [T2 D2 F2 C2]. split; [by rewrite T2, T1, app_assoc|congruence|by etrans|congruence].
Qed.

Lemma asked_faults s b : only_faults (dm_db s) b → asked [] s (set_dm_db b s).
Proof.
  intros Hf. split; [by rewrite app_nil_r|by apply db_only_faults|by apply frame_faults|done].
Qed.
Lemma asked_nothing s : asked [] s s.
Proof. split; [by rewrite app_nil_r|done|done|done]. Qed.

Lemma asked_quiet l s s' : asked l s s' → quiet (dm_db s) → quiet (dm_db s').
Proof. intros []. by apply as_frame0. Qed.

Lemma wp_asked_fallible (Q : bool → D → Prop) s :
  (∀ r s', asked [] s s' → (quiet (dm_db s) → r = false) → Q r s') → wp (on_db fallible) Q s.
Proof.
  intros HQ. apply wp_on_db, wp_fallible_why. intros r b Hf Hq. apply HQ; [by apply asked_faults|done].
Qed.

Lemma wp_syscall e (Q : bool → D → Prop) s :
  (∀ r s', asked [e] s s' → Q r s') → wp (syscall e) Q s.
Proof.
  intros HQ. unfold syscall. apply wp_bind, wp_asked_fallible. intros r s' [T Hdb Hf Hc] _.
  apply wp_bind. unfold wp at 1, mevent. apply wp_ret, HQ. split; [|done..].
  unfold add_event. simpl. by rewrite fmap_app, T, app_nil_r.
Qed.

(** *** The grace period *)

Definition sleep (micros : Z) (l : list sys_event) : Prop := l = [] ∨ ∃ t, l = [SysSleep (grace_end micros t)].

Lemma wp_grace micros (Q : Z → D → Prop) s :
  (∀ r l s', asked l s s' → sleep micros l → Q r s') → wp (crinitGracePeriod micros) Q s.
Proof.
  intros HQ. unfold crinitGracePeriod. apply wp_bind, wp_on_db. eapply wp_mono; [|apply clock_ok].
  intros [t|] b Hf; [|apply wp_ret; eapply HQ; [by apply asked_faults|by left]].
  apply wp_bind, wp_syscall. intros r s' Ha. apply wp_ret.
  eapply HQ; [eapply asked_trans; [by apply asked_faults|done]|]. right. by exists t.
Qed.

(** *** Unmounting *)

Lemma unmount_lines_spec lines fuel cur below ro (Q : option (list string * bool) → D → Prop) s :
  Forall mount_line_ok lines → (String.length (mounts_text lines) ≤ fuel)%nat →
  (∀ r s', asked [] s s' →
     r = Some (last_elem cur lines :: reverse (omap (mount_target ∘ mount_of) lines) ++ below, ro || root_is_ro lines) ∨
     r = None ∧ ¬ quiet (dm_db s) → Q r s') →
  wp (unmount_lines fuel (mounts_text lines) cur below ro) Q s.
Proof.
  revert fuel cur below ro s. induction lines as [|l lines IH]; intros fuel cur below ro s Hok Hfuel HQ.
  { destruct fuel; simpl; apply wp_ret, HQ; [apply asked_nothing| |apply asked_nothing|]; left; by rewrite orb_false_r. }
  apply Forall_cons_1 in Hok as [[Hn Hl] Hok]. destruct (mounts_text_not_empty l lines) as (c & text & E).
  destruct fuel as [|fuel]; [rewrite E in Hfuel; simpl in Hfuel; lia|].
  assert (String.length (mounts_text lines) ≤ fuel)%nat as Hfuel' by (simpl in Hfuel; rewrite string_length_app in Hfuel; simpl in Hfuel; lia).
  cbn [unmount_lines]. rewrite E, <- E. cbn [mounts_text]. rewrite reader_line by done.
  change (l +:+ String c_newline EmptyString)%string with (with_newline l). fold (mount_of l).
  cbn [omap list_omap root_is_ro existsb] in HQ. unfold compose at 1 3 in HQ. fold (root_is_ro lines) in HQ.
  destruct (mount_of l) as [|e|t] eqn:El; simpl in HQ.
  - apply IH; [done|done|]. rewrite last_elem_cons, El in HQ. done.
  - apply IH; [done|done|]. rewrite last_elem_cons, El, orb_true_r in HQ. done.
  - apply wp_bind, wp_asked_fallible. intros [] s' Ha Hq.
    { apply wp_ret, HQ; [done|right]. split; [done|]. intros Hs. by specialize (Hq Hs). }
    apply IH; [done|done|]. intros r s2 Ha2 Hr. apply HQ; [by eapply (asked_trans [] [])|].
    rewrite last_elem_cons, El. destruct Hr as [->|[-> Hnq]]; [left|right].
    + by rewrite reverse_cons, <- app_assoc.
    + split; [done|]. intros Hs. by apply Hnq, (asked_quiet _ _ _ Ha).
Qed.
Lemma unmount_list_spec lines (Q : option (list string * bool) → D → Prop) s :
  Forall mount_line_ok lines → proc_mounts (dm_conf s) = Some (mounts_text lines) →
  (∀ r s', asked [] s s' →
     r = Some (last_elem EmptyString lines :: reverse (omap (mount_target ∘ mount_of) lines), root_is_ro lines) ∨
     r = None ∧ ¬ quiet (dm_db s) → Q r s') →
  wp crinitGenUnMountList Q s.
Proof.
  intros Hok Hm HQ. unfold crinitGenUnMountList. apply wp_bind, wp_on_conf. unfold wp at 1. rewrite Hm.
  apply wp_bind, wp_asked_fallible. replace (set_dm_conf (dm_conf s) s) with s by (by destruct s).
  intros [] s1 Ha1 Hq1.
  { apply wp_ret, HQ; [done|right]. split; [done|]. intros Hs. by specialize (Hq1 Hs). }
  apply unmount_lines_spec; [done|done|]. intros r s2 Ha2 Hr. apply HQ; [by eapply (asked_trans [] [])|].
  rewrite app_nil_r in Hr. destruct Hr as [->|[-> Hnq]]; [by left|right].
  split; [done|]. intros Hs. by apply Hnq, (asked_quiet _ _ _ Ha1).
Qed.

Lemma unmount_all_spec l out (Q : Z → D → Prop) s :
  (∀ r s', asked (SysUmount <$> filter (λ t, t ≠ EmptyString) l) s s' → Q r s') → wp (unmount_all l out) Q s.
Proof.
  revert out s. induction l as [|t l IH]; intros out s HQ; cbn [unmount_all].
  { apply wp_ret, HQ, asked_nothing. }
  rewrite filter_cons in HQ. destruct (str_eqb t EmptyString) eqn:Ht; [apply str_eqb_true in Ht as ->|apply str_eqb_false in Ht].
  { apply IH. by rewrite decide_False in HQ by naive_solver. }
  rewrite decide_True in HQ by done. apply wp_bind, wp_syscall. intros r s1 Ha1. apply IH. intros r2 s2 Ha2. apply HQ.
  by apply (asked_trans [_] _ _ _ _ Ha1 Ha2).
Qed.

(** Unmounting, and the remount of a root that is not known to be read-only. *)
Definition unmounts (lines : list string) (all : bool) : list sys_event :=
  if all then (SysUmount <$> unmount_order lines) ++ (if root_is_ro lines then [] else [SysRemountRo])
  else [SysRemountRo].

Lemma fs_prepare_spec lines (Q : Z → D → Prop) s :
  Forall mount_line_ok lines → proc_mounts (dm_conf s) = Some (mounts_text lines) →
  (∀ r all s', asked (unmounts lines all ++ [SysSync]) s s' → (quiet (dm_db s) → all = true) → Q r s') →
  wp crinitFsPrepareShutdown Q s.
Proof.
  intros Hok Hm HQ. unfold crinitFsPrepareShutdown.
  assert (∀ all s1 out, asked (unmounts lines all) s s1 → (quiet (dm_db s) → all = true) →
            wp (mevent SysSync true ;; mret out) Q s1) as Hsync.
  { intros all s1 out [T Hdb Hf Hc] Hq. apply wp_bind. unfold wp at 1, mevent. apply wp_ret, (HQ _ all); [|done].
    split; [|done..]. unfold add_event. simpl. by rewrite fmap_app, T, app_assoc. }
  apply wp_bind, (unmount_list_spec lines); [done|done|]. intros r s1 Ha1 [->|[-> Hnq]].
  - apply wp_bind, wp_bind, unmount_all_spec. intros out s2 Ha2. apply wp_ret. cbn beta iota.
    pose proof (asked_trans [] _ _ _ _ Ha1 Ha2) as Ha. unfold unmounts, unmount_order in Hsync.
    apply wp_bind. destruct (root_is_ro lines).
    + apply wp_ret, (Hsync true); [|done]. by rewrite app_nil_r.
    + apply wp_bind, wp_syscall. intros r s3 Ha3. apply wp_ret, (Hsync true); [|done]. by eapply (asked_trans _ [_]).
  - apply wp_bind, wp_ret. cbn beta iota. apply wp_bind, wp_bind, wp_syscall. intros r s2 Ha2.
    apply wp_ret, (Hsync false); [|done]. by apply (asked_trans [] _ _ _ _ Ha1 Ha2).
Qed.

(** *** The thread *)

(** The tasks with stop commands, in the order of the database. *)
Definition has_stop (d : crinitTaskDB) (i : nat) : bool :=
  match taskSet d !! i with Some sl => (0 <? length (t_stopCmds (sl_task sl)))%nat | None => false end.
Definition stop_from (d : crinitTaskDB) (i n : nat) : list (task_ptr * crinitDispatchThreadMode) :=
  (λ j, ((gen d, j), CRINIT_DISPATCH_THREAD_MODE_STOP)) <$> filter (λ j, Is_true (has_stop d j)) (seq i n).
Definition stoppers (d : crinitTaskDB) : list (task_ptr * crinitDispatchThreadMode) := stop_from d 0 (length (taskSet d)).

Lemma stop_from_cons d i n :
  stop_from d i (Datatypes.S n) =
  (if has_stop d i then [((gen d, i), CRINIT_DISPATCH_THREAD_MODE_STOP)] else []) ++ stop_from d (Datatypes.S i) n.
Proof. unfold stop_from. cbn [seq]. rewrite filter_cons. by destruct (has_stop d i). Qed.

Lemma stop_threads_spec n i have (Q : bool → B → Prop) b :
  idle b → (i + n = length (taskSet (get_db b)))%nat → spawnFunc (get_db b) = true →
  (∀ b', get_db b' = get_db b → idle b' →
     (quiet b → quiet b' ∧ threads b' = threads b ++ stop_from (get_db b) i n) →
     Q (have || bool_decide (stop_from (get_db b) i n ≠ [])) b') →
  wp (stop_threads n i have) Q b.
Proof.
  revert i have b. induction n as [|n IH]; intros i have b Hi Hn Hfn HQ; cbn [stop_threads].
  { apply wp_ret. rewrite <- (orb_false_r have). apply HQ; [done|done|]. intros Hq. by rewrite app_nil_r. }
  apply wp_bind, wp_mdb. destruct (lookup_lt_is_Some_2 (taskSet (get_db b)) i ltac:(lia)) as [sl Hsl]. rewrite Hsl.
  rewrite stop_from_cons in HQ. unfold has_stop in HQ. rewrite Hsl in HQ.
  destruct (0 <? length (t_stopCmds (sl_task sl)))%nat.
  - rewrite Hfn. simpl. apply wp_bind. eapply wp_mono; [|by apply spawn_ok].
    intros r b1 (Hdb1 & Hi1 & Hq1 & Hth1). apply IH; [done|rewrite Hdb1; lia|congruence|]. rewrite Hdb1.
    intros b2 Hdb2 Hi2 Hq2. simpl. specialize (HQ b2). rewrite bool_decide_true, orb_true_r in HQ by done.
    apply HQ; [congruence|done|]. intros Hq. destruct (Hq1 Hq) as [Hqb1 ->]. destruct (Hq2 Hqb1) as [? ->]. split; [done|].
    destruct Hth1 as [[_ ->]|[[=] _]]. by rewrite <- app_assoc.
  - by apply IH; [|lia|..].
Qed.

(** The database after the stop commands were started. *)
Lemma start_stop_spec (Q : bool → B → Prop) b :
  stable b → spawnFunc (get_db b) = true →
  (∀ have b', stable b' → get_db b' = get_db b →
     (quiet b → have = bool_decide (stoppers (get_db b) ≠ []) ∧ quiet b' ∧ threads b' = threads b ++ stoppers (get_db b)) →
     Q have b') →
  wp start_stop_commands Q b.
Proof.
  intros Hst Hfn HQ. pose proof Hst as [Hok Hu Hi]. unfold start_stop_commands. apply wp_bind, wp_lock; [apply Hok|done| |].
  { intros b1 Hf1 Hdb1 Hnq. simpl. apply wp_ret, HQ; [by eapply stable_same|done|done]. }
  intros b1 Hf1 Hdb1. simpl. apply wp_bind, wp_mdb, wp_bind.
  apply stop_threads_spec; [by apply Hf1|done|by rewrite Hdb1|]. intros b2 Hdb2 Hi2 Hq2.
  apply wp_bind, wp_unlock; [by rewrite Hdb2, Hdb1|]. intros b3 Hf3 Hdb3. rewrite Hdb2, Hdb1, unlock_lock in Hdb3 by done.
  apply wp_ret, HQ; [|done|].
  { destruct (get_db b3) eqn:E. split; rewrite ?E, ?Hdb3; [done|done|by apply Hf3]. }
  intros Hq. destruct (Hq2 ltac:(by apply Hf1)) as [Hqb2 Hth2]. rewrite Hdb1 in Hth2. split_and!; [by rewrite Hdb1|by apply Hf3|].
  destruct Hf3 as [-> _]. destruct Hf1 as [Hth1 _]. by rewrite Hth2, Hth1.
Qed.

(** SetSpawnInhibit asks the kernel for nothing. *)
Lemma inhibit_spec (Q : Z → D → Prop) s :
  stable (dm_db s) →
  (∀ r s', stable (dm_db s') → frame (dm_db s) (dm_db s') → dm_trace s' = dm_trace s → dm_conf s' = dm_conf s →
     taskSet (get_db (dm_db s')) = taskSet (get_db (dm_db s)) →
     (quiet (dm_db s) → spawnInhibit (get_db (dm_db s')) = true) → Q r s') →
  wp (on_db (crinitTaskDBSetSpawnInhibit true)) Q s.
Proof.
  intros Hst HQ. apply wp_on_db. eapply wp_mono; [|by apply setspawninhibit_spec].
  intros r b (Hst' & Hf & _ & Hts & Hr & Hq). apply HQ; auto.
Qed.

(** From the signals on. *)
Lemma terminate_spec lines gp cmd (Q : unit → D → Prop) s :
  Forall mount_line_ok lines → proc_mounts (dm_conf s) = Some (mounts_text lines) →
  (∀ l all s', sleep gp l →
     asked ([SysKill (-1) SIGCONT; SysKill (-1) SIGTERM] ++ l ++ [SysKill (-1) SIGKILL] ++
              unmounts lines all ++ [SysSync; SysReboot cmd]) s s' → (quiet (dm_db s) → all = true) → Q tt s') →
  wp (_ ← syscall (SysKill (-1) SIGCONT); _ ← syscall (SysKill (-1) SIGTERM); _ ← crinitGracePeriod gp;
      _ ← syscall (SysKill (-1) SIGKILL); _ ← crinitFsPrepareShutdown; _ ← syscall (SysReboot cmd); mret tt) Q s.
Proof.
  intros Hok Hm HQ. apply wp_bind, wp_syscall. intros _ s1 Ha1. apply wp_bind, wp_syscall. intros _ s2 Ha2.
  apply wp_bind, wp_grace. intros _ l s3 Ha3 Hl. apply wp_bind, wp_syscall. intros _ s4 Ha4.
  pose proof (asked_trans [_] _ _ _ _ Ha1 (asked_trans [_] _ _ _ _ Ha2 (asked_trans _ _ _ _ _ Ha3 Ha4))) as Hsig.
  apply wp_bind, (fs_prepare_spec lines); [done|by rewrite (as_conf _ _ _ Hsig)|]. intros _ all s5 Ha5 Hall.
  apply wp_bind, wp_syscall. intros _ s6 Ha6. apply wp_ret, (HQ l all); [done| |].
  - pose proof (asked_trans _ _ _ _ _ Hsig (asked_trans _ _ _ _ _ Ha5 Ha6)) as Ha.
    replace (_ ++ _ ++ _ ++ _ ++ _) with (([SysKill (-1) SIGCONT] ++ [SysKill (-1) SIGTERM] ++ l ++ [SysKill (-1) SIGKILL])
      ++ (unmounts lines all ++ [SysSync]) ++ [SysReboot cmd]); [done|]. by rewrite <- !app_assoc.
  - intros Hq. by apply Hall, (asked_quiet _ _ _ Hsig).
Qed.

End Shutdown.

(** ** Examples and witnesses *)

(** With the root mounted read-only on the last line, its source is unmounted. *)
Example root_source_is_unmounted :
  unmount_order ["/dev/sda2 /var ext4 rw 0 0"; "/dev/root / ext4 ro,relatime 0 0"]%string = ["/dev/root"; "/var"]%string.
Proof. reflexivity. Qed.

Lemma grace_end_exact_witness :
  nanoseconds (grace_end 1500000 (mkTimespec 7 600000000)) = nanoseconds (mkTimespec 7 600000000) + 1500000 * 1000 ∧
  0 ≤ tv_nsec (grace_end 1500000 (mkTimespec 7 600000000)) < 1000000000.
Proof. apply (grace_end_exact 1500000 (mkTimespec 7 600000000)); vm_compute; split; discriminate || reflexivity. Defined.

Definition demo_mount_lines : list string :=
  ["/dev/root / ext4 rw,relatime 0 0"; "none /proc proc rw 0 0"; "/dev/sda2 /var ext4 rw 0 0";
   "tmpfs /var/tmp tmpfs rw 0 0"]%string.

