(* ===== verification/ThrPool.v ===== *)
(** * The threads that serve connections: src/thrpool.c

    A pool of worker threads with a count of the available ones, and a watchdog
    that adds threads when the count gets low.  The operations are computations
    on the pool; the watchdog's wait on the condition variable and the life of the
    workers are a transition system whose steps are these operations. *)

From Stdlib Require Import ZArith Lia Bool List.
From stdpp Require Import base list relations.
From S2P Require Import Prelude.

Open Scope Z_scope.
Open Scope crinit_scope.

(** ** State *)

(** [tp_signals] counts pthread_cond_signal(&ctx->threadAvailChanged), and
    [thrArgs] is whether the arguments of the workers are allocated. *)
Record crinitThreadPool := mkThreadPool {
  poolSize : Z;
  poolSizeIncrement : Z;
  threadAvail : Z;
  tp_locked : bool;
  tp_signals : nat;
  thrArgs : bool;
  dryPoolWd : bool;  (* the watchdog was started *)
}.

Definition CRINIT_THREADPOOL_DEFAULT_INITIAL_SIZE : Z := 8.
Definition crinitDryPoolThreshold (poolSize : Z) : Z := poolSize / 10.

Definition set_tp_locked (b : bool) (p : crinitThreadPool) : crinitThreadPool :=
  mkThreadPool (poolSize p) (poolSizeIncrement p) (threadAvail p) b (tp_signals p) (thrArgs p) (dryPoolWd p).
Definition set_avail (n : Z) (p : crinitThreadPool) : crinitThreadPool :=
  mkThreadPool (poolSize p) (poolSizeIncrement p) n (tp_locked p) (tp_signals p) (thrArgs p) (dryPoolWd p).
Definition set_thrArgs (b : bool) (p : crinitThreadPool) : crinitThreadPool :=
  mkThreadPool (poolSize p) (poolSizeIncrement p) (threadAvail p) (tp_locked p) (tp_signals p) b (dryPoolWd p).
Definition add_signal (p : crinitThreadPool) : crinitThreadPool :=
  mkThreadPool (poolSize p) (poolSizeIncrement p) (threadAvail p) (tp_locked p) (Datatypes.S (tp_signals p)) (thrArgs p) (dryPoolWd p).
Definition start_watchdog (p : crinitThreadPool) : crinitThreadPool :=
  mkThreadPool (poolSize p) (poolSizeIncrement p) (threadAvail p) (tp_locked p) (tp_signals p) (thrArgs p) true.
(** A worker more. *)
Definition add_worker (p : crinitThreadPool) : crinitThreadPool :=
  mkThreadPool (uint64 (poolSize p + 1)) (poolSizeIncrement p) (uint64 (threadAvail p + 1)) (tp_locked p) (tp_signals p)
    (thrArgs p) (dryPoolWd p).

Class PoolState (S : Type) `{Faulty S} := {
  get_pool : S → crinitThreadPool;
  set_pool : crinitThreadPool → S → S;
  get_set_pool : ∀ p s, get_pool (set_pool p s) = p;
  set_set_pool : ∀ p q s, set_pool p (set_pool q s) = set_pool p s;
  set_get_pool : ∀ s, set_pool (get_pool s) s = s;
  pool_faults : ∀ l s, get_pool (set_faults l s) = get_pool s;
  faults_pool : ∀ p s, faults (set_pool p s) = faults s;
}.

(** ** Operations *)

Section Operations.
Context {S : Type} `{PoolState S}.

Definition mpool : M S crinitThreadPool := λ s, Ret (get_pool s) s.
Definition mpool_modify (f : crinitThreadPool → crinitThreadPool) : M S unit :=
  λ s, Ret tt (set_pool (f (get_pool s)) s).

(** pthread_mutex_lock(&ctx->lock): [true] on failure. *)
Definition lock_pool : M S bool :=
  err ← fallible;
  if (err : bool) then mret true else
  p ← mpool;
  if tp_locked p then mblock else mpool_modify (set_tp_locked true) ;; mret false.
Definition unlock_pool : M S unit := mpool_modify (set_tp_locked false).

(** The thread attributes: three calls that can fail. *)
Definition thread_attrs : M S bool := fallibleN 3.

Definition crinitThreadPoolThreadBusyCallback : M S Z :=
  err ← lock_pool;
  if (err : bool) then mret (-1) else
  mpool_modify (λ p, set_avail (uint64 (threadAvail p - 1)) p) ;;
  p ← mpool;
  (if threadAvail p <=? crinitDryPoolThreshold (poolSize p) then mpool_modify add_signal else mret tt) ;;
  unlock_pool ;; mret 0.

Definition crinitThreadPoolThreadAvailCallback : M S Z :=
  err ← lock_pool;
  if (err : bool) then mret (-1) else
  mpool_modify (λ p, set_avail (uint64 (threadAvail p + 1)) p) ;;
  unlock_pool ;; mret 0.

(** The loop of pthread_create(); [false] when one failed. *)
Fixpoint create_workers (n : nat) : M S bool :=
  match n with
  | O => mret true
  | Datatypes.S n =>
      err ← fallible;
      if (err : bool) then mret false else mpool_modify add_worker ;; create_workers n
  end.

Definition crinitThreadPoolGrow (newSize : Z) : M S Z :=
  err ← lock_pool;
  if (err : bool) then mret (-1) else
  p ← mpool;
  if newSize <=? poolSize p then unlock_pool ;; mret (-1) else
  err ← thread_attrs;
  if (err : bool) then unlock_pool ;; mret (-1) else
  ok ← create_workers (Z.to_nat (newSize - poolSize p));
  unlock_pool ;; mret (if (ok : bool) then 0 else -1).

Definition crinitThreadPoolInit (initialSize : Z) : M S Z :=
  err ← fallible;  (* pthread_mutex_init *)
  if (err : bool) then mpool_modify (λ p, mkThreadPool 0 (poolSizeIncrement p) 0 false (tp_signals p) false (dryPoolWd p)) ;; mret (-1) else
  let initialSize := if initialSize =? 0 then CRINIT_THREADPOOL_DEFAULT_INITIAL_SIZE else initialSize in
  mpool_modify (λ p, mkThreadPool 0 initialSize 0 false (tp_signals p) false (dryPoolWd p)) ;;
  let fail : M S Z := mpool_modify (set_thrArgs false) ;; mret (-1) in
  oom ← fallible;
  if (oom : bool) then fail else
  mpool_modify (set_thrArgs true) ;;
  err ← lock_pool;
  if (err : bool) then fail else
  err ← thread_attrs;
  if (err : bool) then unlock_pool ;; fail else
  err ← fallible;  (* pthread_create of the watchdog *)
  if (err : bool) then unlock_pool ;; fail else
  mpool_modify start_watchdog ;;
  unlock_pool ;;
  r ← crinitThreadPoolGrow initialSize;
  if r =? -1 then fail else mret 0.

(** What the watchdog does with the mutex when pthread_cond_wait() has returned:
    the size it then asks crinitThreadPoolGrow() for, after it released the
    mutex. *)
Definition watchdog_check : M S (option Z) :=
  p ← mpool;
  (if tp_locked p then mblock else mret tt) ;;
  mret (if threadAvail p <=? crinitDryPoolThreshold (poolSize p)
        then Some (uint64 (poolSize p + poolSizeIncrement p)) else None).
End Operations.

(** ** What the operations do when nothing fails *)

Definition dry (p : crinitThreadPool) : bool := threadAvail p <=? crinitDryPoolThreshold (poolSize p).
Definition busy_pool (p : crinitThreadPool) : crinitThreadPool :=
  let p' := set_avail (uint64 (threadAvail p - 1)) p in if dry p' then add_signal p' else p'.
Definition avail_pool (p : crinitThreadPool) : crinitThreadPool := set_avail (uint64 (threadAvail p + 1)) p.

Lemma add_workers n p :
  Nat.iter n add_worker p =
  match n with
  | O => p
  | _ => mkThreadPool (uint64 (poolSize p + Z.of_nat n)) (poolSizeIncrement p) (uint64 (threadAvail p + Z.of_nat n)) (tp_locked p)
           (tp_signals p) (thrArgs p) (dryPoolWd p)
  end.
Proof.
  induction n as [|n IH]; [done|]. rewrite Nat.iter_succ, IH. destruct n as [|n]; [done|].
  unfold add_worker. cbn [poolSize threadAvail poolSizeIncrement tp_locked tp_signals thrArgs dryPoolWd]. unfold uint64.
  rewrite !Zplus_mod_idemp_l. by rewrite <- !Z.add_assoc, Z.add_1_r, <- Nat2Z.inj_succ.
Qed.

Section Runs.
Context {S : Type} `{PoolState S}.
Implicit Types s : S.

Lemma quiet_pool p s : quiet (set_pool p s) ↔ quiet s.
Proof. unfold quiet. by rewrite faults_pool. Qed.

Lemma run_lock_pool s :
  quiet s → tp_locked (get_pool s) = false → lock_pool s = Ret false (set_pool (set_tp_locked true (get_pool s)) s).
Proof.
  intros Hq Hl. unfold lock_pool. rewrite bind_fallible by done.
  rewrite (bind_run mpool _ s (get_pool s) s) by done. by rewrite Hl.
Qed.

Lemma run_modify f s : mpool_modify f s = Ret tt (set_pool (f (get_pool s)) s).
Proof. done. Qed.

Lemma relocked p : tp_locked p = false → set_tp_locked false (set_tp_locked true p) = p.
Proof. by destruct p; simpl; intros ->. Qed.

Lemma run_busy s :
  quiet s → tp_locked (get_pool s) = false →
  crinitThreadPoolThreadBusyCallback s = Ret 0 (set_pool (busy_pool (get_pool s)) s).
Proof.
  intros Hq Hl. unfold crinitThreadPoolThreadBusyCallback. rewrite (bind_run _ _ _ _ _ (run_lock_pool s Hq Hl)).
  rewrite (bind_run _ _ _ _ _ (run_modify _ _)), get_set_pool, set_set_pool.
  erewrite bind_run by done. rewrite get_set_pool. unfold unlock_pool.
  unfold busy_pool, dry. cbn [poolSize threadAvail set_avail set_tp_locked].
  destruct (get_pool s) as [size inc avail l sig a w]. simpl in Hl |- *. subst l.
  destruct (uint64 (avail - 1) <=? crinitDryPoolThreshold size); simpl.
  - do 2 (erewrite bind_run by (by rewrite run_modify, get_set_pool, set_set_pool)). done.
  - erewrite bind_run by done. erewrite bind_run by (by rewrite run_modify, get_set_pool, set_set_pool). done.
Qed.

Lemma run_avail s :
  quiet s → tp_locked (get_pool s) = false →
  crinitThreadPoolThreadAvailCallback s = Ret 0 (set_pool (avail_pool (get_pool s)) s).
Proof.
  intros Hq Hl. unfold crinitThreadPoolThreadAvailCallback. rewrite (bind_run _ _ _ _ _ (run_lock_pool s Hq Hl)).
  unfold unlock_pool. do 2 (erewrite bind_run by (by rewrite run_modify, get_set_pool, set_set_pool)).
  unfold mret, M_ret, avail_pool. by destruct (get_pool s); simpl in Hl |- *; subst.
Qed.

Lemma run_workers n s : quiet s → create_workers n s = Ret true (set_pool (Nat.iter n add_worker (get_pool s)) s).
Proof.
  revert s. induction n as [|n IH]; intros s Hq; [simpl; by rewrite set_get_pool|].
  cbn [create_workers]. rewrite bind_fallible by done. rewrite (bind_run _ _ _ _ _ (run_modify _ _)).
  rewrite IH by (by rewrite quiet_pool). rewrite get_set_pool, set_set_pool. by rewrite Nat.iter_succ_r.
Qed.

Lemma run_grow newSize s :
  quiet s → tp_locked (get_pool s) = false →
  crinitThreadPoolGrow newSize s =
    if newSize <=? poolSize (get_pool s) then Ret (-1) s
    else Ret 0 (set_pool (Nat.iter (Z.to_nat (newSize - poolSize (get_pool s))) add_worker (get_pool s)) s).
Proof.
  intros Hq Hl. unfold crinitThreadPoolGrow. rewrite (bind_run _ _ _ _ _ (run_lock_pool s Hq Hl)).
  erewrite bind_run by done. rewrite get_set_pool. cbn [poolSize set_tp_locked]. unfold unlock_pool, thread_attrs.
  destruct (newSize <=? poolSize (get_pool s)).
  - erewrite bind_run by (by rewrite run_modify, get_set_pool, set_set_pool). by rewrite relocked, set_get_pool.
  - erewrite bind_run by (apply fallibleN_quiet; by rewrite quiet_pool). cbn [negb].
    erewrite bind_run by (apply run_workers; by rewrite quiet_pool). rewrite get_set_pool, set_set_pool.
    erewrite bind_run by (by rewrite run_modify, get_set_pool, set_set_pool).
    unfold mret, M_ret. do 2 f_equal. rewrite !add_workers. destruct (Z.to_nat _); [by apply relocked|].
    by destruct (get_pool s); simpl in Hl |- *; subst.
Qed.

Lemma run_grow_to newSize s :
  quiet s → tp_locked (get_pool s) = false → poolSize (get_pool s) < newSize →
  crinitThreadPoolGrow newSize s =
    Ret 0 (set_pool (Nat.iter (Z.to_nat (newSize - poolSize (get_pool s))) add_worker (get_pool s)) s).
Proof. intros Hq Hl Hn. rewrite run_grow by done. by destruct (Z.leb_spec newSize (poolSize (get_pool s))); [lia|]. Qed.
End Runs.

(** ** Workers and watchdog together *)

(** crinitDryPoolWatchdog(): before it waits, in pthread_cond_wait(), woken with
    the mutex, about to grow the pool, or ended because the mutex could not be
    taken. *)
Inductive watchdog := WdOutside | WdWaiting | WdWoken | WdGrowing (newSize : Z) | WdEnded.

(** How many workers wait in accept(), have accepted and not yet said so, and
    serve a client; and how many requests ended without the worker saying that
    it is available again (the continue statements of crinitConnThread()). *)
Record pool_sys := mkSys {
  ps_faults : list bool;
  ps_pool : crinitThreadPool;
  waiting : nat;
  accepted : nat;
  serving : nat;
  failed : nat;
  wd : watchdog;
}.

Definition set_ps_pool (p : crinitThreadPool) (s : pool_sys) : pool_sys :=
  mkSys (ps_faults s) p (waiting s) (accepted s) (serving s) (failed s) (wd s).
Definition set_wd (w : watchdog) (s : pool_sys) : pool_sys :=
  mkSys (ps_faults s) (ps_pool s) (waiting s) (accepted s) (serving s) (failed s) w.
Definition set_workers (w a v f : nat) (s : pool_sys) : pool_sys := mkSys (ps_faults s) (ps_pool s) w a v f (wd s).

#[export, refine] Instance sys_faulty : Faulty pool_sys := {|
  faults := ps_faults;
  set_faults := λ l s, mkSys l (ps_pool s) (waiting s) (accepted s) (serving s) (failed s) (wd s);
  idle := λ _, True;
|}.
Proof. all: by intros; repeat match goal with s : pool_sys |- _ => destruct s end. Defined.

#[export, refine] Instance sys_pool : PoolState pool_sys := {|
  get_pool := ps_pool;
  set_pool := set_ps_pool;
|}.
Proof. all: by intros; repeat match goal with s : pool_sys |- _ => destruct s end. Defined.

(** The condition variable: a signal wakes the watchdog if it waits, and is lost
    otherwise. *)
Definition signalled (s s' : pool_sys) : bool := (tp_signals (ps_pool s) <? tp_signals (ps_pool s'))%nat.
Definition after_signal (b : bool) (w : watchdog) : watchdog :=
  match w with WdWaiting => if b then WdWoken else WdWaiting | _ => w end.
Definition grown (s s' : pool_sys) : nat := Z.to_nat (poolSize (ps_pool s') - poolSize (ps_pool s)).

Inductive pool_step : pool_sys → pool_sys → Prop :=
| step_wait s err s' :
    wd s = WdOutside → lock_pool s = Ret err s' →
    pool_step s (set_wd (if (err : bool) then WdEnded else WdWaiting) (set_ps_pool (set_tp_locked false (ps_pool s')) s'))
| step_wake s : wd s = WdWaiting → pool_step s (set_wd WdWoken s)  (* without a signal *)
| step_check s r s' :
    wd s = WdWoken → watchdog_check s = Ret r s' →
    pool_step s (set_wd (match r with Some n => WdGrowing n | None => WdOutside end) s')
| step_grow s n r s' :
    wd s = WdGrowing n → crinitThreadPoolGrow n s = Ret r s' →
    pool_step s (set_wd WdOutside (set_workers (waiting s' + grown s s') (accepted s') (serving s') (failed s') s'))
| step_accept s n :
    waiting s = Datatypes.S n → pool_step s (set_workers n (Datatypes.S (accepted s)) (serving s) (failed s) s)
| step_busy s n r s' :
    accepted s = Datatypes.S n → crinitThreadPoolThreadBusyCallback s = Ret r s' →
    pool_step s (set_wd (after_signal (signalled s s') (wd s')) (set_workers (waiting s') n (Datatypes.S (serving s')) (failed s') s'))
| step_done s n r s' :
    serving s = Datatypes.S n → crinitThreadPoolThreadAvailCallback s = Ret r s' →
    pool_step s (set_workers (Datatypes.S (waiting s')) (accepted s') n (failed s') s')
| step_fail s n :
    serving s = Datatypes.S n →
    pool_step s (set_workers (Datatypes.S (waiting s)) (accepted s) n (Datatypes.S (failed s)) s).

(** What the counters mean: the size is the number of workers, and the number of
    available ones counts the workers that do not serve a client, less one for
    every request that failed. *)
Record pool_inv (s : pool_sys) : Prop := {
  pi_quiet : quiet s;
  pi_locked : tp_locked (ps_pool s) = false;
  pi_size : poolSize (ps_pool s) = Z.of_nat (waiting s + accepted s + serving s);
  pi_bound : poolSize (ps_pool s) < 2 ^ 64;
  pi_avail : threadAvail (ps_pool s) = uint64 (Z.of_nat (waiting s + accepted s) - Z.of_nat (failed s));
  pi_growing : ∀ n, wd s = WdGrowing n → n < 2 ^ 64;
}.

Lemma uint64_shift a b : uint64 (uint64 a + b) = uint64 (a + b).
Proof. unfold uint64. apply Zplus_mod_idemp_l. Qed.

Lemma inv_grow n s s' r :
  pool_inv s → wd s = WdGrowing n → crinitThreadPoolGrow n s = Ret r s' →
  pool_inv (set_wd WdOutside (set_workers (waiting s' + grown s s') (accepted s') (serving s') (failed s') s')).
Proof.
  intros [Hq Hl Hs Hb Ha Hg] Hw E. rewrite run_grow in E by done. simpl in E.
  destruct (Z.leb_spec n (poolSize (ps_pool s))) as [Hle|Hlt].
  { injection E as <- <-. unfold grown. rewrite Z.sub_diag. split; try done; simpl; by rewrite Nat.add_0_r. }
  injection E as <- <-. unfold grown. specialize (Hg n Hw).
  destruct (Z.to_nat (n - poolSize (ps_pool s))) as [|k] eqn:Ek; [lia|]. rewrite add_workers.
  assert (uint64 (poolSize (ps_pool s) + Z.of_nat (Datatypes.S k)) = n) as En.
  { unfold uint64. rewrite Z.mod_small; lia. }
  split; try done; cbn [set_wd set_workers set_ps_pool set_pool sys_pool ps_pool waiting accepted serving failed wd poolSize threadAvail].
  - rewrite En, Ek. lia.
  - by rewrite En.
  - rewrite Ha, En, uint64_shift, Ek. f_equal. lia.
Qed.

Lemma inv_busy n s s' r :
  pool_inv s → accepted s = Datatypes.S n → crinitThreadPoolThreadBusyCallback s = Ret r s' →
  pool_inv (set_wd (after_signal (signalled s s') (wd s')) (set_workers (waiting s') n (Datatypes.S (serving s')) (failed s') s')).
Proof.
  intros [Hq Hl Hs Hb Ha Hg] Hn E. rewrite run_busy in E by done. injection E as <- <-. unfold busy_pool.
  set (p := set_avail _ _). set (q := if dry p then _ else _).
  assert (poolSize q = poolSize (ps_pool s) ∧ tp_locked q = false ∧ threadAvail q = uint64 (threadAvail (ps_pool s) - 1))
    as (E1 & E2 & E3) by (unfold q; by destruct (dry p)).
  split; try done; simpl; rewrite ?E1, ?Hs, ?E3, ?Ha, ?Hn; try lia.
  - rewrite <- Z.add_opp_r, uint64_shift. f_equal. lia.
  - intros m. destruct (wd s) eqn:Ew; simpl; try case_match; try done. intros [= <-]. by apply Hg.
Qed.

Lemma run_check s :
  tp_locked (ps_pool s) = false →
  watchdog_check s =
    Ret (if dry (ps_pool s) then Some (uint64 (poolSize (ps_pool s) + poolSizeIncrement (ps_pool s))) else None) s.
Proof.
  intros Hl. unfold watchdog_check. rewrite (bind_run mpool _ s (ps_pool s) s) by done. rewrite Hl.
  by rewrite (bind_run (mret tt) _ s tt s).
Qed.

Lemma pool_inv_step s s' : pool_inv s → pool_step s s' → pool_inv s'.
Proof.
  intros Hinv Hstep. pose proof Hinv as [Hq Hl Hs Hb Ha Hg].
  destruct Hstep as [s err s' Hw E|s Hw|s r s' Hw E|s n r s' Hw E|s n Hn|s n r s' Hn E|s n r s' Hn E|s n Hn].
  - rewrite run_lock_pool in E by done. injection E as <- <-. by split.
  - by split.
  - rewrite run_check in E by done. injection E as <- <-. split; try done.
    intros n. simpl. destruct (dry _); [|done]. intros [= <-]. by apply Z.mod_pos_bound.
  - by eapply inv_grow.
  - split; try done; simpl; rewrite ?Hs, ?Ha, Hn; [lia|f_equal; lia].
  - by eapply inv_busy.
  - rewrite run_avail in E by done. injection E as <- <-. split; try done; simpl; rewrite ?Hs, ?Ha, ?Hn; [lia|].
    rewrite uint64_shift. f_equal. lia.
  - split; try done; simpl; rewrite ?Hs, ?Ha, ?Hn; [lia|f_equal; lia].
Qed.

(** *** Starting *)

(** The pool as crinitThreadPoolInit() leaves it, with the workers in accept()
    and the watchdog not yet waiting. *)
Definition fresh_sys : pool_sys := mkSys [] (mkThreadPool 0 0 0 false 0 false false) 0 0 0 0 WdOutside.
Definition started (initialSize : Z) : pool_sys :=
  match crinitThreadPoolInit initialSize fresh_sys with
  | Ret _ s => set_workers (Z.to_nat (poolSize (ps_pool s))) 0 0 0 s
  | _ => fresh_sys
  end.
Definition first_size (n : Z) : Z := if n =? 0 then CRINIT_THREADPOOL_DEFAULT_INITIAL_SIZE else n.

Lemma run_init n :
  0 ≤ n < 2 ^ 64 →
  crinitThreadPoolInit n fresh_sys =
    Ret 0 (set_ps_pool (mkThreadPool (first_size n) (first_size n) (first_size n) false 0 true true) fresh_sys).
Proof.
  intros Hn. unfold crinitThreadPoolInit. fold (first_size n). cbv zeta. rewrite bind_fallible by done. cbv beta iota.
  erewrite bind_run by apply run_modify. rewrite bind_fallible by done. cbv beta iota.
  erewrite bind_run by apply run_modify. erewrite bind_run by (by apply run_lock_pool). cbv beta iota.
  erewrite bind_run by (by apply fallibleN_quiet). cbv beta iota. rewrite bind_fallible by done. cbv beta iota. unfold unlock_pool.
  do 2 (erewrite bind_run by apply run_modify). cbn.
  assert (0 < first_size n < 2 ^ 64) as Hf.
  { unfold first_size, CRINIT_THREADPOOL_DEFAULT_INITIAL_SIZE. destruct (Z.eqb_spec n 0); lia. }
  erewrite bind_run by (apply run_grow_to; [done|done|simpl; lia]). cbn. rewrite Z.sub_0_r, add_workers.
  destruct (Z.to_nat (first_size n)) as [|k] eqn:Ek; [lia|]. simpl.
  unfold mret, M_ret, set_ps_pool, uint64. simpl. repeat f_equal; rewrite Z.mod_small; lia.
Qed.

Lemma started_inv n : 0 ≤ n < 2 ^ 64 → pool_inv (started n).
Proof.
  intros Hn. unfold started. rewrite run_init by done.
  assert (0 < first_size n < 2 ^ 64) as Hf.
  { unfold first_size, CRINIT_THREADPOOL_DEFAULT_INITIAL_SIZE. destruct (Z.eqb_spec n 0); lia. }
  split; try done; simpl; [lia|lia|]. unfold uint64. rewrite Z.mod_small; lia.
Qed.

Lemma reachable_inv n s : 0 ≤ n < 2 ^ 64 → rtc pool_step (started n) s → pool_inv s.
Proof.
  intros Hn. assert (∀ s0 s1, rtc pool_step s0 s1 → pool_inv s0 → pool_inv s1) as Hrtc.
  { induction 1; eauto using pool_inv_step. }
  intros Hs. by eapply Hrtc, started_inv.
Qed.

(** ** Theorems *)

(** C27: whatever the workers, their clients and the watchdog do after the pool
    was started, its size is the number of its workers, the mutex is released
    between steps, and as long as every request was answered the number of
    available threads is the number of workers that serve no client. *)
Theorem thread_pool_counts n s :
  0 ≤ n < 2 ^ 64 → rtc pool_step (started n) s →
  poolSize (ps_pool s) = Z.of_nat (waiting s + accepted s + serving s) ∧ tp_locked (ps_pool s) = false ∧
  (failed s = 0%nat → threadAvail (ps_pool s) = Z.of_nat (waiting s + accepted s)) ∧
  threadAvail (ps_pool s) = uint64 (Z.of_nat (waiting s + accepted s) - Z.of_nat (failed s)).
Proof.
  intros Hn Hs. destruct (reachable_inv _ _ Hn Hs) as [Hq Hl Hsize Hb Ha _]. split_and!; [done|done| |done].
  intros Hf. rewrite Ha, Hf. unfold uint64. rewrite Z.sub_0_r, Z.mod_small; lia.
Qed.

(** Every run, however the threads are scheduled, reaches [P] after finitely
    many steps and does not end before. *)
Inductive inevitably (P : pool_sys → Prop) (s : pool_sys) : Prop :=
| inev_now : P s → inevitably P s
| inev_later : (∃ s', pool_step s s') → (∀ s', pool_step s s' → inevitably P s') → inevitably P s.

(** With no worker left, only an answer or the watchdog's next move is possible. *)
Definition exhausted (s : pool_sys) : Prop := waiting s = 0%nat ∧ accepted s = 0%nat.

Lemma exhausted_step s s' :
  pool_inv s → exhausted s → wd s ≠ WdOutside → wd s ≠ WdWaiting → pool_step s s' →
  (0 < waiting s')%nat ∨
  (∃ r, watchdog_check s = Ret r s ∧ wd s = WdWoken ∧
     s' = set_wd (match r with Some n => WdGrowing n | None => WdOutside end) s) ∨
  (∃ n r t, wd s = WdGrowing n ∧ crinitThreadPoolGrow n s = Ret r t ∧ waiting s' = (waiting t + grown s t)%nat).
Proof.
  intros Hinv [Hw Ha] Ho Hwt Hstep. destruct Hstep; try congruence; eauto 10.
  - right; left. rewrite run_check in * by apply Hinv. simplify_eq. eauto.
  - left. simpl. lia.
  - left. simpl. lia.
Qed.

Lemma grown_to s n r t :
  pool_inv s → n < 2 ^ 64 → poolSize (ps_pool s) < n → crinitThreadPoolGrow n s = Ret r t →
  grown s t = Z.to_nat (n - poolSize (ps_pool s)).
Proof.
  intros [Hq Hl Hs Hb _ _] Hn Hlt E. rewrite run_grow_to in E by done. injection E as <- <-. unfold grown. simpl.
  rewrite add_workers. destruct (Z.to_nat (n - poolSize (ps_pool s))) as [|k] eqn:Ek; [lia|]. simpl.
  unfold uint64. rewrite Z.mod_small; lia.
Qed.

Lemma increment_step s s' : pool_inv s → pool_step s s' → poolSizeIncrement (ps_pool s') = poolSizeIncrement (ps_pool s).
Proof.
  intros [Hq Hl _ _ _ _] Hstep.
  destruct Hstep as [s err t Hw E|s Hw|s r t Hw E|s n r t Hw E|s n Hn|s n r t Hn E|s n r t Hn E|s n Hn]; try done.
  - rewrite run_lock_pool in E by done. by injection E as <- <-.
  - rewrite run_check in E by done. by injection E as <- <-.
  - rewrite run_grow in E by done. case_match; injection E as <- <-; [done|]. simpl. rewrite add_workers. by case_match.
  - rewrite run_busy in E by done. injection E as <- <-. simpl. unfold busy_pool. by case_match.
  - rewrite run_avail in E by done. by injection E as <- <-.
Qed.

Lemma reachable_increment n s :
  0 ≤ n < 2 ^ 64 → rtc pool_step (started n) s → poolSizeIncrement (ps_pool s) = first_size n.
Proof.
  intros Hn Hs. assert (∀ s0 s1, rtc pool_step s0 s1 → pool_inv s0 →
    poolSizeIncrement (ps_pool s1) = poolSizeIncrement (ps_pool s0)) as Hrtc.
  { induction 1 as [|s0 s1 s2 Hstep _ IH]; [done|]. intros Hi. rewrite IH by (by eapply pool_inv_step).
    by apply increment_step. }
  rewrite (Hrtc _ _ Hs) by (by apply started_inv). unfold started. by rewrite run_init.
Qed.

(** A worker that takes the last request wakes the watchdog. *)
Lemma last_wakes s s' :
  pool_inv s → failed s = 0%nat → wd s = WdWaiting → pool_step s s' → serving s' = Datatypes.S (serving s) → exhausted s' →
  pool_inv s' ∧ wd s' = WdWoken ∧ dry (ps_pool s') = true ∧ poolSize (ps_pool s') = poolSize (ps_pool s).
Proof.
  intros Hinv Hf Hwd Hstep Hserv [Hw Ha]. split; [by eapply pool_inv_step|]. pose proof Hinv as [Hq Hl Hps Hb Hav _].
  destruct Hstep as [s err t E1 E|s E1|s r t E1 E|s n r t E1 E|s n Hn|s n r t Hn E|s n r t Hn E|s n Hn];
    try congruence; try (simpl in *; lia).
  rewrite run_busy in E by done. injection E as <- <-. simpl in Hw, Ha. subst n.
  set (p := set_avail (uint64 (threadAvail (ps_pool s) - 1)) (ps_pool s)).
  assert (dry p = true) as Hdry.
  { unfold dry. simpl. rewrite Hav, Hw, Hn, Hf. apply Z.leb_le. change (uint64 (uint64 _ - 1)) with 0. apply Z.div_pos; lia. }
  unfold signalled, busy_pool. simpl. fold p. rewrite Hdry, Hwd. simpl. rewrite (proj2 (Nat.ltb_lt _ _)) by lia. done.
Qed.


(** ** Examples *)

(** Steps by name, for concrete runs. *)
Inductive action := Wait | Check | Grow | Accept | Busy | Fail.
Definition act (a : action) (s : pool_sys) : option pool_sys :=
  match a, wd s with
  | Wait, WdOutside =>
      match lock_pool s with Ret false t => Some (set_wd WdWaiting (set_ps_pool (set_tp_locked false (ps_pool t)) t)) | _ => None end
  | Check, WdWoken =>
      match watchdog_check s with
      | Ret r t => Some (set_wd (match r with Some n => WdGrowing n | None => WdOutside end) t)
      | _ => None
      end
  | Grow, WdGrowing n =>
      match crinitThreadPoolGrow n s with
      | Ret _ t => Some (set_wd WdOutside (set_workers (waiting t + grown s t) (accepted t) (serving t) (failed t) t))
      | _ => None
      end
  | Accept, _ =>
      match waiting s with
      | Datatypes.S n => Some (set_workers n (Datatypes.S (accepted s)) (serving s) (failed s) s)
      | O => None
      end
  | Busy, _ =>
      match accepted s, crinitThreadPoolThreadBusyCallback s with
      | Datatypes.S n, Ret _ t =>
          Some (set_wd (after_signal (signalled s t) (wd t)) (set_workers (waiting t) n (Datatypes.S (serving t)) (failed t) t))
      | _, _ => None
      end
  | Fail, _ =>
      match serving s with
      | Datatypes.S n => Some (set_workers (Datatypes.S (waiting s)) (accepted s) n (Datatypes.S (failed s)) s)
      | O => None
      end
  | _, _ => None
  end.
Definition acts (l : list action) (s : pool_sys) : option pool_sys := foldl (λ s a, s ≫= act a) (Some s) l.

Lemma act_step a s s' : act a s = Some s' → pool_step s s'.
Proof.
  destruct a; simpl; destruct (wd s) eqn:Ew; intros E; try done.
  all: try (destruct (waiting s) eqn:En; simplify_eq; by apply step_accept).
  all: try (destruct (serving s) eqn:En; simplify_eq; by apply step_fail).
  all: try (destruct (accepted s) eqn:En, (crinitThreadPoolThreadBusyCallback s) eqn:Er; simplify_eq; by eapply step_busy).
  - destruct (lock_pool s) as [[] t| |] eqn:El; simplify_eq.
    change WdWaiting with (if false then WdEnded else WdWaiting). by apply step_wait.
  - destruct (watchdog_check s) eqn:Er; simplify_eq. by eapply step_check.
  - destruct (crinitThreadPoolGrow _ s) eqn:Er; simplify_eq. by eapply step_grow.
Qed.

Lemma acts_steps l s s' : acts l s = Some s' → rtc pool_step s s'.
Proof.
  unfold acts. revert s. induction l as [|a l IH]; intros s; simpl; [intros [= ->]; done|].
  destruct (act a s) as [s1|] eqn:E; simpl; [|].
  - intros Hs. eapply rtc_l; [by eapply act_step|]. by apply IH.
  - intros Hs. exfalso. clear IH. induction l as [|b l IH]; simpl in Hs; [done|by apply IH].
Qed.

Definition times (n : nat) (l : list action) : list action := concat (replicate n l).

(** Clients that arrive before the watchdog waits are not noticed: with eight of
    them the pool has no worker left and no thread will start another one. *)
Lemma signals_lost_before_wait :
  ∃ s, rtc pool_step (started 0) s ∧ exhausted s ∧ wd s = WdWaiting ∧ failed s = 0%nat.
Proof.
  eexists. split; [apply (acts_steps (times 8 [Accept; Busy] ++ [Wait])); vm_compute; reflexivity|].
  vm_compute. repeat split.
Qed.

(** A client whose requests fail, one after the other, makes the pool grow: after
    eight requests there are sixteen workers, and all of them are free. *)
Lemma failed_requests_grow_pool :
  ∃ s, rtc pool_step (started 0) s ∧ waiting s = 16%nat ∧ poolSize (ps_pool s) = 16 ∧ threadAvail (ps_pool s) = 8 ∧
    (accepted s + serving s = 0)%nat.
Proof.
  eexists. split; [apply (acts_steps ([Wait] ++ times 8 [Accept; Busy; Fail] ++ [Check; Grow])); vm_compute; reflexivity|].
  vm_compute. repeat split.
Qed.

(** When the fourth worker cannot be started the arguments are freed, while three
    workers and the watchdog go on using them. *)
Lemma failed_init_frees_arguments :
  ∃ s, crinitThreadPoolInit 0 (set_faults (replicate 14 false ++ [true]) fresh_sys) = Ret (-1) s ∧
    poolSize (ps_pool s) = 3 ∧ dryPoolWd (ps_pool s) = true ∧ thrArgs (ps_pool s) = false.
Proof. eexists. split; [vm_compute; reflexivity|done]. Qed.

(** ** Witnesses *)

(** All workers but one are busy and the watchdog waits. *)
Definition demo_sys : pool_sys := default fresh_sys (acts ([Wait] ++ times 7 [Accept; Busy] ++ [Accept]) (started 0)).

Lemma demo_sys_reached : rtc pool_step (started 0) demo_sys.
Proof. apply (acts_steps ([Wait] ++ times 7 [Accept; Busy] ++ [Accept])). vm_compute. reflexivity. Qed.

Lemma thread_pool_counts_witness :
  threadAvail (ps_pool demo_sys) = 1 ∧
  poolSize (ps_pool demo_sys) = Z.of_nat (waiting demo_sys + accepted demo_sys + serving demo_sys).
Proof.
  split; [vm_compute; reflexivity|].
  apply (thread_pool_counts 0 demo_sys); [lia|apply demo_sys_reached].
Defined.

