(* ===== verification/SockCom.v ===== *)
(** * The socket: packets of an AF_UNIX connection and the client's end of it,
    src/sockcom.c

    A connection has a queue of packets in each direction.  recv() takes one
    packet, as much of it as fits, waits for one if there is none, and reads
    nothing if the other end is closed.  The server of the client's recv() runs
    while the client waits. *)

From Stdlib Require Import ZArith Lia Bool List String Ascii NArith.
From stdpp Require Import base list strings.
From S2P Require Import Prelude CString Lexers ConfConv RtimMsg.

Open Scope Z_scope.
Open Scope crinit_scope.

#[local] Arguments String.append : simpl nomatch.

(** ** Bytes *)

(** A size_t as it lies in memory, which is how it is sent. *)
Definition byte_of (z : Z) : ascii := ascii_of_N (Z.to_N (z mod 256)).
Definition of_byte (c : ascii) : Z := Z.of_N (N_of_ascii c).

Fixpoint le_bytes (n : nat) (z : Z) : string :=
  match n with O => EmptyString | S n => String (byte_of z) (le_bytes n (z / 256)) end.
Fixpoint le_value (s : string) : Z :=
  match s with EmptyString => 0 | String c s => of_byte c + 256 * le_value s end.

(** The first [n] bytes, the text before the first zero, and a zero. *)
Fixpoint take_bytes (n : Z) (s : string) : string :=
  match s with
  | EmptyString => EmptyString
  | String c s => if n <=? 0 then EmptyString else String c (take_bytes (n - 1) s)
  end.
Fixpoint cut_nul (s : string) : string :=
  match s with
  | EmptyString => EmptyString
  | String c s => if Ascii.eqb c (chr 0) then EmptyString else String c (cut_nul s)
  end.
Definition with_nul (s : string) : string := (s +:+ str1 (chr 0))%string.
Definition bytes (s : string) : Z := Z.of_nat (String.length s).

Lemma of_byte_of z : of_byte (byte_of z) = z mod 256.
Proof.
  unfold of_byte, byte_of. pose proof (Z.mod_pos_bound z 256 ltac:(lia)).
  rewrite N_ascii_embedding by lia. by rewrite Z2N.id by lia.
Qed.

Lemma le_value_bytes n z : 0 ≤ z < 256 ^ Z.of_nat n → le_value (le_bytes n z) = z.
Proof.
  revert z. induction n as [|n IH]; intros z Hz; cbn [le_bytes le_value]; [simpl in Hz; lia|].
  rewrite of_byte_of, IH; [pose proof (Z.div_mod z 256 ltac:(lia)); lia|].
  rewrite Nat2Z.inj_succ, Z.pow_succ_r in Hz by lia. split; [apply Z.div_pos; lia|apply Z.div_lt_upper_bound; lia].
Qed.

Lemma le_bytes_length n z : String.length (le_bytes n z) = n.
Proof. revert z. induction n as [|n IH]; intros z; simpl; [done|]. by rewrite IH. Qed.

Lemma take_bytes_all n s : bytes s ≤ n → take_bytes n s = s.
Proof.
  unfold bytes. revert n. induction s as [|c s IH]; intros n Hn; [done|]. simpl in *.
  destruct (Z.leb_spec n 0); [lia|]. by rewrite IH by lia.
Qed.

Lemma take_bytes_app a b : take_bytes (bytes a) (a +:+ b)%string = a.
Proof.
  unfold bytes. induction a as [|c a IH]; [simpl; by destruct b|]. cbn [String.append take_bytes String.length].
  destruct (Z.leb_spec (Z.of_nat (S (String.length a))) 0); [lia|].
  replace (Z.of_nat (S (String.length a)) - 1) with (Z.of_nat (String.length a)) by lia. by rewrite IH.
Qed.

Lemma cut_nul_id s : no_nul s = true → cut_nul s = s.
Proof.
  induction s as [|c s IH]; [done|]. simpl. intros [Hc Hs]%andb_true_iff. apply negb_true_iff in Hc.
  destruct (Ascii.eqb_spec c (chr 0)) as [->|]; [done|]. by rewrite IH.
Qed.

Lemma with_nul_bytes s : bytes (with_nul s) = bytes s + 1.
Proof. unfold bytes, with_nul. rewrite string_length_app. simpl. lia. Qed.

(** ** Connections *)

(** struct ucred; [None] in a packet is ancillary data without valid
    credentials. *)
Record ucred := mkUcred { cr_pid : Z; cr_uid : Z; cr_gid : Z }.
Record packet := mkPacket { p_data : string; p_creds : option ucred }.

#[export] Instance ucred_eq_dec : EqDecision ucred.
Proof. solve_decision. Defined.

Inductive direction := ToServer | ToClient.
Record connection := mkConn { up : list packet; down : list packet; client_closed : bool; server_closed : bool }.

Definition queue (d : direction) (c : connection) : list packet := match d with ToServer => up c | ToClient => down c end.
Definition set_queue (d : direction) (q : list packet) (c : connection) : connection :=
  match d with
  | ToServer => mkConn q (down c) (client_closed c) (server_closed c)
  | ToClient => mkConn (up c) q (client_closed c) (server_closed c)
  end.
(** Whether the sender, and whether the receiver of a direction is gone. *)
Definition sender_gone (d : direction) (c : connection) : bool :=
  match d with ToServer => client_closed c | ToClient => server_closed c end.
Definition receiver_gone (d : direction) (c : connection) : bool :=
  match d with ToServer => server_closed c | ToClient => client_closed c end.

Class SockState (S : Type) `{Faulty S} := {
  get_conn : S → connection;
  set_conn : connection → S → S;
  get_set_conn : ∀ c s, get_conn (set_conn c s) = c;
  set_set_conn : ∀ c c' s, set_conn c (set_conn c' s) = set_conn c s;
  set_get_conn : ∀ s, set_conn (get_conn s) s = s;
  conn_faults : ∀ l s, get_conn (set_faults l s) = get_conn s;
  faults_conn : ∀ c s, faults (set_conn c s) = faults s;
}.

Section Packets.
Context {S : Type} `{SockState S}.

Definition mconn : M S connection := λ s, Ret (get_conn s) s.
Definition mconn_modify (f : connection → connection) : M S unit := λ s, Ret tt (set_conn (f (get_conn s)) s).

(** send() with MSG_NOSIGNAL: [true] on failure. *)
Definition sock_send (d : direction) (p : packet) : M S bool :=
  err ← fallible;
  c ← mconn;
  if (err : bool) || receiver_gone d c then mret true else
  mconn_modify (set_queue d (queue d c ++ [p])) ;; mret false.

(** recv() and recvmsg() of at most [n] bytes; [other] is what happens while the
    caller waits.  [None] on failure. *)
Definition sock_recv (d : direction) (other : M S unit) (n : Z) : M S (option packet) :=
  c ← mconn;
  (match queue d c with [] => if sender_gone d c then mret tt else other | _ => mret tt end) ;;
  err ← fallible;
  if (err : bool) then mret None else
  c ← mconn;
  match queue d c with
  | p :: q => mconn_modify (set_queue d q) ;; mret (Some (mkPacket (take_bytes n (p_data p)) (p_creds p)))
  | [] => if sender_gone d c then mret (Some (mkPacket EmptyString None)) else mblock
  end.
End Packets.

(** ** The client *)

Definition sizeof_size_t : nat := 8.
Definition sun_path_size : nat := 108.

Section Client.
Context {S : Type} `{SockState S}.
Variable me : ucred.  (* the kernel adds the credentials of the client *)
Variables accepts answers : M S unit.  (* what the server does up to RTR, and after that *)

Definition crinitSend (cmd : crinitRtimCmd) : M S Z :=
  m ← crinitRtimCmdToMsgStr cmd;
  match m with
  | None => mret (-1)
  | Some (sendStr, sendLen) =>
      err ← sock_send ToServer (mkPacket (le_bytes sizeof_size_t sendLen) (Some me));
      if (err : bool) then mret (-1) else
      err ← sock_send ToServer (mkPacket (take_bytes sendLen (with_nul sendStr)) (Some me));
      if (err : bool) then mret (-1) else mret 0
  end.

(** A message of length 0 has its terminating zero written in front of it. *)
Definition crinitRecv : M S (option crinitRtimCmd) :=
  p ← sock_recv ToClient answers (Z.of_nat sizeof_size_t);
  match p with
  | None => mret None
  | Some p =>
      if negb (Nat.eqb (String.length (p_data p)) sizeof_size_t) then mret None else
      let recvLen := le_value (p_data p) in
      oom ← fallible;
      if (oom : bool) then mret None else
      p ← sock_recv ToClient answers recvLen;
      match p with
      | None => mret None
      | Some p =>
          if negb (bytes (p_data p) =? recvLen) then mret None else
          if recvLen =? 0 then mundef else
          crinitParseRtimCmd (cut_nul (take_bytes (recvLen - 1) (p_data p)))
      end
  end.

Definition crinitWaitForRtr : M S Z :=
  p ← sock_recv ToClient accepts (Z.of_nat sizeof_size_t);
  match p with
  | None => mret (-1)
  | Some p =>
      if negb (Nat.eqb (String.length (p_data p)) sizeof_size_t) then mret (-1) else
      let recvLen := le_value (p_data p) in
      if negb (recvLen =? 4) then mret (-1) else
      p ← sock_recv ToClient accepts recvLen;
      match p with
      | None => mret (-1)
      | Some p =>
          if negb (bytes (p_data p) =? recvLen) then mret (-1) else
          mret (if strncmp_eq 3 (p_data p) "RTR" then 0 else -1)
      end
  end.

(** connect() makes a new connection; when RTR does not come it is closed. *)
Definition new_conn : connection := mkConn [] [] false false.

Definition crinitConnect (sockFile : string) : M S Z :=
  err ← fallible;  (* socket *)
  if (err : bool) then mret (-1) else
  if (sun_path_size <=? String.length sockFile)%nat then mret (-1) else
  err ← fallible;  (* connect *)
  if (err : bool) then mret (-1) else
  mconn_modify (λ _, new_conn) ;;
  r ← crinitWaitForRtr;
  if r =? -1 then mconn_modify (λ c, mkConn (up c) (down c) true (server_closed c)) ;; mret (-1) else mret 0.

(** With an error after the connection was made the socket stays open. *)
Definition crinitXfer (sockFile : string) (cmd : crinitRtimCmd) : M S (option crinitRtimCmd) :=
  r ← crinitConnect sockFile;
  if r =? -1 then mret None else
  r ← crinitSend cmd;
  if r =? -1 then mret None else
  res ← crinitRecv;
  match res with
  | None => mret None
  | Some res => mconn_modify (λ c, mkConn (up c) (down c) true (server_closed c)) ;; mret (Some res)
  end.
End Client.

(** ** What arrives is what was sent *)

Section Framing.
Context {S : Type} `{SockState S}.
Implicit Types s : S.

Lemma quiet_conn c s : quiet (set_conn c s) ↔ quiet s.
Proof. unfold quiet. by rewrite faults_conn. Qed.

(** The packets of a direction. *)
Definition pushed (d : direction) (l : list packet) s : S :=
  set_conn (set_queue d (queue d (get_conn s) ++ l) (get_conn s)) s.
Definition popped (d : direction) (q : list packet) s : S := set_conn (set_queue d q (get_conn s)) s.

Lemma run_send d p s :
  quiet s → receiver_gone d (get_conn s) = false → sock_send d p s = Ret false (pushed d [p] s).
Proof.
  intros Hq Hg. unfold sock_send. rewrite bind_fallible by done.
  rewrite (bind_run mconn _ s (get_conn s) s) by done. rewrite Hg. done.
Qed.

Lemma run_recv d other n p q s :
  quiet s → queue d (get_conn s) = p :: q →
  sock_recv d other n s = Ret (Some (mkPacket (take_bytes n (p_data p)) (p_creds p))) (popped d q s).
Proof.
  intros Hq Hp. unfold sock_recv. rewrite (bind_run mconn _ s (get_conn s) s) by done. rewrite Hp.
  rewrite (bind_run (mret tt) _ s tt s) by done. rewrite bind_fallible by done.
  rewrite (bind_run mconn _ s (get_conn s) s) by done. by rewrite Hp.
Qed.

(** With nothing there, the other side is given its turn. *)
Lemma run_recv_wait d other n p q s s1 :
  queue d (get_conn s) = [] → sender_gone d (get_conn s) = false → other s = Ret tt s1 →
  quiet s1 → queue d (get_conn s1) = p :: q →
  sock_recv d other n s = Ret (Some (mkPacket (take_bytes n (p_data p)) (p_creds p))) (popped d q s1).
Proof.
  intros Hp Hg Ho Hq Hp1. unfold sock_recv. rewrite (bind_run mconn _ s (get_conn s) s) by done. rewrite Hp, Hg.
  rewrite (bind_run _ _ _ _ _ Ho). rewrite bind_fallible by done.
  rewrite (bind_run mconn _ s1 (get_conn s1) s1) by done. by rewrite Hp1.
Qed.

(** A string as two packets: its size with the terminating zero, and itself. *)
Definition frame_of (creds : option ucred) (str : string) : list packet :=
  [mkPacket (le_bytes sizeof_size_t (bytes str + 1)) creds; mkPacket (with_nul str) creds].

Definition fits (str : string) : Prop := no_nul str = true ∧ bytes str + 1 < 2 ^ 64.

Lemma frame_size str : fits str → le_value (le_bytes sizeof_size_t (bytes str + 1)) = bytes str + 1.
Proof. intros [_ Hs]. apply le_value_bytes. split; [unfold bytes; lia|]. by change (256 ^ Z.of_nat sizeof_size_t) with (2 ^ 64). Qed.

Lemma frame_length_packet n str : take_bytes (Z.of_nat sizeof_size_t) (le_bytes sizeof_size_t n) = le_bytes sizeof_size_t n ∧
  take_bytes (bytes str + 1) (with_nul str) = with_nul str.
Proof.
  split; apply take_bytes_all; [unfold bytes; by rewrite le_bytes_length|by rewrite with_nul_bytes].
Qed.

Lemma frame_text str : fits str → cut_nul (take_bytes (bytes str + 1 - 1) (with_nul str)) = str.
Proof.
  intros [Hn _]. rewrite Z.add_simpl_r. unfold with_nul. rewrite take_bytes_app. by apply cut_nul_id.
Qed.

Lemma pushed_twice d p q s : pushed d [q] (pushed d [p] s) = pushed d [p; q] s.
Proof.
  unfold pushed. rewrite get_set_conn, set_set_conn. f_equal. destruct d; simpl; by rewrite <- app_assoc.
Qed.

Lemma gone_pushed d d' l s : receiver_gone d (get_conn (pushed d' l s)) = receiver_gone d (get_conn s).
Proof. unfold pushed. rewrite get_set_conn. by destruct d, d'. Qed.
End Framing.
