(* ===== verification/NotiServ.v ===== *)
(** * The service interface: src/notiserv.c

    The server is the daemon with the connection it serves and the pool its
    threads belong to.  A thread accepts a connection, says that it is ready,
    receives a command with the credentials of the client, executes it if the
    client may ask for it, and sends the response. *)

From Stdlib Require Import ZArith Lia Bool List String Ascii.
From stdpp Require Import base list strings.
From S2P Require Import Prelude CString EnvSet Timer Task TaskDB TimerDB Lexers ConfConv Ini GlobOpt Cgroup ConfParse.
From S2P Require Import ConfTask ConfGlob FSeries RtimMsg RtimExec ThrPool SockCom.

Open Scope Z_scope.
Open Scope crinit_scope.

#[local] Arguments String.append : simpl nomatch.

(** ** State *)

Record server {B C : Type} := mkServer {
  sv_dm : daemon B C;
  sv_conn : connection;
  sv_pool : crinitThreadPool;
}.
Arguments server : clear implicits.
Arguments mkServer {B C}.

(** geteuid(), and the effective capabilities of a process, as far as SYS_capget
    tells them. *)
Class ServEnv (C : Type) := {
  geteuid : Z;
  capget : Z → option (list Z);
}.

Section State.
Context {B C : Type}.

Definition set_sv_dm (d : daemon B C) (s : server B C) : server B C := mkServer d (sv_conn s) (sv_pool s).
Definition set_sv_conn (c : connection) (s : server B C) : server B C := mkServer (sv_dm s) c (sv_pool s).
Definition set_sv_pool (p : crinitThreadPool) (s : server B C) : server B C := mkServer (sv_dm s) (sv_conn s) p.

Definition on_dm {A} (m : M (daemon B C) A) : M (server B C) A := λ s,
  match m (sv_dm s) with Ret a d => Ret a (set_sv_dm d s) | Block => Block | Undef => Undef end.
End State.

#[export, refine] Instance server_faulty {B C} `{!Faulty B} : Faulty (server B C) := {|
  faults := λ s, faults (dm_db (sv_dm s));
  set_faults := λ l s, set_sv_dm (set_dm_db (set_faults l (dm_db (sv_dm s))) (sv_dm s)) s;
  idle := λ s, idle (dm_db (sv_dm s));
|}.
Proof.
  - intros l s. apply faults_set.
  - intros l l' s. unfold set_sv_dm, set_dm_db. simpl. by rewrite set_faults_set.
  - intros [[] ? ?]. unfold set_sv_dm, set_dm_db. simpl. by rewrite set_faults_same.
  - intros l s. apply idle_set.
Defined.

#[export, refine] Instance server_sock {B C} `{!Faulty B} : SockState (server B C) := {|
  get_conn := sv_conn;
  set_conn := set_sv_conn;
|}.
Proof. all: by intros; repeat match goal with s : server _ _ |- _ => destruct s end. Defined.

#[export, refine] Instance server_pool {B C} `{!Faulty B} : PoolState (server B C) := {|
  get_pool := sv_pool;
  set_pool := set_sv_pool;
|}.
Proof. all: by intros; repeat match goal with s : server _ _ |- _ => destruct s end. Defined.

(** ** Permissions *)

Definition CAP_SYS_BOOT : Z := 22.
Definition ELOS_SEVERITY_WARN : Z := 3.
Definition ELOS_MSG_CODE_IPC_NOT_AUTHORIZED : Z := 4001.
Definition ELOS_CLASSIFICATION_SECURITY : Z := 4.
Definition ELOS_CLASSIFICATION_IPC : Z := 64.

Definition crinitUcredCheckEqual (a b : ucred) : bool :=
  (cr_pid a =? cr_pid b) && (cr_uid a =? cr_uid b) && (cr_gid a =? cr_gid b).

Section Perm.
Context {C : Type} `{ServEnv C}.

Definition crinitCheckPerm (op : crinitRtimOp) (passedCreds : ucred) : bool :=
  match op with
  | CRINIT_RTIMCMD_C_ADDTASK | CRINIT_RTIMCMD_C_ADDSERIES | CRINIT_RTIMCMD_C_ENABLE | CRINIT_RTIMCMD_C_DISABLE
  | CRINIT_RTIMCMD_C_STOP | CRINIT_RTIMCMD_C_KILL | CRINIT_RTIMCMD_C_RESTART | CRINIT_RTIMCMD_C_NOTIFY =>
      cr_uid passedCreds =? geteuid
  | CRINIT_RTIMCMD_C_STATUS | CRINIT_RTIMCMD_C_TASKLIST | CRINIT_RTIMCMD_C_GETVER => true
  | CRINIT_RTIMCMD_C_SHUTDOWN =>
      match capget (cr_pid passedCreds) with
      | None => false
      | Some effective =>
          match effective !! Z.to_nat (CAP_SYS_BOOT / 32) with
          | Some word => Z.testbit word (CAP_SYS_BOOT mod 32)
          | None => false
          end
      end
  | _ => false
  end.
End Perm.

(** op + 1 in the enumeration; [None] after the last constant. *)
Definition op_succ (op : crinitRtimOp) : option crinitRtimOp :=
  match index_of (λ e, bool_decide (e.1 = op)) crinitRtimOps with
  | Some i => fst <$> crinitRtimOps !! Datatypes.S i
  | None => None
  end.

(** ** The thread *)

Section Server.
Context {B C : Type} `{TaskDBServices B} `{!Faulty C, !OptState C, !ConfFiles C, !TimerState C, !ConfEnv C, !SeriesEnv C}.
Context `{!DirEnv C, !RtimEnv C, !ServEnv C}.
Notation V := (server B C).

Definition crinitSendStr (str : string) : M V Z :=
  let dataLen := bytes str + 1 in
  err ← sock_send ToClient (mkPacket (le_bytes sizeof_size_t dataLen) None);
  if (err : bool) then mret (-1) else
  err ← sock_send ToClient (mkPacket (take_bytes dataLen (with_nul str)) None);
  if (err : bool) then mret (-1) else mret 0.

(** The server waits for the client alone. *)
Definition recv_client (n : Z) : M V (option packet) := sock_recv ToServer (mret tt) n.

(** A message of length 0 has its terminating zero written in front of it. *)
Definition crinitRecvStr : M V (option (string * ucred)) :=
  p ← recv_client (Z.of_nat sizeof_size_t);
  match p with
  | None => mret None
  | Some p =>
      if negb (Nat.eqb (String.length (p_data p)) sizeof_size_t) then mret None else
      let dataLen := le_value (p_data p) in
      match p_creds p with
      | None => mret None
      | Some creds0 =>
          oom ← fallible;
          if (oom : bool) then mret None else
          p ← recv_client dataLen;
          match p with
          | None => mret None
          | Some p =>
              if negb (bytes (p_data p) =? dataLen) then mret None else
              if dataLen =? 0 then mundef else
              match p_creds p with
              | None => mret None
              | Some creds1 =>
                  if negb (crinitUcredCheckEqual creds0 creds1) then mret None else
                  mret (Some (cut_nul (take_bytes (dataLen - 1) (p_data p)), creds0))
              end
          end
      end
  end.

Definition close_conn : M V unit := mconn_modify (λ c, mkConn (up c) (down c) (client_closed c) true).

(** From accept() to RTR; [false] when the thread starts over. *)
Definition conn_accept : M V bool :=
  err ← fallible;
  _ ← crinitThreadPoolThreadBusyCallback;
  if (err : bool) then mret false else
  err ← fallible;  (* SO_PASSCRED *)
  if (err : bool) then close_conn ;; mret false else
  r ← crinitSendStr "RTR";
  if r =? -1 then close_conn ;; mret false else mret true.

(** The response: [None] when there is none, and whether it can be written as a
    message. *)
Definition conn_execute (cmd : crinitRtimCmd) (creds : ucred) : M V (option (option crinitRtimCmd)) :=
  if crinitCheckPerm (op cmd) creds then
    r ← on_dm (crinitExecRtimCmd cmd); mret (Some <$> r)
  else
    (if ENABLE_ELOS (S := C) then
       _ ← on_dm (on_db (crinitElosLog ELOS_SEVERITY_WARN ELOS_MSG_CODE_IPC_NOT_AUTHORIZED
                           (Z.lor ELOS_CLASSIFICATION_SECURITY ELOS_CLASSIFICATION_IPC) (print_dec (cr_pid creds)))); mret tt
     else mret tt) ;;
    r ← crinitBuildRtimCmd (default (op cmd) (op_succ (op cmd))) [CRINIT_RTIMCMD_RES_ERR; "Permission denied."%string];
    mret ((λ r, if op_succ (op cmd) then Some r else None) <$> r).

(** From the command to the response.  When the response cannot be written the
    connection is not closed, and only after a response was sent the thread is
    counted as available. *)
Definition conn_answer : M V unit :=
  m ← crinitRecvStr;
  match m with
  | None => close_conn
  | Some (clientMsg, msgCreds) =>
      cmd ← crinitParseRtimCmd clientMsg;
      match cmd with
      | None => close_conn
      | Some cmd =>
          res ← conn_execute cmd msgCreds;
          _ ← crinitDestroyRtimCmd cmd;
          match res with
          | None => close_conn
          | Some None => mret tt
          | Some (Some res) =>
              resStr ← crinitRtimCmdToMsgStr res;
              _ ← crinitDestroyRtimCmd res;
              match resStr with
              | None => mret tt
              | Some (resStr, _) =>
                  r ← crinitSendStr resStr;
                  close_conn ;;
                  if r =? -1 then mret tt else _ ← crinitThreadPoolThreadAvailCallback; mret tt
              end
          end
      end
  end.

(** One turn of the loop of crinitConnThread(). *)
Definition crinitConnThread : M V unit :=
  ok ← conn_accept; if (ok : bool) then conn_answer else mret tt.

(** ** Starting the server *)

(** mkdir(), where [present] says which directories exist: [true] on a failure
    other than EEXIST. *)
Definition mkdir (present : string → bool) (path : string) : M V bool := if present path then mret false else fallible.

(** mkdir() for every prefix that ends before a slash, and for the whole path. *)
Fixpoint mkdir_prefixes (present : string → bool) (pre rest : string) : M V Z :=
  match rest with
  | EmptyString => err ← mkdir present pre; mret (if (err : bool) then -1 else 0)
  | String c r =>
      let go := mkdir_prefixes present (pre +:+ str1 c)%string r in
      if Ascii.eqb c "/" then err ← mkdir present pre; if (err : bool) then mret (-1) else go else go
  end.

Fixpoint crinitMkdirp (present : string → bool) (pre rest : string) : M V Z :=
  match rest with
  | String "/" r => crinitMkdirp present (pre +:+ "/")%string r
  | _ => mkdir_prefixes present pre rest
  end.

(** socket(), bind() and listen(). *)
Definition crinitCreateSockFile : M V Z := err ← fallibleN 3; mret (if (err : bool) then -1 else 0).

Definition crinitStartInterfaceServer (present : string → bool) (dirname : string) : M V Z :=
  oom ← fallible;
  if (oom : bool) then mret (-1) else
  r ← crinitMkdirp present EmptyString dirname;
  if r =? -1 then mret (-1) else
  r ← crinitCreateSockFile;
  if r =? -1 then mret (-1) else
  r ← crinitThreadPoolInit 0;
  if r =? -1 then mret (-1) else mret 0.
End Server.
