(* ===== verification/NotiProps.v ===== *)
(** * Requests and responses end to end, and who may ask for what *)

From Stdlib Require Import ZArith Lia Bool List String Ascii.
From stdpp Require Import base list strings gmap.
From S2P Require Import Prelude CString EnvSet Timer Task TaskDB TaskDBSpec TaskDBProps TimerDB Lexers ConfConv Ini.
From S2P Require Import GlobOpt Cgroup GlobOptProps ConfParse ConfTask ConfTaskProps ConfGlob ConfGlobProps FSeries.
From S2P Require Import RtimMsg RtimExec RtimProps RtimCtl ThrPool SockCom NotiServ.

Open Scope Z_scope.
Open Scope crinit_scope.

#[local] Arguments String.append : simpl nomatch.

(** ** Messages on the socket *)

Definition message_text (cmd : crinitRtimCmd) : string :=
  (default EmptyString (crinitOpStrGetByRtimOp (op cmd)) +:+ joined (args cmd))%string.

Lemma message_no_nul cmd : Forall (λ a, no_nul a = true) (args cmd) → no_nul (message_text cmd) = true.
Proof.
  intros Ha. unfold message_text. rewrite no_nul_app. apply andb_true_iff. split; [by destruct (op cmd)|].
  induction Ha as [|a l Ha _ IH]; [done|]. cbn [joined String.append no_nul]. rewrite no_nul_app, Ha, IH. done.
Qed.

Section Message.
Context {S : Type} `{Faulty S}.
Implicit Types s : S.

Lemma run_message cmd s :
  quiet s → crinitRtimCmdToMsgStr cmd s = Ret (Some (message_text cmd, bytes (message_text cmd) + 1)) s.
Proof.
  intros Hq. unfold crinitRtimCmdToMsgStr, message_text. destruct (op_name (op cmd)) as (name & -> & _ & _).
  rewrite bind_fallible by done. rewrite message_joined, message_length. unfold bytes, mret, M_ret. simpl.
  rewrite string_length_app. do 3 f_equal. lia.
Qed.

Lemma run_parse cmd s : quiet s → crinitParseRtimCmd (message_text cmd) s = Ret (Some (carried cmd)) s.
Proof.
  intros Hq. destruct (wp_elim _ _ _ (wp_message cmd s)) as (m & s1 & E & Hf1 & Hm). rewrite run_message in E by done.
  injection E as <- <-. destruct Hm as (_ & Hop & Hargs).
  destruct (wp_elim _ _ _ (parse_reads (message_text cmd) s)) as (r & s2 & E & [_ Hf2] & Hr). rewrite (Hf2 Hq) in E.
  rewrite E. f_equal. destruct r as [[o l a0]|]; [|destruct Hr; congruence]. simpl in Hr. destruct Hr as (Ho & Hl & ->).
  unfold carried. rewrite Ho in Hop. injection Hop as ->. by rewrite Hl, Hargs.
Qed.
End Message.

(** ** The client's half *)

Section Client.
Context {S : Type} `{SockState S}.
Implicit Types s : S.

Lemma run_client_send me cmd s :
  quiet s → receiver_gone ToServer (get_conn s) = false →
  crinitSend me cmd s = Ret 0 (pushed ToServer (frame_of (Some me) (message_text cmd)) s).
Proof.
  intros Hq Hg. unfold crinitSend. rewrite (bind_run _ _ _ _ _ (run_message cmd s Hq)).
  rewrite (bind_run _ _ _ _ _ (run_send ToServer _ s Hq Hg)).
  erewrite bind_run by (apply run_send; [by apply quiet_conn|by rewrite gone_pushed]).
  rewrite (proj2 (frame_length_packet 0 (message_text cmd))), pushed_twice. done.
Qed.

Lemma pop_rest d p q s : queue d (get_conn (popped d (p :: q) s)) = p :: q ∧ popped d q (popped d (p :: q) s) = popped d q s.
Proof.
  unfold popped. rewrite get_set_conn, set_set_conn. by destruct d.
Qed.

(** After the server has had its turn. *)
Lemma run_client_recv answers creds res s s1 :
  queue ToClient (get_conn s) = [] → sender_gone ToClient (get_conn s) = false → answers s = Ret tt s1 →
  quiet s1 → queue ToClient (get_conn s1) = frame_of creds (message_text res) → fits (message_text res) →
  crinitRecv answers s = Ret (Some (carried res)) (popped ToClient [] s1).
Proof.
  intros He Hg Ha Hq Hf Hfit. unfold crinitRecv.
  rewrite (bind_run _ _ _ _ _ (run_recv_wait ToClient answers _ _ _ s s1 He Hg Ha Hq Hf)).
  cbn [p_data]. rewrite (proj1 (frame_length_packet _ EmptyString)), le_bytes_length, (frame_size _ Hfit). cbn [Nat.eqb sizeof_size_t negb].
  rewrite bind_fallible by (by apply quiet_conn). cbv beta iota.
  destruct (pop_rest ToClient (mkPacket (with_nul (message_text res)) creds) [] s1) as [Ep Es].
  erewrite bind_run by (apply run_recv; [by apply quiet_conn|exact Ep]). rewrite Es. cbn [p_data].
  rewrite (proj2 (frame_length_packet 0 (message_text res))), with_nul_bytes, Z.eqb_refl. cbn [negb].
  destruct (Z.eqb_spec (bytes (message_text res) + 1) 0); [unfold bytes in *; lia|].
  rewrite frame_text by done. apply run_parse. by apply quiet_conn.
Qed.

Lemma run_wait_rtr accepts creds s s1 :
  queue ToClient (get_conn s) = [] → sender_gone ToClient (get_conn s) = false → accepts s = Ret tt s1 →
  quiet s1 → queue ToClient (get_conn s1) = frame_of creds "RTR" →
  crinitWaitForRtr accepts s = Ret 0 (popped ToClient [] s1).
Proof.
  intros He Hg Ha Hq Hf. unfold crinitWaitForRtr.
  rewrite (bind_run _ _ _ _ _ (run_recv_wait ToClient accepts _ _ _ s s1 He Hg Ha Hq Hf)).
  cbn [p_data]. rewrite (proj1 (frame_length_packet _ EmptyString)), le_bytes_length. cbn [Nat.eqb sizeof_size_t negb].
  replace (le_value _) with 4 by reflexivity. cbv zeta. cbn [Z.eqb negb Pos.eqb].
  destruct (pop_rest ToClient (mkPacket (with_nul "RTR") creds) [] s1) as [Ep Es].
  erewrite bind_run by (apply run_recv; [by apply quiet_conn|exact Ep]). by rewrite Es.
Qed.
End Client.

(** ** The server's half *)

Section Server.
Context {B C : Type} `{TaskDBServices B} `{!Faulty C, !OptState C, !ConfFiles C, !TimerState C, !ConfEnv C, !SeriesEnv C}.
Context `{!DirEnv C, !RtimEnv C, !ServEnv C}.
Notation V := (server B C).
Implicit Types s : V.

Lemma run_sendstr str s :
  quiet s → client_closed (sv_conn s) = false → crinitSendStr str s = Ret 0 (pushed ToClient (frame_of None str) s).
Proof.
  intros Hq Hg. unfold crinitSendStr. cbv zeta. erewrite bind_run by (by apply run_send). cbv beta iota.
  erewrite bind_run by (apply run_send; [by apply quiet_conn|by rewrite gone_pushed]).
  rewrite (proj2 (frame_length_packet 0 str)), pushed_twice. done.
Qed.

Lemma run_recvstr creds str s :
  quiet s → up (sv_conn s) = frame_of (Some creds) str → fits str →
  crinitRecvStr s = Ret (Some (str, creds)) (popped ToServer [] s).
Proof.
  intros Hq Hf Hfit. unfold crinitRecvStr, recv_client.
  erewrite bind_run by (apply run_recv; [exact Hq|exact Hf]).
  cbn [p_data p_creds]. rewrite (proj1 (frame_length_packet _ EmptyString)), le_bytes_length, (frame_size _ Hfit).
  cbn [Nat.eqb sizeof_size_t negb]. rewrite bind_fallible by (by apply quiet_conn). cbv beta iota.
  destruct (pop_rest ToServer (mkPacket (with_nul str) (Some creds)) [] s) as [Ep Es].
  erewrite bind_run by (apply run_recv; [by apply quiet_conn|exact Ep]). rewrite Es. cbn [p_data p_creds].
  rewrite (proj2 (frame_length_packet 0 str)), with_nul_bytes, Z.eqb_refl. cbn [negb].
  destruct (Z.eqb_spec (bytes str + 1) 0); [unfold bytes in *; lia|].
  unfold crinitUcredCheckEqual. rewrite !Z.eqb_refl. cbn [andb negb]. by rewrite frame_text.
Qed.

(** A thread that waits for a connection. *)
Record listening s : Prop := {
  li_quiet : quiet s;
  li_pool : tp_locked (sv_pool s) = false;
}.

Lemma run_accept s :
  listening s → sv_conn s = new_conn →
  conn_accept s = Ret true (pushed ToClient (frame_of None "RTR") (set_sv_pool (busy_pool (sv_pool s)) s)).
Proof.
  intros [Hq Hp] Hc. unfold conn_accept. rewrite bind_fallible by done.
  erewrite bind_run by (by apply run_busy). rewrite bind_fallible by done. cbv beta iota.
  by erewrite bind_run by (apply run_sendstr; [done|by simpl; rewrite Hc]).
Qed.

(** A command that the client may give, with what it does and the response. *)
Definition responds (Q : crinitRtimCmd → daemon B C → Prop) (r : option crinitRtimCmd) (d : daemon B C) : Prop :=
  ∃ res, r = Some res ∧ args0 res = 0%nat ∧ fits (message_text res) ∧ quiet (dm_db d) ∧ Q res d.

Lemma run_execute cmd creds Q s :
  crinitCheckPerm (op cmd) creds = true → wp (crinitExecRtimCmd cmd) (responds Q) (sv_dm s) →
  ∃ res d, conn_execute cmd creds s = Ret (Some (Some res)) (set_sv_dm d s) ∧ responds Q (Some res) d.
Proof.
  intros Hp Hx. destruct (wp_elim _ _ _ Hx) as (r & d & E & Hr). pose proof Hr as (res & -> & _).
  exists res, d. split; [|done]. unfold conn_execute. rewrite Hp.
  by rewrite (bind_run _ _ s (Some res) (set_sv_dm d s)) by (unfold on_dm; by rewrite E).
Qed.

(** The thread's answer to a command that has arrived. *)
Lemma run_answer me cmd Q s :
  quiet s → sv_conn s = mkConn (frame_of (Some me) (message_text cmd)) [] false false → tp_locked (sv_pool s) = false →
  fits (message_text cmd) → crinitCheckPerm (op cmd) me = true →
  wp (crinitExecRtimCmd (carried cmd)) (responds Q) (sv_dm s) →
  ∃ res s', conn_answer s = Ret tt s' ∧ quiet s' ∧ fits (message_text res) ∧ Q res (sv_dm s') ∧
    sv_conn s' = mkConn [] (frame_of None (message_text res)) false true ∧ sv_pool s' = avail_pool (sv_pool s).
Proof.
  intros Hq Hc Hl Hfit Hp Hx. unfold conn_answer.
  rewrite (bind_run _ _ _ _ _ (run_recvstr me (message_text cmd) s Hq ltac:(by rewrite Hc) Hfit)).
  set (s1 := popped ToServer [] s). erewrite bind_run by (by apply run_parse).
  destruct (run_execute (carried cmd) me Q s1 Hp Hx) as (res & d & E & res0 & [= <-] & H0' & Hfr & Hqd & HQ).
  rewrite (bind_run _ _ _ _ _ E). set (s2 := set_sv_dm d s1).
  rewrite (bind_run (crinitDestroyRtimCmd (carried cmd)) _ s2 0 s2) by done.
  erewrite bind_run by (by apply run_message).
  rewrite (bind_run (crinitDestroyRtimCmd res) _ s2 0 s2) by (unfold crinitDestroyRtimCmd; by rewrite H0').
  assert (sv_conn s2 = mkConn [] [] false false) as Hc2 by (unfold s2, s1, popped; simpl; by rewrite Hc).
  erewrite bind_run by (apply run_sendstr; [done|by rewrite Hc2]).
  set (s3 := pushed ToClient _ s2). set (s4 := set_sv_conn (mkConn (up (sv_conn s3)) (down (sv_conn s3)) (client_closed (sv_conn s3)) true) s3).
  rewrite (bind_run close_conn _ s3 tt s4) by done. cbn [Z.eqb].
  erewrite bind_run by (by apply run_avail). exists res. eexists. split; [done|].
  split_and!; [done|done|done| |done].
  change (sv_conn (set_pool _ s4)) with (sv_conn s4). unfold s4, s3, pushed. simpl. rewrite Hc. done.
Qed.

(** A request and its response end to end.  A client that may give a command
    connects, sends it, and gets the response of the daemon, with its arguments
    split at newlines and the empty ones dropped, as those of the command are
    when it arrives; the daemon is left as the command leaves it, both ends are
    closed and the thread is available again. *)
Lemma xfer_executes me sockFile cmd Q s :
  listening s → (String.length sockFile < 108)%nat → fits (message_text cmd) → crinitCheckPerm (op cmd) me = true →
  wp (crinitExecRtimCmd (carried cmd)) (responds Q) (sv_dm s) →
  wp (crinitXfer me (_ ← conn_accept; mret tt) conn_answer sockFile cmd)
    (λ r s', ∃ res, r = Some (carried res) ∧ Q res (sv_dm s') ∧ sv_conn s' = mkConn [] [] true true ∧
       sv_pool s' = avail_pool (busy_pool (sv_pool s)) ∧ listening s') s.
Proof.
  intros Hs Hlen Hfit Hp Hx. pose proof Hs as [Hq Hl]. unfold crinitXfer. set (s0 := set_sv_conn new_conn s).
  set (s1 := pushed ToClient (frame_of None "RTR") (set_sv_pool (busy_pool (sv_pool s0)) s0)).
  assert ((_ ← conn_accept; mret tt) s0 = Ret tt s1) as Hacc by (by rewrite (bind_run _ _ _ _ _ (run_accept s0 ltac:(done) eq_refl))).
  assert (crinitConnect (_ ← conn_accept; mret tt) sockFile s = Ret 0 (popped ToClient [] s1)) as Hcon.
  { unfold crinitConnect. rewrite bind_fallible by done. rewrite (proj2 (Nat.leb_gt _ _)) by done.
    rewrite bind_fallible by done. rewrite (bind_run (mconn_modify _) _ s tt s0) by done.
    by erewrite bind_run; [|apply (run_wait_rtr _ None); [done|done|exact Hacc|exact Hq|done]]. }
  apply wp_bind. eapply wp_intro; [exact Hcon|]. cbn [Z.eqb]. set (s2 := popped ToClient [] s1).
  assert (sv_conn s2 = mkConn [] [] false false) as Hc2 by done.
  apply wp_bind. eapply wp_intro; [apply run_client_send; [exact Hq|exact (f_equal server_closed Hc2)]|]. cbn [Z.eqb].
  set (s3 := pushed ToServer _ s2).
  assert (sv_conn s3 = mkConn (frame_of (Some me) (message_text cmd)) [] false false) as Hc3.
  { unfold s3, pushed. change (get_conn s2) with (sv_conn s2). by rewrite Hc2. }
  assert (tp_locked (sv_pool s3) = false) as Hl3 by (unfold s3, s2, s1; simpl; unfold busy_pool; by case_match).
  destruct (run_answer me cmd Q s3 Hq Hc3 Hl3 Hfit Hp Hx)
    as (res & s4 & Hans & Hq4 & Hfr & HQ & Hc4 & Hpool).
  apply wp_bind. eapply wp_intro.
  { apply (run_client_recv _ None res); [exact (f_equal down Hc3)|exact (f_equal server_closed Hc3)|exact Hans|exact Hq4|exact (f_equal down Hc4)|done]. }
  apply wp_bind. unfold wp at 1, mconn_modify. apply wp_ret. exists res. simpl. rewrite Hc4. split_and!; [done|done|done|by rewrite Hpool|].
  split; [done|]. simpl. rewrite Hpool. exact Hl3.
Qed.
End Server.

(** A server on the demonstration's daemon; it runs as root, and the process 1
    may reboot. *)
#[export] Instance confd_serv : ServEnv confd := {|
  geteuid := 0;
  capget := λ pid, Some [if pid =? 1 then 2 ^ CAP_SYS_BOOT else 0];
|}.

Definition demo_server (c : connection) : server bare confd :=
  mkServer (demo_daemon [] []) c (mkThreadPool 8 8 8 false 0 true true).

Lemma demo_listening c : listening (demo_server c).
Proof. by split. Qed.
