(* ===== verification/Client.v ===== *)
(** * The client library: src/crinit-client.c

    Every call builds a command, exchanges it for a response over a connection of
    its own, and reads the response. *)

From Stdlib Require Import ZArith Lia Bool List String Ascii.
From stdpp Require Import base list strings.
From S2P Require Import Prelude CString Timer Lexers ConfConv Ini RtimMsg RtimExec SockCom.

Open Scope Z_scope.
Open Scope crinit_scope.

#[local] Arguments String.append : simpl nomatch.

(** ** State of the library *)

Record client_lib := mkLib { crinitNotifyName : string; crinitSockFile : string }.

Definition CRINIT_ENV_NOTIFY_NAME_UNDEF : string := "@undefined".

(** The constructor of the library, given the environment variable. *)
Definition crinitLibInit (envNotifyName : option string) (l : client_lib) : client_lib :=
  mkLib (default CRINIT_ENV_NOTIFY_NAME_UNDEF envNotifyName) (crinitSockFile l).
Definition crinitClientSetNotifyTaskName (taskName : option string) (l : client_lib) : client_lib :=
  mkLib (default (crinitNotifyName l) taskName) (crinitSockFile l).
Definition crinitClientSetSocketPath (sockFile : option string) (l : client_lib) : client_lib :=
  mkLib (crinitNotifyName l) (default (crinitSockFile l) sockFile).

(** ** Reading a response *)

Definition crinitResponseCheck (res : crinitRtimCmd) (resCode : crinitRtimOp) : Z :=
  if negb (bool_decide (op res = resCode)) then -1 else
  match args res with
  | [] => -1
  | r :: _ => if str_eqb r CRINIT_RTIMCMD_RES_OK then 0 else -1
  end.

(** A number at the start of the text, [None] if there is none or errno is
    ERANGE, which it may be from an earlier call ([stale]). *)
Definition read_number (stale : bool) (r : Z * bool * string) (s : string) : option Z :=
  let '(v, erange, rest) := r in
  if Nat.eqb (String.length rest) (String.length s) || erange || stale then None else Some v.
Definition read_ul (stale : bool) (s : string) : option Z := read_number stale (strtoul s 10) s.
Definition read_l (stale : bool) (s : string) : option Z := read_number stale (strtol s 10) s.

(** Seconds, and nanoseconds after the first dot.  Without a dot the pointer
    behind it is not valid. *)
Definition read_time {S} (stale : bool) (s : string) : M S (option timespec) :=
  match read_l stale s with
  | None => mret None
  | Some sec =>
      match str_break "." s with
      | None => mundef
      | Some (_, dec) => mret (mkTimespec sec <$> read_l stale dec)
      end
  end.

(** What crinitClientTaskGetStatus() returns through its pointers. *)
Record task_status := mkStatus {
  ts_state : Z; ts_pid : Z;
  ts_create : timespec; ts_start : timespec; ts_end : timespec;
  ts_gid : Z; ts_uid : Z;
  ts_username : string; ts_groupname : string;
}.

(** crinitTaskListEntry_t: the name and the status. *)
Notation task_entry := (string * task_status)%type.

(** ** Calls *)

Section Calls.
Context {S : Type} `{SockState S}.
Variable me : ucred.
Variables accepts answers : M S unit.
Variable lib : client_lib.
Variable stale : bool.  (* errno is ERANGE before a response is read *)

(** The exchange all calls begin with: the response, [None] if there is none. *)
Definition exchange (o : crinitRtimOp) (l : list string) : M S (option crinitRtimCmd) :=
  cmd ← crinitBuildRtimCmd o l;
  match cmd with
  | None => mret None
  | Some cmd =>
      res ← crinitXfer me accepts answers (crinitSockFile lib) cmd;
      _ ← crinitDestroyRtimCmd cmd;
      mret res
  end.

(** Calls that only return whether the command succeeded. *)
Definition command_call (o r : crinitRtimOp) (l : list string) : M S Z :=
  res ← exchange o l;
  match res with
  | None => mret (-1)
  | Some res => let ret := crinitResponseCheck res r in _ ← crinitDestroyRtimCmd res; mret ret
  end.

Definition sd_notify (state : string) : M S Z :=
  command_call CRINIT_RTIMCMD_C_NOTIFY CRINIT_RTIMCMD_R_NOTIFY [crinitNotifyName lib; state].

(** [stateStr] is the formatted text. *)
Definition sd_notifyf (stateStr : string) : M S Z :=
  oom ← fallible;
  if (oom : bool) then mret (-1) else sd_notify stateStr.

Definition crinitClientTaskAdd (configFilePath : string) (overwrite : bool) (forceDeps : option string) : M S Z :=
  let overwrStr := if overwrite then "true"%string else "false"%string in
  let forceDeps := default "@unchanged"%string forceDeps in
  let forceDeps := if str_eqb forceDeps "" then "@empty"%string else forceDeps in
  command_call CRINIT_RTIMCMD_C_ADDTASK CRINIT_RTIMCMD_R_ADDTASK [configFilePath; overwrStr; forceDeps].

Definition crinitClientSeriesAdd (seriesFilePath : string) (overwriteTasks : bool) : M S Z :=
  command_call CRINIT_RTIMCMD_C_ADDSERIES CRINIT_RTIMCMD_R_ADDSERIES
    [seriesFilePath; if overwriteTasks then "true"%string else "false"%string].

Definition crinitClientTaskEnable (taskName : string) : M S Z :=
  command_call CRINIT_RTIMCMD_C_ENABLE CRINIT_RTIMCMD_R_ENABLE [taskName].
Definition crinitClientTaskDisable (taskName : string) : M S Z :=
  command_call CRINIT_RTIMCMD_C_DISABLE CRINIT_RTIMCMD_R_DISABLE [taskName].
Definition crinitClientTaskStop (taskName : string) : M S Z :=
  command_call CRINIT_RTIMCMD_C_STOP CRINIT_RTIMCMD_R_STOP [taskName].
Definition crinitClientTaskKill (taskName : string) : M S Z :=
  command_call CRINIT_RTIMCMD_C_KILL CRINIT_RTIMCMD_R_KILL [taskName].
Definition crinitClientTaskRestart (taskName : string) : M S Z :=
  command_call CRINIT_RTIMCMD_C_RESTART CRINIT_RTIMCMD_R_RESTART [taskName].

(** The number is printed into a buffer for one character. *)
Definition crinitClientShutdown (sCmd : Z) : M S Z :=
  command_call CRINIT_RTIMCMD_C_SHUTDOWN CRINIT_RTIMCMD_R_SHUTDOWN [str_take 1 (print_dec sCmd)].

(** The values of a response to STATUS, with a pointer for each of them. *)
Definition read_status (l : list string) : M S (option task_status) :=
  match l with
  | [_; s; pid; ct; st; et; uid; gid; username; groupname] =>
      match read_ul stale s, read_l stale pid with
      | Some s, Some pid =>
          ct ← read_time stale ct;
          match ct with None => mret None | Some ct =>
          st ← read_time stale st;
          match st with None => mret None | Some st =>
          et ← read_time stale et;
          match et with None => mret None | Some et =>
          match read_ul stale uid, read_ul stale gid with
          | Some uid, Some gid =>
              oom ← fallible;
              if (oom : bool) then mret None else
              oom ← fallible;
              if (oom : bool) then mret None else
              mret (Some (mkStatus s (int32 pid) ct st et (uint32 gid) (uint32 uid) username groupname))
          | _, _ => mret None
          end end end end
      | _, _ => mret None
      end
  | _ => mret None
  end.

Definition crinitClientTaskGetStatus (taskName : string) : M S (option task_status) :=
  res ← exchange CRINIT_RTIMCMD_C_STATUS [taskName];
  match res with
  | None => mret None
  | Some res =>
      st ← (if crinitResponseCheck res CRINIT_RTIMCMD_R_STATUS =? 0 then read_status (args res) else mret None);
      _ ← crinitDestroyRtimCmd res;
      mret st
  end.

(** The loop over the names: the entries, [None] if one of the queries failed. *)
Fixpoint list_entries (names : list string) : M S (option (list task_entry)) :=
  match names with
  | [] => mret (Some [])
  | name :: names =>
      st ← crinitClientTaskGetStatus name;
      match st with
      | None => mret None
      | Some st =>
          oom ← fallible;
          if (oom : bool) then mret None else
          l ← list_entries names;
          mret (cons (name, st) <$> l)
      end
  end.

Definition crinitClientGetTaskList : M S (option (list task_entry)) :=
  res ← exchange CRINIT_RTIMCMD_C_TASKLIST [];
  match res with
  | None => mret None
  | Some res =>
      if crinitResponseCheck res CRINIT_RTIMCMD_R_TASKLIST =? -1 then _ ← crinitDestroyRtimCmd res; mret None else
      oom ← fallible;
      if (oom : bool) then _ ← crinitDestroyRtimCmd res; mret None else
      oom ← fallible;
      l ← (if (oom : bool) then mret None else list_entries (tail (args res)));
      _ ← crinitDestroyRtimCmd res;
      mret l
  end.

(** The part of a version in the response. *)
Definition read_u8 (s : string) : option Z :=
  let '(v, _, rest) := strtoul s 10 in
  if Nat.eqb (String.length rest) (String.length s) then None else Some (uint8 v).

Definition CRINIT_GIT_HASH_MAX_LEN : nat := 40.

Definition read_version (l : list string) : option crinitVersion :=
  match l with
  | _ :: major :: minor :: micro :: git =>
      match git with
      | [] | [_] =>
          major ← read_u8 major; minor ← read_u8 minor; micro ← read_u8 micro;
          Some (mkVersion major minor micro (str_take CRINIT_GIT_HASH_MAX_LEN (default EmptyString (head git))))
      | _ => None
      end
  | _ => None
  end.

Definition crinitClientGetVersion : M S (option crinitVersion) :=
  res ← exchange CRINIT_RTIMCMD_C_GETVER [];
  match res with
  | None => mret None
  | Some res =>
      let v := if crinitResponseCheck res CRINIT_RTIMCMD_R_GETVER =? 0 then read_version (args res) else None in
      _ ← crinitDestroyRtimCmd res;
      mret v
  end.
End Calls.
