(* ===== verification/ClientProps.v ===== *)
(** * What the calls of the client library return *)

From Stdlib Require Import ZArith Lia Bool List String Ascii.
From stdpp Require Import base list strings gmap.
From S2P Require Import Prelude CString EnvSet Timer Task TaskDB TaskDBSpec TaskDBProps TimerDB Lexers ConfConv Ini.
From S2P Require Import GlobOpt Cgroup GlobOptProps ConfParse ConfTask ConfTaskProps ConfGlob ConfGlobProps FSeries.
From S2P Require Import RtimMsg RtimExec RtimProps RtimCtl ThrPool SockCom NotiServ NotiProps Client.

Open Scope Z_scope.
Open Scope crinit_scope.

#[local] Arguments String.append : simpl nomatch.

(** ** Numbers are read as they were printed *)

(** Text behind a number. *)
Definition not_digit (s : string) : Prop := match s with String c _ => is_digit c = false | EmptyString => True end.

Lemma dec_go_app fuel n acc : dec_go fuel n acc = (dec_go fuel n EmptyString +:+ acc)%string.
Proof.
  revert n acc. induction fuel as [|fuel IH]; intros n acc; [done|]. cbn [dec_go]. case_if; [done|].
  rewrite IH, (IH _ (String (dec_digit (n mod 10)) EmptyString)), string_app_assoc. done.
Qed.

Lemma digits_stop s v : not_digit s → digits 10 s v = (v, s).
Proof.
  destruct s as [|c s]; [done|]. simpl. intros Hc. unfold digit_val. rewrite Hc.
  destruct c as [[] [] [] [] [] [] [] []]; vm_compute in Hc; try done; vm_compute; reflexivity.
Qed.

Lemma strto_pos_tail n r :
  0 ≤ n → not_digit r → strto_number (dec_go (Datatypes.S (Z.to_nat (Z.log2 n))) n r) 10 = Some (n, r).
Proof.
  intros Hn Hr. destruct (dec_go_head (Z.to_nat (Z.log2 n)) n r Hn) as (c & t & E & Hv & Hd).
  destruct (digits_dec_go (Datatypes.S (Z.to_nat (Z.log2 n))) n r 0) as [k Hk].
  { split; [done|]. rewrite Nat2Z.inj_succ, Z2Nat.id by apply Z.log2_nonneg.
    destruct (decide (n = 0)) as [->|]; [done|]. apply Z.log2_spec. lia. }
  rewrite E in *. rewrite strto_digit by done. rewrite (proj2 (Z.ltb_lt _ _)) by lia.
  rewrite Hk, digits_stop by done. repeat f_equal. lia.
Qed.

Lemma strto_print_tail n r : not_digit r → strto_number (print_dec n +:+ r)%string 10 = Some (n, r).
Proof.
  intros Hr. unfold print_dec. destruct (Z.ltb_spec n 0) as [Hneg|Hpos]; [|rewrite <- dec_go_app; by apply strto_pos_tail].
  cbn [String.append]. rewrite <- dec_go_app. pose proof (strto_pos_tail (- n) r ltac:(lia) Hr) as Hp.
  destruct (dec_go_head (Z.to_nat (Z.log2 (- n))) (- n) r ltac:(lia)) as (c & t & E & Hv & Hd).
  rewrite E in *. rewrite strto_digit in Hp by done. rewrite (proj2 (Z.ltb_lt _ _)) in Hp by lia.
  rewrite strto_minus, (proj2 (Z.ltb_lt _ _)) by lia.
  destruct (digits 10 (String c t) 0) as [v t']. simplify_eq. repeat f_equal; lia.
Qed.

Notation zeros k := (String.concat EmptyString (replicate k "0"%string)).

Lemma zeros_succ k : zeros (Datatypes.S k) = String "0" (zeros k).
Proof. by destruct k. Qed.

Lemma strto_zeros k s c r :
  s = String c r → is_digit c = true → strto_number (zeros k +:+ s)%string 10 = strto_number s 10.
Proof.
  intros -> Hc. destruct k as [|k]; [done|]. rewrite zeros_succ. cbn [String.append].
  rewrite !strto_digit by done. replace (digit_val "0" <? 10) with true by done.
  assert (digit_val c <? 10 = true) as -> by (revert Hc; by destruct c as [[] [] [] [] [] [] [] []]).
  assert (∀ t, digits 10 (String "0" t) 0 = digits 10 t 0) as H0 by done. rewrite H0.
  assert (∀ k t, digits 10 (zeros k +:+ t)%string 0 = digits 10 t 0) as Hz.
  { intros j t. induction j as [|j IH]; [done|]. rewrite zeros_succ. cbn [String.append]. by rewrite H0. }
  by rewrite Hz.
Qed.

Lemma strto_nsec n : 0 ≤ n → strto_number (pad_nsec n) 10 = Some (n, EmptyString).
Proof.
  intros Hn. unfold pad_nsec. rewrite Z.abs_eq by done. destruct (Z.ltb_spec n 0); [lia|]. cbn [String.append].
  destruct (dec_go_head (Z.to_nat (Z.log2 n)) n EmptyString Hn) as (c & r & E & _ & Hd).
  assert (print_dec n = String c r) as Ep by (unfold print_dec; by rewrite (proj2 (Z.ltb_ge _ _))).
  rewrite (strto_zeros _ _ c r) by done. apply strto_print.
Qed.

(** A number that was read, and something was read. *)
Lemma read_l_text s n r :
  strto_number s 10 = Some (n, r) → String.length r ≠ String.length s → LONG_MIN ≤ n ≤ LONG_MAX → read_l false s = Some n.
Proof.
  intros E Hr Hn. unfold read_l, strtol. rewrite E. rewrite (proj2 (Z.ltb_ge _ _)), (proj2 (Z.ltb_ge _ _)) by lia.
  unfold read_number. by rewrite (proj2 (Nat.eqb_neq _ _)).
Qed.

Lemma read_ul_print n : Z.abs n ≤ ULONG_MAX → read_ul false (print_dec n) = Some (uint64 n).
Proof.
  intros Hn. unfold read_ul, strtoul. rewrite strto_print. rewrite (proj2 (Z.ltb_ge _ _)) by lia. unfold read_number.
  destruct (print_dec_cons n) as (c & r & ->). done.
Qed.

Lemma read_l_print n : LONG_MIN ≤ n ≤ LONG_MAX → read_l false (print_dec n) = Some n.
Proof.
  intros Hn. apply (read_l_text _ _ EmptyString); [apply strto_print| |done]. by destruct (print_dec_cons n) as (c & r & ->).
Qed.

Definition valid_time (t : timespec) : Prop := LONG_MIN ≤ tv_sec t ≤ LONG_MAX ∧ 0 ≤ tv_nsec t < 1000000000.

Lemma pad_nsec_cons n : 0 ≤ n → ∃ c r, pad_nsec n = String c r.
Proof. intros Hn. pose proof (strto_nsec n Hn). destruct (pad_nsec n) eqn:E; [done|eauto]. Qed.

Lemma read_time_print {S} t : valid_time t → read_time (S := S) false (print_timespec t) = mret (Some t).
Proof.
  intros [Hs Hn]. unfold read_time, print_timespec.
  rewrite (read_l_text _ (tv_sec t) ("." +:+ pad_nsec (tv_nsec t))%string); [|by apply strto_print_tail| |done].
  2:{ destruct (print_dec_cons (tv_sec t)) as (c & r & ->). rewrite !string_length_app. simpl. lia. }
  change ("." +:+ pad_nsec (tv_nsec t))%string with (String "." (pad_nsec (tv_nsec t))).
  rewrite (str_break_app "." (print_dec (tv_sec t)) (pad_nsec (tv_nsec t))) by (apply lacks_print; reflexivity).
  rewrite (read_l_text _ (tv_nsec t) EmptyString); [by destruct t|apply strto_nsec; lia| |unfold LONG_MIN, LONG_MAX; lia].
  by destruct (pad_nsec_cons (tv_nsec t) ltac:(lia)) as (c & r & ->).
Qed.

(** ** Queries *)

#[local] Arguments cut_lines : simpl never.

Definition user_of (t : crinitTask) : string := default "root"%string (t_username t).
Definition group_of (t : crinitTask) : string := default "root"%string (t_groupname t).
Definition status_response (t : crinitTask) : crinitRtimCmd :=
  command CRINIT_RTIMCMD_R_STATUS (CRINIT_RTIMCMD_RES_OK :: status_numbers t ++ [user_of t; group_of t]).

Section Queries.
Context {B C : Type} `{TaskDBServices B} `{!Faulty C, !OptState C, !ConfFiles C, !TimerState C, !ConfEnv C, !SeriesEnv C}.
Context `{!DirEnv C, !RtimEnv C, !ServEnv C}.
Implicit Types d : daemon B C.

(** Nothing that a command can change was changed. *)
Record kept d d' : Prop := {
  kp_rest : at_rest d → at_rest d';
  kp_db : get_db (dm_db d') = get_db (dm_db d);
  kp_conf : dm_conf d' = dm_conf d;
  kp_wait : dm_wait d' = dm_wait d;
  kp_trace : dm_trace d' = dm_trace d;
}.

Lemma kept_refl d : kept d d.
Proof. by split. Qed.

Lemma kept_same d b : get_db b = get_db (dm_db d) → frame (dm_db d) b → kept d (set_dm_db b d).
Proof. intros Hdb Hf. split; try done. intros Hd. by apply rest_same. Qed.

(** The response to a query, with a text if it is refused. *)
Lemma status_spec name d :
  at_rest d →
  wp (crinitExecRtimCmd (command CRINIT_RTIMCMD_C_STATUS [name]))
    (λ r d', kept d d' ∧
       match tasks_of d !! name with
       | None => r = failure CRINIT_RTIMCMD_R_STATUS "Could not get access to requested task in TaskDB."
       | Some t => ∃ l, r = Some (command CRINIT_RTIMCMD_R_STATUS l) ∧ (one_line (user_of t) → r = Some (status_response t))
       end) d.
Proof.
  intros Hd. pose proof Hd as [Hst _ Hq]. unfold crinitExecRtimCmd, crinitExecRtimCmdStatus. cbn [op args command].
  apply wp_bind, wp_on_db. eapply wp_mono; [|by apply borrow_spec].
  intros [p|] b (Hf & Hr); unfold tasks_of.
  2:{ destruct Hr as [-> Hdb]. apply wp_rest_respond; [by apply Hf|]. split; [by apply kept_same|done]. }
  destruct Hr as (t & -> & Hdb & Hp). assert (quiet b) as Hqb by (by apply Hf).
  apply wp_bind, wp_on_db. apply (wp_intro _ _ _ t b); [done|]. simpl.
  unfold dup_name. do 2 (apply wp_bind, wp_bind, wp_on_db; apply wp_fallible_quiet; [done|]; apply wp_ret).
  apply wp_bind, wp_on_db, wp_bind, wp_unlock; [simpl; by rewrite Hdb|]. intros b2 Hf2 Hdb2. simpl in Hf2, Hdb2.
  rewrite Hdb, unlock_lock in Hdb2 by apply Hst. apply wp_ret. assert (quiet b2) as Hq2 by (by apply Hf2).
  apply wp_bind, wp_rest_fallible; [done|]. fold (user_of t) (group_of t).
  destruct (status_cut t (user_of t) (group_of t)) as (u & g & -> & Hu). apply wp_rest_respond; [done|].
  split; [apply (kept_same d b2); [done|by etrans]|]. eexists. split; [done|].
  intros Hone. destruct (Hu Hone) as [-> ->]. done.
Qed.
End Queries.

(** Every line of a status is sent as it is. *)
Lemma status_sendable t :
  valid_time (t_createTime t) → valid_time (t_startTime t) → valid_time (t_endTime t) →
  sendable (user_of t) → sendable (group_of t) → Forall sendable (args (status_response t)).
Proof.
  intros Hc Hs He Hu Hg. assert (∀ n, sendable (print_dec n)) as Hp.
  { intros n. split; [by destruct (print_dec_cons n) as (c & r & ->)|]. by apply (lacks_print c_newline). }
  assert (∀ x, sendable (print_timespec x)) as Ht.
  { intros x. split; [|by apply (lacks_timespec c_newline)]. unfold print_timespec.
    by destruct (print_dec_cons (tv_sec x)) as (c & r & ->). }
  unfold status_response, status_numbers. cbn [args command app]. by repeat (apply Forall_cons; split).
Qed.

(** ** Calls *)

(** Arguments that reach the daemon as they are. *)
Lemma carried_sendable o l : Forall sendable l → carried (command o l) = command o l.
Proof. intros Hl. unfold carried, command. simpl. by rewrite tokens_sendable. Qed.

Section Calls.
Context {B C : Type} `{TaskDBServices B} `{!Faulty C, !OptState C, !ConfFiles C, !TimerState C, !ConfEnv C, !SeriesEnv C}.
Context `{!DirEnv C, !RtimEnv C, !ServEnv C}.
Implicit Types s : server B C.

(** The server, as the client sees it. *)
Notation accepting := (_ ← conn_accept; mret tt).

(** The daemon between two requests, and a client that can reach it. *)
Record reachable me lib (o : crinitRtimOp) (l : list string) s : Prop := {
  rc_listening : listening s;
  rc_rest : at_rest (sv_dm s);
  rc_path : (String.length (crinitSockFile lib) < 108)%nat;
  rc_args : Forall sendable l;
  rc_fits : fits (message_text (command o l));
  rc_perm : crinitCheckPerm o me = true;
}.

Lemma exchange_spec me lib o l Q s :
  reachable me lib o l s → wp (crinitExecRtimCmd (command o l)) (responds Q) (sv_dm s) →
  wp (exchange me accepting conn_answer lib o l) (λ r s', ∃ res, r = Some (carried res) ∧ Q res (sv_dm s') ∧ quiet s') s.
Proof.
  intros [Hs Hd Hp Hl Hfit Hperm] Hx. unfold exchange, crinitBuildRtimCmd. pose proof (li_quiet _ Hs) as Hq.
  apply wp_bind. do 2 (apply wp_bind, wp_fallible_quiet; [done|]). apply wp_ret.
  apply wp_bind. eapply wp_mono; [|apply (xfer_executes _ _ (command o l) Q); [done|done|done|done|by rewrite carried_sendable]].
  intros r s' (res & -> & HQ & _ & _ & Hs'). apply wp_bind, wp_ret, wp_ret. exists res. split_and!; [done|done|apply Hs'].
Qed.

Lemma command_call_spec me lib o rop l Q s :
  reachable me lib o l s → wp (crinitExecRtimCmd (command o l)) (responds Q) (sv_dm s) →
  wp (command_call me accepting conn_answer lib o rop l)
    (λ r s', ∃ res, r = crinitResponseCheck (carried res) rop ∧ Q res (sv_dm s')) s.
Proof.
  intros Hs Hx. unfold command_call. apply wp_bind. eapply wp_mono; [|by eapply exchange_spec].
  intros r s' (res & -> & HQ & _). apply wp_bind, wp_ret, wp_ret. eauto.
Qed.

Lemma fits_answer o l :
  Forall (λ a, no_nul a = true) l → bytes (message_text (command o l)) + 1 <? 2 ^ 64 = true → fits (message_text (command o l)).
Proof. intros Hl Hb%Z.ltb_lt. split; [by apply message_no_nul|done]. Qed.

(** crinitClientTaskKill() of the daemon's user, end to end: it returns 0
    exactly if there is a process registered for the task, and then SIGKILL was
    sent to this process and to nothing else; no task changes. *)
Theorem crinitClientTaskKill_exact me lib name s :
  reachable me lib CRINIT_RTIMCMD_C_KILL [name] s →
  wp (crinitClientTaskKill me accepting conn_answer lib name)
    (λ r s', tasks_of (sv_dm s') = tasks_of (sv_dm s) ∧
       match tasks_of (sv_dm s) !! name with
       | Some t => if 0 <? t_pid t then r = 0 ∧ did (sv_dm s) (sv_dm s') [SysKill (t_pid t) SIGKILL]
                   else r = -1 ∧ did (sv_dm s) (sv_dm s') []
       | None => r = -1 ∧ did (sv_dm s) (sv_dm s') []
       end) s.
Proof.
  intros Hs. eapply wp_mono; [|apply (command_call_spec _ _ _ _ _
    (λ res d, tasks_of d = tasks_of (sv_dm s) ∧
       let '(r, events, _) := kill_outcome (tasks_of (sv_dm s) !! name) in r = Some res ∧ did (sv_dm s) d events)); [done|]].
  - intros r s' (res & -> & Hm & Hr). split; [done|]. destruct (tasks_of (sv_dm s) !! name) as [t|]; simpl in Hr.
    + destruct (Z.leb_spec (t_pid t) 0), (Z.ltb_spec 0 (t_pid t)); try lia; destruct Hr as [[= <-] Hd]; by split.
    + destruct Hr as [[= <-] Hd]; by split.
  - eapply wp_mono; [|apply kill_spec, Hs]. intros r d (Hd & Hdb & Hr).
    assert (tasks_of d = tasks_of (sv_dm s)) as Hm by (unfold tasks_of; by rewrite Hdb).
    assert (∃ res, r = Some res ∧ args0 res = 0%nat ∧ fits (message_text res)) as (res & Hres & H0' & Hfit).
    { destruct (tasks_of (sv_dm s) !! name) as [t|]; simpl in Hr; [destruct (t_pid t <=? 0)|]; destruct Hr as [-> _];
        (eexists; split_and!; [reflexivity|done|apply fits_answer; [by repeat constructor|vm_compute; reflexivity]]). }
    exists res. split_and!; [done|done|done|apply Hd|done|].
    destruct (kill_outcome _) as [[r' events] waits]. destruct Hr as (-> & Hdid & _). by rewrite Hres.
Qed.

(** What the client gets for a task. *)
Definition status_of (t : crinitTask) : task_status :=
  mkStatus (t_state t) (t_pid t) (t_createTime t) (t_startTime t) (t_endTime t) (t_group t) (t_user t) (user_of t) (group_of t).

(** The values of a task that fit into their C types, with names on one line. *)
Record printable (t : crinitTask) : Prop := {
  pr_state : 0 ≤ t_state t ≤ ULONG_MAX;
  pr_pid : INT_MIN ≤ t_pid t ≤ INT_MAX;
  pr_create : valid_time (t_createTime t);
  pr_start : valid_time (t_startTime t);
  pr_end : valid_time (t_endTime t);
  pr_uid : 0 ≤ t_user t < 2 ^ 32;
  pr_gid : 0 ≤ t_group t < 2 ^ 32;
  pr_user : sendable (user_of t);
  pr_group : sendable (group_of t);
  pr_fits : fits (message_text (status_response t));
}.

Lemma read_status_of t s :
  printable t → quiet s → read_status false (args (status_response t)) s = Ret (Some (status_of t)) s.
Proof.
  intros [Hst Hpid Hc Hs He Hu Hg _ _ _] Hq. unfold status_response, status_numbers. cbn [args command app]. unfold read_status.
  assert (uint64 (t_state t) = t_state t) as Est by (unfold uint64, ULONG_MAX in *; apply Z.mod_small; lia).
  assert (int32 (t_pid t) = t_pid t) as Epid.
  { unfold int32, INT_MIN, INT_MAX in *. rewrite Z.mod_small; lia. }
  destruct (id_roundtrip _ Hu) as [Hu1 Hu2], (id_roundtrip _ Hg) as [Hg1 Hg2].
  rewrite Est, Epid, !read_ul_print, read_l_print by (unfold LONG_MIN, LONG_MAX, INT_MIN, INT_MAX in *; lia).
  rewrite !read_time_print by done.
  do 3 (erewrite bind_run by done; cbv beta iota). do 2 (rewrite bind_fallible by done; cbv beta iota).
  rewrite Est, Epid, Hu2, Hg2. done.
Qed.

(** The status of a task reaches any client as it is in the database: state,
    process, times, user and group.  For a task that is not known the call
    fails.  Nothing changes. *)
Theorem crinitClientTaskGetStatus_exact me lib name s :
  reachable me lib CRINIT_RTIMCMD_C_STATUS [name] s →
  (∀ t, tasks_of (sv_dm s) !! name = Some t → printable t) →
  wp (crinitClientTaskGetStatus me accepting conn_answer lib false name)
    (λ r s', r = status_of <$> tasks_of (sv_dm s) !! name ∧ kept (sv_dm s) (sv_dm s')) s.
Proof.
  intros Hs Ht. unfold crinitClientTaskGetStatus. apply wp_bind.
  eapply wp_mono; [|apply (exchange_spec _ _ _ _ (λ res d, kept (sv_dm s) d ∧
    match tasks_of (sv_dm s) !! name with
    | None => Some res = failure CRINIT_RTIMCMD_R_STATUS "Could not get access to requested task in TaskDB."
    | Some t => res = status_response t
    end)); [done|]].
  - intros r s' (res & -> & [Hk Hr] & Hq). destruct (tasks_of (sv_dm s) !! name) as [t|] eqn:E.
    + subst res. pose proof (Ht t eq_refl) as Hpr.
      assert (carried (status_response t) = status_response t) as ->.
      { apply (carried_sendable CRINIT_RTIMCMD_R_STATUS (args (status_response t))). apply status_sendable; apply Hpr. }
      apply wp_bind. replace (crinitResponseCheck _ _) with 0 by reflexivity. cbn [Z.eqb].
      eapply wp_intro; [by apply read_status_of|]. by apply wp_bind, wp_ret, wp_ret.
    + injection Hr as ->. apply wp_bind. by apply wp_ret, wp_bind, wp_ret, wp_ret.
  - eapply wp_mono; [|apply status_spec, Hs]. intros r d [Hk Hr].
    assert (quiet (dm_db d)) as Hq by apply (kp_rest _ _ Hk), Hs.
    destruct (tasks_of (sv_dm s) !! name) as [t|].
    + pose proof (Ht t eq_refl) as Hpr. destruct Hr as (l & _ & Hr). exists (status_response t).
      rewrite Hr by apply Hpr. split_and!; try done. apply Hpr.
    + rewrite Hr. eexists. split_and!; [reflexivity|done| |done|done|done].
      apply fits_answer; [by repeat constructor|vm_compute; reflexivity].
Qed.
End Calls.

(** root asks for the task fs, whose process is 42. *)
Definition demo_root : ucred := mkUcred 99 0 0.

Lemma demo_reachable o :
  crinitCheckPerm (C := confd) o demo_root = true →
  reachable demo_root (mkLib "fs" "/run/crinit.sock") o ["fs"%string] (demo_server new_conn).
Proof.
  intros Hp. split; [apply demo_listening|apply demo_at_rest|simpl; lia|by repeat constructor| |done].
  apply fits_answer; [by repeat constructor|]. destruct o; vm_compute; reflexivity.
Qed.

Lemma crinitClientTaskKill_exact_witness :
  wp (crinitClientTaskKill demo_root (_ ← conn_accept; mret tt) conn_answer (mkLib "fs" "/run/crinit.sock") "fs")
    (λ r s', r = 0 ∧ did (demo_daemon [] []) (sv_dm s') [SysKill 42 SIGKILL]) (demo_server new_conn).
Proof.
  eapply wp_mono; [|apply (crinitClientTaskKill_exact demo_root _ "fs" (demo_server new_conn)), demo_reachable; reflexivity].
  intros r s' [_ Hr]. cbn [sv_dm demo_server] in Hr.
  replace (tasks_of (demo_daemon [] []) !! "fs"%string) with (Some demo_run) in Hr by (vm_compute; reflexivity). exact Hr.
Defined.

Lemma demo_printable t : tasks_of (demo_daemon [] []) !! "fs"%string = Some t → printable t.
Proof.
  replace (tasks_of (demo_daemon [] []) !! "fs"%string) with (Some demo_run) by (vm_compute; reflexivity). intros [= <-].
  split; try (by vm_compute; split; discriminate); try by vm_compute.
Qed.

Lemma crinitClientTaskGetStatus_exact_witness :
  wp (crinitClientTaskGetStatus demo_root (_ ← conn_accept; mret tt) conn_answer
        (mkLib "fs" "/run/crinit.sock") false "fs")
    (λ r s', r = Some (status_of demo_run) ∧ kept (demo_daemon [] []) (sv_dm s')) (demo_server new_conn).
Proof.
  eapply wp_mono; [|apply (crinitClientTaskGetStatus_exact demo_root _ "fs" (demo_server new_conn));
    [by apply demo_reachable|exact demo_printable]].
  intros r s' [-> Hk]. split; [|exact Hk]. vm_compute. reflexivity.
Defined.
