(* ===== verification/ServGuard.v ===== *)
(** * Clients without privileges *)

From Stdlib Require Import ZArith Lia Bool List String Ascii.
From stdpp Require Import base list strings gmap.
From S2P Require Import Prelude CString EnvSet Timer Task TaskDB TaskDBSpec TaskDBProps TimerDB Lexers ConfConv Ini.
From S2P Require Import GlobOpt Cgroup GlobOptProps ConfParse ConfTask ConfTaskProps ConfGlob ConfGlobProps FSeries.
From S2P Require Import RtimMsg RtimExec RtimProps RtimCtl ThrPool SockCom NotiServ NotiProps Client ClientProps.

Open Scope Z_scope.
Open Scope crinit_scope.

(** ** Safety: nothing undefined happens, and what is returned is right; the
    computation may wait *)

Definition safe {S A} (m : M S A) (Q : A → S → Prop) (s : S) : Prop :=
  match m s with Ret a s' => Q a s' | Block => True | Undef => False end.

Section Safe.
Context {S : Type}.

Lemma safe_wp {A} (m : M S A) Q s : wp m Q s → safe m Q s.
Proof. unfold wp, safe. by destruct (m s). Qed.

Lemma safe_ret {A} (a : A) (Q : A → S → Prop) s : Q a s → safe (mret a) Q s.
Proof. done. Qed.

Lemma safe_bind {A B} (m : M S A) (k : A → M S B) Q s : safe m (λ a s', safe (k a) Q s') s → safe (m ≫= k) Q s.
Proof. unfold safe, mbind, M_bind. by destruct (m s). Qed.

Lemma safe_mono {A} (m : M S A) (P Q : A → S → Prop) s : (∀ a s', P a s' → Q a s') → safe m P s → safe m Q s.
Proof. unfold safe. destruct (m s); auto. Qed.
End Safe.

(** ** Queries change nothing *)

Section Guard.
Context {B C : Type} `{TaskDBServices B} `{!Faulty C, !OptState C, !ConfFiles C, !TimerState C, !ConfEnv C, !SeriesEnv C}.
Context `{!DirEnv C, !RtimEnv C, !ServEnv C}.
Implicit Types s : server B C.
Implicit Types d : daemon B C.

Definition is_query (o : crinitRtimOp) : bool :=
  match o with CRINIT_RTIMCMD_C_STATUS | CRINIT_RTIMCMD_C_TASKLIST | CRINIT_RTIMCMD_C_GETVER => true | _ => false end.

(** Answered, with nothing changed. *)
Definition answered d (r : option crinitRtimCmd) d' : Prop := kept d d' ∧ ∃ o l, r = Some (command o l).

Lemma answered_respond o l d b :
  at_rest d → get_db b = get_db (dm_db d) → frame (dm_db d) b → wp (respond o l) (answered d) (set_dm_db b d).
Proof.
  intros Hd Hdb Hf. apply wp_rest_respond; [by apply Hf, Hd|]. split; [by apply kept_same|eauto].
Qed.

Lemma tasklist_kept cmd d : at_rest d → wp (crinitExecRtimCmdTaskList cmd) (answered d) d.
Proof.
  intros Hd. unfold crinitExecRtimCmdTaskList. destruct (args cmd) as [|a l].
  2:{ apply wp_rest_respond; [apply Hd|]. split; [apply kept_refl|unfold command; eauto]. }
  apply wp_bind, wp_on_db. eapply wp_mono; [|apply wp_export_names, Hd]. intros r b (Hf & Hdb & Hr). simpl in Hr.
  destruct Hr as [->|[Hnq _]]; [|by destruct Hnq; apply Hd].
  apply wp_bind, wp_rest_fallible; [by apply Hf, Hd|]. by apply answered_respond.
Qed.

Lemma query_kept cmd d : at_rest d → is_query (op cmd) = true → wp (crinitExecRtimCmd cmd) (answered d) d.
Proof.
  intros Hd Hop. assert (∀ o l, wp (respond o l) (answered d) d) as Hr.
  { intros o l. apply wp_rest_respond; [apply Hd|]. split; [apply kept_refl|unfold command; eauto]. }
  unfold crinitExecRtimCmd. destruct cmd as [o l a0]. simpl in Hop |- *. destruct o; try done.
  - unfold crinitExecRtimCmdStatus. cbn [args]. destruct l as [|name [|]]; [apply Hr| |apply Hr].
    eapply wp_mono; [|by apply (status_spec name)]. intros r d' [Hk Hres]. split; [done|]. unfold failure in Hres.
    destruct (tasks_of d !! name); [destruct Hres as (l & -> & _)|]; eauto.
  - by apply tasklist_kept.
  - unfold crinitExecRtimCmdGetVer. cbn [args]. destruct l; apply Hr.
Qed.

(** ** The guard *)

(** Another user than the daemon's, without the capability to reboot. *)
Record unprivileged (c : ucred) : Prop := {
  un_uid : cr_uid c ≠ geteuid;
  un_boot : ∀ l w, capget (cr_pid c) = Some l → l !! 0%nat = Some w → Z.testbit w CAP_SYS_BOOT = false;
}.

Lemma unprivileged_queries o c : unprivileged c → crinitCheckPerm o c = true → is_query o = true.
Proof.
  intros [Hu Hb]. destruct o; try done; try (by intros ?%Z.eqb_eq). unfold crinitCheckPerm.
  destruct (capget (cr_pid c)) as [l|] eqn:E; [|done]. change (Z.to_nat (CAP_SYS_BOOT / 32)) with 0%nat.
  change (CAP_SYS_BOOT mod 32) with CAP_SYS_BOOT. destruct (l !! 0%nat) as [w|] eqn:Ew; [|done]. by rewrite (Hb l w).
Qed.

(** A server at rest: what is left of the daemon when it has answered. *)
Record resting s : Prop := {
  rs_rest : at_rest (sv_dm s);
  rs_pool : tp_locked (sv_pool s) = false;
}.

(** A step that only touches the connection. *)
Definition same_dm s s' : Prop := sv_dm s' = sv_dm s ∧ sv_pool s' = sv_pool s.

Lemma same_resting s s' : resting s → same_dm s s' → resting s'.
Proof. intros [Hr Hp] [E1 E2]. split; congruence. Qed.

Lemma recv_safe n s :
  resting s →
  safe (recv_client n) (λ r s', same_dm s s' ∧ (∀ p, p ∈ up (sv_conn s') → p ∈ up (sv_conn s)) ∧
    ∃ p, r = Some p ∧ (p = mkPacket EmptyString None ∨
      ∃ q, q ∈ up (sv_conn s) ∧ p = mkPacket (take_bytes n (p_data q)) (p_creds q))) s.
Proof.
  intros Hs. pose proof (rest_quiet _ (rs_rest _ Hs)) as Hq. unfold recv_client, safe.
  destruct (up (sv_conn s)) as [|p q] eqn:E.
  - unfold sock_recv. rewrite (bind_run mconn _ s (sv_conn s) s) by done. cbn [queue]. rewrite E.
    assert ((if sender_gone ToServer (sv_conn s) then mret tt else mret tt : M _ unit) s = Ret tt s) as E1 by (by case_match).
    rewrite (bind_run _ _ _ _ _ E1). rewrite bind_fallible by done. cbv beta iota.
    rewrite (bind_run mconn _ s (sv_conn s) s) by done. cbn [queue]. rewrite E. simpl.
    destruct (client_closed (sv_conn s)); simpl; [|done]. split_and!; [done| |eauto]. by rewrite E.
  - erewrite run_recv; [|exact Hq|exact E]. split_and!; [done| |].
    + intros x Hx. simpl in Hx. by apply list_elem_of_further.
    + eexists. split; [done|right]. exists p. split; [apply list_elem_of_here|done].
Qed.

(** No packet announces a message of length 0. *)
Definition lengths_ok (l : list packet) : Prop :=
  Forall (λ p, le_value (take_bytes (Z.of_nat sizeof_size_t) (p_data p)) ≠ 0) l.

Lemma recvstr_safe s :
  resting s → lengths_ok (up (sv_conn s)) →
  safe crinitRecvStr (λ r s', same_dm s s' ∧
    ∀ msg c, r = Some (msg, c) → ∃ p, p ∈ up (sv_conn s) ∧ p_creds p = Some c) s.
Proof.
  intros Hs Hl. unfold crinitRecvStr. apply safe_bind. eapply safe_mono; [|by apply recv_safe].
  intros r s1 (Hs1 & Hsub & p & -> & Hp). assert (∀ (b : bool) (m : M (server B C) (option (string * ucred))) Q,
    (b = false → safe m Q s1) → Q None s1 → safe (if b then mret None else m) Q s1) as Hif by (intros []; auto).
  apply Hif; [|by split]. intros Hlen. destruct Hp as [->|(q & Hq & ->)]; [done|]. clear Hif Hlen. cbn [p_data p_creds].
  destruct (p_creds q) as [c0|] eqn:Ec; [|by apply safe_ret]. apply safe_bind, safe_wp, wp_fallible_quiet.
  { destruct Hs1 as [E _]. unfold quiet. simpl. rewrite E. apply (rest_quiet _ (rs_rest _ Hs)). }
  apply safe_bind. eapply safe_mono; [|apply recv_safe; by eapply same_resting].
  intros r s2 (Hs2 & _ & p2 & -> & _). assert (same_dm s s2) as Hs02 by (destruct Hs1, Hs2; split; congruence).
  destruct (negb _); [by apply safe_ret|].
  destruct (Z.eqb_spec (le_value (take_bytes (Z.of_nat sizeof_size_t) (p_data q))) 0) as [E0|_].
  { unfold lengths_ok in Hl. rewrite Forall_forall in Hl. by destruct (Hl q Hq). }
  destruct (p_creds p2); [|by apply safe_ret]. destruct (negb _); [by apply safe_ret|]. apply safe_ret. split; [done|].
  intros msg c [= _ <-]. eauto.
Qed.
(** Only the daemon's own parts count: what the client sees may change. *)
Definition intact s s' : Prop := kept (sv_dm s) (sv_dm s') ∧ tp_locked (sv_pool s') = false.

Lemma intact_resting s s' : resting s → intact s s' → resting s'.
Proof. intros [Hr _] [Hk Hp]. split; [by apply Hk|done]. Qed.

Lemma intact_dm s s1 s2 : intact s s1 → same_dm s1 s2 → intact s s2.
Proof. intros [Hk Hp] [E1 E2]. split; congruence. Qed.

Lemma resting_quiet s : resting s → quiet s.
Proof. intros Hs. apply (rest_quiet _ (rs_rest _ Hs)). Qed.

Lemma wp_on_dm {A} (m : M (daemon B C) A) (Q : A → server B C → Prop) s :
  wp m (λ a d, Q a (set_sv_dm d s)) (sv_dm s) → wp (on_dm m) Q s.
Proof. unfold wp, on_dm. by destruct (m (sv_dm s)). Qed.

Lemma send_kept p (Q : bool → server B C → Prop) s :
  resting s → (∀ r s', same_dm s s' → up (sv_conn s') = up (sv_conn s) → Q r s') → wp (sock_send ToClient p) Q s.
Proof.
  intros Hs HQ. unfold sock_send. apply wp_bind, wp_fallible_quiet; [by apply resting_quiet|].
  apply wp_bind. unfold wp at 1, mconn. simpl. destruct (client_closed (sv_conn s)); [by apply wp_ret, HQ|].
  apply wp_bind. unfold wp at 1, mconn_modify. by apply wp_ret, HQ.
Qed.

Lemma sendstr_kept str (Q : Z → server B C → Prop) s :
  resting s → (∀ r s', same_dm s s' → up (sv_conn s') = up (sv_conn s) → Q r s') → wp (crinitSendStr str) Q s.
Proof.
  intros Hs HQ. unfold crinitSendStr. apply wp_bind, send_kept; [done|]. intros [] s1 Hs1 Hu1; [by apply wp_ret, HQ|].
  apply wp_bind, send_kept; [by eapply same_resting|]. intros [] s2 Hs2 Hu2; apply wp_ret, HQ; try congruence;
    destruct Hs1, Hs2; split; congruence.
Qed.

(** The opcode decides; a refusal is only logged. *)
Lemma execute_kept cmd c s :
  resting s → unprivileged c →
  wp (conn_execute cmd c)
    (λ r s', intact s s' ∧ match r with Some (Some res) => args0 res = 0%nat | _ => True end) s.
Proof.
  intros Hs Hc. pose proof Hs as [Hr Hl]. unfold conn_execute. destruct (crinitCheckPerm (op cmd) c) eqn:Ep.
  - apply wp_bind, wp_on_dm. eapply wp_mono; [|apply query_kept; [done|by eapply unprivileged_queries]].
    intros r d (Hk & o & l & ->). by apply wp_ret.
  - apply wp_bind, (wp_mono _ (λ _ s', intact s s')).
    + intros _ s1 Hi. pose proof (resting_quiet _ (intact_resting _ _ Hs Hi)) as Hq. unfold crinitBuildRtimCmd.
      apply wp_bind. do 2 (apply wp_bind, wp_fallible_quiet; [done|]). apply wp_ret, wp_ret. split; [done|].
      simpl. by destruct (op_succ (op cmd)).
    + destruct ENABLE_ELOS; [|by apply wp_ret; split; [apply kept_refl|]]. pose proof Hr as [[Hok Hu Hi] _ Hq].
      apply wp_bind, wp_on_dm, wp_on_db. eapply wp_mono; [|by apply elosLog_ok].
      intros r b (Hdb & Hth & Hib & Hqb). apply wp_ret. split; [|done]. by apply kept_same.
Qed.

Lemma answer_safe s :
  resting s → lengths_ok (up (sv_conn s)) → (∀ p c, p ∈ up (sv_conn s) → p_creds p = Some c → unprivileged c) →
  safe conn_answer (λ _ s', kept (sv_dm s) (sv_dm s')) s.
Proof.
  intros Hs Hl Hun. unfold conn_answer. assert (∀ s', intact s s' → safe close_conn (λ _ s', kept (sv_dm s) (sv_dm s')) s') as Hclose.
  { intros s' [Hk _]. apply safe_wp. by unfold wp, close_conn. }
  assert (intact s s) as Hi by (split; [apply kept_refl|apply Hs]).
  apply safe_bind. eapply safe_mono; [|by apply recvstr_safe]. intros [[msg c]|] s1 [Hs1 Hm]; [|by eapply Hclose, intact_dm].
  destruct (Hm msg c eq_refl) as (p & Hp & Hc). specialize (Hun p c Hp Hc). pose proof (intact_dm _ _ _ Hi Hs1) as Hi1.
  apply safe_bind, safe_wp. eapply wp_mono; [|apply parse_reads]. intros cmd s2 ([_ Hf] & Hcmd).
  rewrite (Hf (resting_quiet _ (intact_resting _ _ Hs Hi1))). destruct cmd as [cmd|]; [|by apply Hclose]. destruct Hcmd as (_ & _ & H0').
  assert (∀ s', intact s1 s' → intact s s') as Hi1t.
  { intros s' [Hk Hp']. destruct Hs1 as [E _]. unfold intact. by rewrite <- E. }
  apply safe_bind, safe_wp. eapply wp_mono; [|apply execute_kept; [by eapply intact_resting|done]]. intros res s3 [Hi3%Hi1t Hres].
  apply safe_bind, safe_wp, (wp_intro _ _ _ 0 s3); [unfold crinitDestroyRtimCmd; by rewrite H0'|].
  destruct res as [[res|]|]; [|by apply safe_ret, Hi3|by apply Hclose].
  apply safe_bind, safe_wp, (wp_intro _ _ _ _ _ (run_message res s3 (resting_quiet _ (intact_resting _ _ Hs Hi3)))).
  apply safe_bind, safe_wp, (wp_intro _ _ _ 0 s3); [unfold crinitDestroyRtimCmd; by rewrite Hres|].
  apply safe_bind, safe_wp, sendstr_kept; [by eapply intact_resting|]. intros r s4 Hs4 _. pose proof (intact_dm _ _ _ Hi3 Hs4) as Hi4.
  apply safe_bind, safe_wp. unfold wp, close_conn, mconn_modify. case_match; [by apply safe_ret, Hi4|].
  apply safe_bind, safe_wp. eapply wp_intro; [apply run_avail; [by apply (resting_quiet s4 (intact_resting _ _ Hs Hi4))|apply Hi4]|].
  by apply safe_ret, Hi4.
Qed.

(** C22: a client that is not the daemon's user and may not reboot cannot change
    anything: whatever it sends, with no message announced as empty, the thread
    that serves it does nothing undefined, and tasks, options, inhibition and the
    trace of signals, threads and mounts are as before when the thread waits for
    the next connection.  A refusal is at most logged. *)
Theorem unprivileged_client_changes_nothing s :
  resting s → lengths_ok (up (sv_conn s)) → (∀ p c, p ∈ up (sv_conn s) → p_creds p = Some c → unprivileged c) →
  safe crinitConnThread (λ _ s', kept (sv_dm s) (sv_dm s')) s.
Proof.
  intros Hs Hl Hun. unfold crinitConnThread. apply safe_bind, safe_wp.
  apply (wp_mono _ (λ _ s', same_dm (set_sv_pool (sv_pool s') s) s' ∧ tp_locked (sv_pool s') = false ∧ up (sv_conn s') = up (sv_conn s))).
  { intros ok s1 ([E1 _] & Hp1 & Hu1). simpl in E1. rewrite <- E1. destruct ok; [|by apply safe_ret, kept_refl].
    apply answer_safe; [split; [rewrite E1; apply Hs|done]|by rewrite Hu1|by rewrite Hu1]. }
  unfold conn_accept. apply wp_bind, wp_fallible_quiet; [by apply resting_quiet|].
  apply wp_bind. eapply wp_intro; [apply run_busy; [by apply resting_quiet|apply Hs]|]. cbv beta iota.
  assert (tp_locked (busy_pool (sv_pool s)) = false) as Hb by (unfold busy_pool; case_match; apply Hs).
  apply wp_bind, wp_fallible_quiet; [by apply (resting_quiet s)|]. apply wp_bind, sendstr_kept; [by split; [apply Hs|]|].
  intros r s1 [E1 E2] Hu. simpl in E1, E2, Hu.
  case_match; [apply wp_bind; unfold wp at 1, close_conn, mconn_modify|]; apply wp_ret; simpl; by rewrite E2.
Qed.
End Guard.

(** The user 1000 asks for fs to be killed. *)
Definition demo_request : connection :=
  mkConn (frame_of (Some (mkUcred 7 1000 1000)) "C_KILL
fs") [] false false.

Lemma unprivileged_client_changes_nothing_witness :
  safe crinitConnThread (λ _ s', kept (demo_daemon [] []) (sv_dm s')) (demo_server demo_request) ∧
  ∃ s', crinitConnThread (demo_server demo_request) = Ret tt s' ∧
    p_data <$> down (sv_conn s') !! 3%nat =
      Some (with_nul (message_text (command CRINIT_RTIMCMD_R_KILL [CRINIT_RTIMCMD_RES_ERR; "Permission denied."%string]))).
Proof.
  split.
  - apply (unprivileged_client_changes_nothing (demo_server demo_request)).
    + split; [apply demo_at_rest|reflexivity].
    + unfold lengths_ok. repeat constructor; by vm_compute.
    + assert (Forall (λ p, p_creds p = Some (mkUcred 7 1000 1000)) (up demo_request)) as Hall by (by repeat constructor).
      rewrite Forall_forall in Hall. intros p c Hp Hc. specialize (Hall p Hp). rewrite Hc in Hall. injection Hall as ->.
      split; [done|]. intros l w [= <-] [= <-]. vm_compute. reflexivity.
  - eexists. split; vm_compute; reflexivity.
Defined.

(** ** What a client can break *)

(** An announced length of 0 makes the thread write in front of its buffer. *)
Lemma empty_message_undefined :
  let p := mkPacket (le_bytes sizeof_size_t 0) (Some (mkUcred 7 1000 1000)) in
  crinitConnThread (demo_server (mkConn [p; mkPacket EmptyString (Some (mkUcred 7 1000 1000))] [] false false)) = Undef.
Proof. vm_compute. reflexivity. Qed.

(** The last opcode has no successor: it is refused without a response, the
    connection stays open and the thread is not counted as available again. *)
Lemma last_opcode_leaks :
  let c := mkConn (frame_of (Some (mkUcred 7 1000 1000)) "R_GETVER") [] false false in
  ∃ s', crinitConnThread (demo_server c) = Ret tt s' ∧ server_closed (sv_conn s') = false ∧
    length (down (sv_conn s')) = 2%nat ∧ threadAvail (sv_pool s') = 7.
Proof. eexists. split_and!; vm_compute; reflexivity. Qed.
