(* ===== verification/CgroupFs.v ===== *)
(** * The cgroup file system: src/cgroup.c

    Groups are directories below CRINIT_CGROUP_PATH, created with mkdirat() and
    configured by writing to files in them.  The state keeps the directories, the
    open descriptors of the process and a log of what was written where. *)

From Stdlib Require Import ZArith Lia Bool List String Ascii.
From stdpp Require Import base list strings gmap.
From S2P Require Import Prelude CString EnvSet Timer Task TaskDB Lexers ConfConv Ini GlobOpt Cgroup.

Open Scope Z_scope.
Open Scope crinit_scope.

#[local] Arguments String.append : simpl nomatch.

(** ** Descriptors and directories *)

(** A path is relative to CRINIT_CGROUP_PATH, which is the empty path. *)
Record cgfs := mkCgfs {
  cf_dirs : list string;
  cf_controllers : string;  (* the text of cgroup.controllers *)
  cf_fds : gmap Z string;
  cf_log : list (string * string);
}.

Definition set_dirs (l : list string) (f : cgfs) : cgfs := mkCgfs l (cf_controllers f) (cf_fds f) (cf_log f).
Definition set_fds (m : gmap Z string) (f : cgfs) : cgfs := mkCgfs (cf_dirs f) (cf_controllers f) m (cf_log f).
Definition set_log (l : list (string * string)) (f : cgfs) : cgfs := mkCgfs (cf_dirs f) (cf_controllers f) (cf_fds f) l.

Definition join_path (dir name : string) : string := if str_eqb dir "" then name else (dir +:+ "/" +:+ name)%string.

(** The kernel hands out the lowest number that is free. *)
Fixpoint lowest (fuel : nat) (n : Z) (m : gmap Z string) : Z :=
  match fuel with
  | O => n
  | Datatypes.S fuel => match m !! n with Some _ => lowest fuel (n + 1) m | None => n end
  end.
Definition free_fd (m : gmap Z string) : Z := lowest (size m) 0 m.

Lemma lowest_taken fuel n m k :
  m !! lowest fuel n m = Some k → ∀ i, n ≤ i ≤ n + Z.of_nat fuel → is_Some (m !! i).
Proof.
  revert n. induction fuel as [|fuel IH]; intros n; cbn [lowest].
  { intros E i Hi. replace i with n by lia. eauto. }
  destruct (m !! n) eqn:En; [|congruence]. intros E i Hi. destruct (decide (i = n)) as [->|]; [eauto|].
  apply (IH (n + 1)); [done|lia].
Qed.

Lemma free_fd_fresh m : m !! free_fd m = None.
Proof.
  destruct (m !! free_fd m) eqn:E; [|done]. pose proof (lowest_taken _ _ _ _ E) as Ht.
  assert (list_to_set (seqZ 0 (Z.of_nat (size m) + 1)) ⊆ dom m) as Hsub.
  { intros i Hi. rewrite elem_of_list_to_set, elem_of_seqZ in Hi. apply elem_of_dom, Ht. lia. }
  apply subseteq_size in Hsub. rewrite size_dom, size_list_to_set in Hsub by apply NoDup_seqZ.
  rewrite length_seqZ in Hsub. lia.
Qed.

Lemma lowest_ge fuel n m : n ≤ lowest fuel n m.
Proof.
  revert n. induction fuel as [|fuel IH]; intros n; cbn [lowest]; [lia|]. case_match; [|lia]. specialize (IH (n + 1)). lia.
Qed.

Lemma free_fd_valid m : (free_fd m <? 0) = false.
Proof. apply Z.ltb_ge, lowest_ge. Qed.

Class CgState (S : Type) `{Faulty S} := {
  get_cg : S → cgfs;
  set_cg : cgfs → S → S;
  get_set_cg : ∀ f s, get_cg (set_cg f s) = f;
  set_set_cg : ∀ f g s, set_cg f (set_cg g s) = set_cg f s;
  set_get_cg : ∀ s, set_cg (get_cg s) s = s;
  cg_faults : ∀ l s, get_cg (set_faults l s) = get_cg s;
  faults_cg : ∀ f s, faults (set_cg f s) = faults s;
  cg_faults_comm : ∀ f l s, set_cg f (set_faults l s) = set_faults l (set_cg f s);
}.

(** ** System calls *)

Section Calls.
Context {S : Type} `{CgState S}.

Definition mcg : M S cgfs := λ s, Ret (get_cg s) s.
Definition mcg_modify (f : cgfs → cgfs) : M S unit := λ s, Ret tt (set_cg (f (get_cg s)) s).

(** A new descriptor for [path]; -1 when the kernel refuses. *)
Definition new_fd (path : string) : M S Z :=
  err ← fallible;
  if (err : bool) then mret (-1) else
  f ← mcg;
  let fd := free_fd (cf_fds f) in
  mcg_modify (set_fds (<[fd := path]> (cf_fds f))) ;; mret fd.

(** open(CRINIT_CGROUP_PATH, O_DIRECTORY) *)
Definition open_base : M S Z := new_fd "".

(** openat() of a directory, which has to exist, and of a file. *)
Definition openat_dir (dirfd : Z) (name : string) : M S Z :=
  f ← mcg;
  match cf_fds f !! dirfd with
  | None => mret (-1)
  | Some dir =>
      let path := join_path dir name in
      if bool_decide (path ∈ cf_dirs f) then new_fd path else mret (-1)
  end.
Definition openat_file (dirfd : Z) (name : string) : M S Z :=
  f ← mcg;
  match cf_fds f !! dirfd with
  | None => mret (-1)
  | Some dir => new_fd (join_path dir name)
  end.

Definition close (fd : Z) : M S unit := mcg_modify (λ f, set_fds (delete fd (cf_fds f)) f).

(** mkdirat(): [true] on a failure other than EEXIST. *)
Definition mkdirat (dirfd : Z) (name : string) : M S bool :=
  f ← mcg;
  match cf_fds f !! dirfd with
  | None => mret true
  | Some dir =>
      let path := join_path dir name in
      if bool_decide (path ∈ cf_dirs f) then mret false else
      err ← fallible;
      if (err : bool) then mret true else mcg_modify (λ f, set_dirs (cf_dirs f ++ [path]) f) ;; mret false
  end.

(** write() and writev(): [true] if not everything was written. *)
Definition write (fd : Z) (text : string) : M S bool :=
  f ← mcg;
  match cf_fds f !! fd with
  | None => mret true
  | Some path =>
      err ← fallible;
      if (err : bool) then mret true else mcg_modify (λ f, set_log (cf_log f ++ [(path, text)]) f) ;; mret false
  end.
End Calls.

(** ** Operations *)

Section Operations.
Context {S : Type} `{CgState S}.

Definition close_if_open (fd : Z) : M S unit := if 0 <=? fd then close fd else mret tt.

(** crinitCgroupOpen(): the result and the member groupFd. *)
Definition crinitCgroupOpen (cgroup : crinitCgroup) (createDir : bool) : M S (Z * Z) :=
  match cg_name cgroup with
  | None => mret (-1, cg_groupFd cgroup)
  | Some name =>
      cgroupBaseFd ← open_base;
      if cgroupBaseFd <? 0 then mret (-1, -1) else
      cgroupParentFd ← match cg_parent cgroup ≫= cg_name with
                       | Some parent => openat_dir cgroupBaseFd parent
                       | None => mret (-1)
                       end;
      let out (r : Z * Z) : M S (Z * Z) :=
        close_if_open cgroupBaseFd ;; close_if_open cgroupParentFd ;; mret r in
      let hasParent := bool_decide (is_Some (cg_parent cgroup ≫= cg_name)) in
      if hasParent && (cgroupParentFd <? 0) then out (-1, -1) else
      let currentFd := if hasParent then cgroupParentFd else cgroupBaseFd in
      err ← (if createDir then mkdirat currentFd name else mret false);
      if (err : bool) then out (-1, -1) else
      groupFd ← openat_dir currentFd name;
      out (if groupFd <? 0 then -1 else 0, groupFd)
  end.

(** crinitCgroupClose(): afterwards the member groupFd is -1. *)
Definition crinitCgroupClose (groupFd : Z) : M S unit := close_if_open groupFd.

Definition crinitCgroupSetParam (param : crinitCgroupParam) (cgroupFd : Z) : M S Z :=
  cgroupOptionFd ← openat_file cgroupFd (filename param);
  if cgroupOptionFd <? 0 then mret (-1) else
  err ← write cgroupOptionFd (option_ param +:+ str1 (chr 10))%string;
  close cgroupOptionFd ;; mret (if (err : bool) then -1 else 0).

(** The loop over the parameters, up to the first that fails. *)
Fixpoint set_params (params : list crinitCgroupParam) (cgroupFd : Z) : M S Z :=
  match params with
  | [] => mret 0
  | p :: params =>
      r ← crinitCgroupSetParam p cgroupFd;
      if r =? -1 then mret (-1) else set_params params cgroupFd
  end.

(** A configuration is its list of parameters, so that the number of parameters
    and the array cannot disagree. *)
Definition crinitCGroupConfigure (cgroup : crinitCgroup) : M S Z :=
  match cg_name cgroup with
  | None => mret (-1)
  | Some _ =>
      '(r, groupFd) ← crinitCgroupOpen cgroup true;
      result ← (if r =? -1 then mret (-1) else
                match cg_config cgroup with Some params => set_params params groupFd | None => mret 0 end);
      crinitCgroupClose groupFd ;; mret result
  end.

Definition crinitCGroupAssignPID (cgroup : crinitCgroup) (pid : Z) : M S Z :=
  match cg_name cgroup with
  | None => mret (-1)
  | Some _ =>
      if pid <=? 0 then mret (-1) else
      '(r, groupFd) ← crinitCgroupOpen cgroup false;
      result ← (if r =? -1 then mret (-1)
                else crinitCgroupSetParam (mkCgroupParam "cgroup.procs" (print_dec pid)) groupFd);
      crinitCgroupClose groupFd ;; mret result
  end.

Definition CRINIT_CGROUP_CONTROLLER_BUFSIZE : nat := 80.

(** The reads until one returns nothing or fails; [None] when there is no memory.
    [acc] is [None] before the first. *)
Fixpoint read_chunks (fuel : nat) (rest : string) (acc : option string) : M S (option (option string)) :=
  match fuel with
  | O => mret (Some acc)
  | Datatypes.S fuel =>
      err ← fallible;
      if (err : bool) || str_eqb rest "" then mret (Some acc) else
      let bytesRead := CRINIT_CGROUP_CONTROLLER_BUFSIZE in
      oom ← fallible;
      if (oom : bool) then mret None else
      read_chunks fuel (str_drop bytesRead rest)
        (Some (default EmptyString acc +:+ c_str (str_take bytesRead rest))%string)
  end.

Definition controller_text (token : string) : string := ("+" +:+ token +:+ " ")%string.

(** The loop of strtok_r(). *)
Fixpoint join_controllers (toks : list string) (acc : option string) : M S (option (option string)) :=
  match toks with
  | [] => mret (Some acc)
  | t :: toks =>
      oom ← fallible;
      if (oom : bool) then mret None else
      join_controllers toks (Some (default EmptyString acc +:+ controller_text t)%string)
  end.

(** [None] on error.  The descriptor is only closed when something was read. *)
Definition crinitReadAvailableCgroupControllers (infile : string) (relfd : Z) : M S (option (option string)) :=
  fd ← openat_file relfd infile;
  if fd =? -1 then mret None else
  f ← mcg;
  r ← read_chunks (Datatypes.S (String.length (cf_controllers f))) (cf_controllers f) None;
  match r with
  | None | Some None => mret None
  | Some (Some ctrlstr) => close fd ;; join_controllers (tok_loop " " (String.length ctrlstr) ctrlstr) None
  end.
End Operations.

(** ** The groups of the configuration *)

Section Global.
Context {S : Type} `{!Faulty S, !OptState S, !CgState S}.

(** Writing the controllers to cgroup.subtree_control of an open group: the
    descriptor on failure. *)
Definition subtree_control (groupFd : Z) (controllers : string) : M S (Z * bool) :=
  writeFd ← openat_file groupFd "cgroup.subtree_control";
  if writeFd <? 0 then mret (writeFd, true) else
  err ← write writeFd controllers;
  if (err : bool) then mret (writeFd, true) else close writeFd ;; mret (writeFd, false).

Fixpoint configure_globals (i : nat) (n : nat) (root : option crinitCgroup) : M S Z :=
  match n with
  | O => mret 0
  | Datatypes.S n =>
      o ← mopts;
      match global_cgroups o !! i with
      | None => mundef
      | Some g =>
          let g := set_cg_parent root g in
          mopts_modify (λ o, set_globals (Some (<[i := g]> (global_cgroups o))) o) ;;
          r ← crinitCGroupConfigure g;
          if negb (r =? 0) then mret (-1) else configure_globals (Datatypes.S i) n root
      end
  end.

(** Inside the block of the root group a second variable writeFd hides the first,
    which is 0 by then: when the write fails, descriptor 0 is closed. *)
Definition crinitCreateGlobalCGroups : M S Z :=
  crinitGlobOptBorrow ;;
  let fail : M S Z := _ ← crinitGlobOptRemit; mret (-1) in
  cgroupBaseFd ← open_base;
  if cgroupBaseFd <? 0 then fail else
  let failCtrlRead : M S Z := close cgroupBaseFd ;; fail in
  r ← crinitReadAvailableCgroupControllers "cgroup.controllers" cgroupBaseFd;
  match r with
  | None | Some None => failCtrlRead
  | Some (Some controllers) =>
      '(writeFd, err) ← subtree_control cgroupBaseFd controllers;
      if (err : bool) then (if writeFd <? 0 then failCtrlRead else close writeFd ;; failCtrlRead) else
      o ← mopts;
      err ← match rootCgroup (lists o) with
            | None => mret None
            | Some root =>
                r ← crinitCGroupConfigure root;
                if negb (r =? 0) then mret (Some failCtrlRead) else
                '(r, groupFd) ← crinitCgroupOpen root false;
                if negb (r =? 0) then mret (Some failCtrlRead) else
                '(rootWriteFd, err) ← subtree_control groupFd controllers;
                if (err : bool) then
                  if rootWriteFd <? 0 then mret (Some failCtrlRead)
                  else crinitCgroupClose groupFd ;; mret (Some (close 0 ;; failCtrlRead))
                else crinitCgroupClose groupFd ;; mret None
            end;
      match err with
      | Some failed => failed
      | None =>
          close cgroupBaseFd ;;
          r ← configure_globals 0 (length (global_cgroups o)) (rootCgroup (lists o));
          _ ← crinitGlobOptRemit; mret (if r =? 0 then 0 else -1)
      end
  end.
End Global.
