(* ===== verification/CgroupProps.v ===== *)
(** * What the cgroup functions write, and that they close what they open *)

From Stdlib Require Import ZArith Lia Bool List String Ascii.
From stdpp Require Import base list strings gmap.
From S2P Require Import Prelude CString EnvSet Timer Task TaskDB TaskDBSpec Lexers ConfConv Ini GlobOpt GlobOptProps Cgroup CgroupFs.

Open Scope Z_scope.
Open Scope crinit_scope.

#[local] Arguments String.append : simpl nomatch.

(** The directory of a group, and what its configuration writes. *)
Definition parent_path (g : crinitCgroup) : string := default EmptyString (cg_parent g ≫= cg_name).
Definition group_path (g : crinitCgroup) : string := join_path (parent_path g) (default EmptyString (cg_name g)).
Definition param_write (dir : string) (p : crinitCgroupParam) : string * string :=
  (join_path dir (filename p), (option_ p +:+ str1 (chr 10))%string).
Definition group_writes (g : crinitCgroup) : list (string * string) :=
  param_write (group_path g) <$> default [] (cg_config g).

Definition with_dir (path : string) (f : cgfs) : cgfs :=
  if bool_decide (path ∈ cf_dirs f) then f else set_dirs (cf_dirs f ++ [path]) f.
Definition logged (l : list (string * string)) (f : cgfs) : cgfs := set_log (cf_log f ++ l) f.

(** ** Steps that only touch the file system *)

Section Steps.
Context {S : Type} `{CgState S}.
Implicit Types s : S.

(** From [s] to [s'] the file system has become [f]. *)
Definition to (f : cgfs) s s' : Prop := ∃ fs, s' = set_faults fs (set_cg f s) ∧ (quiet s → fs = []).

Lemma to_refl s : to (get_cg s) s s.
Proof. exists (faults s). split; [by rewrite set_get_cg, set_faults_same|done]. Qed.

Lemma to_get f s s' : to f s s' → get_cg s' = f.
Proof. intros (fs & -> & _). by rewrite cg_faults, get_set_cg. Qed.

Lemma to_quiet f s s' : to f s s' → quiet s → quiet s'.
Proof. intros (fs & -> & Hf) Hq. unfold quiet. rewrite faults_set. auto. Qed.

Lemma to_trans f g s s' s'' : to f s s' → to g s' s'' → to g s s''.
Proof.
  intros H1 (gs & -> & Hg). pose proof (to_quiet _ _ _ H1) as Hq'. destruct H1 as (fs & -> & Hf). exists gs. split.
  - by rewrite cg_faults_comm, set_faults_set, set_set_cg.
  - auto.
Qed.

Lemma to_only f s s' s'' : to f s s' → only_faults s' s'' → to f s s''.
Proof.
  intros Hs [[fs ->] Hq]. eapply to_trans; [done|]. exists fs.
  rewrite <- (to_get _ _ _ Hs), set_get_cg. split; [done|]. intros Hq'. pose proof (Hq Hq') as E. unfold quiet in Hq'.
  rewrite <- E, faults_set in Hq'. done.
Qed.

Lemma to_modify f s s' (h : cgfs → cgfs) : to f s s' → to (h f) s (set_cg (h (get_cg s')) s').
Proof.
  intros Hs. eapply to_trans; [done|]. rewrite (to_get _ _ _ Hs). exists (faults s'). split; [|done].
  rewrite <- (faults_cg (h f) s'). by rewrite set_faults_same.
Qed.

Lemma wp_mcg (Q : cgfs → S → Prop) s : Q (get_cg s) s → wp mcg Q s.
Proof. done. Qed.

(** What a system call does, when the file system is [f] since [s0]. *)
Lemma wp_new_fd path f s0 s (Q : Z → S → Prop) :
  to f s0 s →
  (∀ s', to (set_fds (<[free_fd (cf_fds f) := path]> (cf_fds f)) f) s0 s' → Q (free_fd (cf_fds f)) s') →
  (∀ s', ¬ quiet s0 → to f s0 s' → Q (-1) s') →
  wp (new_fd path) Q s.
Proof.
  intros Hs Hok Hbad. unfold new_fd. apply wp_bind, wp_fallible_why. intros b s1 H1 Hb. pose proof (to_only _ _ _ _ Hs H1) as Hs1.
  destruct b.
  - apply wp_ret, Hbad; [|done]. intros Hq. apply (to_quiet _ _ _ Hs) in Hq. naive_solver.
  - apply wp_bind, wp_mcg. rewrite (to_get _ _ _ Hs1). cbv zeta. apply wp_bind. unfold wp at 1, mcg_modify.
    apply wp_ret, Hok. by apply to_modify.
Qed.

Lemma wp_openat_dir fd dir name f s0 s (Q : Z → S → Prop) :
  to f s0 s → cf_fds f !! fd = Some dir →
  (∀ s', join_path dir name ∈ cf_dirs f →
     to (set_fds (<[free_fd (cf_fds f) := join_path dir name]> (cf_fds f)) f) s0 s' → Q (free_fd (cf_fds f)) s') →
  (∀ s', (quiet s0 → join_path dir name ∉ cf_dirs f) → to f s0 s' → Q (-1) s') →
  wp (openat_dir fd name) Q s.
Proof.
  intros Hs Hfd Hok Hbad. unfold openat_dir. apply wp_bind, wp_mcg. rewrite (to_get _ _ _ Hs), Hfd.
  case_bool_decide as Hd; [|apply wp_ret, Hbad; auto]. eapply wp_new_fd; [done|auto|]. intros s' Hnq. apply Hbad. naive_solver.
Qed.

Lemma wp_openat_file fd dir name f s0 s (Q : Z → S → Prop) :
  to f s0 s → cf_fds f !! fd = Some dir →
  (∀ s', to (set_fds (<[free_fd (cf_fds f) := join_path dir name]> (cf_fds f)) f) s0 s' → Q (free_fd (cf_fds f)) s') →
  (∀ s', ¬ quiet s0 → to f s0 s' → Q (-1) s') →
  wp (openat_file fd name) Q s.
Proof.
  intros Hs Hfd Hok Hbad. unfold openat_file. apply wp_bind, wp_mcg. rewrite (to_get _ _ _ Hs), Hfd. by eapply wp_new_fd.
Qed.

Lemma wp_close fd f s0 s (Q : unit → S → Prop) :
  to f s0 s → (∀ s', to (set_fds (delete fd (cf_fds f)) f) s0 s' → Q tt s') → wp (close fd) Q s.
Proof. intros Hs HQ. apply HQ. by apply (to_modify f s0 s (λ f, set_fds (delete fd (cf_fds f)) f)). Qed.

Lemma wp_mkdirat fd dir name f s0 s (Q : bool → S → Prop) :
  to f s0 s → cf_fds f !! fd = Some dir →
  (∀ s', to (with_dir (join_path dir name) f) s0 s' → Q false s') →
  (∀ s', ¬ quiet s0 → to f s0 s' → Q true s') →
  wp (mkdirat fd name) Q s.
Proof.
  intros Hs Hfd Hok Hbad. unfold mkdirat. apply wp_bind, wp_mcg. rewrite (to_get _ _ _ Hs), Hfd. unfold with_dir in Hok.
  destruct (bool_decide _) eqn:Eb; [by apply wp_ret, Hok|]. apply wp_bind, wp_fallible_why. intros b s1 H1 Hb.
  pose proof (to_only _ _ _ _ Hs H1) as Hs1. destruct b.
  - apply wp_ret, Hbad; [|done]. intros Hq. apply (to_quiet _ _ _ Hs) in Hq. naive_solver.
  - apply wp_bind. unfold wp at 1, mcg_modify. apply wp_ret, Hok.
    by apply (to_modify f s0 s1 (λ f, set_dirs (cf_dirs f ++ [join_path dir name]) f)).
Qed.

Lemma wp_write fd path text f s0 s (Q : bool → S → Prop) :
  to f s0 s → cf_fds f !! fd = Some path →
  (∀ s', to (logged [(path, text)] f) s0 s' → Q false s') →
  (∀ s', ¬ quiet s0 → to f s0 s' → Q true s') →
  wp (write fd text) Q s.
Proof.
  intros Hs Hfd Hok Hbad. unfold write. apply wp_bind, wp_mcg. rewrite (to_get _ _ _ Hs), Hfd.
  apply wp_bind, wp_fallible_why. intros b s1 H1 Hb. pose proof (to_only _ _ _ _ Hs H1) as Hs1. destruct b.
  - apply wp_ret, Hbad; [|done]. intros Hq. apply (to_quiet _ _ _ Hs) in Hq. naive_solver.
  - apply wp_bind. unfold wp at 1, mcg_modify. apply wp_ret, Hok.
    by apply (to_modify f s0 s1 (λ f, set_log (cf_log f ++ [(path, text)]) f)).
Qed.

Lemma wp_close_if_open fd f s0 s (Q : unit → S → Prop) :
  to f s0 s → (∀ s', to (set_fds (if 0 <=? fd then delete fd (cf_fds f) else cf_fds f) f) s0 s' → Q tt s') →
  wp (close_if_open fd) Q s.
Proof.
  intros Hs HQ. unfold close_if_open. destruct (0 <=? fd); [by eapply wp_close|]. apply wp_ret, HQ.
  by destruct f.
Qed.
End Steps.

(** ** Opening and configuring a group *)

Definition parent_present (g : crinitCgroup) (f : cgfs) : Prop :=
  ∀ p, cg_parent g ≫= cg_name = Some p → p ∈ cf_dirs f.

Lemma with_dir_fds path f : cf_fds (with_dir path f) = cf_fds f.
Proof. unfold with_dir. by case_bool_decide. Qed.

Lemma with_dir_elem path f : path ∈ cf_dirs (with_dir path f).
Proof. unfold with_dir. case_bool_decide; simpl; [done|]. set_solver. Qed.

Lemma set_fds_fds m f : cf_fds (set_fds m f) = m.
Proof. done. Qed.

Lemma set_fds_twice m m' f : set_fds m (set_fds m' f) = set_fds m f.
Proof. done. Qed.

Lemma set_fds_same f : set_fds (cf_fds f) f = f.
Proof. by destruct f. Qed.

Lemma with_dir_set_fds path m f : with_dir path (set_fds m f) = set_fds m (with_dir path f).
Proof. unfold with_dir. simpl. by case_bool_decide. Qed.

(** The descriptors of the base and of the parent are gone again. *)
Lemma close_both (m : gmap Z string) b p g (x y z : string) :
  m !! b = None → <[b:=x]> m !! p = None → <[p:=y]> (<[b:=x]> m) !! g = None →
  delete p (delete b (<[g:=z]> (<[p:=y]> (<[b:=x]> m)))) = <[g:=z]> m.
Proof.
  intros Hb Hp Hg. rewrite lookup_insert_None in Hp, Hg. destruct Hp as [Hp Hbp], Hg as [Hg Hpg].
  rewrite lookup_insert_None in Hg. destruct Hg as [Hg Hbg].
  rewrite (delete_insert_ne _ b g), (delete_insert_ne _ b p), (delete_insert_id _ b) by done.
  by rewrite delete_insert_ne, delete_insert_id by done.
Qed.

Lemma close_base (m : gmap Z string) b g (x z : string) :
  m !! b = None → <[b:=x]> m !! g = None → delete b (<[g:=z]> (<[b:=x]> m)) = <[g:=z]> m.
Proof.
  intros Hb Hg. rewrite lookup_insert_None in Hg. destruct Hg as [Hg Hbg].
  rewrite delete_insert_ne by done. by rewrite delete_insert_id.
Qed.

Section Groups.
Context {S : Type} `{CgState S}.
Implicit Types s : S.

Definition opened (g : crinitCgroup) (create : bool) s (r : Z * Z) s' : Prop :=
  let f := get_cg s in
  let f' := if create then with_dir (group_path g) f else f in
  (0 ≤ r.2 ∧ r.1 = 0 ∧ cf_fds f !! r.2 = None ∧ group_path g ∈ cf_dirs f' ∧
     to (set_fds (<[r.2 := group_path g]> (cf_fds f)) f') s s') ∨
  (r.2 < 0 ∧ r.1 = -1 ∧ (to f s s' ∨ create = true ∧ to (with_dir (group_path g) f) s s') ∧
     (quiet s → parent_present g f → create = false ∧ group_path g ∉ cf_dirs f)).

(** The two temporary descriptors, of the base and of the parent. *)
Definition clean (b p : Z) (m : gmap Z string) : gmap Z string :=
  let m := delete b m in if 0 <=? p then delete p m else m.

Lemma wp_out b p (r : Z * Z) f s0 s :
  0 ≤ b → to f s0 s →
  wp (close_if_open b ;; close_if_open p ;; mret r) (λ r' s', r' = r ∧ to (set_fds (clean b p (cf_fds f)) f) s0 s') s.
Proof.
  intros Hb Hs. apply wp_bind. eapply wp_close_if_open; [exact Hs|]. intros s1 H1. apply wp_bind.
  eapply wp_close_if_open; [exact H1|]. intros s2 H2. apply wp_ret. split; [done|].
  rewrite set_fds_fds, set_fds_twice, (proj2 (Z.leb_le 0 b)) in H2 by done. exact H2.
Qed.

(** From the open directory that holds the group, with the temporary descriptors
    in [tmp]. *)
Lemma open_from (cur b p : Z) (dir name : string) (create : bool) (tmp : gmap Z string) g s0 s :
  let f := get_cg s0 in let out (r : Z * Z) : M S (Z * Z) := close_if_open b ;; close_if_open p ;; mret r in
  to (set_fds tmp f) s0 s → 0 ≤ b → tmp !! cur = Some dir → join_path dir name = group_path g →
  clean b p tmp = cf_fds f → (∀ path, clean b p (<[free_fd tmp := path]> tmp) = <[free_fd tmp := path]> (cf_fds f)) →
  cf_fds f !! free_fd tmp = None →
  wp (err ← (if create then mkdirat cur name else mret false);
      if (err : bool) then out (-1, -1) else
      groupFd ← openat_dir cur name; out (if groupFd <? 0 then -1 else 0, groupFd)) (opened g create s0) s.
Proof.
  intros f out Hs Hb Hcur Hpath Hc Hc' Hfree. set (path := group_path g) in *. set (f' := if create then with_dir path f else f).
  assert (∀ h s1, to (set_fds tmp h) s0 s1 → (h = f ∨ create = true ∧ h = with_dir path f) →
    (quiet s0 → create = false ∧ path ∉ cf_dirs f) → wp (out (-1, -1)) (opened g create s0) s1) as Hfail.
  { intros h s1 H1 Hh Hq. eapply wp_mono; [|by eapply wp_out]. intros r s2 [-> H2]. right.
    rewrite set_fds_fds, set_fds_twice, Hc in H2.
    assert (cf_fds h = cf_fds f) as Eh by (destruct Hh as [->|[_ ->]]; [done|apply with_dir_fds]). rewrite <- Eh, set_fds_same in H2.
    split_and!; [simpl; lia|done|destruct Hh as [->|[-> ->]]; auto|auto]. }
  apply wp_bind, (wp_mono _ (λ (err : bool) s', if err then ¬ quiet s0 ∧ to (set_fds tmp f) s0 s' else to (set_fds tmp f') s0 s')).
  - intros err s1 H1. destruct err; [destruct H1; eapply Hfail; [done|auto|done]|]. apply wp_bind.
    eapply wp_openat_dir; [exact H1|exact Hcur| |]; rewrite Hpath.
    + intros s2 Hd H2. rewrite set_fds_fds in H2 |- *. rewrite free_fd_valid. rewrite set_fds_twice in H2.
      eapply wp_mono; [|by eapply wp_out]. intros r s3 [-> H3]. left. rewrite set_fds_fds, set_fds_twice, Hc' in H3.
      split_and!; [apply Z.ltb_ge, free_fd_valid|done|done|exact Hd|exact H3].
    + intros s2 Hd H2. eapply Hfail; [exact H2|unfold f'; destruct create; auto|]. intros Hq. specialize (Hd Hq).
      unfold f' in Hd. simpl in Hd. destruct create; [|done]. destruct Hd. apply with_dir_elem.
  - destruct create; [|by apply wp_ret]. eapply wp_mkdirat; [exact Hs|exact Hcur| |done].
    intros s1 H1. rewrite Hpath, with_dir_set_fds in H1. exact H1.
Qed.

Lemma open_spec g create s : is_Some (cg_name g) → wp (crinitCgroupOpen g create) (opened g create s) s.
Proof.
  intros [name En]. unfold crinitCgroupOpen. rewrite En. set (f := get_cg s). set (b := free_fd (cf_fds f)).
  assert (cf_fds f !! b = None) as Hb by apply free_fd_fresh.
  assert (0 ≤ b) as Hb0 by apply Z.ltb_ge, free_fd_valid.
  apply wp_bind. eapply wp_new_fd; [apply to_refl| |].
  2:{ intros s1 Hnq H1. apply wp_ret. right. split_and!; simpl; [lia|done|auto|done]. }
  fold f b. intros s1 H1. rewrite (free_fd_valid (cf_fds f) : (b <? 0) = false). set (m1 := <[b:=""%string]> (cf_fds f)) in *.
  assert (m1 !! b = Some ""%string) as Hb1 by (unfold m1; apply lookup_insert_eq).
  destruct (cg_parent g ≫= cg_name) as [parent|] eqn:Ep; apply wp_bind; cbv zeta.
  - rewrite bool_decide_eq_true_2 by eauto. eapply wp_openat_dir; [exact H1|exact Hb1| |]; rewrite ?set_fds_fds.
    + intros s2 Hd H2. set (p := free_fd m1) in *. rewrite (free_fd_valid m1 : (p <? 0) = false). cbn [andb].
      assert (m1 !! p = None) as Hp by apply free_fd_fresh. assert (0 ≤ p) as Hp0 by apply Z.ltb_ge, free_fd_valid.
      change (join_path "" parent) with parent in *. rewrite set_fds_twice in H2. set (m2 := <[p:=parent]> m1) in *.
      pose proof (free_fd_fresh m2) as Hg.
      eapply (open_from p b p parent name create m2); [exact H2|done|apply lookup_insert_eq|
        unfold group_path, parent_path; by rewrite Ep, En|..]; unfold clean; rewrite ?(proj2 (Z.leb_le 0 p) Hp0); cbv zeta.
      * unfold m2. rewrite delete_insert_ne by (intros Ebp; rewrite <- Ebp in Hp; congruence). unfold m1. rewrite (delete_insert_id _ b) by done.
        rewrite delete_insert_id; [done|]. unfold m1 in Hp. by apply lookup_insert_None in Hp as [? _].
      * intros path. by apply close_both.
      * unfold m2, m1 in Hg. rewrite !lookup_insert_None in Hg. apply Hg.
    + intros s2 Hd H2. cbn [andb Z.ltb]. eapply wp_mono; [|by eapply wp_out]. intros r s3 [-> H3]. right.
      rewrite set_fds_fds, set_fds_twice in H3. unfold clean in H3. change (0 <=? -1) with false in H3. cbv zeta iota in H3. unfold m1 in H3.
      rewrite delete_insert_id in H3 by done. rewrite set_fds_same in H3. split_and!; simpl; [lia|done|auto|].
      intros Hq Hpp. destruct (Hd Hq). by apply Hpp.
  - rewrite bool_decide_eq_false_2 by (by intros []). apply wp_ret. cbn [andb]. pose proof (free_fd_fresh m1) as Hg.
    eapply (open_from b b (-1) "" name create m1); [exact H1|done|exact Hb1|unfold group_path, parent_path; by rewrite Ep, En|..];
      unfold clean; change (0 <=? -1) with false; cbv zeta iota.
    + unfold m1. by rewrite delete_insert_id.
    + intros path. by apply close_base.
    + unfold m1 in Hg. rewrite lookup_insert_None in Hg. apply Hg.
Qed.
(** Writing a parameter: the descriptor is closed whatever happens. *)
Lemma setparam_spec p fd dir f s0 s :
  to f s0 s → cf_fds f !! fd = Some dir →
  wp (crinitCgroupSetParam p fd) (λ r s', r = 0 ∧ to (logged [param_write dir p] f) s0 s' ∨
                                          r = -1 ∧ ¬ quiet s0 ∧ to f s0 s') s.
Proof.
  intros Hs Hfd. unfold crinitCgroupSetParam. apply wp_bind. eapply wp_openat_file; [done|done| |].
  2:{ intros s1 Hq H1. apply wp_ret. auto. }
  intros s1 H1. rewrite free_fd_valid. set (o := free_fd (cf_fds f)) in *. pose proof (free_fd_fresh (cf_fds f)) as Ho. fold o in Ho.
  assert (∀ g, cf_fds g = <[o := join_path dir (filename p)]> (cf_fds f) → set_fds (delete o (cf_fds g)) g = set_fds (cf_fds f) g) as Hc.
  { intros g ->. by rewrite delete_insert_id. }
  apply wp_bind. eapply wp_write; [exact H1|apply lookup_insert_eq|..].
  - intros s2 H2. apply wp_bind. eapply wp_close; [exact H2|]. intros s3 H3. apply wp_ret. left. split; [done|].
    rewrite Hc in H3 by done. by destruct f.
  - intros s2 Hq H2. apply wp_bind. eapply wp_close; [exact H2|]. intros s3 H3. apply wp_ret. right.
    rewrite Hc in H3 by done. split_and!; [done|done|by destruct f].
Qed.

Lemma logged_twice l k f : logged k (logged l f) = logged (l ++ k) f.
Proof. unfold logged, set_log. simpl. by rewrite <- app_assoc. Qed.

Lemma logged_nil f : logged [] f = f.
Proof. destruct f. unfold logged, set_log. simpl. by rewrite app_nil_r. Qed.

Lemma setparams_spec l fd dir f s0 s :
  to f s0 s → cf_fds f !! fd = Some dir →
  wp (set_params l fd) (λ r s', ∃ w, w `prefix_of` (param_write dir <$> l) ∧ to (logged w f) s0 s' ∧
    (r = 0 ∧ w = (param_write dir <$> l) ∨ r = -1 ∧ ¬ quiet s0)) s.
Proof.
  revert f s. induction l as [|p l IH]; intros f s Hs Hfd.
  { apply wp_ret. exists []. rewrite logged_nil. auto. }
  apply wp_bind. eapply wp_mono; [|by eapply setparam_spec]. intros r s1 [[-> H1]|(-> & Hq & H1)].
  - eapply wp_mono; [|by eapply IH]. intros r2 s2 (w & Hw & H2 & Hr). exists (param_write dir p :: w).
    rewrite logged_twice in H2. split_and!; [by apply prefix_cons|done|]. destruct Hr as [[-> ->]|Hr]; auto.
  - apply wp_ret. exists []. rewrite logged_nil. split_and!; [apply prefix_nil|done|auto].
Qed.

Lemma close_group w fd path f s0 s :
  0 ≤ fd → cf_fds f !! fd = None → to (logged w (set_fds (<[fd := path]> (cf_fds f)) f)) s0 s →
  wp (crinitCgroupClose fd) (λ _ s', to (logged w f) s0 s') s.
Proof.
  intros Hfd Hfree Hs. unfold crinitCgroupClose, close_if_open. rewrite (proj2 (Z.leb_le 0 fd)) by lia.
  eapply wp_close; [exact Hs|]. intros s' H'. cbn [cf_fds logged set_log set_fds] in H'.
  rewrite delete_insert_id in H' by done. by destruct f.
Qed.

Lemma not_open fd s (Q : unit → S → Prop) : fd < 0 → Q tt s → wp (crinitCgroupClose fd) Q s.
Proof. intros Hfd HQ. unfold crinitCgroupClose, close_if_open. by rewrite (proj2 (Z.leb_gt 0 fd)) by lia. Qed.

(** What a configuration leaves: descriptors as before, at most the directory of
    the group more, and the first of its parameters written. *)
Definition configured (g : crinitCgroup) s (r : Z) s' : Prop :=
  let f := get_cg s in
  ∃ w f', w `prefix_of` group_writes g ∧ (f' = f ∨ f' = with_dir (group_path g) f) ∧ to (logged w f') s s' ∧
    (r = 0 ∧ w = group_writes g ∧ f' = with_dir (group_path g) f ∨ r = -1 ∧ (quiet s → ¬ parent_present g f)).

Lemma configure_spec g s : is_Some (cg_name g) → wp (crinitCGroupConfigure g) (configured g s) s.
Proof.
  intros Hn. unfold crinitCGroupConfigure. destruct (cg_name g) eqn:En; [|by destruct Hn]. rewrite <- En in Hn.
  apply wp_bind. eapply wp_mono; [|by apply open_spec]. intros [r fd] s1 Hop. unfold opened in Hop. set (f := get_cg s) in *. cbv zeta in Hop.
  destruct Hop as [(Hfd & Hr & Hfree & Hin & H1)|(Hfd & Hr & H1 & Hq)]; simpl in Hfd, Hr; subst r.
  - cbn [Z.eqb]. simpl in Hfree, H1. set (f' := with_dir _ _) in *.
    assert (cf_fds f = cf_fds f') as Ef by (symmetry; apply with_dir_fds). rewrite Ef in Hfree, H1.
    apply wp_bind, (wp_mono _ (λ r s2, ∃ w, w `prefix_of` group_writes g ∧
      to (logged w (set_fds (<[fd := group_path g]> (cf_fds f')) f')) s s2 ∧ (r = 0 ∧ w = group_writes g ∨ r = -1 ∧ ¬ quiet s))).
    + intros r s2 (w & Hw & H2 & Hr). apply wp_bind. eapply wp_mono; [|by eapply close_group]. intros ? s3 H3. apply wp_ret.
      exists w, f'. split_and!; [done|auto|done|]. destruct Hr as [[-> ->]|[-> Hr]]; [auto|right; naive_solver].
    + unfold group_writes. destruct (cg_config g) as [params|].
      * eapply setparams_spec; [exact H1|apply lookup_insert_eq].
      * apply wp_ret. exists []. rewrite logged_nil. auto.
  - apply wp_bind. cbn [Z.eqb]. apply wp_ret, wp_bind, not_open; [done|]. apply wp_ret. exists [].
    destruct H1 as [H1|[_ H1]]; [exists f|exists (with_dir (group_path g) f)]; rewrite logged_nil;
      (split_and!; [apply prefix_nil|auto|done|right; split; [done|]]; intros Hqs Hp; by destruct (Hq Hqs Hp)).
Qed.

Lemma assign_spec g pid s :
  is_Some (cg_name g) → 0 < pid →
  wp (crinitCGroupAssignPID g pid) (λ r s', let f := get_cg s in
    r = 0 ∧ to (logged [(join_path (group_path g) "cgroup.procs", (print_dec pid +:+ str1 (chr 10))%string)] f) s s' ∨
    r = -1 ∧ to f s s' ∧ (quiet s → parent_present g f → group_path g ∉ cf_dirs f)) s.
Proof.
  intros Hn Hpid. unfold crinitCGroupAssignPID. destruct (cg_name g) eqn:En; [|by destruct Hn]. rewrite <- En in Hn.
  rewrite (proj2 (Z.leb_gt _ _)) by lia. apply wp_bind. eapply wp_mono; [|by apply open_spec].
  intros [r fd] s1 Hop. unfold opened in Hop. set (f := get_cg s) in *. cbv zeta in Hop.
  destruct Hop as [(Hfd & Hr & Hfree & Hin & H1)|(Hfd & Hr & H1 & Hq)]; simpl in Hfd, Hr; subst r.
  - cbn [Z.eqb]. simpl in Hfree, H1. apply wp_bind. eapply wp_mono; [|eapply setparam_spec; [exact H1|apply lookup_insert_eq]].
    intros r s2 [[-> H2]|(-> & Hnq & H2)]; apply wp_bind.
    + eapply wp_mono; [|by eapply close_group]. intros ? s3 H3. apply wp_ret. auto.
    + rewrite <- (logged_nil (set_fds _ _)) in H2. eapply wp_mono; [|by eapply close_group]. intros ? s3 H3. rewrite logged_nil in H3.
      apply wp_ret. right. naive_solver.
  - apply wp_bind. cbn [Z.eqb]. apply wp_ret, wp_bind, not_open; [done|]. apply wp_ret. right. destruct H1 as [H1|[? _]]; [|done].
    split_and!; [done|done|]. naive_solver.
Qed.
End Groups.

(** ** The controllers *)

Lemma no_nul_parts n s : no_nul s = true → no_nul (str_take n s) = true ∧ no_nul (str_drop n s) = true.
Proof.
  revert n. induction s as [|c s IH]; intros [|n]; [done..|]. cbn [no_nul str_take str_drop]. intros [Hc Hs]%andb_true_iff.
  destruct (IH n Hs) as [-> ->]. by rewrite Hc.
Qed.

Lemma tokens_length d s : (length (tokens d s) ≤ String.length s)%nat.
Proof.
  unfold tokens. destruct (pieces d s) as [h t] eqn:E. revert h t E. induction s as [|c s IH]; intros h t; simpl.
  - intros [= <- <-]. done.
  - destruct (pieces d s) as [h' t']. specialize (IH h' t' eq_refl). unfold nonempty in *. destruct (is_delim d c).
    + intros [= <- <-]. rewrite (filter_cons_False _ EmptyString) by (by intros []). lia.
    + intros [= <- <-]. rewrite filter_cons_True by done. simpl. rewrite filter_cons in IH. case_decide; simpl in *; lia.
Qed.

Lemma tok_loop_enough d n s : (length (tokens d s) ≤ n)%nat → tok_loop d n s = tokens d s.
Proof.
  revert s. induction n as [|n IH]; intros s Hn.
  - symmetry. by apply nil_length_inv, Nat.le_0_r.
  - simpl. pose proof (strtok_tokens d s) as Ht. destruct (strtok d s) as [[t r]|]; rewrite Ht in *; [|done].
    f_equal. apply IH. simpl in Hn. lia.
Qed.

(** What is enabled: every controller with a plus sign. *)
Definition enabled (text : string) : string := foldr (λ t acc, controller_text t +:+ acc)%string EmptyString (tokens " " text).

Section Controllers.
Context {S : Type} `{CgState S}.
Implicit Types s : S.

Lemma run_chunks fuel rest acc s :
  quiet s → no_nul rest = true → (String.length rest < fuel)%nat →
  read_chunks fuel rest acc s =
    Ret (Some (if str_eqb rest "" then acc else Some (default EmptyString acc +:+ rest)%string)) s.
Proof.
  intros Hq. revert rest acc. induction fuel as [|fuel IH]; intros rest acc Hn Hl; [lia|]. cbn [read_chunks].
  rewrite bind_fallible by done. cbn [orb]. destruct rest as [|c rest]; [done|]. cbn [str_eqb].
  change (str_eqb (String c rest) "") with false. cbv iota zeta. rewrite bind_fallible by done. cbv iota.
  destruct (no_nul_parts CRINIT_CGROUP_CONTROLLER_BUFSIZE _ Hn) as [Ht Hd].
  rewrite c_str_no_nul, IH by (done || rewrite drop_length; unfold CRINIT_CGROUP_CONTROLLER_BUFSIZE; simpl in *; lia).
  pose proof (take_drop CRINIT_CGROUP_CONTROLLER_BUFSIZE (String c rest)) as E.
  generalize dependent (str_take CRINIT_CGROUP_CONTROLLER_BUFSIZE (String c rest)).
  generalize dependent (str_drop CRINIT_CGROUP_CONTROLLER_BUFSIZE (String c rest)). intros d _ t _ <-.
  destruct d as [|x d]; cbn [default id]; [change (str_eqb "" "") with true; cbv iota; by rewrite string_app_nil_r|].
  change (str_eqb (String x d) "") with false. by rewrite string_app_assoc.
Qed.

Lemma run_join toks acc s :
  quiet s → join_controllers toks acc s =
    Ret (Some (match toks with [] => acc | _ => Some (default EmptyString acc +:+ foldr (λ t a, controller_text t +:+ a) EmptyString toks)%string end)) s.
Proof.
  intros Hq. revert acc. induction toks as [|t toks IH]; intros acc; [done|]. cbn [join_controllers].
  rewrite bind_fallible by done. cbv iota. rewrite IH. do 3 f_equal. cbn [default id foldr].
  destruct toks; [by simpl; rewrite string_app_nil_r|]. by rewrite string_app_assoc.
Qed.

(** Nothing fails: the controllers are read, and the descriptor is closed. *)
Lemma read_controllers_spec name fd dir f s0 s :
  to f s0 s → quiet s0 → cf_fds f !! fd = Some dir → no_nul (cf_controllers f) = true → tokens " " (cf_controllers f) ≠ [] →
  wp (crinitReadAvailableCgroupControllers name fd) (λ r s', r = Some (Some (enabled (cf_controllers f))) ∧ to f s0 s') s.
Proof.
  intros Hs Hq Hfd Hn Ht. unfold crinitReadAvailableCgroupControllers. apply wp_bind.
  eapply wp_openat_file; [done|done| |by intros s1 []]. intros s1 H1. set (o := free_fd (cf_fds f)) in *.
  assert ((o =? -1) = false) as -> by (apply Z.eqb_neq; pose proof (free_fd_valid (cf_fds f)) as E%Z.ltb_ge; fold o in E; lia).
  apply wp_bind, wp_mcg. rewrite (to_get _ _ _ H1). cbn [cf_controllers set_fds].
  pose proof (to_quiet _ _ _ H1 Hq) as Hq1. apply wp_bind. eapply wp_intro; [apply run_chunks; [done|done|lia]|].
  assert (str_eqb (cf_controllers f) "" = false) as ->.
  { apply str_eqb_false. intros E. by rewrite E in Ht. }
  cbn [default String.append]. apply wp_bind. eapply wp_close; [exact H1|]. intros s2 H2.
  assert (to f s0 s2) as H2'.
  { rewrite set_fds_fds, set_fds_twice, delete_insert_id, set_fds_same in H2; [done|apply free_fd_fresh]. }
  rewrite tok_loop_enough by apply tokens_length. eapply wp_intro; [apply run_join; by eapply to_quiet|].
  split; [|done]. unfold enabled. by destruct (tokens _ _).
Qed.
End Controllers.

(** ** The groups of the configuration *)

(** The options and the file system are different parts of the state. *)
Class CgOpts (S : Type) `{!Faulty S, !OptState S, !CgState S} := {
  opts_of_cg : ∀ f (s : S), get_opts (set_cg f s) = get_opts s;
  cg_of_opts : ∀ o (s : S), get_cg (set_opts o s) = get_cg s;
}.

(** What the file system becomes when a group is configured, and when its
    controllers are enabled. *)
Definition with_group (f : cgfs) (g : crinitCgroup) : cgfs := logged (group_writes g) (with_dir (group_path g) f).
Definition with_control (dir ctl : string) (f : cgfs) : cgfs := logged [(join_path dir "cgroup.subtree_control", ctl)] f.
Definition with_root (ctl : string) (root : option crinitCgroup) (f : cgfs) : cgfs :=
  match root with Some g => with_control (group_path g) ctl (with_group f g) | None => f end.

Lemma with_group_dirs f g x : x ∈ cf_dirs f → x ∈ cf_dirs (with_group f g).
Proof. unfold with_group, with_dir. simpl. case_bool_decide; simpl; set_solver. Qed.

Section Global.
Context {S : Type} `{CgOpts S}.
Implicit Types s : S.

(** A state in which nothing fails, with file system [f] and options [o]. *)
Record holds (f : cgfs) (o : crinitGlobOptStore) s : Prop := {
  hl_quiet : quiet s;
  hl_cg : get_cg s = f;
  hl_opts : get_opts s = o;
}.

Lemma to_holds f g o s s' : holds f o s → to g s s' → holds g o s'.
Proof.
  intros [Hq Hc Ho] Hs. split; [by eapply to_quiet|by eapply to_get|]. destruct Hs as (fs & -> & _).
  by rewrite opts_faults, opts_of_cg.
Qed.

Lemma holds_to f o s : holds f o s → to f s s.
Proof. intros [_ <- _]. apply to_refl. Qed.

Lemma wp_mopts f o s (Q : crinitGlobOptStore → S → Prop) : holds f o s → Q o s → wp mopts Q s.
Proof. intros [_ _ <-]. done. Qed.

Lemma wp_mopts_modify h f o s (Q : unit → S → Prop) :
  holds f o s → (∀ s', holds f (h o) s' → Q tt s') → wp (mopts_modify h) Q s.
Proof.
  intros [Hq Hc Ho] HQ. apply HQ. split; [unfold quiet; by rewrite faults_opts|by rewrite cg_of_opts|].
  by rewrite get_set_opts, Ho.
Qed.

Lemma wp_configure g f o s (Q : Z → S → Prop) :
  holds f o s → is_Some (cg_name g) → parent_present g f → (∀ s', holds (with_group f g) o s' → Q 0 s') →
  wp (crinitCGroupConfigure g) Q s.
Proof.
  intros Hs Hn Hp HQ. eapply wp_mono; [|by apply configure_spec]. intros r s' (w & f' & _ & _ & Hto & Hr).
  rewrite (hl_cg _ _ _ Hs) in Hr. destruct Hr as [(-> & -> & ->)|[_ Hr]].
  - apply HQ. by eapply to_holds.
  - destruct (Hr (hl_quiet _ _ _ Hs) Hp).
Qed.

(** The write to cgroup.subtree_control. *)
Lemma wp_subtree fd dir ctl f s0 s (Q : Z * bool → S → Prop) :
  to f s0 s → quiet s0 → cf_fds f !! fd = Some dir →
  (∀ r s', to (with_control dir ctl f) s0 s' → Q (r, false) s') → wp (subtree_control fd ctl) Q s.
Proof.
  intros Hs Hq Hfd HQ. unfold subtree_control. apply wp_bind. eapply wp_openat_file; [done|done| |by intros s1 []].
  intros s1 H1. rewrite free_fd_valid. apply wp_bind. eapply wp_write; [exact H1|apply lookup_insert_eq| |by intros s2 []].
  intros s2 H2. apply wp_bind. eapply wp_close; [exact H2|]. intros s3 H3. apply wp_ret, HQ.
  cbn [cf_fds logged set_log set_fds] in H3. rewrite delete_insert_id in H3 by apply free_fd_fresh. by destruct f.
Qed.

(** The directory of the root group, when there is one, is that of every group. *)
Lemma globals_spec n root f o s pre post :
  holds f o s → global_cgroups o = (set_cg_parent root <$> pre) ++ post → length post = n →
  Forall (λ g, is_Some (cg_name g)) post → (∀ r p, root = Some r → cg_name r = Some p → p ∈ cf_dirs f) →
  wp (configure_globals (length pre) n root) (λ r s', r = 0 ∧
    ∃ o', holds (foldl with_group f (set_cg_parent root <$> post)) o' s' ∧ opt_locked o' = opt_locked o ∧ rootCgroup (lists o') = rootCgroup (lists o) ∧
      global_cgroups o' = set_cg_parent root <$> (pre ++ post)) s.
Proof.
  revert f o s pre post. induction n as [|n IH]; intros f o s pre post Hs Hg Hn Hnames Hroot.
  { apply nil_length_inv in Hn as ->. rewrite app_nil_r in *. apply wp_ret. eauto 10. }
  destruct post as [|g post]; [done|]. simpl in Hn. apply Forall_cons in Hnames as [Hname Hnames].
  cbn [configure_globals]. apply wp_bind. eapply wp_mopts; [exact Hs|].
  rewrite Hg, lookup_app_r by (by rewrite length_fmap). rewrite length_fmap, Nat.sub_diag. cbn [lookup list_lookup].
  set (g' := set_cg_parent root g). assert (cg_name g' = cg_name g) as En by (by destruct g).
  apply wp_bind. eapply wp_mopts_modify; [exact Hs|]. intros s1 H1. apply wp_bind. eapply wp_configure; [exact H1|by rewrite En| |].
  { intros p. unfold g'. destruct g, root as [r|]; simpl; [intros Hr|done]. by eapply Hroot. }
  intros s2 H2. cbn [Z.eqb negb]. replace (Datatypes.S (length pre)) with (length (pre ++ [g])) by (rewrite length_app; simpl; lia).
  eapply wp_mono; [|eapply (IH _ _ _ (pre ++ [g]) post H2); [| |done|]].
  - intros r s3 (Hr & o' & Ho & Hl & Hro & Hgl). split; [done|]. exists o'. split_and!; [done|by rewrite Hl|by rewrite Hro|].
    by rewrite <- app_assoc in Hgl.
  - unfold global_cgroups at 1. simpl. rewrite Hg. rewrite insert_app_r_alt by (by rewrite length_fmap).
    rewrite length_fmap, Nat.sub_diag, fmap_app, <- app_assoc. done.
  - lia.
  - intros r p Hr Hp. by eapply with_group_dirs, Hroot.
Qed.
Lemma with_root_set_fds ctl root m f :
  with_root ctl root (with_control "" ctl (set_fds m f)) = set_fds m (with_root ctl root (with_control "" ctl f)).
Proof.
  destruct root as [g|]; [|done]. unfold with_root, with_group.
  change (with_control "" ctl (set_fds m f)) with (set_fds m (with_control "" ctl f)). by rewrite with_dir_set_fds.
Qed.

Lemma with_root_fds ctl root f : cf_fds (with_root ctl root (with_control "" ctl f)) = cf_fds f.
Proof. destruct root as [g|]; [|done]. apply (with_dir_fds _ (with_control "" ctl f)). Qed.

Lemma groups_fds l f : cf_fds (foldl with_group f l) = cf_fds f.
Proof. revert f. induction l as [|g l IH]; intros f; [done|]. simpl. rewrite IH. apply (with_dir_fds _ f). Qed.

(** The block of the root group. *)
Lemma root_spec root ctl f o s (failed : M S Z) :
  holds f o s → is_Some (cg_name root) → cg_parent root = None →
  wp (r ← crinitCGroupConfigure root;
      if negb (r =? 0) then mret (Some failed) else
      '(r, groupFd) ← crinitCgroupOpen root false;
      if negb (r =? 0) then mret (Some failed) else
      '(rootWriteFd, err) ← subtree_control groupFd ctl;
      if (err : bool) then
        if rootWriteFd <? 0 then mret (Some failed)
        else crinitCgroupClose groupFd ;; mret (Some (close 0 ;; failed))
      else crinitCgroupClose groupFd ;; mret None)
    (λ r s', r = None ∧ holds (with_root ctl (Some root) f) o s') s.
Proof.
  intros Hs Hn Hpar. assert (∀ f, parent_present root f) as Hpp by (intros f' p; by rewrite Hpar).
  apply wp_bind. eapply wp_configure; [exact Hs|done|done|]. intros s1 H1. cbn [Z.eqb negb].
  apply wp_bind. eapply wp_mono; [|by apply open_spec]. intros [r fd] s2 Hop. unfold opened in Hop. cbv zeta in Hop.
  rewrite (hl_cg _ _ _ H1) in Hop. set (f1 := with_group f root) in *.
  destruct Hop as [(Hfd & Hr & Hfree & Hin & H2)|(Hfd & Hr & H2 & Hbad)].
  2:{ destruct (Hbad (hl_quiet _ _ _ H1) (Hpp _)) as [_ Hno]. destruct Hno. apply with_dir_elem. }
  simpl in Hfd, Hr, Hfree, H2. subst r. cbn [Z.eqb negb]. apply wp_bind. eapply wp_subtree; [exact H2|apply H1|apply lookup_insert_eq|].
  intros r s3 H3. cbv beta iota. apply wp_bind. eapply wp_mono; [|eapply (close_group _ fd (group_path root) f1); [done|done|exact H3]].
  intros ? s4 H4. apply wp_ret. split; [done|]. by eapply to_holds.
Qed.

Lemma remit_spec f o s : holds f o s → opt_locked o = true → wp crinitGlobOptRemit (λ _ s', holds f (set_opt_locked false o) s') s.
Proof.
  intros Hs Hl. unfold crinitGlobOptRemit. apply wp_bind. eapply wp_mopts; [exact Hs|]. rewrite Hl.
  apply wp_bind. eapply wp_mopts_modify; [exact Hs|]. intros s' H'. by apply wp_ret.
Qed.

Lemma opts_borrow_spec f o s : holds f o s → opt_locked o = false → wp crinitGlobOptBorrow (λ _ s', holds f (set_opt_locked true o) s') s.
Proof.
  intros Hs Hl. unfold crinitGlobOptBorrow. apply wp_bind, wp_fallible_quiet; [apply Hs|].
  apply wp_bind. eapply wp_mopts; [exact Hs|]. rewrite Hl. by eapply wp_mopts_modify.
Qed.

(** C21: when nothing fails, the groups of the configuration are created from the
    root of the hierarchy down: the available controllers are enabled there, then
    the root group is created, configured and its controllers enabled, and then
    the global groups are created below it and configured, in their order.  Every
    descriptor is closed and the options are released. *)
Theorem crinitCreateGlobalCGroups_order root f o s :
  quiet s → get_cg s = f → get_opts s = o → opt_locked o = false →
  no_nul (cf_controllers f) = true → tokens " " (cf_controllers f) ≠ [] →
  rootCgroup (lists o) = root → (∀ r, root = Some r → is_Some (cg_name r) ∧ cg_parent r = None) → cgroups_named o →
  wp crinitCreateGlobalCGroups (λ r s', let ctl := enabled (cf_controllers f) in
    let globals := set_cg_parent root <$> global_cgroups o in
    r = 0 ∧ get_cg s' = foldl with_group (with_root ctl root (with_control "" ctl f)) globals ∧
    cf_fds (get_cg s') = cf_fds f ∧ global_cgroups (get_opts s') = globals ∧ opt_locked (get_opts s') = false) s.
Proof.
  intros Hq Hcg Hopts Hl Hnul Htok Hr Hroot Hnames. unfold crinitCreateGlobalCGroups. set (ctl := enabled (cf_controllers f)).
  apply wp_bind. eapply wp_mono; [|by eapply (opts_borrow_spec f o)]. set (o1 := set_opt_locked true o). intros ? s1 H1.
  apply wp_bind. eapply wp_new_fd; [exact (holds_to _ _ _ H1)|..]. 2:{ intros s2 []. apply H1. }
  set (b := free_fd (cf_fds f)). set (f1 := set_fds (<[b := ""%string]> (cf_fds f)) f). intros s2 H2. unfold b at 1. rewrite free_fd_valid.
  assert (cf_fds f1 !! b = Some ""%string) as Hb by apply lookup_insert_eq.
  apply wp_bind. eapply wp_mono; [|by eapply (read_controllers_spec _ b "" f1 s1); [exact H2|apply H1|exact Hb|..]].
  intros r s3 [-> H3]. apply wp_bind. eapply wp_subtree; [exact H3|apply H1|exact Hb|]. intros w s4 H4. cbv beta iota.
  assert (holds (with_control "" ctl f1) o1 s4) as H4' by exact (to_holds _ _ _ _ _ H1 H4).
  apply wp_bind. eapply wp_mopts; [exact H4'|].
  apply wp_bind, (wp_mono _ (λ r s', r = None ∧ holds (with_root ctl root (with_control "" ctl f1)) o1 s')).
  2:{ replace (rootCgroup (lists o1)) with root by done. destruct root as [g|]; [|by apply wp_ret].
      destruct (Hroot g eq_refl). by apply root_spec. }
  intros r s5 [-> H5]. apply wp_bind. eapply wp_close; [exact (holds_to _ _ _ H5)|]. intros s6 H6%(to_holds _ _ _ _ _ H5).
  unfold f1 in H6. rewrite with_root_set_fds, set_fds_fds, set_fds_twice, delete_insert_id in H6 by apply free_fd_fresh.
  rewrite <- (with_root_fds ctl root f), set_fds_same in H6. set (f2 := with_root ctl root (with_control "" ctl f)) in *.
  replace (rootCgroup (lists o1)) with root by done.
  apply wp_bind. eapply wp_mono; [|eapply (globals_spec _ root f2 o1 s6 [] (global_cgroups o)); [exact H6|done|done|exact Hnames|]].
  - intros r s7 (-> & o' & H7 & Hl' & _ & Hg). apply wp_bind. eapply wp_mono; [|eapply remit_spec; [exact H7|by rewrite Hl']].
    intros ? s8 [_ Hc8 Ho8]. apply wp_ret. rewrite Hc8, Ho8. split_and!; [done|done| |done|done].
    rewrite groups_fds. apply with_root_fds.
  - intros g p -> Hp. destruct (Hroot g eq_refl) as [_ Hpar].
    assert (group_path g = p) as <- by (unfold group_path, parent_path; rewrite Hp, Hpar; done). apply with_dir_elem.
Qed.
End Global.

(** ** A configured group *)

(** C20: crinitCGroupConfigure() closes every descriptor it opens, whatever fails;
    what it writes are the first of the parameters of the group, in their order,
    to the files of its directory, and if it reports success all of them, in a
    directory that exists.  It fails only if a call does or the parent group is
    missing. *)
Theorem crinitCGroupConfigure_exact {S} `{CgState S} g (s : S) :
  is_Some (cg_name g) →
  wp (crinitCGroupConfigure g) (λ r s', let f := get_cg s in let f' := get_cg s' in
    cf_fds f' = cf_fds f ∧
    (∃ w, w `prefix_of` group_writes g ∧ cf_log f' = cf_log f ++ w ∧
       (r = 0 → w = group_writes g ∧ group_path g ∈ cf_dirs f')) ∧
    (quiet s → parent_present g f → r = 0)) s.
Proof.
  intros Hn. eapply wp_mono; [|by apply configure_spec]. intros r s' (w & f' & Hw & Hf' & Hto & Hr). cbv zeta.
  assert (cf_fds f' = cf_fds (get_cg s) ∧ cf_log f' = cf_log (get_cg s)) as [Efd Elog].
  { destruct Hf' as [-> | ->]; [done|]. unfold with_dir. by case_bool_decide. }
  rewrite (to_get _ _ _ Hto). split_and!; [done| |].
  - exists w. split_and!; [done|simpl; by rewrite Elog|]. intros ->. destruct Hr as [(_ & -> & ->)|[? _]]; [|done].
    split; [done|]. apply with_dir_elem.
  - intros Hq Hp. destruct Hr as [[-> _]|[_ Hr]]; [done|]. by destruct (Hr Hq Hp).
Qed.

(** ** A state with options and a file system *)

Record cgd := mkCgd { cd_faults : list bool; cd_opts : crinitGlobOptStore; cd_cg : cgfs }.

#[export, refine] Instance cgd_faulty : Faulty cgd := {|
  faults := cd_faults;
  set_faults := λ l s, mkCgd l (cd_opts s) (cd_cg s);
  idle := λ s, opt_locked (cd_opts s) = false;
|}.
Proof. all: done || by intros []. Defined.

#[export, refine] Instance cgd_opts : OptState cgd := {|
  get_opts := cd_opts;
  set_opts := λ o s, mkCgd (cd_faults s) o (cd_cg s);
|}.
Proof. all: done || by intros []. Defined.

#[export, refine] Instance cgd_cg : CgState cgd := {|
  get_cg := cd_cg;
  set_cg := λ f s, mkCgd (cd_faults s) (cd_opts s) f;
|}.
Proof. all: done || by intros []. Defined.

#[export] Instance cgd_separate : CgOpts cgd.
Proof. by split. Qed.

(** A root group, and one below it; descriptors 0 to 2 are open. *)
Definition demo_root_group : crinitCgroup := mkCgroup (Some "crinit"%string) (-1) None (Some [mkCgroupParam "memory.max" "1G"]).
Definition demo_group : crinitCgroup := mkCgroup (Some "net"%string) (-1) None (Some [mkCgroupParam "cpu.weight" "50"]).
Definition demo_cgd (fs : list bool) : cgd :=
  mkCgd fs (set_globals (Some [demo_group]) (set_root (Some demo_root_group) demo_opts))
    (mkCgfs [] "cpu memory pids" {[0 := "stdin"; 1 := "stdout"; 2 := "stderr"]}%string []).

Lemma crinitCGroupConfigure_exact_witness :
  wp (crinitCGroupConfigure demo_root_group) (λ r s', r = 0 ∧
    cf_log (get_cg s') = [("crinit/memory.max", "1G" +:+ str1 (chr 10))]%string) (demo_cgd []).
Proof.
  eapply wp_mono; [|apply (crinitCGroupConfigure_exact demo_root_group (demo_cgd [])); eauto].
  intros r s' (_ & (w & _ & Hlog & Hw) & Hr). assert (r = 0) as -> by (by apply Hr).
  destruct (Hw eq_refl) as [-> _]. split; [done|exact Hlog].
Defined.

Lemma crinitCreateGlobalCGroups_order_witness :
  wp crinitCreateGlobalCGroups (λ r s', r = 0 ∧ cf_log (get_cg s') =
    [("cgroup.subtree_control", "+cpu +memory +pids "); ("crinit/memory.max", "1G" +:+ str1 (chr 10));
     ("crinit/cgroup.subtree_control", "+cpu +memory +pids "); ("crinit/net/cpu.weight", "50" +:+ str1 (chr 10))]%string)
    (demo_cgd []).
Proof.
  eapply wp_mono; [|apply (crinitCreateGlobalCGroups_order (Some demo_root_group) (cd_cg (demo_cgd [])) (cd_opts (demo_cgd []))
    (demo_cgd [])); [reflexivity|reflexivity|reflexivity|reflexivity|reflexivity|vm_compute; discriminate|reflexivity| |]].
  - intros r s' (-> & -> & _). split; [done|]. vm_compute. reflexivity.
  - intros r [= <-]. simpl. eauto.
  - by repeat constructor.
Defined.

(** When the write to cgroup.subtree_control of the root group fails, the wrong
    descriptor is closed: stdin is gone, and the file stays open. *)
Lemma failed_control_closes_stdin :
  let fails := replicate 19 false ++ [true] in
  ∃ s', crinitCreateGlobalCGroups (demo_cgd fails) = Ret (-1) s' ∧ cf_fds (get_cg s') !! 0 = None ∧
    cf_fds (get_cg s') !! 4 = Some "crinit/cgroup.subtree_control"%string.
Proof. eexists. split_and!; vm_compute; reflexivity. Qed.

(** When there is no memory for the controllers, their file stays open. *)
Lemma failed_read_leaks :
  ∃ s', crinitCreateGlobalCGroups (demo_cgd [false; false; false; false; true]) = Ret (-1) s' ∧
    cf_fds (get_cg s') !! 4 = Some "cgroup.controllers"%string.
Proof. eexists. split_and!; vm_compute; reflexivity. Qed.
