(* ===== verification/Launch.v ===== *)
(** * The launcher: src/crinit-launch.c, src/capabilities.c

    crinit starts a command of a task with another user, group or cgroup through
    the launcher, which reads its arguments with getopt_long(), joins the cgroup,
    gives up its IDs, sets the capabilities and replaces itself by the command.
    The state is the process with its credentials. *)

From Stdlib Require Import ZArith Lia Bool List String Ascii.
From stdpp Require Import base list strings gmap.
From S2P Require Import Prelude CString EnvSet Timer Task TaskDB Lexers ConfConv Ini GlobOpt Cgroup CgroupFs.

Open Scope Z_scope.
Open Scope crinit_scope.

#[local] Arguments String.append : simpl nomatch.

(** ** getopt_long() of the C library *)

Inductive has_arg := no_argument | required_argument | optional_argument.
#[export] Instance has_arg_eq : EqDecision has_arg.
Proof. solve_decision. Defined.

Record long_option := mkLong { lo_name : string; lo_arg : has_arg; lo_val : ascii }.

(** What a call returns: the end of the options, an option with its argument, or
    the question mark. *)
Inductive opt_event := OptEnd | Opt (c : ascii) (arg : option string) | OptBad.

(** What is left of a word of short options, the words that were not looked at,
    and those that are no options, which go behind the options. *)
Record getopt_state := mkGetopt { go_cluster : string; go_rest : list string; go_skipped : list string }.

Fixpoint short_arg (opts : string) (c : ascii) : option has_arg :=
  match opts with
  | EmptyString => None
  | String o r =>
      if is_char o c && negb (is_char c ":") then
        Some match r with
             | String ":" (String ":" _) => optional_argument
             | String ":" _ => required_argument
             | _ => no_argument
             end
      else short_arg r c
  end.

(** The kinds of words: "--", a long option, short options, no option. *)
Inductive word := WEnd | WLong (text : string) | WShort (c : ascii) (r : string) | WPlain.
Definition word_kind (w : string) : word :=
  match w with
  | String d (String e r) =>
      if negb (is_char d "-") then WPlain
      else if negb (is_char e "-") then WShort e r
      else if str_eqb r "" then WEnd else WLong r
  | _ => WPlain
  end.

Section Getopt.
(** [posix]: the environment has POSIXLY_CORRECT. *)
Context (posix : bool) (opts : string) (longs : list long_option).

Definition short_option (c : ascii) (r : string) (rest skipped : list string) : opt_event * getopt_state :=
  match short_arg opts c with
  | None => (OptBad, mkGetopt r rest skipped)
  | Some no_argument => (Opt c None, mkGetopt r rest skipped)
  | Some optional_argument => (Opt c (if str_eqb r "" then None else Some r), mkGetopt "" rest skipped)
  | Some required_argument =>
      if negb (str_eqb r "") then (Opt c (Some r), mkGetopt "" rest skipped) else
      match rest with
      | [] => (OptBad, mkGetopt "" [] skipped)
      | a :: rest => (Opt c (Some a), mkGetopt "" rest skipped)
      end
  end.

(** The option with this name, or the only one the name abbreviates. *)
Definition long_match (name : string) : option long_option :=
  match find (λ o, str_eqb (lo_name o) name) longs with
  | Some o => Some o
  | None =>
      match List.filter (λ o, String.prefix name (lo_name o)) longs with
      | [] => None
      | o :: l => if forallb (λ p, bool_decide (lo_arg p = lo_arg o ∧ lo_val p = lo_val o)) l then Some o else None
      end
  end.

Definition long_option_step (text : string) (rest skipped : list string) : opt_event * getopt_state :=
  let '(name, arg) := match str_break "=" text with Some (n, a) => (n, Some a) | None => (text, None) end in
  match long_match name with
  | None => (OptBad, mkGetopt "" rest skipped)
  | Some o =>
      match lo_arg o, arg with
      | no_argument, Some _ => (OptBad, mkGetopt "" rest skipped)
      | no_argument, None | optional_argument, None => (Opt (lo_val o) None, mkGetopt "" rest skipped)
      | _, Some a => (Opt (lo_val o) (Some a), mkGetopt "" rest skipped)
      | required_argument, None =>
          match rest with
          | [] => (OptBad, mkGetopt "" [] skipped)
          | a :: rest => (Opt (lo_val o) (Some a), mkGetopt "" rest skipped)
          end
      end
  end.

(** The next word; at the end [go_rest] is what follows optind. *)
Fixpoint next_word (rest skipped : list string) : opt_event * getopt_state :=
  match rest with
  | [] => (OptEnd, mkGetopt "" skipped [])
  | a :: rest =>
      match word_kind a with
      | WEnd => (OptEnd, mkGetopt "" (skipped ++ rest) [])
      | WLong text => long_option_step text rest skipped
      | WShort c r => short_option c r rest skipped
      | WPlain => if posix then (OptEnd, mkGetopt "" (skipped ++ a :: rest) []) else next_word rest (skipped ++ [a])
      end
  end.

Definition getopt_long (st : getopt_state) : opt_event * getopt_state :=
  match go_cluster st with
  | String c r => short_option c r (go_rest st) (go_skipped st)
  | EmptyString => next_word (go_rest st) (go_skipped st)
  end.
End Getopt.

(** ** The process *)

Definition CAP_SETGID : Z := 6.
Definition CAP_SETUID : Z := 7.
Definition CAP_SETPCAP : Z := 8.
Definition CAP_LAST_CAP : Z := 40.
Definition SECBIT_NO_SETUID_FIXUP : Z := 2.
Definition SECBIT_KEEP_CAPS : Z := 4.
Definition SECBIT_NO_CAP_AMBIENT_RAISE : Z := 6.

(** The IDs (real, effective and saved are the same here), the sets of
    capabilities, and the securebits by their numbers. *)
Record creds := mkCreds {
  pc_uid : Z; pc_gid : Z; pc_groups : list Z;
  pc_permitted : Z; pc_effective : Z; pc_inheritable : Z; pc_ambient : Z; pc_bounding : Z;
  pc_securebits : Z;
}.

Record process := mkProcess { pr_faults : list bool; pr_pid : Z; pr_creds : creds; pr_cg : cgfs }.

Definition set_creds (c : creds) (p : process) : process := mkProcess (pr_faults p) (pr_pid p) c (pr_cg p).

#[export, refine] Instance process_faulty : Faulty process := {|
  faults := pr_faults;
  set_faults := λ l p, mkProcess l (pr_pid p) (pr_creds p) (pr_cg p);
  idle := λ _, True;
|}.
Proof. all: done || by intros []. Defined.

#[export, refine] Instance process_cg : CgState process := {|
  get_cg := pr_cg;
  set_cg := λ f p, mkProcess (pr_faults p) (pr_pid p) (pr_creds p) f;
|}.
Proof. all: done || by intros []. Defined.

Definition P (A : Type) : Type := M process A.

Definition mcreds : P creds := λ p, Ret (pr_creds p) p.
Definition mset_creds (f : creds → creds) : P unit := λ p, Ret tt (set_creds (f (pr_creds p)) p).

(** *** System calls: they need a capability in the effective set, or fail for a
    reason of the kernel's.  [true] on failure. *)

Definition guarded (allowed : creds → bool) (f : creds → creds) : P bool :=
  c ← mcreds;
  if negb (allowed c) then mret true else
  err ← fallible;
  if (err : bool) then mret true else mset_creds f ;; mret false.

Definition capable (cap : Z) (c : creds) : bool := Z.testbit (pc_effective c) cap.

Definition set_groups (l : list Z) (c : creds) : creds :=
  mkCreds (pc_uid c) (pc_gid c) l (pc_permitted c) (pc_effective c) (pc_inheritable c) (pc_ambient c) (pc_bounding c) (pc_securebits c).
Definition setgroups (l : list Z) : P bool := guarded (capable CAP_SETGID) (set_groups l).

Definition set_gid (g : Z) (c : creds) : creds :=
  mkCreds (pc_uid c) g (pc_groups c) (pc_permitted c) (pc_effective c) (pc_inheritable c) (pc_ambient c) (pc_bounding c) (pc_securebits c).
Definition setgid (g : Z) : P bool := guarded (λ c, capable CAP_SETGID c || (g =? pc_gid c)) (set_gid g).

(** A process that gives up the user 0 loses its capabilities, except the permitted
    ones if it asked to keep them. *)
Definition set_uid (u : Z) (c : creds) : creds :=
  let drop := (pc_uid c =? 0) && negb (u =? 0) && negb (Z.testbit (pc_securebits c) SECBIT_NO_SETUID_FIXUP) in
  let keep := Z.testbit (pc_securebits c) SECBIT_KEEP_CAPS in
  mkCreds u (pc_gid c) (pc_groups c) (if drop && negb keep then 0 else pc_permitted c)
    (if drop then 0 else pc_effective c) (pc_inheritable c) (if drop then 0 else pc_ambient c) (pc_bounding c) (pc_securebits c).
Definition setuid (u : Z) : P bool := guarded (λ c, capable CAP_SETUID c || (u =? pc_uid c)) (set_uid u).

Definition subset (a b : Z) : bool := Z.ldiff a b =? 0.

(** cap_set_proc() with the inheritable set changed; ambient capabilities are
    dropped with it. *)
Definition set_inheritable (inh : Z) (c : creds) : creds :=
  mkCreds (pc_uid c) (pc_gid c) (pc_groups c) (pc_permitted c) (pc_effective c) inh (Z.land (pc_ambient c) inh) (pc_bounding c) (pc_securebits c).
Definition capset_allowed (inh : Z) (c : creds) : bool :=
  (capable CAP_SETPCAP c || subset inh (Z.lor (pc_inheritable c) (pc_permitted c))) &&
  subset inh (Z.lor (pc_inheritable c) (pc_bounding c)).
Definition cap_set_proc (inh : Z) : P bool := guarded (capset_allowed inh) (set_inheritable inh).

(** prctl(PR_CAP_AMBIENT, PR_CAP_AMBIENT_RAISE) *)
Definition set_ambient (a : Z) (c : creds) : creds :=
  mkCreds (pc_uid c) (pc_gid c) (pc_groups c) (pc_permitted c) (pc_effective c) (pc_inheritable c) a (pc_bounding c) (pc_securebits c).
Definition ambient_raise (cap : Z) : P bool :=
  guarded (λ c, Z.testbit (pc_permitted c) cap && Z.testbit (pc_inheritable c) cap &&
                negb (Z.testbit (pc_securebits c) SECBIT_NO_CAP_AMBIENT_RAISE))
    (λ c, set_ambient (Z.setbit (pc_ambient c) cap) c).

Definition set_securebits (b : Z) (c : creds) : creds :=
  mkCreds (pc_uid c) (pc_gid c) (pc_groups c) (pc_permitted c) (pc_effective c) (pc_inheritable c) (pc_ambient c) (pc_bounding c) b.

(** ** Capabilities *)

Section Capabilities.
(** CAP_IS_SUPPORTED(): the kernel knows the capability. *)
Context (supported : Z → bool).

Definition crinitCapRetainPermitted : P Z :=
  err ← fallible;
  if (err : bool) then mret (-1) else
  c ← mcreds;
  err ← guarded (capable CAP_SETPCAP) (set_securebits (Z.setbit (pc_securebits c) SECBIT_KEEP_CAPS));
  mret (if (err : bool) then -1 else 0).

Definition cap_indices : list Z := seqZ 0 (CAP_LAST_CAP + 1).

Definition out_of_range (capMask : Z) : bool := 0 <? Z.shiftr capMask (CAP_LAST_CAP + 1).

Fixpoint raise_loop (capMask : Z) (l : list Z) : P Z :=
  match l with
  | [] => mret 0
  | capIdx :: l =>
      if negb (Z.testbit capMask capIdx) then raise_loop capMask l else
      if negb (supported capIdx) then mret (-1) else
      err ← ambient_raise capIdx;
      if (err : bool) then mret (-1) else raise_loop capMask l
  end.
Definition crinitCapSetAmbient (capMask : Z) : P Z :=
  if out_of_range capMask then mret (-1) else raise_loop capMask cap_indices.

(** The inheritable set of the capability state, [None] on error. *)
Fixpoint flag_loop (capMask : Z) (l : list Z) (inh : Z) : P (option Z) :=
  match l with
  | [] => mret (Some inh)
  | capIdx :: l =>
      if negb (Z.testbit capMask capIdx) then flag_loop capMask l inh else
      if negb (supported capIdx) then mret None else
      err ← fallible;
      if (err : bool) then mret None else flag_loop capMask l (Z.setbit inh capIdx)
  end.
Definition crinitSetCapStateInheritable (capMask : Z) (inh : Z) : P (option Z) :=
  if out_of_range capMask then mret None else flag_loop capMask cap_indices inh.

Definition crinitCapSetInheritable (capMask : Z) : P Z :=
  err ← fallible;  (* cap_get_proc *)
  if (err : bool) then mret (-1) else
  err ← fallible;  (* cap_clear_flag *)
  if (err : bool) then mret (-1) else
  inh ← crinitSetCapStateInheritable capMask 0;
  match inh with
  | None => mret (-1)
  | Some inh => err ← cap_set_proc inh; mret (if (err : bool) then -1 else 0)
  end.

(** *** What a process has.  [processes]: the credentials of the processes; capget()
    gives the sets in two halves. *)
Record cap_data := mkCapData { cu_effective : Z; cu_permitted : Z; cu_inheritable : Z }.
Definition cap_half (k : Z) (c : creds) : cap_data :=
  let half a := uint32 (Z.shiftr a (32 * k)) in mkCapData (half (pc_effective c)) (half (pc_permitted c)) (half (pc_inheritable c)).

Definition crinitProcCapGet (processes : Z → option creds) (pid : Z) : P (option (Z → cap_data)) :=
  err ← fallible;
  if (err : bool) then mret None else mret (c ← processes pid; Some (λ k, cap_half k c)).

Definition crinitCapGetInheritable (processes : Z → option creds) (pid : Z) : P (option Z) :=
  r ← crinitProcCapGet processes pid;
  mret (capdata ← r; Some (Z.lor (cu_inheritable (capdata 0)) (uint64 (Z.shiftl (cu_inheritable (capdata 1)) 32)))).

(** CAP_TO_INDEX() and CAP_TO_MASK() *)
Definition crinitCapIsCapsetEffective (processes : Z → option creds) (cap pid : Z) : P bool :=
  if negb (supported cap) then mret false else
  r ← crinitProcCapGet processes pid;
  mret match r with
       | None => false
       | Some capdata => negb (Z.land (cu_effective (capdata (Z.shiftr cap 5))) (Z.shiftl 1 (Z.land cap 31)) =? 0)
       end.
End Capabilities.

(** ** The program *)

Definition EXIT_SUCCESS : Z := 0.
Definition EXIT_FAILURE : Z := 1.

(** How the program ends: with a code, or replaced by another one. *)
Inductive launched := Exit (code : Z) | Exec (cmd : string) (argv : list string).

Definition longOptions : list long_option :=
  [mkLong "help" no_argument "h"; mkLong "version" no_argument "V"; mkLong "cmd" required_argument "c";
   mkLong "user" required_argument "u"; mkLong "groups" required_argument "g"; mkLong "caps" required_argument "p";
   mkLong "cgroup" optional_argument "r"].

(** CAPOPTS and CGROUPOPTS have their colon in front. *)
Definition short_opts : string := "hc:u:g:V" +:+ ":p" +:+ ":r".

(** The variables of main(). *)
Record launch_opts := mkLaunch {
  la_cmd : option string; la_user : Z; la_userFound : bool; la_groups : option (list Z); la_caps : Z; la_cgroup : option string;
}.
Definition no_opts : launch_opts := mkLaunch None (2 ^ 32 - 1) false None 0 None.

Fixpoint count_char (c : ascii) (s : string) : nat :=
  match s with
  | EmptyString => O
  | String d s => if is_char d c then Datatypes.S (count_char c s) else count_char c s
  end.

(** A number with nothing behind it, converted to 32 bits. *)
Definition read_id (s : string) : option Z :=
  let '(v, erange, rest) := strtoul s 10 in
  if Nat.eqb (String.length rest) (String.length s) || negb (str_eqb rest "") || erange then None else Some (uint32 v).

Definition crinitExtractGroups (input : string) : P (option (list Z)) :=
  let groupSize := Datatypes.S (count_char "," input) in
  oom ← fallible;
  if (oom : bool) then mret None else
  mret (groups ← mapM read_id (tok_loop "," (Datatypes.S (String.length input)) input);
        if Nat.eqb (length groups) groupSize then Some groups else None).

(** One option; [inr] ends the program. *)
Definition handle_option (c : ascii) (optarg : option string) (o : launch_opts) : P (launch_opts + Z) :=
  let fail : P (launch_opts + Z) := mret (inr EXIT_FAILURE) in
  let '(mkLaunch cmd user userFound groups caps cgroup) := o in
  if is_char c "V" then mret (inr EXIT_SUCCESS)
  else if is_char c "c" then
    match cmd, optarg with
    | Some _, _ => fail
    | None, None => mundef
    | None, Some a => oom ← fallible; mret (inl (mkLaunch (if (oom : bool) then None else Some a) user userFound groups caps cgroup))
    end
  else if is_char c "u" then
    match optarg with
    | None => mundef
    | Some a => match read_id a with Some u => mret (inl (mkLaunch cmd u true groups caps cgroup)) | None => fail end
    end
  else if is_char c "g" then
    match groups, optarg with
    | Some _, _ => fail
    | None, None => mundef
    | None, Some a =>
        r ← crinitExtractGroups a;
        match r with Some g => mret (inl (mkLaunch cmd user userFound (Some g) caps cgroup)) | None => fail end
    end
  else if is_char c "p" then
    match optarg with
    | None => mundef
    | Some a => mret (inl (mkLaunch cmd user userFound groups (strtoul a 16).1.1 cgroup))
    end
  else if is_char c "r" then
    match cgroup, optarg with
    | Some _, _ => fail
    | None, None => mundef
    | None, Some a => oom ← fallible; mret (inl (mkLaunch cmd user userFound groups caps (if (oom : bool) then None else Some a)))
    end
  else fail.

(** The loop over the options: the variables and the words behind the options. *)
Fixpoint option_loop (fuel : nat) (posix : bool) (st : getopt_state) (o : launch_opts) : P (launch_opts * list string + Z) :=
  match fuel with
  | O => mret (inr EXIT_FAILURE)
  | Datatypes.S fuel =>
      match getopt_long posix short_opts longOptions st with
      | (OptEnd, st) => mret (inl (o, go_rest st))
      | (OptBad, _) => mret (inr EXIT_FAILURE)
      | (Opt c arg, st) =>
          r ← handle_option c arg o;
          match r with inl o => option_loop fuel posix st o | inr code => mret (inr code) end
      end
  end.

(** Every call of getopt_long() takes a character or a word. *)
Definition words_size (l : list string) : nat := foldr (λ w n, Datatypes.S (String.length w) + n)%nat O l.

Section Main.
Context (supported : Z → bool).

(** The name of the cgroup is freed when the process has joined it, and once more
    when something fails afterwards. *)
Definition launch (o : launch_opts) (targets : list string) : P launched :=
  let fail : P launched := mret (Exit EXIT_FAILURE) in
  match la_cmd o with
  | None => fail
  | Some cmd =>
      oom ← fallibleN 2;  (* argvNewBuffer, argvNew *)
      if (oom : bool) then fail else
      r ← crinitCapRetainPermitted;
      if r =? -1 then fail else
      r ← match la_cgroup o with
          | Some name => λ p, crinitCGroupAssignPID (mkCgroup (Some name) (-1) None None) (pr_pid p) p
          | None => mret 0
          end;
      if negb (r =? 0) then fail else
      let fail : P launched := if la_cgroup o then mundef else fail in
      err ← match la_groups o with
            | Some (gid :: supplementary) =>
                err ← setgroups [];
                if (err : bool) then mret true else
                err ← setgid gid;
                if (err : bool) then mret true else
                match supplementary with [] => mret false | _ => setgroups supplementary end
            | _ => mret false
            end;
      if (err : bool) then fail else
      err ← (if la_userFound o then setuid (la_user o) else mret false);
      if (err : bool) then fail else
      r ← crinitCapSetInheritable supported (la_caps o);
      if r =? -1 then fail else
      r ← crinitCapSetAmbient supported (la_caps o);
      if r =? -1 then fail else
      err ← fallible;
      if (err : bool) then fail else mret (Exec cmd (cmd :: targets))
  end.

Definition main (posix : bool) (argv : list string) : P launched :=
  r ← option_loop (Datatypes.S (words_size argv)) posix (mkGetopt "" (tail argv) []) no_opts;
  match r with
  | inr code => mret (Exit code)
  | inl (o, targets) => launch o targets
  end.
End Main.
