(* ===== verification/LaunchProps.v ===== *)
(** * What the launcher starts, and with which privileges *)

From Stdlib Require Import ZArith Lia Bool List String Ascii.
From stdpp Require Import base list strings gmap.
From S2P Require Import Prelude CString EnvSet Timer Task TaskDB TaskDBSpec TimerDB Lexers ConfConv Ini GlobOpt Cgroup.
From S2P Require Import Dispatch RtimProps CgroupFs CgroupProps Launch.

Open Scope Z_scope.
Open Scope crinit_scope.

#[local] Arguments String.append : simpl nomatch.

(** ** Outcomes with an exception

    [Q] holds of what is returned, and if nothing is returned [bad] holds. *)

Definition unless {S A} (bad : Prop) (m : M S A) (Q : A → S → Prop) (s : S) : Prop :=
  match m s with Ret a s' => Q a s' | _ => bad end.

Section Unless.
Context {S : Type} (bad : Prop).

Lemma unless_wp {A} (m : M S A) Q s : wp m Q s → unless bad m Q s.
Proof. unfold wp, unless. by destruct (m s). Qed.

Lemma unless_bind {A B} (m : M S A) (k : A → M S B) Q s : unless bad m (λ a s', unless bad (k a) Q s') s → unless bad (m ≫= k) Q s.
Proof. unfold unless, mbind, M_bind. by destruct (m s). Qed.

Lemma unless_mono {A} (m : M S A) (Q R : A → S → Prop) s : (∀ a s', Q a s' → R a s') → unless bad m Q s → unless bad m R s.
Proof. unfold unless. destruct (m s); auto. Qed.

Lemma unless_wlp {A} (m : M S A) Q s : unless bad m Q s → wlp m Q s.
Proof. unfold unless, wlp. by destruct (m s). Qed.

Lemma unless_total {A} (m : M S A) Q s : ¬ bad → unless bad m Q s → wp m Q s.
Proof. unfold unless, wp. by destruct (m s). Qed.
End Unless.

(** ** getopt_long() makes progress *)

Definition getopt_size (st : getopt_state) : nat := String.length (go_cluster st) + words_size (go_rest st).

Lemma word_short w c r : word_kind w = WShort c r → String.length w = S (S (String.length r)).
Proof. destruct w as [|d [|e w]]; simpl; [done..|]. repeat case_match; intros; by simplify_eq. Qed.

Lemma getopt_progress posix opts longs st :
  match getopt_long posix opts longs st with
  | (OptEnd, _) => True
  | (_, st') => (getopt_size st' < getopt_size st)%nat
  end.
Proof.
  assert (∀ c r rest skipped n, (String.length r + words_size rest < n)%nat →
    match short_option opts c r rest skipped with (OptEnd, _) => True | (_, st') => (getopt_size st' < n)%nat end) as Hshort.
  { intros c r rest skipped n Hn. unfold short_option, getopt_size. destruct (short_arg opts c) as [[]|]; simpl; try done.
    - destruct (negb _); simpl; [lia|]. destruct rest; simpl in *; lia.
    - lia. }
  remember (getopt_size st) as n eqn:En. unfold getopt_size in En. unfold getopt_long.
  destruct st as [[|c r] rest skipped]; cbn [go_cluster go_rest go_skipped] in *; [|apply Hshort; simpl in En; lia].
  cbn [String.length Nat.add] in En. subst n. revert skipped.
  induction rest as [|w rest IH]; intros skipped; cbn [next_word words_size foldr]; [done|].
  assert (∀ text, match long_option_step longs text rest skipped with
    (OptEnd, _) => True | (_, st') => (getopt_size st' ≤ words_size rest)%nat end) as Hlong.
  { intros text. unfold long_option_step. destruct (match str_break _ _ with Some _ => _ | None => _ end) as [name arg].
    destruct (long_match longs name) as [[? [] ?]|]; cbn [lo_arg]; destruct arg; try done; destruct rest; unfold getopt_size; simpl; lia. }
  fold (words_size rest). destruct (word_kind w) as [|text|c r|] eqn:Ew; [done| | |].
  - specialize (Hlong text). destruct (long_option_step longs text rest skipped) as [[] st']; [done|lia..].
  - apply Hshort. apply word_short in Ew. lia.
  - destruct posix; [done|]. specialize (IH (skipped ++ [w])). destruct (next_word _ _ _ _ _) as [[] st']; [done|lia..].
Qed.

(** The fuel of the loop is enough: more does not change it. *)
Lemma option_loop_fuel posix n m st o s :
  (getopt_size st < n)%nat → (getopt_size st < m)%nat → option_loop n posix st o s = option_loop m posix st o s.
Proof.
  revert m st o s. induction n as [|n IH]; intros [|m] st o s Hn Hm; try lia. cbn [option_loop].
  pose proof (getopt_progress posix short_opts longOptions st) as Hp.
  destruct (getopt_long posix short_opts longOptions st) as [[] st']; [done| |done].
  unfold mbind, M_bind. destruct (handle_option c arg o s) as [[o'|code] s'| |]; [apply IH; lia|done..].
Qed.

(** ** Steps of the process *)

(** The credentials have become [c] and the log of the cgroup file system [l]. *)
Record became (c : creds) (l : list (string * string)) (s s' : process) : Prop := {
  bc_creds : pr_creds s' = c;
  bc_log : cf_log (pr_cg s') = l;
  bc_dirs : cf_dirs (pr_cg s') = cf_dirs (pr_cg s);
  bc_pid : pr_pid s' = pr_pid s;
  bc_quiet : quiet s → quiet s';
}.

Lemma became_refl s : became (pr_creds s) (cf_log (pr_cg s)) s s.
Proof. by split. Qed.

Lemma became_trans c l c' l' s s' s'' : became c l s s' → became c' l' s' s'' → became c' l' s s''.
Proof. intros [] []. split; try congruence. auto. Qed.

Lemma became_faults s s' : only_faults s s' → became (pr_creds s) (cf_log (pr_cg s)) s s'.
Proof. intros Hs. split; try (by destruct Hs as [[fs ->] _]). by apply only_faults_quiet. Qed.

Section Steps.
(** [bad]: something fails. *)
Context (bad : Prop) (s0 : process) (Hbad : ¬ quiet s0 → bad).

Lemma step_fallible c l s (Q : bool → process → Prop) :
  became c l s0 s → (∀ s', became c l s0 s' → Q false s') → (∀ s', bad → became c l s0 s' → Q true s') → unless bad fallible Q s.
Proof.
  intros Hs Hok Herr. apply unless_wp, wp_fallible_why. intros b s' Hs' Hb.
  assert (became c l s0 s') as H'.
  { eapply became_trans; [done|]. destruct Hs as [<- <- _ _ _]. by apply became_faults. }
  destruct b; [|auto]. apply Herr; [|done]. apply Hbad. intros Hq. pose proof (Hb (bc_quiet _ _ _ _ Hs Hq)). done.
Qed.

Lemma step_guarded allowed f c l s (Q : bool → process → Prop) :
  became c l s0 s → (allowed c = false → bad) →
  (∀ s', allowed c = true → became (f c) l s0 s' → Q false s') → (∀ s', bad → became c l s0 s' → Q true s') →
  unless bad (guarded allowed f) Q s.
Proof.
  intros Hs Hall Hok Herr. unfold guarded. apply unless_bind. unfold unless at 1, mcreds. rewrite (bc_creds _ _ _ _ Hs).
  destruct (allowed c) eqn:Ea; cbn [negb]; [|apply Herr; auto]. apply unless_bind. eapply step_fallible; [done| |auto].
  intros s' H'. apply Hok; [done|]. destruct H' as [<- <- H1 H2 H3]. by split.
Qed.

Lemma step_fallibleN n c l s (Q : bool → process → Prop) :
  became c l s0 s → (∀ s', became c l s0 s' → Q false s') → (∀ s', bad → became c l s0 s' → Q true s') → unless bad (fallibleN n) Q s.
Proof.
  intros Hs Hok Herr. revert s Hs. induction n as [|n IH]; intros s Hs; simpl; [by apply Hok|].
  apply unless_bind. eapply step_fallible; [done|auto|]. intros s' Hb H'. by apply Herr.
Qed.
End Steps.

(** ** Sets of capabilities *)

Lemma subset_spec a b : subset a b = true ↔ ∀ i, Z.testbit a i = true → Z.testbit b i = true.
Proof.
  unfold subset. rewrite Z.eqb_eq. split.
  - intros E i Ha. destruct (Z.testbit b i) eqn:Eb; [done|]. assert (Z.testbit (Z.ldiff a b) i = true) as Hd by (by rewrite Z.ldiff_spec, Ha, Eb).
    by rewrite E, Z.bits_0 in Hd.
  - intros Hs. apply Z.bits_inj'. intros i Hi. rewrite Z.ldiff_spec, Z.bits_0. specialize (Hs i). destruct (Z.testbit a i); [|done].
    by rewrite Hs.
Qed.

Definition cap_range (mask : Z) : Prop := 0 ≤ mask < 2 ^ 41.

Lemma cap_range_spec mask : 0 ≤ mask → out_of_range mask = false ↔ cap_range mask.
Proof.
  intros H0. unfold out_of_range, cap_range, CAP_LAST_CAP. rewrite Z.ltb_ge, Z.shiftr_div_pow2 by lia.
  change (2 ^ (40 + 1)) with (2 ^ 41). split; intros H.
  - split; [done|]. destruct (Z.lt_ge_cases mask (2 ^ 41)); [done|]. assert (1 ≤ mask / 2 ^ 41) by (apply Z.div_le_lower_bound; lia). lia.
  - rewrite Z.div_small; lia.
Qed.

(** The bits of [mask] that the indices name, added to a set. *)
Definition with_bits (mask : Z) (l : list Z) (a : Z) : Z := foldl (λ a i, if Z.testbit mask i then Z.setbit a i else a) a l.

Lemma with_bits_spec mask l a i :
  Forall (λ j, 0 ≤ j) l → 0 ≤ i → Z.testbit (with_bits mask l a) i = Z.testbit a i || (bool_decide (i ∈ l) && Z.testbit mask i).
Proof.
  intros Hl Hi. revert a. induction Hl as [|j l Hj Hl IH]; intros a; [by rewrite orb_false_r|]. cbn [with_bits foldl].
  fold (with_bits mask l (if Z.testbit mask j then Z.setbit a j else a)). rewrite IH. destruct (decide (i = j)) as [->|Hne].
  - rewrite (bool_decide_eq_true_2 (j ∈ j :: l)) by set_solver. destruct (Z.testbit mask j) eqn:Em; [|by rewrite !andb_false_r].
    rewrite Z.setbit_eq by done. simpl. by rewrite !orb_true_r.
  - replace (bool_decide (i ∈ j :: l)) with (bool_decide (i ∈ l)) by (apply bool_decide_ext; set_solver).
    destruct (Z.testbit mask j); [|done]. by rewrite Z.setbit_neq by lia.
Qed.

Lemma with_all_bits mask a : cap_range mask → subset a mask = true → with_bits mask cap_indices a = mask.
Proof.
  intros [H0 Hr] Hs. apply Z.bits_inj'. intros i Hi.
  rewrite with_bits_spec by (done || (apply Forall_forall; intros j; unfold cap_indices; rewrite elem_of_seqZ; lia)).
  rewrite subset_spec in Hs. specialize (Hs i). destruct (Z.testbit mask i) eqn:Em.
  - rewrite bool_decide_eq_true_2; [by rewrite orb_true_r|]. unfold cap_indices, CAP_LAST_CAP. rewrite elem_of_seqZ.
    split; [done|]. destruct (Z.lt_ge_cases i 41); [lia|]. rewrite (Z.bits_above_log2 mask i) in Em; [done|done|].
    destruct (decide (mask = 0)) as [->|]; [simpl; lia|]. apply Z.log2_lt_pow2; [lia|].
    eapply Z.lt_le_trans; [apply Hr|]. apply Z.pow_le_mono_r; lia.
  - rewrite andb_false_r, orb_false_r. destruct (Z.testbit a i); [|done]. by specialize (Hs eq_refl).
Qed.

Lemma land_subset a b : subset (Z.land a b) b = true.
Proof. apply subset_spec. intros i. rewrite Z.land_spec. by intros [_ ?]%andb_true_iff. Qed.

(** ** Starting the command *)

Section Start.
Context (supported : Z → bool).

(** A privileged process that can give what is asked for. *)
Record can_launch (o : launch_opts) (s : process) : Prop := {
  cl_pid : 0 < pr_pid s;
  cl_cmd : is_Some (la_cmd o);
  cl_setgid : capable CAP_SETGID (pr_creds s) = true;
  cl_setuid : capable CAP_SETUID (pr_creds s) = true;
  cl_setpcap : capable CAP_SETPCAP (pr_creds s) = true;
  cl_range : cap_range (la_caps o);
  cl_supported : ∀ i, Z.testbit (la_caps o) i = true → supported i = true;
  cl_permitted : subset (la_caps o) (pc_permitted (pr_creds s)) = true;
  cl_bounding : subset (la_caps o) (Z.lor (pc_inheritable (pr_creds s)) (pc_bounding (pr_creds s))) = true;
  cl_raise : Z.testbit (pc_securebits (pr_creds s)) SECBIT_NO_CAP_AMBIENT_RAISE = false;
  cl_cgroup : ∀ n, la_cgroup o = Some n → n ∈ cf_dirs (pr_cg s);
}.

(** What the options ask for. *)
Record as_asked (o : launch_opts) (s s' : process) : Prop := {
  aa_user : pc_uid (pr_creds s') = if la_userFound o then la_user o else pc_uid (pr_creds s);
  aa_group : pc_gid (pr_creds s') = match la_groups o with Some (g :: _) => g | _ => pc_gid (pr_creds s) end;
  aa_groups : pc_groups (pr_creds s') = match la_groups o with Some (_ :: gs) => gs | _ => pc_groups (pr_creds s) end;
  aa_inheritable : pc_inheritable (pr_creds s') = la_caps o;
  aa_ambient : pc_ambient (pr_creds s') = la_caps o;
  aa_cgroup : cf_log (pr_cg s') = cf_log (pr_cg s) ++
    match la_cgroup o with Some n => [(join_path n "cgroup.procs", (print_dec (pr_pid s) +:+ str1 (chr 10))%string)] | None => [] end;
}.

(** The IDs that the options ask for. *)
Definition given_groups (o : launch_opts) (c : creds) : creds :=
  match la_groups o with Some (g :: gs) => set_groups gs (set_gid g (set_groups [] c)) | _ => c end.
Definition given_user (o : launch_opts) (c : creds) : creds := if la_userFound o then set_uid (la_user o) c else c.

Section Bad.
Context (bad : Prop) (s0 : process) (Hbad : ¬ quiet s0 → bad).

Lemma flag_loop_spec mask l inh c log s :
  became c log s0 s → (∀ i, i ∈ l → Z.testbit mask i = true → supported i = false → bad) →
  unless bad (flag_loop supported mask l inh)
    (λ r s', became c log s0 s' ∧ match r with Some v => v = with_bits mask l inh | None => bad end) s.
Proof.
  revert inh s. induction l as [|i l IH]; intros inh s Hs Hsup; cbn [flag_loop with_bits foldl]; [done|].
  assert (∀ j, j ∈ l → Z.testbit mask j = true → supported j = false → bad) as Hsup' by (intros j Hj; apply Hsup; by constructor).
  destruct (Z.testbit mask i) eqn:Ei; cbn [negb]; [|by apply IH]. destruct (supported i) eqn:Es; cbn [negb].
  2:{ split; [done|]. eapply Hsup; [constructor|done|done]. }
  apply unless_bind. eapply step_fallible; [done|done|..]; [|done]. intros s' H'. by apply IH.
Qed.

Lemma raise_loop_spec mask l c log s :
  became c log s0 s → (∀ i, i ∈ l → Z.testbit mask i = true → supported i = false → bad) →
  (∀ i, i ∈ l → Z.testbit mask i = true → Z.testbit (pc_permitted c) i && Z.testbit (pc_inheritable c) i &&
     negb (Z.testbit (pc_securebits c) SECBIT_NO_CAP_AMBIENT_RAISE) = false → bad) →
  unless bad (raise_loop supported mask l)
    (λ r s', if r =? 0 then became (set_ambient (with_bits mask l (pc_ambient c)) c) log s0 s' else r = -1 ∧ bad) s.
Proof.
  revert c s. induction l as [|i l IH]; intros c s Hs Hsup Hall; cbn [raise_loop with_bits foldl].
  { unfold unless, mret, M_ret. cbn [Z.eqb]. by destruct c. }
  assert (∀ j, j ∈ l → Z.testbit mask j = true → supported j = false → bad) as Hsup' by (intros j Hj; apply Hsup; by constructor).
  destruct (Z.testbit mask i) eqn:Ei; cbn [negb].
  2:{ apply IH; [done|done|]. intros j Hj. apply Hall. by constructor. }
  destruct (supported i) eqn:Es; cbn [negb].
  2:{ split; [done|]. eapply Hsup; [constructor|done|done]. }
  apply unless_bind. unfold ambient_raise. eapply (step_guarded bad s0 Hbad); [exact Hs| | |].
  - intros E. eapply Hall; [constructor|done|done].
  - intros s' _ H'. eapply unless_mono; [|apply (IH (set_ambient (Z.setbit (pc_ambient c) i) c)); [exact H'|done|]]; [done|].
    intros j Hj. apply Hall. by constructor.
  - by intros s' Hb H'.
Qed.
Lemma retain_spec c log s (Q : Z → process → Prop) :
  became c log s0 s → (capable CAP_SETPCAP c = false → bad) →
  (∀ s', became (set_securebits (Z.setbit (pc_securebits c) SECBIT_KEEP_CAPS) c) log s0 s' → Q 0 s') →
  (∀ s', bad → Q (-1) s') → unless bad crinitCapRetainPermitted Q s.
Proof.
  intros Hs Hcap Hok Herr. unfold crinitCapRetainPermitted. apply unless_bind. eapply (step_fallible bad s0 Hbad); [done| |].
  2:{ intros s1 Hb _. by apply Herr. }
  intros s1 H1. apply unless_bind. unfold unless at 1, mcreds. rewrite (bc_creds _ _ _ _ H1). apply unless_bind.
  eapply (step_guarded bad s0 Hbad); [done|done| |]; [by intros s2 _ H2; apply Hok|]. intros s2 Hb _. by apply Herr.
Qed.

Lemma groups_spec gid supplementary c log s (Q : bool → process → Prop) :
  became c log s0 s → (capable CAP_SETGID c = false → bad) →
  (∀ s', became (set_groups supplementary (set_gid gid (set_groups [] c))) log s0 s' → Q false s') →
  (∀ s', bad → Q true s') →
  unless bad (err ← setgroups [];
              if (err : bool) then mret true else
              err ← setgid gid;
              if (err : bool) then mret true else
              match supplementary with [] => mret false | _ => setgroups supplementary end) Q s.
Proof.
  intros Hs Hcap Hok Herr. apply unless_bind. eapply (step_guarded bad s0 Hbad); [done|done| |by intros s1 Hb _; apply Herr].
  intros s1 _ H1. apply unless_bind. eapply (step_guarded bad s0 Hbad); [exact H1| | |by intros s2 Hb _; apply Herr].
  { intros [E _]%orb_false_iff. by apply Hcap. }
  intros s2 _ H2. destruct supplementary as [|g gs]; [by apply Hok|].
  eapply (step_guarded bad s0 Hbad); [exact H2|done| |by intros s3 Hb _; apply Herr]. intros s3 _ H3. by apply Hok.
Qed.

Lemma inheritable_spec mask c log s (Q : Z → process → Prop) :
  0 ≤ mask → became c log s0 s → (¬ cap_range mask → bad) → (∀ i, Z.testbit mask i = true → supported i = false → bad) →
  (capset_allowed mask c = false → bad) →
  (∀ s', cap_range mask → became (set_inheritable mask c) log s0 s' → Q 0 s') → (∀ s', bad → Q (-1) s') →
  unless bad (crinitCapSetInheritable supported mask) Q s.
Proof.
  intros H0 Hs Hr Hsup Hall Hok Herr. unfold crinitCapSetInheritable. apply unless_bind.
  eapply (step_fallible bad s0 Hbad); [done| |by intros s1 Hb _; apply Herr]. intros s1 H1. apply unless_bind.
  eapply (step_fallible bad s0 Hbad); [done| |by intros s2 Hb _; apply Herr]. intros s2 H2. apply unless_bind.
  unfold crinitSetCapStateInheritable. destruct (out_of_range mask) eqn:Er.
  { apply Herr, Hr. rewrite <- cap_range_spec by done. by rewrite Er. }
  apply cap_range_spec in Er; [|done].
  eapply unless_mono; [|eapply flag_loop_spec; [exact H2|eauto]]. intros r s3 [H3 Hv]. destruct r as [v|]; [|by apply Herr].
  rewrite with_all_bits in Hv by (done || by apply subset_spec; intros i; rewrite Z.bits_0). subst v. apply unless_bind.
  eapply (step_guarded bad s0 Hbad); [exact H3|done| |by intros s4 Hb _; apply Herr]. intros s4 _ H4. by apply Hok.
Qed.

Lemma ambient_spec mask c log s (Q : Z → process → Prop) :
  cap_range mask → became c log s0 s → pc_inheritable c = mask → subset (pc_ambient c) mask = true →
  (∀ i, Z.testbit mask i = true → supported i = false → bad) →
  (subset mask (pc_permitted c) = false → bad) → (Z.testbit (pc_securebits c) SECBIT_NO_CAP_AMBIENT_RAISE = true → bad) →
  (∀ s', became (set_ambient mask c) log s0 s' → Q 0 s') → (∀ s', bad → Q (-1) s') →
  unless bad (crinitCapSetAmbient supported mask) Q s.
Proof.
  intros Hr Hs Hinh Hsub Hsup Hperm Hsec Hok Herr. unfold crinitCapSetAmbient. pose proof Hr as [H0 _].
  rewrite (proj2 (cap_range_spec mask H0) Hr).
  eapply unless_mono; [|eapply raise_loop_spec; [exact Hs|eauto|]].
  - intros r s' H'. cbv beta in H'. destruct (Z.eqb_spec r 0) as [->|]; [|by destruct H' as [-> Hb]; apply Herr].
    rewrite with_all_bits in H' by done. by apply Hok.
  - intros i _ Hi. rewrite Hinh, Hi, andb_true_r. destruct (Z.testbit (pc_securebits c) _) eqn:Es; [by auto|].
    rewrite andb_true_r. intros Hp. apply Hperm. destruct (subset mask _) eqn:E; [|done].
    rewrite subset_spec in E. rewrite (E i Hi) in Hp. done.
Qed.

Lemma join_spec cgroup c log s (Q : Z → process → Prop) :
  became c log s0 s → (∀ n, cgroup = Some n → pr_pid s0 ≤ 0 ∨ n ∉ cf_dirs (pr_cg s0) → bad) →
  (∀ s', became c (log ++ match cgroup with
     Some n => [(join_path n "cgroup.procs", (print_dec (pr_pid s0) +:+ str1 (chr 10))%string)] | None => [] end) s0 s' → Q 0 s') →
  (∀ s', bad → Q (-1) s') →
  unless bad match cgroup with
             | Some name => λ p, crinitCGroupAssignPID (mkCgroup (Some name) (-1) None None) (pr_pid p) p
             | None => mret 0
             end Q s.
Proof.
  intros Hs Hb Hok Herr. destruct cgroup as [n|]; [|apply Hok; by rewrite app_nil_r].
  change (unless bad (crinitCGroupAssignPID (mkCgroup (Some n) (-1) None None) (pr_pid s)) Q s). rewrite (bc_pid _ _ _ _ Hs).
  destruct (Z.leb_spec (pr_pid s0) 0) as [Hpid|Hpid].
  { unfold crinitCGroupAssignPID. cbn [cg_name]. rewrite (proj2 (Z.leb_le _ _)) by done. eapply Herr, Hb; eauto. }
  apply unless_wp. eapply wp_mono; [|apply assign_spec; [eauto|done]].
  assert (∀ f s', to f s s' → cf_dirs f = cf_dirs (pr_cg s) → became c (cf_log f) s0 s') as Hto.
  { intros f s' Ht Hd. eapply became_trans; [exact Hs|]. pose proof (to_quiet _ _ _ Ht). destruct Ht as (fs & -> & _).
    split; [apply Hs|done|done|done|done]. }
  change (group_path (mkCgroup (Some n) (-1) None None)) with n.
  intros r s' [[-> Ht]|(-> & Ht & Hq)].
  - apply Hok. rewrite <- (bc_log _ _ _ _ Hs). by apply (Hto _ s' Ht).
  - apply Herr. destruct (decide (quiet s0)) as [Hqs|]; [|by apply Hbad].
    apply (Hb n eq_refl). right. rewrite <- (bc_dirs _ _ _ _ Hs). apply Hq; [by apply (bc_quiet _ _ _ _ Hs)|]. by intros p.
Qed.
(** The two capability sets, with what follows and what a failure does. *)
Lemma caps_spec {A} mask (k fail : P A) c log s (Q : A → process → Prop) :
  0 ≤ mask → became c log s0 s → (¬ cap_range mask → bad) → (∀ i, Z.testbit mask i = true → supported i = false → bad) →
  (subset mask (pc_permitted c) = false → bad) → (subset mask (Z.lor (pc_inheritable c) (pc_bounding c)) = false → bad) →
  (Z.testbit (pc_securebits c) SECBIT_NO_CAP_AMBIENT_RAISE = true → bad) →
  (∀ s', became (set_ambient mask (set_inheritable mask c)) log s0 s' → unless bad k Q s') → (∀ s', bad → unless bad fail Q s') →
  unless bad (r ← crinitCapSetInheritable supported mask;
              if r =? -1 then fail else
              r ← crinitCapSetAmbient supported mask;
              if r =? -1 then fail else k) Q s.
Proof.
  intros H0 Hs Hr Hsup Hperm Hbnd Hsec Hok Herr. apply unless_bind.
  eapply inheritable_spec; [done|exact Hs|done|done| | |by intros s1 Hb; apply Herr].
  { intros [E|E]%andb_false_iff; [|by apply Hbnd]. apply orb_false_iff in E as [_ E]. apply Hperm.
    apply not_true_iff_false. intros Hp. apply not_true_iff_false in E. apply E, subset_spec. intros i Hi.
    rewrite subset_spec in Hp. by rewrite Z.lor_spec, (Hp i Hi), orb_true_r. }
  intros s1 Hrange H1. cbn [Z.eqb]. apply unless_bind.
  eapply ambient_spec; [done|exact H1|done|apply land_subset|done|done|done| |by intros s2 Hb; apply Herr]. intros s2 H2. by apply Hok.
Qed.

Lemma groups_opt_spec o c log s :
  became c log s0 s → (capable CAP_SETGID c = false → bad) →
  unless bad match la_groups o with
             | Some (gid :: supplementary) =>
                 err ← setgroups [];
                 if (err : bool) then mret true else
                 err ← setgid gid;
                 if (err : bool) then mret true else
                 match supplementary with [] => mret false | _ => setgroups supplementary end
             | _ => mret false
             end (λ (err : bool) s', if err then bad else became (given_groups o c) log s0 s') s.
Proof.
  intros Hs Hcap. unfold given_groups. destruct (la_groups o) as [[|g gs]|]; [done| |done].
  by eapply groups_spec; [exact Hs|..].
Qed.

Lemma user_opt_spec o c log s :
  became c log s0 s → (capable CAP_SETUID c = false → bad) →
  unless bad (if la_userFound o then setuid (la_user o) else mret false)
    (λ (err : bool) s', if err then bad else became (given_user o c) log s0 s') s.
Proof.
  intros Hs Hcap. unfold given_user. destruct (la_userFound o); [|done].
  eapply (step_guarded bad s0 Hbad); [exact Hs| |by intros s' _ H'|done]. intros [E _]%orb_false_iff. by apply Hcap.
Qed.
End Bad.

(** The options leave the capabilities that may be given. *)
Lemma given_caps o c :
  Z.testbit (pc_securebits c) SECBIT_KEEP_CAPS = true → let c' := given_user o (given_groups o c) in
  pc_permitted c' = pc_permitted c ∧ pc_inheritable c' = pc_inheritable c ∧ pc_bounding c' = pc_bounding c ∧
  pc_securebits c' = pc_securebits c.
Proof.
  intros Hk. assert (pc_permitted (given_groups o c) = pc_permitted c ∧ pc_inheritable (given_groups o c) = pc_inheritable c ∧
    pc_bounding (given_groups o c) = pc_bounding c ∧ pc_securebits (given_groups o c) = pc_securebits c) as (<- & <- & <- & E)
    by (unfold given_groups; by destruct (la_groups o) as [[]|]).
  unfold given_user. destruct (la_userFound o); [|done]. rewrite <- E in *. cbv zeta. unfold set_uid.
  cbn [pc_permitted pc_inheritable pc_bounding pc_securebits]. rewrite Hk, andb_false_r. done.
Qed.

Lemma launch_spec o targets s :
  0 ≤ la_caps o →
  unless (¬ (quiet s ∧ can_launch o s)) (launch supported o targets)
    (λ r s', match r with
             | Exec c av => la_cmd o = Some c ∧ av = c :: targets ∧ as_asked o s s'
             | Exit _ => ¬ (quiet s ∧ can_launch o s)
             end) s.
Proof.
  intros H0. set (bad := ¬ (quiet s ∧ can_launch o s)). assert (¬ quiet s → bad) as Hbad by (unfold bad; naive_solver).
  unfold launch. destruct (la_cmd o) as [cmd|] eqn:Ecmd.
  2:{ intros [_ Hc]. destruct (cl_cmd _ _ Hc). congruence. }
  match goal with |- unless _ _ ?Q _ => assert (∀ s', bad → unless bad (mret (Exit EXIT_FAILURE)) Q s') as Hfail by (by intros s' Hb);
    assert (∀ s', bad → unless bad (if la_cgroup o then mundef else mret (Exit EXIT_FAILURE)) Q s') as Hfail'
      by (intros s' Hb; by destruct (la_cgroup o)) end.
  apply unless_bind. eapply (step_fallibleN bad s Hbad); [apply became_refl| |by intros s1 Hb _; apply Hfail]. intros s1 H1.
  apply unless_bind. eapply (retain_spec bad s Hbad); [exact H1| | |by intros s2 Hb; apply Hfail].
  { intros E [_ Hc]. pose proof (cl_setpcap _ _ Hc). congruence. }
  set (c1 := set_securebits _ (pr_creds s)). intros s2 H2. cbn [Z.eqb]. apply unless_bind.
  eapply (join_spec bad s Hbad); [exact H2| | |by intros s3 Hb; apply Hfail].
  { intros n En Hn [_ Hc]. pose proof (cl_pid _ _ Hc). pose proof (cl_cgroup _ _ Hc n En). destruct Hn; [lia|done]. }
  intros s3 H3. cbn [Z.eqb negb]. cbv zeta. apply unless_bind.
  eapply unless_mono; [|eapply (groups_opt_spec bad s Hbad o); [exact H3|]].
  2:{ intros E [_ Hc]. pose proof (cl_setgid _ _ Hc) as Hc'. change (capable CAP_SETGID (pr_creds s) = false) in E. congruence. }
  intros [] s4 H4; [by apply Hfail'|]. apply unless_bind. eapply unless_mono; [|eapply (user_opt_spec bad s Hbad o); [exact H4|]].
  2:{ intros E [_ Hc]. pose proof (cl_setuid _ _ Hc) as Hc'. unfold capable in *.
      replace (pc_effective _) with (pc_effective (pr_creds s)) in E by (unfold given_groups; by destruct (la_groups o) as [[]|]). congruence. }
  intros [] s5 H5; [by apply Hfail'|]. destruct (given_caps o c1) as (Ep & Ei & Eb & Es); [by apply Z.setbit_eq|].
  set (c3 := given_user o _) in *.
  eapply (caps_spec bad s Hbad); [done|exact H5|..|done]; rewrite ?Ep, ?Ei, ?Eb, ?Es.
  - intros Hr [_ Hc]. apply Hr, Hc.
  - intros i Hi E [_ Hc]. by rewrite (cl_supported _ _ Hc i Hi) in E.
  - intros E [_ Hc]. pose proof (cl_permitted _ _ Hc) as Hp. change (pc_permitted c1) with (pc_permitted (pr_creds s)) in E. congruence.
  - intros E [_ Hc]. pose proof (cl_bounding _ _ Hc) as Hp. simpl in E. congruence.
  - intros E [_ Hc]. pose proof (cl_raise _ _ Hc) as Hp. unfold c1 in E. cbn [pc_securebits set_securebits] in E.
    rewrite Z.setbit_neq in E by (unfold SECBIT_KEEP_CAPS, SECBIT_NO_CAP_AMBIENT_RAISE; lia). congruence.
  - intros s6 H6. apply unless_bind. eapply (step_fallible bad s Hbad); [exact H6| |by intros s7 Hb _; apply Hfail'].
    intros s7 [Hc7 Hl7 _ _ _]. split_and!; [done|done|].
    split; rewrite ?Hc7, ?Hl7; unfold c3, given_user, given_groups; destruct (la_userFound o), (la_groups o) as [[]|]; done.
Qed.
End Start.

(** ** The arguments crinit passes are read back *)

Definition hex_digit (d : Z) : ascii := chr (Z.to_nat (if d <? 10 then 48 + d else 87 + d)).

Lemma hex_val d : 0 ≤ d < 16 → digit_val (hex_digit d) = d.
Proof.
  intros Hd. assert (d ∈ seqZ 0 16) as He by (rewrite elem_of_seqZ; lia).
  assert (Forall (λ d, digit_val (hex_digit d) = d) (seqZ 0 16)) as Hall by (repeat constructor).
  rewrite Forall_forall in Hall. by apply Hall.
Qed.

Fixpoint all_hex (s : string) : bool := match s with String c s => (digit_val c <? 16) && all_hex s | EmptyString => true end.

Lemma hex_go_hex fuel n acc : 0 ≤ n → all_hex acc = true → all_hex (hex_go fuel n acc) = true.
Proof.
  revert n acc. induction fuel as [|fuel IH]; intros n acc Hn Ha; [done|]. cbn [hex_go]. fold (hex_digit (n mod 16)).
  pose proof (Z.mod_pos_bound n 16 ltac:(lia)) as Hm.
  assert (all_hex (String (hex_digit (n mod 16)) acc) = true) as Hc.
  { cbn [all_hex]. rewrite hex_val, Ha, (proj2 (Z.ltb_lt _ _)) by lia. done. }
  destruct (n <? 16); [done|]. apply IH; [apply Z.div_pos; lia|done].
Qed.

Lemma digits_hex_go fuel n acc a :
  0 ≤ n < 16 ^ Z.of_nat fuel → ∃ k, digits 16 (hex_go fuel n acc) a = digits 16 acc (a * k + n).
Proof.
  revert n acc a. induction fuel as [|fuel IH]; intros n acc a Hn.
  { exists 1. change (16 ^ Z.of_nat 0) with 1 in Hn. cbn [hex_go]. f_equal. lia. }
  cbn [hex_go]. fold (hex_digit (n mod 16)). pose proof (Z.mod_pos_bound n 16 ltac:(lia)) as Hm. destruct (Z.ltb_spec n 16) as [Hlt|Hge].
  - exists 16. cbn [digits]. rewrite hex_val by lia. rewrite Z.mod_small by lia. by rewrite (proj2 (Z.ltb_lt _ _)) by lia.
  - destruct (IH (n / 16) (String (hex_digit (n mod 16)) acc) a) as [k Hk].
    { rewrite Nat2Z.inj_succ, Z.pow_succ_r in Hn by lia. split; [apply Z.div_pos; lia|apply Z.div_lt_upper_bound; lia]. }
    exists (16 * k). rewrite Hk. cbn [digits]. rewrite hex_val by lia.
    rewrite (proj2 (Z.ltb_lt _ _)) by lia. f_equal. pose proof (Z.div_mod n 16). lia.
Qed.

Lemma hex_go_cons fuel n acc : ∃ c r, hex_go (S fuel) n acc = String c r.
Proof.
  revert n acc. induction fuel as [|fuel IH]; intros n acc.
  - simpl. destruct (n <? 16); eauto.
  - remember (S fuel) as m eqn:Em. cbn [hex_go]. destruct (n <? 16); [eauto|apply IH].
Qed.

(** A hexadecimal digit is no space, no sign and no x. *)
Lemma strto_hex c r :
  all_hex (String c r) = true → strto_number (String c r) 16 = let '(v, r') := digits 16 (String c r) 0 in Some (1 * v, r').
Proof.
  cbn [all_hex]. intros [Hc Hr]%andb_true_iff. unfold strto_number.
  assert (∀ d, (digit_val d <? 16) = true → is_space d = false ∧ is_char d "x" = false ∧ is_char d "X" = false ∧
    ∀ r, (match String d r with String "-" s' => (-1, s') | String "+" s' => (1, s') | _ => (1, String d r) end) = (1, String d r)) as Hd.
  { intros [[] [] [] [] [] [] [] []] Hd; vm_compute in Hd; try discriminate Hd; split_and!; try reflexivity; by intros. }
  destruct (Hd c Hc) as (Hs & _ & _ & Hm). cbn [span]. rewrite Hs, Hm. destruct r as [|x [|h r]]; [by rewrite Hc..|].
  cbn [all_hex] in Hr. apply andb_true_iff in Hr as [Hx _]. destruct (Hd x Hx) as (_ & -> & -> & _).
  rewrite andb_false_r. cbn [andb]. by rewrite Hc.
Qed.

Lemma strtoul_hex n : 0 ≤ n < 2 ^ 64 → (strtoul (print_hex n) 16).1.1 = n.
Proof.
  intros Hn. unfold strtoul, print_hex. destruct (hex_go_cons 15 n EmptyString) as (c & r & E).
  pose proof (hex_go_hex 16 n EmptyString ltac:(lia) eq_refl) as Ha.
  destruct (digits_hex_go 16 n EmptyString 0) as [k Hk]; [done|]. rewrite E in *. rewrite strto_hex, Hk by done. cbn [digits].
  rewrite Z.abs_eq, (proj2 (Z.ltb_ge _ _)) by (unfold ULONG_MAX; lia). cbn [fst]. unfold uint64. rewrite Z.mod_small; lia.
Qed.

Lemma read_id_print n : 0 ≤ n < 2 ^ 32 → read_id (print_dec (int32 n)) = Some n.
Proof.
  intros Hn. destruct (id_roundtrip n Hn) as [Habs Hu]. unfold read_id, strtoul. rewrite strto_print.
  rewrite (proj2 (Z.ltb_ge _ _)) by done. destruct (print_dec_cons (int32 n)) as (c & r & ->). cbn [String.length Nat.eqb orb].
  change (str_eqb "" "") with true. cbn [negb]. by rewrite Hu.
Qed.

(** The groups of a task. *)
Lemma groups_tokens g gs :
  tokens "," (print_dec (int32 g) +:+ crinitCreateSupGroupsParamString gs)%string = (print_dec ∘ int32) <$> (g :: gs).
Proof.
  assert (∀ n, tokens "," (print_dec n) = [print_dec n]) as Hp.
  { intros n. apply tokens_plain; [by destruct (print_dec_cons n) as (c & r & ->)|]. by apply lacks_print. }
  revert g. induction gs as [|h gs IH]; intros g; [cbn [crinitCreateSupGroupsParamString]; by rewrite string_app_nil_r, Hp|].
  cbn [crinitCreateSupGroupsParamString]. unfold group_text. cbn [String.append]. rewrite tokens_app, Hp, IH. done.
Qed.

Lemma count_char_app c a b : count_char c (a +:+ b)%string = (count_char c a + count_char c b)%nat.
Proof. induction a as [|d a IH]; [done|]. cbn [String.append count_char]. rewrite IH. by destruct (is_char d c). Qed.

Lemma count_lacks c a : lacks c a → count_char c a = O.
Proof.
  unfold lacks. induction a as [|d a IH]; [done|]. rewrite str_has_cons. cbn [count_char]. intros [Hd Ha]%orb_false_iff.
  unfold is_char. rewrite Hd. by apply IH.
Qed.

Lemma count_groups g gs : count_char "," (print_dec (int32 g) +:+ crinitCreateSupGroupsParamString gs)%string = length gs.
Proof.
  revert g. induction gs as [|h gs IH]; intros g; cbn [crinitCreateSupGroupsParamString].
  - rewrite string_app_nil_r. apply count_lacks. by apply lacks_print.
  - unfold group_text. rewrite count_char_app, (count_lacks _ (print_dec _)) by (by apply lacks_print).
    cbn [String.append count_char]. by rewrite IH.
Qed.

Definition id_ok (n : Z) : Prop := 0 ≤ n < 2 ^ 32.

Lemma extract_groups bad s0 (Hbad : ¬ quiet s0 → bad) g gs c log s (Q : option (list Z) → process → Prop) :
  became c log s0 s → Forall id_ok (g :: gs) →
  (∀ s', became c log s0 s' → Q (Some (g :: gs)) s') → (∀ s', bad → became c log s0 s' → Q None s') →
  unless bad (crinitExtractGroups (print_dec (int32 g) +:+ crinitCreateSupGroupsParamString gs)%string) Q s.
Proof.
  intros Hs Hok HQ Herr. unfold crinitExtractGroups. cbv zeta. apply unless_bind.
  eapply (step_fallible bad s0 Hbad); [exact Hs| |auto]. intros s1 H1. unfold unless, mret, M_ret.
  rewrite tok_loop_enough, groups_tokens, count_groups by (etrans; [apply tokens_length|lia]).
  assert (mapM read_id ((print_dec ∘ int32) <$> (g :: gs)) = Some (g :: gs)) as ->.
  { apply mapM_Some. apply Forall2_fmap_l. rewrite Forall_forall in Hok. apply Forall2_same_length_lookup. split; [done|].
    intros i x y Hx Hy. simplify_eq. apply read_id_print, Hok. by eapply list_elem_of_lookup_2. }
  cbn [mbind option_bind length]. rewrite Nat.eqb_refl. by apply HQ.
Qed.

(** A long option with its argument. *)
Lemma getopt_option posix name val o rest :
  str_has "=" name = false → long_match longOptions name = Some o → lo_arg o ≠ no_argument →
  getopt_long posix short_opts longOptions (mkGetopt "" (("--" +:+ name +:+ String "=" val)%string :: rest) []) =
    (Opt (lo_val o) (Some val), mkGetopt "" rest []).
Proof.
  intros Hn Hm Ha. unfold getopt_long. cbn [go_cluster go_rest go_skipped next_word].
  assert (word_kind ("--" +:+ name +:+ String "=" val)%string = WLong (name +:+ String "=" val)%string) as ->.
  { cbn [String.append word_kind]. change (is_char "-" "-") with true. cbn [negb]. destruct name; done. }
  unfold long_option_step. rewrite str_break_app by done. rewrite Hm. by destruct (lo_arg o).
Qed.

Lemma option_step n posix name val d rest o s :
  str_has "=" name = false → long_match longOptions name = Some d → lo_arg d ≠ no_argument →
  option_loop (S n) posix (mkGetopt "" (("--" +:+ name +:+ String "=" val)%string :: rest) []) o s =
    (r ← handle_option (lo_val d) (Some val) o;
     match r with inl o => option_loop n posix (mkGetopt "" rest []) o | inr code => mret (inr code) end) s.
Proof. intros Hn Hm Ha. cbn [option_loop]. by rewrite (getopt_option posix name val d rest). Qed.

Lemma option_end n posix args o s : option_loop (S n) posix (mkGetopt "" ("--"%string :: args) []) o s = Ret (inl (o, args)) s.
Proof. done. Qed.

(** What a task asks of the launcher. *)
Definition launch_of (arg0 : string) (t : crinitTask) (caps : Z) : launch_opts :=
  mkLaunch (Some arg0) (t_user t) true (Some (t_group t :: t_supGroups t)) caps (t_cgroup t ≫= cgroup_path).

Record task_ids (t : crinitTask) : Prop := {
  ti_user : id_ok (t_user t);
  ti_groups : Forall id_ok (t_group t :: t_supGroups t);
  ti_cgroup : ∀ g, t_cgroup t = Some g → is_Some (cgroup_path g);
}.

Section Parse.
Context (bad : Prop) (s0 : process) (Hbad : ¬ quiet s0 → bad).

Lemma unless_run {A} (m m' : P A) Q s : m s = m' s → unless bad m' Q s → unless bad m Q s.
Proof. unfold unless. by intros ->. Qed.

(** The options are read as they were written; what cannot be copied is missing. *)
Definition understood (arg0 : string) (args : list string) (t : crinitTask) (caps : Z) (r : launch_opts * list string + Z) : Prop :=
  match r with
  | inr _ => bad
  | inl (o, targets) => targets = args ∧ (o = launch_of arg0 t caps ∨ bad ∧
      ∃ cmd cg, (cmd = None ∨ cmd = Some arg0) ∧ o = mkLaunch cmd (t_user t) true (Some (t_group t :: t_supGroups t)) caps cg)
  end.

(** The options one by one. *)
Lemma read_cmd n posix arg0 rest cmd' u f g k cg c log s Q :
  became c log s0 s → cmd' = None →
  (∀ s' o, became c log s0 s' → o = Some arg0 ∨ o = None ∧ bad →
     unless bad (option_loop n posix (mkGetopt "" rest []) (mkLaunch o u f g k cg)) Q s') →
  unless bad (option_loop (S n) posix (mkGetopt "" (("--cmd=" +:+ arg0)%string :: rest) []) (mkLaunch cmd' u f g k cg)) Q s.
Proof.
  intros Hs -> HQ. eapply unless_run; [apply (option_step _ posix "cmd" arg0 (mkLong "cmd" required_argument "c")); done|].
  apply unless_bind. change (handle_option _ _ _) with
    (oom ← fallible; mret (inl (mkLaunch (if (oom : bool) then None else Some arg0) u f g k cg)) : P (launch_opts + Z)).
  apply unless_bind. eapply (step_fallible bad s0 Hbad); [exact Hs| |]; intros; apply HQ; auto.
Qed.

Lemma read_user n posix uid rest cmd u f g k cg s Q :
  id_ok uid → unless bad (option_loop n posix (mkGetopt "" rest []) (mkLaunch cmd uid true g k cg)) Q s →
  unless bad (option_loop (S n) posix (mkGetopt "" (("--user=" +:+ print_dec (int32 uid))%string :: rest) []) (mkLaunch cmd u f g k cg)) Q s.
Proof.
  intros Hu HQ. eapply unless_run; [apply (option_step _ posix "user" _ (mkLong "user" required_argument "u")); done|].
  apply unless_bind. change (handle_option _ _ _) with
    (match read_id (print_dec (int32 uid)) with Some v => mret (inl (mkLaunch cmd v true g k cg)) | None => mret (inr EXIT_FAILURE) end : P (launch_opts + Z)).
  by rewrite read_id_print.
Qed.

Lemma read_groups n posix gid gs rest cmd u f k cg c log s Q :
  became c log s0 s → Forall id_ok (gid :: gs) →
  (∀ s', became c log s0 s' → unless bad (option_loop n posix (mkGetopt "" rest []) (mkLaunch cmd u f (Some (gid :: gs)) k cg)) Q s') →
  (∀ s', bad → became c log s0 s' → Q (inr EXIT_FAILURE) s') →
  unless bad (option_loop (S n) posix
    (mkGetopt "" (("--group=" +:+ print_dec (int32 gid) +:+ crinitCreateSupGroupsParamString gs)%string :: rest) [])
    (mkLaunch cmd u f None k cg)) Q s.
Proof.
  intros Hs Hg HQ Herr. eapply unless_run; [apply (option_step _ posix "group" _ (mkLong "groups" required_argument "g")); done|].
  apply unless_bind. change (handle_option _ _ _) with
    (r ← crinitExtractGroups (print_dec (int32 gid) +:+ crinitCreateSupGroupsParamString gs);
     match r with Some g => mret (inl (mkLaunch cmd u f (Some g) k cg)) | None => mret (inr EXIT_FAILURE) end : P (launch_opts + Z)).
  apply unless_bind. by eapply (extract_groups bad s0 Hbad).
Qed.

Lemma read_caps n posix caps rest cmd u f g k cg s Q :
  0 ≤ caps < 2 ^ 64 → unless bad (option_loop n posix (mkGetopt "" rest []) (mkLaunch cmd u f g caps cg)) Q s →
  unless bad (option_loop (S n) posix (mkGetopt "" (("--caps=" +:+ print_hex caps)%string :: rest) []) (mkLaunch cmd u f g k cg)) Q s.
Proof.
  intros Hc HQ. eapply unless_run; [apply (option_step _ posix "caps" _ (mkLong "caps" required_argument "p")); done|].
  apply unless_bind. change (handle_option _ _ _) with
    (mret (inl (mkLaunch cmd u f g (strtoul (print_hex caps) 16).1.1 cg)) : P (launch_opts + Z)).
  by rewrite strtoul_hex.
Qed.

Lemma read_cgroup n posix path rest cmd u f g k c log s Q :
  became c log s0 s →
  (∀ s' o, became c log s0 s' → o = Some path ∨ bad →
     unless bad (option_loop n posix (mkGetopt "" rest []) (mkLaunch cmd u f g k o)) Q s') →
  unless bad (option_loop (S n) posix (mkGetopt "" (("--cgroup=" +:+ path)%string :: rest) []) (mkLaunch cmd u f g k None)) Q s.
Proof.
  intros Hs HQ. eapply unless_run; [apply (option_step _ posix "cgroup" path (mkLong "cgroup" optional_argument "r")); done|].
  apply unless_bind. change (handle_option _ _ _) with
    (oom ← fallible; mret (inl (mkLaunch cmd u f g k (if (oom : bool) then None else Some path))) : P (launch_opts + Z)).
  apply unless_bind. eapply (step_fallible bad s0 Hbad); [exact Hs| |]; intros; apply HQ; auto.
Qed.

Lemma options_read posix n cmd arg0 args t caps c log s :
  became c log s0 s → task_ids t → 0 ≤ caps < 2 ^ 64 →
  unless bad (option_loop (6 + n) posix (mkGetopt "" (tail (launcher_argv cmd args t caps arg0)) []) no_opts)
    (λ r s', became c log s0 s' ∧ understood arg0 args t caps r) s.
Proof.
  intros Hs [Hu Hg Hcg] Hcaps. unfold launcher_argv. cbn [tail app Nat.add]. unfold no_opts.
  eapply read_cmd; [exact Hs|done|]. intros s1 o H1 Ho. apply read_user; [done|].
  eapply read_groups; [exact H1|done| |by intros; split]. intros s2 H2. apply read_caps; [done|].
  assert (∀ m s3 cg, became c log s0 s3 → cg = t_cgroup t ≫= cgroup_path ∨ bad →
    unless bad (option_loop (S m) posix (mkGetopt "" ("--"%string :: args) []) (mkLaunch o (t_user t) true (Some (t_group t :: t_supGroups t)) caps cg))
      (λ r s', became c log s0 s' ∧ understood arg0 args t caps r) s3) as Hend.
  { intros m s3 cg H3 Hcg'. split; [done|]. split; [done|].
    destruct Ho as [->|[-> Hb]]; [|right; eauto 10]. destruct Hcg' as [->|Hb]; [by left|right; eauto 10]. }
  destruct (t_cgroup t) as [g|] eqn:Eg; [|by apply Hend; [|left]].
  destruct (Hcg g eq_refl) as [path Ep]. rewrite Ep. cbn [app]. eapply read_cgroup; [exact H2|]. intros s3 cg H3 Hcg'.
  apply Hend; [done|]. cbn [mbind option_bind]. by rewrite Ep.
Qed.
End Parse.

(** ** From the arguments to the command *)

(** What a task asks of its process. *)
Record runs_as (t : crinitTask) (caps : Z) (c : creds) : Prop := {
  ra_user : pc_uid c = t_user t;
  ra_group : pc_gid c = t_group t;
  ra_groups : pc_groups c = t_supGroups t;
  ra_inheritable : pc_inheritable c = caps;
  ra_ambient : pc_ambient c = caps;
}.

Lemma asked_runs_as arg0 t caps cg s s' :
  as_asked (mkLaunch (Some arg0) (t_user t) true (Some (t_group t :: t_supGroups t)) caps cg) s s' → runs_as t caps (pr_creds s').
Proof. by intros []. Qed.

Lemma launcher_words cmd args t caps arg0 :
  ∃ n, Datatypes.S (words_size (launcher_argv cmd args t caps arg0)) = (6 + n)%nat.
Proof.
  exists (words_size (launcher_argv cmd args t caps arg0) - 5)%nat. unfold launcher_argv. cbn [app words_size foldr String.append String.length].
  lia.
Qed.

(** A state in which nothing has happened to the credentials can launch as well. *)
Lemma became_can_launch supported o s s' :
  became (pr_creds s) (cf_log (pr_cg s)) s s' → quiet s ∧ can_launch supported o s → quiet s' ∧ can_launch supported o s'.
Proof.
  intros [Hc _ Hd Hp Hq] [Hs [H1 H2 H3 H4 H5 H6 H7 H8 H9 H10 H11]]. split; [auto|]. split; rewrite ?Hc, ?Hd, ?Hp; auto.
Qed.

(** C19: crinit-launch, started with the arguments crinit builds for a command of a
    task, never executes anything but that command with its arguments, and never
    before the process has exactly the user, the group, the supplementary groups and
    the inheritable and ambient capabilities of the task; this holds whatever fails
    on the way.  If nothing fails and the process has the privileges to give what is
    asked for, the command is executed, and the process has joined the cgroup of the
    task. *)
Theorem launcher_runs_as supported posix cmd arg0 args t caps s :
  task_ids t → 0 ≤ caps < 2 ^ 64 →
  let run := main supported posix (launcher_argv cmd args t caps arg0) in
  wlp run (λ r s', ∀ c av, r = Exec c av → c = arg0 ∧ av = arg0 :: args ∧ runs_as t caps (pr_creds s')) s ∧
  (quiet s → can_launch supported (launch_of arg0 t caps) s →
   wp run (λ r s', r = Exec arg0 (arg0 :: args) ∧ as_asked (launch_of arg0 t caps) s s') s).
Proof.
  intros Ht Hcaps run. set (bad := ¬ (quiet s ∧ can_launch supported (launch_of arg0 t caps) s)).
  assert (unless bad run (λ r s', match r with
    | Exec c av => c = arg0 ∧ av = arg0 :: args ∧ runs_as t caps (pr_creds s') ∧ (bad ∨ as_asked (launch_of arg0 t caps) s s')
    | Exit _ => bad end) s) as Hrun.
  { unfold run, main. destruct (launcher_words cmd args t caps arg0) as [n ->]. apply unless_bind.
    eapply unless_mono; [|eapply (options_read bad s); [unfold bad; naive_solver|apply became_refl|done|done]].
    intros r s1 [H1 Hr]. destruct r as [[o targets]|code]; [|done]. destruct Hr as [-> Ho].
    assert (la_caps o = caps ∧ (la_cmd o = None ∨ la_cmd o = Some arg0)) as [Eo Ecmd] by (destruct Ho as [->|(_ & ? & ? & ? & ->)]; auto).
    pose proof (launch_spec supported o args s1 ltac:(lia)) as Hl. unfold unless in *.
    assert (¬ (quiet s1 ∧ can_launch supported o s1) → bad) as Hb.
    { intros Hn Hs. apply Hn. destruct Ho as [->|[Hb _]]; [by eapply became_can_launch|by destruct Hb]. }
    destruct (launch supported o args s1) as [[code|c av] s2| |]; auto. destruct Hl as (Hc & -> & Has).
    destruct Ecmd as [E|E]; rewrite E in Hc; [done|]. injection Hc as <-. split_and!; [done..| |].
    - destruct Ho as [->|(_ & ? & ? & [-> | ->] & ->)]; first [by eapply asked_runs_as in Has | done].
    - destruct Ho as [->|[Hb' _]]; [right|by left]. destruct H1 as [Hc1 Hl1 _ Hp1 _].
      destruct Has as [Ha1 Ha2 Ha3 Ha4 Ha5 Ha6]. split; rewrite ?Ha1, ?Ha2, ?Ha3, ?Ha4, ?Ha5, ?Ha6, ?Hl1, ?Hp1, ?Hc1; done. }
  split.
  - eapply unless_wlp, unless_mono; [|exact Hrun]. intros r s' H c av ->. naive_solver.
  - intros Hq Hc. assert (¬ bad) as Hnb by (unfold bad; naive_solver). eapply unless_total; [exact Hnb|].
    eapply unless_mono; [|exact Hrun]. intros [code|c av] s'; [done|]. intros (-> & -> & _ & [Hb|Has]); done.
Qed.

(** *** Reading the capabilities back *)

Lemma half_bit a k i : 0 ≤ k → 0 ≤ i → Z.testbit (uint32 (Z.shiftr a (32 * k))) i = (i <? 32) && Z.testbit a (i + 32 * k).
Proof.
  intros Hk Hi. unfold uint32. change 4294967296 with (2 ^ 32). destruct (Z.ltb_spec i 32).
  - rewrite Z.mod_pow2_bits_low, Z.shiftr_spec by lia. done.
  - by rewrite Z.mod_pow2_bits_high by lia.
Qed.

Lemma halves a : 0 ≤ a < 2 ^ 64 → Z.lor (uint32 (Z.shiftr a (32 * 0))) (uint64 (Z.shiftl (uint32 (Z.shiftr a (32 * 1))) 32)) = a.
Proof.
  intros Ha. apply Z.bits_inj'. intros i Hi. rewrite Z.lor_spec, half_bit by lia. unfold uint64. change 18446744073709551616 with (2 ^ 64). rewrite Z.add_0_r.
  destruct (Z.lt_ge_cases i 64).
  - rewrite Z.mod_pow2_bits_low by lia. destruct (Z.ltb_spec i 32).
    + rewrite Z.shiftl_spec_low by lia. apply orb_false_r.
    + rewrite Z.shiftl_spec, half_bit, (proj2 (Z.ltb_lt _ _)) by lia. cbn [andb orb]. f_equal. lia.
  - rewrite Z.mod_pow2_bits_high, (proj2 (Z.ltb_ge _ _)) by lia. symmetry. rewrite <- (Z.mod_small a (2 ^ 64)) by lia.
    by rewrite Z.mod_pow2_bits_high by lia.
Qed.

(** crinitCapGetInheritable() is the inheritable set of the process. *)
Lemma get_inheritable_spec processes pid c s :
  processes pid = Some c → 0 ≤ pc_inheritable c < 2 ^ 64 →
  wp (crinitCapGetInheritable processes pid) (λ r s', only_faults s s' ∧ (r = None ∨ r = Some (pc_inheritable c)) ∧ (quiet s → r ≠ None)) s.
Proof.
  intros Ec Hc. unfold crinitCapGetInheritable, crinitProcCapGet. do 2 apply wp_bind. apply wp_fallible_why. intros b s' Hs Hb.
  rewrite Ec. destruct b; [split_and!; auto; intros Hq; by specialize (Hb Hq)|].
  split_and!; [done| |done]. right. cbn. f_equal. by apply halves.
Qed.

(** crinitCapIsCapsetEffective() is the bit of the effective set. *)
Lemma capset_effective_spec supported processes cap pid c s :
  processes pid = Some c → 0 ≤ cap < 64 → supported cap = true → quiet s →
  wp (crinitCapIsCapsetEffective supported processes cap pid) (λ r s', r = capable cap c) s.
Proof.
  intros Ec Hcap Hsup Hq. unfold crinitCapIsCapsetEffective, crinitProcCapGet. rewrite Hsup. cbn [negb]. do 2 apply wp_bind.
  apply wp_fallible_why. intros b s' Hs Hb. rewrite (Hb Hq), Ec. cbv beta iota.
  unfold wp, mret, M_ret, capable, mbind, option_bind, cap_half, cu_effective. cbv zeta.
  change 31 with (Z.ones 5). rewrite (Z.land_ones cap), (Z.shiftr_div_pow2 cap) by lia.
  pose proof (Z.div_pos cap (2 ^ 5) ltac:(lia) ltac:(lia)) as Hp.
  pose proof (Z.mod_pos_bound cap (2 ^ 5) ltac:(lia)) as Hm. pose proof (Z.div_mod cap (2 ^ 5) ltac:(lia)) as Hd.
  assert (Z.testbit (pc_effective c) cap = Z.testbit (uint32 (Z.shiftr (pc_effective c) (32 * (cap / 2 ^ 5)))) (cap mod 2 ^ 5)) as ->.
  { rewrite half_bit by lia. rewrite (proj2 (Z.ltb_lt _ _)) by lia. cbn [andb]. f_equal. change (2 ^ 5) with 32 in *. lia. }
  set (a := uint32 _). destruct (Z.testbit a (cap mod 2 ^ 5)) eqn:E.
  - apply negb_true_iff, Z.eqb_neq. intros H0. assert (Z.testbit (Z.land a (Z.shiftl 1 (cap mod 2 ^ 5))) (cap mod 2 ^ 5) = false) as Hf
      by (rewrite H0; apply Z.bits_0).
    rewrite Z.land_spec, E, Z.shiftl_1_l, Z.pow2_bits_true in Hf by lia. done.
  - apply negb_false_iff, Z.eqb_eq, Z.bits_inj'. intros i Hi. rewrite Z.land_spec, Z.bits_0, Z.shiftl_1_l, Z.pow2_bits_eqb by lia.
    destruct (Z.eqb_spec (cap mod 2 ^ 5) i) as [<-|]; [by rewrite E|apply andb_false_r].
Qed.

(** ** Examples *)

Definition all_caps : Z := 2 ^ 41 - 1.
Definition root_creds : creds := mkCreds 0 0 [0; 10] all_caps all_caps 0 0 all_caps 0.
Definition demo_process (fs : list bool) : process :=
  mkProcess fs 321 root_creds (mkCgfs ["crinit"; "crinit/net"] "cpu" {[0 := "stdin"; 1 := "stdout"; 2 := "stderr"]} [])%string.

Definition demo_cg : crinitCgroup := mkCgroup (Some "net"%string) (-1) (Some (mkCgroup (Some "crinit"%string) (-1) None None)) None.
Definition demo_job : crinitTask :=
  mkTask "job" [mkCmd ["/usr/bin/job"; "-v"]%string] [] (mkEnvSet None 0 0) (mkEnvSet None 0 0) [] [] false [] 0 0 (-1) [] (-1) 0 false
    (mkTimespec 0 0) (mkTimespec 0 0) (mkTimespec 0 0) 1000 100 [27; 4294967294] None None 1024 0 (Some demo_cg).

Lemma demo_job_ids : task_ids demo_job.
Proof.
  split; [vm_compute; split; congruence|repeat constructor; vm_compute; congruence|]. intros g [= <-]. by eexists.
Qed.

Lemma demo_can_launch : can_launch (λ _, true) (launch_of "/usr/bin/job" demo_job 1024) (demo_process []).
Proof.
  split; try reflexivity; [by eexists|vm_compute; split; congruence|]. intros n [= <-]. vm_compute. by right; left.
Qed.

Lemma launcher_runs_as_witness :
  wp (main (λ _, true) false (launcher_argv "/bin/crinit-launch" ["-v"%string] demo_job 1024 "/usr/bin/job"))
    (λ r s', r = Exec "/usr/bin/job" ["/usr/bin/job"; "-v"]%string ∧ pc_uid (pr_creds s') = 1000 ∧
       pc_groups (pr_creds s') = [27; 4294967294] ∧ pc_ambient (pr_creds s') = 1024 ∧
       cf_log (pr_cg s') = [("crinit/net/cgroup.procs", "321" +:+ str1 (chr 10))]%string) (demo_process []).
Proof.
  eapply wp_mono; [|apply (proj2 (launcher_runs_as (λ _, true) false "/bin/crinit-launch" "/usr/bin/job" ["-v"%string] demo_job 1024
    (demo_process []) demo_job_ids ltac:(lia)) ltac:(reflexivity) demo_can_launch)].
  intros r s' [-> [H1 _ H3 _ H5 H6]]. split_and!; [done|done|done|done|]. rewrite H6. vm_compute. reflexivity.
Defined.

(** A user ID of more than 32 bits is taken modulo 2^32: this one is the user 0. *)
Lemma large_user_is_root : read_id "4294967296" = Some 0.
Proof. vm_compute. reflexivity. Qed.

(** The option -V takes an argument, and alone it is an error, though --version is not. *)
Lemma short_version_fails s :
  main (λ _, true) false ["crinit-launch"; "-V"]%string s = Ret (Exit EXIT_FAILURE) s ∧
  main (λ _, true) false ["crinit-launch"; "--version"]%string s = Ret (Exit EXIT_SUCCESS) s.
Proof. done. Qed.

(** The option -r takes none, and what it has not got is copied. *)
Lemma short_cgroup_undefined s : main (λ _, true) false ["crinit-launch"; "-r"]%string s = Undef.
Proof. done. Qed.

(** The cgroup has been joined, the group cannot be set: its name is freed twice. *)
Lemma failed_group_frees_twice :
  main (λ _, true) false ["crinit-launch"; "--cmd=job"; "--groups=100"; "--cgroup=crinit"]%string
    (demo_process (replicate 13 false ++ [true])) = Undef.
Proof. vm_compute. reflexivity. Qed.

(** The name of the cgroup cannot be copied: the command is executed in no cgroup. *)
Lemma lost_cgroup_runs :
  match main (λ _, true) false ["crinit-launch"; "--cmd=job"; "--cgroup=crinit"]%string (demo_process [false; true]) with
  | Ret r s' => r = Exec "job" ["job"%string] ∧ cf_log (pr_cg s') = []
  | _ => False
  end.
Proof. vm_compute. done. Qed.
