(* ===== verification/DList.v ===== *)
(** * Doubly linked lists: inc/list.h

    A list is a ring of nodes through a head; the nodes are members of the
    structures that are listed, so that a node is its address.  The operations
    follow and assign the pointers of the nodes in the order of the code.  They
    refine operations on the sequence of the entries, and leave every other node
    as it is. *)

From Stdlib Require Import ZArith Lia Bool List.
From stdpp Require Import base list gmap.
From S2P Require Import Prelude.

Open Scope Z_scope.
Open Scope crinit_scope.

(** ** The memory *)

(** The members of a node; [None] is NULL. *)
Record crinitList := mkNode { prev : option nat; next : option nat }.
Notation nodes := (gmap nat crinitList) (only parsing).

Definition set_prev (p : option nat) (n : crinitList) : crinitList := mkNode p (next n).
Definition set_next (p : option nat) (n : crinitList) : crinitList := mkNode (prev n) p.

Notation L := (M nodes) (only parsing).

(** Reading a member and following it; assigning a member. *)
Definition load (f : crinitList → option nat) (a : nat) : L nat := λ h,
  match h !! a with
  | Some n => match f n with Some b => Ret b h | None => Undef end
  | None => Undef
  end.
Definition store (f : crinitList → crinitList) (a : nat) : L unit := λ h,
  match h !! a with
  | Some n => Ret tt (<[a := f n]> h)
  | None => Undef
  end.

(** ** Operations *)

Definition crinitListInit (l : nat) : L unit := store (set_next (Some l)) l ;; store (set_prev (Some l)) l.

Definition crinitListInsert (entry p n : nat) : L unit :=
  store (set_next (Some n)) entry ;;
  store (set_prev (Some p)) entry ;;
  store (set_prev (Some entry)) n ;;
  store (set_next (Some entry)) p.

Definition crinitListPrepend (l entry : nat) : L unit := n ← load next l; crinitListInsert entry l n.

Definition crinitListAppend (l entry : nat) : L unit :=
  p ← load prev l; n ← load next p; crinitListInsert entry p n.

(** [cmp]: what entryCmp() returns. *)
Fixpoint sorted_loop (fuel : nat) (cmp : nat → nat → Z) (l entry cur : nat) : L unit :=
  match fuel with
  | O => mundef
  | Datatypes.S fuel =>
      if Nat.eqb cur l then crinitListAppend l entry else
      if 0 <=? cmp cur entry then p ← load prev cur; crinitListInsert entry p cur else
      cur ← load next cur;
      sorted_loop fuel cmp l entry cur
  end.
Definition crinitListInsertSorted (fuel : nat) (cmp : nat → nat → Z) (l entry : nat) : L unit :=
  cur ← load next l; sorted_loop fuel cmp l entry cur.

Definition crinitListDelete (entry : nat) : L unit :=
  n ← load next entry; p ← load prev entry;
  store (set_prev (Some p)) n ;;
  p ← load prev entry; n ← load next entry;
  store (set_next (Some n)) p ;;
  store (set_next None) entry ;;
  store (set_prev None) entry.

Definition crinitListIsEmpty (l : nat) : L bool := n ← load next l; mret (Nat.eqb n l).

(** crinitListForEachEntry(): the entries the body is run for. *)
Fixpoint entries_loop (fuel : nat) (l entry : nat) : L (list nat) :=
  match fuel with
  | O => mundef
  | Datatypes.S fuel =>
      if Nat.eqb entry l then mret [] else
      n ← load next entry;
      rest ← entries_loop fuel l n;
      mret (entry :: rest)
  end.
Definition crinitListForEachEntry (fuel : nat) (l : nat) : L (list nat) :=
  entry ← load next l; entries_loop fuel l entry.

(** crinitListForEachEntrySafe(): the next entry is read before the body is run. *)
Section Safe.
Context (body : nat → L unit).
Fixpoint safe_loop (fuel : nat) (l entry temp : nat) : L unit :=
  match fuel with
  | O => mundef
  | Datatypes.S fuel =>
      if Nat.eqb entry l then mret tt else
      body entry ;;
      n ← load next temp;
      safe_loop fuel l temp n
  end.
Definition crinitListForEachEntrySafe (fuel : nat) (l : nat) : L unit :=
  entry ← load next l; temp ← load next entry; safe_loop fuel l entry temp.
End Safe.

(** ** The entries of a list *)

Definition nx (h : nodes) (a : nat) : option nat := h !! a ≫= next.
Definition pv (h : nodes) (a : nat) : option nat := h !! a ≫= prev.

(** From [a] through the entries to [b]. *)
Fixpoint seg (h : nodes) (a : nat) (l : list nat) (b : nat) : Prop :=
  match l with
  | [] => nx h a = Some b ∧ pv h b = Some a
  | x :: l => nx h a = Some x ∧ pv h x = Some a ∧ seg h x l b
  end.

Record is_list (h : nodes) (hd : nat) (l : list nat) : Prop := {
  il_nodup : NoDup (hd :: l);
  il_ring : seg h hd l hd;
}.

Notation last_of a l := (List.last l a) (only parsing).
Notation first_of l b := (List.hd b l) (only parsing).

Lemma last_cons (x a : nat) l : last_of a (x :: l) = last_of x l.
Proof.
  revert x a. induction l as [|y l IH]; intros x a; [done|]. change (last_of a (x :: y :: l)) with (last_of a (y :: l)).
  by rewrite (IH y a), (IH y x).
Qed.

Lemma last_in (a : nat) l : last_of a l ∈ a :: l.
Proof. revert a. induction l as [|x l IH]; intros a; [by left|]. rewrite last_cons. right. apply IH. Qed.

Lemma first_in (b : nat) l : first_of l b ∈ l ++ [b].
Proof. destruct l; simpl; set_solver. Qed.

Lemma seg_app h a l1 x l2 b : seg h a (l1 ++ x :: l2) b ↔ seg h a l1 x ∧ seg h x l2 b.
Proof. revert a. induction l1 as [|y l1 IH]; intros a; cbn [app seg]; [|rewrite IH]; naive_solver. Qed.

(** The link between two parts. *)
Lemma seg_link h a l1 l2 b : seg h a (l1 ++ l2) b → nx h (last_of a l1) = Some (first_of l2 b) ∧ pv h (first_of l2 b) = Some (last_of a l1).
Proof.
  revert a. induction l1 as [|x l1 IH]; intros a; [destruct l2; cbn [seg app]; naive_solver|].
  cbn [app seg]. intros (_ & _ & Hs). rewrite last_cons. by apply IH.
Qed.

(** What a segment depends on. *)
Lemma seg_frame h h' a l b :
  (∀ y, y ∈ a :: l → nx h' y = nx h y) → (∀ y, y ∈ l ++ [b] → pv h' y = pv h y) → seg h a l b → seg h' a l b.
Proof.
  revert a. induction l as [|x l IH]; intros a Hn Hp; cbn [seg].
  - intros [? ?]. rewrite Hn, Hp by (simpl; set_solver). done.
  - intros (? & ? & Hs). rewrite Hn, Hp by (simpl; set_solver). split_and!; [done|done|].
    apply IH; [intros; apply Hn; set_solver|intros; apply Hp; simpl; set_solver|done].
Qed.

(** A part with another end. *)
Lemma seg_left h h' a l1 l2 b e :
  NoDup (a :: l1) → seg h a (l1 ++ l2) b → nx h' (last_of a l1) = Some e → pv h' e = Some (last_of a l1) →
  (∀ y, y ∈ a :: l1 → y ≠ last_of a l1 → nx h' y = nx h y) → (∀ y, y ∈ l1 → pv h' y = pv h y) → seg h' a l1 e.
Proof.
  revert a. induction l1 as [|x l1 IH]; intros a Hnd Hs Hn Hp Fn Fp; [done|]. cbn [app seg] in *.
  destruct Hs as (Hax & Hxa & Hs). apply NoDup_cons in Hnd as [Ha Hnd]. rewrite last_cons in *.
  rewrite Fn, Fp; [|by left|by left|intros ->; by apply Ha, last_in]. split_and!; [done|done|].
  apply IH; [done|done|done|done|intros; apply Fn; [by right|done]|intros; apply Fp; by right].
Qed.

Lemma seg_right h h' a l1 l2 b e :
  NoDup (l2 ++ [b]) → seg h a (l1 ++ l2) b → nx h' e = Some (first_of l2 b) → pv h' (first_of l2 b) = Some e →
  (∀ y, y ∈ l2 → nx h' y = nx h y) → (∀ y, y ∈ l2 ++ [b] → y ≠ first_of l2 b → pv h' y = pv h y) → seg h' e l2 b.
Proof.
  intros Hnd Hs Hn Hp Fn Fp. destruct l2 as [|x l2]; [done|]. cbn [seg first_of hd] in *. split_and!; [done|done|].
  apply seg_app in Hs as [_ Hs]. eapply seg_frame; [done| |done]. intros y Hy. apply Fp; [by right|].
  intros ->. simpl in Hnd. apply NoDup_cons in Hnd as [Hx _]. by apply Hx.
Qed.

(** ** Steps *)

Lemma load_run f a b h : h !! a ≫= f = Some b → load f a h = Ret b h.
Proof. unfold load. destruct (h !! a); simpl; [|done]. by intros ->. Qed.

Lemma store_run f a n h : h !! a = Some n → store f a h = Ret tt (<[a := f n]> h).
Proof. unfold store. by intros ->. Qed.

Ltac look := repeat first [eassumption | reflexivity | rewrite lookup_insert_eq | rewrite lookup_insert_ne by congruence].
Ltac run_store := erewrite bind_run by (eapply store_run; look); cbv beta.

(** Four assignments, wherever the nodes are equal. *)
Lemma insert_run entry p n h :
  is_Some (h !! entry) → is_Some (h !! p) → is_Some (h !! n) → entry ≠ p → entry ≠ n →
  ∃ h', crinitListInsert entry p n h = Ret tt h' ∧ nx h' entry = Some n ∧ pv h' entry = Some p ∧
    nx h' p = Some entry ∧ pv h' n = Some entry ∧ (∀ y, y ≠ entry → y ≠ p → nx h' y = nx h y) ∧
    (∀ y, y ≠ entry → y ≠ n → pv h' y = pv h y) ∧ (∀ y, y ∉ [entry; p; n] → h' !! y = h !! y) ∧ dom h' = dom h.
Proof.
  intros [e He] [np Hp] [nn Hn] Hep Hen. unfold crinitListInsert, nx, pv. destruct (decide (p = n)) as [->|Hpn].
  - assert (np = nn) as -> by congruence.
    eexists. split.
    { do 3 run_store. eapply store_run; look. }
    split_and!; try (by simplify_map_eq); try (intros; by simplify_map_eq).
    + intros y Hy. rewrite !not_elem_of_cons in Hy. destruct Hy as (? & ? & _). by simplify_map_eq.
    + apply set_eq. intros y. rewrite !elem_of_dom. destruct (decide (y = n)) as [->|]; [by simplify_map_eq|].
      destruct (decide (y = entry)) as [->|]; by simplify_map_eq.
  - eexists. split.
    { do 3 run_store. eapply store_run; look. }
    split_and!; try (by simplify_map_eq).
    + intros y H1 H2. destruct (decide (y = n)) as [->|]; by simplify_map_eq.
    + intros y H1 H2. destruct (decide (y = p)) as [->|]; by simplify_map_eq.
    + intros y Hy. rewrite !not_elem_of_cons in Hy. destruct Hy as (? & ? & ? & _). by simplify_map_eq.
    + apply set_eq. intros y. rewrite !elem_of_dom. destruct (decide (y = n)) as [->|]; [by simplify_map_eq|].
      destruct (decide (y = entry)) as [->|]; [by simplify_map_eq|]. destruct (decide (y = p)) as [->|]; by simplify_map_eq.
Qed.

(** ** What the operations do to the sequence of entries *)

(** Nodes that are neither the head nor one of the entries are as they were. *)
Record list_step (h h' : nodes) (hd : nat) (touched l' : list nat) : Prop := {
  ls_list : is_list h' hd l';
  ls_frame : ∀ y, y ∉ hd :: touched → h' !! y = h !! y;
  ls_dom : dom h' = dom h;
}.

Lemma nx_some h a b : nx h a = Some b → is_Some (h !! a).
Proof. unfold nx. destruct (h !! a); [eauto|done]. Qed.
Lemma pv_some h a b : pv h a = Some b → is_Some (h !! a).
Proof. unfold pv. destruct (h !! a); [eauto|done]. Qed.

Lemma insert_spec h hd l1 l2 entry :
  is_list h hd (l1 ++ l2) → entry ∉ hd :: l1 ++ l2 → is_Some (h !! entry) →
  ∃ h', crinitListInsert entry (last_of hd l1) (first_of l2 hd) h = Ret tt h' ∧
    list_step h h' hd (entry :: l1 ++ l2) (l1 ++ entry :: l2).
Proof.
  intros [Hnd Hs] He Hsome. destruct (seg_link _ _ _ _ _ Hs) as [Hn Hp].
  pose proof (last_in hd l1) as Hlast. pose proof (first_in hd l2) as Hfirst.
  assert (last_of hd l1 ∈ hd :: l1 ++ l2) as Hl1 by set_solver. assert (first_of l2 hd ∈ hd :: l1 ++ l2) as Hl2 by set_solver.
  destruct (insert_run entry (last_of hd l1) (first_of l2 hd) h) as (h' & Hrun & E1 & E2 & E3 & E4 & F1 & F2 & F & D);
    [done|by eapply nx_some|by eapply pv_some|congruence|congruence|]. exists h'. split; [done|].
  apply NoDup_cons in Hnd as [Hhd Hnd]. apply NoDup_app in Hnd as (Hnd1 & Hdis & Hnd2). split; [split| |done].
  - apply NoDup_cons. split; [set_solver|]. apply NoDup_app. split_and!; [done|set_solver|]. apply NoDup_cons. split; [set_solver|done].
  - apply seg_app. split.
    + eapply seg_left; [|exact Hs|done|done| |].
      * apply NoDup_cons. split; [set_solver|done].
      * intros y Hy Hne. apply F1; set_solver.
      * intros y Hy. apply F2; [set_solver|]. intros ->. destruct l2 as [|z l2]; cbn [List.hd] in Hy.
        { apply Hhd, elem_of_app. by left. }
        { by apply (Hdis z Hy); left. }
    + eapply seg_right; [|exact Hs|done|done| |].
      * apply NoDup_app. split_and!; [done|set_solver|apply NoDup_singleton].
      * intros y Hy. apply F1; [set_solver|]. intros ->. apply elem_of_cons in Hlast as [E|Hlast]; [|by apply (Hdis _ Hlast)].
        rewrite E in Hy. apply Hhd, elem_of_app. by right.
      * intros y Hy Hne. apply F2; set_solver.
  - intros y Hy. apply F. set_solver.
Qed.

Lemma init_spec h l : is_Some (h !! l) → ∃ h', crinitListInit l h = Ret tt h' ∧ list_step h h' l [] [].
Proof.
  intros [n Hn]. unfold crinitListInit. eexists. split; [run_store; eapply store_run; look|]. split; [split| |].
  - apply NoDup_singleton.
  - unfold seg, nx, pv. rewrite lookup_insert_eq. done.
  - intros y Hy. rewrite !lookup_insert_ne by set_solver. done.
  - apply set_eq. intros y. rewrite !elem_of_dom. destruct (decide (y = l)) as [->|].
    + rewrite lookup_insert_eq, Hn. split; eauto.
    + by rewrite !lookup_insert_ne by congruence.
Qed.

Lemma prepend_spec h hd l entry :
  is_list h hd l → entry ∉ hd :: l → is_Some (h !! entry) →
  ∃ h', crinitListPrepend hd entry h = Ret tt h' ∧ list_step h h' hd (entry :: l) (entry :: l).
Proof.
  intros Hl He Hs. destruct (insert_spec h hd [] l entry) as (h' & Hrun & Hst); [done..|]. exists h'. split; [|done].
  destruct (seg_link h hd [] l hd) as [Hn _]; [apply Hl|]. unfold crinitListPrepend.
  by rewrite (bind_run _ _ _ _ _ (load_run next hd _ h Hn)).
Qed.

Lemma append_spec h hd l entry :
  is_list h hd l → entry ∉ hd :: l → is_Some (h !! entry) →
  ∃ h', crinitListAppend hd entry h = Ret tt h' ∧ list_step h h' hd (entry :: l) (l ++ [entry]).
Proof.
  intros Hl He Hs. destruct (insert_spec h hd l [] entry) as (h' & Hrun & Hst); [by rewrite ?app_nil_r..|]. exists h'.
  rewrite app_nil_r in Hst. split; [|done]. destruct (seg_link h hd l [] hd) as [Hn Hp]; [rewrite app_nil_r; apply Hl|].
  unfold crinitListAppend. rewrite (bind_run _ _ _ _ _ (load_run prev hd _ h Hp)). cbv beta.
  by rewrite (bind_run _ _ _ _ _ (load_run next _ _ h Hn)).
Qed.

(** Before the first entry that is not smaller. *)
Fixpoint sorted_insert (cmp : nat → nat → Z) (entry : nat) (l : list nat) : list nat :=
  match l with
  | [] => [entry]
  | x :: l => if 0 <=? cmp x entry then entry :: x :: l else x :: sorted_insert cmp entry l
  end.

Lemma sorted_loop_spec cmp fuel h hd l1 l2 entry :
  is_list h hd (l1 ++ l2) → entry ∉ hd :: l1 ++ l2 → is_Some (h !! entry) → (length l2 < fuel)%nat →
  ∃ h', sorted_loop fuel cmp hd entry (first_of l2 hd) h = Ret tt h' ∧
    list_step h h' hd (entry :: l1 ++ l2) (l1 ++ sorted_insert cmp entry l2).
Proof.
  revert l1 l2. induction fuel as [|fuel IH]; intros l1 l2 Hl He Hs Hf; [lia|]. cbn [sorted_loop].
  destruct l2 as [|x l2]; cbn [List.hd sorted_insert].
  { rewrite Nat.eqb_refl, app_nil_r in *. by apply append_spec. }
  destruct Hl as [Hnd Hr]. assert (Nat.eqb x hd = false) as ->.
  { apply Nat.eqb_neq. intros ->. apply NoDup_cons in Hnd as [Hhd _]. set_solver. }
  destruct (0 <=? cmp x entry).
  - destruct (insert_spec h hd l1 (x :: l2) entry) as (h' & Hrun & Hst); [done..|]. exists h'. split; [|done].
    destruct (seg_link h hd l1 (x :: l2) hd Hr) as [_ Hp]. by rewrite (bind_run _ _ _ _ _ (load_run prev x _ h Hp)).
  - rewrite (cons_middle x l1 l2), (app_assoc l1 [x] l2) in *. destruct (seg_link h hd _ _ _ Hr) as [Hn _].
    rewrite last_last in Hn. rewrite (bind_run _ _ _ _ _ (load_run next x _ h Hn)). cbv beta.
    destruct (IH (l1 ++ [x]) l2) as (h' & Hrun & Hst); [by split|done|done|cbn [length] in Hf; lia|].
    exists h'. split; [done|]. by rewrite <- (app_assoc l1 [x] (sorted_insert _ _ _)) in Hst.
Qed.

Lemma insert_sorted_spec cmp fuel h hd l entry :
  is_list h hd l → entry ∉ hd :: l → is_Some (h !! entry) → (length l < fuel)%nat →
  ∃ h', crinitListInsertSorted fuel cmp hd entry h = Ret tt h' ∧ list_step h h' hd (entry :: l) (sorted_insert cmp entry l).
Proof.
  intros Hl He Hs Hf. destruct (sorted_loop_spec cmp fuel h hd [] l entry) as (h' & Hrun & Hst); [done..|].
  exists h'. split; [|done]. destruct (seg_link h hd [] l hd) as [Hn _]; [apply Hl|]. unfold crinitListInsertSorted.
  by rewrite (bind_run _ _ _ _ _ (load_run next hd _ h Hn)).
Qed.

Lemma delete_run entry p n h :
  h !! entry = Some (mkNode (Some p) (Some n)) → is_Some (h !! p) → is_Some (h !! n) → p ≠ entry → n ≠ entry →
  ∃ h', crinitListDelete entry h = Ret tt h' ∧ h' !! entry = Some (mkNode None None) ∧ nx h' p = Some n ∧ pv h' n = Some p ∧
    (∀ y, y ≠ entry → y ≠ p → nx h' y = nx h y) ∧ (∀ y, y ≠ entry → y ≠ n → pv h' y = pv h y) ∧
    (∀ y, y ∉ [entry; p; n] → h' !! y = h !! y) ∧ dom h' = dom h.
Proof.
  intros Ee [np Enp] [nn Enn] Hpe Hne. unfold crinitListDelete, nx, pv.
  rewrite (bind_run _ _ _ _ _ (load_run next entry n h ltac:(by rewrite Ee))). cbv beta.
  rewrite (bind_run _ _ _ _ _ (load_run prev entry p h ltac:(by rewrite Ee))). cbv beta.
  run_store. erewrite bind_run by (eapply load_run; rewrite lookup_insert_ne, Ee by congruence; reflexivity). cbv beta.
  erewrite bind_run by (eapply load_run; rewrite lookup_insert_ne, Ee by congruence; reflexivity). cbv beta.
  destruct (decide (p = n)) as [Epn|Epn].
  - rewrite <- Epn in *. eexists. split; [do 2 run_store; eapply store_run; look|]. split_and!; try (intros; by simplify_map_eq).
    + intros y Hy. rewrite !not_elem_of_cons in Hy. destruct Hy as (? & ? & _). by simplify_map_eq.
    + apply set_eq. intros y. rewrite !elem_of_dom. destruct (decide (y = p)) as [->|]; [by simplify_map_eq|].
      destruct (decide (y = entry)) as [->|]; by simplify_map_eq.
  - eexists. split; [do 2 run_store; eapply store_run; look|]. split_and!; try (by simplify_map_eq).
    + intros y H1 H2. destruct (decide (y = n)) as [->|]; by simplify_map_eq.
    + intros y H1 H2. destruct (decide (y = p)) as [->|]; by simplify_map_eq.
    + intros y Hy. rewrite !not_elem_of_cons in Hy. destruct Hy as (? & ? & ? & _). by simplify_map_eq.
    + apply set_eq. intros y. rewrite !elem_of_dom. destruct (decide (y = n)) as [->|]; [by simplify_map_eq|].
      destruct (decide (y = p)) as [->|]; [by simplify_map_eq|]. destruct (decide (y = entry)) as [->|]; by simplify_map_eq.
Qed.

Lemma delete_spec h hd l1 entry l2 :
  is_list h hd (l1 ++ entry :: l2) →
  ∃ h', crinitListDelete entry h = Ret tt h' ∧ list_step h h' hd (l1 ++ entry :: l2) (l1 ++ l2) ∧ h' !! entry = Some (mkNode None None).
Proof.
  intros [Hnd Hs]. pose proof Hs as [Hl Hr]%seg_app. set (p := last_of hd l1). set (n := first_of l2 hd).
  destruct (seg_link h hd l1 (entry :: l2) hd Hs) as [Hpn Hep]. cbn [List.hd] in Hpn, Hep. fold p in Hpn, Hep.
  destruct (seg_link h entry [] l2 hd Hr) as [Hen Hnp]. cbn [List.last] in Hen, Hnp. fold n in Hen, Hnp.
  apply NoDup_cons in Hnd as [Hhd Hnd]. apply NoDup_app in Hnd as (Hnd1 & Hdis & Hnd2). apply NoDup_cons in Hnd2 as [He2 Hnd2].
  assert (p ∈ hd :: l1) as Hp by apply last_in. assert (n ∈ l2 ++ [hd]) as Hn by apply first_in.
  assert (hd ≠ entry) as Hhe by (intros ->; apply Hhd, elem_of_app; right; by left).
  assert (entry ∉ l1) as He1 by (intros H; apply (Hdis _ H); by left).
  assert (p ≠ entry ∧ n ≠ entry) as [Hpe Hne] by set_solver.
  assert (h !! entry = Some (mkNode (Some p) (Some n))) as Ee.
  { revert Hen Hep. unfold nx, pv. destruct (h !! entry) as [[]|]; cbn; [|done]. by intros -> ->. }
  destruct (delete_run entry p n h Ee) as (h' & Hrun & E & E3 & E4 & F1 & F2 & F & D);
    [by eapply nx_some|by eapply pv_some|done|done|].
  exists h'. split_and!; [done| |done]. split; [split| |done].
  - apply NoDup_cons. split; [set_solver|]. apply NoDup_app. split_and!; [done| |done]. intros y Hy H2. apply (Hdis _ Hy). by right.
  - assert (seg h' hd l1 n) as Hl'.
    { eapply (seg_left h h' hd l1 [] entry); [apply NoDup_cons; split; [set_solver|done]|by rewrite app_nil_r|done|done| |].
      - intros y Hy Hy'. apply F1; set_solver.
      - intros y Hy. apply F2; [set_solver|]. intros ->. unfold n in *. destruct l2 as [|z l2]; cbn [List.hd] in Hy.
        { apply Hhd, elem_of_app. by left. } { apply (Hdis _ Hy). right. by left. } }
    destruct l2 as [|z l2]; [by rewrite app_nil_r|]. apply seg_app. split; [done|]. cbn [seg] in Hr. destruct Hr as (_ & _ & Hr).
    eapply seg_frame; [| |exact Hr].
    + intros y Hy. apply F1; [set_solver|]. intros ->. apply elem_of_cons in Hp as [E'|Hp]; [|by apply (Hdis _ Hp); right].
      rewrite E' in Hy. apply Hhd, elem_of_app. right. by right.
    + intros y Hy. apply NoDup_cons in Hnd2 as [Hz _]. apply F2; [set_solver|]. unfold n. cbn [List.hd]. intros ->.
      apply elem_of_app in Hy as [Hy|Hy%list_elem_of_singleton]; [done|]. rewrite Hy in Hhd. apply Hhd, elem_of_app. right. right. by left.
  - intros y Hy. apply F. set_solver.
Qed.

Lemma is_empty_spec h hd l : is_list h hd l → crinitListIsEmpty hd h = Ret (match l with [] => true | _ => false end) h.
Proof.
  intros [Hnd Hr]. destruct (seg_link h hd [] l hd Hr) as [Hn _]. unfold crinitListIsEmpty.
  rewrite (bind_run _ _ _ _ _ (load_run next hd _ h Hn)). cbv beta. unfold mret, M_ret. f_equal.
  destruct l as [|x l]; cbn [List.hd]; [apply Nat.eqb_refl|]. apply Nat.eqb_neq. intros ->. apply NoDup_cons in Hnd as [Hx _].
  apply Hx. by left.
Qed.

Lemma entries_loop_spec fuel h hd l1 l2 :
  is_list h hd (l1 ++ l2) → (length l2 < fuel)%nat → entries_loop fuel hd (first_of l2 hd) h = Ret l2 h.
Proof.
  revert l1 l2. induction fuel as [|fuel IH]; intros l1 l2 Hl Hf; [lia|]. cbn [entries_loop].
  destruct l2 as [|x l2]; cbn [List.hd]; [by rewrite Nat.eqb_refl|]. pose proof Hl as [Hnd Hr].
  assert (Nat.eqb x hd = false) as ->.
  { apply Nat.eqb_neq. intros ->. apply NoDup_cons in Hnd as [Hx _]. apply Hx, elem_of_app. right. by left. }
  rewrite (cons_middle x l1 l2), (app_assoc l1 [x] l2) in *. destruct (seg_link h hd _ _ _ Hr) as [Hn _].
  rewrite last_last in Hn. rewrite (bind_run _ _ _ _ _ (load_run next x _ h Hn)). cbv beta. cbn [length] in Hf.
  by rewrite (bind_run _ _ _ _ _ (IH (l1 ++ [x]) l2 Hl ltac:(lia))).
Qed.

(** The loop over the entries visits each of them once, in order. *)
Lemma for_each_spec fuel h hd l : is_list h hd l → (length l < fuel)%nat → crinitListForEachEntry fuel hd h = Ret l h.
Proof.
  intros Hl Hf. destruct (seg_link h hd [] l hd (il_ring _ _ _ Hl)) as [Hn _]. unfold crinitListForEachEntry.
  rewrite (bind_run _ _ _ _ _ (load_run next hd _ h Hn)). by apply (entries_loop_spec _ _ _ []).
Qed.

Lemma seg_second h hd l : seg h hd l hd → nx h (first_of l hd) = Some (first_of (tail l ++ [hd]) (first_of l hd)).
Proof.
  intros Hr. destruct l as [|y l]; cbn in *; [by destruct Hr|].
  destruct (seg_link h hd [y] l hd Hr) as [Hn _]. cbn in Hn. rewrite Hn. by destruct l.
Qed.

(** Deleting every entry while looping over them. *)
Lemma safe_clear_loop fuel h hd l :
  is_list h hd l → (length l < fuel)%nat →
  ∃ h', safe_loop crinitListDelete fuel hd (first_of l hd) (first_of (tail l ++ [hd]) (first_of l hd)) h = Ret tt h' ∧
    list_step h h' hd l [] ∧ ∀ y, y ∈ l → h' !! y = Some (mkNode None None).
Proof.
  revert h l. induction fuel as [|fuel IH]; intros h l Hl Hf; [lia|]. cbn [safe_loop]. destruct l as [|x l]; cbn [List.hd].
  { rewrite Nat.eqb_refl. exists h. split_and!; [done| |set_solver]. by split. }
  pose proof Hl as [Hnd Hr]. apply NoDup_cons in Hnd as [Hx Hnd]. assert (Nat.eqb x hd = false) as -> by (apply Nat.eqb_neq; set_solver).
  destruct (delete_spec h hd [] x l Hl) as (h1 & Hrun & [Hl1 Hf1 Hd1] & E). rewrite (bind_run _ _ _ _ _ Hrun). cbv beta.
  cbn [tail app] in *. replace (first_of (l ++ [hd]) x) with (first_of l hd) by (by destruct l).
  rewrite (bind_run _ _ _ _ _ (load_run next _ _ h1 (seg_second _ _ _ (il_ring _ _ _ Hl1)))). cbv beta. cbn [length] in Hf.
  destruct (IH h1 l Hl1 ltac:(lia)) as (h' & Hrun' & [Hl' Hf' Hd'] & E'). exists h'. split_and!; [done| |].
  - split; [done| |congruence]. intros y Hy. rewrite Hf' by set_solver. apply Hf1. set_solver.
  - intros y [->|Hy]%elem_of_cons; [|by apply E']. rewrite Hf'; [done|]. apply NoDup_cons in Hnd as [Hxl _]. set_solver.
Qed.

Lemma safe_clear fuel h hd l :
  is_list h hd l → (length l < fuel)%nat →
  ∃ h', crinitListForEachEntrySafe crinitListDelete fuel hd h = Ret tt h' ∧ list_step h h' hd l [] ∧
    ∀ y, y ∈ l → h' !! y = Some (mkNode None None).
Proof.
  intros Hl Hf. destruct (safe_clear_loop fuel h hd l Hl Hf) as (h' & Hrun & H'). exists h'. split; [|done].
  destruct (seg_link h hd [] l hd (il_ring _ _ _ Hl)) as [Hn _]. unfold crinitListForEachEntrySafe.
  rewrite (bind_run _ _ _ _ _ (load_run next hd _ h Hn)). cbv beta.
  by rewrite (bind_run _ _ _ _ _ (load_run next _ _ h (seg_second _ _ _ (il_ring _ _ _ Hl)))).
Qed.

(** ** Sequences of operations *)

Inductive list_op :=
| OpPrepend (entry : nat)
| OpAppend (entry : nat)
| OpInsertSorted (cmp : nat → nat → Z) (entry : nat)
| OpDelete (entry : nat).

Definition op_entry (op : list_op) : nat :=
  match op with OpPrepend e | OpAppend e | OpInsertSorted _ e | OpDelete e => e end.

Definition run_op (fuel hd : nat) (op : list_op) : L unit :=
  match op with
  | OpPrepend e => crinitListPrepend hd e
  | OpAppend e => crinitListAppend hd e
  | OpInsertSorted cmp e => crinitListInsertSorted fuel cmp hd e
  | OpDelete e => crinitListDelete e
  end.

Fixpoint remove_entry (e : nat) (l : list nat) : list nat :=
  match l with
  | [] => []
  | x :: l => if Nat.eqb x e then l else x :: remove_entry e l
  end.

(** What an operation does to a sequence; [None] if it may not be called: an entry
    can be added if its memory exists and it is in no list, and deleted if it is in
    this one. *)
Definition abs_op (mem : gset nat) (hd : nat) (op : list_op) (l : list nat) : option (list nat) :=
  match op with
  | OpDelete e => if bool_decide (e ∈ l) then Some (remove_entry e l) else None
  | _ =>
      if bool_decide (op_entry op ∈ hd :: l ∨ op_entry op ∉ mem) then None else
      Some match op with
           | OpPrepend e => e :: l
           | OpAppend e => l ++ [e]
           | OpInsertSorted cmp e => sorted_insert cmp e l
           | OpDelete e => l
           end
  end.

Fixpoint run_ops (fuel hd : nat) (ops : list list_op) : L unit :=
  match ops with
  | [] => mret tt
  | op :: ops => run_op fuel hd op ;; run_ops fuel hd ops
  end.
Fixpoint abs_ops (mem : gset nat) (hd : nat) (ops : list list_op) (l : list nat) : option (list nat) :=
  match ops with
  | [] => Some l
  | op :: ops => l' ← abs_op mem hd op l; abs_ops mem hd ops l'
  end.

Lemma remove_entry_split e l : e ∈ l → ∃ l1 l2, l = l1 ++ e :: l2 ∧ remove_entry e l = l1 ++ l2.
Proof.
  induction l as [|x l IH]; [set_solver|]. intros H. cbn [remove_entry]. destruct (Nat.eqb_spec x e) as [->|Hne].
  - by exists [], l.
  - apply elem_of_cons in H as [->|H]; [done|]. destruct (IH H) as (l1 & l2 & -> & ->). by exists (x :: l1), l2.
Qed.

Lemma sorted_insert_length cmp e l : length (sorted_insert cmp e l) = S (length l).
Proof. induction l as [|x l IH]; [done|]. cbn [sorted_insert]. destruct (0 <=? _); [done|]. simpl. by rewrite IH. Qed.

Lemma sorted_insert_in cmp e l z : z ∈ sorted_insert cmp e l → z ∈ e :: l.
Proof.
  induction l as [|x l IH]; cbn [sorted_insert]; [done|]. destruct (0 <=? _); [done|]. intros [->|Hz]%elem_of_cons; [right; by left|].
  apply IH, elem_of_cons in Hz as [->|Hz]; [by left|]. right. by right.
Qed.

Lemma abs_op_in mem hd op l l' z : abs_op mem hd op l = Some l' → z ∈ l' → z ∈ op_entry op :: l.
Proof.
  destruct op as [e|e|cmp e|e]; cbn [abs_op op_entry]; case_bool_decide as Hb; intros E; try done; injection E as <-.
  - done.
  - rewrite elem_of_app, list_elem_of_singleton, elem_of_cons. tauto.
  - apply sorted_insert_in.
  - intros Hz. right. destruct (remove_entry_split e l Hb) as (a & b & -> & E). rewrite E in Hz.
    rewrite elem_of_app in *. destruct Hz as [Hz|Hz]; [by left|]. right. by right.
Qed.

Lemma run_list_op_spec fuel h hd op l l' :
  is_list h hd l → abs_op (dom h) hd op l = Some l' → (length l < fuel)%nat →
  ∃ h', run_op fuel hd op h = Ret tt h' ∧ list_step h h' hd (op_entry op :: l) l' ∧ (length l' ≤ S (length l))%nat.
Proof.
  intros Hl Ha Hf. destruct op as [e|e|cmp e|e]; cbn [abs_op op_entry run_op] in *.
  4:{ case_bool_decide as He; [|done]. destruct (remove_entry_split e l He) as (l1 & l2 & -> & E). rewrite E in Ha. injection Ha as <-.
      destruct (delete_spec h hd l1 e l2 Hl) as (h' & Hrun & [H1 H2 H3] & _). exists h'. split_and!; [done| |rewrite !length_app; simpl; lia].
      split; [done| |done]. intros y Hy. apply H2. set_solver. }
  all: case_bool_decide as He; [done|]; apply Decidable.not_or in He; destruct He as [He Hm];
    assert (is_Some (h !! e)) as Hs by (apply elem_of_dom; by destruct (decide (e ∈ dom h)));
    injection Ha as <-.
  - destruct (prepend_spec h hd l e) as (h' & ? & ?); [done..|]. exists h'. by split_and!.
  - destruct (append_spec h hd l e) as (h' & ? & ?); [done..|]. exists h'. split_and!; [done..|]. rewrite length_app. simpl. lia.
  - destruct (insert_sorted_spec cmp fuel h hd l e) as (h' & ? & ?); [done..|]. exists h'. split_and!; [done..|]. by rewrite sorted_insert_length.
Qed.

(** C26: Every sequence of operations of list.h in which entries are added that are in
    no list and deleted that are in this one has the effect of the same sequence on a
    finite sequence of entries: the ring stays well formed, a loop over it visits
    exactly the entries in their order, and no node outside of the list and the
    entries named is changed. *)
Theorem list_refines_sequence ops fuel h hd l l' :
  is_list h hd l → abs_ops (dom h) hd ops l = Some l' → (length l + length ops < fuel)%nat →
  ∃ h', run_ops fuel hd ops h = Ret tt h' ∧ list_step h h' hd ((op_entry <$> ops) ++ l) l' ∧
    crinitListForEachEntry fuel hd h' = Ret l' h'.
Proof.
  revert h l. induction ops as [|op ops IH]; intros h l Hl Ha Hf; cbn [run_ops abs_ops fmap list_fmap app length] in *.
  { injection Ha as <-. exists h. split_and!; [done|by split|]. apply for_each_spec; [done|lia]. }
  apply bind_Some in Ha as (l1 & Ha & Has). destruct (run_list_op_spec fuel h hd op l l1) as (h1 & Hrun & [Hl1 Hf1 Hd1] & Hlen); [done..|lia|].
  rewrite <- Hd1 in Has. destruct (IH h1 l1 Hl1 Has ltac:(lia)) as (h' & Hruns & [Hl' Hf' Hd'] & Hloop). exists h'.
  split_and!; [by rewrite (bind_run _ _ _ _ _ Hrun)| |done]. split; [done| |congruence]. intros y Hy.
  rewrite not_elem_of_cons, not_elem_of_cons, not_elem_of_app in Hy. destruct Hy as (Hy1 & Hy2 & Hy3 & Hy4).
  rewrite Hf'; [apply Hf1; rewrite !not_elem_of_cons; done|]. rewrite not_elem_of_cons, not_elem_of_app. split_and!; [done..|].
  intros [E|Hz]%(abs_op_in _ _ _ _ _ _ Ha)%elem_of_cons; done.
Qed.

(** *** An example *)

Definition demo_nodes : nodes := {[0%nat := mkNode (Some 0%nat) (Some 0%nat); 1%nat := mkNode None None; 2%nat := mkNode None None;
  3%nat := mkNode None None; 4%nat := mkNode (Some 7%nat) None]}.
Definition demo_ops : list list_op := [OpAppend 3; OpInsertSorted (λ a b, Z.of_nat a - Z.of_nat b) 1; OpAppend 2; OpDelete 3].

Lemma demo_empty : is_list demo_nodes 0 [].
Proof. split; [apply NoDup_singleton|done]. Qed.

Lemma list_refines_sequence_witness :
  ∃ h', run_ops 10 0 demo_ops demo_nodes = Ret tt h' ∧ h' !! 4%nat = demo_nodes !! 4%nat ∧
    crinitListForEachEntry 10 0 h' = Ret [1%nat; 2%nat] h'.
Proof.
  destruct (list_refines_sequence demo_ops 10 demo_nodes 0 [] [1%nat; 2%nat] demo_empty ltac:(vm_compute; reflexivity)
    ltac:(simpl; lia)) as (h' & Hrun & [_ Hf _] & Hloop). exists h'. split_and!; [done| |done]. apply Hf. vm_compute. set_solver.
Defined.
