(* ===== verification/ElosDep.v ===== *)
(** * Dependencies on elos events: src/elos-common.c, src/elosdep.c

    A task may wait for an event of elos, a logging daemon: the filter of a
    dependency "@elos:name" is registered when the task is added to the database,
    subscribed with elos, and a listener thread fulfils the dependency when an event
    has arrived.  The library of elos is loaded at run time; its functions are
    services of the state. *)

From Stdlib Require Import ZArith Lia Bool List String Ascii.
From stdpp Require Import base list strings gmap.
From S2P Require Import Prelude CString EnvSet Timer Task TaskDB GlobOpt.

Open Scope Z_scope.
Open Scope crinit_scope.

#[local] Arguments String.append : simpl nomatch.

(** ** State *)

Definition CRINIT_ELOS_DEPENDENCY : string := "@elos".
Definition ELOS_ID_INVALID : Z := 0.
Definition CRINIT_ELOS_CONNECTION_RETRIES : nat := 10.

(** strndup() and strdup() are not checked: name and filter may be NULL. *)
Record crinitElosdepFilter := mkFilter { ef_name : option string; ef_filter : option string; ef_queue : Z }.

(** filterLock is held across a few assignments only and never waited for; what is
    left of it is that taking it can fail. *)
Record crinitElosdepFilterTask := mkFilterTask { ft_task : task_ptr; ft_filters : list crinitElosdepFilter }.

(** The name of the server in the table of functions. *)
Inductive vt_server := ServerNull | Server (s : string) | ServerFreed.

Record crinitElosVirtualTable := mkVTable {
  vt_elosServer : vt_server;
  vt_elosPort : Z;
  vt_symbols : nat;  (* the functions are found in a fixed order: how many *)
  vt_mapped : bool;  (* the library is open *)
}.

(** The statics of eloslog.c; [lg_waiting]: its thread waits for the condition. *)
Record eloslog := mkLog {
  lg_session : option bool;
  lg_activated : bool;
  lg_transmitters : nat;
  crinitEloslogTransmitCounter : Z;
  lg_waiting : bool;
  crinitEloslogSessionLock : bool;
  crinitEloslogActivatedLock : bool;
  crinitEloslogTrCondLock : bool;
}.

(** The mutexes are held or not; [session] is NULL or has its member connected. *)
Record elos := mkElos {
  vtable : crinitElosVirtualTable;
  crinitFilterTasks : list crinitElosdepFilterTask;
  session : option bool;
  elosStarted : bool;
  crinitElosActivated : bool;
  listeners : nat;
  crinitElosVTableLock : bool;
  crinitElosdepFilterTaskLock : bool;
  crinitElosdepSessionLock : bool;
  crinitElosActivatedLock : bool;
  log : eloslog;
}.

Inductive elos_mutex := VTableLock | FilterTaskLock | SessionLock | ActivatedLock | LogSessionLock | LogActivatedLock | TrCondLock.
#[export] Instance elos_mutex_eq : EqDecision elos_mutex.
Proof. solve_decision. Defined.

Definition held (m : elos_mutex) (e : elos) : bool :=
  match m with
  | VTableLock => crinitElosVTableLock e
  | FilterTaskLock => crinitElosdepFilterTaskLock e
  | SessionLock => crinitElosdepSessionLock e
  | ActivatedLock => crinitElosActivatedLock e
  | LogSessionLock => crinitEloslogSessionLock (log e)
  | LogActivatedLock => crinitEloslogActivatedLock (log e)
  | TrCondLock => crinitEloslogTrCondLock (log e)
  end.
Definition set_held (m : elos_mutex) (b : bool) (e : elos) : elos :=
  let pick n v := if bool_decide (m = n) then b else v in
  let l := log e in
  mkElos (vtable e) (crinitFilterTasks e) (session e) (elosStarted e) (crinitElosActivated e) (listeners e)
    (pick VTableLock (crinitElosVTableLock e)) (pick FilterTaskLock (crinitElosdepFilterTaskLock e))
    (pick SessionLock (crinitElosdepSessionLock e)) (pick ActivatedLock (crinitElosActivatedLock e))
    (mkLog (lg_session l) (lg_activated l) (lg_transmitters l) (crinitEloslogTransmitCounter l) (lg_waiting l)
      (pick LogSessionLock (crinitEloslogSessionLock l)) (pick LogActivatedLock (crinitEloslogActivatedLock l))
      (pick TrCondLock (crinitEloslogTrCondLock l))).

Definition with_locks (e : elos) v l s st a n : elos :=
  mkElos v l s st a n (crinitElosVTableLock e) (crinitElosdepFilterTaskLock e) (crinitElosdepSessionLock e) (crinitElosActivatedLock e) (log e).
Definition set_vtable v (e : elos) := with_locks e v (crinitFilterTasks e) (session e) (elosStarted e) (crinitElosActivated e) (listeners e).
Definition set_filterTasks l (e : elos) := with_locks e (vtable e) l (session e) (elosStarted e) (crinitElosActivated e) (listeners e).
Definition set_session s (e : elos) := with_locks e (vtable e) (crinitFilterTasks e) s (elosStarted e) (crinitElosActivated e) (listeners e).
Definition set_started b (e : elos) := with_locks e (vtable e) (crinitFilterTasks e) (session e) b (crinitElosActivated e) (listeners e).
Definition set_activated b (e : elos) := with_locks e (vtable e) (crinitFilterTasks e) (session e) (elosStarted e) b (listeners e).
Definition add_listener (e : elos) :=
  with_locks e (vtable e) (crinitFilterTasks e) (session e) (elosStarted e) (crinitElosActivated e) (S (listeners e)).

Definition set_log (l : eloslog) (e : elos) : elos :=
  mkElos (vtable e) (crinitFilterTasks e) (session e) (elosStarted e) (crinitElosActivated e) (listeners e)
    (crinitElosVTableLock e) (crinitElosdepFilterTaskLock e) (crinitElosdepSessionLock e) (crinitElosActivatedLock e) l.
Definition with_log_locks (l : eloslog) s a n c w : eloslog :=
  mkLog s a n c w (crinitEloslogSessionLock l) (crinitEloslogActivatedLock l) (crinitEloslogTrCondLock l).
Definition set_log_session s (l : eloslog) :=
  with_log_locks l s (lg_activated l) (lg_transmitters l) (crinitEloslogTransmitCounter l) (lg_waiting l).

(** elosdep.c and eloslog.c have a session each, with its mutex. *)
Inductive client := Dep | Log.
Definition session_of (c : client) (e : elos) : option bool := match c with Dep => session e | Log => lg_session (log e) end.
Definition set_session_of (c : client) (s : option bool) (e : elos) : elos :=
  match c with Dep => set_session s e | Log => set_log (set_log_session s (log e)) e end.
Definition session_lock (c : client) : elos_mutex := match c with Dep => SessionLock | Log => LogSessionLock end.

Definition set_server v (t : crinitElosVirtualTable) := mkVTable v (vt_elosPort t) (vt_symbols t) (vt_mapped t).
Definition set_port p (t : crinitElosVirtualTable) := mkVTable (vt_elosServer t) p (vt_symbols t) (vt_mapped t).
Definition set_symbols n b (t : crinitElosVirtualTable) := mkVTable (vt_elosServer t) (vt_elosPort t) n b.

(** Filters of the task at an index. *)
Definition set_filters (i : nat) (l : list crinitElosdepFilter) (e : elos) : elos :=
  set_filterTasks (alter (λ ft, mkFilterTask (ft_task ft) l) i (crinitFilterTasks e)) e.

Class ElosState (S : Type) `{TaskDBServices S} := {
  get_elos : S → elos;
  set_elos : elos → S → S;
  get_set_elos : ∀ e s, get_elos (set_elos e s) = e;
  set_get_elos : ∀ s, set_elos (get_elos s) s = s;
  set_set_elos : ∀ e e' s, set_elos e (set_elos e' s) = set_elos e s;
  elos_faults : ∀ l s, get_elos (set_faults l s) = get_elos s;
  faults_elos : ∀ e s, faults (set_elos e s) = faults s;
  elos_db : ∀ d s, get_elos (set_db d s) = get_elos s;
  db_elos : ∀ e s, get_db (set_elos e s) = get_db s;
  idle_elos : ∀ e s, idle (set_elos e s) ↔ idle s;
  threads_elos : ∀ e s, threads (set_elos e s) = threads s;

  (* libelos.so: the result SAFU_RESULT_OK is 0; a connection yields a session with
     its member connected, or no session and a result *)
  elosConnectTcpip : string → Z → M S (bool + Z);
  elosGetVersion : M S Z;
  elosEventSubscribe : string → M S (Z * Z);
  elosEventUnsubscribe : Z → M S Z;
  elosEventQueueRead : Z → M S (Z * Z);  (* the number of events *)
  elosDisconnect : M S Z;
}.

(** ** elos-common.c *)

Section Common.
Context {S : Type} `{ElosState S}.

Definition melos : M S elos := λ s, Ret (get_elos s) s.
Definition melos_modify (f : elos → elos) : M S unit := λ s, Ret tt (set_elos (f (get_elos s)) s).

(** pthread_mutex_lock(): [true] on failure. *)
Definition elos_lock (m : elos_mutex) : M S bool :=
  err ← fallible;
  if (err : bool) then mret true else
  e ← melos;
  if held m e then mblock else melos_modify (set_held m true) ;; mret false.
Definition elos_unlock (m : elos_mutex) : M S unit :=
  e ← melos; if held m e then melos_modify (set_held m false) else mundef.

(** A call through the table of functions. *)
Definition SYM_connect : nat := 0.
Definition SYM_getVersion : nat := 1.
Definition SYM_eventSubscribe : nat := 2.
Definition SYM_eventUnsubscribe : nat := 3.
Definition SYM_eventPublish : nat := 4.
Definition SYM_eventQueueRead : nat := 5.
Definition SYM_disconnect : nat := 8.
Definition call_symbol {A} (k : nat) (f : M S A) : M S A :=
  e ← melos;
  if (k <? vt_symbols (vtable e))%nat && vt_mapped (vtable e) then f else mundef.

(** crinitElosdepFetchElosSymbol() for the symbols from the [k]th on. *)
Fixpoint fetch_symbols (n k : nat) : M S bool :=
  match n with
  | O => mret true
  | Datatypes.S n =>
      err ← fallible;
      if (err : bool) then melos_modify (λ e, set_vtable (set_symbols k false (vtable e)) e) ;; mret false
      else melos_modify (λ e, set_vtable (set_symbols (Datatypes.S k) true (vtable e)) e) ;; fetch_symbols n (Datatypes.S k)
  end.

(** The result of the fetches is their conjunction, which is 0 when one has failed. *)
Definition crinitElosInit `{!OptState S} : M S Z :=
  err ← elos_lock VTableLock;
  if (err : bool) then mret (-1) else
  let exit (res : Z) : M S Z := elos_unlock VTableLock ;; mret res in
  let set_vt f := melos_modify (λ e, set_vtable (f (vtable e)) e) in
  e ← melos;
  if (0 <? vt_symbols (vtable e))%nat then exit 0 else
  srv ← crinitGlobOptGetString ELOS_SERVER;
  srv ← match srv with
        | Some s => mret (Server s)
        | None => oom ← fallible; mret (if (oom : bool) then ServerNull else Server "127.0.0.1")
        end;
  set_vt (set_server srv) ;;
  match srv with
  | Server _ =>
      port ← crinitGlobOptGetInteger ELOS_PORT;
      set_vt (set_port port) ;;
      err ← fallible;  (* dlopen *)
      if (err : bool) then set_vt (set_server ServerFreed) ;; exit (-1) else
      set_vt (set_symbols 0 true) ;;
      ok ← fetch_symbols 9 0;
      if (ok : bool) then exit 0 else set_vt (set_server ServerFreed) ;; exit 0
  | _ => exit (-1)
  end.

Definition crinitElosDisconnect (c : client) : M S Z :=
  e ← melos;
  match session_of c e with
  | None => mret 0
  | Some _ =>
      err ← elos_lock (session_lock c);
      if (err : bool) then mret (-1) else
      res ← call_symbol SYM_disconnect elosDisconnect;
      elos_unlock (session_lock c) ;; mret res
  end.

(** The loop of crinitElosTryExec() with [n] retries left. *)
Fixpoint connect_loop (c : client) (n : nat) : M S Z :=
  e ← melos;
  match session_of c e with
  | Some _ => mret 0
  | None =>
      match vt_elosServer (vtable e) with
      | ServerNull => mret (-1)
      | ServerFreed => mundef
      | Server srv =>
          r ← call_symbol SYM_connect (elosConnectTcpip srv (vt_elosPort (vtable e)));
          match r with
          | inl connected => melos_modify (set_session_of c (Some connected)) ;; mret 0
          | inr res => match n with O => mret res | Datatypes.S n => connect_loop c n end
          end
      end
  end.

(** crinitElosTryExec(): the mutex of the session is released only if there is a
    connection. *)
Definition crinitElosTryExec {A} (c : client) (dflt : A) (func : M S (Z * A)) : M S (Z * A) :=
  err ← elos_lock (session_lock c);
  if (err : bool) then mret (-1, dflt) else
  melos_modify (λ e, match session_of c e with Some false => set_session_of c None e | _ => e end) ;;
  res ← connect_loop c CRINIT_ELOS_CONNECTION_RETRIES;
  if res =? 0 then r ← func; elos_unlock (session_lock c) ;; mret r else mret (res, dflt).
End Common.

(** ** elosdep.c *)

Section Filters.
Context {S : Type} `{ElosState S}.

Definition crinitElosdepFilterSubscribe (f : crinitElosdepFilter) : M S (Z * Z) :=
  match ef_filter f with
  | None => mundef
  | Some filter => crinitElosTryExec Dep (ef_queue f) (call_symbol SYM_eventSubscribe (elosEventSubscribe filter))
  end.
Definition crinitElosdepFilterUnsubscribe (f : crinitElosdepFilter) : M S Z :=
  '(r, _) ← crinitElosTryExec Dep tt (call_symbol SYM_eventUnsubscribe (r ← elosEventUnsubscribe (ef_queue f); mret (r, tt)));
  mret r.

(** The filters of the task at index [i], of which [before] have been done. *)
Fixpoint subscribe_filters (i : nat) (before rest : list crinitElosdepFilter) : M S Z :=
  match rest with
  | [] => mret 0
  | f :: rest =>
      '(r, q) ← crinitElosdepFilterSubscribe f;
      if negb (r =? 0) then mret r else
      let f := mkFilter (ef_name f) (ef_filter f) q in
      melos_modify (set_filters i (before ++ f :: rest)) ;; subscribe_filters i (before ++ [f]) rest
  end.
Fixpoint subscribe_tasks (n i : nat) : M S Z :=
  match n with
  | O => mret 0
  | Datatypes.S n =>
      e ← melos;
      match crinitFilterTasks e !! i with
      | None => mret 0
      | Some ft =>
          r ← subscribe_filters i [] (ft_filters ft);
          if negb (r =? 0) then mret r else subscribe_tasks n (Datatypes.S i)
      end
  end.
Definition crinitElosdepFilterListSubscribe : M S Z :=
  err ← elos_lock FilterTaskLock;
  if (err : bool) then mret (-1) else
  e ← melos;
  res ← subscribe_tasks (length (crinitFilterTasks e)) 0;
  elos_unlock FilterTaskLock ;; mret res.

Fixpoint unsubscribe_all (l : list crinitElosdepFilter) : M S Z :=
  match l with
  | [] => mret 0
  | f :: l => r ← crinitElosdepFilterUnsubscribe f; if negb (r =? 0) then mret r else unsubscribe_all l
  end.
Definition crinitElosdepFilterListUnsubscribe : M S Z :=
  err ← elos_lock FilterTaskLock;
  if (err : bool) then mret (-1) else
  e ← melos;
  res ← unsubscribe_all (crinitFilterTasks e ≫= ft_filters);
  elos_unlock FilterTaskLock ;; mret res.

(** crinitElosdepFilterTaskListClear(): a task is taken off the list before its
    filters are freed, which fails if their mutex cannot be taken. *)
Fixpoint clear_tasks (l : list crinitElosdepFilterTask) : M S Z :=
  match l with
  | [] => mret 0
  | _ :: l =>
      melos_modify (set_filterTasks l) ;;
      err ← fallible;
      if (err : bool) then mret (-1) else clear_tasks l
  end.
Definition crinitElosdepFilterTaskListClear : M S Z :=
  err ← elos_lock FilterTaskLock;
  if (err : bool) then mret (-1) else
  e ← melos;
  res ← clear_tasks (crinitFilterTasks e);
  elos_unlock FilterTaskLock ;; mret res.

(** The filter of a name in the array of settings "NAME=filter". *)
Fixpoint find_filter (name : string) (arr : list (option string)) : M S (option string) :=
  match arr with
  | [] => mundef
  | None :: _ => mret None
  | Some e :: arr =>
      match str_break "=" e with
      | Some (k, v) => if str_eqb k name then mret (Some v) else find_filter name arr
      | None => find_filter name arr
      end
  end.

Definition crinitElosdepFilterFromEnvSet (t : crinitTask) (name : string) : M S (option crinitElosdepFilter) :=
  if str_has "=" name then mret None else
  match envp (t_elosFilters t) with
  | None => mundef
  | Some arr =>
      found ← find_filter name arr;
      match found with
      | None => mret None
      | Some v =>
          oom ← fallible;
          if (oom : bool) then mret None else
          noname ← fallible;
          nofilter ← fallible;
          mret (Some (mkFilter (if (noname : bool) then None else Some name)
                               (if (nofilter : bool) then None else Some v) ELOS_ID_INVALID))
      end
  end.

(** What *filterTask is: NULL, in the list, or allocated only; then its mutex and
    its list of filters may not be initialised. *)
Inductive filter_task_ref := FtNull | FtListed (i : nat) | FtLoose (initialised : bool).

Definition crinitElosdepFilterRegister (ft : filter_task_ref) (f : crinitElosdepFilter) : M S Z :=
  match ft with
  | FtNull | FtLoose false => mundef
  | FtLoose true => err ← fallible; mret (if (err : bool) then -1 else 0)
  | FtListed i =>
      err ← fallible;
      if (err : bool) then mret (-1) else
      e ← melos;
      match crinitFilterTasks e !! i with
      | None => mundef
      | Some ft => melos_modify (set_filters i (ft_filters ft ++ [f])) ;; mret 0
      end
  end.

(** A filter that was subscribed gets its queue: the last one of its task. *)
Definition set_last_queue (ft : filter_task_ref) (q : Z) : M S unit :=
  match ft with
  | FtListed i =>
      melos_modify (λ e, set_filterTasks (alter (λ ft, mkFilterTask (ft_task ft)
        (alter (λ f, mkFilter (ef_name f) (ef_filter f) q) (length (ft_filters ft) - 1)%nat (ft_filters ft))) i (crinitFilterTasks e)) e)
  | _ => mret tt
  end.

Definition new_filter_task (p : task_ptr) : M S (Z * filter_task_ref) :=
  oom ← fallible;
  if (oom : bool) then mret (-1, FtNull) else
  err ← fallible;  (* pthread_mutex_init *)
  if (err : bool) then mret (-1, FtLoose false) else
  err ← elos_lock FilterTaskLock;
  if (err : bool) then mret (-1, FtLoose true) else
  e ← melos;
  melos_modify (λ e, set_filterTasks (crinitFilterTasks e ++ [mkFilterTask p []]) e) ;;
  elos_unlock FilterTaskLock ;; mret (0, FtListed (length (crinitFilterTasks e))).

Definition crinitElosdepRegisterFilterDep (p : task_ptr) (t : crinitTask) (dep : crinitTaskDep) (ft : filter_task_ref) :
    M S (Z * filter_task_ref) :=
  if negb (str_eqb (dep_name dep) CRINIT_ELOS_DEPENDENCY) then mret (0, ft) else
  '(r, ft) ← match ft with FtNull => new_filter_task p | _ => mret (0, ft) end;
  if negb (r =? 0) then mret (r, ft) else
  f ← crinitElosdepFilterFromEnvSet t (dep_event dep);
  match f with
  | None => mret (-1, ft)
  | Some f =>
      r ← crinitElosdepFilterRegister ft f;
      if negb (r =? 0) then mret (r, ft) else
      e ← melos;
      if negb (elosStarted e) then mret (0, ft) else
      '(r, q) ← crinitElosdepFilterSubscribe f;
      if negb (r =? 0) then mret (r, ft) else set_last_queue ft q ;; mret (0, ft)
  end.

(** One of the two loops of crinitElosdepTaskAdded(); [res] is the result so far,
    which the second loop overwrites. *)
Fixpoint register_loop (p : task_ptr) (t : crinitTask) (deps : list crinitTaskDep) (ft : filter_task_ref) (res : Z) :
    M S (Z * filter_task_ref) :=
  match deps with
  | [] => mret (res, ft)
  | dep :: deps =>
      '(r, ft) ← crinitElosdepRegisterFilterDep p t dep ft;
      if negb (r =? 0) then mret (r, ft) else register_loop p t deps ft r
  end.
Definition crinitElosdepTaskAdded (data : hook_data) : M S Z :=
  match data with
  | HookDB => mundef
  | HookTask p =>
      t ← deref p;
      '(r, ft) ← register_loop p t (t_deps t) FtNull 0;
      '(r, _) ← register_loop p t (t_trig t) ft r;
      mret r
  end.
End Filters.

(** ** The listener *)

Section Listener.
Context {S : Type} `{ElosState S, !OptState S}.

(** The filters of the task at index [i]: [kept] have been read and stay.  [false]
    is the jump to err_session. *)
Fixpoint read_filters (i : nat) (p : task_ptr) (fs kept : list crinitElosdepFilter) : M S bool :=
  match fs with
  | [] => mret true
  | f :: fs =>
      '(err, count) ← crinitElosTryExec Dep 0 (call_symbol SYM_eventQueueRead (elosEventQueueRead (ef_queue f)));
      if (err =? 0) && (0 <? count) then
        match ef_name f with
        | None => mundef
        | Some name =>
            r ← crinitTaskDBFulfillDep (mkDep CRINIT_ELOS_DEPENDENCY name) (Some p);
            if negb (r =? 0) then mret false else
            t ← deref p;
            if t_opts t &? CRINIT_TASK_OPT_TRIGGER_REARM then read_filters i p fs (kept ++ [f]) else
            err ← fallible;  (* filterLock *)
            if (err : bool) then mret false else
            melos_modify (set_filters i (kept ++ fs)) ;; read_filters i p fs kept
        end
      else read_filters i p fs (kept ++ [f])
  end.
Fixpoint read_tasks (n i : nat) : M S bool :=
  match n with
  | O => mret true
  | Datatypes.S n =>
      e ← melos;
      match crinitFilterTasks e !! i with
      | None => mret true
      | Some ft =>
          ok ← read_filters i (ft_task ft) (ft_filters ft) [];
          if (ok : bool) then read_tasks n (Datatypes.S i) else mret false
      end
  end.

(** How a turn of the loop ends. *)
Inductive turn := Again | ConnectionLost | SessionError.

Definition listener_turn : M S turn :=
  err ← elos_lock ActivatedLock;
  if (err : bool) then mret ConnectionLost else
  e ← melos;
  elos_unlock ActivatedLock ;;
  if negb (crinitElosActivated e) then mret ConnectionLost else
  err ← elos_lock FilterTaskLock;
  if (err : bool) then mret ConnectionLost else
  e ← melos;
  ok ← read_tasks (length (crinitFilterTasks e)) 0;
  if negb ok then mret SessionError else
  elos_unlock FilterTaskLock ;;
  _ ← crinitGlobOptGetUnsignedLL ELOS_EVENT_POLL_INTERVAL;
  mret Again.

Definition err_connection_lost : M S unit :=
  _ ← crinitElosdepFilterTaskListClear;
  err ← elos_lock SessionLock;
  if (err : bool) then mret tt else
  melos_modify (λ e, set_started false (set_session None e)) ;;
  elos_unlock SessionLock.

Definition err_session : M S unit :=
  elos_unlock FilterTaskLock ;;
  _ ← crinitElosdepFilterListUnsubscribe;
  _ ← crinitElosdepFilterTaskListClear;
  _ ← crinitElosDisconnect Dep;
  mret tt.

(** At most [turns] turns of the loop. *)
Fixpoint listener_loop (turns : nat) : M S unit :=
  match turns with
  | O => mret tt
  | Datatypes.S turns =>
      r ← listener_turn;
      match r with
      | Again => listener_loop turns
      | ConnectionLost => err_connection_lost
      | SessionError => err_session
      end
  end.

Definition crinitElosdepEventListener (turns : nat) : M S unit :=
  melos_modify (set_started true) ;;
  '(err, _) ← crinitElosTryExec Dep tt (call_symbol SYM_getVersion (r ← elosGetVersion; mret (r, tt)));
  if negb (err =? 0) then err_connection_lost else
  err ← crinitElosdepFilterListSubscribe;
  if negb (err =? 0) then err_connection_lost else listener_loop turns.

(** The result of crinitElosInit() is ignored. *)
Definition crinitElosdepInitThreadContext : M S Z := _ ← crinitElosInit; mret 0.

Definition crinitElosdepActivate (e : bool) : M S Z :=
  err ← elos_lock ActivatedLock;
  if (err : bool) then mret (-1) else
  st ← melos;
  r ← (if e && negb (crinitElosActivated st) then
         r ← crinitElosdepInitThreadContext;
         if negb (r =? 0) then mret (-1) else
         err ← fallibleN 3;  (* pthread_attr_init and the two settings *)
         if (err : bool) then mret (-1) else
         err ← fallible;  (* pthread_create *)
         if (err : bool) then mret (-1) else
         melos_modify add_listener ;;
         err ← fallible;  (* pthread_attr_destroy *)
         mret (if (err : bool) then -1 else 0)
       else mret 0);
  if negb (r =? 0) then mret (-1) else
  melos_modify (set_activated e) ;;
  elos_unlock ActivatedLock ;; mret 0.
End Listener.
