(* ===== verification/ElosProps.v ===== *)
(** * What the elos dependencies do

    Registration of the filters of a task, one turn of the listener, and where the
    mutex of the session is left. *)

From Stdlib Require Import ZArith Lia Bool List String Ascii.
From stdpp Require Import base functions list strings gmap.
From S2P Require Import Prelude CString EnvSet Timer Task TaskDB TaskDBSpec GlobOpt ElosDep.

Open Scope Z_scope.
Open Scope crinit_scope.

#[local] Arguments String.append : simpl nomatch.

(** ** What is known of the library

    [pending]: the events that have arrived in a queue and were not read.
    [online]: elosd answers.  A call may notice that the connection is gone, but not
    while elosd answers. *)

Record lib_call {S} `{ElosState S} (online : S → bool) (s s' : S) : Prop := {
  lc_db : get_db s' = get_db s;
  lc_threads : threads s' = threads s;
  lc_idle : idle s → idle s';
  lc_quiet : quiet s → quiet s';
  lc_online : online s' = online s;
  lc_elos : get_elos s' = get_elos s ∨
    online s = false ∧ ∃ b, is_Some (session (get_elos s)) ∧ get_elos s' = set_session (Some b) (get_elos s);
}.

Class ElosLaws (S : Type) `{ElosState S} := {
  pending : S → Z → Z;
  online : S → bool;
  pending_db : ∀ d s, pending (set_db d s) = pending s;
  pending_faults : ∀ l s, pending (set_faults l s) = pending s;
  pending_elos : ∀ e s, pending (set_elos e s) = pending s;
  online_db : ∀ d s, online (set_db d s) = online s;
  online_faults : ∀ l s, online (set_faults l s) = online s;
  online_elos : ∀ e s, online (set_elos e s) = online s;
  connect_ok : ∀ srv port s, wp (elosConnectTcpip srv port)
    (λ r s', lib_call online s s' ∧ (∀ c, r = inr c → c ≠ 0) ∧ (online s = true → r = inl true) ∧ (online s = false → ∃ c, r = inr c)) s;
  version_ok : ∀ s, wp elosGetVersion (λ r s', lib_call online s s' ∧ (online s = true → r = 0 ∧ pending s' = pending s)) s;
  subscribe_ok : ∀ f s, wp (elosEventSubscribe f)
    (λ r s', lib_call online s s' ∧ (online s = true → r.1 = 0 ∧ pending s' = pending s)) s;
  unsubscribe_ok : ∀ q s, wp (elosEventUnsubscribe q) (λ r s', lib_call online s s' ∧ (online s = true → r = 0)) s;
  read_ok : ∀ q s, wp (elosEventQueueRead q)
    (λ r s', lib_call online s s' ∧ (online s = true → r = (0, pending s q) ∧ pending s' = <[q := 0]> (pending s))) s;
  disconnect_ok : ∀ s, wp elosDisconnect (λ r s', lib_call online s s') s;
}.

(** ** Steps *)

(** Nothing but the state of elosdep.c has changed: it is [e]. *)
Record est {S} `{ElosLaws S} (e : elos) (s s' : S) : Prop := {
  es_elos : get_elos s' = e;
  es_db : get_db s' = get_db s;
  es_threads : threads s' = threads s;
  es_idle : idle s → idle s';
  es_quiet : quiet s → quiet s';
  es_online : online s' = online s;
}.

(** The library is loaded and connected. *)
Record connected (e : elos) : Prop := {
  cn_session : session e = Some true;
  cn_symbols : vt_symbols (vtable e) = 9%nat;
  cn_mapped : vt_mapped (vtable e) = true;
}.

Lemma set_held_back m e : held m e = false → set_held m false (set_held m true e) = e.
Proof. destruct e as [? ? ? ? ? ? ? ? ? ? []], m; cbn; by intros ->. Qed.

Section Steps.
Context {S : Type} `{ElosLaws S}.
Implicit Types s : S.

Lemma est_refl s : est (get_elos s) s s.
Proof. by split. Qed.

Lemma est_trans e e' s s' s'' : est e s s' → est e' s' s'' → est e' s s''.
Proof. intros [] []. split; try congruence; auto. Qed.

Lemma est_modify f s : est (f (get_elos s)) s (set_elos (f (get_elos s)) s).
Proof.
  split; rewrite ?get_set_elos, ?db_elos, ?threads_elos, ?online_elos; try done.
  - by rewrite idle_elos.
  - unfold quiet. by rewrite faults_elos.
Qed.

Lemma est_only s s' : only_faults s s' → est (get_elos s) s s'.
Proof.
  intros [[l ->] Hq]. split; rewrite ?elos_faults, ?db_faults, ?threads_faults, ?online_faults, ?idle_set; try done.
  intros Hq'. by rewrite (Hq Hq').
Qed.

Lemma wp_melos (Q : elos → S → Prop) s : Q (get_elos s) s → wp melos Q s.
Proof. done. Qed.

Lemma wp_melos_modify f (Q : unit → S → Prop) s :
  (∀ s', est (f (get_elos s)) s s' → pending s' = pending s → Q tt s') → wp (melos_modify f) Q s.
Proof. intros HQ. apply HQ; [apply est_modify|apply pending_elos]. Qed.

Lemma pending_only s s' : only_faults s s' → pending s' = pending s.
Proof. intros [[l ->] _]. apply pending_faults. Qed.

Lemma wp_elos_lock m (Q : bool → S → Prop) s :
  held m (get_elos s) = false →
  (∀ s', est (set_held m true (get_elos s)) s s' → pending s' = pending s → Q false s') →
  (∀ s', est (get_elos s) s s' → pending s' = pending s → ¬ quiet s → Q true s') →
  wp (elos_lock m) Q s.
Proof.
  intros Hm Hok Hbad. unfold elos_lock. apply wp_bind, wp_fallible_why. intros b s1 Hs1 Hb. pose proof (est_only _ _ Hs1) as E1.
  destruct b; [apply wp_ret, Hbad; [done|by apply pending_only|]; intros Hq; by specialize (Hb Hq)|].
  apply wp_bind, wp_melos. rewrite (es_elos _ _ _ E1), Hm. apply wp_bind, wp_melos_modify. intros s2 E2 P2.
  rewrite (es_elos _ _ _ E1) in E2. apply wp_ret, Hok; [by eapply est_trans|]. by rewrite P2, (pending_only _ _ Hs1).
Qed.

Lemma wp_elos_unlock m (Q : unit → S → Prop) s :
  held m (get_elos s) = true →
  (∀ s', est (set_held m false (get_elos s)) s s' → pending s' = pending s → Q tt s') → wp (elos_unlock m) Q s.
Proof. intros Hm HQ. unfold elos_unlock. apply wp_bind, wp_melos. rewrite Hm. by apply wp_melos_modify. Qed.

Lemma lib_est s s' : online s = true → lib_call online s s' → est (get_elos s) s s'.
Proof. intros Ho [Hdb Ht Hi Hq Hon [He|[Hoff _]]]; [|congruence]. by split. Qed.

(** A call while elosd answers: the mutex is taken and released. *)
Lemma try_exec_online {A} (dflt : A) k (func : M S (Z * A)) (R : Z * A → S → Prop) (Q : Z * A → S → Prop) s e :
  get_elos s = e → held SessionLock e = false → connected e → online s = true → quiet s → (k < 9)%nat →
  (∀ s1, quiet s1 → pending s1 = pending s → online s1 = true →
    wp func (λ r s', lib_call online s1 s' ∧ R r s') s1) →
  (∀ r s1 s', R r s1 → est e s s' → pending s' = pending s1 → Q r s') →
  wp (crinitElosTryExec Dep dflt (call_symbol k func)) Q s.
Proof.
  intros Ee Hl [Hs Hsym Hmap] Ho Hq Hk Hf HQ. unfold crinitElosTryExec. change (session_lock Dep) with SessionLock.
  apply wp_bind, wp_elos_lock; [by rewrite Ee| |done]. intros s1 E1 P1. cbn [negb].
  apply wp_bind, wp_melos_modify. intros s2 E2 P2. rewrite (es_elos _ _ _ E1), Ee in E2.
  assert (session_of Dep (set_held SessionLock true e) = Some true) as Hs2 by done. rewrite Hs2 in E2.
  apply wp_bind. unfold connect_loop, CRINIT_ELOS_CONNECTION_RETRIES. apply wp_bind, wp_melos. rewrite (es_elos _ _ _ E2), Hs2.
  apply wp_ret. cbn [Z.eqb]. apply wp_bind. unfold call_symbol. apply wp_bind, wp_melos. rewrite (es_elos _ _ _ E2).
  cbn [vtable set_held]. rewrite Hsym, Hmap, (proj2 (Nat.ltb_lt _ _)) by done. cbn [andb].
  assert (online s2 = true) as Ho2 by (by rewrite (es_online _ _ _ E2), (es_online _ _ _ E1)).
  assert (quiet s2) as Hq2 by (apply (es_quiet _ _ _ E2), (es_quiet _ _ _ E1), Hq).
  eapply wp_mono; [|apply Hf; [done|congruence|done]]. intros r s3 [Hc HR]. pose proof (lib_est _ _ Ho2 Hc) as E3.
  rewrite (es_elos _ _ _ E2) in E3. apply wp_bind, wp_elos_unlock; [by rewrite (es_elos _ _ _ E3)|].
  intros s4 E4 P4. apply wp_ret. eapply HQ; [exact HR| |done].
  assert (set_held SessionLock false (get_elos s3) = e) as E.
  { rewrite (es_elos _ _ _ E3). by apply set_held_back. }
  rewrite E in E4. eapply est_trans; [exact E1|]. eapply est_trans; [exact E2|]. by eapply est_trans.
Qed.
End Steps.

(** ** Fulfilling a dependency of one task *)

Definition elos_dep (n : string) : crinitTaskDep := mkDep CRINIT_ELOS_DEPENDENCY n.

(** The effect on the task at an index. *)
Definition fulfil_at (j : nat) (dep : crinitTaskDep) (d : crinitTaskDB) : crinitTaskDB :=
  match taskSet d !! j with
  | Some sl => add_changed (set_slot j (fulfil_slot dep sl) d)
  | None => d
  end.
Definition fulfil_names (j : nat) (names : list string) (d : crinitTaskDB) : crinitTaskDB :=
  foldl (λ d n, fulfil_at j (elos_dep n) d) d names.

Lemma fulfil_at_ok j dep d : db_ok d → db_ok (fulfil_at j dep d).
Proof.
  intros [Hm Hr Hl Hn Ht]. unfold fulfil_at. destruct (taskSet d !! j) as [sl|] eqn:E; [|done]. apply db_ok_changed. split; simpl.
  - done.
  - by rewrite length_insert.
  - apply Forall_insert; [done|]. rewrite Forall_lookup in Hl. exact (Hl _ _ E).
  - change (map ?f) with (fmap (M := list) f) in *. rewrite list_fmap_insert. rewrite list_insert_id; [done|].
    rewrite list_lookup_fmap, E. done.
  - apply Forall_insert; [done|]. rewrite Forall_lookup in Ht. apply fulfil_ok. exact (Ht _ _ E).
Qed.

Lemma fulfil_at_locked j dep d : locked (fulfil_at j dep d) = locked d.
Proof. unfold fulfil_at. by destruct (taskSet d !! j). Qed.

Lemma fulfil_at_gen j dep d : gen (fulfil_at j dep d) = gen d.
Proof. unfold fulfil_at. by destruct (taskSet d !! j). Qed.

Lemma fulfil_at_lookup j dep d k :
  taskSet (fulfil_at j dep d) !! k = if Nat.eqb j k then fulfil_slot dep <$> taskSet d !! k else taskSet d !! k.
Proof.
  unfold fulfil_at. destruct (taskSet d !! j) as [sl|] eqn:E.
  - cbn. destruct (Nat.eqb_spec j k) as [<-|Hne]; [|by rewrite list_lookup_insert_ne].
    rewrite list_lookup_insert_eq by (by eapply lookup_lt_Some). by rewrite E.
  - destruct (Nat.eqb_spec j k) as [<-|Hne]; [|done]. by rewrite E.
Qed.

Section Fulfil.
Context {S : Type} `{ElosLaws S}.
Implicit Types s : S.

(** For a dependency that is no timer, nothing but the database is touched. *)
Lemma remove_loop_keeps {X} (g : S → X) fuel j deps dep s :
  str_eqb (dep_name dep) "@timer" = false → wlp (remove_dep_loop fuel j deps dep) (λ _ s', g s' = g s) s.
Proof.
  intros Hn. revert j deps s. induction fuel as [|fuel IH]; intros j deps s; cbn [remove_dep_loop]; [done|].
  destruct (deps !! j); [|done]. destruct (dep_eqb _ _); [|apply IH]. rewrite Hn. apply wlp_bind, wlp_ret, IH.
Qed.

Lemma fulfil_keeps {X} (g : S → X) dep p s :
  (∀ d s, g (set_db d s) = g s) → (∀ l s, g (set_faults l s) = g s) → str_eqb (dep_name dep) "@timer" = false →
  wlp (crinitTaskDBFulfillDep dep (Some p)) (λ _ s', g s' = g s) s.
Proof.
  intros Hd Hf Hn. unfold crinitTaskDBFulfillDep.
  assert (∀ f s, wlp (mdb_modify f) (λ _ s', g s' = g s) s) as Hmod by (intros f s1; apply Hd).
  assert (∀ s, wlp lock_db (λ _ s', g s' = g s) s) as Hlock.
  { intros s1. unfold lock_db. apply wlp_bind. unfold wlp at 1, mdb. destruct (negb _); [done|]. apply wlp_bind.
    eapply wlp_mono; [|apply wp_wlp, wp_fallible_why]. 2:{ intros b s2 Hs2 Hb. exact (conj Hs2 Hb). }
    intros b s2 [[[l ->] _] _]. destruct b; [apply wlp_ret, Hf|]. destruct (locked _); [done|]. apply wlp_bind.
    eapply wlp_mono; [|apply Hmod]. intros ? s3 E. apply wlp_ret. by rewrite E, Hf. }
  assert (∀ s, wlp unlock_db (λ _ s', g s' = g s) s) as Hunlock.
  { intros s1. unfold unlock_db. apply wlp_bind. unfold wlp at 1, mdb. destruct (locked _); [|done]. apply wlp_bind.
    eapply wlp_mono; [|apply Hmod]. intros ? s3 E. by apply wlp_ret. }
  assert (∀ {A} (m : M S A) (k : A → M S Z) s0 s1, wlp m (λ _ s', g s' = g s1) s1 → (∀ a s2, g s2 = g s0 → wlp (k a) (λ _ s', g s' = g s0) s2) →
    g s1 = g s0 → wlp (m ≫= k) (λ _ s', g s' = g s0) s1) as Hseq.
  { intros A m k s0 s1 Hm Hk E. apply wlp_bind. eapply wlp_mono; [|exact Hm]. intros a s2 E2. apply Hk. congruence. }
  apply Hseq; [apply Hlock| |done]. intros r s1 E1. destruct (negb _); [done|]. apply wlp_bind. unfold wlp at 1, mdb.
  apply Hseq; [| |done].
  - destruct (Nat.eqb _ _); [|done]. unfold crinitTaskDBRemoveDepFromTaskStruct. apply wlp_bind. unfold wlp at 1, mdb.
    destruct (taskSet _ !! _) as [[[] t]|]; [|by destruct (Nat.eqb _ _)..|done]. cbn [sl_mem sl_task]. apply wlp_bind.
    eapply wlp_mono; [|by apply (remove_loop_keeps g)]. intros l s2 E2. eapply wlp_mono; [|apply Hmod]. intros ? s3 E3. congruence.
  - intros ? s2 E2. apply Hseq; [apply Hmod| |done]. intros ? s3 E3. apply Hseq; [apply Hunlock| |done]. by intros ? s4 E4.
Qed.

Lemma fulfill_target dep i t s :
  stable s → quiet s → taskSet (get_db s) !! i = Some (mkSlot Live t) →
  wp (crinitTaskDBFulfillDep dep (Some (gen (get_db s), i)))
    (λ r s', r = 0 ∧ stable s' ∧ frame s s' ∧ get_db s' = fulfil_at i dep (get_db s)) s.
Proof.
  intros Hst Hq Hi. pose proof Hst as [Hok Hu Hid]. unfold crinitTaskDBFulfillDep.
  apply wp_bind, wp_lock; [by apply Hok|done|done|]. intros s1 Hs1 Hdb1. cbn [negb Z.eqb]. apply wp_bind, wp_mdb.
  cbn [fst snd]. rewrite Hdb1. cbn [gen set_locked]. rewrite Nat.eqb_refl. apply wp_bind, (wp_remove_struct i t);
    [by apply Hs1|by rewrite Hdb1|]. intros s2 Hs2 Hdb2. apply wp_bind, wp_modify_db. intros s3 Hs3 Hdb3.
  apply wp_bind, wp_unlock; [by rewrite Hdb3, Hdb2, Hdb1|]. intros s4 Hs4 Hdb4. apply wp_ret.
  assert (frame s s4) as Hf by (by repeat (etrans; [eassumption|])).
  assert (get_db s4 = fulfil_at i dep (get_db s)) as E.
  { rewrite Hdb4, Hdb3, Hdb2, Hdb1. unfold fulfil_at, fulfil_slot. rewrite Hi. cbn [sl_mem sl_task].
    unfold add_changed, set_slot, set_taskSet, set_locked. cbn. by rewrite Hu. }
  split_and!; [done| |done|done]. eapply stable_intro; [by apply Hf|done|by apply fulfil_at_ok|by rewrite fulfil_at_locked].
Qed.
End Fulfil.

(** ** One turn of the listener *)

Definition hit (pend : Z → Z) (f : crinitElosdepFilter) : bool := 0 <? pend (ef_queue f).
Definition rearmed (d : crinitTaskDB) (p : task_ptr) : bool :=
  match taskSet d !! p.2 with Some sl => t_opts (sl_task sl) &? CRINIT_TASK_OPT_TRIGGER_REARM | None => false end.

(** The names whose events have arrived, and the filters that stay. *)
Definition arrived (pend : Z → Z) (fs : list crinitElosdepFilter) : list string := omap ef_name (List.filter (hit pend) fs).
Definition staying (r : bool) (pend : Z → Z) (fs : list crinitElosdepFilter) : list crinitElosdepFilter :=
  List.filter (λ f, r || negb (hit pend f)) fs.

(** The task a filter belongs to is where it was when the filter was registered. *)
Definition current (d : crinitTaskDB) (ft : crinitElosdepFilterTask) : Prop :=
  (ft_task ft).1 = gen d ∧ ∃ t, taskSet d !! (ft_task ft).2 = Some (mkSlot Live t).

(** The state of elosdep.c is [e], the database is [d]. *)
Record tst {S} `{ElosLaws S} (e : elos) (d : crinitTaskDB) (s s' : S) : Prop := {
  ts_elos : get_elos s' = e;
  ts_db : get_db s' = d;
  ts_threads : threads s' = threads s;
  ts_idle : idle s → idle s';
  ts_quiet : quiet s → quiet s';
  ts_online : online s' = online s;
}.

Section Turn.
Context {S : Type} `{ElosLaws S, !OptState S}.
Implicit Types s : S.

Lemma est_tst e s s' : est e s s' → tst e (get_db s) s s'.
Proof. intros []. by split. Qed.

Lemma tst_est e e' d s s' s'' : tst e d s s' → est e' s' s'' → tst e' d s s''.
Proof. intros [] []. split; try congruence; auto. Qed.

Lemma tst_trans e d e' d' s s' s'' : tst e d s s' → tst e' d' s' s'' → tst e' d' s s''.
Proof. intros [] []. split; try congruence; auto. Qed.

Lemma wp_fulfil name i t e s (Q : Z → S → Prop) :
  stable s → quiet s → get_elos s = e → taskSet (get_db s) !! i = Some (mkSlot Live t) →
  (∀ s', tst e (fulfil_at i (elos_dep name) (get_db s)) s s' → stable s' → pending s' = pending s → Q 0 s') →
  wp (crinitTaskDBFulfillDep (elos_dep name) (Some (gen (get_db s), i))) Q s.
Proof.
  intros Hst Hq Ee Hi HQ. assert (str_eqb (dep_name (elos_dep name)) "@timer" = false) as Hn by done.
  pose proof (fulfill_target (elos_dep name) i t s Hst Hq Hi) as Hw.
  pose proof (fulfil_keeps get_elos (elos_dep name) (gen (get_db s), i) s elos_db elos_faults Hn) as K1.
  pose proof (fulfil_keeps pending (elos_dep name) (gen (get_db s), i) s pending_db pending_faults Hn) as K2.
  pose proof (fulfil_keeps online (elos_dep name) (gen (get_db s), i) s online_db online_faults Hn) as K3.
  unfold wp, wlp in *. destruct (crinitTaskDBFulfillDep _ _ s) as [r s'| |]; [|done..].
  destruct Hw as (-> & Hst' & (Ht & Hid & Hqt) & Hdb). apply HQ; [|done|done]. split; try done. congruence.
Qed.

(** Where every filter task of the list can be read. *)
Record reading (pend : Z → Z) (e : elos) (s : S) : Prop := {
  rd_stable : stable s;
  rd_quiet : quiet s;
  rd_online : online s = true;
  rd_elos : get_elos s = e;
  rd_connected : connected e;
  rd_session : held SessionLock e = false;
}.

Lemma set_filters_same i ft e : crinitFilterTasks e !! i = Some ft → set_filters i (ft_filters ft) e = e.
Proof.
  intros Hi. unfold set_filters, set_filterTasks, with_locks. destruct e. cbn in *. f_equal. apply list_eq. intros j.
  destruct (decide (i = j)) as [->|]; [|by rewrite list_lookup_alter_ne]. rewrite list_lookup_alter_eq, Hi. by destruct ft.
Qed.

Lemma set_filters_twice i l l' e : set_filters i l (set_filters i l' e) = set_filters i l e.
Proof.
  unfold set_filters, set_filterTasks, with_locks. cbn. f_equal. apply list_eq. intros j.
  destruct (decide (i = j)) as [->|]; [|by rewrite !list_lookup_alter_ne]. rewrite !list_lookup_alter_eq.
  by destruct (crinitFilterTasks e !! j).
Qed.

Lemma arrived_cons pend f fs name :
  ef_name f = Some name → arrived pend (f :: fs) = if hit pend f then name :: arrived pend fs else arrived pend fs.
Proof. intros Hn. unfold arrived. cbn [List.filter]. destruct (hit pend f); [|done]. cbn. by rewrite Hn. Qed.

Lemma staying_cons r pend f fs :
  staying r pend (f :: fs) = if r || negb (hit pend f) then f :: staying r pend fs else staying r pend fs.
Proof. done. Qed.

Lemma read_filters_spec pend i j fs kept ft t e s (Q : bool → S → Prop) :
  reading pend e s → crinitFilterTasks e !! i = Some ft → ft_task ft = (gen (get_db s), j) → ft_filters ft = kept ++ fs →
  taskSet (get_db s) !! j = Some (mkSlot Live t) → Forall (λ f, is_Some (ef_name f)) fs → NoDup (ef_queue <$> fs) →
  (∀ f, f ∈ fs → pending s (ef_queue f) = pend (ef_queue f)) →
  (∀ s', tst (set_filters i (kept ++ staying (t_opts t &? CRINIT_TASK_OPT_TRIGGER_REARM) pend fs) e)
             (fulfil_names j (arrived pend fs) (get_db s)) s s' → stable s' →
     (∀ q, q ∉ ef_queue <$> fs → pending s' q = pending s q) → Q true s') →
  wp (read_filters i (ft_task ft) fs kept) Q s.
Proof.
  revert kept ft t e s. induction fs as [|f fs IH]; intros kept ft t e s Hr Hi Hp Hfs Hj Hnames Hnd Hpend HQ; cbn [read_filters].
  { apply wp_ret, HQ; [|apply Hr|done]. rewrite app_nil_r in *. rewrite <- Hfs, (set_filters_same i ft) by done.
    destruct Hr as [_ _ _ <- _ _]. by split. }
  pose proof Hr as [Hst Hq Ho Ee Hc Hl]. apply Forall_cons in Hnames as [[name Hname] Hnames].
  cbn [fmap list_fmap] in Hnd. apply NoDup_cons in Hnd as [Hfq Hnd].
  apply wp_bind. eapply (try_exec_online 0 SYM_eventQueueRead _ (λ r s', r = (0, pend (ef_queue f)) ∧ pending s' = <[ef_queue f := 0]> (pending s)));
    [done|done|done|done|done|unfold SYM_eventQueueRead; lia| |].
  { intros s1 Hq1 P1 Ho1. eapply wp_mono; [|apply read_ok]. intros r s' [Hcall Hres]. split; [done|].
    destruct (Hres Ho1) as [-> ->]. rewrite P1, Hpend by (by left). done. }
  intros r s0 s1 [-> P0] E1 P1. cbn [Z.eqb andb].
  assert (∀ q, q ∉ ef_queue <$> f :: fs → pending s1 q = pending s q) as Pq.
  { intros q [Hqf _]%not_elem_of_cons. rewrite P1, P0. by rewrite fn_lookup_insert_ne by congruence. }
  assert (∀ g, g ∈ fs → pending s1 (ef_queue g) = pend (ef_queue g)) as Pfs.
  { intros g Hg. rewrite P1, P0. rewrite fn_lookup_insert_ne; [apply Hpend; by right|]. intros E. apply Hfq. rewrite E.
    apply list_elem_of_fmap. eauto. }
  assert (stable s1) as Hst1.
  { destruct Hst as [Hok Hu Hid]. eapply stable_intro; [by apply (es_idle _ _ _ E1)|apply (es_db _ _ _ E1)|done|done]. }
  assert (reading pend e s1) as Hr1.
  { split; [done|by apply (es_quiet _ _ _ E1)|by rewrite (es_online _ _ _ E1)|apply (es_elos _ _ _ E1)|done|done]. }
  assert (get_db s1 = get_db s) as Hdb1 by apply (es_db _ _ _ E1).
  rewrite (arrived_cons pend f fs name Hname), staying_cons in HQ. fold (hit pend f). destruct (hit pend f) eqn:Ehit.
  - rewrite Hname, Hp. rewrite <- Hdb1 in Hp, Hj, HQ |- *. apply wp_bind, (wp_fulfil name j t e); [done|apply Hr1|apply Hr1|done|].
    intros s2 T2 Hst2 P2. cbn [negb Z.eqb]. apply wp_bind. unfold deref. apply wp_bind, wp_mdb.
    rewrite (ts_db _ _ _ _ T2), fulfil_at_gen. cbn [fst snd]. rewrite Nat.eqb_refl. cbn [negb].
    rewrite fulfil_at_lookup, Nat.eqb_refl, Hj. cbn [fmap option_fmap option_map fulfil_slot sl_mem sl_task]. apply wp_ret.
    change (t_opts (fulfil (elos_dep name) t)) with (t_opts t).
    assert (reading pend e s2) as Hr2.
    { destruct Hr1 as [_ Hq1 Ho1 Ee1 _ _]. split; [done|by apply (ts_quiet _ _ _ _ T2)|by rewrite (ts_online _ _ _ _ T2)|apply (ts_elos _ _ _ _ T2)|done|done]. }
    assert (taskSet (get_db s2) !! j = Some (mkSlot Live (fulfil (elos_dep name) t))) as Hj2.
    { rewrite (ts_db _ _ _ _ T2), fulfil_at_lookup, Nat.eqb_refl, Hj. done. }
    assert (gen (get_db s2) = gen (get_db s1)) as Hg2 by (by rewrite (ts_db _ _ _ _ T2), fulfil_at_gen).
    destruct (t_opts t &? CRINIT_TASK_OPT_TRIGGER_REARM) eqn:Er; cbn [orb negb] in HQ.
    + rewrite <- Hp. eapply (IH (kept ++ [f]) ft); [exact Hr2|done|by rewrite Hg2|by rewrite <- app_assoc|exact Hj2|done|done|by rewrite P2|].
      intros s3 T3 Hst3 P3. change (t_opts (fulfil (elos_dep name) t)) with (t_opts t) in T3. rewrite Er in T3.
      apply HQ; [|done|].
      * unfold fulfil_names. cbn [foldl]. rewrite <- (ts_db _ _ _ _ T2). rewrite <- app_assoc in T3.
        eapply tst_trans; [|exact T3]. apply est_tst in E1. eapply tst_trans; [exact E1|]. rewrite (ts_db _ _ _ _ T2) in *. exact T2.
      * intros q Hqn. rewrite P3, P2, Pq; [done|done|]. by apply not_elem_of_cons in Hqn as [_ ?].
    + apply wp_bind, wp_fallible_quiet; [apply Hr2|]. apply wp_bind, wp_melos_modify. intros s3 E3 P3.
      rewrite (ts_elos _ _ _ _ T2) in E3.
      assert (crinitFilterTasks (set_filters i (kept ++ fs) e) !! i = Some (mkFilterTask (ft_task ft) (kept ++ fs))) as Hi3.
      { cbn. rewrite list_lookup_alter_eq, Hi. done. }
      assert (get_db s3 = get_db s2) as Hdb3 by apply (es_db _ _ _ E3).
      rewrite <- Hp. change (ft_task ft) with (ft_task (mkFilterTask (ft_task ft) (kept ++ fs))).
      eapply (IH kept _ (fulfil (elos_dep name) t) (set_filters i (kept ++ fs) e)).
      * destruct Hr2 as [Hst2' Hq2 Ho2 Ee2 [Hc1 Hc2 Hc3] Hl2]. destruct Hst2' as [Hok2 Hu2 Hid2]. split.
        { eapply stable_intro; [by apply (es_idle _ _ _ E3)|done|done|done]. }
        { by apply (es_quiet _ _ _ E3). } { by rewrite (es_online _ _ _ E3). } { apply (es_elos _ _ _ E3). } { by split. } { done. }
      * exact Hi3.
      * by rewrite Hdb3, Hg2.
      * done.
      * by rewrite Hdb3.
      * done.
      * done.
      * rewrite P3, P2. exact Pfs.
      * intros s4 T4 Hst4 P4. change (t_opts (fulfil (elos_dep name) t)) with (t_opts t) in T4. rewrite Er in T4.
        rewrite set_filters_twice, Hdb3 in T4. apply HQ; [|done|].
        { unfold fulfil_names. cbn [foldl]. rewrite <- (ts_db _ _ _ _ T2).
          eapply tst_trans; [|exact T4]. eapply tst_est; [|exact E3]. eapply tst_trans; [apply est_tst; exact E1|].
          rewrite (ts_db _ _ _ _ T2) in *. exact T2. }
        { intros q Hqn. rewrite P4, P3, P2, Pq; [done|done|]. by apply not_elem_of_cons in Hqn as [_ ?]. }
  - rewrite orb_true_r in HQ. eapply (IH (kept ++ [f]) ft t e s1); [done|done|by rewrite Hdb1|by rewrite <- app_assoc|by rewrite Hdb1|done|done|done|].
    intros s2 T2 Hst2 P2. rewrite <- app_assoc, Hdb1 in T2. apply HQ; [eapply tst_trans; [apply est_tst; exact E1|exact T2]|done|].
    intros q Hqn. rewrite P2, Pq; [done|done|]. by apply not_elem_of_cons in Hqn as [_ ?].
Qed.

(** What a turn makes of the filters of a task, and of the database. *)
Definition after_turn (d : crinitTaskDB) (pend : Z → Z) (ft : crinitElosdepFilterTask) : crinitElosdepFilterTask :=
  mkFilterTask (ft_task ft) (staying (rearmed d (ft_task ft)) pend (ft_filters ft)).
Definition fulfil_tasks (pend : Z → Z) (l : list crinitElosdepFilterTask) (d : crinitTaskDB) : crinitTaskDB :=
  foldl (λ d ft, fulfil_names (ft_task ft).2 (arrived pend (ft_filters ft)) d) d l.

Lemma fulfil_names_lookup j names d k :
  taskSet (fulfil_names j names d) !! k =
    if Nat.eqb j k then (λ sl, foldl (λ sl n, fulfil_slot (elos_dep n) sl) sl names) <$> taskSet d !! k else taskSet d !! k.
Proof.
  unfold fulfil_names. revert d. induction names as [|n names IH]; intros d; cbn [foldl].
  - destruct (Nat.eqb j k); [|done]. by destruct (taskSet d !! k).
  - rewrite IH, fulfil_at_lookup. destruct (Nat.eqb j k); [|done]. by destruct (taskSet d !! k).
Qed.

Lemma fulfil_names_gen j names d : gen (fulfil_names j names d) = gen d.
Proof. unfold fulfil_names. revert d. induction names as [|n names IH]; intros d; [done|]. cbn [foldl]. by rewrite IH, fulfil_at_gen. Qed.

Lemma fulfil_slots_keep names sl :
  let sl' := foldl (λ sl n, fulfil_slot (elos_dep n) sl) sl names in sl_mem sl' = sl_mem sl ∧ t_opts (sl_task sl') = t_opts (sl_task sl).
Proof. cbv zeta. revert sl. induction names as [|n names IH]; intros sl; [done|]. cbn [foldl]. destruct (IH (fulfil_slot (elos_dep n) sl)) as [-> ->]. done. Qed.

Lemma current_names j names d ft : current d ft → current (fulfil_names j names d) ft.
Proof.
  intros [Hg [t Ht]]. split; [by rewrite fulfil_names_gen|]. rewrite fulfil_names_lookup. destruct (Nat.eqb j _); [|eauto].
  rewrite Ht. cbn [fmap option_fmap option_map]. destruct (fulfil_slots_keep names (mkSlot Live t)) as [Hm _].
  destruct (foldl _ _ _) as [m t']. cbn in Hm. subst m. eauto.
Qed.

Lemma after_names j names d pend ft : after_turn (fulfil_names j names d) pend ft = after_turn d pend ft.
Proof.
  unfold after_turn, rearmed. do 2 f_equal. rewrite fulfil_names_lookup. destruct (Nat.eqb j _); [|done].
  destruct (taskSet d !! _) as [sl|]; [|done]. cbn [fmap option_fmap option_map]. by rewrite (proj2 (fulfil_slots_keep names sl)).
Qed.

Lemma set_filters_split done ft rest e l :
  crinitFilterTasks e = done ++ ft :: rest →
  set_filters (length done) l e = set_filterTasks ((done ++ [mkFilterTask (ft_task ft) l]) ++ rest) e.
Proof.
  intros E. unfold set_filters. f_equal. rewrite E. rewrite alter_app_r_alt by lia. rewrite Nat.sub_diag. cbn. by rewrite <- app_assoc.
Qed.

Definition queues (l : list crinitElosdepFilterTask) : list Z := ef_queue <$> (l ≫= ft_filters).

Lemma read_tasks_spec pend done rest e s (Q : bool → S → Prop) :
  reading pend e s → crinitFilterTasks e = done ++ rest → Forall (current (get_db s)) rest →
  Forall (λ ft, Forall (λ f, is_Some (ef_name f)) (ft_filters ft)) rest → NoDup (queues rest) →
  (∀ q, q ∈ queues rest → pending s q = pend q) →
  (∀ s', tst (set_filterTasks (done ++ (after_turn (get_db s) pend <$> rest)) e) (fulfil_tasks pend rest (get_db s)) s s' →
     stable s' → Q true s') →
  wp (read_tasks (length rest) (length done)) Q s.
Proof.
  revert done e s. induction rest as [|ft rest IH]; intros done e s Hr He Hcur Hnames Hnd Hpend HQ; cbn [length read_tasks].
  { apply wp_ret, HQ; [|apply Hr]. cbn [fmap list_fmap]. rewrite <- He. destruct Hr as [_ _ _ <- _ _]. split; try done.
    by destruct (get_elos s). }
  apply Forall_cons in Hcur as [[Hg [t Ht]] Hcur]. apply Forall_cons in Hnames as [Hn Hnames].
  unfold queues in Hnd, Hpend. cbn [mbind list_bind] in Hnd, Hpend. rewrite fmap_app in Hnd, Hpend.
  apply NoDup_app in Hnd as (Hnd & Hdis & Hnds).
  apply wp_bind, wp_melos. rewrite (rd_elos _ _ _ Hr), He, list_lookup_middle by done. apply wp_bind.
  assert (crinitFilterTasks e !! length done = Some ft) as Hlk by (by rewrite He, list_lookup_middle).
  assert (ft_task ft = (gen (get_db s), (ft_task ft).2)) as Hp by (rewrite <- Hg; by destruct (ft_task ft)).
  eapply (read_filters_spec pend (length done) (ft_task ft).2 (ft_filters ft) [] ft t e s); [done|exact Hlk|exact Hp|done|exact Ht|done|done| |].
  { intros f Hf. apply Hpend, elem_of_app. left. apply list_elem_of_fmap. eauto. }
  intros s1 T1 Hst1 P1. cbn [app] in T1. rewrite (set_filters_split done ft rest) in T1 by done.
  replace (mkFilterTask (ft_task ft) (staying (t_opts t &? CRINIT_TASK_OPT_TRIGGER_REARM) pend (ft_filters ft)))
    with (after_turn (get_db s) pend ft) in T1 by (unfold after_turn, rearmed; by rewrite Ht).
  set (done1 := done ++ [after_turn (get_db s) pend ft]) in *.
  replace (Datatypes.S (length done)) with (length done1) by (unfold done1; rewrite length_app; simpl; lia).
  pose proof (ts_db _ _ _ _ T1) as Hdb1.
  eapply (IH done1 (set_filterTasks (done1 ++ rest) e) s1).
  - destruct Hr as [_ Hq Ho Ee [Hc1 Hc2 Hc3] Hl]. split; [done|by apply (ts_quiet _ _ _ _ T1)|by rewrite (ts_online _ _ _ _ T1)|apply (ts_elos _ _ _ _ T1)|by split|done].
  - done.
  - rewrite Hdb1. eapply Forall_impl; [exact Hcur|]. intros ft'. apply current_names.
  - done.
  - done.
  - intros q Hq. rewrite P1; [apply Hpend, elem_of_app; by right|]. intros Hq'. by apply (Hdis q).
  - intros s2 T2 Hst2. apply HQ; [|done]. rewrite Hdb1 in T2. eapply tst_trans; [exact T1|].
    replace (set_filterTasks (done ++ (after_turn (get_db s) pend <$> ft :: rest)) e) with
      (set_filterTasks (done1 ++ (after_turn (fulfil_names (ft_task ft).2 (arrived pend (ft_filters ft)) (get_db s)) pend <$> rest))
        (set_filterTasks (done1 ++ rest) e)); [exact T2|].
    unfold done1. rewrite <- app_assoc. cbn [app fmap list_fmap]. unfold set_filterTasks, with_locks. cbn. do 3 f_equal.
    apply list_fmap_ext. intros _ ft' _. apply after_names.
Qed.
End Turn.

(** ** The claims *)

(** When no lock is held that a read of the options waits for. *)
Class OptIdle (S : Type) `{OptState S} := idle_opts : ∀ s : S, idle s → opt_locked (get_opts s) = false.

(** The names of the events that have arrived for the task at an index. *)
Definition arrived_for (pend : Z → Z) (l : list crinitElosdepFilterTask) (j : nat) : list string :=
  l ≫= λ ft, if Nat.eqb (ft_task ft).2 j then arrived pend (ft_filters ft) else [].

Lemma fulfil_tasks_lookup pend l d j :
  taskSet (fulfil_tasks pend l d) !! j =
    (λ sl, foldl (λ sl n, fulfil_slot (elos_dep n) sl) sl (arrived_for pend l j)) <$> taskSet d !! j.
Proof.
  unfold fulfil_tasks, arrived_for. revert d. induction l as [|ft l IH]; intros d; cbn [foldl mbind list_bind].
  { cbn. by destruct (taskSet d !! j). }
  rewrite IH, fulfil_names_lookup. destruct (Nat.eqb _ j); [|done]. destruct (taskSet d !! j); [|done]. cbn.
  f_equal. by rewrite foldl_app.
Qed.

Lemma fulfil_names_length j names d : length (taskSet (fulfil_names j names d)) = length (taskSet d).
Proof.
  unfold fulfil_names. revert d. induction names as [|n names IH]; intros d; [done|]. cbn [foldl]. rewrite IH. unfold fulfil_at.
  destruct (taskSet d !! j); [|done]. cbn. by rewrite length_insert.
Qed.

Lemma fulfil_tasks_length pend l d : length (taskSet (fulfil_tasks pend l d)) = length (taskSet d).
Proof.
  unfold fulfil_tasks. revert d. induction l as [|ft l IH]; intros d; [done|]. cbn [foldl]. by rewrite IH, fulfil_names_length.
Qed.

(** The effect of several events on a task. *)
Lemma fulfil_all names sl :
  NoDup (t_deps (sl_task sl)) →
  let sl' := foldl (λ sl n, fulfil_slot (elos_dep n) sl) sl names in
  t_deps (sl_task sl') ≡ₚ filter (λ d, d ∉ elos_dep <$> names) (t_deps (sl_task sl)) ∧
  (t_triggered (sl_task sl') = true ↔ t_triggered (sl_task sl) = true ∨ ∃ n, n ∈ names ∧ elos_dep n ∈ t_trig (sl_task sl)) ∧
  sl' = mkSlot (sl_mem sl) (set_t_triggered (t_triggered (sl_task sl')) (set_t_deps (t_deps (sl_task sl')) (sl_task sl))).
Proof.
  cbv zeta. revert sl. induction names as [|n names IH]; intros sl Hnd; cbn [foldl].
  - split_and!.
    + induction (t_deps (sl_task sl)) as [|d l IHl]; [done|]. apply NoDup_cons in Hnd as [_ Hnd].
      rewrite filter_cons_True by set_solver. by rewrite <- IHl.
    + set_solver.
    + destruct sl as [m t]. by destruct t.
  - assert (t_deps (sl_task (fulfil_slot (elos_dep n) sl)) ≡ₚ filter (λ d, d ≠ elos_dep n) (t_deps (sl_task sl))) as Hd
      by (by apply remove_dep_NoDup).
    destruct (IH (fulfil_slot (elos_dep n) sl)) as (Hp & Ht & E); [rewrite Hd; by apply NoDup_filter|]. split_and!.
    + rewrite Hp, Hd, list_filter_filter. apply reflexive_eq, list_filter_iff. intros x. cbn [fmap list_fmap]. rewrite not_elem_of_cons. tauto.
    + rewrite Ht. cbn [fulfil_slot sl_task]. unfold fulfil at 1 2. cbn. rewrite orb_true_iff, existsb_exists. setoid_rewrite dep_eqb_true.
      setoid_rewrite <- list_elem_of_In. setoid_rewrite elem_of_cons. naive_solver.
    + rewrite E at 1. by destruct sl as [m t], t.
Qed.

(** No mutex of elosdep.c is held. *)
Definition unheld (e : elos) : Prop := ∀ m, held m e = false.

Section Claims.
Context {S : Type} `{ElosLaws S, !OptState S, !OptIdle S}.
Implicit Types s : S.

(** The listener is set up and elosd answers. *)
Record listening (s : S) : Prop := {
  li_stable : stable s;
  li_quiet : quiet s;
  li_online : online s = true;
  li_connected : connected (get_elos s);
  li_unheld : unheld (get_elos s);
  li_activated : crinitElosActivated (get_elos s) = true;
}.

(** The filters that are registered: their tasks have not moved, their names could
    be copied, and each has a queue of its own. *)
Record registered (s : S) : Prop := {
  rg_current : Forall (current (get_db s)) (crinitFilterTasks (get_elos s));
  rg_names : Forall (λ ft, Forall (λ f, is_Some (ef_name f)) (ft_filters ft)) (crinitFilterTasks (get_elos s));
  rg_queues : NoDup (queues (crinitFilterTasks (get_elos s)));
}.

Lemma turn_spec s :
  listening s → registered s →
  wp listener_turn (λ r s', r = Again ∧ stable s' ∧
    tst (set_filterTasks (after_turn (get_db s) (pending s) <$> crinitFilterTasks (get_elos s)) (get_elos s))
        (fulfil_tasks (pending s) (crinitFilterTasks (get_elos s)) (get_db s)) s s') s.
Proof.
  intros [Hst Hq Ho Hc Hu Ha] [Hcur Hn Hnd]. unfold listener_turn. set (e := get_elos s) in *.
  apply wp_bind, wp_elos_lock; [apply Hu| |done]. intros s1 E1 P1. fold e in E1. apply wp_bind, wp_melos.
  apply wp_bind, wp_elos_unlock; [by rewrite (es_elos _ _ _ E1)|]. intros s2 E2 P2. rewrite (es_elos _ _ _ E1) in *.
  cbn [crinitElosActivated set_held]. rewrite Ha. cbn [negb].
  assert (∀ m, set_held m false (set_held m true e) = e) as Hback.
  { intros m. apply set_held_back, Hu. }
  rewrite Hback in E2. pose proof (est_trans _ _ _ _ _ E1 E2) as E12.
  apply wp_bind, wp_elos_lock; [by rewrite (es_elos _ _ _ E2)| |].
  2:{ intros s3 _ _ Hnq. destruct Hnq. by apply (es_quiet _ _ _ E12). }
  intros s3 E3 P3. rewrite (es_elos _ _ _ E2) in E3. pose proof (est_trans _ _ _ _ _ E12 E3) as E13. cbn [negb].
  apply wp_bind, wp_melos. rewrite (es_elos _ _ _ E3). apply wp_bind.
  assert (get_db s3 = get_db s) as Hdb3 by apply (es_db _ _ _ E13).
  eapply (read_tasks_spec (pending s) [] (crinitFilterTasks e) (set_held FilterTaskLock true e) s3).
  - destruct Hc as [Hc1 Hc2 Hc3]. split; [|by apply (es_quiet _ _ _ E13)|by rewrite (es_online _ _ _ E13)|apply (es_elos _ _ _ E3)|by split|apply (Hu SessionLock)].
    destruct Hst as [Hok Hul Hid]. eapply stable_intro; [by apply (es_idle _ _ _ E13)|done|done|done].
  - done.
  - by rewrite Hdb3.
  - done.
  - done.
  - intros q _. by rewrite P3, P2, P1.
  - intros s4 T4 Hst4. cbn [negb]. apply wp_bind, wp_elos_unlock; [by rewrite (ts_elos _ _ _ _ T4)|]. intros s5 E5 P5.
    rewrite (ts_elos _ _ _ _ T4) in E5. cbn [app] in E5. rewrite Hdb3 in *.
    assert (set_held FilterTaskLock false (set_filterTasks (after_turn (get_db s) (pending s) <$> crinitFilterTasks e) (set_held FilterTaskLock true e)) =
      set_filterTasks (after_turn (get_db s) (pending s) <$> crinitFilterTasks e) e) as Ee.
    { pose proof (Hu FilterTaskLock) as Hm. destruct e as [? ? ? ? ? ? ? ? ? ? []]; cbn in *. by subst. }
    rewrite Ee in E5. assert (tst _ _ s s5) as T5 by (eapply tst_est; [eapply tst_trans; [apply est_tst; exact E13|exact T4]|exact E5]).
    assert (stable s5) as Hst5.
    { destruct Hst4 as [Hok4 Hu4 Hi4]. eapply stable_intro; [by apply (es_idle _ _ _ E5)|apply (es_db _ _ _ E5)|done|done]. }
    apply wp_bind. unfold crinitGlobOptGetUnsignedLL, wp. rewrite run_getter; [|by apply (ts_quiet _ _ _ _ T5)|apply idle_opts, Hst5|done].
    done.
Qed.

(** *** Registration *)

Lemma find_filter_spec name l n s : (0 < n)%nat →
  Forall (λ e, str_has "=" e = true) l → find_filter name ((Some <$> l) ++ replicate n None) s = Ret (env_map l !! name) s.
Proof.
  intros Hn Hl. induction Hl as [|e l He Hl IH]; [by destruct n; [lia|]|]. cbn [fmap list_fmap app find_filter].
  destruct (str_break "=" e) as [[k v]|] eqn:Eb.
  2:{ unfold str_has in He. by rewrite Eb in He. }
  assert (env_kv e = (k, v)) as Ekv by (unfold env_kv; by rewrite Eb).
  unfold env_map. cbn [fmap list_fmap list_to_map foldr]. rewrite Ekv. cbn [fst snd]. destruct (str_eqb k name) eqn:E.
  - apply str_eqb_true in E as ->. by rewrite lookup_insert_eq.
  - rewrite IH. f_equal. unfold env_map. rewrite lookup_insert_ne; [done|]. intros ->. by rewrite str_eqb_refl in E.
Qed.

(** The dependencies and triggers of a task on elos. *)
Definition wanted (l : list crinitTaskDep) : list crinitTaskDep := List.filter (λ d, str_eqb (dep_name d) CRINIT_ELOS_DEPENDENCY) l.

(** The filter of a dependency. *)
Definition filter_of (env : list string) (started : bool) (dep : crinitTaskDep) (f : crinitElosdepFilter) : Prop :=
  ef_name f = Some (dep_event dep) ∧ ef_filter f = env_map env !! dep_event dep ∧ (started = false → ef_queue f = ELOS_ID_INVALID).

Record can_register (s : S) : Prop := {
  cr_quiet : quiet s;
  cr_unheld : unheld (get_elos s);
  cr_started : elosStarted (get_elos s) = true → online s = true ∧ connected (get_elos s);
}.

(** What has been registered of [deps] for the task at [p]. *)
Definition progress (p : task_ptr) (env : list string) (s : S) (deps : list crinitTaskDep) (ft : filter_task_ref) (s' : S) : Prop :=
  let e := get_elos s in
  match ft with
  | FtNull => deps = [] ∧ est e s s'
  | FtListed i => deps ≠ [] ∧ i = length (crinitFilterTasks e) ∧
      ∃ fs, Forall2 (filter_of env (elosStarted e)) deps fs ∧ est (set_filterTasks (crinitFilterTasks e ++ [mkFilterTask p fs]) e) s s'
  | FtLoose _ => False
  end.

Lemma new_filter_task_spec p s s1 :
  can_register s → est (get_elos s) s s1 →
  wp (new_filter_task p) (λ r s', r = (0, FtListed (length (crinitFilterTasks (get_elos s)))) ∧
    est (set_filterTasks (crinitFilterTasks (get_elos s) ++ [mkFilterTask p []]) (get_elos s)) s s') s1.
Proof.
  intros [Hq Hu _] E1. unfold new_filter_task. assert (quiet s1) as Hq1 by (by apply (es_quiet _ _ _ E1)).
  apply wp_bind, wp_fallible_quiet; [done|]. apply wp_bind, wp_fallible_quiet; [done|].
  apply wp_bind, wp_elos_lock; [rewrite (es_elos _ _ _ E1); apply Hu| |done]. intros s2 E2 _. rewrite (es_elos _ _ _ E1) in E2.
  apply wp_bind, wp_melos. rewrite (es_elos _ _ _ E2). apply wp_bind, wp_melos_modify. intros s3 E3 _. rewrite (es_elos _ _ _ E2) in E3.
  apply wp_bind, wp_elos_unlock; [by rewrite (es_elos _ _ _ E3)|]. intros s4 E4 _. rewrite (es_elos _ _ _ E3) in E4. apply wp_ret.
  split; [done|]. eapply est_trans; [exact E1|]. eapply est_trans; [exact E2|]. eapply est_trans; [exact E3|].
  match goal with |- est ?e _ _ => match type of E4 with est ?e' _ _ => replace e with e'; [done|] end end.
  pose proof (Hu FilterTaskLock) as Hm. destruct (get_elos s) as [? ? ? ? ? ? ? ? ? ? []]; cbn in *. by subst.
Qed.

Lemma set_filters_last p fs fs' e :
  set_filters (length (crinitFilterTasks e)) fs' (set_filterTasks (crinitFilterTasks e ++ [mkFilterTask p fs]) e) =
  set_filterTasks (crinitFilterTasks e ++ [mkFilterTask p fs']) e.
Proof.
  unfold set_filters, set_filterTasks, with_locks. cbn. f_equal. rewrite alter_app_r_alt by lia. by rewrite Nat.sub_diag.
Qed.

Lemma register_spec p t env s deps dep ft s1 :
  can_register s → env_wf (t_elosFilters t) env → progress p env s deps ft s1 →
  (str_eqb (dep_name dep) CRINIT_ELOS_DEPENDENCY = true → str_has "=" (dep_event dep) = false ∧ is_Some (env_map env !! dep_event dep)) →
  wp (crinitElosdepRegisterFilterDep p t dep ft) (λ r s', r.1 = 0 ∧ progress p env s (deps ++ wanted [dep]) r.2 s') s1.
Proof.
  intros Hcan Henv Hpr Hdep. unfold crinitElosdepRegisterFilterDep, wanted. cbn [List.filter].
  destruct (str_eqb (dep_name dep) CRINIT_ELOS_DEPENDENCY); cbn [negb].
  2:{ apply wp_ret. split; [done|]. cbn [snd]. by rewrite app_nil_r. }
  destruct (Hdep eq_refl) as [Hname [v Hv]]. set (e := get_elos s) in *. set (i := length (crinitFilterTasks e)).
  assert (wp (match ft with FtNull => new_filter_task p | _ => mret (0, ft) end) (λ r s', r = (0, FtListed i) ∧
    ∃ fs, Forall2 (filter_of env (elosStarted e)) deps fs ∧ est (set_filterTasks (crinitFilterTasks e ++ [mkFilterTask p fs]) e) s s') s1) as Hft.
  { destruct ft as [|k|b]; [|destruct Hpr as (_ & -> & Hpr); by apply wp_ret|done]. destruct Hpr as [-> E1].
    eapply wp_mono; [|by apply new_filter_task_spec]. intros r s' [-> E]. split; [done|]. exists []. by split. }
  apply wp_bind. eapply wp_mono; [|exact Hft]. intros r s2 (-> & fs & Hfs & E2). cbn [negb Z.eqb].
  assert (quiet s2) as Hq2 by (apply (es_quiet _ _ _ E2), Hcan). apply wp_bind.
  assert (crinitElosdepFilterFromEnvSet t (dep_event dep) s2 = Ret (Some (mkFilter (Some (dep_event dep)) (Some v) ELOS_ID_INVALID)) s2) as Hf.
  { unfold crinitElosdepFilterFromEnvSet. rewrite Hname, (env_arr _ _ Henv).
    rewrite (bind_run _ _ _ _ _ (find_filter_spec (dep_event dep) env (allocSz (t_elosFilters t) - length env) s2
      ltac:(pose proof (env_room _ _ Henv); lia) (env_entries _ _ Henv))).
    cbv beta. rewrite Hv. cbv iota. rewrite bind_fallible by done. cbv beta iota. rewrite bind_fallible by done. cbv beta.
    by rewrite bind_fallible. }
  unfold wp at 1. rewrite Hf. set (f := mkFilter _ _ _). apply wp_bind. unfold crinitElosdepFilterRegister.
  apply wp_bind, wp_fallible_quiet; [done|]. apply wp_bind, wp_melos. rewrite (es_elos _ _ _ E2). cbn [crinitFilterTasks set_filterTasks with_locks].
  rewrite list_lookup_middle by done. apply wp_bind, wp_melos_modify. intros s3 E3 P3. rewrite (es_elos _ _ _ E2) in E3.
  cbn [ft_filters] in E3. unfold i in E3. rewrite set_filters_last in E3. apply wp_ret. cbn [negb Z.eqb]. apply wp_bind, wp_melos.
  rewrite (es_elos _ _ _ E3). cbn [elosStarted set_filterTasks with_locks]. pose proof (est_trans _ _ _ _ _ E2 E3) as E23.
  assert (filter_of env false dep f) as Hfo by (unfold filter_of; by rewrite Hv).
  destruct (elosStarted e) eqn:Est; cbn [negb].
  2:{ apply wp_ret. split; [done|]. split; [by destruct deps|]. split; [done|]. fold e. rewrite Est. exists (fs ++ [f]). split; [|done]. apply Forall2_app; [done|by constructor]. }
  destruct (cr_started _ Hcan Est) as [Ho [Hc1 Hc2 Hc3]]. apply wp_bind. unfold crinitElosdepFilterSubscribe. cbn [ef_filter f].
  eapply (try_exec_online _ SYM_eventSubscribe _ (λ r _, r.1 = 0)); [exact (es_elos _ _ _ E3)|apply (cr_unheld _ Hcan SessionLock)|by split|
    by rewrite (es_online _ _ _ E23)|by apply (es_quiet _ _ _ E23), Hcan|unfold SYM_eventSubscribe; lia| |].
  { intros s4 _ _ Ho4. eapply wp_mono; [|apply subscribe_ok]. intros r s' [Hc Hr]. split; [done|]. by destruct (Hr Ho4). }
  intros [r q] s4 s5 Hr E5 _. cbn [fst] in Hr. subst r. cbn [negb Z.eqb]. apply wp_bind. unfold set_last_queue. apply wp_melos_modify.
  intros s6 E6 _. rewrite (es_elos _ _ _ E5) in E6. apply wp_ret. split; [done|]. split; [by destruct deps|]. split; [done|]. fold e. rewrite Est.
  exists (fs ++ [mkFilter (ef_name f) (ef_filter f) q]). split; [apply Forall2_app; [done|]; constructor; [|done]; by destruct Hfo as (? & ? & _)|].
  eapply est_trans; [exact E23|]. eapply est_trans; [exact E5|].
  match goal with |- est ?x _ _ => match type of E6 with est ?y _ _ => replace x with y; [done|] end end.
  unfold i, set_filterTasks, with_locks. cbn. f_equal. rewrite alter_app_r_alt by lia. rewrite Nat.sub_diag. cbn. do 3 f_equal.
  rewrite length_app. cbn. replace (length fs + 1 - 1)%nat with (length fs) by lia. rewrite alter_app_r_alt by lia. by rewrite Nat.sub_diag.
Qed.

Lemma register_loop_spec p t env s deps done ft s1 res (Q : Z * filter_task_ref → S → Prop) :
  can_register s → env_wf (t_elosFilters t) env → progress p env s done ft s1 → res = 0 →
  Forall (λ dep, str_has "=" (dep_event dep) = false ∧ is_Some (env_map env !! dep_event dep)) (wanted deps) →
  (∀ ft' s', progress p env s (done ++ wanted deps) ft' s' → Q (0, ft') s') →
  wp (register_loop p t deps ft res) Q s1.
Proof.
  intros Hcan Henv. revert done ft s1 res. induction deps as [|dep deps IH]; intros done ft s1 res Hpr -> Hall HQ; cbn [register_loop].
  { apply wp_ret, HQ. by rewrite app_nil_r. }
  assert (wanted (dep :: deps) = wanted [dep] ++ wanted deps) as Ew by (unfold wanted; cbn [List.filter]; by destruct (str_eqb _ _)).
  rewrite Ew in Hall, HQ. apply Forall_app in Hall as [Hd Hall]. apply wp_bind. eapply wp_mono; [|eapply register_spec; [done|done|exact Hpr|]].
  - intros [r ft'] s' [Hr Hp]. cbn [fst snd] in Hr, Hp. subst r. cbn [negb Z.eqb]. eapply IH; [exact Hp|done|done|]. intros ft2 s2. rewrite <- app_assoc. apply HQ.
  - intros E. unfold wanted in Hd. cbn [List.filter] in Hd. rewrite E in Hd. by apply Forall_cons in Hd as [? _].
Qed.

(** C24: When a task is added, each of its dependencies and triggers "@elos:name" gets
    a filter with that name and the rule ELOS_FILTER gives for it, in the order in which
    the task lists them; the filters are kept for exactly this task, behind those of the
    tasks added before, the database is not touched and no mutex stays held.  Without
    such a dependency nothing happens.  (Nothing fails, and elosd answers if the
    listener has been started.) *)
Theorem crinitElosdepTaskAdded_registers i t env s :
  can_register s → taskSet (get_db s) !! i = Some (mkSlot Live t) → env_wf (t_elosFilters t) env →
  let deps := wanted (t_deps t ++ t_trig t) in
  Forall (λ dep, str_has "=" (dep_event dep) = false ∧ is_Some (env_map env !! dep_event dep)) deps →
  wp (crinitElosdepTaskAdded (HookTask (gen (get_db s), i))) (λ r s', r = 0 ∧ get_db s' = get_db s ∧ unheld (get_elos s') ∧
    (deps = [] → get_elos s' = get_elos s) ∧
    (deps ≠ [] → ∃ fs, crinitFilterTasks (get_elos s') = crinitFilterTasks (get_elos s) ++ [mkFilterTask (gen (get_db s), i) fs] ∧
       Forall2 (filter_of env (elosStarted (get_elos s))) deps fs)) s.
Proof.
  intros Hcan Hi Henv deps Hall. unfold crinitElosdepTaskAdded. apply wp_bind. unfold deref. apply wp_bind, wp_mdb. cbn [fst snd].
  rewrite Nat.eqb_refl, Hi. cbn [negb sl_mem sl_task]. apply wp_ret.
  assert (deps = wanted (t_deps t) ++ wanted (t_trig t)) as Ed by apply List.filter_app. rewrite Ed in Hall. apply Forall_app in Hall as [Hd Ht].
  apply wp_bind. eapply (register_loop_spec _ _ env s _ []); [done|done|split; [done|apply est_refl]|done|done|]. intros ft s1 Hp1.
  apply wp_bind. eapply (register_loop_spec _ _ env s _ _); [done|done|exact Hp1|done|done|]. intros ft2 s2 Hp. apply wp_ret.
  cbn [app] in Hp. rewrite <- Ed in Hp. destruct ft2 as [|k|b]; [|destruct Hp as (Hne & -> & fs & Hfs & E)|done].
  - destruct Hp as [Hdeps E]. destruct E as [Ee Edb _ _ _ _]. rewrite Ee. split_and!; [done|done|apply Hcan|done|done].
  - pose proof E as [Ee Edb _ _ _ _]. rewrite Ee. split_and!; [done|done|intros m; pose proof (cr_unheld _ Hcan m); by destruct m| |].
    + done.
    + intros _. exists fs. by split.
Qed.

(** C23: One turn of the elos listener, with elosd answering and the tasks where they
    were when their filters were registered, goes on and fulfils exactly what has
    happened: every task loses exactly the dependencies "@elos:name" of its own filters
    for which an event has arrived, is triggered exactly if it was or one of its
    triggers has arrived, and nothing else of the database changes; exactly the filters
    with an event are removed, those of a task that is rearmed stay, and every mutex is
    released. *)
Theorem elos_turn_exact s :
  listening s → registered s → deps_unique (get_db s) →
  let now j := arrived_for (pending s) (crinitFilterTasks (get_elos s)) j in
  wp listener_turn (λ r s', r = Again ∧ stable s' ∧ quiet s' ∧ unheld (get_elos s') ∧
    crinitFilterTasks (get_elos s') = after_turn (get_db s) (pending s) <$> crinitFilterTasks (get_elos s) ∧
    length (taskSet (get_db s')) = length (taskSet (get_db s)) ∧
    ∀ j a, taskSet (get_db s) !! j = Some a → ∃ b, taskSet (get_db s') !! j = Some b ∧
      t_deps (sl_task b) ≡ₚ filter (λ d, d ∉ elos_dep <$> now j) (t_deps (sl_task a)) ∧
      (t_triggered (sl_task b) = true ↔ t_triggered (sl_task a) = true ∨ ∃ n, n ∈ now j ∧ elos_dep n ∈ t_trig (sl_task a)) ∧
      b = mkSlot (sl_mem a) (set_t_triggered (t_triggered (sl_task b)) (set_t_deps (t_deps (sl_task b)) (sl_task a)))) s.
Proof.
  intros Hl Hr Hd now. eapply wp_mono; [|by apply turn_spec]. intros r s' (-> & Hst & T).
  split_and!; [done|done|by apply (ts_quiet _ _ _ _ T), Hl| | | |].
  - rewrite (ts_elos _ _ _ _ T). intros m. pose proof (li_unheld _ Hl m) as Hm. by destruct m.
  - by rewrite (ts_elos _ _ _ _ T).
  - by rewrite (ts_db _ _ _ _ T), fulfil_tasks_length.
  - intros j a Hj. rewrite (ts_db _ _ _ _ T), fulfil_tasks_lookup, Hj. eexists. split; [done|]. apply fulfil_all.
    unfold deps_unique in Hd. rewrite Forall_lookup in Hd. exact (Hd _ _ Hj).
Qed.

(** *** No connection *)

(** The library is loaded, there is no session, and elosd does not answer. *)
Record unreachable (e : elos) (s : S) : Prop := {
  ur_elos : get_elos s = e;
  ur_quiet : quiet s;
  ur_offline : online s = false;
  ur_session : session e = None;
  ur_server : ∃ srv, vt_elosServer (vtable e) = Server srv;
  ur_symbols : (0 < vt_symbols (vtable e))%nat;
  ur_mapped : vt_mapped (vtable e) = true;
}.

Lemma connect_fails n e s : unreachable e s → wp (connect_loop Dep n) (λ r s', r ≠ 0 ∧ unreachable e s') s.
Proof.
  revert s. induction n as [|n IH]; intros s Hu; pose proof Hu as [Ee Hq Ho Hses [srv Hsrv] Hsym Hmap]; cbn [connect_loop];
    apply wp_bind, wp_melos; cbn [session_of]; rewrite Ee, Hses, Hsrv; apply wp_bind; unfold call_symbol; apply wp_bind, wp_melos; rewrite Ee, Hmap;
    rewrite (proj2 (Nat.ltb_lt _ _)) by (unfold SYM_connect; lia); cbn [andb]; (eapply wp_mono; [|apply connect_ok]);
    intros r s' ([_ _ _ Hq' Ho' He'] & Hc & _ & Hoff); destruct (Hoff Ho) as [c ->];
    (assert (unreachable e s') as Hu' by (rewrite Ee in He'; destruct He' as [He'|(_ & b & [? Hs] & _)]; [|congruence];
      split; [congruence|by apply Hq'|by rewrite Ho'|done|eauto|done|done]));
    [apply wp_ret; split; [by apply Hc|done]|by apply IH].
Qed.

(** A mutex that is held blocks whoever takes it. *)
Lemma lock_blocks m s : quiet s → held m (get_elos s) = true → elos_lock m s = Block.
Proof. intros Hq Hm. unfold elos_lock. rewrite bind_fallible by done. cbv beta iota. unfold mbind, M_bind, melos. cbn. by rewrite Hm. Qed.

(** crinitElosTryExec() without a connection returns with the mutex of the session
    held. *)
Lemma try_exec_offline {A} (dflt : A) func e s :
  unreachable e s → held SessionLock e = false →
  wp (crinitElosTryExec Dep dflt func) (λ r s', r.1 ≠ 0 ∧ unreachable (set_held SessionLock true e) s') s.
Proof.
  intros Hu Hh. pose proof Hu as [Ee Hq Ho Hses Hsrv Hsym Hmap]. unfold crinitElosTryExec. change (session_lock Dep) with SessionLock.
  apply wp_bind, wp_elos_lock; [by rewrite Ee| |done]. intros s1 E1 _. rewrite Ee in E1. apply wp_bind, wp_melos_modify. intros s2 E2 _.
  rewrite (es_elos _ _ _ E1) in E2. replace (session_of Dep (set_held SessionLock true e)) with (@None bool) in E2 by done.
  apply wp_bind. eapply wp_mono; [|apply (connect_fails _ (set_held SessionLock true e))].
  - intros r s3 [Hr Hu3]. apply Z.eqb_neq in Hr as Hr'. rewrite Hr'. apply wp_ret. done.
  - split; try done; [apply (es_elos _ _ _ E2)|by apply (es_quiet _ _ _ E2), (es_quiet _ _ _ E1)|].
    by rewrite (es_online _ _ _ E2), (es_online _ _ _ E1).
Qed.

Lemma clear_tasks_spec l s :
  quiet s → held SessionLock (get_elos s) = true → held FilterTaskLock (get_elos s) = true →
  wp (clear_tasks l) (λ _ s', quiet s' ∧ held SessionLock (get_elos s') = true ∧ held FilterTaskLock (get_elos s') = true) s.
Proof.
  revert s. induction l as [|x l IH]; intros s Hq Hs Hf; cbn [clear_tasks]; [done|]. apply wp_bind, wp_melos_modify. intros s1 E1 _.
  assert (quiet s1) as Hq1 by (by apply (es_quiet _ _ _ E1)). apply wp_bind, wp_fallible_quiet; [done|].
  apply IH; [done|by rewrite (es_elos _ _ _ E1)..].
Qed.

(** The listener that finds no elosd waits forever for the mutex of the session,
    which it holds itself. *)
Theorem listener_deadlock n e s : unreachable e s → unheld e → crinitElosdepEventListener n s = Block.
Proof.
  intros Hu Hh. unfold crinitElosdepEventListener.
  rewrite (bind_run _ _ s tt (set_elos (set_started true (get_elos s)) s)) by done. cbv beta. set (s1 := set_elos _ s).
  assert (unreachable (set_started true e) s1) as Hu1.
  { destruct Hu as [Ee Hq Ho Hses Hsrv Hsym Hmap]. unfold s1. split; try done; rewrite ?get_set_elos, ?online_elos, ?Ee; try done.
    unfold quiet. by rewrite faults_elos. }
  pose proof (try_exec_offline tt (call_symbol SYM_getVersion (r ← elosGetVersion; mret (r, tt))) _ s1 Hu1 (Hh SessionLock)) as Hx.
  unfold wp in Hx. destruct (crinitElosTryExec _ _ _ s1) as [[r u] s2| |] eqn:E; [|done..]. destruct Hx as [Hr Hu2]. cbn [fst] in Hr.
  rewrite (bind_run _ _ _ _ _ E). cbv beta iota. apply Z.eqb_neq in Hr. rewrite Hr. cbn [negb]. unfold err_connection_lost.
  assert (wp crinitElosdepFilterTaskListClear (λ _ s', quiet s' ∧ held SessionLock (get_elos s') = true) s2) as Hclear.
  { destruct Hu2 as [Ee Hq _ _ _ _ _]. unfold crinitElosdepFilterTaskListClear. apply wp_bind, wp_elos_lock; [rewrite Ee; apply (Hh FilterTaskLock)| |done].
    intros s3 E3 _. rewrite Ee in E3. apply wp_bind, wp_melos. apply wp_bind.
    eapply wp_mono; [|apply clear_tasks_spec; [by apply (es_quiet _ _ _ E3)|by rewrite (es_elos _ _ _ E3)..]]. intros res s4 (Hq4 & Hs4 & Hf4).
    apply wp_bind, wp_elos_unlock; [done|]. intros s5 E5 _. apply wp_ret. split; [by apply (es_quiet _ _ _ E5)|]. by rewrite (es_elos _ _ _ E5). }
  unfold wp in Hclear. destruct (crinitElosdepFilterTaskListClear s2) as [x s3| |] eqn:E3; [|done..]. destruct Hclear as [Hq3 Hs3].
  rewrite (bind_run _ _ _ _ _ E3). cbv beta. apply bind_block. by apply lock_blocks.
Qed.
End Claims.
