(* ===== verification/ElosDemo.v ===== *)
(** * A daemon with elos dependencies

    The concrete state in which the claims on elos apply: an elosd that answers or
    not, with the events that have arrived in its queues. *)

From Stdlib Require Import ZArith Lia Bool List String Ascii.
From stdpp Require Import base functions list strings gmap.
From S2P Require Import Prelude CString EnvSet Timer Task TaskDB TaskDBSpec TaskDBProps GlobOpt GlobOptProps ElosDep ElosProps.

Open Scope Z_scope.
Open Scope crinit_scope.

#[local] Arguments String.append : simpl nomatch.

Record elosd := mkElosd {
  ed_faults : list bool;
  ed_db : crinitTaskDB;
  ed_threads : list (task_ptr * crinitDispatchThreadMode);
  ed_elos : elos;
  ed_opts : crinitGlobOptStore;
  ed_pending : Z → Z;
  ed_online : bool;
  ed_next : Z;
}.

#[export, refine] Instance elosd_faulty : Faulty elosd := {|
  faults := ed_faults;
  set_faults := λ l s, mkElosd l (ed_db s) (ed_threads s) (ed_elos s) (ed_opts s) (ed_pending s) (ed_online s) (ed_next s);
  idle := λ s, opt_locked (ed_opts s) = false;
|}.
Proof. all: done || by intros []. Defined.

#[export, refine] Instance elosd_cgroups : CgroupQuery elosd := {|
  crinitCgroupNameIsGlobalCgroup := λ _, mret (0, false);
|}.
Proof. intros name s _. apply wp_ret. split; [apply same_faults|done]. Defined.

#[export, refine] Instance elosd_services : TaskDBServices elosd := {|
  get_db := ed_db;
  set_db := λ d s, mkElosd (ed_faults s) d (ed_threads s) (ed_elos s) (ed_opts s) (ed_pending s) (ed_online s) (ed_next s);
  threads := ed_threads;
  clock_monotonic := mret (Some (mkTimespec 7 0));
  crinitElosLog := λ _ _ _ _, mret 0;
  TaskDB.crinitFeatureHook := λ _ _ _, mret 0;
  crinitTimerDBRemoveTimer := λ _, mret tt;
  call_spawnFunc := λ p mode,
    mmodify (λ s, mkElosd (ed_faults s) (ed_db s) (ed_threads s ++ [(p, mode)]) (ed_elos s) (ed_opts s) (ed_pending s) (ed_online s) (ed_next s)) ;;
    mret 0;
|}.
Proof.
  1-8: done || by intros [].
  - intros s. by apply wp_ret.
  - intros. by apply wp_ret.
  - intros. by apply wp_ret.
  - intros. by apply wp_ret.
  - intros p mode s Hi. apply wp_bind, wp_modify, wp_ret. split_and!; [done|done|done|by left].
Defined.

#[export, refine] Instance elosd_opts : OptState elosd := {|
  get_opts := ed_opts;
  set_opts := λ o s, mkElosd (ed_faults s) (ed_db s) (ed_threads s) (ed_elos s) o (ed_pending s) (ed_online s) (ed_next s);
|}.
Proof. all: done || by intros []. Defined.

#[export] Instance elosd_idle : OptIdle elosd.
Proof. by intros s. Defined.

(** Subscribing hands out one queue after the other; calls fail when elosd does not
    answer. *)
#[export, refine] Instance elosd_elos : ElosState elosd := {|
  get_elos := ed_elos;
  set_elos := λ e s, mkElosd (ed_faults s) (ed_db s) (ed_threads s) e (ed_opts s) (ed_pending s) (ed_online s) (ed_next s);
  elosConnectTcpip := λ _ _ s, Ret (if ed_online s then inl true else inr (-1)) s;
  elosGetVersion := λ s, Ret (if ed_online s then 0 else -1) s;
  elosEventSubscribe := λ _ s, if ed_online s
    then Ret (0, ed_next s) (mkElosd (ed_faults s) (ed_db s) (ed_threads s) (ed_elos s) (ed_opts s) (ed_pending s) true (ed_next s + 1))
    else Ret (-1, 0) s;
  elosEventUnsubscribe := λ _ s, Ret (if ed_online s then 0 else -1) s;
  elosEventQueueRead := λ q s, if ed_online s
    then Ret (0, ed_pending s q) (mkElosd (ed_faults s) (ed_db s) (ed_threads s) (ed_elos s) (ed_opts s) (<[q := 0]> (ed_pending s)) true (ed_next s))
    else Ret (-1, 0) s;
  elosDisconnect := mret 0;
|}.
Proof. all: done || by intros []. Defined.

#[export, refine] Instance elosd_laws : ElosLaws elosd := {|
  pending := ed_pending;
  online := ed_online;
|}.
Proof.
  1-6: done.
  - intros srv port s. unfold wp. cbn. destruct (ed_online s) eqn:E; split_and!; try done; try (split; auto; done).
    + intros c [= <-]. lia.
    + intros _. eauto.
  - intros s. unfold wp. cbn. split; [by split; auto|]. by intros ->.
  - intros f s. unfold wp. cbn. destruct (ed_online s) eqn:E; cbn; (split; [by split; auto|done]).
  - intros q s. unfold wp. cbn. split; [by split; auto|]. by intros ->.
  - intros q s. unfold wp. cbn. destruct (ed_online s) eqn:E; cbn; (split; [by split; auto|done]).
  - intros s. by split; auto.
Defined.

(** ** Examples *)

Definition loaded : crinitElosVirtualTable := mkVTable (Server "127.0.0.1") 54321 9 true.
Definition quiet_log : eloslog := mkLog None false 0 0 false false false false.
Definition demo_elos (l : list crinitElosdepFilterTask) : elos := mkElos loaded l (Some true) true true 1 false false false false quiet_log.

Definition filters_env : crinitEnvSet := mkEnvSet (Some [Some "login=.event.messageCode 7"; Some "wlan=.event.payload r'up'"; None; None]%string) 4 2.
Definition demo_login : crinitTask :=
  mkTask "login" demo_cmd [] demo_env filters_env [mkDep "@elos" "login"; mkDep "fs" "wait"] [mkDep "@elos" "wlan"] false [] 0 0 (-1) [] 2 0 false
    (mkTimespec 5 0) (mkTimespec 0 0) (mkTimespec 0 0) 0 0 [] None None 0 0 None.

Lemma filters_env_wf : env_wf filters_env ["login=.event.messageCode 7"; "wlan=.event.payload r'up'"]%string.
Proof. split; [done|simpl; lia|by repeat constructor|]. vm_compute. repeat constructor; set_solver. Qed.

Lemma demo_login_ok : task_ok demo_login.
Proof. split; simpl; [by repeat constructor|by constructor|apply demo_env_ok|by eexists; apply filters_env_wf|done]. Qed.

(** "fs" and "login" are loaded; [l] are the filters, [pend] the events. *)
Definition demo_elosd (fs : list bool) (l : list crinitElosdepFilterTask) (pend : Z → Z) (up : bool) : elosd :=
  mkElosd fs (demo_db [demo_fs; demo_login]) [] (demo_elos l) demo_opts pend up 1.
Definition login_filters : list crinitElosdepFilterTask :=
  [mkFilterTask (0, 1)%nat [mkFilter (Some "login") (Some ".event.messageCode 7") 1; mkFilter (Some "wlan") (Some ".event.payload r'up'") 2]%string].

Lemma demo_elosd_stable fs l pend up : stable (demo_elosd fs l pend up).
Proof.
  split; [|done|done]. split; simpl; [done|lia|by repeat constructor| |].
  - repeat constructor; set_solver.
  - apply Forall_cons. split; [apply demo_fs_ok|]. apply Forall_singleton, demo_login_ok.
Qed.

Lemma demo_elosd_unheld l : unheld (demo_elos l).
Proof. by intros []. Qed.

(** An event for the dependency "login": it is gone, the filter for the trigger stays. *)
Lemma elos_turn_exact_witness :
  let s := demo_elosd [] login_filters (λ q, if q =? 1 then 2 else 0) true in
  wp listener_turn (λ r s', r = Again ∧
    crinitFilterTasks (get_elos s') = [mkFilterTask (0, 1)%nat [mkFilter (Some "wlan") (Some ".event.payload r'up'") 2]%string] ∧
    ∃ b, taskSet (get_db s') !! 1%nat = Some b ∧ t_deps (sl_task b) ≡ₚ [mkDep "fs" "wait"]) s.
Proof.
  cbv zeta. eapply wp_mono; [|apply (elos_turn_exact (demo_elosd [] login_filters (λ q, if q =? 1 then 2 else 0) true))].
  - intros r s' (-> & _ & _ & _ & -> & _ & Hdb). split_and!; [done|by vm_compute|]. destruct (Hdb 1%nat _ eq_refl) as (b & Hb & Hdeps & _).
    exists b. split; [done|]. rewrite Hdeps. by vm_compute.
  - split; [apply demo_elosd_stable|done|done|done|apply demo_elosd_unheld|done].
  - split; [repeat constructor; by eexists|by repeat constructor|vm_compute; repeat constructor; set_solver].
  - repeat constructor; set_solver.
Defined.

Lemma crinitElosdepTaskAdded_registers_witness :
  let s := mkElosd [] (demo_db [demo_fs; demo_login]) [] (set_started false (demo_elos [])) demo_opts (λ _, 0) true 1 in
  wp (crinitElosdepTaskAdded (HookTask (0, 1)%nat)) (λ r s', r = 0 ∧
    ∃ fs, crinitFilterTasks (get_elos s') = [mkFilterTask (0, 1)%nat fs] ∧ ef_name <$> fs = [Some "login"; Some "wlan"]%string) s.
Proof.
  cbv zeta. set (s := mkElosd _ _ _ _ _ _ _ _). assert (can_register s) as Hcan by (split; [done|by intros []|done]).
  eapply wp_mono; [|apply (crinitElosdepTaskAdded_registers 1 demo_login ["login=.event.messageCode 7"; "wlan=.event.payload r'up'"]%string s Hcan
    ltac:(reflexivity) filters_env_wf)]; [|by repeat constructor; vm_compute; eauto].
  intros r s' (-> & _ & _ & _ & Hreg). split; [done|]. destruct (Hreg ltac:(done)) as (fs & -> & Hfs). exists fs. split; [done|].
  apply Forall2_cons_inv_l in Hfs as (f & fs' & (Hf & _) & Hfs & ->). apply Forall2_cons_inv_l in Hfs as (g & fs2 & (Hg & _) & Hfs & ->).
  apply Forall2_nil_inv_l in Hfs as ->. cbn. by rewrite Hf, Hg.
Defined.

(** ** What goes wrong *)

(** The listener of a daemon without an elosd. *)
Lemma listener_deadlock_witness :
  crinitElosdepEventListener 3 (mkElosd [] (demo_db [demo_fs]) [] (set_session None (set_started false (demo_elos []))) demo_opts (λ _, 0) false 1) = Block.
Proof.
  eapply (listener_deadlock 3); [split; try reflexivity; [by eexists|simpl; lia]|]. by intros [].
Defined.

(** The library lacks a symbol: crinitElosInit() reports success, and the server it
    connects to is freed memory. *)
Lemma missing_symbol_succeeds :
  let s := mkElosd (replicate 7 false ++ [true]) (demo_db []) [] (mkElos (mkVTable ServerNull 0 0 false) [] None false false 0 false false false false quiet_log)
             demo_opts (λ _, 0) true 1 in
  match crinitElosInit s with
  | Ret r s' => r = 0 ∧ vt_elosServer (vtable (get_elos s')) = ServerFreed ∧ crinitElosdepEventListener 1 (set_faults [] s') = Undef
  | _ => False
  end.
Proof. vm_compute. done. Qed.

(** The library cannot be opened: the listener is started all the same, and follows
    a pointer that is NULL. *)
Lemma failed_init_starts_listener :
  let s := mkElosd (replicate 5 false ++ [true]) (demo_db []) [] (mkElos (mkVTable ServerNull 0 0 false) [] None false false 0 false false false false quiet_log)
             demo_opts (λ _, 0) true 1 in
  match crinitElosdepActivate true s with
  | Ret r s' => r = 0 ∧ listeners (get_elos s') = 1%nat ∧ crinitElosdepEventListener 1 (set_faults [] s') = Undef
  | _ => False
  end.
Proof. vm_compute. done. Qed.

(** A thread that cannot be created: the mutex of the indicator stays held, and the
    next activation waits forever. *)
Lemma failed_activation_keeps_lock :
  match crinitElosdepActivate true (mkElosd [false; false; true] (demo_db []) [] (set_activated false (demo_elos [])) demo_opts (λ _, 0) true 1) with
  | Ret r s' => r = -1 ∧ crinitElosdepActivate false (set_faults [] s') = Block
  | _ => False
  end.
Proof. vm_compute. done. Qed.

(** A dependency whose filter cannot be subscribed is forgotten when the task has a
    trigger: success is reported with the mutex of the session held. *)
Definition demo_trigger : crinitTask :=
  mkTask "t" demo_cmd [] demo_env filters_env [mkDep "@elos" "login"] [mkDep "fs" "wait"] false [] 0 0 (-1) [] 2 0 false
    (mkTimespec 5 0) (mkTimespec 0 0) (mkTimespec 0 0) 0 0 [] None None 0 0 None.
Lemma trigger_hides_failure :
  match crinitElosdepTaskAdded (HookTask (0, 0)%nat)
    (mkElosd [] (demo_db [demo_trigger]) [] (set_session None (demo_elos [])) demo_opts (λ _, 0) false 1) with
  | Ret r s' => r = 0 ∧ held SessionLock (get_elos s') = true
  | _ => False
  end.
Proof. vm_compute. done. Qed.

(** The array of tasks has grown since the filter was registered: its task is followed
    where it was. *)
Lemma moved_task_undefined :
  listener_turn (mkElosd [] (grow_taskSet (demo_db [demo_fs; demo_login])) [] (demo_elos login_filters) demo_opts (λ _, 1) true 1) = Undef.
Proof. vm_compute. done. Qed.

(** A task is being inserted while an event is handled: the listener holds the mutex
    of the filters and waits for the database, the insertion holds the database and
    waits for the filters. *)
Lemma insertion_and_event_deadlock :
  let s := mkElosd [] (set_locked true (demo_db [demo_fs; demo_login])) []
             (set_held FilterTaskLock true (demo_elos login_filters)) demo_opts (λ _, 1) true 1 in
  read_tasks 1 0 s = Block ∧ crinitElosdepTaskAdded (HookTask (0, 1)%nat) s = Block.
Proof. vm_compute. done. Qed.
