(* ===== verification/ElosLog.v ===== *)
(** * Events for elos: src/eloslog.c

    crinit reports what happens to its tasks as events: crinitElosLog() puts them
    into a ring buffer, and a transmitter thread reads the buffer and publishes them,
    or waits for a condition.  The first part models the functions, the second the
    threads as a transition system: no event is left in the buffer while the
    transmitter waits. *)

From Stdlib Require Import ZArith Lia Bool List String Ascii.
From stdpp Require Import base list strings gmap relations.
From S2P Require Import Prelude CString EnvSet Timer Task TaskDB Lexers ConfConv GlobOpt ElosDep.

Open Scope Z_scope.
Open Scope crinit_scope.

#[local] Arguments String.append : simpl nomatch.

(** ** The functions *)

Definition CRINIT_MACHINE_ID_LENGTH : nat := 32.
Definition CRINIT_ELOSLOG_EVENT_LIMIT : Z := 1024.

Record crinitElosEvent := mkEvent {
  ev_date : timespec; ev_severity : Z; ev_hardwareid : option string; ev_classification : Z; ev_messageCode : Z; ev_payload : string;
}.
Definition set_hardwareid (id : option string) (e : crinitElosEvent) : crinitElosEvent :=
  mkEvent (ev_date e) (ev_severity e) id (ev_classification e) (ev_messageCode e) (ev_payload e).

(** Members of the statics. *)
Definition set_counter c (l : eloslog) := with_log_locks l (lg_session l) (lg_activated l) (lg_transmitters l) c (lg_waiting l).
Definition set_waiting w (l : eloslog) :=
  with_log_locks l (lg_session l) (lg_activated l) (lg_transmitters l) (crinitEloslogTransmitCounter l) w.
Definition set_log_activated b (l : eloslog) :=
  with_log_locks l (lg_session l) b (lg_transmitters l) (crinitEloslogTransmitCounter l) (lg_waiting l).
Definition add_transmitter (l : eloslog) :=
  with_log_locks l (lg_session l) (lg_activated l) (Datatypes.S (lg_transmitters l)) (crinitEloslogTransmitCounter l) (lg_waiting l).

(** The libraries and the files the functions use. *)
Class LogServices (S : Type) `{ElosState S} := {
  safuRingBufferInitialize : Z → M S Z;
  safuRingBufferWrite : crinitElosEvent → M S Z;
  safuRingBufferRead : M S (Z * list crinitElosEvent);
  safuVecIterate_goes_on : Z → bool;  (* after a function that returned this *)
  elosEventPublish : crinitElosEvent → M S Z;
  clock_realtime : M S (option timespec);
  machine_id_file : M S (option string);  (* None: it cannot be opened or read *)
}.

(** One event has been written: counted, and the waiting thread is woken up. *)
Definition count_event (l : eloslog) : eloslog := set_waiting false (set_counter (crinitEloslogTransmitCounter l + 1) l).

(** Under the mutex of the condition: read again if something was counted, or wait. *)
Definition check_counter (l : eloslog) : bool * eloslog :=
  if 0 <? crinitEloslogTransmitCounter l then (true, set_counter 0 l) else (false, set_waiting true l).

Section Functions.
Context {S : Type} `{LogServices S, !OptState S}.

Definition mlog_modify (f : eloslog → eloslog) : M S unit := melos_modify (λ e, set_log (f (log e)) e).

(** fscanf() with "%32s". *)
Fixpoint up_to_space (n : nat) (s : string) : string :=
  match n, s with
  | Datatypes.S n, String c s => if is_space c then "" else String c (up_to_space n s)
  | _, _ => ""
  end.
Definition crinitFetchHWId : M S (option string) :=
  text ← machine_id_file;
  match text with
  | None => mret None
  | Some text =>
      let word := up_to_space CRINIT_MACHINE_ID_LENGTH (snd (span is_space text)) in
      mret (if str_eqb word "" then None else Some word)
  end.

Definition crinitPublishEvent (e : crinitElosEvent) : M S Z :=
  id ← crinitFetchHWId;
  let e := match id with Some i => set_hardwareid (Some i) e | None => e end in
  '(r, _) ← crinitElosTryExec Log tt (call_symbol SYM_eventPublish (r ← elosEventPublish e; mret (r, tt)));
  mret r.

Fixpoint publish_all (l : list crinitElosEvent) : M S unit :=
  match l with
  | [] => mret tt
  | e :: l => r ← crinitPublishEvent e; if safuVecIterate_goes_on r then publish_all l else mret tt
  end.

Inductive transmission := ReadAgain | Wait | Stop.

(** The loop up to where the thread waits or starts over. *)
Definition transmitter_turn : M S transmission :=
  err ← elos_lock LogActivatedLock;
  if (err : bool) then mret Stop else
  e ← melos;
  elos_unlock LogActivatedLock ;;
  if negb (lg_activated (log e)) then mret Stop else
  '(res, events) ← safuRingBufferRead;
  if negb (res =? 0) then mret Stop else
  publish_all events ;;
  err ← elos_lock TrCondLock;
  if (err : bool) then mret Stop else
  e ← melos;
  let '(again, l) := check_counter (log e) in
  melos_modify (set_log l) ;;
  elos_unlock TrCondLock ;;
  mret (if again then ReadAgain else Wait).

(** What follows the loop. *)
Definition transmitter_end : M S unit :=
  err ← elos_lock LogSessionLock;
  if (err : bool) then mret tt else
  mlog_modify (set_log_session None) ;; elos_unlock LogSessionLock.

(** The first turns up to the first wait. *)
Fixpoint transmitter_loop (turns : nat) : M S unit :=
  match turns with
  | O => mret tt
  | Datatypes.S turns =>
      r ← transmitter_turn;
      match r with ReadAgain => transmitter_loop turns | Wait => mret tt | Stop => transmitter_end end
  end.
Definition crinitEloslogEventTransmitter (turns : nat) : M S unit :=
  '(res, _) ← crinitElosTryExec Log tt (call_symbol SYM_getVersion (r ← elosGetVersion; mret (r, tt)));
  if negb (res =? 0) then transmitter_end else transmitter_loop turns.

(** [text]: the format with its arguments. *)
Definition crinitElosLog (severity messageCode classification : Z) (text : string) : M S Z :=
  sendEvents ← crinitGlobOptGetBoolean USE_ELOS;
  if negb (sendEvents : bool) then mret 0 else
  oom ← fallibleN 2;  (* the event, its payload *)
  if (oom : bool) then mret (-1) else
  now ← clock_realtime;
  match now with
  | None => mret (-1)
  | Some date =>
      result ← safuRingBufferWrite (mkEvent date severity None classification messageCode text);
      if negb (result =? 0) then mret result else
      err ← elos_lock TrCondLock;
      if (err : bool) then mret (-1) else
      e ← melos;
      if crinitEloslogTransmitCounter (log e) =? INT_MAX then mundef else
      err ← fallible;  (* pthread_cond_signal *)
      if (err : bool) then
        mlog_modify (λ l, set_counter (crinitEloslogTransmitCounter l + 1) l) ;; elos_unlock TrCondLock ;; mret (-1)
      else mlog_modify count_event ;; elos_unlock TrCondLock ;; mret result
  end.

Definition crinitEloslogInit : M S Z :=
  res ← safuRingBufferInitialize CRINIT_ELOSLOG_EVENT_LIMIT;
  mret (if res =? 0 then 0 else -1).

Definition crinitEloslogActivate (e : bool) : M S Z :=
  err ← elos_lock LogActivatedLock;
  if (err : bool) then mret (-1) else
  st ← melos;
  r ← (if e && negb (lg_activated (log st)) then
         r ← crinitElosInit;
         if negb (r =? 0) then mret (-1) else
         err ← fallibleN 3;
         if (err : bool) then mret (-1) else
         err ← fallible;
         if (err : bool) then mret (-1) else
         mlog_modify add_transmitter ;;
         err ← fallible;
         mret (if (err : bool) then -1 else 0)
       else mret 0);
  if negb (r =? 0) then mret (-1) else
  mlog_modify (set_log_activated e) ;;
  elos_unlock LogActivatedLock ;; mret 0.
End Functions.

(** ** The threads

    Any number of threads log; what they do is one step that writes the event, and one
    under the mutex of the condition that counts it and signals.  The transmitter reads
    the buffer, publishes what it has read, and looks at the counter under the mutex;
    waiting releases the mutex in the same step.  [nt_between]: the threads that have
    written and not counted yet.  [nt_written] and [nt_read] are the events in their
    order. *)

Inductive tr_pc := TrRead | TrCheck | TrWait | TrStopped.
#[export] Instance tr_pc_eq : EqDecision tr_pc.
Proof. solve_decision. Defined.

Record net := mkNet {
  nt_ring : list crinitElosEvent;
  nt_log : eloslog;
  nt_pc : tr_pc;
  nt_between : nat;
  nt_written : list crinitElosEvent;
  nt_read : list crinitElosEvent;
}.

(** safuRingBufferWrite() that succeeds, and what follows. *)
Definition write_event (e : crinitElosEvent) (n : net) : net :=
  mkNet (nt_ring n ++ [e]) (nt_log n) (nt_pc n) (Datatypes.S (nt_between n)) (nt_written n ++ [e]) (nt_read n).
Definition signal_event (n : net) : net :=
  mkNet (nt_ring n) (count_event (nt_log n)) (if lg_waiting (nt_log n) then TrRead else nt_pc n) (pred (nt_between n)) (nt_written n) (nt_read n).

(** The step of the transmitter. *)
Definition transmit (n : net) : net :=
  match nt_pc n with
  | TrRead => mkNet [] (nt_log n) TrCheck (nt_between n) (nt_written n) (nt_read n ++ nt_ring n)
  | TrCheck =>
      let '(again, l) := check_counter (nt_log n) in
      mkNet (nt_ring n) l (if again then TrRead else TrWait) (nt_between n) (nt_written n) (nt_read n)
  | _ => n
  end.

Inductive log_step : net → net → Prop :=
| StepWrite e n : log_step n (write_event e n)
| StepSignal n : (0 < nt_between n)%nat → log_step n (signal_event n)
| StepTransmit n : log_step n (transmit n)
| StepSpurious n : nt_pc n = TrWait →
    log_step n (mkNet (nt_ring n) (set_waiting false (nt_log n)) TrRead (nt_between n) (nt_written n) (nt_read n))
| StepActivate b n :
    log_step n (mkNet (nt_ring n) (set_log_activated b (nt_log n)) (nt_pc n) (nt_between n) (nt_written n) (nt_read n))
| StepStop n : nt_pc n = TrRead → lg_activated (nt_log n) = false →
    log_step n (mkNet (nt_ring n) (nt_log n) TrStopped (nt_between n) (nt_written n) (nt_read n)).

(** Before the first event; the transmitter has been started or will be. *)
Definition log_start (l : eloslog) : net := mkNet [] l TrRead 0 [] [].

(** Nothing is lost and nothing is reordered; after a read, what is in the buffer has
    been counted or will be; who waits has not counted. *)
Record log_inv (n : net) : Prop := {
  lv_order : nt_written n = nt_read n ++ nt_ring n;
  lv_waiting : lg_waiting (nt_log n) = true ↔ nt_pc n = TrWait;
  lv_counted : nt_pc n = TrCheck ∨ nt_pc n = TrWait →
    Z.of_nat (length (nt_ring n)) ≤ crinitEloslogTransmitCounter (nt_log n) + Z.of_nat (nt_between n);
  lv_zero : nt_pc n = TrWait → crinitEloslogTransmitCounter (nt_log n) = 0;
  lv_positive : 0 ≤ crinitEloslogTransmitCounter (nt_log n);
}.

Lemma log_start_inv l : crinitEloslogTransmitCounter l = 0 → lg_waiting l = false → log_inv (log_start l).
Proof. intros Hc Hw. split; cbn; rewrite ?Hc, ?Hw; [done|done|naive_solver|done|lia]. Qed.

Lemma log_step_inv n n' : log_step n n' → log_inv n → log_inv n'.
Proof.
  intros Hs [Ho Hw Hc Hz Hp]. destruct Hs as [e n|n Hb|n|n Hpc|b n|n Hpc Ha].
  - split; cbn; [by rewrite Ho, app_assoc|done| |done|done]. intros H. specialize (Hc H). rewrite length_app. cbn. lia.
  - assert (lg_waiting (nt_log n) = true ∧ nt_pc n = TrWait ∨ lg_waiting (nt_log n) = false ∧ nt_pc n ≠ TrWait) as [[E1 E2]|[E1 E2]]
      by (destruct (lg_waiting (nt_log n)); naive_solver).
    + split; cbn; rewrite ?E1; [done|done|naive_solver|done|lia].
    + split; cbn; rewrite ?E1; [done|split; [done|naive_solver]| |naive_solver|lia]. intros H. specialize (Hc H). lia.
  - unfold transmit. destruct (nt_pc n) eqn:Epc.
    + split; cbn; rewrite ?app_nil_r; [done|by rewrite Hw|lia|done|done].
    + unfold check_counter. destruct (Z.ltb_spec 0 (crinitEloslogTransmitCounter (nt_log n))).
      * split; cbn; [done| |naive_solver|done|lia]. rewrite Hw. naive_solver.
      * specialize (Hc (or_introl eq_refl)). split; cbn; [done|done|lia|lia|lia].
    + split; rewrite ?Epc; auto.
    + split; rewrite ?Epc; auto.
  - split; cbn; [done|done|naive_solver|done|done].
  - split; cbn; auto.
  - split; cbn; [done|by rewrite Hw, Hpc|naive_solver|done|done].
Qed.

Lemma log_reachable_inv l n :
  crinitEloslogTransmitCounter l = 0 → lg_waiting l = false → rtc log_step (log_start l) n → log_inv n.
Proof.
  intros Hc Hw Hr. pose proof (log_start_inv l Hc Hw) as Hi. revert Hi. induction Hr as [|a b c Hs _ IH]; [done|].
  intros Ha. apply IH. by eapply log_step_inv.
Qed.

Lemma log_inv_empty n : log_inv n → nt_pc n = TrWait → nt_between n = 0%nat → nt_ring n = [].
Proof.
  intros [_ _ Hc Hz _] Hpc Hb. specialize (Hc (or_intror Hpc)). rewrite Hz, Hb in Hc by done. destruct (nt_ring n); [done|]. cbn in Hc. lia.
Qed.

Lemma transmit_iter k n :
  log_inv n → log_inv (Nat.iter k transmit n) ∧ nt_between (Nat.iter k transmit n) = nt_between n ∧
  nt_written (Nat.iter k transmit n) = nt_written n.
Proof.
  intros Hi. induction k as [|k (IH & Hb & Hw)]; [done|]. change (Nat.iter (S k) transmit n) with (transmit (Nat.iter k transmit n)).
  set (m := Nat.iter k transmit n) in *. split; [eapply log_step_inv; [apply StepTransmit|done]|].
  rewrite <- Hb, <- Hw. unfold transmit. destruct (nt_pc m); [done| |done|done]. by destruct (check_counter _).
Qed.

(** With a counter of 0 the transmitter reads at most once more. *)
Lemma transmit_settles n : log_inv n → nt_pc n ≠ TrStopped → ∃ k, (k ≤ 4)%nat ∧ nt_pc (Nat.iter k transmit n) = TrWait.
Proof.
  intros [_ _ _ _ Hp] Hns. destruct n as [ring l pc btw wr rd]. cbn in *.
  destruct (Z.ltb_spec 0 (crinitEloslogTransmitCounter l)) as [Hc|Hc]; destruct pc; try done.
  - exists 4%nat. split; [lia|]. cbn. unfold check_counter. by rewrite (proj2 (Z.ltb_lt _ _) Hc).
  - exists 3%nat. split; [lia|]. cbn. unfold check_counter. by rewrite (proj2 (Z.ltb_lt _ _) Hc).
  - exists 0%nat. split; [lia|done].
  - exists 2%nat. split; [lia|]. cbn. unfold check_counter. by rewrite (proj2 (Z.ltb_ge _ _) Hc).
  - exists 1%nat. split; [lia|]. cbn. unfold check_counter. by rewrite (proj2 (Z.ltb_ge _ _) Hc).
  - exists 0%nat. split; [lia|done].
Qed.


(** ** The calls do these steps *)

Class LogLaws (S : Type) `{LogServices S} := {
  ring : S → list crinitElosEvent;
  ring_elos : ∀ e s, ring (set_elos e s) = ring s;
  write_ok : ∀ e s, wp (safuRingBufferWrite e) (λ r s', get_elos s' = get_elos s ∧ (quiet s → quiet s') ∧
    ring s' = if r =? 0 then ring s ++ [e] else ring s) s;
  clock_realtime_ok : ∀ s, wp clock_realtime (λ _ s', get_elos s' = get_elos s ∧ (quiet s → quiet s') ∧ ring s' = ring s) s;
}.

Section Calls.
Context {S : Type} `{LogLaws S, !OptState S}.
Implicit Types s : S.

Lemma run_elos_lock m s : quiet s → held m (get_elos s) = false → elos_lock m s = Ret false (set_elos (set_held m true (get_elos s)) s).
Proof.
  intros Hq Hm. unfold elos_lock. rewrite bind_fallible by done. cbv beta iota. unfold mbind, M_bind, melos. by rewrite Hm.
Qed.

Lemma run_elos_unlock m s : held m (get_elos s) = true → elos_unlock m s = Ret tt (set_elos (set_held m false (get_elos s)) s).
Proof. intros Hm. unfold elos_unlock, mbind, M_bind, melos. by rewrite Hm. Qed.

(** crinitElosLog() with USE_ELOS writes the event and counts it, or does neither. *)
Lemma elos_log_spec severity code class text s :
  quiet s → opt_locked (get_opts s) = false → bools (get_opts s) USE_ELOS = true → held TrCondLock (get_elos s) = false →
  crinitEloslogTransmitCounter (log (get_elos s)) < INT_MAX →
  wp (crinitElosLog severity code class text) (λ r s',
    if r =? 0 then (∃ date, ring s' = ring s ++ [mkEvent date severity None class code text]) ∧
      get_elos s' = set_log (count_event (log (get_elos s))) (get_elos s)
    else ring s' = ring s ∧ get_elos s' = get_elos s) s.
Proof.
  intros Hq Hu Hb Hh Hmax. unfold crinitElosLog. apply wp_bind. unfold crinitGlobOptGetBoolean, wp at 1.
  rewrite (run_getter (λ o, bools o USE_ELOS)) by done. rewrite Hb. cbn [negb]. apply wp_bind, wp_fallibleN_quiet; [done|].
  apply wp_bind. eapply wp_mono; [|apply clock_realtime_ok]. intros now s1 (E1 & Hq1 & R1). specialize (Hq1 Hq).
  destruct now as [date|]; [|by apply wp_ret]. apply wp_bind. eapply wp_mono; [|apply write_ok]. intros r s2 (E2 & Hq2 & R2). specialize (Hq2 Hq1).
  destruct (r =? 0) eqn:Er; cbn [negb]; [|apply wp_ret; rewrite Er; split; congruence]. rewrite E1 in E2.
  apply wp_bind. unfold wp at 1. rewrite run_elos_lock by (done || by rewrite E2). set (s3 := set_elos _ s2).
  assert (get_elos s3 = set_held TrCondLock true (get_elos s)) as E3 by (unfold s3; by rewrite get_set_elos, E2).
  assert (quiet s3) as Hq3 by (unfold quiet, s3; by rewrite faults_elos).
  apply wp_bind. unfold wp at 1, melos. rewrite E3. cbn [log set_held crinitEloslogTransmitCounter].
  rewrite (proj2 (Z.eqb_neq _ _)) by lia. apply wp_bind, wp_fallible_quiet; [done|]. apply wp_bind. unfold wp at 1, mlog_modify, melos_modify.
  apply wp_bind. unfold wp at 1. rewrite run_elos_unlock by (by rewrite get_set_elos, E3). apply wp_ret. rewrite Er. split.
  - exists date. unfold s3. by rewrite !ring_elos, R2, R1.
  - rewrite !get_set_elos, E3. destruct (get_elos s) as [? ? ? ? ? ? ? ? ? ? []]. cbn in *. by subst.
Qed.
End Calls.

(** ** Examples *)

Definition demo_event (t : string) : crinitElosEvent := mkEvent (mkTimespec 1 0) ELOS_SEVERITY_INFO None ELOS_CLASSIFICATION_PROCESS ELOS_MSG_CODE_PROCESS_CREATED t.
Definition fresh_log : eloslog := mkLog None true 1 0 false false false false.
(** An event is written and counted while the transmitter waits, another one after it
    has read. *)
Definition demo_log_net : net :=
  signal_event (write_event (demo_event "b") (transmit (signal_event (write_event (demo_event "a") (transmit (transmit (log_start fresh_log))))))).

Lemma demo_log_reachable : rtc log_step (log_start fresh_log) demo_log_net.
Proof.
  unfold demo_log_net. eapply rtc_l; [apply StepTransmit|]. eapply rtc_l; [apply StepTransmit|]. eapply rtc_l; [apply (StepWrite (demo_event "a"))|].
  eapply rtc_l; [apply StepSignal; vm_compute; lia|]. eapply rtc_l; [apply StepTransmit|]. eapply rtc_l; [apply (StepWrite (demo_event "b"))|].
  eapply rtc_l; [apply StepSignal; vm_compute; lia|]. apply rtc_refl.
Qed.

