(* ===== verification/ConfFrame.v ===== *)
(** * What reading the configuration can change

    The handlers change the options, the timers and nothing else, and none that a
    file can reach changes whether signatures are required.  A relation on states
    that allows those changes ([ConfFramed]) is kept by every loader, if it is kept by
    reading a file. *)

From Stdlib Require Import ZArith Lia Bool List String Ascii.
From stdpp Require Import base functions list strings gmap.
From S2P Require Import Prelude CString EnvSet Timer Task TaskDB TimerDB Lexers ConfConv Ini GlobOpt Cgroup ConfParse.
From S2P Require Import ConfTask ConfTaskProps ConfGlob ConfGlobProps FSeries.

Open Scope Z_scope.
Open Scope crinit_scope.

#[local] Arguments String.append : simpl nomatch.

Class ConfFramed {S} `{SeriesEnv S} (R : S → S → Prop) : Prop := {
  framed_preorder :: PreOrder R;
  framed_faults : ∀ l s, R s (set_faults l s);
  framed_opts : ∀ o s, bools o SIGNATURES = bools (get_opts s) SIGNATURES → R s (set_opts o s);
  framed_pool : ∀ p s, R s (set_pool p s);
}.

Section Framed.
Context {S : Type} `{SeriesEnv S} `{!DirEnv S} (R : S → S → Prop) `{!ConfFramed R}.
Implicit Types s : S.

Lemma framed_only_faults {A} (m : M S A) : (∀ s, wp m (λ _ s', only_faults s s') s) → Keeps R m.
Proof. intros Hm s. apply wp_wlp. eapply wp_mono; [|apply Hm]. intros _ s' [[l ->] _]. apply framed_faults. Qed.
Lemma framed_decisions l s : R s (set_faults l s).
Proof. apply framed_faults. Qed.
Lemma framed_mopts : Keeps R mopts.
Proof. intros s. unfold mopts, wlp. reflexivity. Qed.
Lemma framed_mpool : Keeps R mpool.
Proof. intros s. unfold mpool, wlp. reflexivity. Qed.
Lemma framed_mpool_modify f : Keeps R (mpool_modify f).
Proof. intros s. apply framed_pool. Qed.
Lemma framed_modify f : (∀ o, bools (f o) SIGNATURES = bools o SIGNATURES) → Keeps R (mopts_modify f).
Proof. intros Hf s. apply framed_opts, Hf. Qed.
#[local] Hint Resolve framed_decisions framed_mopts framed_mpool framed_mpool_modify : keeps.
#[local] Hint Extern 1 (Keeps R (mopts_modify _)) => apply framed_modify; by intros [] : keeps.

Lemma framed_clock : Keeps R clock_now.
Proof. apply framed_only_faults, clock_now_ok. Qed.
Lemma framed_stat path : Keeps R (stat_mode path).
Proof. apply framed_only_faults, stat_mode_ok. Qed.
#[local] Hint Resolve framed_stat : keeps.
Lemma framed_dir_exists path : Keeps R (crinitDirExists path).
Proof. unfold crinitDirExists. keep. Qed.
Lemma framed_executable path : Keeps R (crinitFileIsExecutable path).
Proof. unfold crinitFileIsExecutable. keep. Qed.
#[local] Hint Resolve framed_clock framed_dir_exists framed_executable : keeps.

(** ** The option store *)

Lemma framed_borrow : Keeps R crinitGlobOptBorrow.
Proof. unfold crinitGlobOptBorrow. keep. Qed.
Lemma framed_remit : Keeps R crinitGlobOptRemit.
Proof. unfold crinitGlobOptRemit. keep. Qed.
#[local] Hint Resolve framed_borrow framed_remit : keeps.

Lemma framed_set_string m v : Keeps R (crinitGlobOptSetString m v).
Proof. unfold crinitGlobOptSetString. keep. Qed.
Lemma framed_set_int m v : Keeps R (crinitGlobOptSetInteger m v).
Proof. unfold crinitGlobOptSetInteger. keep. Qed.
Lemma framed_set_ull m v : Keeps R (crinitGlobOptSetUnsignedLL m v).
Proof. unfold crinitGlobOptSetUnsignedLL. keep. Qed.
Lemma framed_set_bool m v : m ≠ SIGNATURES → Keeps R (crinitGlobOptSetBoolean m v).
Proof.
  intros Hm. unfold crinitGlobOptSetBoolean. apply keeps_bind; [apply _|keep|]. intros _. apply keeps_bind; [apply _| |intros ?; keep].
  apply framed_modify. intros o. unfold set_bools. simpl. by rewrite fn_lookup_insert_ne.
Qed.
Lemma framed_get_string m : Keeps R (crinitGlobOptGetString m).
Proof. unfold crinitGlobOptGetString, get_string_start, get_string_finish, strdup_ptr. keep. Qed.
Lemma framed_get_bool m : Keeps R (crinitGlobOptGetBoolean m).
Proof. unfold crinitGlobOptGetBoolean. keep. Qed.
#[local] Hint Resolve framed_set_string framed_set_int framed_set_ull framed_get_string framed_get_bool : keeps.
#[local] Hint Extern 1 (Keeps R (crinitGlobOptSetBoolean _ _)) => by apply framed_set_bool : keeps.

Lemma framed_env_destroy es : Keeps R (crinitEnvSetDestroy es).
Proof. unfold crinitEnvSetDestroy. keep. Qed.
#[local] Hint Resolve framed_env_destroy : keeps.
Lemma framed_env_copy src i copy : Keeps R (crinitEnvSetDupLoop src i copy).
Proof. revert i copy. induction src as [|[e|] src IH]; intros i copy; simpl; keep. Qed.
#[local] Hint Resolve framed_env_copy : keeps.
Lemma framed_env_dup copy orig : Keeps R (crinitEnvSetDup copy orig).
Proof. unfold crinitEnvSetDup, crinitEnvSetInit. keep. Qed.
#[local] Hint Resolve framed_env_dup : keeps.
Lemma framed_get_env m es : Keeps R (crinitGlobOptGetEnvSet m es).
Proof. unfold crinitGlobOptGetEnvSet. keep. Qed.

(** ** Converters *)

Lemma framed_str_arr val dq : Keeps R (crinitConfConvToStrArr val dq).
Proof. unfold crinitConfConvToStrArr. keep. Qed.
Lemma framed_env_set es k v : Keeps R (crinitEnvSetSet es k v).
Proof. unfold crinitEnvSetSet, env_write, crinitEnvSetGrow. keep. Qed.
#[local] Hint Resolve framed_get_env framed_str_arr framed_env_set : keeps.
Lemma framed_env_outer fuel text key val : Keeps R (env_outer fuel text key val).
Proof. revert text key val. induction fuel as [|fuel IH]; intros; simpl; keep. Qed.
Lemma framed_env_inner fuel es text out alloc : Keeps R (env_inner fuel es text out alloc).
Proof.
  revert text out alloc. induction fuel as [|fuel IH]; intros; simpl; unfold put, ConfConv.put_str, crinitEnvSetGet; keep.
Qed.
#[local] Hint Resolve framed_env_outer framed_env_inner : keeps.
Lemma framed_env_member es val : Keeps R (crinitConfConvToEnvSetMember es val).
Proof. unfold crinitConfConvToEnvSetMember. keep. Qed.
Lemma framed_ioredir e val : Keeps R (crinitConfConvToIoRedir e val).
Proof. unfold crinitConfConvToIoRedir. keep. Qed.
Lemma framed_bitmask f val : Keeps R (crinitCapConvertToBitmask f val).
Proof. unfold crinitCapConvertToBitmask. keep. Qed.
Lemma framed_param line : Keeps R (crinitCgroupConvertSingleParamToObject line).
Proof. unfold crinitCgroupConvertSingleParamToObject. keep. Qed.
Lemma framed_find_cgroup name i l : Keeps R (find_cgroup name i l).
Proof. revert i. induction l as [|g l IH]; intros i; simpl; keep. Qed.
#[local] Hint Resolve framed_env_member framed_ioredir framed_bitmask framed_param framed_find_cgroup : keeps.
Lemma framed_find_group name : Keeps R (crinitFindCgroupByName name).
Proof. unfold crinitFindCgroupByName. keep. Qed.
#[local] Hint Resolve framed_find_group : keeps.

(** ** Timers *)

Lemma framed_find_timer l n : Keeps R (find_timer l n).
Proof. induction l as [|[t fd] l IH]; simpl; keep. Qed.
#[local] Hint Resolve framed_find_timer : keeps.
Lemma framed_insert_timer t : Keeps R (crinitTimerDBInsertTimer t).
Proof. unfold crinitTimerDBInsertTimer, lock_pool, unlock_pool, notify. keep. Qed.
#[local] Hint Resolve framed_insert_timer : keeps.
Lemma framed_add_timer n : Keeps R (crinitTimerDBAddTimer n).
Proof. unfold crinitTimerDBAddTimer, lock_pool, unlock_pool, notify. keep. Qed.
#[local] Hint Resolve framed_add_timer : keeps.

(** ** Handlers *)

Definition framed_handler (h : crinitConfigHandler S) : Prop := ∀ tgt val type, Keeps R (h tgt val type).

Lemma framed_task_handler f : (∀ d val, Keeps R (f d val)) → framed_handler (task_handler f).
Proof. intros Hf tgt val type. unfold task_handler. keep. Qed.
Lemma framed_global_handler ty f : (∀ val, Keeps R (f val)) → framed_handler (global_handler ty f).
Proof. intros Hf tgt val type. unfold global_handler. keep. Qed.
Lemma framed_fails d : Keeps R (fails d).
Proof. unfold fails. keep. Qed.
Lemma framed_sets d f : Keeps R (sets d f).
Proof. unfold sets. keep. Qed.
#[local] Hint Resolve framed_fails framed_sets : keeps.

Lemma framed_deps entries : Keeps R (dep_entries entries).
Proof. induction entries as [|e entries IH]; simpl; keep. Qed.
#[local] Hint Resolve framed_deps : keeps.
Lemma framed_dep_list val : Keeps R (crinitDepListHandler val).
Proof. unfold crinitDepListHandler. keep. Qed.
Lemma framed_prv entries : Keeps R (prv_entries entries).
Proof. induction entries as [|e entries IH]; simpl; keep. Qed.
Lemma framed_username name : Keeps R (crinitUsernameToUid name).
Proof. unfold crinitUsernameToUid, find_entry. keep. Qed.
Lemma framed_uid uid : Keeps R (crinitUidToUsername uid).
Proof. unfold crinitUidToUsername, find_entry, strndup. keep. Qed.
Lemma framed_groupname name : Keeps R (crinitGroupnameToGid name).
Proof. unfold crinitGroupnameToGid, find_entry. keep. Qed.
Lemma framed_gid gid : Keeps R (crinitGidToGroupname gid).
Proof. unfold crinitGidToGroupname, find_entry, strndup. keep. Qed.
#[local] Hint Resolve framed_username framed_uid framed_groupname framed_gid : keeps.
Lemma framed_groups i entries t : Keeps R (group_entries i entries t).
Proof. revert i t. induction entries as [|e entries IH]; intros i t; simpl; keep. Qed.
Lemma framed_update f r : Keeps R (update_ref f r).
Proof. unfold update_ref. keep. Qed.
#[local] Hint Resolve framed_dep_list framed_prv framed_groups framed_update : keeps.

Lemma framed_env_handler m get set : framed_handler (env_handler m get set).
Proof. intros tgt val type. unfold env_handler. keep. Qed.

Ltac task_frame := intros; first [apply framed_task_handler|apply framed_global_handler]; intros; keep.

Lemma framed_task_table include :
  framed_handler include → Forall (λ m, framed_handler (cfgHandler m)) (crinitTaskCfgMap include).
Proof.
  intros Hi. unfold crinitTaskCfgMap. repeat constructor; simpl; try done; try apply framed_env_handler.
  all: try (task_frame; fail).
  - intros tgt val type. unfold crinitCfgFilterHandler. destruct ENABLE_ELOS; [apply framed_env_handler|keep].
Qed.

Lemma framed_store m : Keeps R m → Keeps R (store m).
Proof. intros Hm. unfold store. keep. Qed.
#[local] Hint Resolve framed_store : keeps.
Lemma framed_set_path check m val : (∀ p, Keeps R (check p)) → Keeps R (set_path check m val).
Proof. intros Hc. unfold set_path. keep. Qed.
Lemma framed_grow g param : Keeps R (grow_config g param).
Proof. unfold grow_config. keep. Qed.
Lemma framed_named names : Keeps R (named_groups names).
Proof. induction names as [|n names IH]; simpl; keep. Qed.
#[local] Hint Resolve framed_set_path framed_grow framed_named : keeps.

(** No key of a series file is about signatures. *)
Lemma framed_series_table : Forall (λ m, framed_handler (cfgHandler m)) crinitSeriesCfgMap.
Proof.
  unfold crinitSeriesCfgMap. repeat constructor; simpl; try apply framed_env_handler.
  all: try (apply framed_global_handler; intros; unfold set_bool_text, set_ull_text, set_suffix,
    crinitCgroupGlobalParamSplitNameAndParam; keep; fail).
  - intros tgt val type. unfold crinitCfgFilterHandler. destruct ENABLE_ELOS; [apply framed_env_handler|keep].
  - intros tgt val type. unfold crinitCfgElosHandler. destruct ENABLE_ELOS; [|keep].
    apply framed_global_handler. intros v. unfold set_bool_text. keep.
Qed.

Lemma framed_found table key m :
  sorted_b configKey table = true → Forall (λ m, framed_handler (cfgHandler m)) table →
  crinitFindConfigMapping table key = Some m → framed_handler (cfgHandler m).
Proof.
  intros Hs Ht E. rewrite find_mapping in E by done. apply find_some in E as [Hin _]. rewrite Forall_forall in Ht.
  apply Ht. by apply list_elem_of_In.
Qed.

(** ** Loaders *)

Context (Hparse : ∀ file, Keeps R (crinitParseConf file)).
#[local] Hint Resolve Hparse : keeps.

Lemma framed_settings include type import dupl src d :
  framed_handler include → Keeps R (apply_settings (crinitTaskCfgMap include) type import dupl src d).
Proof.
  intros Hi. revert dupl d. induction src as [|[key val] src IH]; intros dupl d; cbn [apply_settings]; [keep|].
  destruct (crinitFindConfigMapping _ key) as [m|] eqn:E; [|apply IH].
  pose proof (framed_found _ _ _ (task_map_sorted include) (framed_task_table include Hi) E) as Hm.
  keep.
Qed.

Lemma framed_set_from_conf include d src type il :
  framed_handler include → Keeps R (crinitTaskSetFromConfKvList include d src type il).
Proof. intros Hi. pose proof framed_settings. unfold crinitTaskSetFromConfKvList. keep. Qed.

Lemma framed_include depth : framed_handler (crinitTaskIncludeHandler depth).
Proof.
  induction depth as [|depth IH]; [by intros tgt val type s|]. cbn [crinitTaskIncludeHandler].
  assert (∀ d src il, Keeps R (crinitTaskMergeInclude (crinitTaskIncludeHandler depth) d src il)) as Hm.
  { intros d src il. pose proof framed_set_from_conf. unfold crinitTaskMergeInclude. keep. }
  apply framed_task_handler. intros d val. keep.
Qed.

Lemma framed_create depth conf : Keeps R (crinitTaskCreateFromConfKvList depth conf).
Proof.
  pose proof framed_set_from_conf. pose proof (framed_include depth).
  unfold crinitTaskCreateFromConfKvList, free_draft, Cgroup.crinitCgroupNameIsGlobalCgroup. keep.
Qed.

Lemma framed_apply_series src dupl : Keeps R (apply_series src dupl).
Proof.
  revert dupl. induction src as [|[key val] src IH]; intros dupl; cbn [apply_series]; [keep|].
  destruct (crinitFindConfigMapping _ key) as [m|] eqn:E; [|apply IH].
  pose proof (framed_found _ _ _ series_map_sorted framed_series_table E) as Hm. keep.
Qed.

Lemma framed_load_series file : Keeps R (crinitLoadSeriesConf file).
Proof.
  pose proof framed_apply_series. unfold crinitLoadSeriesConf, crinitCfgInclDirHandler, series_handler, global_handler. keep.
Qed.

Lemma framed_str_copy l : Keeps R (crinitStrArrDeepCopy l).
Proof. induction l as [|x l IH]; simpl; keep. Qed.
#[local] Hint Resolve framed_str_copy : keeps.

Lemma framed_load_tasks : Keeps R crinitLoadTasks.
Proof.
  unfold crinitLoadTasks, crinitFileSeriesFromDir, crinitFileSeriesFromStrArr, scandir, crinitInitFileSeries,
    crinitResizeFileSeries. keep.
Qed.
End Framed.
