(* ===== verification/Sig.v ===== *)
(** * Signatures: src/sig.c

    The root key comes from the keyring of the user.  More keys are read from a
    directory, each with a signature that one of the keys at hand must verify, and
    configuration files are checked against all of them.  MbedTLS is a parameter,
    and the file system may change between any two calls that open a file. *)

From Stdlib Require Import ZArith Lia Bool List String Ascii.
From stdpp Require Import base list strings gmap.
From S2P Require Import Prelude CString EnvSet Timer Task TaskDB Lexers ConfConv Ini GlobOpt ConfParse FSeries RtimExec.

Open Scope Z_scope.
Open Scope crinit_scope.

#[local] Arguments String.append : simpl nomatch.

(** ** MbedTLS and the state *)

Inductive pk_type := MBEDTLS_PK_NONE | MBEDTLS_PK_RSA | MBEDTLS_PK_OTHER.
#[export] Instance pk_type_eq : EqDecision pk_type.
Proof. solve_decision. Defined.

(** [pk] is the type of mbedtls_pk_context.  Parsing and setting the padding return
    an error code and the context after the call. *)
Class Mbedtls (pk : Type) := {
  mbedtls_3 : bool;  (* MBEDTLS_VERSION_MAJOR is 3, and not 2 *)
  mbedtls_pk_init : pk;
  mbedtls_pk_parse_public_key : string → Z * pk;
  mbedtls_pk_get_type : pk → pk_type;
  mbedtls_rsa_set_padding : pk → Z * pk;
  rsa_len : pk → nat;  (* the bytes of the modulus, which a signature has, too *)
  sha256 : string → string;
  rsassa_pss_verify : pk → string → string → bool;
  init_type : mbedtls_pk_get_type mbedtls_pk_init = MBEDTLS_PK_NONE;
}.

Definition mbedtls_pk_can_do_rsa {pk} `{Mbedtls pk} (k : pk) : bool :=
  bool_decide (mbedtls_pk_get_type k = MBEDTLS_PK_RSA).

(** The mutex is [None] when it is not initialised, otherwise whether it is
    held. *)
Record crinitSigCtx {pk : Type} := mkSigCtx {
  rootKey : pk;
  signedKeys : option (list pk);
  numSignedKeys : nat;
  sig_lock : option bool;
}.
Arguments crinitSigCtx : clear implicits.
Arguments mkSigCtx {pk}.

Definition set_sig_lock {pk} (l : option bool) (c : crinitSigCtx pk) : crinitSigCtx pk :=
  mkSigCtx (rootKey c) (signedKeys c) (numSignedKeys c) l.
Definition set_rootKey {pk} (k : pk) (c : crinitSigCtx pk) : crinitSigCtx pk :=
  mkSigCtx k (signedKeys c) (numSignedKeys c) (sig_lock c).
Definition set_keys {pk} (l : option (list pk)) (n : nat) (c : crinitSigCtx pk) : crinitSigCtx pk :=
  mkSigCtx (rootKey c) l n (sig_lock c).

(** The static variable crinitSigCtx and the user keyring.  Nothing but sig.c
    changes that variable. *)
Class SigState (S pk : Type) `{ConfFiles S} := {
  get_sig : S → crinitSigCtx pk;
  set_sig : crinitSigCtx pk → S → S;
  keyring : string → option string;
  get_set_sig : ∀ c s, get_sig (set_sig c s) = c;
  set_set_sig : ∀ c c' s, set_sig c (set_sig c' s) = set_sig c s;
  set_get_sig : ∀ s, set_sig (get_sig s) s = s;
  sig_faults : ∀ l s, get_sig (set_faults l s) = get_sig s;
  faults_sig : ∀ c s, faults (set_sig c s) = faults s;
  sig_opts : ∀ o s, get_sig (set_opts o s) = get_sig s;
  opts_sig : ∀ c s, get_opts (set_sig c s) = get_opts s;
  open_sig : ∀ path s, wlp (open_file path) (λ _ s', get_sig s' = get_sig s ∧ get_opts s' = get_opts s) s;
  read_sig : ∀ path s, wlp (read_file path) (λ _ s', get_sig s' = get_sig s ∧ get_opts s' = get_opts s) s;
}.

Definition CRINIT_SIGNATURE_PK_DATA_MAX_SIZE : nat := 4096.
Definition CRINIT_SIGNATURE_PK_PEM_EXTENSION : string := ".pem".
Definition CRINIT_SIGNATURE_PK_DER_EXTENSION : string := ".der".

(** ** Operations *)

Section Operations.
Context {S pk : Type} `{Mbedtls pk} `{SigState S pk} `{!DirEnv S}.

Definition msig : M S (crinitSigCtx pk) := λ s, Ret (get_sig s) s.
Definition msig_modify (f : crinitSigCtx pk → crinitSigCtx pk) : M S unit := λ s, Ret tt (set_sig (f (get_sig s)) s).

(** pthread_mutex_lock(): [true] on failure. *)
Definition sig_mutex_lock : M S bool :=
  err ← fallible;
  if (err : bool) then mret true else
  c ← msig;
  match sig_lock c with
  | None => mundef
  | Some true => mblock
  | Some false => msig_modify (set_sig_lock (Some true)) ;; mret false
  end.
Definition sig_mutex_unlock : M S unit := msig_modify (set_sig_lock (Some false)).
Definition sig_mutex_destroy : M S unit := msig_modify (set_sig_lock None).

(** What SYS_keyctl finds and reads is the payload or its absence; the length is
    that of the payload even if it is larger than the buffer. *)
Definition crinitSigSubsysInit (rootKeyDesc : string) : M S Z :=
  msig_modify (set_keys None 0) ;;
  err ← fallible;  (* pthread_mutex_init *)
  if (err : bool) then mret (-1) else
  msig_modify (set_sig_lock (Some false)) ;;
  err ← fallible;  (* KEYCTL_SEARCH *)
  match (if (err : bool) then None else keyring rootKeyDesc) with
  | None => sig_mutex_destroy ;; mret (-1)
  | Some rootKeyData =>
      err ← fallible;  (* KEYCTL_READ *)
      if (err : bool) then sig_mutex_destroy ;; mret (-1) else
      if (CRINIT_SIGNATURE_PK_DATA_MAX_SIZE <? String.length rootKeyData)%nat then sig_mutex_destroy ;; mret (-1) else
      err ← sig_mutex_lock;
      if (err : bool) then mret (-1) else
      let '(err, key) := mbedtls_pk_parse_public_key rootKeyData in
      msig_modify (set_rootKey key) ;;
      if negb (err =? 0) then sig_mutex_unlock ;; sig_mutex_destroy ;; mret (-1) else
      if bool_decide (mbedtls_pk_get_type key = MBEDTLS_PK_NONE) then
        msig_modify (set_rootKey mbedtls_pk_init) ;; sig_mutex_unlock ;; sig_mutex_destroy ;; mret (-1)
      else if negb (mbedtls_pk_can_do_rsa key) then
        msig_modify (set_rootKey mbedtls_pk_init) ;; sig_mutex_unlock ;; sig_mutex_destroy ;; mret (-1)
      else sig_mutex_unlock ;; mret 0
  end.

(** The pointer to the keys and their number stay, and so does what was freed: the
    mutex is not usable any more, and every other call stops there. *)
Definition crinitSigSubsysDestroy : M S unit :=
  c ← msig;
  match sig_lock c with
  | Some false => msig_modify (set_rootKey mbedtls_pk_init) ;; sig_mutex_destroy
  | _ => mundef
  end.

Definition crinitGenerateHash (data : string) : M S (option string) :=
  err ← fallibleN 3;  (* starts, update, finish *)
  mret (if (err : bool) then None else Some (sha256 data)).

(** crinitMbedtlsVerify() reads as many bytes of the signature as the key has, and
    needs an RSA key. *)
Definition crinitMbedtlsVerify (k : pk) (hash signature : string) : M S bool :=
  if negb (mbedtls_pk_can_do_rsa k) || (String.length signature <? rsa_len k)%nat then mundef
  else mret (rsassa_pss_verify k hash (str_take (rsa_len k) signature)).

Fixpoint verify_any (keys : list pk) (hash signature : string) : M S bool :=
  match keys with
  | [] => mret false
  | k :: keys =>
      ok ← crinitMbedtlsVerify k hash signature;
      if (ok : bool) then mret true else verify_any keys hash signature
  end.

(** The keys that the loop over the array sees. *)
Definition active_keys (c : crinitSigCtx pk) : list pk := take (numSignedKeys c) (default [] (signedKeys c)).

Definition crinitVerifySignature (data signature : string) : M S Z :=
  hash ← crinitGenerateHash data;
  match hash with
  | None => mret (-1)
  | Some hash =>
      err ← sig_mutex_lock;
      if (err : bool) then mret (-1) else
      c ← msig;
      ok ← crinitMbedtlsVerify (rootKey c) hash signature;
      ok ← (if (ok : bool) then mret true else verify_any (active_keys c) hash signature);
      sig_mutex_unlock ;;
      mret (if (ok : bool) then 0 else -1)
  end.

(** One file of the loop: the arrays readbufKey and readbufSig after it and the
    context of the key, [None] on failure. *)
Definition load_key (pemFmt : bool) (bufs : string * string) (base fname : string) : M S (option (string * string * pk)) :=
  let pathbuf := (base +:+ "/" +:+ fname)%string in
  err ← fallible;  (* snprintf *)
  if (err : bool) then mret None else
  if (PATH_MAX - String.length CRINIT_SIGNATURE_FILE_SUFFIX <=? String.length pathbuf)%nat then mret None else
  '(keySz, readbufKey) ← crinitBinReadAll bufs.1 pathbuf;
  if keySz =? -1 then mret None else
  if pemFmt && (keySz =? Z.of_nat CRINIT_SIGNATURE_PK_DATA_MAX_SIZE) then mret None else
  let n := Z.to_nat keySz in
  let readbufKey := if pemFmt then (str_take n readbufKey +:+ String zero (str_drop (n + 1) readbufKey))%string else readbufKey in
  '(r, readbufSig) ← crinitBinReadAll bufs.2 (pathbuf +:+ CRINIT_SIGNATURE_FILE_SUFFIX)%string;
  if r =? -1 then mret None else
  r ← crinitVerifySignature (str_take n readbufKey) readbufSig;
  if r =? -1 then mret None else
  let '(_, key) := mbedtls_pk_parse_public_key (str_take (if pemFmt then n + 1 else n) readbufKey) in
  if bool_decide (mbedtls_pk_get_type key = MBEDTLS_PK_NONE) then mret None else
  if negb (mbedtls_pk_can_do_rsa key) then mret None else
  let '(err, key) := mbedtls_rsa_set_padding key in
  if mbedtls_3 && negb (err =? 0) then mret None else
  mret (Some (readbufKey, readbufSig, key)).

Fixpoint load_keys (pemFmt : bool) (bufs : string * string) (baseDir : option string) (fnames : list (option string)) :
    M S (option (list pk)) :=
  match fnames with
  | [] => mret (Some [])
  | fname :: fnames =>
      match baseDir, fname with
      | Some base, Some fname =>
          r ← load_key pemFmt bufs base fname;
          match r with
          | None => mret None
          | Some (bufs, key) => l ← load_keys pemFmt bufs baseDir fnames; mret (cons key <$> l)
          end
      | _, _ => mundef
      end
  end.

(** The contexts that are written to the array, [None] on failure. *)
Definition crinitLoadAndVerifySignedKeysFromFileSeries (src : crinitFileSeries) (pemFmt : bool) : M S (option (list pk)) :=
  load_keys pemFmt (uninitialised CRINIT_SIGNATURE_PK_DATA_MAX_SIZE, uninitialised (CRINIT_RSASSA_PSS_SIGNATURE_SIZE + 1))
    (baseDir src) (fnames src).

Definition crinitLoadAndVerifySignedKeys (sigKeyDir : option string) : M S Z :=
  match sigKeyDir with
  | None => mret (-1)
  | Some sigKeyDir =>
      derKeys ← crinitFileSeriesFromDir sigKeyDir CRINIT_SIGNATURE_PK_DER_EXTENSION false;
      match derKeys with None => mret (-1) | Some derKeys =>
      pemKeys ← crinitFileSeriesFromDir sigKeyDir CRINIT_SIGNATURE_PK_PEM_EXTENSION false;
      match pemKeys with None => mret (-1) | Some pemKeys =>
      oom ← fallible;
      if (oom : bool) then mret (-1) else
      der ← crinitLoadAndVerifySignedKeysFromFileSeries derKeys false;
      match der with None => mret (-1) | Some der =>
      pem ← crinitLoadAndVerifySignedKeysFromFileSeries pemKeys true;
      match pem with None => mret (-1) | Some pem =>
      err ← sig_mutex_lock;
      if (err : bool) then mret (-1) else
      msig_modify (set_keys (Some (der ++ pem)) (length (fnames derKeys) + length (fnames pemKeys))) ;;
      sig_mutex_unlock ;;
      mret 0
      end end end end
  end.
End Operations.

(** The signature check that confparse.c is linked with is the one of sig.c. *)
Class SigLinked (S pk : Type) `{SigState S pk} `{!Mbedtls pk} : Prop :=
  verify_linked : ∀ data sig (s : S), ConfParse.crinitVerifySignature data sig s = crinitVerifySignature data sig s.
