(* ===== verification/SigProps.v ===== *)
(** * Signatures: the chain of trust

    What sig.c accepts goes back to the root key, whatever the file system does
    between the calls and whatever fails. *)

From Stdlib Require Import ZArith Lia Bool List String Ascii.
From stdpp Require Import base list strings gmap.
From S2P Require Import Prelude CString EnvSet Timer Task TaskDB Lexers ConfConv Ini GlobOpt ConfParse FSeries RtimExec Sig.

Open Scope Z_scope.
Open Scope crinit_scope.

#[local] Arguments String.append : simpl nomatch.

(** ** Trust *)

Section Trust.
Context {pk : Type} `{Mbedtls pk}.

(** The data has a signature that the key verifies. *)
Definition signed_by (k : pk) (data : string) : Prop := ∃ sig, rsassa_pss_verify k (sha256 data) sig = true.

(** The context that is made of the bytes of a key file. *)
Definition key_from (data : string) (k : pk) : Prop :=
  ∃ pem : bool,
    k = (mbedtls_rsa_set_padding (mbedtls_pk_parse_public_key (if pem then data +:+ str1 zero else data)%string).2).2.

Inductive trusted (root : pk) : pk → Prop :=
| trusted_root : trusted root root
| trusted_signed k data k' : trusted root k → signed_by k data → key_from data k' → trusted root k'.

(** The keys that are tried. *)
Definition sig_keys (c : crinitSigCtx pk) : list pk := rootKey c :: active_keys c.

Definition endorsed (c : crinitSigCtx pk) (data : string) : Prop := ∃ k, k ∈ sig_keys c ∧ signed_by k data.

Definition ctx_trusted (root : pk) (c : crinitSigCtx pk) : Prop := rootKey c = root ∧ Forall (trusted root) (active_keys c).

Lemma endorsed_trusted root c data : ctx_trusted root c → endorsed c data → ∃ k, trusted root k ∧ signed_by k data.
Proof.
  intros [Hr Hk] (k & Hin & Hs). exists k. split; [|done]. apply elem_of_cons in Hin as [->|Hin].
  - rewrite Hr. constructor.
  - by eapply Forall_forall in Hk.
Qed.
End Trust.

(** ** What does not touch the keys *)

Section Frame.
Context {S pk : Type} `{Mbedtls pk} `{SigState S pk} `{!DirEnv S}.
Implicit Types s : S.

Definition same_sig (s s' : S) : Prop := get_sig s' = get_sig s.
#[global] Instance same_sig_preorder : PreOrder same_sig.
Proof. split; [by intros s|]. intros s1 s2 s3 E1 E2. unfold same_sig in *. congruence. Qed.

Lemma same_sig_faults l s : same_sig s (set_faults l s).
Proof. apply sig_faults. Qed.
Lemma keeps_open path : Keeps same_sig (open_file path).
Proof. intros s. eapply wlp_mono; [|apply open_sig]. by intros ? s' [? _]. Qed.
Lemma keeps_read path : Keeps same_sig (read_file path).
Proof. intros s. eapply wlp_mono; [|apply read_sig]. by intros ? s' [? _]. Qed.
Lemma keeps_msig : Keeps same_sig msig.
Proof. by intros s. Qed.
Hint Resolve same_sig_faults keeps_open keeps_read keeps_msig : keeps.

Lemma keeps_bin_read buf path : Keeps same_sig (crinitBinReadAll buf path).
Proof. unfold crinitBinReadAll. keep. Qed.

Lemma keeps_scandir path suffix follow : Keeps same_sig (scandir path suffix follow).
Proof. unfold scandir. keep. Qed.

Lemma keeps_from_dir path suffix follow : Keeps same_sig (crinitFileSeriesFromDir path suffix follow).
Proof.
  pose proof keeps_scandir. unfold crinitFileSeriesFromDir, crinitInitFileSeries, crinitResizeFileSeries. keep.
Qed.

Lemma keeps_hash data : Keeps same_sig (crinitGenerateHash data).
Proof. unfold crinitGenerateHash. keep. Qed.

Lemma keeps_verify1 k hash sig : Keeps same_sig (crinitMbedtlsVerify k hash sig).
Proof. unfold crinitMbedtlsVerify. keep. Qed.

Lemma set_lock_back (c : crinitSigCtx pk) : sig_lock c = Some false → set_sig_lock (Some false) (set_sig_lock (Some true) c) = c.
Proof. destruct c as [????]. simpl. by intros ->. Qed.

(** With the mutex the context is that of before, but for the mutex. *)
Lemma lock_spec s :
  wlp sig_mutex_lock
    (λ err s', if (err : bool) then same_sig s s'
               else sig_lock (get_sig s) = Some false ∧ get_sig s' = set_sig_lock (Some true) (get_sig s)) s.
Proof.
  unfold sig_mutex_lock. apply wlp_bind, wp_wlp, wp_fallible. intros [] l; [apply wlp_ret, same_sig_faults|].
  unfold msig. apply wlp_bind. unfold wlp at 1. rewrite sig_faults.
  destruct (sig_lock (get_sig s)) as [[]|] eqn:E; [done| |done]. unfold msig_modify, wlp. simpl.
  by rewrite get_set_sig, sig_faults.
Qed.

Lemma verify1_spec k data sig s :
  wlp (crinitMbedtlsVerify k (sha256 data) sig) (λ ok s', same_sig s s' ∧ (ok = true → signed_by k data)) s.
Proof.
  unfold crinitMbedtlsVerify. case_if; [done|]. apply wlp_ret. split; [done|]. intros Hv. by eexists.
Qed.

Lemma verify_any_spec keys data sig s :
  wlp (verify_any keys (sha256 data) sig) (λ ok s', same_sig s s' ∧ (ok = true → ∃ k, k ∈ keys ∧ signed_by k data)) s.
Proof.
  revert s. induction keys as [|k keys IH]; intros s; simpl; [by apply wlp_ret|].
  apply wlp_bind. eapply wlp_mono; [|apply verify1_spec]. intros [] s1 [Hs Hk].
  - apply wlp_ret. split; [done|]. intros _. exists k. split; [constructor|by apply Hk].
  - eapply wlp_mono; [|apply IH]. intros ok s2 [Hs2 Hex]. split; [by transitivity s1|]. intros Hok.
    destruct (Hex Hok) as (k' & Hin & Hs'). exists k'. split; [by constructor|done].
Qed.

(** 0 is only returned for data that one of the keys signed; the context stays. *)
Lemma verify_spec data sig s :
  wlp (crinitVerifySignature data sig)
    (λ r s', same_sig s s' ∧ (r = 0 ∧ endorsed (get_sig s) data ∨ r = -1)) s.
Proof.
  unfold crinitVerifySignature, crinitGenerateHash.
  apply wlp_bind, wlp_bind, wp_wlp, wp_fallibleN. intros err l0. apply wlp_ret.
  destruct err; [apply wlp_ret; split; [apply same_sig_faults|by right]|].
  apply wlp_bind. eapply wlp_mono; [|apply lock_spec]. rewrite sig_faults. intros [] s2 Hs2.
  { apply wlp_ret. split; [|by right]. unfold same_sig in Hs2. by rewrite sig_faults in Hs2. }
  destruct Hs2 as [Hfree Hs2]. apply wlp_bind. unfold msig at 1, wlp at 1.
  apply wlp_bind. eapply wlp_mono; [|apply verify1_spec]. intros ok s3 [Hs3 Hroot].
  apply wlp_bind. apply (wlp_mono _ (λ b s4, same_sig s2 s4 ∧ (b = true → endorsed (get_sig s) data))).
  - intros b s4 [Hs4 Hb]. apply wlp_bind. unfold sig_mutex_unlock, msig_modify, wlp at 1. apply wlp_ret. split.
    + unfold same_sig. by rewrite get_set_sig, Hs4, Hs2, set_lock_back.
    + destruct b; [left; split; [done|by apply Hb]|by right].
  - rewrite Hs2 in *. destruct ok.
    + apply wlp_ret. split; [done|]. intros _. eexists. split; [|by apply Hroot]. apply list_elem_of_here.
    + eapply wlp_mono; [|apply verify_any_spec]. intros b s4 [Hs4 Hex]. split; [by transitivity s3|]. intros ->.
      destruct Hex as (k & Hin & Hk); [done|]. exists k. split; [by apply list_elem_of_further|done].
Qed.

Lemma take_app a b : str_take (String.length a) (a +:+ b)%string = a.
Proof. induction a as [|c a IH]; [by destruct b|]. cbn [String.append String.length str_take]. by rewrite IH. Qed.

Lemma take_app_succ a c b : str_take (String.length a + 1) (a +:+ String c b)%string = (a +:+ str1 c)%string.
Proof.
  induction a as [|d a IH]; [by destruct b|]. cbn [String.append String.length Nat.add str_take]. by rewrite IH.
Qed.

Lemma bin_read_spec buf path s :
  wlp (crinitBinReadAll buf path)
    (λ r s', same_sig s s' ∧
       (r.1 ≠ -1 → ∃ content, r = (Z.of_nat (String.length content), content +:+ str_drop (String.length content) buf)%string)) s.
Proof.
  unfold crinitBinReadAll. apply wlp_bind. eapply keeps_intro; [apply keeps_open|]. intros [content|] s1 Hs1.
  2:{ by apply wlp_ret. }
  apply wlp_bind, wp_wlp, wp_fallible. intros err l.
  assert (same_sig s (set_faults l s1)) as Hs2 by (transitivity s1; [done|apply same_sig_faults]).
  case_if; apply wlp_ret; split; try done. intros _. by exists content.
Qed.

Lemma load_key_spec pem bufs base fname s :
  wlp (load_key pem bufs base fname)
    (λ r s', same_sig s s' ∧ ∀ bufs' k, r = Some (bufs', k) → ∃ data, endorsed (get_sig s) data ∧ key_from data k) s.
Proof.
  unfold load_key. apply wlp_bind, wp_wlp, wp_fallible. intros err l.
  pose proof (same_sig_faults l s) as Hl. destruct err; [by apply wlp_ret|]. case_if; [by apply wlp_ret|].
  apply wlp_bind. eapply wlp_mono; [|apply bin_read_spec]. intros [n b1] s1 [Hs1 Hr].
  assert (same_sig s s1) as Hs by (by transitivity (set_faults l s)).
  destruct (Z.eqb_spec n (-1)) as [|Hn]; [by apply wlp_ret|]. destruct (Hr Hn) as (content & [= -> ->]). rewrite Nat2Z.id.
  case_if; [by apply wlp_ret|]. apply wlp_bind. eapply wlp_mono; [|apply bin_read_spec]. intros [n2 b2] s2 [Hs2 _].
  assert (same_sig s s2) as Hs' by (by transitivity s1).
  case_if; [by apply wlp_ret|]. apply wlp_bind. eapply wlp_mono; [|apply verify_spec]. intros r s3 [Hs3 Hv].
  assert (same_sig s s3) as Hs'' by (by transitivity s2).
  destruct (Z.eqb_spec r (-1)) as [|Hne]; [by apply wlp_ret|]. destruct Hv as [[_ Hv]|]; [|done].
  rewrite Hs' in Hv.
  assert (str_take (String.length content)
            (if pem then (str_take (String.length content) (content +:+ str_drop (String.length content) bufs.1) +:+
              String zero (str_drop (String.length content + 1) (content +:+ str_drop (String.length content) bufs.1)))
             else content +:+ str_drop (String.length content) bufs.1)%string = content) as E.
  { destruct pem; rewrite ?take_app; done. }
  rewrite E in Hv. clear E.
  destruct (mbedtls_pk_parse_public_key _) as [pe k0] eqn:Ek. case_if; [by apply wlp_ret|]. case_if; [by apply wlp_ret|].
  destruct (mbedtls_rsa_set_padding k0) as [se k] eqn:Ep. case_if; [by apply wlp_ret|]. apply wlp_ret. split; [done|].
  intros bufs' k' [= <- <-]. exists content. split; [done|]. exists pem.
  destruct pem; rewrite take_app in Ek; [rewrite take_app_succ in Ek|]; rewrite Ek; simpl; by rewrite Ep.
Qed.

Lemma load_keys_spec pem bufs base names s :
  wlp (load_keys pem bufs base names)
    (λ r s', same_sig s s' ∧ ∀ l, r = Some l →
       length l = length names ∧ Forall (λ k, ∃ data, endorsed (get_sig s) data ∧ key_from data k) l) s.
Proof.
  revert bufs s. induction names as [|name names IH]; intros bufs s; simpl.
  { apply wlp_ret. split; [done|]. by intros l [= <-]. }
  destruct base as [base|]; [|done]. destruct name as [name|]; [|done].
  apply wlp_bind. eapply wlp_mono; [|apply load_key_spec]. intros [[bufs' k]|] s1 [Hs1 Hk]; [|by apply wlp_ret].
  apply wlp_bind. eapply wlp_mono; [|apply IH]. intros r s2 [Hs2 Hl]. rewrite Hs1 in Hl. apply wlp_ret.
  split; [by transitivity s1|]. destruct r as [l|]; [|done]. intros l' [= <-]. destruct (Hl l eq_refl) as [Hlen Hall].
  split; [simpl; by rewrite Hlen|]. constructor; [by eapply Hk|done].
Qed.

(** After a successful load the keys are those of the directory, each endorsed by a
    key from before; a load that fails changes nothing. *)
Lemma load_spec dir s :
  wlp (crinitLoadAndVerifySignedKeys dir)
    (λ r s', (r = -1 ∧ same_sig s s') ∨
       (r = 0 ∧ ∃ l, get_sig s' = set_keys (Some l) (length l) (get_sig s) ∧
          Forall (λ k, ∃ data, endorsed (get_sig s) data ∧ key_from data k) l)) s.
Proof.
  unfold crinitLoadAndVerifySignedKeys. destruct dir as [dir|]; [|apply wlp_ret; by left].
  apply wlp_bind. eapply keeps_intro; [apply keeps_from_dir|]. intros [der|] s1 Hs1; [|apply wlp_ret; by left].
  apply wlp_bind. eapply keeps_intro; [apply keeps_from_dir|]. intros [pem|] s2 Hs12.
  2:{ apply wlp_ret. left. split; [done|by transitivity s1]. }
  assert (same_sig s s2) as Hs2 by (by transitivity s1).
  apply wlp_bind, wp_wlp, wp_fallible. intros oom l0.
  assert (same_sig s (set_faults l0 s2)) as Hs3 by (transitivity s2; [done|apply same_sig_faults]).
  destruct oom; [apply wlp_ret; by left|]. unfold crinitLoadAndVerifySignedKeysFromFileSeries.
  apply wlp_bind. eapply wlp_mono; [|apply load_keys_spec]. rewrite Hs3. intros [lder|] s4 [Hs4 Hder].
  2:{ apply wlp_ret. left. split; [done|by transitivity (set_faults l0 s2)]. }
  assert (same_sig s s4) as Hs5 by (by transitivity (set_faults l0 s2)).
  apply wlp_bind. eapply wlp_mono; [|apply load_keys_spec]. rewrite Hs5. intros [lpem|] s6 [Hs6 Hpem].
  2:{ apply wlp_ret. left. split; [done|by transitivity s4]. }
  assert (same_sig s s6) as Hs7 by (by transitivity s4).
  apply wlp_bind. eapply wlp_mono; [|apply lock_spec]. intros [] s8 Hs8.
  { apply wlp_ret. left. split; [done|by transitivity s6]. }
  destruct Hs8 as [Hfree Hs8]. apply wlp_bind. unfold msig_modify at 1, wlp at 1. apply wlp_bind.
  unfold sig_mutex_unlock, msig_modify, wlp at 1. apply wlp_ret. right. split; [done|].
  destruct (Hder _ eq_refl) as [Ld Fd]. destruct (Hpem _ eq_refl) as [Lp Fp].
  exists (lder ++ lpem). split; [|by apply Forall_app].
  rewrite !get_set_sig, Hs8, Hs7, length_app, Ld, Lp. unfold same_sig in Hs7. rewrite Hs7 in Hfree.
  destruct (get_sig s) as [????]. unfold set_sig_lock, set_keys. simpl in *. by rewrite Hfree.
Qed.

Lemma load_trusted root dir s :
  ctx_trusted root (get_sig s) → wlp (crinitLoadAndVerifySignedKeys dir) (λ _ s', ctx_trusted root (get_sig s')) s.
Proof.
  intros Ht. eapply wlp_mono; [|apply load_spec]. intros r s' [[_ Hs]|(_ & l & Hs & Hl)].
  - unfold same_sig in Hs. by rewrite Hs.
  - rewrite Hs. split; [apply Ht|]. unfold active_keys, set_keys. simpl. rewrite take_ge by done.
    eapply Forall_impl; [exact Hl|]. intros k (data & He & Hk). destruct (endorsed_trusted _ _ _ Ht He) as (k0 & Ht0 & Hs0).
    by eapply trusted_signed.
Qed.

(** What a successful start of the subsystem leaves: the root key of the keyring and
    no other. *)
Lemma sig_init_spec desc s :
  wlp (crinitSigSubsysInit desc)
    (λ r s', r = -1 ∨ (r = 0 ∧ ∃ payload k, keyring desc = Some payload ∧ mbedtls_pk_parse_public_key payload = (0, k) ∧
       mbedtls_pk_can_do_rsa k = true ∧ get_sig s' = mkSigCtx k None 0 (Some false))) s.
Proof.
  unfold crinitSigSubsysInit. apply wlp_bind. unfold msig_modify at 1, wlp at 1. set (s1 := set_sig _ s).
  apply wlp_bind, wp_wlp, wp_fallible. intros [] l1; [apply wlp_ret; by left|].
  apply wlp_bind. unfold msig_modify at 1, wlp at 1. set (s2 := set_sig _ _).
  apply wlp_bind, wp_wlp, wp_fallible. intros err l2.
  assert (∀ s r, wlp (sig_mutex_destroy ;; mret (-1)) (λ r0 s', r0 = -1 ∨ r r0 s') s) as Hfail by (intros ??; by left).
  destruct (if err then None else keyring desc) as [payload|] eqn:Ek; [|apply Hfail].
  assert (keyring desc = Some payload) as Hkey by (by destruct err).
  apply wlp_bind, wp_wlp, wp_fallible. intros [] l3; [apply Hfail|]. case_if; [apply Hfail|].
  apply wlp_bind. eapply wlp_mono; [|apply lock_spec]. intros [] s4 Hs4; [apply wlp_ret; by left|].
  destruct Hs4 as [_ Hs4]. destruct (mbedtls_pk_parse_public_key payload) as [e k] eqn:Ep.
  apply wlp_bind. unfold msig_modify at 1, wlp at 1. destruct (Z.eqb_spec e 0) as [->|]; cbn [negb]; [|by left].
  case_bool_decide; [by left|]. destruct (mbedtls_pk_can_do_rsa k) eqn:Ersa; cbn [negb]; [|by left].
  apply wlp_bind. unfold sig_mutex_unlock, msig_modify, wlp at 1. apply wlp_ret. right. split; [done|].
  exists payload, k. repeat split; try done. rewrite !get_set_sig, Hs4, !sig_faults. unfold s2. rewrite get_set_sig, sig_faults.
  unfold s1. by rewrite get_set_sig.
Qed.
End Frame.

(** ** Sequences of calls *)

Inductive sig_op := OpLoad (dir : option string) | OpVerify (data signature : string).

Section Chain.
Context {S pk : Type} `{Mbedtls pk} `{SigState S pk} `{!DirEnv S}.
Implicit Types s : S.

Definition run_sig_op (o : sig_op) : M S Z :=
  match o with OpLoad dir => crinitLoadAndVerifySignedKeys dir | OpVerify data sig => crinitVerifySignature data sig end.

Fixpoint run_sig_ops (l : list sig_op) : M S (list Z) :=
  match l with
  | [] => mret []
  | o :: l => r ← run_sig_op o; rs ← run_sig_ops l; mret (r :: rs)
  end.

Definition verdict_ok (root : pk) (o : sig_op) (r : Z) : Prop :=
  match o with
  | OpLoad _ => True
  | OpVerify data _ => r = 0 → ∃ k, trusted root k ∧ signed_by k data
  end.

Lemma run_ops_trusted root ops s :
  ctx_trusted root (get_sig s) →
  wlp (run_sig_ops ops) (λ rs s', Forall2 (verdict_ok root) ops rs ∧ ctx_trusted root (get_sig s')) s.
Proof.
  revert s. induction ops as [|o ops IH]; intros s Ht; simpl; [by apply wlp_ret|].
  apply wlp_bind. apply (wlp_mono _ (λ r s', verdict_ok root o r ∧ ctx_trusted root (get_sig s'))).
  - intros r s1 [Hr Ht1]. apply wlp_bind. eapply wlp_mono; [|by apply IH]. intros rs s2 [Hrs Ht2]. apply wlp_ret.
    split; [by constructor|done].
  - destruct o as [dir|data sig]; simpl.
    + eapply wlp_mono; [|by apply load_trusted]. intros r s' Ht'. done.
    + eapply wlp_mono; [|apply verify_spec]. intros r s' [Hs Hv]. unfold same_sig in Hs. rewrite Hs. split; [|done].
      intros ->. destruct Hv as [[_ Hv]|]; [|done]. by eapply endorsed_trusted.
Qed.


(** The keys of the first directory are signed by the root key itself. *)
Lemma first_load_by_root desc dir s :
  wlp (r ← crinitSigSubsysInit desc; if r =? -1 then mret (-1) else crinitLoadAndVerifySignedKeys dir)
    (λ r s', r = 0 → Forall (λ k, ∃ data, signed_by (rootKey (get_sig s')) data ∧ key_from data k) (active_keys (get_sig s'))) s.
Proof.
  apply wlp_bind. eapply wlp_mono; [|apply sig_init_spec]. intros r s1 [->|(-> & payload & root & Hk & Hp & _ & Hs1)].
  { by apply wlp_ret. }
  simpl. eapply wlp_mono; [|apply load_spec]. intros r s2 [[-> _]|(-> & l & Hs2 & Hl)] Hr; [done|].
  rewrite Hs2, Hs1. unfold active_keys, set_keys. simpl. rewrite take_ge by done.
  eapply Forall_impl; [exact Hl|]. intros k (data & (k0 & Hin & Hs) & Hf). exists data. split; [|done].
  rewrite Hs1 in Hin. unfold sig_keys in Hin. simpl in Hin. by apply list_elem_of_singleton in Hin as ->.
Qed.
End Chain.

(** ** A check decides whether one of the keys made the signature *)

Section Exact.
Context {S pk : Type} `{Mbedtls pk} `{SigState S pk}.
Implicit Types s : S.

Definition usable (sig : string) (k : pk) : Prop := mbedtls_pk_can_do_rsa k = true ∧ (rsa_len k ≤ String.length sig)%nat.
Definition made_by (data sig : string) (k : pk) : bool := rsassa_pss_verify k (sha256 data) (str_take (rsa_len k) sig).

Lemma run_verify1 k data sig s :
  usable sig k → crinitMbedtlsVerify k (sha256 data) sig s = Ret (made_by data sig k) s.
Proof.
  intros [Hk Hl]. unfold crinitMbedtlsVerify. rewrite Hk. apply Nat.ltb_ge in Hl. by rewrite Hl.
Qed.

Lemma run_verify_any keys data sig s :
  Forall (usable sig) keys → verify_any keys (sha256 data) sig s = Ret (existsb (made_by data sig) keys) s.
Proof.
  induction 1 as [|k keys Hk _ IH]; [done|]. cbn [verify_any existsb]. rewrite (bind_run _ _ _ _ _ (run_verify1 k data sig s Hk)).
  by destruct (made_by data sig k).
Qed.

Lemma run_sig_lock s :
  quiet s → sig_lock (get_sig s) = Some false →
  sig_mutex_lock s = Ret false (set_sig (set_sig_lock (Some true) (get_sig s)) s).
Proof.
  intros Hq Hl. unfold sig_mutex_lock. rewrite bind_fallible by done. cbv beta iota.
  rewrite (bind_run msig _ s (get_sig s) s) by done. by rewrite Hl.
Qed.

Lemma verify_exact data sig s :
  quiet s → sig_lock (get_sig s) = Some false → Forall (usable sig) (sig_keys (get_sig s)) →
  crinitVerifySignature data sig s = Ret (if existsb (made_by data sig) (sig_keys (get_sig s)) then 0 else -1) s.
Proof.
  intros Hq Hl Hk. unfold sig_keys in *. apply Forall_cons in Hk as [Hroot Hk].
  unfold crinitVerifySignature. rewrite (bind_run _ _ s (Some (sha256 data)) s).
  2:{ unfold crinitGenerateHash. by rewrite (bind_run _ _ _ _ _ (fallibleN_quiet 3 s Hq)). }
  cbv beta iota. rewrite (bind_run _ _ _ _ _ (run_sig_lock s Hq Hl)). cbv beta iota. set (s1 := set_sig _ s).
  assert (get_sig s1 = set_sig_lock (Some true) (get_sig s)) as E1 by apply get_set_sig.
  rewrite (bind_run msig _ s1 (get_sig s1) s1) by done. cbv beta.
  rewrite (bind_run _ _ _ _ _ (run_verify1 (rootKey (get_sig s1)) data sig s1 ltac:(by rewrite E1))). cbv beta.
  rewrite (bind_run _ _ s1 (existsb (made_by data sig) (rootKey (get_sig s) :: active_keys (get_sig s))) s1).
  2:{ rewrite E1. change (rootKey (set_sig_lock (Some true) (get_sig s))) with (rootKey (get_sig s)). cbn [existsb].
      destruct (made_by data sig (rootKey (get_sig s))); [done|]. by apply run_verify_any. }
  rewrite (bind_run sig_mutex_unlock _ s1 tt s); [done|].
  unfold sig_mutex_unlock, msig_modify. rewrite E1. unfold s1. by rewrite set_set_sig, set_lock_back, set_get_sig.
Qed.
End Exact.
