(* ===== verification/SigConf.v ===== *)
(** * Signatures and configuration files

    With the option SIGNATURES what crinitParseConf() returns is what it read from
    the text whose signature it checked. *)

From Stdlib Require Import ZArith Lia Bool List String Ascii.
From stdpp Require Import base list strings gmap.
From S2P Require Import Prelude CString EnvSet Timer Task TaskDB Lexers ConfConv Ini GlobOpt ConfParse FSeries RtimExec Sig SigProps.

Open Scope Z_scope.
Open Scope crinit_scope.

#[local] Arguments String.append : simpl nomatch.

(** ** The settings of a text *)

(** What the parser reads when no call fails. *)
Definition settings_of (text : string) (l : list (string * string)) : Prop :=
  ∃ count, ini_run (S := list bool) (ini_parse_string text) (mkCtx [] 0) 0 [] = Ret (mkCtx l count, 0) [].

Lemma ini_lines_positive fuel lineno prev s : 0 <= lineno → Forall (λ e, 0 < e.1) (ini_lines fuel lineno prev s).
Proof.
  revert lineno prev s. induction fuel as [|fuel IH]; intros lineno prev [|c s] Hl; cbn [ini_lines]; try done.
  destruct (ini_reader_string _ _) as [line r]. destruct (ini_line _ _ _) as [[e|] p]; [|apply IH; lia].
  constructor; [simpl; lia|apply IH; lia].
Qed.

Section Parse.
Context {S : Type} `{Faulty S}.
Implicit Types s : S.

(** A setting that was taken is taken in the same way when nothing fails. *)
Lemma ini_handler_settled ctx k v s :
  wlp (crinitIniHandler ctx k v)
    (λ r _, r.1 = true → crinitIniHandler (S := list bool) ctx k v [] = Ret r []) s.
Proof.
  unfold crinitIniHandler.
  destruct (match str_break "[" k with Some _ => _ | None => _ end) as [[ok len] count].
  destruct ok; cbn [negb]; [|by apply wlp_ret].
  apply wlp_bind, wp_wlp, wp_fallible. intros o1 l1. apply wlp_bind, wp_wlp, wp_fallible. intros o2 l2.
  case_if; [by apply wlp_ret|]. apply wlp_bind, wp_wlp, wp_fallible. intros o3 l3. apply wlp_ret. simpl.
  by intros ->%negb_true_iff.
Qed.

Lemma ini_run_error evs ctx err s :
  err ≠ 0 → wlp (ini_run evs ctx err) (λ r _, r.2 = err) s.
Proof.
  intros Herr. revert ctx s. induction evs as [|[n e] evs IH]; intros ctx s; simpl; [by apply wlp_ret|].
  apply wlp_bind_any. intros [ok ctx'] s'. rewrite (proj2 (Z.eqb_neq err 0)) by done. rewrite andb_false_r. apply IH.
Qed.

Lemma ini_run_settled evs ctx s :
  Forall (λ e, 0 < e.1) evs →
  wlp (ini_run evs ctx 0)
    (λ r _, r.2 = 0 → ini_run (S := list bool) evs ctx 0 [] = Ret r []) s.
Proof.
  intros Hp. revert ctx s. induction Hp as [|[n e] evs Hn Hp IH]; intros ctx s; simpl; [by apply wlp_ret|].
  apply wlp_bind. apply (wlp_mono _ (λ r _, r.1 = true → ∃ k v, e = IniPair k v ∧
    crinitIniHandler (S := list bool) ctx k v [] = Ret r [])).
  - intros [ok ctx'] s' Hok. destruct ok.
    + destruct Hok as (k & v & -> & E); [done|]. cbn [negb andb]. eapply wlp_mono; [|apply IH]. intros r s2 Hr Hr0.
      rewrite (bind_run _ _ _ _ _ E). by apply Hr.
    + cbn [negb andb]. simpl in Hn. eapply wlp_mono; [|apply ini_run_error; lia].
      intros r s2 Hr Hr0. cbv beta in Hr. lia.
  - destruct e as [k v|]; [|by apply wlp_ret]. eapply wlp_mono; [|apply ini_handler_settled].
    intros r s2 Hr Ht. exists k, v. split; [done|by apply Hr].
Qed.
End Parse.

(** ** Signed configuration *)

Section Signed.
Context {S pk : Type} `{Mbedtls pk} `{SigState S pk} `{!SigLinked S pk}.
Implicit Types s : S.

(** The keys and whether signatures are required stay. *)
Definition same_guard (s s' : S) : Prop :=
  get_sig s' = get_sig s ∧ bools (get_opts s') SIGNATURES = bools (get_opts s) SIGNATURES.
#[global] Instance same_guard_preorder : PreOrder same_guard.
Proof. split; [by intros s|]. intros s1 s2 s3 [E1 F1] [E2 F2]. split; congruence. Qed.

Definition same_flag (s s' : S) : Prop := bools (get_opts s') SIGNATURES = bools (get_opts s) SIGNATURES.
#[global] Instance same_flag_preorder : PreOrder same_flag.
Proof. split; [by intros s|]. intros s1 s2 s3 E1 E2. unfold same_flag in *. congruence. Qed.

Lemma keeps_guard {A} (m : M S A) : Keeps same_sig m → Keeps same_flag m → Keeps same_guard m.
Proof.
  intros Hs Hf s. specialize (Hs s). specialize (Hf s). unfold wlp in *. destruct (m s); [by split|done|done].
Qed.

Lemma guard_faults l s : same_guard s (set_faults l s).
Proof. split; [apply sig_faults|by rewrite opts_faults]. Qed.
Lemma flag_faults l s : same_flag s (set_faults l s).
Proof. unfold same_flag. by rewrite opts_faults. Qed.
Lemma guard_mopts : Keeps same_guard mopts.
Proof. by intros s. Qed.
Lemma guard_opts f : (∀ o, bools (f o) SIGNATURES = bools o SIGNATURES) → Keeps same_guard (mopts_modify f).
Proof. intros Hf s. unfold mopts_modify, wlp. split; [apply sig_opts|by rewrite get_set_opts, Hf]. Qed.
Lemma guard_read path : Keeps same_guard (read_file path).
Proof. intros s. eapply wlp_mono; [|apply read_sig]. intros ? s' [Hs Ho]. split; [done|by rewrite Ho]. Qed.
Lemma guard_open path : Keeps same_guard (open_file path).
Proof. intros s. eapply wlp_mono; [|apply open_sig]. intros ? s' [Hs Ho]. split; [done|by rewrite Ho]. Qed.
Lemma flag_msig : Keeps same_flag msig.
Proof. by intros s. Qed.
Lemma flag_sig f : Keeps same_flag (msig_modify f).
Proof. intros s. unfold msig_modify, wlp, same_flag. by rewrite opts_sig. Qed.
#[local] Hint Resolve guard_faults flag_faults guard_mopts guard_read guard_open flag_msig flag_sig : keeps.
#[local] Hint Extern 1 (Keeps same_guard (mopts_modify _)) => apply guard_opts; by intros [] : keeps.

Lemma flag_verify data sig : Keeps same_flag (crinitVerifySignature data sig).
Proof.
  assert (∀ keys h, Keeps same_flag (verify_any keys h sig)) as Hany.
  { induction keys as [|k keys IH]; intros h; simpl; unfold crinitMbedtlsVerify; keep. }
  unfold crinitVerifySignature, crinitGenerateHash, sig_mutex_lock, sig_mutex_unlock, crinitMbedtlsVerify. keep.
Qed.

Lemma guard_verify data sig : Keeps same_guard (crinitVerifySignature data sig).
Proof.
  apply keeps_guard; [|apply flag_verify]. intros s. eapply wlp_mono; [|apply verify_spec]. by intros r s' [? _].
Qed.

Lemma guard_borrow : Keeps same_guard crinitGlobOptBorrow.
Proof. unfold crinitGlobOptBorrow. keep. Qed.
Lemma guard_remit : Keeps same_guard crinitGlobOptRemit.
Proof. unfold crinitGlobOptRemit. keep. Qed.
#[local] Hint Resolve guard_borrow guard_remit : keeps.

Lemma guard_bin_read buf path : Keeps same_guard (crinitBinReadAll buf path).
Proof. unfold crinitBinReadAll. keep. Qed.
#[local] Hint Resolve guard_bin_read guard_verify : keeps.

Lemma guard_ini evs ctx err : Keeps same_guard (ini_run evs ctx err).
Proof. revert ctx err. induction evs as [|[n e] evs IH]; intros ctx err; simpl; unfold crinitIniHandler; keep. Qed.
#[local] Hint Resolve guard_ini : keeps.

(** The getter returns the option of the state it starts in. *)
Lemma flag_get s :
  wlp (crinitGlobOptGetBoolean SIGNATURES)
    (λ b s', b = bools (get_opts s) SIGNATURES ∧ same_guard s s') s.
Proof.
  unfold crinitGlobOptGetBoolean. apply wlp_bind. eapply keeps_intro; [apply guard_borrow|]. intros _ s1 Hs1.
  apply wlp_bind. unfold mopts, wlp at 1. apply wlp_bind. eapply keeps_intro; [apply guard_remit|]. intros _ s2 Hs2.
  apply wlp_ret. split; [apply Hs1|by transitivity s1].
Qed.

Lemma guard_parse file : Keeps same_guard (crinitParseConf file).
Proof.
  assert (∀ data sig, Keeps same_guard (ConfParse.crinitVerifySignature data sig)) as Hv.
  { intros data sig s. unfold wlp. rewrite verify_linked. apply guard_verify. }
  unfold crinitParseConf, crinitGlobOptGetBoolean. keep.
Qed.

(** The check of the signature file. *)
Lemma check_spec text path s :
  wlp ('(n, sigBuf) ← crinitBinReadAll (uninitialised (CRINIT_RSASSA_PSS_SIGNATURE_SIZE + 1)) path;
       if n =? -1 then mret false else
       r ← ConfParse.crinitVerifySignature text sigBuf;
       mret (negb (r =? -1)))
    (λ ok _, ok = true → endorsed (get_sig s) text) s.
Proof.
  apply wlp_bind. eapply keeps_intro; [apply guard_bin_read|]. intros [n sigBuf] s1 [Hs1 _].
  case_if; [by apply wlp_ret|]. apply wlp_bind. unfold wlp at 1. rewrite verify_linked. fold (wlp (crinitVerifySignature text sigBuf)
    (λ r s', wlp (mret (negb (r =? -1))) (λ ok _, ok = true → endorsed (get_sig s) text) s') s1).
  eapply wlp_mono; [|apply verify_spec]. intros r s2 [_ Hr]. apply wlp_ret. rewrite Hs1 in Hr.
  by destruct Hr as [[_ Hr]| ->].
Qed.

Lemma signed_parse file s :
  bools (get_opts s) SIGNATURES = true →
  wlp (crinitParseConf file) (λ r s', ∀ l, r = Some l → ∃ text, endorsed (get_sig s) text ∧ settings_of text l) s.
Proof.
  intros Hon. unfold crinitParseConf. apply wlp_bind. eapply keeps_intro; [apply guard_read|]. intros content s1 [Hs1 Ho1].
  destruct content as [[|c content]|]; [by apply wlp_ret| |by apply wlp_ret].
  set (text := c_str _). apply wlp_bind. eapply wlp_mono; [|apply flag_get]. rewrite Ho1, Hon. intros req s2 [-> [Hs2 _]].
  cbn [negb]. apply wlp_bind. apply (wlp_mono _ (λ ok _, ok = true → endorsed (get_sig s) text)).
  2:{ destruct SIGNATURE_SUPPORT; cbn [negb]; [|by apply wlp_ret]. apply wlp_bind, wp_wlp, wp_fallible. intros oom l.
      destruct oom; [by apply wlp_ret|]. eapply wlp_mono; [|apply check_spec]. rewrite sig_faults, Hs2, Hs1. done. }
  intros ok s3 Hok. destruct ok; cbn [negb]; [|by apply wlp_ret]. specialize (Hok eq_refl).
  apply wlp_bind_any. intros oom s4. destruct oom; [by apply wlp_ret|]. case_if; [done|].
  apply wlp_bind. eapply wlp_mono; [|apply ini_run_settled, ini_lines_positive; done]. intros [[l count] err] s5 Hr.
  apply wlp_ret. destruct (Z.eqb_spec err 0) as [->|]; [|done]. intros l' [= <-]. exists text. split; [done|].
  exists count. by apply Hr.
Qed.

(** With SIGNATURES set, what crinitParseConf() returns are the settings of a text
    that one of the loaded keys signed: the text that was checked is the text that
    is parsed, even if the file changes while it is read.  The keys stay, and so
    does the option. *)
Theorem signed_configuration file s :
  bools (get_opts s) SIGNATURES = true →
  wlp (crinitParseConf file)
    (λ r s', same_guard s s' ∧ ∀ l, r = Some l → ∃ text, endorsed (get_sig s) text ∧ settings_of text l) s.
Proof.
  intros Hon. pose proof (guard_parse file s) as Hg. pose proof (signed_parse file s Hon) as Hp. unfold wlp in *.
  by destruct (crinitParseConf file s).
Qed.
End Signed.
