(* ===== verification/MinSetup.v ===== *)
(** * The system at start-up: src/minsetup.c

    Directories, mounts, the umask and the process that reaps zombies.  The state is
    the part of the kernel that the first process sees. *)

From Stdlib Require Import ZArith Lia Bool List String Ascii.
From stdpp Require Import base list strings gmap.
From S2P Require Import Prelude.

Open Scope Z_scope.
Open Scope crinit_scope.

(** ** State *)

Record mount_entry := mkMount { mt_target : string; mt_type : string; mt_flags : Z; mt_data : option string }.

(** [kn_pid]: the process, [kn_subreaper]: its attribute, [kn_reaper]: its parent
    waits for zombies. *)
Record kernel := mkKernel {
  kn_faults : list bool;
  kn_pid : Z;
  kn_subreaper : Z;
  kn_reaper : bool;
  kn_dirs : gset string;
  kn_mounts : list mount_entry;
  kn_umask : Z;
}.

#[export, refine] Instance kernel_faulty : Faulty kernel := {|
  faults := kn_faults;
  set_faults := λ l k, mkKernel l (kn_pid k) (kn_subreaper k) (kn_reaper k) (kn_dirs k) (kn_mounts k) (kn_umask k);
  idle := λ _, True;
|}.
Proof. all: done || by intros []. Defined.

Notation K := (M kernel).

Definition set_subreaper (v : Z) (k : kernel) : kernel :=
  mkKernel (kn_faults k) (kn_pid k) v (kn_reaper k) (kn_dirs k) (kn_mounts k) (kn_umask k).
Definition set_reaper (k : kernel) : kernel :=
  mkKernel (kn_faults k) (kn_pid k) (kn_subreaper k) true (kn_dirs k) (kn_mounts k) (kn_umask k).
Definition add_dir (d : string) (k : kernel) : kernel :=
  mkKernel (kn_faults k) (kn_pid k) (kn_subreaper k) (kn_reaper k) ({[d]} ∪ kn_dirs k) (kn_mounts k) (kn_umask k).
Definition add_mount (m : mount_entry) (k : kernel) : kernel :=
  mkKernel (kn_faults k) (kn_pid k) (kn_subreaper k) (kn_reaper k) (kn_dirs k) (kn_mounts k ++ [m]) (kn_umask k).
Definition set_umask (v : Z) (k : kernel) : kernel :=
  mkKernel (kn_faults k) (kn_pid k) (kn_subreaper k) (kn_reaper k) (kn_dirs k) (kn_mounts k) v.

(** ** System calls *)

Inductive errno := EOK | EEXIST | EBUSY | EOTHER.
#[export] Instance errno_eq : EqDecision errno.
Proof. solve_decision. Defined.

Definition umask (v : Z) : K unit := mmodify (set_umask v).

Definition mkdir (path : string) : K errno :=
  k ← mget;
  if bool_decide (path ∈ kn_dirs k) then mret EEXIST else
  err ← fallible;
  if (err : bool) then mret EOTHER else mmodify (add_dir path) ;; mret EOK.

Definition mounted (target type : string) (k : kernel) : bool :=
  existsb (λ m, bool_decide (mt_target m = target ∧ mt_type m = type)) (kn_mounts k).

(** The same file system is not mounted twice at one place. *)
Definition mount (target type : string) (flags : Z) (data : option string) : K errno :=
  k ← mget;
  if mounted target type k then mret EBUSY else
  err ← fallible;
  if (err : bool) then mret EOTHER else mmodify (add_mount (mkMount target type flags data)) ;; mret EOK.

Definition MS_NOSUID : Z := 2.
Definition MS_NODEV : Z := 4.
Definition MS_NOEXEC : Z := 8.

(** ** Operations *)

(** The parent stays in its loop; what is described is the child. *)
Definition crinitForkZombieReaper : K Z :=
  err ← fallible;
  if (err : bool) then mret (-1) else mmodify set_reaper ;; mret 0.

(** A directory that may be there already, and a mount on it that may be, too. *)
Definition make_mount (path type : string) (flags : Z) (data : option string) : K bool :=
  e ← mkdir path;
  if negb (bool_decide (e = EOK) || bool_decide (e = EEXIST)) then mret false else
  e ← mount path type flags data;
  mret (bool_decide (e = EOK) || bool_decide (e = EBUSY)).

Definition crinitMountDevtmpfs : K Z :=
  umask 0 ;;
  ok ← make_mount "/dev" "devtmpfs" (Z.lor MS_NOEXEC MS_NOSUID) None;
  if negb ok then mret (-1) else umask 18 ;; mret 0.

Definition CRINIT_CGROUP_PATH : string := "/sys/fs/cgroup".

(** The options of a newer kernel first, then those of an older one, then none. *)
Definition mount_cgroup : K bool :=
  let flags := Z.lor MS_NODEV (Z.lor MS_NOEXEC MS_NOSUID) in
  let try data := mount CRINIT_CGROUP_PATH "cgroup2" flags data in
  e ← try (Some "nsdelegate,memory_recursiveprot"%string);
  if bool_decide (e = EOK) || bool_decide (e = EBUSY) then mret true else
  e ← try (Some "nsdelegate"%string);
  if bool_decide (e = EOK) || bool_decide (e = EBUSY) then mret true else
  e ← try None;
  mret (bool_decide (e = EOK) || bool_decide (e = EBUSY)).

Definition system_mounts : list (string * string * Z * option string) :=
  [("/proc", "proc", Z.lor MS_NODEV (Z.lor MS_NOEXEC MS_NOSUID), None);
   ("/sys", "sysfs", Z.lor MS_NODEV (Z.lor MS_NOEXEC MS_NOSUID), None);
   ("/dev/pts", "devpts", Z.lor MS_NOEXEC MS_NOSUID, Some "mode=0620,ptmxmode=0666,gid=5");
   ("/run", "tmpfs", Z.lor MS_NODEV (Z.lor MS_NOEXEC MS_NOSUID), None)]%string.

Fixpoint make_mounts (l : list (string * string * Z * option string)) : K bool :=
  match l with
  | [] => mret true
  | (path, type, flags, data) :: l =>
      ok ← make_mount path type flags data;
      if (ok : bool) then make_mounts l else mret false
  end.

(** [cgroup]: the build has ENABLE_CGROUP. *)
Definition crinitSetupSystemFs (cgroup : bool) : K Z :=
  umask 0 ;;
  ok ← make_mounts system_mounts;
  if negb ok then mret (-1) else
  ok ← (if cgroup then mount_cgroup else mret true);
  if negb ok then mret (-1) else
  umask 18 ;; mret 0.

(** ** What is mounted *)

(** The mounts only grow; the rest of the process stays, apart from the umask. *)
Definition grown (k k' : kernel) : Prop :=
  (∃ l, kn_mounts k' = kn_mounts k ++ l) ∧ kn_dirs k ⊆ kn_dirs k' ∧ kn_pid k' = kn_pid k ∧
  kn_subreaper k' = kn_subreaper k ∧ kn_reaper k' = kn_reaper k.

#[export] Instance grown_preorder : PreOrder grown.
Proof.
  split.
  - intros k. split; [exists []; by rewrite app_nil_r|done].
  - intros k1 k2 k3 ([l1 E1] & D1 & P1 & S1 & R1) ([l2 E2] & D2 & P2 & S2 & R2).
    split; [exists (l1 ++ l2); by rewrite E2, E1, app_assoc|]. split; [set_solver|]. by rewrite P2, S2, R2.
Qed.

Lemma mounted_grown t ty k k' : grown k k' → mounted t ty k = true → mounted t ty k' = true.
Proof. intros ([l E] & _) Hm. unfold mounted in *. rewrite E, existsb_app, Hm. done. Qed.

Lemma grown_faults l k : grown k (set_faults l k).
Proof. split; [exists []; by rewrite app_nil_r|done]. Qed.

Lemma mount_spec t ty fl d k :
  wp (mount t ty fl d)
    (λ e k', grown k k' ∧ kn_umask k' = kn_umask k ∧
       (e = EOK ∨ e = EBUSY → mounted t ty k' = true) ∧ (mounted t ty k = true → e = EBUSY ∧ k' = k)) k.
Proof.
  unfold mount. apply wp_bind, wp_get. destruct (mounted t ty k) eqn:E.
  { apply wp_ret. split_and!; try done. }
  apply wp_bind, wp_fallible. intros [] l.
  { apply wp_ret. split_and!; [apply grown_faults|done|by intros [|]|done]. }
  apply wp_bind, wp_modify, wp_ret. split_and!; [|done| |done].
  - split; [by eexists|done].
  - intros _. unfold mounted. simpl. rewrite existsb_app. simpl. rewrite bool_decide_true by done. by rewrite orb_true_r.
Qed.

Lemma mkdir_spec p k :
  wp (mkdir p)
    (λ e k', grown k k' ∧ kn_umask k' = kn_umask k ∧ (e = EOK ∨ e = EEXIST → p ∈ kn_dirs k') ∧
       (p ∈ kn_dirs k → e = EEXIST ∧ k' = k)) k.
Proof.
  unfold mkdir. apply wp_bind, wp_get. case_bool_decide as Hin.
  { apply wp_ret. split_and!; done. }
  apply wp_bind, wp_fallible. intros [] l.
  { apply wp_ret. split_and!; [apply grown_faults|done|by intros [|]|done]. }
  apply wp_bind, wp_modify, wp_ret. split_and!; [|done|set_solver|done].
  split; [exists []; by rewrite app_nil_r|]. simpl. split; [set_solver|done].
Qed.

(** The directory and the mount are there. *)
Definition present (k : kernel) (m : string * string) : Prop := m.1 ∈ kn_dirs k ∧ mounted m.1 m.2 k = true.

Lemma present_grown k k' m : grown k k' → present k m → present k' m.
Proof. intros Hg [Hd Hm]. split; [destruct Hg as (_ & Hs & _); set_solver|by eapply mounted_grown]. Qed.

Lemma make_mount_spec p ty fl d k :
  wp (make_mount p ty fl d)
    (λ ok k', grown k k' ∧ kn_umask k' = kn_umask k ∧ (ok = true → present k' (p, ty)) ∧
       (present k (p, ty) → ok = true ∧ k' = k)) k.
Proof.
  unfold make_mount. apply wp_bind. eapply wp_mono; [|apply mkdir_spec]. intros e k1 (Hg & Hu & Hd & Hsame).
  destruct (decide (e = EOK ∨ e = EEXIST)) as [He|He].
  2:{ rewrite !bool_decide_false by tauto. apply wp_ret. split_and!; try done. intros [Hin _]. destruct (Hsame Hin). tauto. }
  replace (negb _) with false by (destruct He as [-> | ->]; done).
  apply wp_bind. eapply wp_mono; [|apply mount_spec]. intros e' k2 (Hg2 & Hu2 & Hm & Hsame2). apply wp_ret.
  split_and!; [by transitivity k1|by rewrite Hu2| |].
  - intros Hok. assert (e' = EOK ∨ e' = EBUSY) as He' by (destruct e'; by auto). split; [|by apply Hm].
    simpl. destruct Hg2 as (_ & Hs & _). specialize (Hd He). set_solver.
  - intros [Hin Hmt]. destruct (Hsame Hin) as [-> ->]. by destruct (Hsame2 Hmt) as [-> ->].
Qed.

Lemma make_mounts_spec l k :
  wp (make_mounts l)
    (λ ok k', grown k k' ∧ kn_umask k' = kn_umask k ∧ (ok = true → Forall (λ e, present k' (e.1.1)) l) ∧
       (Forall (λ e, present k (e.1.1)) l → ok = true ∧ k' = k)) k.
Proof.
  revert k. induction l as [|[[[p ty] fl] d] l IH]; intros k; simpl.
  { apply wp_ret. split_and!; try done. }
  apply wp_bind. eapply wp_mono; [|apply make_mount_spec]. intros ok k1 (Hg & Hu & Hp & Hsame). destruct ok.
  - eapply wp_mono; [|apply IH]. intros ok k2 (Hg2 & Hu2 & Hp2 & Hsame2).
    split_and!; [by transitivity k1|by rewrite Hu2| |].
    + intros ->. constructor; [|by apply Hp2]. eapply present_grown; [exact Hg2|by apply Hp].
    + intros [Hh Ht]%Forall_cons. destruct (Hsame Hh) as [_ ->]. by apply Hsame2.
  - apply wp_ret. split_and!; try done. intros [Hh Ht]%Forall_cons. by destruct (Hsame Hh).
Qed.

Lemma mount_cgroup_spec k :
  wp mount_cgroup
    (λ ok k', grown k k' ∧ kn_umask k' = kn_umask k ∧ (ok = true → mounted CRINIT_CGROUP_PATH "cgroup2" k' = true) ∧
       (mounted CRINIT_CGROUP_PATH "cgroup2" k = true → ok = true ∧ k' = k)) k.
Proof.
  unfold mount_cgroup. apply wp_bind. eapply wp_mono; [|apply mount_spec]. intros e k1 (Hg1 & Hu1 & Hm1 & Hs1).
  destruct (decide (e = EOK ∨ e = EBUSY)) as [He|He].
  { replace (_ || _) with true by (by destruct He as [-> | ->]). apply wp_ret. split_and!; [done|done|tauto|].
    intros Hm. by destruct (Hs1 Hm). }
  replace (_ || _) with false by (destruct e; tauto || done).
  apply wp_bind. eapply wp_mono; [|apply mount_spec]. intros e2 k2 (Hg2 & Hu2 & Hm2 & Hs2).
  assert (mounted CRINIT_CGROUP_PATH "cgroup2" k = true → False) as Hnot by (intros Hm; destruct (Hs1 Hm); tauto).
  assert (grown k k2) as Hg12 by (by transitivity k1).
  destruct (decide (e2 = EOK ∨ e2 = EBUSY)) as [He2|He2].
  { replace (_ || _) with true by (by destruct He2 as [-> | ->]). apply wp_ret. split_and!; [done|congruence|tauto|tauto]. }
  replace (_ || _) with false by (destruct e2; tauto || done).
  apply wp_bind. eapply wp_mono; [|apply mount_spec]. intros e3 k3 (Hg3 & Hu3 & Hm3 & _). apply wp_ret.
  split_and!; [by transitivity k2|congruence| |tauto]. intros Hok. apply Hm3. destruct e3; by auto.
Qed.

Definition wanted_mounts : list (string * string) := (λ e, e.1.1) <$> system_mounts.

(** The file systems that crinit needs are there, or it does not start: after a
    successful set-up every directory exists with its mount, the umask is 022, and
    nothing was unmounted; on a system that has all of them nothing is mounted. *)
Theorem crinitSetupSystemFs_mounts cg k :
  wp (crinitSetupSystemFs cg)
    (λ r k', grown k k' ∧
       (r = 0 → Forall (present k') wanted_mounts ∧ kn_umask k' = 18 ∧
          (cg = true → mounted CRINIT_CGROUP_PATH "cgroup2" k' = true)) ∧
       (Forall (present k) wanted_mounts → (cg = true → mounted CRINIT_CGROUP_PATH "cgroup2" k = true) →
          r = 0 ∧ k' = set_umask 18 k)) k.
Proof.
  unfold crinitSetupSystemFs. apply wp_bind, wp_modify. apply wp_bind. eapply wp_mono; [|apply make_mounts_spec].
  intros ok k1 (Hg1 & Hu1 & Hp1 & Hs1). assert (∀ v j, grown j (set_umask v j)) as Hum.
  { intros v j. split; [exists []; by rewrite app_nil_r|done]. }
  assert (grown k k1) as Hgk1 by (by transitivity (set_umask 0 k)).
  assert (∀ P, Forall (λ e, P (e.1.1)) system_mounts ↔ Forall P wanted_mounts) as Hw.
  { intros P. unfold wanted_mounts. by rewrite Forall_fmap. }
  assert (Forall (present k) wanted_mounts → ok = true ∧ k1 = set_umask 0 k) as Hsame.
  { intros Hall. apply Hs1. by apply (Hw (present (set_umask 0 k))). }
  destruct ok; cbn [negb].
  2:{ apply wp_ret. split_and!; [done|done|]. intros Hall. by destruct (Hsame Hall). }
  apply wp_bind. apply (wp_mono _ (λ ok k2, grown k1 k2 ∧ (ok = true → cg = true → mounted CRINIT_CGROUP_PATH "cgroup2" k2 = true) ∧
    ((cg = true → mounted CRINIT_CGROUP_PATH "cgroup2" k1 = true) → ok = true ∧ k2 = k1))).
  - intros ok k2 (Hg2 & Hm2 & Hs2).
    assert (grown k k2) as Hgk2 by (by transitivity k1).
    destruct ok; cbn [negb].
    + apply wp_bind, wp_modify, wp_ret. split_and!; [by transitivity k2| |].
      * intros _. split; [|split; [done|]].
        -- apply (Hw (present (set_umask 18 k2))). eapply Forall_impl; [by apply Hp1|]. intros e He.
           eapply present_grown; [|exact He]. by transitivity k2.
        -- intros Hc. by apply Hm2.
      * intros Hall Hc. destruct (Hsame Hall) as [_ E1]. split; [done|]. destruct Hs2 as [_ E2]; [by rewrite E1|].
        rewrite E2, E1. by destruct k.
    + apply wp_ret. split_and!; [done|done|]. intros Hall Hc. destruct (Hsame Hall) as [_ E1].
      destruct Hs2 as [? _]; [by rewrite E1|done].
  - destruct cg.
    + eapply wp_mono; [|apply mount_cgroup_spec]. intros ok k2 (Hg & _ & Hm & Hs). split_and!; [done|auto|auto].
    + apply wp_ret. split_and!; done.
Qed.
