(* ===== verification/Boot.v ===== *)
(** * The program: src/crinit.c

    main() up to its loop: options, mounts, the kernel command line, signatures, the
    series file, the tasks, the threads.  The machine is the server of NotiServ and the
    kernel of MinSetup. *)

From Stdlib Require Import ZArith Lia Bool List String Ascii.
From stdpp Require Import base functions list strings gmap.
From S2P Require Import Prelude CString EnvSet Timer Task TaskDB TimerDB Lexers ConfConv Ini GlobOpt Cgroup ConfParse ConfTask ConfGlob.
From S2P Require Import FSeries RtimMsg RtimExec ThrPool SockCom NotiServ CgroupFs Launch MinSetup Sig.

Open Scope Z_scope.
Open Scope crinit_scope.

#[local] Arguments String.append : simpl nomatch.

(** ** State *)

(** [ma_timer]: the thread of the timer pool runs. *)
Record machine {B C : Type} := mkMachine { ma_sv : server B C; ma_kernel : kernel; ma_timer : bool }.
Arguments machine : clear implicits.
Arguments mkMachine {B C}.

Section Parts.
Context {B C : Type}.

Definition conf (s : machine B C) : C := dm_conf (sv_dm (ma_sv s)).
Definition db (s : machine B C) : B := dm_db (sv_dm (ma_sv s)).
Definition put_conf (c : C) (s : machine B C) : machine B C :=
  mkMachine (set_sv_dm (set_dm_conf c (sv_dm (ma_sv s))) (ma_sv s)) (ma_kernel s) (ma_timer s).
Definition put_db (b : B) (s : machine B C) : machine B C :=
  mkMachine (set_sv_dm (set_dm_db b (sv_dm (ma_sv s))) (ma_sv s)) (ma_kernel s) (ma_timer s).

Definition at_server {A} (m : M (server B C) A) : M (machine B C) A := λ s,
  match m (ma_sv s) with Ret a v => Ret a (mkMachine v (ma_kernel s) (ma_timer s)) | Block => Block | Undef => Undef end.
Definition at_kernel {A} (m : M kernel A) : M (machine B C) A := λ s,
  match m (ma_kernel s) with Ret a k => Ret a (mkMachine (ma_sv s) k (ma_timer s)) | Block => Block | Undef => Undef end.
Definition at_conf {A} (m : M C A) : M (machine B C) A := λ s,
  match m (conf s) with Ret a c => Ret a (put_conf c s) | Block => Block | Undef => Undef end.
Definition at_db {A} (m : M B A) : M (machine B C) A := λ s,
  match m (db s) with Ret a b => Ret a (put_db b s) | Block => Block | Undef => Undef end.
End Parts.

(** ** Options of the command line *)

(** A long option with a flag has a character of its own here. *)
Definition main_options : list long_option :=
  [mkLong "help" no_argument "h"; mkLong "version" no_argument "V";
   mkLong "child-subreaper" no_argument "1"; mkLong "no-child-subreaper" no_argument "0";
   mkLong "sys-mounts" no_argument "M"; mkLong "no-sys-mounts" no_argument "m";
   mkLong "use-kmsg" no_argument "K"; mkLong "no-use-kmsg" no_argument "k"].

Definition SUBREAPER_FLAG_UNCHANGED : Z := -1.
Definition SUBREAPER_FLAG_RESET : Z := 0.
Definition SUBREAPER_FLAG_SET : Z := 1.

Record main_flags := mkFlags { mf_subReaper : Z; mf_sysMounts : bool; mf_useKmsg : bool }.

(** [None] ends the program. *)
Definition main_option (c : ascii) (f : main_flags) : option main_flags :=
  if is_char c "1" then Some (mkFlags SUBREAPER_FLAG_SET (mf_sysMounts f) (mf_useKmsg f))
  else if is_char c "0" then Some (mkFlags SUBREAPER_FLAG_RESET (mf_sysMounts f) (mf_useKmsg f))
  else if is_char c "M" then Some (mkFlags (mf_subReaper f) true (mf_useKmsg f))
  else if is_char c "m" then Some (mkFlags (mf_subReaper f) false (mf_useKmsg f))
  else if is_char c "K" then Some (mkFlags (mf_subReaper f) (mf_sysMounts f) true)
  else if is_char c "k" then Some (mkFlags (mf_subReaper f) (mf_sysMounts f) false)
  else None.  (* -V, -h *)

(** Every call of getopt_long() takes a character or a word: the fuel is the number of
    both. *)
Fixpoint main_options_loop (fuel : nat) (posix : bool) (st : getopt_state) (f : main_flags) : option (main_flags * list string) :=
  match fuel with
  | O => None
  | Datatypes.S fuel =>
      match getopt_long posix "hV" main_options st with
      | (OptEnd, st) => Some (f, go_rest st)
      | (Opt c _, st) => f ← main_option c f; main_options_loop fuel posix st f
      | (OptBad, _) => None
      end
  end.

Definition main_fuel (args : list string) : nat := Datatypes.S (words_size args).

(** ** Start-up *)

(** The build and the environment. *)
Class BootEnv := {
  ENABLE_CGROUP : bool;
  POSIXLY_CORRECT : bool;
  CRINIT_DEFAULT_CONFIG_SERIES : string;
  CRINIT_DEFAULT_USE_KMSG : bool;
  glob_defaults : defaults;
  dir_present : string → bool;
  sock_dir : string;  (* dirname() of CRINIT_SOCK, or of CRINIT_SOCKFILE *)
}.

Inductive boot_result := ExitFailure | Running.
#[export] Instance boot_result_eq : EqDecision boot_result.
Proof. solve_decision. Defined.

Definition CRINIT_SIGNATURE_DEFAULT_ROOT_KEY_DESC : string := "crinit-root".
Definition CRINIT_KCMDLINE_PATH_DEFAULT : string := "/proc/cmdline".
Definition CRINIT_TASKDB_INITIAL_SIZE : Z := 256.

Section Main.
Context {B C pk : Type} `{TaskDBServices B} `{!Faulty C, !OptState C, !ConfFiles C, !TimerState C, !ConfEnv C, !SeriesEnv C}.
Context `{!DirEnv C, !FeatureServices C, !CgState C} `{!Mbedtls pk, !SigState C pk} `{!BootEnv}.
Notation Ma := (machine B C).

(** crinitTimerDBSpawn() of src/timerdb.c: the result of pthread_create() is not
    looked at. *)
Definition crinitTimerDBSpawn : M Ma Z :=
  err ← at_conf TimerDB.lock_pool;
  if negb (err =? 0) then mret (-1) else
  at_conf TimerDB.unlock_pool ;;
  err ← at_conf fallible;
  mmodify (λ s, mkMachine (ma_sv s) (ma_kernel s) (negb err)) ;;
  mret 0.

(** The process that reaps zombies, if this is PID 1 or a subreaper. *)
Definition main_reaper (subReaper : Z) (isPidOne : bool) : M kernel bool :=
  '(ok, subReaper) ← (if negb (subReaper =? SUBREAPER_FLAG_UNCHANGED) then
                        err ← fallible;  (* PR_SET_CHILD_SUBREAPER *)
                        if (err : bool) then mret (false, subReaper) else
                        mmodify (set_subreaper subReaper) ;; mret (true, subReaper)
                      else if negb isPidOne then
                        err ← fallible;  (* PR_GET_CHILD_SUBREAPER *)
                        k ← mget;
                        mret (true, if (err : bool) then subReaper else kn_subreaper k)
                      else mret (true, subReaper));
  if negb ok then mret false else
  if isPidOne || negb (subReaper =? SUBREAPER_FLAG_RESET) then
    r ← crinitForkZombieReaper; mret (negb (r =? -1))
  else mret true.

(** The keys, if signatures are required: whether it worked, and if the subsystem is
    initialised. *)
Definition main_signatures (signatures : bool) : M C (bool * bool) :=
  if negb signatures then mret (true, false) else
  if negb SIGNATURE_SUPPORT then mret (false, false) else
  r ← crinitSigSubsysInit CRINIT_SIGNATURE_DEFAULT_ROOT_KEY_DESC;
  if r =? -1 then mret (false, false) else
  sigKeyDir ← crinitGlobOptGetString SIGKEYDIR;
  match sigKeyDir with
  | None => mret (false, true)
  | Some _ => r ← crinitLoadAndVerifySignedKeys sigKeyDir; mret (negb (r =? -1), true)
  end.

(** The loop over the task files: [false] on failure. *)
Fixpoint main_tasks (base : option string) (fnames : list (option string)) : M Ma bool :=
  match fnames with
  | [] => mret true
  | None :: _ => mundef
  | Some fname :: fnames =>
      confFn ← (if crinitIsAbsPath fname then mret (Some fname) else
                  match base with
                  | None => mundef
                  | Some base =>
                      oom ← at_db fallible;
                      mret (if (oom : bool) then None else Some (base +:+ "/" +:+ fname)%string)
                  end);
      match confFn with
      | None => mret false
      | Some confFn =>
          c ← at_conf (crinitParseConf confFn);
          match c with
          | None => mret false
          | Some c =>
              t ← at_conf (crinitTaskCreateFromConfKvList 1 c);
              match t with
              | None => mret false
              | Some t =>
                  '(r, stop_freed) ← at_db (crinitTaskDBInsert t false);
                  (if (stop_freed : bool) then mundef else at_db (crinitDestroyTask t)) ;;
                  if r =? -1 then mret false else main_tasks base fnames
              end
          end
      end
  end.

(** failFreeSigs and failFreeGlobOpts, failFreeTaskDB. *)
Definition fail_sigs (live : bool) : M Ma boot_result :=
  at_conf (if live then crinitSigSubsysDestroy else mret tt) ;;
  at_conf crinitGlobOptDestroy ;;
  mret ExitFailure.
Definition fail_db (live : bool) : M Ma boot_result := _ ← at_db crinitTaskDBDestroy; fail_sigs live.

(** From the series file on.  The results of the initialisations of the task database
    and of the timers are not looked at. *)
Definition main_load (live : bool) (seriesFname : string) : M Ma boot_result :=
  r ← at_conf (crinitLoadSeriesConf seriesFname);
  if r =? -1 then fail_sigs live else
  r ← at_conf (GlobOpt.crinitFeatureHook None CRINIT_HOOK_INIT HookDB);  (* the data is not used *)
  if r =? -1 then fail_sigs live else
  r ← (if ENABLE_CGROUP then at_conf crinitCreateGlobalCGroups else mret 0);
  if negb (r =? 0) then fail_sigs live else
  taskSeries ← at_conf crinitLoadTasks;
  match taskSeries with
  | None => fail_sigs live
  | Some taskSeries =>
      _ ← at_db (crinitTaskDBInitWithSize CRINIT_TASKDB_INITIAL_SIZE);
      _ ← at_conf crinitTimerDBInit;
      ok ← main_tasks (baseDir taskSeries) (fnames taskSeries);
      if negb ok then fail_db live else
      r ← crinitTimerDBSpawn;
      if negb (r =? 0) then fail_db live else
      r ← at_server (crinitStartInterfaceServer dir_present sock_dir);
      if r =? -1 then fail_db live else
      mret Running
  end.

(** With the options read: [Running] when the loop is reached. *)
Definition main_boot (f : main_flags) (isPidOne : bool) (seriesFname : string) : M Ma boot_result :=
  r ← (if mf_sysMounts f then at_kernel crinitMountDevtmpfs else mret 0);
  if negb (r =? 0) then mret ExitFailure else
  ok ← at_kernel (main_reaper (mf_subReaper f) isPidOne);
  if negb ok then mret ExitFailure else
  r ← (if mf_sysMounts f then at_kernel (crinitSetupSystemFs ENABLE_CGROUP) else mret 0);
  if r =? -1 then mret ExitFailure else
  r ← at_conf (crinitGlobOptInitDefault glob_defaults);
  if r =? -1 then mret ExitFailure else
  r ← at_conf (crinitKernelCmdlineParse CRINIT_KCMDLINE_PATH_DEFAULT);
  if r =? -1 then fail_sigs false else
  signatures ← at_conf (crinitGlobOptGetBoolean SIGNATURES);
  '(ok, live) ← at_conf (main_signatures signatures);
  if negb ok then fail_sigs live else
  main_load live seriesFname.

Definition crinit_main (args : list string) : M Ma boot_result :=
  s ← mget;
  let isPidOne := kn_pid (ma_kernel s) =? 1 in
  match main_options_loop (main_fuel args) POSIXLY_CORRECT (mkGetopt EmptyString args [])
          (mkFlags SUBREAPER_FLAG_UNCHANGED isPidOne CRINIT_DEFAULT_USE_KMSG) with
  | None => mret ExitFailure
  | Some (f, []) => main_boot f isPidOne CRINIT_DEFAULT_CONFIG_SERIES
  | Some (f, file :: _) => if negb (crinitIsAbsPath file) then mret ExitFailure else main_boot f isPidOne file
  end.
End Main.
