(* ===== verification/BootProps.v ===== *)
(** * Start-up: what crinit runs with

    With signatures required, every task of the running system comes from a file that
    was signed; and what the loop of main() misses. *)

From Stdlib Require Import ZArith Lia Bool List String Ascii.
From stdpp Require Import base functions list strings gmap.
From S2P Require Import Prelude CString EnvSet Timer Task TaskDB TaskDBSpec TimerDB Lexers ConfConv Ini GlobOpt Cgroup ConfParse ConfTask.
From S2P Require Import ConfGlob FSeries RtimMsg RtimExec ThrPool SockCom NotiServ CgroupFs Launch LaunchProps MinSetup.
From S2P Require Import ConfFrame Sig SigProps SigConf Boot.

Open Scope Z_scope.
Open Scope crinit_scope.

#[local] Arguments String.append : simpl nomatch.

(** ** Options *)

(** The fuel of the loop over the options is enough: more does not change it. *)
Lemma main_options_fuel posix n m st f :
  (getopt_size st < n)%nat → (getopt_size st < m)%nat → main_options_loop n posix st f = main_options_loop m posix st f.
Proof.
  revert m st f. induction n as [|n IH]; intros [|m] st f Hn Hm; try lia. cbn [main_options_loop].
  pose proof (getopt_progress posix "hV" main_options st) as Hp.
  destruct (getopt_long posix "hV" main_options st) as [[] st']; [done| |done].
  destruct (main_option c f) as [f'|]; [|done]. cbn. apply IH; lia.
Qed.

(** ** The parts of the machine *)

Section Parts.
Context {B C : Type}.
Implicit Types s : machine B C.

Lemma conf_put_conf c s : conf (put_conf c s) = c.
Proof. done. Qed.
Lemma db_put_conf c s : db (put_conf c s) = db s.
Proof. done. Qed.
Lemma conf_put_db b s : conf (put_db b s) = conf s.
Proof. done. Qed.
Lemma db_put_db b s : db (put_db b s) = b.
Proof. done. Qed.

Lemma wlp_conf {A} (m : M C A) Q s : wlp m (λ a c, Q a (put_conf c s)) (conf s) → wlp (at_conf m) Q s.
Proof. unfold wlp, at_conf. by destruct (m (conf s)). Qed.
Lemma wlp_db {A} (m : M B A) Q s : wlp m (λ a b, Q a (put_db b s)) (db s) → wlp (at_db m) Q s.
Proof. unfold wlp, at_db. by destruct (m (db s)). Qed.
Lemma wlp_kernel {A} (m : M kernel A) (Q : A → machine B C → Prop) s :
  (∀ a k, Q a (mkMachine (ma_sv s) k (ma_timer s))) → wlp (at_kernel m) Q s.
Proof. intros HQ. unfold wlp, at_kernel. by destruct (m (ma_kernel s)). Qed.
End Parts.

(** ** The copy of a task *)

(** What decides which programs run, and as whom. *)
Definition same_commands (t t' : crinitTask) : Prop :=
  t_name t' = t_name t ∧ t_cmds t' = t_cmds t ∧ t_stopCmds t' = t_stopCmds t ∧ t_user t' = t_user t ∧
  t_group t' = t_group t ∧ t_capabilitiesSet t' = t_capabilitiesSet t ∧ t_capabilitiesClear t' = t_capabilitiesClear t.

Section Copies.
Context {S : Type} `{CgroupQuery S}.
Implicit Types s : S.

Lemma dup_same {A} (a : A) s : wlp (dup a) (λ r _, ∀ a', r = Some a' → a' = a) s.
Proof. unfold dup. apply wlp_bind_any. intros [] s'; apply wlp_ret; naive_solver. Qed.

Lemma copy_each_same {A} (copy : A → M S (option A)) l s :
  (∀ x s, wlp (copy x) (λ r _, ∀ x', r = Some x' → x' = x) s) → wlp (copy_each copy l) (λ r _, ∀ l', r = Some l' → l' = l) s.
Proof.
  intros Hc. revert s. induction l as [|x l IH]; intros s; simpl; [apply wlp_ret; naive_solver|].
  apply wlp_bind. eapply wlp_mono; [|apply Hc]. intros [y|] s1 Hy; [|by apply wlp_ret].
  apply wlp_bind. eapply wlp_mono; [|apply IH]. intros [ys|] s2 Hys; apply wlp_ret; [|done].
  intros l' [= <-]. f_equal; [by apply Hy|by apply Hys].
Qed.

Lemma copy_cmds_same cmds s : wlp (crinitCopyCommandBlock cmds) (λ r _, ∀ l, r.1 = Some l → l = cmds) s.
Proof.
  unfold crinitCopyCommandBlock. apply wlp_bind. apply (wlp_mono _ (λ r _, ∀ l, r = Some l → l = cmds)).
  { intros r s' Hr. by apply wlp_ret. }
  unfold copy_array. destruct cmds as [|c cmds]; [apply wlp_ret; naive_solver|].
  apply wlp_bind_any. intros [] s1; [by apply wlp_ret|]. apply copy_each_same. intros x s2. unfold copy_cmd.
  case_if; [by apply wlp_ret|]. apply wlp_bind_any. intros [] s3; [by apply wlp_ret|].
  apply wlp_bind. eapply wlp_mono; [|apply dup_same]. intros [b|] s4 Hb; apply wlp_ret; [|done].
  intros x' [= <-]. rewrite (Hb b) by done. by destruct x.
Qed.

Lemma copy_rest_same orig name cmds stop s :
  wlp (copy_rest orig name cmds stop)
    (λ r _, ∀ t, r = Some t → t_name t = name ∧ t_cmds t = cmds ∧ t_stopCmds t = stop ∧ t_user t = t_user orig ∧
       t_group t = t_group orig ∧ t_capabilitiesSet t = t_capabilitiesSet orig ∧ t_capabilitiesClear t = t_capabilitiesClear orig) s.
Proof.
  unfold copy_rest. do 10 (apply wlp_bind_any; intros [?|] ?; [|by apply wlp_ret]). apply wlp_ret. by intros t [= <-].
Qed.

Lemma copy_commands t s : wlp (crinitTaskCopy t) (λ r _, ∀ t', r = Copied t' → same_commands t t') s.
Proof.
  unfold crinitTaskCopy. apply wlp_bind. eapply wlp_mono; [|apply dup_same]. intros [name|] s1 Hn; [|by apply wlp_ret].
  specialize (Hn name eq_refl) as ->.
  apply wlp_bind. eapply wlp_mono; [|apply copy_cmds_same]. intros [[cmds|] rep] s2 Hc; [|by apply wlp_ret].
  specialize (Hc cmds eq_refl) as ->.
  apply wlp_bind. eapply wlp_mono; [|apply copy_cmds_same]. intros [[stop|] rep2] s3 Hst; [|by apply wlp_ret].
  specialize (Hst stop eq_refl) as ->.
  apply wlp_bind. eapply wlp_mono; [|apply copy_rest_same]. intros [t'|] s4 Ht; apply wlp_ret; [|done].
  intros t'' [= <-]. by apply Ht.
Qed.
End Copies.

(** ** What an insertion adds to the database *)

Section Insert.
Context {S : Type} `{TaskDBServices S}.
Implicit Types s : S.

Definition slots_all (P : crinitTask → Prop) (d : crinitTaskDB) : Prop :=
  Forall (λ sl, sl_mem sl = Live → P (sl_task sl)) (taskSet d).

(** From an idle state the call leaves the database alone. *)
Definition db_step (s s' : S) : Prop := idle s → idle s' ∧ get_db s' = get_db s.
#[global] Instance db_step_preorder : PreOrder db_step.
Proof.
  split; [by intros s|]. intros s1 s2 s3 H12 H23 Hi. destruct (H12 Hi) as [Hi2 E2]. destruct (H23 Hi2) as [Hi3 E3].
  split; [done|congruence].
Qed.
Lemma db_step_faults l s : db_step s (set_faults l s).
Proof. intros Hi. split; [by apply idle_set|apply db_faults]. Qed.
Lemma db_step_query name : Keeps db_step (Task.crinitCgroupNameIsGlobalCgroup name).
Proof.
  intros s. unfold wlp. destruct (Task.crinitCgroupNameIsGlobalCgroup name s) as [r s'| |] eqn:E; [|done..]. intros Hi.
  pose proof (cgroup_query_total name s Hi) as Hq. unfold wp in Hq. rewrite E in Hq. destruct Hq as [[l ->] _].
  by apply db_step_faults.
Qed.
#[local] Hint Resolve db_step_faults db_step_query : keeps.

Lemma db_step_dup {A} (a : A) : Keeps db_step (dup a).
Proof. unfold dup. keep. Qed.
#[local] Hint Resolve db_step_dup : keeps.
Lemma db_step_each {A} (copy : A → M S (option A)) l : (∀ x, Keeps db_step (copy x)) → Keeps db_step (copy_each copy l).
Proof. intros Hc. induction l as [|x l IH]; simpl; keep. Qed.
Lemma db_step_array {A} (copy : A → M S (option A)) l : (∀ x, Keeps db_step (copy x)) → Keeps db_step (copy_array copy l).
Proof. intros Hc. pose proof (@db_step_each A copy). unfold copy_array. keep. Qed.
Lemma db_step_env es : Keeps db_step (copy_env es).
Proof.
  assert (∀ c, Keeps db_step (crinitEnvSetDestroy c)) as Hd by (intros c; unfold crinitEnvSetDestroy; keep).
  assert (∀ src i c, Keeps db_step (crinitEnvSetDupLoop src i c)) as Hl.
  { induction src as [|[e|] src IH]; intros i c; simpl; keep. }
  unfold copy_env, crinitEnvSetDup, crinitEnvSetInit. keep.
Qed.
Lemma db_step_cgroup g : Keeps db_step (copy_cgroup g).
Proof.
  assert (∀ l, Keeps db_step (copy_array crinitCopyCgroupParam l)) as Hp.
  { intros l. apply db_step_array. intros x. unfold crinitCopyCgroupParam. keep. }
  unfold copy_cgroup, crinitCopyCgroup, crinitCopyCgroupConfiguration. keep.
Qed.
Lemma db_step_copy t : Keeps db_step (crinitTaskCopy t).
Proof.
  pose proof db_step_env. pose proof db_step_cgroup.
  assert (∀ l, Keeps db_step (copy_array copy_cmd l)) as Hc by (intros l; apply db_step_array; intros x; unfold copy_cmd; keep).
  assert (∀ l, Keeps db_step (copy_array copy_dep l)) as Hd by (intros l; apply db_step_array; intros x; unfold copy_dep; keep).
  assert (∀ l, Keeps db_step (copy_array copy_prv l)) as Hp by (intros l; apply db_step_array; intros x; unfold copy_prv; keep).
  assert (∀ l, Keeps db_step (copy_array crinitIoRedirCpy l)) as Hr
    by (intros l; apply db_step_array; intros x; unfold crinitIoRedirCpy; keep).
  unfold crinitTaskCopy, crinitCopyCommandBlock, copy_rest, copy_opt_string. keep.
Qed.
Lemma db_step_destroy t : Keeps db_step (crinitDestroyTask t).
Proof. unfold crinitDestroyTask. keep. Qed.

Lemma wlp_step {A} (m : M S A) Q s :
  Keeps db_step m → idle s → (∀ a s', idle s' → get_db s' = get_db s → Q a s') → wlp m Q s.
Proof. intros Hm Hi HQ. eapply keeps_intro; [exact Hm|]. intros a s' Hs. destruct (Hs Hi) as [Hi' E]. by apply HQ. Qed.

Lemma wlp_modify_slots f (Q : unit → S → Prop) s :
  idle s → (∀ s', idle s' → get_db s' = f (get_db s) → Q tt s') → wlp (mdb_modify f) Q s.
Proof. intros Hi HQ. apply HQ; [by apply idle_db|apply get_set_db]. Qed.

Lemma find_slot_step name i l : Keeps db_step (find_slot name i l).
Proof. revert i. induction l as [|sl l IH]; intros i; simpl; keep. Qed.

Lemma unlock_slots s Q :
  idle s → (∀ s', idle s' → taskSet (get_db s') = taskSet (get_db s) → Q s') → wlp unlock_db (λ _, Q) s.
Proof.
  intros Hi HQ. unfold unlock_db. apply wlp_bind. unfold mdb, wlp at 1. case_if; [|done].
  apply wlp_bind, wlp_modify_slots; [done|]. intros s' Hi' E. apply wlp_ret, HQ; [done|by rewrite E].
Qed.

(** Filling the slot at an index. *)
Lemma fill_slots P t i s :
  idle s → (∀ t', same_commands t t' → P t') → slots_all P (get_db s) →
  wlp (r ← crinitTaskCopy t;
       match r with
       | CopyFailed name_set stop_freed =>
           mdb_modify (set_slot i (mkSlot (if name_set || stop_freed then Dangling else Cleared) t)) ;;
           unlock_db ;; mret (-1, stop_freed)
       | Copied t' =>
           mdb_modify (set_slot i (mkSlot Live t')) ;;
           _ ← crinitElosLog ELOS_SEVERITY_INFO ELOS_MSG_CODE_FILE_OPENED ELOS_CLASSIFICATION_PROCESS (t_name t');
           d ← mdb;
           rc ← TaskDB.crinitFeatureHook None CRINIT_HOOK_TASK_ADDED (HookTask (gen d, i));
           if rc =? -1 then unlock_db ;; mret (-1, false) else
           broadcast ;; unlock_db ;; mret (0, false)
       end) (λ r s', r.1 ≠ -1 → idle s' ∧ slots_all P (get_db s')) s.
Proof.
  intros Hi HP Hall. apply wlp_bind.
  assert (wlp (crinitTaskCopy t) (λ r s', (∀ t', r = Copied t' → same_commands t t') ∧ idle s' ∧ get_db s' = get_db s) s) as Hcopy.
  { pose proof (copy_commands t s) as H1'. pose proof (db_step_copy t s) as H2'. unfold wlp in *.
    destruct (crinitTaskCopy t s); [|done..]. split; [done|by apply H2']. }
  eapply wlp_mono; [|exact Hcopy]. intros [t'|a b] s1 (Ht & Hi1 & E1).
  2:{ apply wlp_bind_any. intros _ s2. apply wlp_bind_any. intros _ s3. apply wlp_ret. done. }
  apply wlp_bind, wlp_modify_slots; [done|]. intros s2 Hi2 E2. rewrite E1 in E2.
  assert (slots_all P (get_db s2)) as Hall2.
  { rewrite E2. unfold slots_all, set_slot, set_taskSet. cbn [taskSet]. apply Forall_insert; [exact Hall|].
    intros _. by apply HP, Ht. }
  apply wlp_bind, wp_wlp, wp_elosLog; [done|]. intros r3 s3 Hf3 E3. apply wlp_bind. unfold mdb at 1, wlp at 1.
  apply wlp_bind, wp_wlp, wp_hook; [by apply Hf3|]. intros rc s4 E4 _ _ Hid4.
  destruct (Z.eqb_spec rc (-1)) as [->|Hrc]; [apply wlp_bind_any; intros _ s5; by apply wlp_ret|].
  apply wlp_bind, wlp_modify_slots; [by apply Hid4|]. intros s5 Hi5 E5.
  apply wlp_bind, unlock_slots; [done|]. intros s6 Hi6 E6. apply wlp_ret. intros _. split; [done|].
  unfold slots_all. rewrite E6, E5. unfold add_changed. simpl. rewrite E4, E3. exact Hall2.
Qed.

Lemma insert_slots P t s :
  idle s → (∀ t', same_commands t t' → P t') → slots_all P (get_db s) →
  wlp (crinitTaskDBInsert t false) (λ r s', r.1 ≠ -1 → idle s' ∧ slots_all P (get_db s')) s.
Proof.
  intros Hi HP Hall. unfold crinitTaskDBInsert, lock_db. apply wlp_bind, wlp_bind. unfold mdb at 1, wlp at 1.
  case_if; [done|]. apply wlp_bind. apply wlp_step; [keep|done|]. intros err s1 Hi1 E1.
  destruct err; [by apply wlp_ret, wlp_ret|]. case_if; [done|].
  apply wlp_bind, wlp_modify_slots; [done|]. intros s2 Hi2 E2. apply wlp_ret. simpl.
  assert (∀ s0 b, wlp (unlock_db ;; mret (-1, b)) (λ (r : Z * bool) s', r.1 ≠ -1 → idle s' ∧ slots_all P (get_db s')) s0) as Hfail.
  { intros s0 b. apply wlp_bind_any. intros _ s'. by apply wlp_ret. }
  apply wlp_bind. unfold crinitFindTask. apply wlp_bind. unfold mdb at 1, wlp at 1.
  apply wlp_step; [apply find_slot_step|done|]. intros found s3 Hi3 E3.
  destruct found as [i|]; [apply Hfail|]. cbn [bool_decide]. rewrite bool_decide_false by (by intros []). cbn [andb].
  apply wlp_bind, wlp_ret. unfold insert_slot. apply wlp_bind.
  assert (slots_all P (get_db s3)) as Hall3 by (rewrite E3, E2, E1; exact Hall).
  assert (∀ d, slots_all P d → slots_all P (push_slot (mkSlot Cleared t) d)) as Hpush.
  { intros d Hd. unfold slots_all, push_slot, set_taskSet. cbn [taskSet]. apply Forall_app. split; [exact Hd|].
    by repeat constructor. }
  apply (wlp_mono _ (λ o s', idle s' ∧ slots_all P (get_db s'))).
  - intros [i|] s4 [Hi4 Hall4]; [|apply Hfail]. by apply fill_slots.
  - apply wlp_bind. unfold mdb at 1, wlp at 1. case_if.
    + apply wlp_bind, wlp_step; [keep|done|]. intros oom s4 Hi4 E4. destruct oom; [apply wlp_ret; by rewrite E4|].
      apply wlp_bind, wlp_modify_slots; [done|]. intros s5 Hi5 E5. apply wlp_bind, wlp_modify_slots; [done|].
      intros s6 Hi6 E6. apply wlp_ret. split; [done|]. rewrite E6, E5, E4. apply Hpush. exact Hall3.
    + apply wlp_bind, wlp_modify_slots; [done|]. intros s4 Hi4 E4. apply wlp_ret. split; [done|]. rewrite E4. by apply Hpush.
Qed.
End Insert.

(** ** The configuration *)

(** The keys are apart from what the other components change. *)
Class SigApart (C pk : Type) `{SigState C pk} `{!TimerState C, !CgState C, !FeatureServices C} : Prop := {
  sig_pool : ∀ p (s : C), get_sig (TimerDB.set_pool p s) = get_sig s;
  opts_pool : ∀ p (s : C), get_opts (TimerDB.set_pool p s) = get_opts s;
  sig_cg : ∀ f (s : C), get_sig (set_cg f s) = get_sig s;
  opts_cg : ∀ f (s : C), get_opts (set_cg f s) = get_opts s;
  eloslog_guard : Keeps (same_guard (S := C) (pk := pk)) crinitEloslogInit;
}.

Section Guard.
Context {C pk : Type} `{!Faulty C, !OptState C, !ConfFiles C, !TimerState C, !ConfEnv C, !SeriesEnv C}.
Context `{!DirEnv C, !FeatureServices C, !CgState C} `{!Mbedtls pk, !SigState C pk, !SigLinked C pk, !SigApart C pk}.
Notation guard := (same_guard (S := C) (pk := pk)).
Implicit Types s : C.

#[global] Instance guard_framed : ConfFramed guard.
Proof.
  split.
  - apply _.
  - intros l s. apply guard_faults.
  - intros o s Ho. split; [apply sig_opts|by rewrite get_set_opts].
  - intros p s. split; [apply sig_pool|by rewrite opts_pool].
Qed.

Lemma guard_cg_modify f : Keeps guard (mcg_modify f).
Proof. intros s. split; [apply sig_cg|by rewrite opts_cg]. Qed.
Lemma guard_mcg : Keeps guard mcg.
Proof. intros s. unfold mcg, wlp. reflexivity. Qed.
Lemma guard_decisions l s : guard s (set_faults l s).
Proof. apply guard_faults. Qed.
Lemma guard_mopts_read : Keeps guard mopts.
Proof. intros s. unfold mopts, wlp. reflexivity. Qed.
#[local] Hint Resolve guard_cg_modify guard_mcg guard_decisions guard_mopts_read framed_borrow framed_remit guard_framed : keeps.
#[local] Hint Extern 1 (Keeps _ (mopts_modify _)) => refine (framed_modify _ _ _); by intros [] : keeps.

Lemma guard_new_fd path : Keeps guard (new_fd path).
Proof. unfold new_fd. keep. Qed.
#[local] Hint Resolve guard_new_fd : keeps.
Lemma guard_openat_dir fd n : Keeps guard (openat_dir fd n).
Proof. unfold openat_dir. keep. Qed.
Lemma guard_openat_file fd n : Keeps guard (openat_file fd n).
Proof. unfold openat_file. keep. Qed.
Lemma guard_write fd n : Keeps guard (write fd n).
Proof. unfold write. keep. Qed.
Lemma guard_mkdirat fd n : Keeps guard (mkdirat fd n).
Proof. unfold mkdirat. keep. Qed.
#[local] Hint Resolve guard_openat_dir guard_openat_file guard_write guard_mkdirat : keeps.
Lemma guard_cg_open g b : Keeps guard (crinitCgroupOpen g b).
Proof. unfold crinitCgroupOpen, open_base, close_if_open, close. keep. Qed.
Lemma guard_set_params l fd : Keeps guard (set_params l fd).
Proof. induction l as [|p l IH]; simpl; unfold crinitCgroupSetParam, close; keep. Qed.
#[local] Hint Resolve guard_cg_open guard_set_params : keeps.
Lemma guard_configure g : Keeps guard (crinitCGroupConfigure g).
Proof. unfold crinitCGroupConfigure, crinitCgroupClose, close_if_open, close. keep. Qed.
#[local] Hint Resolve guard_configure : keeps.
Lemma guard_controllers f fd : Keeps guard (crinitReadAvailableCgroupControllers f fd).
Proof.
  assert (∀ fuel rest acc, Keeps guard (read_chunks fuel rest acc)) as Hr.
  { induction fuel as [|fuel IH]; intros rest acc; simpl; keep. }
  assert (∀ toks acc, Keeps guard (join_controllers toks acc)) as Hj.
  { induction toks as [|t toks IH]; intros acc; simpl; keep. }
  unfold crinitReadAvailableCgroupControllers, close. keep.
Qed.
#[local] Hint Resolve guard_controllers : keeps.

(** The block of the root group returns how to go on after a failure. *)
Definition yields_guard {A} (P : A → Prop) (m : M C A) : Prop := ∀ s, wlp m (λ a s', guard s s' ∧ P a) s.
Lemma yields_bind_guard {A D} (P : D → Prop) (m : M C A) (k : A → M C D) :
  Keeps guard m → (∀ a, yields_guard P (k a)) → yields_guard P (m ≫= k).
Proof.
  intros Hm Hk s. apply wlp_bind. eapply keeps_intro; [exact Hm|]. intros a s1 Hs1. eapply wlp_mono; [|apply Hk].
  intros d s2 [Hs2 Hd]. split; [by transitivity s1|done].
Qed.
Lemma yields_ret_guard {A} (P : A → Prop) (a : A) : P a → yields_guard P (mret a).
Proof. intros Ha s. by apply wlp_ret. Qed.
Lemma yields_then_guard {A D} (P : A → Prop) (m : M C A) (k : A → M C D) :
  yields_guard P m → (∀ a, P a → Keeps guard (k a)) → Keeps guard (m ≫= k).
Proof.
  intros Hm Hk s. apply wlp_bind. eapply wlp_mono; [|apply Hm]. intros a s1 [Hs1 Ha]. eapply wlp_mono; [|by apply Hk].
  intros d s2 Hs2. by transitivity s1.
Qed.

Ltac yield_guard :=
  repeat match goal with
    | |- yields_guard _ (mbind _ _) => apply yields_bind_guard; [keep|intros ?]
    | |- yields_guard _ (match ?x with _ => _ end) => destruct x
    | |- yields_guard _ (mret _) => apply yields_ret_guard
    end.

Lemma guard_cgroups : Keeps guard crinitCreateGlobalCGroups.
Proof.
  assert (∀ n i root, Keeps guard (configure_globals i n root)) as Hg.
  { induction n as [|n IH]; intros i root; simpl; keep. }
  assert (∀ fd, Keeps guard (close fd)) as Hcl by (intros fd; unfold close; keep).
  assert (∀ fd c, Keeps guard (subtree_control fd c)) as Hsub by (intros fd c; unfold subtree_control; keep).
  unfold crinitCreateGlobalCGroups, open_base, crinitCgroupClose, close_if_open. cbv zeta.
  repeat match goal with
    | |- Keeps _ (match rootCgroup _ with _ => _ end ≫= _) => fail 1
    | _ => keep_step
    end.
  apply (yields_then_guard (λ o, ∀ f, o = Some f → Keeps guard f)).
  - yield_guard; intros f [= <-]; keep.
  - intros [failed|] Hf; [by apply Hf|]. keep.
Qed.
End Guard.

(** ** The running system *)

Section Running.
Context {B C pk : Type} `{TaskDBServices B} `{!Faulty C, !OptState C, !ConfFiles C, !TimerState C, !ConfEnv C, !SeriesEnv C}.
Context `{!DirEnv C, !FeatureServices C, !CgState C} `{!Mbedtls pk, !SigState C pk, !SigLinked C pk, !SigApart C pk} `{!BootEnv}.
Notation guard := (same_guard (S := C) (pk := pk)).
Notation Ma := (machine B C).
Implicit Types s : Ma.

(** The task is made of the settings of a text that one of the keys signed. *)
Definition from_text (signed : string → Prop) (t : crinitTask) : Prop :=
  ∃ text l t0 (c c' : C), signed text ∧ settings_of text l ∧
    crinitTaskCreateFromConfKvList 1 l c = Ret (Some t0) c' ∧ same_commands t0 t.

Definition vetted (c : C) (t : crinitTask) : Prop :=
  bools (get_opts c) SIGNATURES = true → from_text (endorsed (get_sig c)) t.

Lemma vetted_guard c c' t : guard c c' → vetted c t → vetted c' t.
Proof. intros [Es Eb]. unfold vetted. by rewrite Es, Eb. Qed.

Lemma slots_vetted c c' d : guard c c' → slots_all (vetted c) d → slots_all (vetted c') d.
Proof. intros Hg Hall. eapply Forall_impl; [exact Hall|]. intros sl Hsl Hl. eapply vetted_guard; [exact Hg|by apply Hsl]. Qed.

(** What holds between a state and a later one of the start-up. *)
Record booted (s s' : Ma) : Prop := {
  bt_guard : guard (conf s) (conf s');
  bt_idle : idle (db s');
  bt_slots : slots_all (vetted (conf s')) (get_db (db s'));
}.

Lemma booted_trans s1 s2 s3 : booted s1 s2 → booted s2 s3 → booted s1 s3.
Proof. intros [G1 _ _] [G2 I2 S2]. split; [by transitivity (conf s2)|done|done]. Qed.

Lemma wlp_conf_boot {A} (m : M C A) (Q : A → Ma → Prop) s :
  Keeps guard m → idle (db s) → slots_all (vetted (conf s)) (get_db (db s)) →
  (∀ a s', booted s s' → db s' = db s → m (conf s) = Ret a (conf s') → Q a s') → wlp (at_conf m) Q s.
Proof.
  intros Hm Hi Hall HQ. unfold at_conf, wlp. pose proof (Hm (conf s)) as Hg. unfold wlp in Hg.
  destruct (m (conf s)) as [a c| |] eqn:E; [|done..]. apply HQ; [|done|done].
  split; [exact Hg|exact Hi|]. by eapply slots_vetted.
Qed.

Lemma main_tasks_spec base names s :
  idle (db s) → slots_all (vetted (conf s)) (get_db (db s)) →
  wlp (main_tasks base names) (λ ok s', ok = true → booted s s') s.
Proof.
  revert s. induction names as [|[name|] names IH]; intros s Hi Hall; cbn [main_tasks]; [| |done].
  { apply wlp_ret. intros _. split; [reflexivity|done|done]. }
  apply wlp_bind. apply (wlp_mono _ (λ _ s', idle (db s') ∧ get_db (db s') = get_db (db s) ∧ conf s' = conf s)).
  2:{ destruct (crinitIsAbsPath name); [by apply wlp_ret|]. destruct base as [base|]; [|done].
      apply wlp_bind, wlp_db. apply wp_wlp, wp_fallible. intros oom l. apply wlp_ret. rewrite db_put_db.
      split_and!; [by apply idle_set|apply db_faults|done]. }
  intros file s1 (Hi1 & E1 & Ec1). destruct file as [file|]; [|by apply wlp_ret].
  assert (slots_all (vetted (conf s1)) (get_db (db s1))) as Hall1 by (by rewrite Ec1, E1).
  apply wlp_bind, wlp_conf_boot; [apply guard_parse|done|done|]. intros c s2 B2 Edb2 Eparse.
  destruct c as [c|]; [|by apply wlp_ret].
  apply wlp_bind, wlp_conf_boot; [apply framed_create; [apply _|apply guard_parse]|apply B2|apply B2|]. intros t s3 B3 Edb3 Ecr.
  destruct t as [t|]; [|by apply wlp_ret]. pose proof (booted_trans _ _ _ B2 B3) as B13.
  apply wlp_bind, wlp_db. eapply wlp_mono; [|apply (insert_slots (vetted (conf s3)) t); [apply B3| |apply B3]].
  - intros [r freed] b Hb. simpl in Hb. destruct freed; [done|]. apply wlp_bind.
    destruct (Z.eqb_spec r (-1)) as [->|Hr]; [apply wlp_db; unfold wlp at 1; destruct (crinitDestroyTask t _); by try apply wlp_ret|].
    destruct (Hb Hr) as [Hib Hab]. apply wlp_db, wlp_step; [apply db_step_destroy|done|]. intros _ b' Hib' Eb'.
    set (s4 := put_db b' _).
    assert (conf s4 = conf s3) as Ec4 by done. assert (db s4 = b') as Ed4 by done.
    assert (slots_all (vetted (conf s4)) (get_db (db s4))) as Hall4 by (by rewrite Ec4, Ed4, Eb').
    eapply wlp_mono; [|apply IH; [by rewrite Ed4|exact Hall4]]. intros ok s5 Hs5 Hok. specialize (Hs5 Hok).
    apply (booted_trans s s4); [|exact Hs5]. split; [|by rewrite Ed4|done].
    rewrite Ec4. rewrite <- Ec1. apply B13.
  - intros t' Ht' Hon. destruct (wlp_elim _ _ _ _ _ (signed_parse file (conf s1) ltac:(by rewrite <- (proj2 (bt_guard _ _ B13)))) Eparse c eq_refl)
      as (text & He & Hset).
    exists text, c, t, (conf s2), (conf s3). rewrite (proj1 (bt_guard _ _ B13)). done.
Qed.

Lemma fail_sigs_fails live s : wlp (fail_sigs live) (λ r _, r = ExitFailure) s.
Proof. unfold fail_sigs. apply wlp_bind_any. intros _ s1. apply wlp_bind_any. intros _ s2. by apply wlp_ret. Qed.
Lemma fail_db_fails live s : wlp (fail_db live) (λ r _, r = ExitFailure) s.
Proof. unfold fail_db. apply wlp_bind_any. intros _ s1. apply fail_sigs_fails. Qed.

Lemma guard_hook : Keeps guard (GlobOpt.crinitFeatureHook None CRINIT_HOOK_INIT HookDB).
Proof.
  assert (∀ l res, Forall (λ f, feat_matches None CRINIT_HOOK_INIT f = true → Keeps guard (feat_af f HookDB)) l →
    Keeps guard (hook_loop l None CRINIT_HOOK_INIT HookDB res)) as Hloop.
  { intros l res Hl. revert res. induction Hl as [|f l Hf Hl IH]; intros res; cbn [hook_loop]; [keep|].
    pose proof (framed_get_bool guard (feat_member f)). destruct (feat_matches _ _ f); [specialize (Hf eq_refl); keep|apply IH]. }
  apply Hloop. repeat constructor; intros Hm; try done. apply eloslog_guard.
Qed.

Lemma guard_timer_init : Keeps guard TimerDB.crinitTimerDBInit.
Proof.
  pose proof (λ f, framed_mpool_modify guard f) as Hm. pose proof guard_decisions as Hd.
  unfold TimerDB.crinitTimerDBInit. keep; eauto with keeps.
Qed.

Lemma guard_timer_lock : Keeps guard TimerDB.lock_pool.
Proof.
  pose proof (λ f, framed_mpool_modify guard f) as Hm. pose proof (framed_mpool guard). pose proof guard_decisions as Hd.
  unfold TimerDB.lock_pool. keep; eauto with keeps.
Qed.

Lemma init_slots (P : crinitTask → Prop) size (b : B) :
  0 < size → idle b → wlp (crinitTaskDBInitWithSize size) (λ _ b', idle b' ∧ slots_all P (get_db b')) b.
Proof.
  intros Hs Hi. unfold crinitTaskDBInitWithSize. rewrite (proj2 (Z.ltb_ge size 1)) by lia.
  apply wlp_bind. unfold mdb at 1, wlp at 1. apply wlp_bind. unfold mdb_set at 1, wlp at 1.
  set (b1 := set_db _ b). assert (idle b1 ∧ slots_all P (get_db b1)) as H1'.
  { unfold b1. rewrite idle_db, get_set_db. split; [done|constructor]. }
  assert (∀ l b0, idle b0 ∧ slots_all P (get_db b0) → idle (set_faults l b0) ∧ slots_all P (get_db (set_faults l b0))) as Hf.
  { intros l b0. by rewrite idle_set, db_faults. }
  apply wlp_bind, wp_wlp, wp_fallible. intros [] l1; [apply wlp_ret; by apply Hf|].
  apply wlp_bind, wp_wlp, wp_fallible. intros [] l2; [apply wlp_ret; by apply Hf, Hf|].
  apply wlp_bind, wp_wlp, wp_fallible. intros [] l3; [apply wlp_ret; by apply Hf, Hf, Hf|].
  apply wlp_bind. unfold mdb_set, wlp at 1. apply wlp_ret. rewrite idle_db, get_set_db, !idle_set.
  split; [apply H1'|constructor].
Qed.

(** Starting the server touches neither the database nor the configuration. *)
Definition served (v v' : server B C) : Prop :=
  dm_conf (sv_dm v') = dm_conf (sv_dm v) ∧ get_db (dm_db (sv_dm v')) = get_db (dm_db (sv_dm v)) ∧
  (idle (dm_db (sv_dm v)) → idle (dm_db (sv_dm v'))).
#[local] Instance served_preorder : PreOrder served.
Proof.
  split; [by intros v|]. intros v1 v2 v3 (C1 & D1 & I1) (C2 & D2 & I2). split_and!; [congruence|congruence|auto].
Qed.
Lemma served_faults l v : served v (set_faults l v).
Proof. split_and!; [done|apply db_faults|simpl; by rewrite idle_set]. Qed.
Lemma served_pool f : Keeps served (ThrPool.mpool_modify f).
Proof. intros v. split_and!; done. Qed.
Lemma served_mpool : Keeps served ThrPool.mpool.
Proof. intros v. unfold ThrPool.mpool, wlp. reflexivity. Qed.
#[local] Hint Resolve served_faults served_pool served_mpool : keeps.

Lemma served_start : Keeps served (crinitStartInterfaceServer dir_present sock_dir).
Proof.
  assert (∀ rest pre, Keeps served (mkdir_prefixes dir_present pre rest)) as Hp.
  { induction rest as [|c rest IH]; intros pre; simpl; unfold NotiServ.mkdir; keep. }
  assert (∀ rest pre, Keeps served (crinitMkdirp dir_present pre rest)) as Hm.
  { induction rest as [|c rest IH]; intros pre; [apply Hp|]. cbn [crinitMkdirp]. repeat case_match; subst; solve [apply IH|apply Hp]. }
  assert (∀ n, Keeps served (create_workers n)) as Hw by (induction n as [|n IH]; simpl; keep).
  unfold crinitStartInterfaceServer, crinitCreateSockFile, crinitThreadPoolInit, crinitThreadPoolGrow, ThrPool.lock_pool,
    ThrPool.unlock_pool, thread_attrs. keep.
Qed.

Lemma timer_spawn_spec s :
  idle (db s) → slots_all (vetted (conf s)) (get_db (db s)) → wlp crinitTimerDBSpawn (λ _ s', booted s s') s.
Proof.
  intros Hi Hall. unfold crinitTimerDBSpawn.
  apply wlp_bind, wlp_conf_boot; [apply guard_timer_lock|done|done|]. intros err s1 B1 _ _. case_if; [by apply wlp_ret|].
  apply wlp_bind, wlp_conf_boot; [apply (framed_mpool_modify guard)|apply B1|apply B1|]. intros _ s2 B2 _ _.
  apply wlp_bind, wlp_conf_boot; [apply keeps_fallible, guard_decisions|apply B2|apply B2|]. intros e s3 B3 _ _.
  apply wlp_bind, wlp_modify, wlp_ret. pose proof (booted_trans _ _ _ B1 (booted_trans _ _ _ B2 B3)) as [G I A].
  by split.
Qed.

Lemma main_load_spec live file s :
  idle (db s) → wlp (main_load live file) (λ r s', r = Running → booted s s') s.
Proof.
  intros Hi. unfold main_load.
  assert (∀ s0, wlp (fail_sigs live) (λ r s', r = Running → booted s s') s0) as Hfs.
  { intros s0. eapply wlp_mono; [|apply fail_sigs_fails]. by intros r s' ->. }
  assert (∀ s0, wlp (fail_db live) (λ r s', r = Running → booted s s') s0) as Hfd.
  { intros s0. eapply wlp_mono; [|apply fail_db_fails]. by intros r s' ->. }
  assert (∀ {A} (m : M C A) Q s0, Keeps guard m → guard (conf s) (conf s0) → db s0 = db s →
    (∀ a s1, guard (conf s) (conf s1) → db s1 = db s → Q a s1) → wlp (at_conf m) Q s0) as Hconf.
  { intros A m Q s0 Hm Hg Hd HQ. apply wlp_conf. eapply keeps_intro; [exact Hm|]. intros a c Hc. apply HQ; [|done].
    by transitivity (conf s0). }
  apply wlp_bind, Hconf; [apply framed_load_series; [apply _|apply guard_parse]|reflexivity|done|]. intros r1 s1 G1 D1.
  case_if; [apply Hfs|]. apply wlp_bind, Hconf; [apply guard_hook|done|done|]. intros r2 s2 G2 D2.
  case_if; [apply Hfs|]. apply wlp_bind. apply (wlp_mono _ (λ _ s3, guard (conf s) (conf s3) ∧ db s3 = db s)).
  2:{ destruct ENABLE_CGROUP; [|by apply wlp_ret]. apply Hconf; [apply guard_cgroups|done|done|]. by intros. }
  intros r3 s3 [G3 D3]. case_if; [apply Hfs|].
  apply wlp_bind, Hconf; [apply (framed_load_tasks guard)|done|done|]. intros [series|] s4 G4 D4; [|apply Hfs].
  apply wlp_bind, wlp_db. eapply wlp_mono; [|apply (init_slots (vetted (conf s4))); [done|by rewrite D4]].
  intros _ b5 [I5 A5]. set (s5 := put_db b5 s4).
  assert (booted s s5) as B5 by (by split).
  apply wlp_bind, wlp_conf_boot; [apply guard_timer_init|apply B5|apply B5|]. intros _ s6 B6 _ _.
  apply wlp_bind. eapply wlp_mono; [|apply main_tasks_spec; apply B6]. intros ok s7 Hs7.
  destruct ok; [|apply Hfd]. specialize (Hs7 eq_refl). cbn [negb].
  apply wlp_bind. eapply wlp_mono; [|apply timer_spawn_spec; apply Hs7]. intros r8 s8 B8. case_if; [apply Hfd|].
  apply wlp_bind. unfold at_server, wlp at 1. pose proof (served_start (ma_sv s8)) as Hs. unfold wlp in Hs.
  destruct (crinitStartInterfaceServer dir_present sock_dir (ma_sv s8)) as [r9 v| |]; [|done..].
  case_if; [apply Hfd|]. apply wlp_ret. intros _. destruct Hs as (Ec & Ed & Ei).
  pose proof (booted_trans _ _ _ B5 (booted_trans _ _ _ B6 (booted_trans _ _ _ Hs7 B8))) as [G I A].
  split; unfold conf, db; simpl; rewrite ?Ec, ?Ed; [exact G|apply Ei; exact I|exact A].
Qed.

Lemma flag_init desc : Keeps (same_flag (S := C)) (crinitSigSubsysInit desc).
Proof.
  pose proof (λ f, flag_sig (S := C) (pk := pk) f). pose proof (flag_msig (S := C) (pk := pk)). pose proof (flag_faults (S := C)).
  unfold crinitSigSubsysInit, sig_mutex_destroy, sig_mutex_lock, sig_mutex_unlock. keep; eauto with keeps.
Qed.

Lemma same_flag_faults l (c : C) : same_flag c (set_faults l c).
Proof. apply flag_faults. Qed.
Lemma guard_flag {A} (m : M C A) : Keeps guard m → Keeps (same_flag (S := C)) m.
Proof. intros Hm c. eapply wlp_mono; [|apply Hm]. by intros a c' [_ ?]. Qed.
#[local] Hint Resolve same_flag_faults : keeps.

Lemma flag_load dir : Keeps (same_flag (S := C)) (crinitLoadAndVerifySignedKeys dir).
Proof.
  pose proof (λ f, flag_sig (S := C) (pk := pk) f). pose proof (flag_msig (S := C) (pk := pk)).
  assert (∀ path suffix fl, Keeps (same_flag (S := C)) (crinitFileSeriesFromDir path suffix fl)) as Hdir.
  { intros path suffix fl. unfold crinitFileSeriesFromDir, scandir, crinitInitFileSeries, crinitResizeFileSeries. keep. }
  assert (∀ buf path, Keeps (same_flag (S := C)) (crinitBinReadAll buf path)) as Hbin.
  { intros buf path. apply guard_flag, guard_bin_read. }
  pose proof (flag_verify (S := C) (pk := pk)) as Hver.
  assert (∀ pem names bufs base, Keeps (same_flag (S := C)) (load_keys pem bufs base names)) as Hkeys.
  { intros pem names. induction names as [|n names IH]; intros bufs base; simpl; unfold load_key; keep; eauto with keeps. }
  unfold crinitLoadAndVerifySignedKeys, crinitLoadAndVerifySignedKeysFromFileSeries, sig_mutex_lock, sig_mutex_unlock. keep.
Qed.

(** After a successful set-up with signatures the keys go back to the root key. *)
Lemma main_signatures_spec signatures (c : C) :
  wlp (main_signatures signatures)
    (λ r c', same_flag c c' ∧ (r.1 = true → signatures = true →
       ∃ payload root, keyring CRINIT_SIGNATURE_DEFAULT_ROOT_KEY_DESC = Some payload ∧
         mbedtls_pk_parse_public_key payload = (0, root) ∧ ctx_trusted root (get_sig c'))) c.
Proof.
  unfold main_signatures. destruct signatures; cbn [negb]; [|by apply wlp_ret].
  destruct SIGNATURE_SUPPORT; cbn [negb]; [|by apply wlp_ret].
  apply wlp_bind.
  assert (wlp (crinitSigSubsysInit CRINIT_SIGNATURE_DEFAULT_ROOT_KEY_DESC) (λ r c', same_flag c c' ∧ (r = -1 ∨ (r = 0 ∧
    ∃ payload k, keyring CRINIT_SIGNATURE_DEFAULT_ROOT_KEY_DESC = Some payload ∧ mbedtls_pk_parse_public_key payload = (0, k) ∧
       mbedtls_pk_can_do_rsa k = true ∧ get_sig c' = mkSigCtx k None 0 (Some false)))) c) as Hinit.
  { pose proof (flag_init CRINIT_SIGNATURE_DEFAULT_ROOT_KEY_DESC c) as H1'.
    pose proof (sig_init_spec CRINIT_SIGNATURE_DEFAULT_ROOT_KEY_DESC c) as H2'. unfold wlp in *.
    by destruct (crinitSigSubsysInit _ c). }
  eapply wlp_mono; [|exact Hinit]. intros r c1 [F1 [->|(-> & payload & root & Hk & Hp & _ & Hs1)]]; [by apply wlp_ret|].
  cbn [Z.eqb]. apply wlp_bind. eapply keeps_intro; [apply (framed_get_string guard)|]. intros [dir|] c2 [G2 F2].
  2:{ apply wlp_ret. split; [by transitivity c1|done]. }
  apply wlp_bind. assert (ctx_trusted root (get_sig c2)) as Ht2 by (rewrite G2, Hs1; by split).
  assert (wlp (crinitLoadAndVerifySignedKeys (Some dir)) (λ _ c3, same_flag c2 c3 ∧ ctx_trusted root (get_sig c3)) c2) as Hload.
  { pose proof (flag_load (Some dir) c2) as H1'. pose proof (load_trusted root (Some dir) c2 Ht2) as H2'. unfold wlp in *.
    by destruct (crinitLoadAndVerifySignedKeys _ c2). }
  eapply wlp_mono; [|exact Hload]. intros r c3 [F3 Ht3]. apply wlp_ret. split.
  { transitivity c1; [done|]. by transitivity c2. }
  intros _ _. by exists payload, root.
Qed.

(** What is known of a system that runs with signatures: its keys go back to the root
    key of the keyring, and its tasks to texts that such keys signed. *)
Definition trustworthy (s : Ma) : Prop :=
  ∃ payload root, keyring CRINIT_SIGNATURE_DEFAULT_ROOT_KEY_DESC = Some payload ∧
    mbedtls_pk_parse_public_key payload = (0, root) ∧ ctx_trusted root (get_sig (conf s)) ∧
    slots_all (from_text (λ text, ∃ k, trusted root k ∧ signed_by k text)) (get_db (db s)).

Lemma main_boot_spec f pid1 file s :
  idle (db s) →
  wlp (main_boot f pid1 file) (λ r s', r = Running → bools (get_opts (conf s')) SIGNATURES = true → trustworthy s') s.
Proof.
  intros Hi. unfold main_boot. set (Q := λ (r : boot_result) (s' : Ma), r = Running → bools (get_opts (conf s')) SIGNATURES = true → trustworthy s').
  assert (∀ live s0, wlp (fail_sigs live) Q s0) as Hfs.
  { intros live s0. eapply wlp_mono; [|apply fail_sigs_fails]. by intros r s' ->. }
  apply wlp_bind. apply (wlp_mono _ (λ _ s1, db s1 = db s)).
  2:{ destruct (mf_sysMounts f); [by apply wlp_kernel|by apply wlp_ret]. }
  intros r1 s1 D1. case_if; [by apply wlp_ret|].
  apply wlp_bind, wlp_kernel. intros ok k2. set (s2 := mkMachine _ _ _). destruct ok; [|by apply wlp_ret]. cbn [negb].
  apply wlp_bind. apply (wlp_mono _ (λ _ s3, db s3 = db s)).
  2:{ destruct (mf_sysMounts f); [by apply wlp_kernel|by apply wlp_ret]. }
  intros r3 s3 D3. case_if; [by apply wlp_ret|].
  apply wlp_bind, wlp_conf. unfold wlp at 1. destruct (crinitGlobOptInitDefault glob_defaults (conf s3)) as [r4 c4| |]; [|done..].
  case_if; [by apply wlp_ret|].
  apply wlp_bind, wlp_conf. unfold wlp at 1. rewrite conf_put_conf.
  destruct (crinitKernelCmdlineParse CRINIT_KCMDLINE_PATH_DEFAULT c4) as [r5 c5| |]; [|done..].
  case_if; [apply Hfs|].
  apply wlp_bind, wlp_conf. rewrite conf_put_conf. eapply wlp_mono; [|apply (flag_get (pk := pk))]. intros signatures c6 [Hsig [_ F6]].
  apply wlp_bind, wlp_conf. rewrite conf_put_conf. eapply wlp_mono; [|apply main_signatures_spec].
  intros [ok live] c7 [F7 Hok]. destruct ok; cbn [negb]; [|apply Hfs]. specialize (Hok eq_refl).
  set (s7 := put_conf c7 _). assert (db s7 = db s) as D7 by exact D3.
  eapply wlp_mono; [|apply main_load_spec; by rewrite D7]. intros r8 s8 Hrun Hr Hon. specialize (Hrun Hr) as [[G8 F8] I8 A8].
  destruct Hok as (payload & root & Hk & Hp & Ht).
  { rewrite Hsig, <- F6. rewrite F8 in Hon. unfold same_flag in F7. rewrite <- Hon. symmetry. exact F7. }
  exists payload, root. split_and!; [done|done|by rewrite G8|].
  eapply Forall_impl; [exact A8|]. intros sl Hsl Hl. destruct (Hsl Hl Hon) as (text & l & t0 & c & c' & He & Hset & Hcr & Hsame).
  exists text, l, t0, c, c'. split; [|done]. eapply endorsed_trusted; [|exact He]. by rewrite G8.
Qed.

(** C17: a system that starts with signatures required runs signed tasks only.  When
    main() reaches its loop with SIGNATURES set, the root key came from the keyring,
    every key that was loaded goes back to it through signatures, and every task of the
    database has the name, the commands, the stop commands, the user, the group and the
    capabilities of a task that was made of the settings of a text which one of those keys
    signed.  This holds whatever the command line and the series file say, whatever
    fails, and however files change during start-up. *)
Theorem boot_runs_signed_tasks args s :
  idle (db s) →
  wlp (crinit_main args) (λ r s', r = Running → bools (get_opts (conf s')) SIGNATURES = true → trustworthy s') s.
Proof.
  intros Hi. unfold crinit_main. apply wlp_bind, wlp_get.
  destruct (main_options_loop _ _ _ _) as [[f [|file rest]]|]; [by apply main_boot_spec| |by apply wlp_ret].
  case_if; [by apply wlp_ret|]. by apply main_boot_spec.
Qed.
End Running.
