(* ===== verification/MainLoop.v ===== *)
(** * The loop of main(): src/crinit.c

    SpawnReady and the wait for the next change are two steps, and other threads
    may run in between. *)

From Stdlib Require Import ZArith Lia Bool List String Ascii.
From stdpp Require Import base list strings gmap relations.
From S2P Require Import Prelude CString EnvSet Timer Task TaskDB TaskDBSpec TaskDBProps.

Open Scope Z_scope.
Open Scope crinit_scope.

(** ** The loop and the other threads *)

(** Where the loop is: before SpawnReady, before the mutex is taken, and in
    pthread_cond_wait(), which began when [seen] broadcasts had been made. *)
Inductive loop_pc := Spawning | Locking | Waiting (seen : nat).

Section Loop.
Context {S : Type} `{TaskDBServices S}.
Implicit Types s : S.

(** The wait releases the mutex as it begins, and ends with a later broadcast.  The
    other threads call operations of the database. *)
Inductive loop_step : loop_pc * S → loop_pc * S → Prop :=
| loop_spawn s r s' :
    crinitTaskDBSpawnReady CRINIT_DISPATCH_THREAD_MODE_START s = Ret r s' → loop_step (Spawning, s) (Locking, s')
| loop_wait s :
    locked (get_db s) = false → loop_step (Locking, s) (Waiting (changed (get_db s)), s)
| loop_wake seen s :
    (seen < changed (get_db s))%nat → loop_step (Waiting seen, s) (Spawning, s)
| loop_other pc op s r s' :
    run_op op s = Ret r s' → loop_step (pc, s) (pc, s').

(** The loop sleeps, and only another change will wake it. *)
Definition asleep (c : loop_pc * S) : Prop := c.1 = Waiting (changed (get_db c.2)).

Definition some_ready (s : S) : Prop := ∃ name t, db_map (get_db s) !! name = Some t ∧ crinitTaskIsReady t = true.

Lemma started_none_ready m : ¬ ∃ name t, (start <$> m : gmap string crinitTask) !! name = Some t ∧ crinitTaskIsReady t = true.
Proof.
  intros (name & t & Hl & Hr). rewrite lookup_fmap in Hl. destruct (m !! name) as [t0|]; [|done]. simpl in Hl. injection Hl as <-.
  revert Hr. unfold start. destruct (crinitTaskIsReady t0) eqn:E; [|by rewrite E]. unfold crinitTaskIsReady. simpl. by repeat case_if.
Qed.

(** When no other thread runs in between, the loop does not go to sleep while a task
    is ready. *)
Lemma sleeps_without_ready s r s1 :
  stable s → spawnInhibit (get_db s) = false → spawnFunc (get_db s) = true →
  crinitTaskDBSpawnReady CRINIT_DISPATCH_THREAD_MODE_START s = Ret r s1 → r = 0 →
  asleep (Waiting (changed (get_db s1)), s1) ∧ ¬ some_ready s1.
Proof.
  intros Hst Hi Hf E Hr. split; [done|]. destruct (wp_elim _ _ _ (wp_spawnready CRINIT_DISPATCH_THREAD_MODE_START s Hst))
    as (r' & s1' & E' & Hsp). rewrite E in E'. injection E' as <- <-.
  destruct (sp_all _ _ _ _ Hsp Hi Hf Hr) as [Hdb _]. unfold some_ready. rewrite Hdb, db_map_start. apply started_none_ready.
Qed.

(** A thread that fulfils the last dependency of a task in between is not noticed: for
    every such change the loop sleeps with the task ready, until something else
    changes. *)
Lemma change_in_the_window s r s1 op r2 s2 :
  crinitTaskDBSpawnReady CRINIT_DISPATCH_THREAD_MODE_START s = Ret r s1 →
  run_op op s1 = Ret r2 s2 → locked (get_db s2) = false →
  rtc loop_step (Spawning, s) (Waiting (changed (get_db s2)), s2) ∧ asleep (Waiting (changed (get_db s2)), s2).
Proof.
  intros E1 E2 Hl. split; [|done]. eapply rtc_l; [by eapply loop_spawn|]. eapply rtc_l; [by eapply loop_other|].
  apply rtc_once. by apply loop_wait.
Qed.
End Loop.

(** The first task of the demonstration is started.  Its thread reports the end
    of the task while the main thread is between its two steps: the second task
    is ready, and nobody starts it. *)
Definition after {A} (m : M bare A) (s : bare) : bare := match m s with Ret _ s' => s' | _ => s end.
Definition window_start : bare :=
  after (crinitTaskDBSpawnReady CRINIT_DISPATCH_THREAD_MODE_START) (demo_state [] [demo_fs; demo_net]).
Definition window_end : bare := after (run_op (OpFulfillDep (mkDep "fs" "wait"))) window_start.

Lemma missed_wakeup :
  rtc loop_step (Spawning, demo_state [] [demo_fs; demo_net]) (Waiting (changed (get_db window_end)), window_end) ∧
    asleep (Waiting (changed (get_db window_end)), window_end) ∧ some_ready window_end.
Proof.
  destruct (change_in_the_window (demo_state [] [demo_fs; demo_net]) 0 window_start (OpFulfillDep (mkDep "fs" "wait")) 0 window_end)
    as [Hr Ha]; [vm_compute; reflexivity..|].
  split; [exact Hr|]. split; [exact Ha|]. exists "net"%string. eexists. split; [vm_compute|]; reflexivity.
Qed.
