(* ===== verification/BootDemo.v ===== *)
(** * Start-up and signatures: a concrete system

    A file system with signed files, a library whose keys and signatures are
    strings, and what the signature check accepts although it should not. *)

From Stdlib Require Import ZArith Lia Bool List String Ascii.
From stdpp Require Import base functions list strings gmap.
From S2P Require Import Prelude CString EnvSet Timer Task TaskDB TaskDBSpec TaskDBProps TimerDB Lexers ConfConv Ini GlobOpt GlobOptProps.
From S2P Require Import Cgroup ConfParse ConfTask ConfGlob FSeries RtimMsg RtimExec ThrPool SockCom NotiServ CgroupFs Launch MinSetup.
From S2P Require Import ConfFrame Sig SigProps SigConf Boot BootProps.

Open Scope Z_scope.
Open Scope crinit_scope.

#[local] Arguments String.append : simpl nomatch.

(** ** The library *)

(** A key file starts with R, or with E for one that is not parsed to the end.  A
    signature is the start of the key and the hash, in eight bytes. *)
Fixpoint toy_sum (s : string) : nat :=
  match s with EmptyString => O | String c s => (nat_of_ascii c + 3 * toy_sum s) mod 676 end.
Definition toy_hash (data : string) : string :=
  let n := toy_sum data in String (chr (97 + n / 26)) (str1 (chr (97 + n mod 26))).
Definition toy_mark (k hash : string) : string := (str_take 6 (k +:+ "------") +:+ hash)%string.
Definition toy_sign (k data : string) : string := toy_mark k (toy_hash data).

#[export, refine] Instance toy_mbedtls : Mbedtls string := {|
  mbedtls_3 := true;
  mbedtls_pk_init := EmptyString;
  mbedtls_pk_parse_public_key := λ data,
    match data with String "R" _ => (0, data) | String "E" _ => (1, data) | _ => (1, EmptyString) end;
  mbedtls_pk_get_type := λ k, match k with EmptyString => MBEDTLS_PK_NONE | _ => MBEDTLS_PK_RSA end;
  mbedtls_rsa_set_padding := λ k, (0, k);
  rsa_len := λ _, 8%nat;
  sha256 := toy_hash;
  rsassa_pss_verify := λ k hash sig, str_eqb sig (toy_mark k hash);
|}.
Proof. done. Defined.

(** ** The state *)

Record bootd := mkBootd {
  bd_faults : list bool;
  bd_opts : crinitGlobOptStore;
  bd_pool : crinitTimerDB;
  bd_files : list (string * string);
  bd_cg : cgfs;
  bd_sig : crinitSigCtx string;
}.

#[export, refine] Instance bootd_faulty : Faulty bootd := {|
  faults := bd_faults;
  set_faults := λ l s, mkBootd l (bd_opts s) (bd_pool s) (bd_files s) (bd_cg s) (bd_sig s);
  idle := λ s, opt_locked (bd_opts s) = false;
|}.
Proof. all: done || by intros []. Defined.

#[export, refine] Instance bootd_opts : OptState bootd := {|
  get_opts := bd_opts;
  set_opts := λ o s, mkBootd (bd_faults s) o (bd_pool s) (bd_files s) (bd_cg s) (bd_sig s);
|}.
Proof. all: done || by intros []. Defined.

Definition bootd_open (path : string) : M bootd (option string) :=
  λ s, Ret (snd <$> find (λ f, str_eqb f.1 path) (bd_files s)) s.

Definition zeroes (n : nat) : string := string_of_list_ascii (replicate n zero).
Lemma zeroes_length n : String.length (zeroes n) = n.
Proof. unfold zeroes. induction n as [|n IH]; simpl; congruence. Qed.

(** sig.c itself does not call the signature check of confparse.c. *)
Definition bootd_files_only : ConfFiles bootd := {|
  read_file := bootd_open;
  open_file := bootd_open;
  SIGNATURE_SUPPORT := true;
  uninitialised := zeroes;
  uninitialised_length := zeroes_length;
  ConfParse.crinitVerifySignature := λ _ _, mret (-1);
|}.

Definition bootd_ring (desc : string) : option string :=
  if str_eqb desc "crinit-root" then Some "Rroot"%string else None.

Definition bootd_sig_only : @SigState bootd string _ _ bootd_files_only.
Proof.
  refine {|
    get_sig := bd_sig;
    set_sig := λ c s, mkBootd (bd_faults s) (bd_opts s) (bd_pool s) (bd_files s) (bd_cg s) c;
    keyring := bootd_ring;
  |}; try done; try by intros [].
Defined.

#[export] Instance bootd_files : ConfFiles bootd := {|
  read_file := bootd_open;
  open_file := bootd_open;
  SIGNATURE_SUPPORT := true;
  uninitialised := zeroes;
  uninitialised_length := zeroes_length;
  ConfParse.crinitVerifySignature :=
    @Sig.crinitVerifySignature bootd string toy_mbedtls bootd_faulty bootd_opts bootd_files_only bootd_sig_only;
|}.

#[export, refine] Instance bootd_sigs : SigState bootd string := {|
  get_sig := bd_sig;
  set_sig := λ c s, mkBootd (bd_faults s) (bd_opts s) (bd_pool s) (bd_files s) (bd_cg s) c;
  keyring := bootd_ring;
|}.
Proof. all: done || by intros []. Defined.

#[export] Instance bootd_linked : SigLinked bootd string.
Proof. intros data sig s. reflexivity. Qed.

#[export, refine] Instance bootd_timers : TimerState bootd := {|
  TimerDB.get_pool := bd_pool;
  TimerDB.set_pool := λ p s, mkBootd (bd_faults s) (bd_opts s) p (bd_files s) (bd_cg s) (bd_sig s);
  now := λ _, mkTimespec 9 0;
|}.
Proof. all: done || by intros []. Defined.

#[export, refine] Instance bootd_env : ConfEnv bootd := {|
  ENABLE_ELOS := false;
  getpwnam := λ n, if str_eqb n "root" then Some 0 else None;
  getpwuid := λ u, if u =? 0 then Some "root"%string else None;
  getgrnam := λ n, if str_eqb n "root" then Some 0 else None;
  getgrgid := λ g, if g =? 0 then Some "root"%string else None;
  lookup_capability := λ _, None;
  errno_set := λ _, false;
  clock_now := mret (Some (mkTimespec 7 0));
|}.
Proof. intros s. by apply wp_ret. Defined.

#[export, refine] Instance bootd_series : SeriesEnv bootd := {|
  stat_mode := λ path, mret (Some (if String.prefix "/usr/bin/" path then S_IFREG + 493 else S_IFDIR + 493));
|}.
Proof. all: intros; by apply wp_ret. Defined.

#[export, refine] Instance bootd_dirs : DirEnv bootd := {|
  dir_entries := λ s path, Some ("." :: ".." :: omap (λ f, entry_of path f.1) (bd_files s))%string;
  is_regular := λ s dir name _, existsb (λ f, str_eqb f.1 (dir +:+ "/" +:+ name)%string) (bd_files s);
|}.
Proof. all: done. Defined.

#[export] Instance bootd_features : FeatureServices bootd := {|
  crinitSetUseSyslog := λ _, mret tt;
  crinitElosdepActivate := λ _, mret 0;
  GlobOpt.crinitElosdepTaskAdded := λ _, mret 0;
  crinitEloslogInit := mret 0;
  crinitEloslogActivate := λ _, mret 0;
|}.

#[export, refine] Instance bootd_cgs : CgState bootd := {|
  get_cg := bd_cg;
  set_cg := λ f s, mkBootd (bd_faults s) (bd_opts s) (bd_pool s) (bd_files s) f (bd_sig s);
|}.
Proof. all: done || by intros []. Defined.

#[export] Instance bootd_apart : SigApart bootd string.
Proof. split; try by intros ? []. intros s. by apply wlp_ret. Qed.

#[export] Instance demo_boot_env : BootEnv := {|
  ENABLE_CGROUP := true;
  POSIXLY_CORRECT := false;
  CRINIT_DEFAULT_CONFIG_SERIES := "/etc/crinit/default.series";
  CRINIT_DEFAULT_USE_KMSG := false;
  glob_defaults := mkDefaults "/etc/crinit/pk" "/etc/crinit" "/etc/crinit" 500;
  dir_present := λ _, true;
  sock_dir := "/run/crinit";
|}.

(** ** A system that starts *)

Definition demo_net_conf : string := conf_text [("NAME", "net"); ("COMMAND", "/sbin/ip link")]%string.
Definition demo_series_conf : string := conf_text [("TASKS", "net.crinit")]%string.

(** The text and its signature. *)
Definition signed_file (path text k : string) : list (string * string) :=
  [(path, text); ((path +:+ ".sig")%string, toy_sign k text)].

(** The task file is signed with a key that the root key signed. *)
Definition demo_files (task_key : string) : list (string * string) :=
  ("/proc/cmdline"%string, ("quiet crinit.signatures=yes" +:+ str1 c_newline)%string) ::
  signed_file "/etc/crinit/pk/a.der" "Rkey-a" "Rroot" ++
  signed_file "/etc/crinit/default.series" demo_series_conf "Rroot" ++
  signed_file "/etc/crinit/net.crinit" demo_net_conf task_key.

Definition unset_opts : crinitGlobOptStore :=
  mkOpts (λ _, None) (λ _, false) (λ _, 0) (λ _, 0) (λ _, mkEnvSet None 0 0) ∅ 0 no_lists false.

Definition demo_conf_state (files : list (string * string)) : bootd :=
  mkBootd [] unset_opts (mkPool 0 [] false false ∅ 0) files (mkCgfs [] "cpu memory pids" ∅ []) (mkSigCtx EmptyString None 0 None).

Definition demo_machine (files : list (string * string)) : machine bare bootd :=
  mkMachine (mkServer (mkDaemon (mkBare [] (mkDB [] 0 0 false false false false 0) []) (demo_conf_state files)
      (mkInhibit false false 0) [])
    (mkConn [] [] false false) (mkThreadPool 0 0 0 false 0 false false))
    (mkKernel [] 1 0 false ∅ [] 18) false.

Definition boots (files : list (string * string)) : boot_result :=
  match crinit_main (pk := string) [] (demo_machine files) with Ret r _ => r | _ => ExitFailure end.

(** It starts with the task of the signed file, and not if that file is signed with a
    key that nobody signed. *)
Example demo_boots : boots (demo_files "Rkey-a") = Running.
Proof. vm_compute. reflexivity. Qed.
Example demo_refuses : boots (demo_files "Rkey-b") = ExitFailure.
Proof. vm_compute. reflexivity. Qed.

Lemma boot_runs_signed_tasks_witness :
  ∃ s' : machine bare bootd,
    crinit_main (pk := string) [] (demo_machine (demo_files "Rkey-a")) = Ret Running s' ∧
    bools (get_opts (conf s')) SIGNATURES = true ∧ length (taskSet (get_db (db s'))) = 1%nat ∧ trustworthy (pk := string) s'.
Proof.
  pose proof (boot_runs_signed_tasks (pk := string) [] (demo_machine (demo_files "Rkey-a")) I) as Hw.
  assert (match crinit_main (pk := string) [] (demo_machine (demo_files "Rkey-a")) with
          | Ret r s' => r = Running ∧ bools (get_opts (conf s')) SIGNATURES = true ∧ length (taskSet (get_db (db s'))) = 1%nat
          | _ => False
          end) as Hrun by (vm_compute; split_and!; reflexivity).
  unfold wlp in Hw. destruct (crinit_main [] (demo_machine (demo_files "Rkey-a"))) as [r s'| |]; [|done|done].
  destruct Hrun as (-> & Hon & Hlen). exists s'. split; [done|]. split; [done|]. split; [done|]. by apply Hw.
Defined.

(** ** Chains of keys *)

(** The second directory has a key that only the key of the first one signed. *)
Definition chain_files : list (string * string) :=
  signed_file "/k1/a.der" "Rkey-a" "Rroot" ++ signed_file "/k2/b.der" "Rkey-b" "Rkey-a".

Definition demo_ops : list sig_op :=
  [OpLoad (Some "/k1"); OpVerify "text" (toy_sign "Rkey-a" "text"); OpVerify "text" (toy_sign "Rkey-b" "text");
   OpLoad (Some "/k2"); OpVerify "text" (toy_sign "Rkey-b" "text")]%string.

Definition chain_call (ops : list sig_op) : M bootd (option (list Z)) :=
  r ← crinitSigSubsysInit (pk := string) "crinit-root";
  if r =? -1 then mret None else rs ← run_sig_ops ops; mret (Some rs).

Definition run_chain (files : list (string * string)) (ops : list sig_op) : option (list Z * list string) :=
  match chain_call ops (demo_conf_state files) with
  | Ret (Some rs) s => Some (rs, active_keys (bd_sig s))
  | _ => None
  end.

Definition chain_end : bootd :=
  match chain_call demo_ops (demo_conf_state chain_files) with Ret _ s => s | _ => demo_conf_state [] end.

Lemma chain_runs : chain_call demo_ops (demo_conf_state chain_files) = Ret (Some [0; 0; -1; 0; 0]) chain_end.
Proof. vm_compute. reflexivity. Qed.


(** The signature of a key need not be that of the root key: a second call accepts
    keys that a key of the first one signed. *)
Lemma second_load_not_by_root :
  run_chain chain_files [OpLoad (Some "/k1"); OpLoad (Some "/k2")]%string = Some ([0; 0], ["Rkey-b"%string]) ∧
  rsassa_pss_verify "Rroot"%string (sha256 "Rkey-b") (toy_sign "Rkey-a" "Rkey-b") = false.
Proof. split; vm_compute; reflexivity. Qed.

(** ** What should not be accepted *)

(** The signature file of the second key is empty: the array still has the
    signature of the first one, which has the same bytes. *)
Lemma empty_signature_accepted :
  run_chain (signed_file "/k/a.der" "Rkey-a" "Rroot" ++ [("/k/b.der", "Rkey-a"); ("/k/b.der.sig", "")]%string)
    [OpLoad (Some "/k"%string)] = Some ([0], ["Rkey-a"; "Rkey-a"]%string) ∧
  run_chain [("/k/b.der", "Rkey-a"); ("/k/b.der.sig", "")]%string [OpLoad (Some "/k"%string)] = Some ([-1], []).
Proof. split; vm_compute; reflexivity. Qed.

(** A key is used although MbedTLS returned an error for its data. *)
Lemma parse_error_ignored :
  (mbedtls_pk_parse_public_key "Ebroken"%string).1 ≠ 0 ∧
  run_chain (signed_file "/k/a.der" "Ebroken" "Rroot") [OpLoad (Some "/k"%string)] = Some ([0], ["Ebroken"%string]).
Proof. split; [done|vm_compute; reflexivity]. Qed.

(** A key file that fills the array is not read, although it has the maximal size. *)
Lemma full_buffer_refused buf path content s :
  open_file path s = Ret (Some content) s → quiet s → String.length content = String.length buf →
  crinitBinReadAll buf path s = Ret (-1, buf) (s : bootd).
Proof.
  intros Ho Hq Hl. unfold crinitBinReadAll. rewrite (bind_run _ _ _ _ _ Ho). cbv beta iota. rewrite bind_fallible by done.
  by rewrite Hl, Nat.leb_refl.
Qed.

(** An RSA key of more than 4096 bits makes the check read behind the signature. *)
Lemma long_key_undefined {S pk} `{Mbedtls pk} `{SigState S pk} data sig (s : S) :
  quiet s → sig_lock (get_sig s) = Some false → (String.length sig < rsa_len (rootKey (get_sig s)))%nat →
  crinitVerifySignature data sig s = Undef.
Proof.
  intros Hq Hl Hlen. unfold crinitVerifySignature. rewrite (bind_run _ _ s (Some (sha256 data)) s).
  2:{ unfold crinitGenerateHash. by rewrite (bind_run _ _ _ _ _ (fallibleN_quiet 3 s Hq)). }
  cbv beta iota. rewrite (bind_run _ _ _ _ _ (run_sig_lock s Hq Hl)). cbv beta iota. set (s1 := set_sig _ s).
  rewrite (bind_run msig _ s1 (get_sig s1) s1) by done.
  assert (rootKey (get_sig s1) = rootKey (get_sig s)) as -> by (unfold s1; by rewrite get_set_sig).
  unfold crinitMbedtlsVerify. apply Nat.ltb_lt in Hlen. rewrite Hlen, orb_true_r. done.
Qed.
