(* ===== verification/Ctl.v ===== *)
(** * The control program: src/crinit-ctl.c

    The command line is read with getopt_long() of Launch, and the action calls the
    client library.  The result of the program is its exit code and the lines it prints
    for the user; texts of errors are left out. *)

From Stdlib Require Import ZArith Lia Bool List String Ascii.
From stdpp Require Import base list strings gmap.
From S2P Require Import Prelude CString EnvSet Timer Task TaskDB Lexers ConfConv Ini GlobOpt Cgroup CgroupFs Launch.
From S2P Require Import ConfParse ConfTask ConfGlob FSeries RtimMsg RtimExec SockCom Client.

Open Scope Z_scope.
Open Scope crinit_scope.

#[local] Arguments String.append : simpl nomatch.

(** ** Helpers of the C library *)

Fixpoint drop_while {A} (f : A → bool) (l : list A) : list A :=
  match l with [] => [] | x :: r => if f x then drop_while f r else l end.
Fixpoint take_while {A} (f : A → bool) (l : list A) : list A :=
  match l with [] => [] | x :: r => if f x then x :: take_while f r else [] end.

(** basename(): the last component of a path, without slashes behind it. *)
Definition basename (path : option string) : string :=
  let is_slash c := is_char c "/" in
  match path with
  | None => "."
  | Some p =>
      match drop_while is_slash (rev (list_ascii_of_string p)) with
      | [] => if str_eqb p "" then "." else "/"
      | l => string_of_list_ascii (rev (take_while (λ c, negb (is_slash c)) l))
      end
  end.

Fixpoint spaces (n : nat) : string := match n with O => EmptyString | Datatypes.S n => String " " (spaces n) end.
(** %-*s and %4d *)
Definition pad_right (w : nat) (s : string) : string := s +:+ spaces (w - String.length s).
Definition pad_left (w : nat) (s : string) : string := spaces (w - String.length s) +:+ s.

(** ** Texts *)

Definition crinitTaskStateToStr (s : Z) : string :=
  let notified := negb (Z.land s CRINIT_TASK_STATE_NOTIFIED =? 0) in
  let s := Z.ldiff s CRINIT_TASK_STATE_NOTIFIED in
  let marked name := if notified then (name +:+ " (notified)")%string else name in
  if s =? CRINIT_TASK_STATE_LOADED then "loaded"
  else if s =? CRINIT_TASK_STATE_STARTING then "starting"
  else if s =? CRINIT_TASK_STATE_RUNNING then marked "running"%string
  else if s =? CRINIT_TASK_STATE_DONE then marked "done"%string
  else if s =? CRINIT_TASK_STATE_FAILED then marked "failed"%string
  else "(invalid)".

(** TIME_REPR_PRINTF_FORMAT *)
Definition time_repr (t : timespec) : string :=
  if (tv_sec t =? 0) && (tv_nsec t =? 0) then "n/a" else print_timespec t +:+ "s".

Definition status_line (st : task_status) : string :=
  "Status: " +:+ crinitTaskStateToStr (ts_state st) +:+ ", PID: " +:+ print_dec (ts_pid st) +:+
  " CTime: " +:+ time_repr (ts_create st) +:+ " STime: " +:+ time_repr (ts_start st) +:+ " ETime: " +:+ time_repr (ts_end st) +:+
  " USER: " +:+ ts_username st +:+ "(" +:+ print_dec (int32 (ts_uid st)) +:+ ") GROUP: " +:+
  ts_groupname st +:+ "(" +:+ print_dec (int32 (ts_gid st)) +:+ ")".

(** The widths of the columns, and the table of tasks. *)
Definition max_len (start : nat) (l : list string) : nat :=
  fold_left (λ m s, if (m <? String.length s)%nat then String.length s else m) l start.

Definition list_line (wn wu wg : nat) (name pid user group state : string) : string :=
  pad_right wn name +:+ "  " +:+ pad_left 4 pid +:+ "  " +:+ pad_right wu user +:+ " " +:+ pad_right wg group +:+ " " +:+ state.

Definition list_lines (tl : list task_entry) : list string :=
  let wn := max_len 0 (map fst tl) in
  let wu := max_len (String.length "USER") (map (λ e, ts_username e.2) tl) in
  let wg := max_len (String.length "GROUP") (map (λ e, ts_groupname e.2) tl) in
  list_line wn wu wg "NAME" "PID" "USER" "GROUP" "STATUS"
  :: map (λ e, list_line wn wu wg e.1 (print_dec (ts_pid e.2)) (ts_username e.2) (ts_groupname e.2)
                 (crinitTaskStateToStr (ts_state e.2))) tl.

Definition version_text (v : crinitVersion) : string :=
  print_dec (major v) +:+ "." +:+ print_dec (minor v) +:+ "." +:+ print_dec (micro v) +:+
  (if str_eqb (git v) "" then "" else ".") +:+ git v.

(** ** Options *)

Definition ctl_longOptions : list long_option :=
  [mkLong "help" no_argument "h"; mkLong "ignore-deps" no_argument "i"; mkLong "override-deps" required_argument "d";
   mkLong "overwrite" no_argument "f"; mkLong "verbose" no_argument "v"].
Definition ctl_shortOptions : string := "hd:fiv".

(** The variables of main(). *)
Record ctl_opts := mkCtl { ct_overwrite : bool; ct_ignoreDeps : bool; ct_overDeps : option string; ct_verbose : bool }.

Definition ctl_option (c : ascii) (optarg : option string) (o : ctl_opts) : option ctl_opts :=
  let '(mkCtl f i d v) := o in
  if is_char c "i" then Some (mkCtl f true d v)
  else if is_char c "d" then Some (mkCtl f i optarg v)
  else if is_char c "f" then Some (mkCtl true i d v)
  else if is_char c "v" then Some (mkCtl f i d true)
  else None.

(** The loop over the options: [None] prints the usage. *)
Fixpoint ctl_loop (fuel : nat) (posix : bool) (st : getopt_state) (o : ctl_opts) : option (ctl_opts * list string) :=
  match fuel with
  | O => None
  | Datatypes.S fuel =>
      match getopt_long posix ctl_shortOptions ctl_longOptions st with
      | (OptEnd, st) => Some (o, go_rest st)
      | (OptBad, _) => None
      | (Opt c arg, st) => o ← ctl_option c arg o; ctl_loop fuel posix st o
      end
  end.

Definition ctl_parse (posix : bool) (words : list string) : option (ctl_opts * list string) :=
  ctl_loop (Datatypes.S (words_size words)) posix (mkGetopt "" words []) (mkCtl false false None false).

(** crinitParamCheck(): equal to one of the two. *)
Definition crinitParamCheck (param short long : string) : bool := str_eqb param short || str_eqb param long.

(** ** The program *)

(** The exit code and what is printed. *)
Definition ctl_result : Type := Z * list string.

Section Program.
Context {S : Type} `{SockState S}.
Variable me : ucred.
Variables accepts answers : M S unit.
Variable stale : bool.
(** Of crinit-version.c, which the build generates. *)
Variable crinitVersion : crinitVersion.
Variable versionString : string.

Definition crinitPrintUsage : M S ctl_result := mret (EXIT_FAILURE, []).

Definition crinitPrintVersion (lib : client_lib) : M S (list string) :=
  daemonVer ← crinitClientGetVersion me accepts answers lib;
  mret (["crinit-ctl version " +:+ versionString; "crinit-client library version " +:+ version_text crinitVersion]%string
        ++ match daemonVer with Some v => [("crinit daemon version " +:+ version_text v)%string] | None => [] end).

(** What most actions end with. *)
Definition exit_with (call : M S Z) : M S ctl_result :=
  r ← call; mret (if r =? -1 then EXIT_FAILURE else EXIT_SUCCESS, []).

(** An action with a parameter. *)
Definition with_param (rest : list string) (f : string → M S ctl_result) : M S ctl_result :=
  match rest with [] => crinitPrintUsage | p :: _ => f p end.

Definition ctl_action (lib : client_lib) (action : string) (o : ctl_opts) (rest : list string) : M S ctl_result :=
  let overDeps := if ct_ignoreDeps o then Some "@empty"%string else ct_overDeps o in
  let does name := str_eqb action name in
  if does "addtask"%string then
    with_param rest (λ path,
      if negb (crinitIsAbsPath path) then mret (EXIT_FAILURE, []) else
      exit_with (crinitClientTaskAdd me accepts answers lib path (ct_overwrite o) overDeps))
  else if does "addseries"%string then
    with_param rest (λ path,
      if negb (crinitIsAbsPath path) then mret (EXIT_FAILURE, []) else
      exit_with (crinitClientSeriesAdd me accepts answers lib path (ct_overwrite o)))
  else if does "enable"%string then with_param rest (λ name, exit_with (crinitClientTaskEnable me accepts answers lib name))
  else if does "disable"%string then with_param rest (λ name, exit_with (crinitClientTaskDisable me accepts answers lib name))
  else if does "stop"%string then with_param rest (λ name, exit_with (crinitClientTaskStop me accepts answers lib name))
  else if does "kill"%string then with_param rest (λ name, exit_with (crinitClientTaskKill me accepts answers lib name))
  else if does "restart"%string then with_param rest (λ name, exit_with (crinitClientTaskRestart me accepts answers lib name))
  else if does "status"%string then
    with_param rest (λ name,
      st ← crinitClientTaskGetStatus me accepts answers lib stale name;
      mret match st with Some st => (EXIT_SUCCESS, [status_line st]) | None => (EXIT_FAILURE, []) end)
  else if does "notify"%string then
    (* argv[optind + 1] is getoptArgv[optind]: a missing second parameter is found by sd_notify() *)
    with_param rest (λ name,
      let lib := crinitClientSetNotifyTaskName (Some name) lib in
      match tail rest with
      | [] => mret (EXIT_FAILURE, [])
      | state :: _ => exit_with (sd_notify me accepts answers lib state)
      end)
  else if does "list"%string then
    match rest with
    | _ :: _ => crinitPrintUsage
    | [] =>
        tl ← crinitClientGetTaskList me accepts answers lib stale;
        mret match tl with Some tl => (EXIT_SUCCESS, list_lines tl) | None => (EXIT_FAILURE, []) end
    end
  else if str_eqb (basename (Some action)) "poweroff" then exit_with (crinitClientShutdown me accepts answers lib CRINIT_SHD_POWEROFF)
  else if str_eqb (basename (Some action)) "reboot" then exit_with (crinitClientShutdown me accepts answers lib CRINIT_SHD_REBOOT)
  else crinitPrintUsage.

(** [sockFile]: the environment variable CRINIT_SOCK. *)
Definition main (posix : bool) (sockFile : option string) (lib : client_lib) (argv : list string) : M S ctl_result :=
  let lib := crinitClientSetSocketPath sockFile lib in
  let prog := basename (head argv) in
  let direct := str_eqb prog "poweroff" || str_eqb prog "reboot" in
  if negb direct && (length argv <? 2)%nat then crinitPrintUsage else
  if negb direct && existsb (λ a, crinitParamCheck a "-V" "--version") argv then
    lines ← crinitPrintVersion lib; mret (EXIT_FAILURE, lines)
  else
  match (if direct then argv else tail argv) with
  | [] => crinitPrintUsage
  | action :: words =>
      match ctl_parse posix words with
      | None => crinitPrintUsage
      | Some (o, rest) => ctl_action lib action o rest
      end
  end.
End Program.
