(* ===== verification/CtlProps.v ===== *)
(** * The control program: what it reads, sends and prints

    The words of a command line in any order are read as documented; an action sends
    exactly the documented request; killing a task and asking for its status from the
    command line to the database and back. *)

From Stdlib Require Import ZArith Lia Bool List String Ascii.
From stdpp Require Import base list strings gmap.
From S2P Require Import Prelude CString EnvSet Timer Task TaskDB TaskDBSpec TaskDBProps TimerDB Lexers ConfConv Ini.
From S2P Require Import GlobOpt Cgroup GlobOptProps CgroupFs Launch ConfParse ConfTask ConfTaskProps ConfGlob ConfGlobProps FSeries.
From S2P Require Import RtimMsg RtimExec RtimProps RtimCtl ThrPool SockCom NotiServ NotiProps Client ClientProps Ctl.

Open Scope Z_scope.
Open Scope crinit_scope.

#[local] Arguments String.append : simpl nomatch.

(** ** Command lines *)

Inductive flag := Overwrite | IgnoreDeps | Verbose.

Definition flag_char (f : flag) : ascii := match f with Overwrite => "f" | IgnoreDeps => "i" | Verbose => "v" end.
Definition flag_name (f : flag) : string :=
  match f with Overwrite => "overwrite" | IgnoreDeps => "ignore-deps" | Verbose => "verbose" end.

(** The pieces of a command line after the action: short flags in one word, a long
    flag, the dependencies in one of four ways, and a parameter. *)
Inductive item :=
| Shorts (f : flag) (l : list flag)
| LongFlag (f : flag)
| Deps (long attached : bool) (d : string)
| Param (p : string).

Definition flag_text (l : list flag) : string := string_of_list_ascii (map flag_char l).

Definition item_words (x : item) : list string :=
  match x with
  | Shorts f l => [String "-" (String (flag_char f) (flag_text l))]
  | LongFlag f => [("--" +:+ flag_name f)%string]
  | Deps false false d => ["-d"; d]%string
  | Deps false true d => [("-d" +:+ d)%string]
  | Deps true false d => ["--override-deps"; d]%string
  | Deps true true d => [("--override-deps=" +:+ d)%string]
  | Param p => [p]
  end.

(** A parameter does not look like an option, and attached dependencies are not empty. *)
Definition item_wf (x : item) : Prop :=
  match x with Param p => word_kind p = WPlain | Deps false true d => d ≠ EmptyString | _ => True end.

Definition set_flag (f : flag) (o : ctl_opts) : ctl_opts :=
  match f with
  | Overwrite => mkCtl true (ct_ignoreDeps o) (ct_overDeps o) (ct_verbose o)
  | IgnoreDeps => mkCtl (ct_overwrite o) true (ct_overDeps o) (ct_verbose o)
  | Verbose => mkCtl (ct_overwrite o) (ct_ignoreDeps o) (ct_overDeps o) true
  end.
Definition set_item (x : item) (o : ctl_opts) : ctl_opts :=
  match x with
  | Shorts f l => fold_left (λ o f, set_flag f o) (f :: l) o
  | LongFlag f => set_flag f o
  | Deps _ _ d => mkCtl (ct_overwrite o) (ct_ignoreDeps o) (Some d) (ct_verbose o)
  | Param _ => o
  end.

Definition words_of (l : list item) : list string := l ≫= item_words.
Definition opts_of (l : list item) : ctl_opts := fold_left (λ o x, set_item x o) l (mkCtl false false None false).
Definition params_of (l : list item) : list string := l ≫= λ x, match x with Param p => [p] | _ => [] end.

(** ** Reading them *)

Lemma flag_option f o : ctl_option (flag_char f) None o = Some (set_flag f o).
Proof. by destruct f, o. Qed.

Lemma flag_short f : short_arg ctl_shortOptions (flag_char f) = Some no_argument.
Proof. by destruct f. Qed.

(** The rest of a word of short flags. *)
Lemma loop_cluster fuel l rest skipped o :
  (length l ≤ fuel)%nat →
  ctl_loop fuel false (mkGetopt (flag_text l) rest skipped) o =
  ctl_loop (fuel - length l) false (mkGetopt "" rest skipped) (fold_left (λ o f, set_flag f o) l o).
Proof.
  revert fuel o. induction l as [|f l IH]; intros fuel o Hf; [by rewrite Nat.sub_0_r|].
  destruct fuel as [|fuel]; [cbn in Hf; lia|]. cbn [ctl_loop flag_text map string_of_list_ascii fold_left length].
  unfold getopt_long. cbn [go_cluster go_rest go_skipped]. unfold short_option. rewrite flag_short. fold (flag_text l).
  rewrite flag_option. cbn [mbind option_bind]. apply IH. cbn in Hf. lia.
Qed.

Lemma loop_long fuel f rest skipped o :
  ctl_loop (S fuel) false (mkGetopt "" (("--" +:+ flag_name f)%string :: rest) skipped) o =
  ctl_loop fuel false (mkGetopt "" rest skipped) (set_flag f o).
Proof. destruct f, o; reflexivity. Qed.

Lemma loop_param fuel p rest skipped o :
  word_kind p = WPlain →
  ctl_loop fuel false (mkGetopt "" (p :: rest) skipped) o = ctl_loop fuel false (mkGetopt "" rest (skipped ++ [p])) o.
Proof. intros Hp. destruct fuel as [|fuel]; [done|]. cbn [ctl_loop]. unfold getopt_long. cbn [go_cluster go_rest go_skipped next_word]. by rewrite Hp. Qed.

Lemma loop_deps fuel long attached d rest skipped o :
  item_wf (Deps long attached d) →
  ctl_loop (S fuel) false (mkGetopt "" (item_words (Deps long attached d) ++ rest) skipped) o =
  ctl_loop fuel false (mkGetopt "" rest skipped) (set_item (Deps long attached d) o).
Proof.
  intros Hd. destruct o as [f i d0 v], long, attached; try reflexivity. cbn [item_wf] in Hd.
  cbn [ctl_loop item_words app]. unfold getopt_long. cbn [go_cluster go_rest go_skipped next_word]. destruct d as [|c d]; done.
Qed.

Lemma loop_item fuel x rest skipped o :
  item_wf x → (words_size (item_words x) ≤ fuel)%nat →
  ∃ fuel', (fuel ≤ fuel' + words_size (item_words x))%nat ∧
    ctl_loop fuel false (mkGetopt "" (item_words x ++ rest) skipped) o =
    ctl_loop fuel' false (mkGetopt "" rest (skipped ++ params_of [x])) (set_item x o).
Proof.
  intros Hx Hf. destruct x as [f l|f|long attached d|p].
  - destruct fuel as [|fuel]; [cbn in Hf; lia|]. exists (fuel - length l)%nat.
    assert (String.length (flag_text l) = length l) as Hlen by (unfold flag_text; clear; induction l; cbn; congruence).
    cbn [item_words words_size foldr String.length] in *. split; [lia|]. cbn [params_of mbind list_bind app]. rewrite app_nil_r.
    cbn [ctl_loop app]. unfold getopt_long. cbn [go_cluster go_rest go_skipped next_word].
    assert (word_kind (String "-" (String (flag_char f) (flag_text l))) = WShort (flag_char f) (flag_text l)) as -> by (by destruct f).
    unfold short_option. rewrite flag_short, flag_option. cbn [mbind option_bind]. apply loop_cluster. lia.
  - destruct fuel as [|fuel]; [cbn in Hf; lia|]. exists fuel. split; [cbn; lia|]. cbn [params_of mbind list_bind app]. rewrite app_nil_r.
    apply loop_long.
  - destruct fuel as [|fuel]; [destruct long, attached; cbn in Hf; lia|]. exists fuel. split; [destruct long, attached; cbn; lia|].
    cbn [params_of mbind list_bind app]. rewrite app_nil_r. by apply loop_deps.
  - exists fuel. split; [cbn; lia|]. by apply loop_param.
Qed.

Lemma words_size_app l l' : words_size (l ++ l') = (words_size l + words_size l')%nat.
Proof. induction l as [|w l IH]; [done|]. unfold words_size in *. cbn [foldr app]. rewrite IH. lia. Qed.

Lemma loop_items fuel l skipped o :
  Forall item_wf l → (words_size (words_of l) < fuel)%nat →
  ctl_loop fuel false (mkGetopt "" (words_of l) skipped) o = Some (fold_left (λ o x, set_item x o) l o, skipped ++ params_of l).
Proof.
  intros Hl. revert fuel skipped o. induction Hl as [|x l Hx _ IH]; intros fuel skipped o Hf.
  - destruct fuel as [|fuel]; [cbn in Hf; lia|]. cbn. by rewrite app_nil_r.
  - unfold words_of in *. rewrite bind_cons, words_size_app in *.
    destruct (loop_item fuel x (l ≫= item_words) skipped o Hx ltac:(lia)) as (fuel' & Hf' & ->). rewrite IH by lia.
    cbn [fold_left]. unfold params_of. rewrite bind_cons, <- app_assoc. cbn [mbind list_bind]. by rewrite app_nil_r.
Qed.

(** The words of a command line, in any order and spelling, are read as the options and
    the parameters they are. *)
Lemma ctl_parse_words l : Forall item_wf l → ctl_parse false (words_of l) = Some (opts_of l, params_of l).
Proof. intros Hl. unfold ctl_parse. rewrite loop_items by (done || lia). done. Qed.

(** ** The documented requests *)

(** The actions on a task. *)
Definition task_actions : list (string * (crinitRtimOp * crinitRtimOp)) :=
  [("enable", (CRINIT_RTIMCMD_C_ENABLE, CRINIT_RTIMCMD_R_ENABLE)); ("disable", (CRINIT_RTIMCMD_C_DISABLE, CRINIT_RTIMCMD_R_DISABLE));
   ("stop", (CRINIT_RTIMCMD_C_STOP, CRINIT_RTIMCMD_R_STOP)); ("kill", (CRINIT_RTIMCMD_C_KILL, CRINIT_RTIMCMD_R_KILL));
   ("restart", (CRINIT_RTIMCMD_C_RESTART, CRINIT_RTIMCMD_R_RESTART))]%string.

(** The last dependencies that were given; none if they are to be ignored. *)
Definition deps_arg (o : ctl_opts) : string :=
  if ct_ignoreDeps o then "@empty" else
  match ct_overDeps o with None => "@unchanged" | Some EmptyString => "@empty" | Some d => d end.
Definition bool_arg (b : bool) : string := if b then "true" else "false".

(** The request of an action with its options and parameters, by the documentation. *)
Inductive asks (l : list item) : string → crinitRtimOp → crinitRtimOp → list string → Prop :=
| AskTask action o r name more :
    In (action, (o, r)) task_actions → params_of l = name :: more → asks l action o r [name]
| AskAdd path more :
    params_of l = path :: more → crinitIsAbsPath path = true →
    asks l "addtask" CRINIT_RTIMCMD_C_ADDTASK CRINIT_RTIMCMD_R_ADDTASK [path; bool_arg (ct_overwrite (opts_of l)); deps_arg (opts_of l)]
| AskSeries path more :
    params_of l = path :: more → crinitIsAbsPath path = true →
    asks l "addseries" CRINIT_RTIMCMD_C_ADDSERIES CRINIT_RTIMCMD_R_ADDSERIES [path; bool_arg (ct_overwrite (opts_of l))]
| AskNotify name state more :
    params_of l = name :: state :: more → asks l "notify" CRINIT_RTIMCMD_C_NOTIFY CRINIT_RTIMCMD_R_NOTIFY [name; state]
| AskPoweroff : asks l "poweroff" CRINIT_RTIMCMD_C_SHUTDOWN CRINIT_RTIMCMD_R_SHUTDOWN ["1"%string]
| AskReboot : asks l "reboot" CRINIT_RTIMCMD_C_SHUTDOWN CRINIT_RTIMCMD_R_SHUTDOWN ["2"%string].

Definition known_actions : list string :=
  ["addtask"; "addseries"; "enable"; "disable"; "stop"; "kill"; "restart"; "status"; "notify"; "list"; "poweroff"; "reboot"]%string.

(** The program is not called under the name of an action. *)
Definition plain_program (prog : string) : Prop :=
  basename (Some prog) ≠ "poweroff"%string ∧ basename (Some prog) ≠ "reboot"%string.
Definition no_version (argv : list string) : Prop := existsb (λ a, crinitParamCheck a "-V" "--version") argv = false.

Section Program.
Context {S : Type} `{SockState S}.
Context (me : ucred) (accepts answers : M S unit) (stale : bool) (version : crinitVersion) (versionString : string).
Context (sock : option string) (lib : client_lib).

Notation run := (Ctl.main me accepts answers stale version versionString false sock lib).

Lemma str_eqb_ne a b : a ≠ b → str_eqb a b = false.
Proof. intros Hab. unfold str_eqb. by apply bool_decide_eq_false_2. Qed.

(** From the command line to the action. *)
Lemma main_action prog action l :
  plain_program prog → no_version (prog :: action :: words_of l) → Forall item_wf l →
  run (prog :: action :: words_of l) =
  ctl_action me accepts answers stale (crinitClientSetSocketPath sock lib) action (opts_of l) (params_of l).
Proof.
  intros [Hp1 Hp2] Hv Hl. unfold Ctl.main. cbn [head].
  rewrite (str_eqb_ne _ _ Hp1), (str_eqb_ne _ _ Hp2). cbn [orb negb andb length Nat.ltb Nat.leb].
  unfold no_version in Hv. rewrite Hv. cbn [tail]. by rewrite ctl_parse_words.
Qed.


Lemma kill_action lib' o name more :
  ctl_action me accepts answers stale lib' "kill" o (name :: more) = exit_with (crinitClientTaskKill me accepts answers lib' name).
Proof. reflexivity. Qed.
Lemma status_action lib' o name more :
  ctl_action me accepts answers stale lib' "status" o (name :: more) =
  (st ← crinitClientTaskGetStatus me accepts answers lib' stale name;
   mret match st with Some st => (EXIT_SUCCESS, [status_line st]) | None => (EXIT_FAILURE, []) end).
Proof. reflexivity. Qed.

(** Command lines that cannot be executed. *)
Inductive refused (l : list item) : string → Prop :=
| NoParam action : In action ["addtask"; "addseries"; "enable"; "disable"; "stop"; "kill"; "restart"; "status"; "notify"]%string →
    params_of l = [] → refused l action
| NotAbsolute action path more : In action ["addtask"; "addseries"]%string →
    params_of l = path :: more → crinitIsAbsPath path = false → refused l action
| NoState name : params_of l = [name] → refused l "notify"
| ListParam p more : params_of l = p :: more → refused l "list"
| Unknown action : ¬ In action known_actions → plain_program action → refused l action.

(** Then nothing is sent, and the program ends with a failure. *)
Lemma ctl_refuses prog action l s :
  plain_program prog → no_version (prog :: action :: words_of l) → Forall item_wf l → refused l action →
  run (prog :: action :: words_of l) s = Ret (EXIT_FAILURE, []) s.
Proof.
  intros Hp Hv Hl Hr. rewrite main_action by done. destruct Hr as [action Hin E|action path more Hin E Habs|name E|p more E|action Hin [H1 H2]].
  - rewrite E. cbn in Hin. repeat (destruct Hin as [<-|Hin]; [reflexivity|]). done.
  - rewrite E. unfold ctl_action. cbn in Hin.
    destruct Hin as [<-|[<-|[]]]; [change (str_eqb "addtask" "addtask") with true
      |change (str_eqb "addseries" "addseries") with true; change (str_eqb "addseries" "addtask") with false];
      cbn [with_param]; by rewrite Habs.
  - by rewrite E.
  - by rewrite E.
  - unfold ctl_action. assert (∀ name, In name known_actions → str_eqb action name = false) as Hne.
    { intros name Hn. apply str_eqb_ne. by intros ->. }
    rewrite !Hne by (cbn; auto 20). by rewrite (str_eqb_ne _ _ H1), (str_eqb_ne _ _ H2).
Qed.
End Program.

(** ** From the command line to the database and back *)

Section EndToEnd.
Context {B C : Type} `{TaskDBServices B} `{!Faulty C, !OptState C, !ConfFiles C, !TimerState C, !ConfEnv C, !SeriesEnv C}.
Context `{!DirEnv C, !RtimEnv C, !ServEnv C}.
Context (me : ucred) (stale : bool) (version : crinitVersion) (versionString : string) (sock : option string) (lib : client_lib).
Implicit Types s : server B C.

Notation run := (Ctl.main me (_ ← conn_accept; mret tt) conn_answer stale version versionString false sock lib).

(** A command line for the program under its own name, whose first parameter is [name]. *)
Record names (prog action : string) (l : list item) (name : string) : Prop := {
  nm_program : plain_program prog;
  nm_version : no_version (prog :: action :: words_of l);
  nm_items : Forall item_wf l;
  nm_param : head (params_of l) = Some name;
}.

(** C15: crinit-ctl kill of the daemon's user, from the command line through the library,
    the socket, the server thread and the handler and back: the program ends with success
    exactly if a process is registered for the task, and exactly then the process is sent
    SIGKILL; nothing is printed, and the tasks are as before. *)
Theorem ctl_kill_exact prog l name s :
  names prog "kill" l name → reachable me (crinitClientSetSocketPath sock lib) CRINIT_RTIMCMD_C_KILL [name] s →
  wp (run (prog :: "kill"%string :: words_of l))
    (λ res s', res.2 = [] ∧ tasks_of (sv_dm s') = tasks_of (sv_dm s) ∧
       match tasks_of (sv_dm s) !! name with
       | Some t => if 0 <? t_pid t then res.1 = EXIT_SUCCESS ∧ did (sv_dm s) (sv_dm s') [SysKill (t_pid t) SIGKILL]
                   else res.1 = EXIT_FAILURE ∧ did (sv_dm s) (sv_dm s') []
       | None => res.1 = EXIT_FAILURE ∧ did (sv_dm s) (sv_dm s') []
       end) s.
Proof.
  intros [Hp Hv Hl Hn] Hs. rewrite main_action by done. destruct (params_of l) as [|x more]; [done|]. injection Hn as ->.
  rewrite kill_action. unfold exit_with. apply wp_bind. eapply wp_mono; [|by apply crinitClientTaskKill_exact]. intros r s' [Ht Hr]. apply wp_ret. cbn [fst snd].
  split; [done|]. split; [done|]. destruct (tasks_of (sv_dm s) !! name) as [t|]; [case_match|]; destruct Hr as [-> Hd]; by split.
Qed.

(** C16: crinit-ctl status of the daemon's user, from the command line to the database and
    back: for a task of the database the program prints exactly one line, with the state,
    process, times, user and group of the task, and ends with success; for another name
    it prints nothing and ends with a failure; nothing changes. *)
Theorem ctl_status_prints prog l name s :
  names prog "status" l name → reachable me (crinitClientSetSocketPath sock lib) CRINIT_RTIMCMD_C_STATUS [name] s →
  stale = false → (∀ t, tasks_of (sv_dm s) !! name = Some t → printable t) →
  wp (run (prog :: "status"%string :: words_of l))
    (λ res s', kept (sv_dm s) (sv_dm s') ∧
       res = match tasks_of (sv_dm s) !! name with
             | Some t => (EXIT_SUCCESS, [status_line (status_of t)])
             | None => (EXIT_FAILURE, [])
             end) s.
Proof.
  intros [Hp Hv Hl Hn] Hs -> Ht. rewrite main_action by done. destruct (params_of l) as [|x more]; [done|]. injection Hn as ->.
  rewrite status_action.
  apply wp_bind. eapply wp_mono; [|by apply crinitClientTaskGetStatus_exact]. intros r s' [-> Hk]. apply wp_ret.
  split; [done|]. by destruct (tasks_of (sv_dm s) !! name).
Qed.
End EndToEnd.

(** ** Witnesses *)

(** crinit-ctl kill fs -v *)
Definition demo_items : list item := [Param "fs"; Shorts Verbose []].
Definition demo_lib : client_lib := mkLib "@undefined" "/run/crinit.sock".

Lemma demo_names action : action = "kill"%string ∨ action = "status"%string → names "/usr/bin/crinit-ctl" action demo_items "fs".
Proof. intros [-> | ->]; (split; [by vm_compute|by vm_compute|by repeat constructor|done]). Qed.

Lemma demo_ctl_reachable o :
  crinitCheckPerm (C := confd) o demo_root = true →
  reachable demo_root (crinitClientSetSocketPath None demo_lib) o ["fs"%string] (demo_server new_conn).
Proof. intros Hp. destruct (demo_reachable o Hp). by split. Qed.

Lemma ctl_kill_exact_witness :
  wp (Ctl.main demo_root (_ ← conn_accept; mret tt) conn_answer false (mkVersion 0 15 1 "abc") "0.15.1.abc" false None demo_lib
        ["/usr/bin/crinit-ctl"; "kill"; "fs"; "-v"]%string)
    (λ res s', res = (EXIT_SUCCESS, []) ∧ did (demo_daemon [] []) (sv_dm s') [SysKill 42 SIGKILL]) (demo_server new_conn).
Proof.
  eapply wp_mono; [|apply (ctl_kill_exact demo_root false (mkVersion 0 15 1 "abc") "0.15.1.abc" None demo_lib
    "/usr/bin/crinit-ctl" demo_items "fs" (demo_server new_conn)); [by apply demo_names; left|by apply demo_ctl_reachable]].
  intros [code out] s' (Ho & _ & Hr). cbn [sv_dm demo_server fst snd] in *. subst out.
  replace (tasks_of (demo_daemon [] []) !! "fs"%string) with (Some demo_run) in Hr by (vm_compute; reflexivity).
  destruct Hr as [-> Hr]. by split.
Defined.

Lemma ctl_status_prints_witness :
  wp (Ctl.main demo_root (_ ← conn_accept; mret tt) conn_answer false (mkVersion 0 15 1 "abc") "0.15.1.abc" false None demo_lib
        ["/usr/bin/crinit-ctl"; "status"; "fs"; "-v"]%string)
    (λ res s', kept (demo_daemon [] []) (sv_dm s') ∧
       res = (EXIT_SUCCESS, ["Status: running, PID: 42 CTime: 5.000000000s STime: n/a ETime: n/a USER: root(0) GROUP: root(0)"%string]))
    (demo_server new_conn).
Proof.
  eapply wp_mono; [|apply (ctl_status_prints demo_root false (mkVersion 0 15 1 "abc") "0.15.1.abc" None demo_lib
    "/usr/bin/crinit-ctl" demo_items "fs" (demo_server new_conn));
    [by apply demo_names; right|by apply demo_ctl_reachable|done|exact demo_printable]].
  intros res s' [Hk ->]. split; [exact Hk|]. vm_compute. reflexivity.
Defined.


(** The table of tasks. *)
Example demo_list :
  list_lines [("fs"%string, status_of demo_run); ("network-setup"%string, status_of demo_run)] =
  ["NAME            PID  USER GROUP STATUS"; "fs               42  root root  running"; "network-setup    42  root root  running"]%string.
Proof. vm_compute. reflexivity. Qed.
