(* ===== verification/Logio.v ===== *)
(** * Messages: src/logio.c

    The functions print to streams or to syslog under a mutex.  The state is the statics
    of the file and what was handed to the streams and to syslog, in order. *)

From Stdlib Require Import ZArith Lia Bool List String Ascii.
From stdpp Require Import base list strings gmap.
From S2P Require Import Prelude CString EnvSet Timer Task TaskDB Lexers ConfConv GlobOpt GlobOptProps RtimProps.

Open Scope Z_scope.
Open Scope crinit_scope.

#[local] Arguments String.append : simpl nomatch.

(** ** Arrays of characters *)

(** The string in an array, which must have an end. *)
Fixpoint text_of (b : list ascii) : option string :=
  match b with
  | [] => None
  | c :: b => if is_char c (chr 0) then Some EmptyString else String c <$> text_of b
  end.

(** strncpy() into an array of [n]: no end if the text does not leave a place for it. *)
Definition strncpy (src : string) (n : nat) : list ascii := take n (list_ascii_of_string src ++ repeat (chr 0) n).

(** ** printf() *)

Section Format.
(** The values of arguments, and how a directive prints the next of them. *)
Context {V : Type}.
Variable convert : string → list V → string * list V.

(** What may stand between the percent sign and the letter of a directive. *)
Definition in_directive (c : ascii) : bool := is_digit c || existsb (is_char c) ["-"; "+"; " "; "#"; "."; "*"; "l"; "h"; "z"; "j"; "t"; "L"]%char.

(** [dir]: what was read of a directive. *)
Fixpoint format_go (f : string) (dir : option string) (args : list V) : string :=
  match f, dir with
  | EmptyString, _ => EmptyString
  | String c f, None => if is_char c "%" then format_go f (Some EmptyString) args else String c (format_go f None args)
  | String c f, Some d =>
      if in_directive c then format_go f (Some (d +:+ str1 c)) args
      else if is_char c "%" then String "%" (format_go f None args)
      else let '(t, args) := convert (d +:+ str1 c) args in t +:+ format_go f None args
  end.
Definition vformat (f : string) (args : list V) : string := format_go f None args.

(** A format that does not end within a directive. *)
Fixpoint complete_go (f : string) (dir : bool) : bool :=
  match f with
  | EmptyString => negb dir
  | String c f => if dir then complete_go f (in_directive c) else complete_go f (is_char c "%")
  end.
Definition complete (f : string) : bool := complete_go f false.
End Format.

(** ** State *)

(** A FILE pointer. *)
Inductive stream := Stdout | Stderr | Kmsg | OtherFile (n : nat).
#[export] Instance stream_eq : EqDecision stream.
Proof. solve_decision. Defined.

Definition LOG_ERR : Z := 3.
Definition LOG_INFO : Z := 6.
Definition LOG_DEBUG : Z := 7.
Definition LOG_DAEMON : Z := 24.
Definition CRINIT_PRINT_PREFIX_MAX_LEN : nat := 32.
Definition CRINIT_PRINT_PREFIX : string := "[CRINIT] ".
Definition CRINIT_ERRNO_FMT : string := " Errno: ".

Inductive output := Written (f : stream) (t : string) | Logged (prio : Z) (t : string) | Openlog | Closelog.

Record logio := mkLogio {
  crinitPrintPrefix : list ascii;
  crinitInfoStream : option stream;
  crinitErrStream : option stream;
  crinitUseSyslog : bool;
  crinitLogLock : bool;
  sinks : list output;
}.
Definition set_prefix p l := mkLogio p (crinitInfoStream l) (crinitErrStream l) (crinitUseSyslog l) (crinitLogLock l) (sinks l).
Definition set_info i l := mkLogio (crinitPrintPrefix l) i (crinitErrStream l) (crinitUseSyslog l) (crinitLogLock l) (sinks l).
Definition set_err e l := mkLogio (crinitPrintPrefix l) (crinitInfoStream l) e (crinitUseSyslog l) (crinitLogLock l) (sinks l).
Definition set_use u l := mkLogio (crinitPrintPrefix l) (crinitInfoStream l) (crinitErrStream l) u (crinitLogLock l) (sinks l).
Definition set_lock k l := mkLogio (crinitPrintPrefix l) (crinitInfoStream l) (crinitErrStream l) (crinitUseSyslog l) k (sinks l).
Definition put_out o l := mkLogio (crinitPrintPrefix l) (crinitInfoStream l) (crinitErrStream l) (crinitUseSyslog l) (crinitLogLock l) (sinks l ++ [o]).

Definition init_logio : logio := mkLogio (strncpy CRINIT_PRINT_PREFIX CRINIT_PRINT_PREFIX_MAX_LEN) None None false false [].

Class LogState (S : Type) `{OptState S} := {
  get_logio : S → logio;
  set_logio : logio → S → S;
  get_set_logio : ∀ l s, get_logio (set_logio l s) = l;
  set_set_logio : ∀ l l' s, set_logio l (set_logio l' s) = set_logio l s;
  set_get_logio : ∀ s, set_logio (get_logio s) s = s;
  logio_faults : ∀ fs s, get_logio (set_faults fs s) = get_logio s;
  faults_logio : ∀ l s, faults (set_logio l s) = faults s;
  logio_opts : ∀ l s, get_opts (set_logio l s) = get_opts s;
  opts_logio : ∀ o s, get_logio (set_opts o s) = get_logio s;
}.

(** ** Operations *)

Section Operations.
Context {S : Type} `{LogState S}.
Context {V : Type}.
Variable convert : string → list V → string * list V.
(** strerror_l() in the POSIX locale. *)
Variable strerror_l : Z → string.

Definition mlogio : M S logio := s ← mget; mret (get_logio s).
Definition mlogio_modify (f : logio → logio) : M S unit := mmodify (λ s, set_logio (f (get_logio s)) s).

Definition log_lock : M S unit := l ← mlogio; if crinitLogLock l then mblock else mlogio_modify (set_lock true).
Definition log_unlock : M S unit := l ← mlogio; if crinitLogLock l then mlogio_modify (set_lock false) else mundef.

Definition fprint (f : stream) (t : string) : M S unit := mlogio_modify (put_out (Written f t)).

Definition crinitSetPrintPrefix (prefix : option string) : M S unit :=
  log_lock ;;
  mlogio_modify (set_prefix (strncpy (default CRINIT_PRINT_PREFIX prefix) CRINIT_PRINT_PREFIX_MAX_LEN)) ;;
  log_unlock.
Definition crinitSetInfoStream (f : option stream) : M S unit :=
  log_lock ;; mlogio_modify (set_info (Some (default Stdout f))) ;; log_unlock.
Definition crinitSetErrStream (f : option stream) : M S unit :=
  log_lock ;; mlogio_modify (set_err (Some (default Stderr f))) ;; log_unlock.
Definition crinitSetUseSyslog (sl : bool) : M S unit :=
  log_lock ;;
  l ← mlogio;
  (if sl && negb (crinitUseSyslog l) then mlogio_modify (put_out Openlog)
   else if negb sl && crinitUseSyslog l then mlogio_modify (put_out Closelog) else mret tt) ;;
  mlogio_modify (set_use sl) ;;
  log_unlock.

(** fprintf(stream, "%s", crinitPrintPrefix): the array must hold a string. *)
Definition prefix_text : M S string :=
  l ← mlogio; match text_of (crinitPrintPrefix l) with Some t => mret t | None => mundef end.

(** What crinitDbgInfoPrint() and crinitInfoPrint() share. *)
Definition info_print (prio : Z) (format : string) (args : list V) : M S unit :=
  log_lock ;;
  mlogio_modify (λ l, set_info (Some (default Stdout (crinitInfoStream l))) l) ;;
  l ← mlogio;
  let f := default Stdout (crinitInfoStream l) in
  (if crinitUseSyslog l then mlogio_modify (put_out (Logged (Z.lor prio LOG_DAEMON) (vformat convert format args)))
   else
     p ← prefix_text; fprint f p ;;
     fprint f (vformat convert format args) ;;
     fprint f (str1 c_newline)) ;;
  log_unlock.

Definition crinitDbgInfoPrint (format : string) (args : list V) : M S unit :=
  dbg ← crinitGlobOptGetBoolean DEBUG;
  if negb (dbg : bool) then mret tt else info_print LOG_DEBUG format args.
Definition crinitInfoPrint (format : string) (args : list V) : M S unit := info_print LOG_INFO format args.

(** CRINIT_ERROR_WITH_FFL_FMT *)
Definition ffl (file func : string) (line : Z) : string :=
  "(" +:+ file +:+ ":" +:+ func +:+ ":" +:+ print_dec line +:+ ") Error: ".

Definition crinitErrPrintFFL (file func : string) (line : Z) (format : string) (args : list V) : M S unit :=
  log_lock ;;
  mlogio_modify (λ l, set_err (Some (default Stderr (crinitErrStream l))) l) ;;
  l ← mlogio;
  let f := default Stderr (crinitErrStream l) in
  if crinitUseSyslog l then
    oom ← fallible;
    if (oom : bool) then mret tt  (* the mutex stays locked *)
    else
      let syslogFmt := ffl file func line +:+ format in
      mlogio_modify (put_out (Logged (Z.lor LOG_ERR LOG_DAEMON) (vformat convert syslogFmt args))) ;; log_unlock
  else
    p ← prefix_text; fprint f (p +:+ ffl file func line) ;;
    fprint f (vformat convert format args) ;;
    fprint f (str1 c_newline) ;;
    log_unlock.

(** [None]: the locale cannot be made. *)
Definition crinitThreadSafeStrerror (errNum : Z) : M S (option string) :=
  err ← fallible; mret (if (err : bool) then None else Some (strerror_l errNum)).

(** %s with a pointer that may be NULL *)
Definition print_str (t : option string) : M S string := match t with Some t => mret t | None => mundef end.

Definition crinitErrnoPrintFFL (errno : Z) (file func : string) (line : Z) (format : string) (args : list V) : M S unit :=
  log_lock ;;
  mlogio_modify (λ l, set_err (Some (default Stderr (crinitErrStream l))) l) ;;
  l ← mlogio;
  let f := default Stderr (crinitErrStream l) in
  if crinitUseSyslog l then
    e ← crinitThreadSafeStrerror errno;
    _ ← print_str e;  (* for the length *)
    oom ← fallible;
    if (oom : bool) then mret tt  (* the mutex stays locked *)
    else
      e ← crinitThreadSafeStrerror errno;
      e ← print_str e;
      let syslogFmt := ffl file func line +:+ format +:+ CRINIT_ERRNO_FMT +:+ e in
      mlogio_modify (put_out (Logged (Z.lor LOG_ERR LOG_DAEMON) (vformat convert syslogFmt args))) ;; log_unlock
  else
    p ← prefix_text; fprint f (p +:+ ffl file func line) ;;
    fprint f (vformat convert format args) ;;
    e ← crinitThreadSafeStrerror errno;
    e ← print_str e;
    fprint f (CRINIT_ERRNO_FMT +:+ e) ;;
    fprint f (str1 c_newline) ;;
    log_unlock.

(** [errno]: of fopen(), when it fails. *)
Definition crinitInitKmsgLogging (errno : Z) : M S unit :=
  err ← fallible;  (* fopen *)
  if (err : bool) then
    log_lock ;; mlogio_modify (λ l, set_err (Some Stderr) (set_info (Some Stdout) l)) ;; log_unlock ;;
    crinitErrnoPrintFFL errno "logio.c" "crinitInitKmsgLogging" 186 "Error openeing /dev/kmsg." []
  else log_lock ;; mlogio_modify (λ l, set_err (Some Kmsg) (set_info (Some Kmsg) l)) ;; log_unlock.
End Operations.

(** ** Formats and arrays *)

Section FormatLemmas.
Context {V : Type} (convert : string → list V → string * list V).

Lemma vformat_plain a f args :
  str_has "%" a = false → vformat convert (a +:+ f) args = (a +:+ vformat convert f args)%string.
Proof.
  unfold vformat. induction a as [|c a IH]; intros Ha; [done|]. rewrite str_has_cons, orb_false_iff in Ha. destruct Ha as [Hc Ha].
  change (String c a +:+ f)%string with (String c (a +:+ f)). cbn [format_go]. unfold is_char. rewrite Hc, IH by done. done.
Qed.

Lemma format_go_suffix b : str_has "%" b = false → ∀ f dir args,
  complete_go f (bool_decide (is_Some dir)) = true →
  format_go convert (f +:+ b) dir args = (format_go convert f dir args +:+ b)%string.
Proof.
  intros Hb. induction f as [|c f IH]; intros dir args Hf.
  - cbn in Hf. destruct dir as [d|]; [done|]. change ("" +:+ b)%string with b.
    pose proof (vformat_plain b "" args Hb) as Hp. rewrite string_app_nil_r in Hp. unfold vformat in Hp. rewrite Hp. cbn [format_go].
    by rewrite string_app_nil_r.
  - change (String c f +:+ b)%string with (String c (f +:+ b)). cbn [complete_go] in Hf. destruct dir as [d|]; cbn [format_go].
    + cbn in Hf. destruct (in_directive c); [by apply IH|]. destruct (is_char c "%"); [by rewrite IH|].
      destruct (convert _ args) as [t args']. rewrite IH by done. by rewrite string_app_assoc.
    + cbn in Hf. destruct (is_char c "%"); [by apply IH|]. by rewrite IH.
Qed.

Lemma vformat_suffix f b args :
  complete f = true → str_has "%" b = false → vformat convert (f +:+ b) args = (vformat convert f args +:+ b)%string.
Proof. intros Hf Hb. by apply format_go_suffix. Qed.
End FormatLemmas.

Lemma text_of_app l r : chr 0 ∉ l → text_of (l ++ chr 0 :: r) = Some (string_of_list_ascii l).
Proof.
  induction l as [|c l IH]; intros Hl; cbn [app text_of].
  { unfold is_char. by rewrite bool_decide_eq_true_2. }
  apply not_elem_of_cons in Hl as [Hc Hl]. unfold is_char. rewrite bool_decide_eq_false_2 by done. by rewrite IH.
Qed.

Lemma text_of_none l : chr 0 ∉ l → text_of l = None.
Proof.
  induction l as [|c l IH]; intros Hl; cbn [text_of]; [done|]. apply not_elem_of_cons in Hl as [Hc Hl].
  unfold is_char. rewrite bool_decide_eq_false_2 by done. by rewrite IH.
Qed.

Lemma str_has_elem c s : str_has c s = false ↔ c ∉ list_ascii_of_string s.
Proof.
  induction s as [|d s IH]; cbn [list_ascii_of_string]; [split; [intros _; apply not_elem_of_nil|done]|].
  rewrite str_has_cons, orb_false_iff, IH, not_elem_of_cons, bool_decide_eq_false. naive_solver.
Qed.

Lemma list_ascii_length s : length (list_ascii_of_string s) = String.length s.
Proof. induction s; cbn; congruence. Qed.

(** The copy is a string exactly if it leaves a place for the end. *)
Lemma strncpy_text src n :
  str_has (chr 0) src = false → text_of (strncpy src n) = if (String.length src <? n)%nat then Some src else None.
Proof.
  intros Hs%str_has_elem. unfold strncpy. rewrite take_app, list_ascii_length. destruct (Nat.ltb_spec (String.length src) n) as [Hl|Hl].
  - rewrite take_ge by (rewrite list_ascii_length; lia). destruct (n - String.length src)%nat as [|k] eqn:Ek; [lia|].
    destruct n as [|n]; [lia|]. cbn [repeat take]. by rewrite text_of_app, string_of_list_ascii_of_string.
  - replace (n - String.length src)%nat with 0%nat by lia. rewrite take_0, app_nil_r. apply text_of_none.
    intros He. apply Hs. by apply elem_of_take in He as (i & He & _); apply list_elem_of_lookup_2 in He.
Qed.

#[local] Arguments vformat : simpl never.
#[local] Arguments ffl : simpl never.
#[local] Arguments strncpy : simpl never.
#[local] Arguments CRINIT_ERRNO_FMT : simpl never.

(** ** What is promised: whole lines to one place *)

(** The destination of messages and the lines printed so far. *)
Record log_view := mkLogView {
  lv_prefix : string; lv_info : stream; lv_err : stream; lv_syslog : bool; lv_lines : list output;
}.

Inductive log_op (V : Type) :=
| OpPrefix (p : option string)
| OpInfoStream (f : option stream)
| OpErrStream (f : option stream)
| OpSyslog (sl : bool)
| OpKmsg (errno : Z)
| OpDbg (format : string) (args : list V)
| OpInfo (format : string) (args : list V)
| OpErr (file func : string) (line : Z) (format : string) (args : list V)
| OpErrno (errno : Z) (file func : string) (line : Z) (format : string) (args : list V).
Arguments OpPrefix {V}.
Arguments OpInfoStream {V}.
Arguments OpErrStream {V}.
Arguments OpSyslog {V}.
Arguments OpKmsg {V}.
Arguments OpDbg {V}.
Arguments OpInfo {V}.
Arguments OpErr {V}.
Arguments OpErrno {V}.

Definition add_lines (l : list output) (v : log_view) : log_view :=
  mkLogView (lv_prefix v) (lv_info v) (lv_err v) (lv_syslog v) (lv_lines v ++ l).

Section Refinement.
Context {S : Type} `{LogState S}.
Context {V : Type} (convert : string → list V → string * list V) (strerror_l : Z → string).

Definition run_op (op : log_op V) : M S unit :=
  match op with
  | OpPrefix p => crinitSetPrintPrefix p
  | OpInfoStream f => crinitSetInfoStream f
  | OpErrStream f => crinitSetErrStream f
  | OpSyslog sl => crinitSetUseSyslog sl
  | OpKmsg errno => crinitInitKmsgLogging (V := V) convert strerror_l errno
  | OpDbg format args => crinitDbgInfoPrint convert format args
  | OpInfo format args => crinitInfoPrint convert format args
  | OpErr file func line format args => crinitErrPrintFFL convert file func line format args
  | OpErrno errno file func line format args => crinitErrnoPrintFFL convert strerror_l errno file func line format args
  end.

(** A message is one line of the stream, after the prefix, or one message of syslog. *)
Definition whole_line (v : log_view) (f : stream) (prio : Z) (t : string) : log_view :=
  add_lines [if lv_syslog v then Logged (Z.lor prio LOG_DAEMON) t
             else Written f (lv_prefix v +:+ t +:+ str1 c_newline)] v.

Definition spec_op (dbg : bool) (v : log_view) (op : log_op V) : log_view :=
  match op with
  | OpPrefix p => mkLogView (default CRINIT_PRINT_PREFIX p) (lv_info v) (lv_err v) (lv_syslog v) (lv_lines v)
  | OpInfoStream f => mkLogView (lv_prefix v) (default Stdout f) (lv_err v) (lv_syslog v) (lv_lines v)
  | OpErrStream f => mkLogView (lv_prefix v) (lv_info v) (default Stderr f) (lv_syslog v) (lv_lines v)
  | OpSyslog sl =>
      mkLogView (lv_prefix v) (lv_info v) (lv_err v) sl
        (lv_lines v ++ if eqb sl (lv_syslog v) then [] else [if sl then Openlog else Closelog])
  | OpKmsg _ => mkLogView (lv_prefix v) Kmsg Kmsg (lv_syslog v) (lv_lines v)
  | OpDbg format args => if dbg then whole_line v (lv_info v) LOG_DEBUG (vformat convert format args) else v
  | OpInfo format args => whole_line v (lv_info v) LOG_INFO (vformat convert format args)
  | OpErr file func line format args => whole_line v (lv_err v) LOG_ERR (ffl file func line +:+ vformat convert format args)
  | OpErrno errno file func line format args =>
      whole_line v (lv_err v) LOG_ERR (ffl file func line +:+ vformat convert format args +:+ CRINIT_ERRNO_FMT +:+ strerror_l errno)
  end.

(** The text on a stream, and what syslog was told. *)
Definition text_on (f : stream) (l : list output) : string :=
  fold_right (λ o t, match o with Written g u => if decide (f = g) then u +:+ t else t | _ => t end) EmptyString l.
Definition sys (l : list output) : list output := l ≫= λ o, match o with Written _ _ => [] | _ => [o] end.
Definition same_text (a b : list output) : Prop := (∀ f, text_on f a = text_on f b) ∧ sys a = sys b.

Record shows (l : logio) (v : log_view) : Prop := {
  sh_prefix : text_of (crinitPrintPrefix l) = Some (lv_prefix v);
  sh_info : default Stdout (crinitInfoStream l) = lv_info v;
  sh_err : default Stderr (crinitErrStream l) = lv_err v;
  sh_syslog : crinitUseSyslog l = lv_syslog v;
  sh_lock : crinitLogLock l = false;
  sh_lines : same_text (sinks l) (lv_lines v);
}.

(** Prefixes that leave a place for the end; names of files and functions and texts of
    errors, which become part of a format, without percent signs. *)
Definition op_fine (op : log_op V) : Prop :=
  match op with
  | OpPrefix (Some p) => (String.length p < CRINIT_PRINT_PREFIX_MAX_LEN)%nat ∧ str_has (chr 0) p = false
  | OpErr file func _ _ _ => str_has "%" file = false ∧ str_has "%" func = false
  | OpErrno errno file func _ format _ =>
      str_has "%" file = false ∧ str_has "%" func = false ∧ complete format = true ∧ str_has "%" (strerror_l errno) = false
  | _ => True
  end.

Lemma text_on_app f a b : text_on f (a ++ b) = (text_on f a +:+ text_on f b)%string.
Proof.
  induction a as [|o a IH]; cbn; [done|]. destruct o as [g u| | |]; try done. case_decide; [|done].
  unfold text_on in IH. by rewrite IH, string_app_assoc.
Qed.

Lemma same_text_app a b c d : same_text a c → same_text b d → same_text (a ++ b) (c ++ d).
Proof. intros [Ht Hs] [Ht' Hs']. split; [intros f; by rewrite !text_on_app, Ht, Ht'|]. unfold sys in *. by rewrite !bind_app, Hs, Hs'. Qed.

Lemma same_text_refl a : same_text a a.
Proof. done. Qed.
Hint Resolve same_text_refl same_text_app : core.

(** Pieces written to one stream are as good as one. *)
Lemma pieces_joined f l : same_text (map (Written f) l) [Written f (fold_right (λ a b, a +:+ b)%string "" l)].
Proof.
  split; [|unfold sys; induction l as [|t l IH]; [done|exact IH]].
  intros g. cbn [text_on fold_right]. destruct (decide (g = f)) as [->|Hg].
  - rewrite string_app_nil_r. unfold text_on. induction l as [|t l IH]; cbn [map fold_right]; [done|].
    rewrite decide_True by done. by rewrite IH.
  - unfold text_on. induction l as [|t l IH]; cbn [map fold_right]; [done|]. by rewrite decide_False.
Qed.

Lemma fallible_logio l s : quiet s → fallible (set_logio l s) = Ret false (set_logio l s).
Proof. intros Hq. apply fallible_quiet. unfold quiet. by rewrite faults_logio. Qed.

Lemma dbg_run s m : quiet s → opt_locked (get_opts s) = false → crinitGlobOptGetBoolean m s = Ret (bools (get_opts s) m) s.
Proof. intros Hq Ho. by apply (run_getter (λ o, bools o m)). Qed.

(** Computes a run: the state is the one before with other statics. *)
Ltac log_run El :=
  unfold crinitInfoPrint, info_print, log_lock, log_unlock, prefix_text, fprint, print_str, crinitThreadSafeStrerror,
    mlogio, mlogio_modify, mmodify, mget, mbind, M_bind, mret, M_ret, set_lock, set_info, set_err, set_use, set_prefix, put_out; cbn;
  repeat first [rewrite get_set_logio | rewrite set_set_logio | rewrite fallible_quiet by assumption
               | rewrite fallible_logio by assumption | progress rewrite El | progress cbn].

Lemma prefix_default : text_of (strncpy CRINIT_PRINT_PREFIX CRINIT_PRINT_PREFIX_MAX_LEN) = Some CRINIT_PRINT_PREFIX.
Proof. by vm_compute. Qed.

Lemma ffl_plain file func line : str_has "%" file = false → str_has "%" func = false → str_has "%" (ffl file func line) = false.
Proof.
  intros Hf Hg. unfold ffl. rewrite !str_has_app, Hf, Hg. cbn [orb str_has str_break bool_decide].
  pose proof (lacks_print "%" eq_refl line) as Hp. unfold lacks in Hp. by rewrite Hp.
Qed.

Lemma info_print_run prio format args s v :
  shows (get_logio s) v → ∃ l, info_print convert prio format args s = Ret tt (set_logio l s) ∧
    shows l (whole_line v (lv_info v) prio (vformat convert format args)).
Proof.
  destruct v as [vp vi ve vu vo]. intros [Hp Hi He Hu Hl Ho]. destruct (get_logio s) as [p i e u k o] eqn:El. cbn in *. subst.
  log_run El. destruct vu; log_run El.
  - eexists. split; [done|]. split; cbn; try done. by apply same_text_app.
  - rewrite Hp. log_run El. eexists. split; [done|]. split; cbn; try done. rewrite <- !app_assoc. apply same_text_app; [done|].
    apply (pieces_joined _ [vp; vformat convert format args; str1 c_newline]).
Qed.

Lemma err_print_run file func line format args s v :
  quiet s → shows (get_logio s) v → str_has "%" file = false → str_has "%" func = false →
  ∃ l, crinitErrPrintFFL convert file func line format args s = Ret tt (set_logio l s) ∧
    shows l (whole_line v (lv_err v) LOG_ERR (ffl file func line +:+ vformat convert format args)).
Proof.
  destruct v as [vp vi ve vu vo]. intros Hq [Hp Hi He Hu Hl Ho] Hf Hg. destruct (get_logio s) as [p i e u k o] eqn:El. cbn in *. subst.
  unfold crinitErrPrintFFL. log_run El. destruct vu; log_run El.
  - eexists. split; [done|]. split; cbn; try done. rewrite vformat_plain by (by apply ffl_plain). by apply same_text_app.
  - rewrite Hp. log_run El. eexists. split; [done|]. split; cbn; try done. rewrite <- !app_assoc, string_app_assoc. apply same_text_app; [done|].
    rewrite <- string_app_assoc. apply (pieces_joined _ [(vp +:+ ffl file func line)%string; vformat convert format args; str1 c_newline]).
Qed.

Lemma errno_print_run errno file func line format args s v :
  quiet s → shows (get_logio s) v → str_has "%" file = false → str_has "%" func = false →
  complete format = true → str_has "%" (strerror_l errno) = false →
  ∃ l, crinitErrnoPrintFFL convert strerror_l errno file func line format args s = Ret tt (set_logio l s) ∧
    shows l (whole_line v (lv_err v) LOG_ERR
               (ffl file func line +:+ vformat convert format args +:+ CRINIT_ERRNO_FMT +:+ strerror_l errno)).
Proof.
  destruct v as [vp vi ve vu vo]. intros Hq [Hp Hi He Hu Hl Ho] Hf Hg Hc Hs.
  destruct (get_logio s) as [p i e u k o] eqn:El. cbn in *. subst.
  unfold crinitErrnoPrintFFL. log_run El. destruct vu; log_run El.
  - eexists. split; [done|]. split; cbn; try done. rewrite vformat_plain by (by apply ffl_plain).
    rewrite vformat_suffix by (try done; by rewrite str_has_app, Hs). by apply same_text_app.
  - rewrite Hp. log_run El. eexists. split; [done|]. split; cbn; try done. rewrite <- !app_assoc. apply same_text_app; [done|].
    rewrite !string_app_assoc, <- (string_app_assoc vp).
    exact (pieces_joined _ [(vp +:+ ffl file func line)%string; vformat convert format args;
                            (CRINIT_ERRNO_FMT +:+ strerror_l errno)%string; str1 c_newline]).
Qed.

Lemma op_run op s v :
  quiet s → opt_locked (get_opts s) = false → shows (get_logio s) v → op_fine op →
  ∃ l, run_op op s = Ret tt (set_logio l s) ∧ shows l (spec_op (bools (get_opts s) DEBUG) v op).
Proof.
  intros Hq Ho Hs Hf. destruct op as [p|f|f|sl|errno|format args|format args|file func line format args|errno file func line format args];
    cbn [run_op spec_op op_fine] in *.
  6:{ unfold crinitDbgInfoPrint, mbind, M_bind. rewrite dbg_run by done. destruct (bools _ _); cbn [negb]; [by apply info_print_run|].
      exists (get_logio s). by rewrite set_get_logio. }
  6: by apply info_print_run.
  6: by apply err_print_run; destruct Hf.
  6: by apply errno_print_run; destruct_and! Hf.
  all: destruct v as [vp vi ve vu vo]; destruct Hs as [Hp Hi He Hu Hl Hv]; destruct (get_logio s) as [p' i e u k o] eqn:El; cbn in *; subst.
  - unfold crinitSetPrintPrefix. log_run El. eexists. split; [done|]. split; try done. cbn [crinitPrintPrefix lv_prefix].
    destruct p as [p|]; [|apply prefix_default]. destruct Hf as [Hl Hz]. cbn [default]. rewrite strncpy_text by done.
    by rewrite (proj2 (Nat.ltb_lt _ _)).
  - unfold crinitSetInfoStream. log_run El. eexists. split; [done|]. by destruct f.
  - unfold crinitSetErrStream. log_run El. eexists. split; [done|]. by destruct f.
  - unfold crinitSetUseSyslog. log_run El. destruct sl, vu; log_run El; (eexists; split; [done|]); split; cbn; rewrite ?app_nil_r; try done; by apply same_text_app.
  - unfold crinitInitKmsgLogging. log_run El. eexists. by split.
Qed.

(** C39: When no call fails and no thread holds the mutex, any sequence of calls of the functions of logio.c
    ends, releases the mutex, and what reaches the streams and syslog is exactly one whole line or
    message per call, to the place that the calls before it selected, with the prefix, the position in
    the source and the text of errno as documented; debug messages only with the option DEBUG. *)
Theorem log_refines_lines ops s v :
  quiet s → opt_locked (get_opts s) = false → shows (get_logio s) v → Forall op_fine ops →
  ∃ l, mfor ops run_op s = Ret tt (set_logio l s) ∧ shows l (fold_left (spec_op (bools (get_opts s) DEBUG)) ops v).
Proof.
  intros Hq Ho Hs Hf. revert s v Hq Ho Hs. induction Hf as [|op ops Hop Hf IH]; intros s v Hq Ho Hs; cbn [mfor fold_left].
  { exists (get_logio s). by rewrite set_get_logio. }
  destruct (op_run op s v Hq Ho Hs Hop) as (l & Hr & Hl). unfold mbind, M_bind. rewrite Hr.
  destruct (IH (set_logio l s) (spec_op (bools (get_opts s) DEBUG) v op)) as (l' & Hr' & Hl').
  - unfold quiet. by rewrite faults_logio.
  - by rewrite logio_opts.
  - by rewrite get_set_logio.
  - exists l'. rewrite Hr', set_set_logio. rewrite logio_opts in Hl'. done.
Qed.

(** A call that takes the mutex at once. *)
Definition takes_lock (op : log_op V) : Prop := match op with OpKmsg _ | OpDbg _ _ => False | _ => True end.

(** An allocation that fails while an error is sent to syslog leaves the mutex locked: every
    later message waits forever. *)
Lemma error_message_deadlock file func line format args s fs :
  faults s = true :: fs → crinitLogLock (get_logio s) = false → crinitUseSyslog (get_logio s) = true →
  ∃ s', crinitErrPrintFFL convert file func line format args s = Ret tt s' ∧ ∀ op, takes_lock op → run_op op s' = Block.
Proof.
  intros Hq Hl Hu. destruct (get_logio s) as [p i e u k o] eqn:El. cbn in *. subst. unfold crinitErrPrintFFL. log_run El.
  unfold fallible. rewrite faults_logio, Hq. cbn. eexists. split; [done|]. intros op Hop.
  assert (∀ A (k : unit → M S A) l0, (log_lock ≫= k) (set_faults fs (set_logio (mkLogio p i l0 true true o) s)) = Block) as Hb.
  { intros A k l0. unfold log_lock, mlogio, mget, mbind, M_bind, mret, M_ret. cbn. by rewrite logio_faults, get_set_logio. }
  destruct op; try done; apply Hb.
Qed.

(** A prefix of 32 characters has no end: the next message reads behind the array. *)
Lemma long_prefix_undef prefix format args s :
  crinitLogLock (get_logio s) = false → crinitUseSyslog (get_logio s) = false →
  (CRINIT_PRINT_PREFIX_MAX_LEN ≤ String.length prefix)%nat → str_has (chr 0) prefix = false →
  (crinitSetPrintPrefix (Some prefix) ;; crinitInfoPrint convert format args) s = Undef.
Proof.
  intros Hl Hu Hp Hz. destruct (get_logio s) as [p i e u k o] eqn:El. cbn in *. subst. unfold crinitSetPrintPrefix. log_run El.
  rewrite strncpy_text by done. by rewrite (proj2 (Nat.ltb_ge _ _)).
Qed.
End Refinement.

(** ** Examples *)

Record logd := mkLogd { ld_opt : optd; ld_log : logio }.
#[export, refine] Instance logd_faulty : Faulty logd := {|
  faults := λ s, faults (ld_opt s);
  set_faults := λ l s, mkLogd (set_faults l (ld_opt s)) (ld_log s);
  idle := λ s, idle (ld_opt s);
|}.
Proof. all: done || by intros [[]]. Defined.
#[export, refine] Instance logd_opts : OptState logd := {|
  get_opts := λ s, get_opts (ld_opt s);
  set_opts := λ o s, mkLogd (set_opts o (ld_opt s)) (ld_log s);
|}.
Proof. all: done || by intros [[]]. Defined.
#[export, refine] Instance logd_log : LogState logd := {|
  get_logio := ld_log;
  set_logio := λ l s, mkLogd (ld_opt s) l;
|}.
Proof. all: done || by intros []. Defined.

Definition demo_logd : logd := mkLogd demo_optd init_logio.
Definition demo_view : log_view := mkLogView CRINIT_PRINT_PREFIX Stdout Stderr false [].

(** Arguments that are strings. *)
Definition demo_convert (_ : string) (args : list string) : string * list string :=
  match args with a :: args => (a, args) | [] => ("", []) end.
Definition demo_strerror (_ : Z) : string := "No such file or directory".
Definition demo_calls : list (log_op string) :=
  [OpInfo "task %s: 100%%" ["t"%string]; OpDbg "hidden" []; OpErrno 2 "task.c" "f" 7 "no %-5s" ["x"%string];
   OpSyslog true; OpErr "a.c" "g" 12 "bad" []].

Lemma demo_shows : shows init_logio demo_view.
Proof. by split. Qed.

Lemma log_refines_lines_witness :
  ∃ l, mfor demo_calls (run_op demo_convert demo_strerror) demo_logd = Ret tt (set_logio l demo_logd) ∧
    shows l (mkLogView "[CRINIT] " Stdout Stderr true
      [Written Stdout ("[CRINIT] task t: 100%" +:+ str1 c_newline);
       Written Stderr ("[CRINIT] (task.c:f:7) Error: no x Errno: No such file or directory" +:+ str1 c_newline);
       Openlog; Logged 27 "(a.c:g:12) Error: bad"]).
Proof.
  destruct (log_refines_lines demo_convert demo_strerror demo_calls demo_logd demo_view) as (l & Hr & Hs);
    [reflexivity|reflexivity|exact demo_shows|repeat constructor|].
  exists l. split; [exact Hr|].
  match type of Hs with shows _ ?w => match goal with |- shows _ ?v => replace v with w by (vm_compute; reflexivity) end end.
  exact Hs.
Defined.
