(* ===== verification/MachineId.v ===== *)
(** * The generator of the machine id: src/machine-id-gen.c

    The program writes MACHINE_ID_FILE from the kernel command line or, when built for
    aarch64, from the registers of an S32G.  Texts on stderr are left out. *)

From Stdlib Require Import ZArith Lia Bool List String Ascii.
From stdpp Require Import base list strings gmap.
From S2P Require Import Prelude CString EnvSet Timer Task TaskDB Lexers ConfConv GlobOpt TimerPrint Cgroup ConfParse ConfTask ConfGlob FSeries.
From S2P Require Import Ini Dispatch RtimMsg RtimExec SockCom CgroupFs Launch LaunchProps ElosDep ElosDemo ElosLog Logio.

Open Scope Z_scope.
Open Scope crinit_scope.

#[local] Arguments String.append : simpl nomatch.

(** ** The machine *)

Record host := mkHost {
  h_cmdline : string;     (* what /proc/cmdline contains *)
  h_mem : Z → ascii;      (* physical memory *)
  h_page : Z;             (* sysconf(_SC_PAGE_SIZE), as a size_t *)
  h_mid : option string;  (* MACHINE_ID_FILE *)
  h_out : string;         (* what was printed on stdout *)
  h_faults : list bool;
}.
Definition set_mid f h := mkHost (h_cmdline h) (h_mem h) (h_page h) f (h_out h) (h_faults h).
Definition set_out o h := mkHost (h_cmdline h) (h_mem h) (h_page h) (h_mid h) o (h_faults h).

#[export, refine] Instance faulty_host : Faulty host := {|
  faults := h_faults;
  set_faults := λ l h, mkHost (h_cmdline h) (h_mem h) (h_page h) (h_mid h) (h_out h) l;
  idle := λ _, True;
|}.
Proof. all: by try (intros ?? []); try intros []. Defined.

Definition S32G_OCOTP_BASE : Z := 0x400a4000.
Definition S32G_OCOTP_OFFSET_UID : Z := 0x210.
Definition S32G_SIUL21_BASE : Z := 0x44010000.
Definition S32G_SIUL21_OFFSET_MIDR1 : Z := 0x4.
Definition S32G_SIUL21_MCUID_VAL : Z := 0x4C200000.
Definition S32G_SIUL21_MCUID_MASK : Z := 0xFFFF0000.
Definition MID_STR_LEN : nat := 36.
Definition KERNEL_CMDLINE_MAX_LEN : Z := 4096.
Definition KERNEL_CMDLINE_KEY : string := "systemd.machine_id".

(** ** The C library *)

Definition printf (t : string) : M host unit := mmodify (λ h, set_out (h_out h +:+ t) h).

(** The text from the first occurrence of the needle on. *)
Fixpoint strstr (needle s : string) : option string :=
  if String.prefix needle s then Some s
  else match s with EmptyString => None | String _ s => strstr needle s end.

(** An assignment to an element of an array. *)
Definition store (i : nat) (c : ascii) (b : list ascii) : M host (list ascii) :=
  if (i <? length b)%nat then mret (<[i := c]> b) else mundef.

(** snprintf(): at most [n - 1] characters and the end. *)
Fixpoint put_text (t : string) (i : nat) (b : list ascii) : M host (list ascii) :=
  match t with
  | EmptyString => store i (chr 0) b
  | String c t => b ← store i c b; put_text t (S i) b
  end.
Definition snprintf (b : list ascii) (n : nat) (t : string) : M host (Z * list ascii) :=
  b ← (if (n =? 0)%nat then mret b else put_text (take_bytes (Z.of_nat n - 1) t) 0 b);
  mret (bytes t, b).

(** %02x of an uint8_t *)
Definition hex2 (c : ascii) : string := String (hex_digit (of_byte c / 16)) (String (hex_digit (of_byte c mod 16)) "").
Fixpoint hex_text (s : string) : string := match s with EmptyString => "" | String c s => hex2 c +:+ hex_text s end.

(** Memory from an address on. *)
Fixpoint mem_at (mem : Z → ascii) (addr : Z) (len : nat) : string :=
  match len with O => EmptyString | S len => String (mem addr) (mem_at mem (addr + 1) len) end.

(** ** The functions *)

(** The loop that copies the value without its dashes, from [mid[i]] on. *)
Fixpoint copy_value (v : string) (n i : nat) (mid : list ascii) : M host (nat * list ascii) :=
  match v with
  | EmptyString => mret (i, mid)
  | String c v =>
      if negb (i <? n)%nat then mret (i, mid)
      else if is_char c "-" then copy_value v n i mid
      else mid ← store i c mid; copy_value v n (S i) mid
  end.

Definition value_end (c : ascii) : bool := is_char c " " || is_char c c_newline.

(** What follows reading the command line. *)
Definition scan_cmdline (cmdLine : string) (mid : list ascii) (n : nat) : M host (Z * list ascii) :=
  match strstr (KERNEL_CMDLINE_KEY +:+ "=") cmdLine with
  | None => mret (-2, mid)
  | Some midPtr =>
      match str_break "=" midPtr with
      | None => mundef
      | Some (_, midPtr) =>
          let value := fst (span (λ c, negb (value_end c)) midPtr) in
          '(i, mid) ← copy_value value n 0 mid;
          mid ← store i (chr 0) mid;
          mret (0, mid)
      end
  end.

Definition crinitGetMidKernelCmdLine (mid : list ascii) (n : nat) : M host (Z * list ascii) :=
  err ← fallible;  (* fopen *)
  if (err : bool) then mret (-1, mid) else
  (* fread() returns 0 or 1, so that only ferror() decides *)
  err ← fallible;
  if (err : bool) then mret (-1, mid) else
  h ← mget;
  scan_cmdline (cut_nul (take_bytes (KERNEL_CMDLINE_MAX_LEN - 1) (h_cmdline h))) mid n.

(** [None] for -1. *)
Definition crinitReadPhysMem (phyAddr : Z) (len : nat) : M host (option string) :=
  h ← mget;
  let pageSize := h_page h in
  if pageSize =? 0 then mundef else
  let pageBase := phyAddr / pageSize * pageSize in
  let mapLen := phyAddr - pageBase + Z.of_nat len in
  err ← fallible;  (* open *)
  if (err : bool) then mret None else
  err ← fallible;  (* mmap *)
  if (err : bool) then mret None else
  let mem := mem_at (h_mem h) pageBase (Z.to_nat mapLen) in
  (* the bytes that are copied must be mapped *)
  if (phyAddr - pageBase <? 0) || (bytes mem <? phyAddr - pageBase + Z.of_nat len) then mundef else
  mret (Some (String.substring (Z.to_nat (phyAddr - pageBase)) len mem)).

Definition crinitCheckS32 : M host (option bool) :=
  reg ← crinitReadPhysMem (S32G_SIUL21_BASE + S32G_SIUL21_OFFSET_MIDR1) 4;
  mret ((λ b, Z.land (le_value b) S32G_SIUL21_MCUID_MASK =? S32G_SIUL21_MCUID_VAL) <$> reg).

Definition crinitReadS32Uid : M host (option Z) :=
  reg ← crinitReadPhysMem (S32G_OCOTP_BASE + S32G_OCOTP_OFFSET_UID) 8;
  mret (le_value <$> reg).

Definition crinitS32UidToMid (mid : list ascii) (n : nat) (uid : Z) : M host (Z * list ascii) :=
  let b := le_bytes 8 uid in
  snprintf mid n (hex_text b +:+ hex_text b).

Section Program.
(** Whether the program was built for aarch64. *)
Variable aarch64 : bool.

(** The id from the registers; [None] where main() fails. *)
Definition mid_from_s32 (machId : list ascii) : M host (option (list ascii)) :=
  if negb aarch64 then mret None else
  printf "Will check if we are on S32 hardware... " ;;
  onS32 ← crinitCheckS32;
  match onS32 with
  | None => printf ("Could not determine if we are running on an S32G (real hardware)." +:+ str1 c_newline) ;; mret None
  | Some false => printf ("We do not seem to be on an NXP S32-based host system." +:+ str1 c_newline) ;; mret None
  | Some true =>
      printf ("Yes." +:+ str1 c_newline +:+ "Will generate machine ID from unique ID in OTP memory... ") ;;
      uid ← crinitReadS32Uid;
      match uid with
      | None => printf ("Could not read UID from S32G OTP memory." +:+ str1 c_newline) ;; mret None
      | Some uid => '(_, machId) ← crinitS32UidToMid machId (S MID_STR_LEN) uid; mret (Some machId)
      end
  end.

(** The stream is buffered: the text reaches the file in fclose(), whose result is
    not looked at. *)
Definition write_machine_id (machId : list ascii) : M host Z :=
  err ← fallible;  (* fopen *)
  if (err : bool) then mret EXIT_FAILURE else
  mmodify (set_mid (Some EmptyString)) ;;
  match text_of machId with
  | None => mundef
  | Some id =>
      err ← fallible;  (* fprintf *)
      if (err : bool) then mret EXIT_FAILURE else
      printf ("Done." +:+ str1 c_newline +:+ "Machine ID: " +:+ id +:+ str1 c_newline) ;;
      err ← fallible;  (* fclose *)
      (if (err : bool) then mret tt else mmodify (set_mid (Some (id +:+ str1 c_newline)))) ;;
      mret EXIT_SUCCESS
  end.

Definition main (argc : Z) : M host Z :=
  if negb (argc =? 1) then mret 0 else
  let machId := repeat (chr 0) (S MID_STR_LEN) in
  printf "Checking Kernel command line for machine ID..." ;;
  '(r, machId) ← crinitGetMidKernelCmdLine machId (S MID_STR_LEN);
  if r =? 0 then printf (" Found!" +:+ str1 c_newline) ;; write_machine_id machId
  else
    printf (" None found." +:+ str1 c_newline) ;;
    id ← mid_from_s32 machId;
    match id with None => mret EXIT_FAILURE | Some machId => write_machine_id machId end.
End Program.

(** ** Lemmas on the helpers *)

(** [pre] is what precedes the first occurrence of the needle. *)
Definition first_at (needle pre t : string) : Prop :=
  ∀ a b, (pre +:+ needle +:+ t = a +:+ needle +:+ b)%string → (String.length pre ≤ String.length a)%nat.

Lemma prefix_app a b : String.prefix a (a +:+ b) = true.
Proof. induction a as [|c a IH]; [by destruct b|]. change (String.prefix (String c a) (String c (a +:+ b)) = true). cbn. by destruct (ascii_dec c c). Qed.

Lemma prefix_rest a s : String.prefix a s = true → ∃ t, s = (a +:+ t)%string.
Proof.
  revert s. induction a as [|c a IH]; intros s; [by exists s|]. destruct s as [|d s]; cbn; [done|].
  destruct (ascii_dec c d) as [->|]; [|done]. intros [t ->]%IH. by exists t.
Qed.

Lemma strstr_first needle pre t :
  first_at needle pre t → strstr needle (pre +:+ needle +:+ t) = Some (needle +:+ t)%string.
Proof.
  induction pre as [|c pre IH]; intros Hf.
  { change ("" +:+ needle +:+ t)%string with (needle +:+ t)%string. pose proof (prefix_app needle t) as Hp.
    destruct (needle +:+ t)%string; cbn [strstr]; by rewrite Hp. }
  change (String c pre +:+ needle +:+ t)%string with (String c (pre +:+ needle +:+ t)). cbn [strstr].
  destruct (String.prefix needle (String c (pre +:+ needle +:+ t))) eqn:Hp.
  - apply prefix_rest in Hp as [b Hb]. specialize (Hf "" b Hb). cbn in Hf. lia.
  - apply IH. intros a b Hab. specialize (Hf (String c a) b). cbn [String.length] in Hf.
    apply le_S_n, Hf. change (String c (pre +:+ needle +:+ t) = String c (a +:+ needle +:+ b)). by rewrite Hab.
Qed.

Lemma strstr_found needle s u :
  strstr needle s = Some u → ∃ pre t, s = (pre +:+ needle +:+ t)%string ∧ u = (needle +:+ t)%string ∧ first_at needle pre t.
Proof.
  induction s as [|c s IH]; cbn [strstr]; destruct (String.prefix needle _) eqn:Hp; intros [= <-] || intros Hu.
  1,2: apply prefix_rest in Hp as [t Ht]; exists "", t; split_and!; try done; intros a b _; cbn; lia.
  destruct (IH Hu) as (pre & t & -> & -> & Hf). exists (String c pre), t. split_and!; try done.
  intros [|d a] b Hab.
  - change (String c (pre +:+ needle +:+ t) = (needle +:+ b)%string) in Hab. rewrite Hab, prefix_app in Hp. done.
  - change (String c (pre +:+ needle +:+ t) = String d (a +:+ needle +:+ b)) in Hab.
    injection Hab as _ Hab. apply Hf in Hab. cbn [String.length]. lia.
Qed.

Lemma strstr_none needle s : strstr needle s = None ↔ ∀ a b, s ≠ (a +:+ needle +:+ b)%string.
Proof.
  split.
  - intros Hn a b ->. induction a as [|c a IH].
    + change ("" +:+ needle +:+ b)%string with (needle +:+ b)%string in Hn. pose proof (prefix_app needle b) as Hp.
      destruct (needle +:+ b)%string; cbn [strstr] in Hn; by rewrite Hp in Hn.
    + change (strstr needle (String c (a +:+ needle +:+ b)) = None) in Hn. cbn [strstr] in Hn.
      destruct (String.prefix _ _); [done|]. by apply IH.
  - intros Hn. destruct (strstr needle s) as [u|] eqn:Hs; [|done].
    apply strstr_found in Hs as (pre & t & -> & _). by destruct (Hn pre t).
Qed.

Lemma string_app_inj (a b c d : string) : String.length a = String.length c → (a +:+ b = c +:+ d)%string → a = c ∧ b = d.
Proof.
  revert c. induction a as [|x a IH]; intros [|y c] Hl; try done. cbn in Hl. injection Hl as Hl.
  change (String x (a +:+ b) = String y (c +:+ d) → String x a = String y c ∧ b = d). intros [= -> H].
  by destruct (IH c Hl H) as [-> ->].
Qed.

(** What is left of a value. *)
Definition no_dashes (v : string) : list ascii := filter (λ c, c ≠ "-"%char) (list_ascii_of_string v).

Lemma no_dashes_dash v : no_dashes (String "-" v) = no_dashes v.
Proof. done. Qed.

Lemma no_dashes_cons c v : c ≠ "-"%char → no_dashes (String c v) = c :: no_dashes v.
Proof. intros Hc. unfold no_dashes. cbn [list_ascii_of_string]. by rewrite filter_cons_True. Qed.

Lemma copy_value_fits v n i mid h :
  length mid = n → (i + length (no_dashes v) ≤ n)%nat →
  copy_value v n i mid h =
    Ret ((i + length (no_dashes v))%nat, take i mid ++ no_dashes v ++ drop (i + length (no_dashes v)) mid) h.
Proof.
  revert i mid. induction v as [|c v IH]; intros i mid Hn Hi; cbn [copy_value].
  { change (no_dashes "") with (@nil ascii). cbn [length app]. rewrite Nat.add_0_r, firstn_skipn. done. }
  destruct (decide (c = "-"%char)) as [->|Hc].
  - rewrite no_dashes_dash in *. destruct (Nat.ltb_spec i n) as [|He]; cbn [negb].
    + change (is_char "-" "-") with true. cbn. by apply IH.
    + assert (no_dashes v = []) as -> by (apply nil_length_inv; lia).
      cbn [length app]. by rewrite Nat.add_0_r, firstn_skipn.
  - rewrite no_dashes_cons in * by done. cbn [length] in *.
    rewrite (proj2 (Nat.ltb_lt i n)) by lia. cbn [negb]. unfold is_char. rewrite bool_decide_eq_false_2 by done.
    unfold store. rewrite (proj2 (Nat.ltb_lt _ _)) by lia. unfold mbind, M_bind, mret, M_ret.
    rewrite IH by (rewrite ?length_insert; lia). do 2 f_equal; [lia|].
    rewrite (take_S_r _ _ c) by (apply list_lookup_insert_eq; lia). rewrite take_insert_ge by lia.
    rewrite drop_insert_lt by lia. rewrite <- app_assoc. cbn [app]. do 3 f_equal. f_equal. lia.
Qed.

Lemma copy_value_full v n i mid h :
  length mid = n → (i ≤ n < i + length (no_dashes v))%nat → ∃ mid', copy_value v n i mid h = Ret (n, mid') h ∧ length mid' = n.
Proof.
  revert i mid. induction v as [|c v IH]; intros i mid Hn Hi; cbn [copy_value].
  { change (no_dashes "") with (@nil ascii) in Hi. cbn in Hi. lia. }
  destruct (Nat.ltb_spec i n) as [Hlt|He]; cbn [negb]; [|exists mid; split; [|done]; by replace i with n by lia].
  destruct (decide (c = "-"%char)) as [->|Hc].
  - rewrite no_dashes_dash in Hi. change (is_char "-" "-") with true. cbn. by apply IH.
  - rewrite no_dashes_cons in Hi by done. cbn [length] in Hi. unfold is_char. rewrite bool_decide_eq_false_2 by done.
    unfold store. rewrite (proj2 (Nat.ltb_lt _ _)) by lia. unfold mbind, M_bind, mret, M_ret.
    apply IH; rewrite ?length_insert; lia.
Qed.

(** ** The kernel command line *)

(** [v] is the value of the first setting of the key in the text: it ends at a space,
    at a newline or with the text. *)
Definition holds_value (s v : string) : Prop :=
  ∃ pre rest, (s = pre +:+ (KERNEL_CMDLINE_KEY +:+ "=") +:+ v +:+ rest)%string
    ∧ first_at (KERNEL_CMDLINE_KEY +:+ "=") pre (v +:+ rest)
    ∧ str_none value_end v
    ∧ (rest = "" ∨ ∃ c r, rest = String c r ∧ value_end c = true).

(** What the program sees of a command line. *)
Definition seen (cmdline : string) : string := cut_nul (take_bytes (KERNEL_CMDLINE_MAX_LEN - 1) cmdline).
Definition value_read (h : host) (v : string) : Prop := holds_value (seen (h_cmdline h)) v.
Definition key_missing (h : host) : Prop := ∀ a b, seen (h_cmdline h) ≠ (a +:+ (KERNEL_CMDLINE_KEY +:+ "=") +:+ b)%string.

Lemma span_value v rest :
  str_none value_end v → (rest = "" ∨ ∃ c r, rest = String c r ∧ value_end c = true) →
  fst (span (λ c, negb (value_end c)) (v +:+ rest)) = v.
Proof.
  intros Hv Hr. induction v as [|c v IH].
  - destruct Hr as [->|(c & r & -> & Hc)]; [done|]. change ("" +:+ String c r)%string with (String c r). cbn [span]. by rewrite Hc.
  - apply str_none_cons in Hv as [Hc Hv]. change (String c v +:+ rest)%string with (String c (v +:+ rest)).
    cbn [span]. rewrite Hc. cbn [negb]. specialize (IH Hv). destruct (span _ _) as [m r]. cbn in *. by rewrite IH.
Qed.

Lemma cmdline_cases s : (∃ v, holds_value s v) ∨ ∀ a b, s ≠ (a +:+ (KERNEL_CMDLINE_KEY +:+ "=") +:+ b)%string.
Proof.
  destruct (strstr (KERNEL_CMDLINE_KEY +:+ "=") s) as [u|] eqn:Hs; [left|by right; apply strstr_none].
  apply strstr_found in Hs as (pre & t & -> & _ & Hf).
  destruct (span (λ c, negb (value_end c)) t) as [v rest] eqn:Hp. exists v, pre, rest.
  destruct (span_split _ _ _ _ Hp) as [-> Hv]. split_and!; [done|done| |].
  - intros c Hc. destruct (value_end c) eqn:E; [|done]. rewrite Hv in Hc; [done|]. by rewrite E.
  - destruct rest as [|c r]; [by left|]. right. exists c, r. split; [done|].
    clear Hf Hv. revert Hp. generalize (v +:+ String c r)%string as t. intros t. revert v.
    induction t as [|d t IH]; intros v; cbn [span]; [done|]. destruct (value_end d) eqn:E; cbn [negb].
    + by intros [= _ <- _].
    + destruct (span _ t) as [m r']. intros [= _ ->]. by eapply IH.
Qed.

Lemma value_unique s v v' : holds_value s v → holds_value s v' → v = v'.
Proof.
  intros (pre & rest & He & Hf & Hv & Hr) (pre' & rest' & He' & Hf' & Hv' & Hr').
  assert (pre = pre' ∧ v +:+ rest = v' +:+ rest')%string as [_ Hs].
  { pose proof (Hf pre' (v' +:+ rest') ltac:(by rewrite <- He, He')) as H1.
    pose proof (Hf' pre (v +:+ rest) ltac:(by rewrite <- He', He)) as H2.
    rewrite He in He'. apply string_app_inj in He' as [-> Hx]; [|lia]. by apply string_app_inj in Hx as [_ Hx]. }
  by rewrite <- (span_value v rest), Hs, span_value.
Qed.

Lemma scan_missing s mid n h :
  (∀ a b, s ≠ (a +:+ (KERNEL_CMDLINE_KEY +:+ "=") +:+ b)%string) → scan_cmdline s mid n h = Ret (-2, mid) h.
Proof. intros Hn. unfold scan_cmdline. by rewrite (proj2 (strstr_none _ _) Hn). Qed.

(** The value is copied without its dashes, up to and with the last element of the
    array; the end then has no place. *)
Lemma scan_value s v mid n h :
  holds_value s v → length mid = n →
  scan_cmdline s mid n h =
    if (length (no_dashes v) <? n)%nat
    then Ret (0, no_dashes v ++ chr 0 :: drop (S (length (no_dashes v))) mid) h else Undef.
Proof.
  intros (pre & rest & -> & Hf & Hv & Hr) Hn. unfold scan_cmdline. rewrite strstr_first by done.
  change ((KERNEL_CMDLINE_KEY +:+ "=") +:+ v +:+ rest)%string with (KERNEL_CMDLINE_KEY +:+ String "=" (v +:+ rest))%string.
  rewrite (str_break_app _ KERNEL_CMDLINE_KEY) by done. rewrite span_value by done. unfold mbind, M_bind.
  destruct (Nat.ltb_spec (length (no_dashes v)) n) as [Hlt|Hge].
  - rewrite copy_value_fits by (try done; lia). rewrite take_0; cbn [Nat.add app]. unfold store.
    rewrite (proj2 (Nat.ltb_lt _ _)) by (rewrite length_app, length_drop; lia).
    unfold mret, M_ret. rewrite insert_app_r_alt, Nat.sub_diag by lia. do 3 f_equal.
    destruct (drop (length (no_dashes v)) mid) as [|c r] eqn:Ed; [apply (f_equal length) in Ed; rewrite length_drop in Ed; cbn in Ed; lia|].
    cbn. f_equal. apply (f_equal (drop 1)) in Ed. rewrite drop_drop in Ed. by rewrite Nat.add_1_r in Ed.
  - assert (∃ mid', copy_value v n 0 mid h = Ret (n, mid') h ∧ length mid' = n) as (mid' & -> & Hl).
    { destruct (decide (length (no_dashes v) = n)) as [He|]; [|apply copy_value_full; try done; lia].
      rewrite copy_value_fits by (try done; lia). rewrite take_0; cbn [Nat.add app]. rewrite He. eexists. split; [done|].
      rewrite length_app, length_drop. lia. }
    unfold store. rewrite (proj2 (Nat.ltb_ge _ _)) by lia. done.
Qed.

Lemma cut_nul_none s : str_has (chr 0) (cut_nul s) = false.
Proof.
  induction s as [|c s IH]; cbn [cut_nul]; [done|]. destruct (Ascii.eqb_spec c (chr 0)) as [|Hc]; [done|].
  rewrite str_has_cons, IH, orb_false_r. by apply bool_decide_eq_false.
Qed.

(** A value that was read holds no zero byte, so the array holds it as a string. *)
Lemma value_text h v r : value_read h v → text_of (no_dashes v ++ chr 0 :: r) = Some (string_of_list_ascii (no_dashes v)).
Proof.
  intros (pre & rest & Hs & _). apply text_of_app. unfold no_dashes. rewrite list_elem_of_filter. intros [_ He].
  pose proof (cut_nul_none (take_bytes (KERNEL_CMDLINE_MAX_LEN - 1) (h_cmdline h))) as Hc.
  change (cut_nul _) with (seen (h_cmdline h)) in Hc. rewrite Hs in Hc.
  rewrite !str_has_app, !orb_false_iff in Hc. destruct Hc as (_ & _ & Hc & _). by apply str_has_elem in Hc.
Qed.

(** ** Physical memory *)

Lemma mem_at_bytes mem a n : bytes (mem_at mem a n) = Z.of_nat n.
Proof. unfold bytes. revert a. induction n as [|n IH]; intros a; cbn [mem_at String.length]; [done|]. specialize (IH (a + 1)). lia. Qed.

Lemma substring_mem mem a k n : String.substring k n (mem_at mem a (k + n)) = mem_at mem (a + Z.of_nat k) n.
Proof.
  revert a. induction k as [|k IH]; intros a.
  - rewrite Z.add_0_r. cbn [Nat.add]. revert a. induction n as [|n IH]; intros a; [done|]. cbn. by rewrite IH.
  - cbn [Nat.add mem_at String.substring]. rewrite IH. f_equal. lia.
Qed.

(** Whatever the size of a page, the bytes at the address are read. *)
Lemma wp_readPhysMem addr len h Q :
  0 < h_page h → 0 ≤ addr → (∀ r l, r = None ∨ r = Some (mem_at (h_mem h) addr len) →
    (quiet h → r ≠ None ∧ l = []) → Q r (set_faults l h)) →
  wp (crinitReadPhysMem addr len) Q h.
Proof.
  intros Hp Ha HQ. unfold crinitReadPhysMem. wp_steps. rewrite (proj2 (Z.eqb_neq _ _)) by lia.
  assert (0 ≤ addr - addr / h_page h * h_page h) as Hd by (pose proof (Z.mul_div_le addr (h_page h) Hp); lia).
  unfold wp, mbind, M_bind, fallible. rewrite mem_at_bytes, Z2Nat.id by lia.
  rewrite (proj2 (Z.ltb_ge _ _)) by lia. rewrite Z.ltb_irrefl. cbn [orb].
  replace (Z.to_nat (addr - addr / h_page h * h_page h + Z.of_nat len))
    with (Z.to_nat (addr - addr / h_page h * h_page h) + len)%nat by lia.
  rewrite substring_mem. replace (_ + Z.of_nat (Z.to_nat _)) with addr by lia.
  destruct h as [c m p f o fs]. unfold quiet in *. cbn in *.
  destruct fs as [|[] [|[] fs]]; cbn; first [by apply (HQ _ []); [auto|]|by apply HQ; auto].
Qed.

Definition MIDR1 : Z := S32G_SIUL21_BASE + S32G_SIUL21_OFFSET_MIDR1.
Definition UID : Z := S32G_OCOTP_BASE + S32G_OCOTP_OFFSET_UID.

(** The upper half of the register of the MCU names the family. *)
Definition is_s32 (mem : Z → ascii) : Prop := of_byte (mem (MIDR1 + 2)) = 0x20 ∧ of_byte (mem (MIDR1 + 3)) = 0x4C.

Lemma of_byte_range c : 0 ≤ of_byte c < 256.
Proof. unfold of_byte. pose proof (N_ascii_bounded c). lia. Qed.

Lemma s32_register mem :
  Z.land (le_value (mem_at mem MIDR1 4)) S32G_SIUL21_MCUID_MASK = S32G_SIUL21_MCUID_VAL ↔ is_s32 mem.
Proof.
  unfold is_s32. cbn [mem_at le_value]. rewrite <- !(Z.add_assoc MIDR1). change (1 + 1) with 2. change (2 + 1) with 3.
  pose proof (of_byte_range (mem MIDR1)). pose proof (of_byte_range (mem (MIDR1 + 1))).
  pose proof (of_byte_range (mem (MIDR1 + 2))). pose proof (of_byte_range (mem (MIDR1 + 3))).
  set (a := of_byte (mem MIDR1)) in *. set (b := of_byte (mem (MIDR1 + 1))) in *.
  set (c := of_byte (mem (MIDR1 + 2))) in *. set (d := of_byte (mem (MIDR1 + 3))) in *.
  replace (a + 256 * (b + 256 * (c + 256 * (d + 256 * 0)))) with (65536 * (c + 256 * d) + (a + 256 * b)) by lia.
  assert (Z.land (65536 * (c + 256 * d) + (a + 256 * b)) S32G_SIUL21_MCUID_MASK = 65536 * (c + 256 * d)) as ->.
  { apply Z.bits_inj'. intros n Hn. change S32G_SIUL21_MCUID_MASK with (Z.shiftl (Z.ones 16) 16).
    change 65536 with (2 ^ 16). rewrite Z.land_spec, Z.shiftl_spec, Z.testbit_ones by lia.
    destruct (Z.ltb_spec (n - 16) 16).
    - destruct (Z.leb_spec 0 (n - 16)); cbn.
      + rewrite andb_true_r. rewrite !(Z.mul_comm (2 ^ 16)).
        replace n with (16 + (n - 16)) by lia. rewrite Z.mul_pow2_bits_add, (Z.add_comm 16 (n - 16)) by lia.
        rewrite <- Z.shiftr_spec, Z.shiftr_div_pow2, Z.div_add_l, Z.div_small by lia. by rewrite Z.add_0_r.
      + rewrite andb_false_r. rewrite (Z.mul_comm (2 ^ 16)). by rewrite Z.mul_pow2_bits_low by lia.
    - rewrite (proj2 (Z.leb_le 0 (n - 16))) by lia. cbn. rewrite andb_false_r. symmetry.
      apply Z.bits_above_log2; [lia|]. destruct (Z.eq_dec (c + 256 * d) 0) as [->|]; [change (Z.log2 (2 ^ 16 * 0)) with 0; lia|].
      apply Z.log2_lt_pow2; [lia|]. apply (Z.lt_le_trans _ (2 ^ 32)); [lia|]. apply Z.pow_le_mono_r; lia. }
  unfold S32G_SIUL21_MCUID_VAL. lia.
Qed.

(** ** The id of a chip *)

Lemma hex_text_length s : String.length (hex_text s) = (2 * String.length s)%nat.
Proof. induction s as [|c s IH]; cbn; [done|]. rewrite IH. lia. Qed.

Lemma of_byte_inj c d : of_byte c = of_byte d → c = d.
Proof. unfold of_byte. intros H%N2Z.inj. by rewrite <- (ascii_N_embedding c), <- (ascii_N_embedding d), H. Qed.

Lemma hex_digit_inj x y : 0 ≤ x < 16 → 0 ≤ y < 16 → hex_digit x = hex_digit y → x = y.
Proof. intros Hx Hy H%(f_equal digit_val). by rewrite !hex_val in H. Qed.

Lemma hex_text_inj s t : hex_text s = hex_text t → s = t.
Proof.
  revert t. induction s as [|c s IH]; intros [|d t]; cbn; try done. intros [= H1 H2 ->%IH]. f_equal. apply of_byte_inj.
  pose proof (of_byte_range c). pose proof (of_byte_range d).
  apply hex_digit_inj in H1; [|split; [apply Z.div_pos; lia|apply Z.div_lt_upper_bound; lia]..].
  apply hex_digit_inj in H2; [|apply Z.mod_pos_bound; lia..].
  rewrite (Z.div_mod (of_byte c) 16), (Z.div_mod (of_byte d) 16), H1, H2; lia.
Qed.

Lemma byte_of_of c z : byte_of (of_byte c + 256 * z) = c.
Proof. apply of_byte_inj. rewrite of_byte_of, Z.mul_comm, Z.mod_add by lia. apply Z.mod_small, of_byte_range. Qed.

Lemma le_bytes_value s : le_bytes (String.length s) (le_value s) = s.
Proof.
  induction s as [|c s IH]; cbn [String.length le_bytes le_value]; [done|]. rewrite byte_of_of. f_equal.
  pose proof (of_byte_range c). rewrite Z.mul_comm, Z.div_add, Z.div_small by lia. apply IH.
Qed.

Lemma mem_at_length mem a n : String.length (mem_at mem a n) = n.
Proof. pose proof (mem_at_bytes mem a n). unfold bytes in *. lia. Qed.

(** The bytes of the unique ID as they lie in memory, in hexadecimal, twice. *)
Definition s32_id (mem : Z → ascii) : string := hex_text (mem_at mem UID 8) +:+ hex_text (mem_at mem UID 8).

(** Chips with different unique IDs have different machine ids. *)
Lemma s32_id_inj mem mem' : s32_id mem = s32_id mem' → ∀ k, 0 ≤ k < 8 → mem (UID + k) = mem' (UID + k).
Proof.
  unfold s32_id. intros H.
  assert (hex_text (mem_at mem UID 8) = hex_text (mem_at mem' UID 8)) as Hh.
  { assert (∀ m, take_bytes 16 (s32_id m) = hex_text (mem_at m UID 8)) as Ht; [|by rewrite <- !Ht; f_equal].
    intros m. unfold s32_id. replace 16 with (bytes (hex_text (mem_at m UID 8))); [apply take_bytes_app|].
    unfold bytes. by rewrite hex_text_length, mem_at_length. }
  apply hex_text_inj in Hh. cbn [mem_at] in Hh. rewrite <- !Z.add_assoc in Hh. cbn [Z.add Pos.add Pos.succ] in Hh.
  injection Hh as H0 H1 H2 H3 H4 H5 H6 H7. intros k Hk.
  assert (k = 0 ∨ k = 1 ∨ k = 2 ∨ k = 3 ∨ k = 4 ∨ k = 5 ∨ k = 6 ∨ k = 7) as Hc by lia.
  by destruct Hc as [->|[->|[->|[->|[->|[->|[->| ->]]]]]]]; rewrite ?Z.add_0_r.
Qed.

Lemma put_text_fits t i b h :
  (i + String.length t < length b)%nat →
  put_text t i b h = Ret (take i b ++ list_ascii_of_string t ++ chr 0 :: drop (S (i + String.length t)) b) h.
Proof.
  revert i b. induction t as [|c t IH]; intros i b Hi; cbn [put_text String.length] in *; unfold store.
  - rewrite (proj2 (Nat.ltb_lt _ _)) by lia. unfold mret, M_ret. f_equal.
    rewrite insert_take_drop by lia. cbn. by rewrite Nat.add_0_r.
  - rewrite (proj2 (Nat.ltb_lt _ _)) by lia. unfold mbind, M_bind, mret, M_ret. rewrite IH by (rewrite length_insert; lia).
    f_equal. rewrite (take_S_r _ _ c) by (apply list_lookup_insert_eq; lia).
    rewrite take_insert_ge, drop_insert_lt by lia. rewrite <- app_assoc. cbn. do 4 f_equal. f_equal. lia.
Qed.

Lemma s32_mid mem mid n h :
  length mid = n → (32 < n)%nat →
  crinitS32UidToMid mid n (le_value (mem_at mem UID 8)) h =
    Ret (32, list_ascii_of_string (s32_id mem) ++ chr 0 :: drop 33 mid) h.
Proof.
  intros Hn Hl. unfold crinitS32UidToMid, snprintf. pose proof (le_bytes_value (mem_at mem UID 8)) as Hb.
  rewrite mem_at_length in Hb. rewrite Hb. fold (s32_id mem).
  assert (String.length (s32_id mem) = 32%nat) as Hlen by (unfold s32_id; by rewrite string_length_app, !hex_text_length, mem_at_length).
  rewrite (proj2 (Nat.eqb_neq n 0)) by lia. rewrite take_bytes_all by (unfold bytes; rewrite Hlen; lia).
  unfold mbind, M_bind. rewrite put_text_fits by (rewrite Hlen; lia). rewrite Hlen. unfold bytes. by rewrite Hlen.
Qed.

(** ** The program *)

Definition newline_end (id : string) : string := id +:+ str1 c_newline.
Definition value_id (v : string) : string := string_of_list_ascii (no_dashes v).

(** Where an id may come from. *)
Definition id_source (aarch64 : bool) (h : host) (id : string) : Prop :=
  (∃ v, value_read h v ∧ id = value_id v) ∨ (aarch64 = true ∧ is_s32 (h_mem h) ∧ id = s32_id (h_mem h)).

(** What was not touched. *)
Definition same_host (h h' : host) : Prop := h_cmdline h' = h_cmdline h ∧ h_mem h' = h_mem h ∧ h_page h' = h_page h.

Definition file_in (l : list (option string)) (h : host) : Prop := h_mid h ∈ l.

Lemma s32_text mem r : text_of (list_ascii_of_string (s32_id mem) ++ chr 0 :: r) = Some (s32_id mem).
Proof.
  rewrite text_of_app, string_of_list_ascii_of_string; [done|]. apply str_has_elem. unfold s32_id.
  rewrite str_has_app. assert (∀ s, str_has (chr 0) (hex_text s) = false) as ->; [|done].
  intros s. induction s as [|c s IH]; [done|]. cbn [hex_text]. rewrite str_has_app, IH, orb_false_r. unfold hex2.
  assert (16 <= digit_val (chr 0)) as Hz by (vm_compute; discriminate).
  assert (∀ d, 0 ≤ d < 16 → hex_digit d ≠ chr 0) as Hd by (intros d Hd He%(f_equal digit_val); rewrite hex_val in He; lia).
  pose proof (of_byte_range c). rewrite !str_has_cons.
  rewrite !bool_decide_eq_false_2; [done|..]; apply Hd; [apply Z.mod_pos_bound; lia|].
  split; [apply Z.div_pos; lia|apply Z.div_lt_upper_bound; lia].
Qed.

Lemma wp_write_id machId id h (Q : Z → host → Prop) :
  text_of machId = Some id →
  (∀ o f l r, (r = EXIT_FAILURE ∧ (f = h_mid h ∨ f = Some "") ∨ r = EXIT_SUCCESS ∧ (f = Some "" ∨ f = Some (newline_end id))) →
     (quiet h → r = EXIT_SUCCESS ∧ f = Some (newline_end id) ∧ l = []) →
     Q r (mkHost (h_cmdline h) (h_mem h) (h_page h) f o l)) →
  wp (write_machine_id machId) Q h.
Proof.
  intros Ht HQ. unfold write_machine_id, printf. rewrite Ht. destruct h as [c m p f o fs]. unfold quiet in HQ. cbn in HQ.
  unfold wp, mbind, M_bind, fallible, mret, M_ret, mmodify, newline_end in *.
  destruct fs as [|[] [|[] [|[] fs]]]; cbn; apply HQ; cbn; auto; try done.
Qed.

(** A host after output and failing calls. *)
Definition drift (o : string) (l : list bool) (h : host) : host :=
  mkHost (h_cmdline h) (h_mem h) (h_page h) (h_mid h) o l.

Lemma wp_s32 aarch64 machId h (Q : option (list ascii) → host → Prop) :
  length machId = S MID_STR_LEN → 0 < h_page h →
  (∀ o l, (quiet h → ¬ (aarch64 = true ∧ is_s32 (h_mem h)) ∧ l = []) → Q None (drift o l h)) →
  (∀ o l, aarch64 = true → is_s32 (h_mem h) → (quiet h → l = []) →
     Q (Some (list_ascii_of_string (s32_id (h_mem h)) ++ chr 0 :: drop 33 machId)) (drift o l h)) →
  wp (mid_from_s32 aarch64 machId) Q h.
Proof.
  intros Hlen Hp HN HS. unfold mid_from_s32, crinitCheckS32, crinitReadS32Uid, printf. destruct aarch64; cbn [negb].
  2:{ apply wp_ret. specialize (HN (h_out h) (h_faults h)). destruct h. apply HN. intros Hq. split; [by intros [[=] _]|done]. }
  wp_steps. apply wp_readPhysMem; [done|vm_compute; discriminate|]. intros r l Hr Hql. wp_steps.
  unfold quiet in *. cbn in Hql.
  destruct Hr as [->| ->]; cbn [fmap option_fmap option_map].
  { wp_steps. apply HN. intros Hq. by destruct (Hql Hq). }
  change (h_mem (set_out _ h)) with (h_mem h).
  destruct (Z.eqb_spec (Z.land (le_value (mem_at (h_mem h) MIDR1 4)) S32G_SIUL21_MCUID_MASK) S32G_SIUL21_MCUID_VAL) as [Hs|Hs];
    change (S32G_SIUL21_BASE + S32G_SIUL21_OFFSET_MIDR1) with MIDR1.
  - rewrite (proj2 (Z.eqb_eq _ _) Hs). apply s32_register in Hs. wp_steps.
    apply wp_readPhysMem; [done|vm_compute; discriminate|]. intros r l' Hr Hql'. wp_steps. unfold quiet in Hql'. cbn in Hql'.
    destruct Hr as [->| ->]; cbn [fmap option_fmap option_map].
    + wp_steps. apply HN. intros Hq. destruct (Hql Hq) as [_ ->]. by destruct (Hql' eq_refl).
    + change (S32G_OCOTP_BASE + S32G_OCOTP_OFFSET_UID) with UID. wp_step. unfold wp at 1. cbn [h_mem set_out set_faults faulty_host].
      rewrite s32_mid by (done || unfold MID_STR_LEN; lia). wp_steps. apply HS; [done|done|].
      intros Hq. destruct (Hql Hq) as [_ ->]. by destruct (Hql' eq_refl).
  - rewrite (proj2 (Z.eqb_neq _ _) Hs). wp_steps. apply HN. intros Hq. destruct (Hql Hq) as [_ ->]. split; [|done].
    intros [_ Hx]. by apply s32_register in Hx.
Qed.

Lemma wp_getMid b n h (Q : Z * list ascii → host → Prop) :
  (∀ l, ¬ quiet h → Q (-1, b) (set_faults l h)) →
  (∀ l, (quiet h → l = []) → wp (scan_cmdline (seen (h_cmdline h)) b n) Q (set_faults l h)) →
  wp (crinitGetMidKernelCmdLine b n) Q h.
Proof.
  intros HE HS. unfold crinitGetMidKernelCmdLine, wp, mbind, M_bind, fallible, quiet in *. destruct h as [c m p f o fs]. cbn in *.
  destruct fs as [|[] [|[] fs]]; cbn; first [by apply HE|by apply HS].
Qed.

Lemma main_run aarch64 h (Q : Z → host → Prop) :
  0 < h_page h → (∀ v, value_read h v → (length (no_dashes v) ≤ MID_STR_LEN)%nat) →
  (∀ o l, (quiet h → key_missing h ∧ ¬ (aarch64 = true ∧ is_s32 (h_mem h)) ∧ l = []) → Q EXIT_FAILURE (drift o l h)) →
  (∀ id o l machId, text_of machId = Some id → id_source aarch64 h id →
     (quiet h → (∀ v, value_read h v → id = value_id v) ∧ l = []) → wp (write_machine_id machId) Q (drift o l h)) →
  wp (main aarch64 1) Q h.
Proof.
  intros Hp Hfit HF HW. unfold main, printf. cbn [Z.eqb Pos.eqb negb].
  set (b := repeat (chr 0) (S MID_STR_LEN)). assert (length b = S MID_STR_LEN) as Hb by done. clearbody b.
  (* not found on the command line *)
  assert (∀ o l, (quiet h → key_missing h ∧ l = []) →
    wp (mid_from_s32 aarch64 b) (λ id, wp match id with None => mret EXIT_FAILURE | Some machId => write_machine_id machId end Q) (drift o l h)) as Hnot.
  { intros o l Hq. apply wp_s32; [done|done|..]; unfold quiet in *; cbn in *.
    - intros o' l' Hn. apply wp_ret, HF. intros [Hk ->]%Hq. destruct (Hn eq_refl). done.
    - intros o' l' Ha Hs Hl. eapply HW; [apply s32_text|by right|]. intros [Hk ->]%Hq. split; [|by apply Hl].
      intros v (pre & rest & He & _). by apply Hk in He. }
  wp_steps. apply wp_getMid.
  { intros l Hq. cbn [Z.eqb]. wp_steps. apply Hnot. done. }
  intros l Hl. unfold wp at 1. cbn [h_cmdline set_out]. destruct (cmdline_cases (seen (h_cmdline h))) as [[v Hv]|Hk].
  - rewrite (scan_value _ v) by done. rewrite (proj2 (Nat.ltb_lt _ _)) by (specialize (Hfit v Hv); lia).
    cbn [Z.eqb]. wp_steps. eapply HW; [by apply (value_text h)|left; by exists v|]. intros Hq. split; [|by apply Hl].
    intros v' Hv'. unfold value_id. by rewrite (value_unique _ _ _ Hv' Hv).
  - rewrite scan_missing by done. cbn [Z.eqb]. wp_steps. apply Hnot. intros Hq. split; [done|by apply Hl].
Qed.

(** Whatever calls fail, with a value that fits the program returns; it has either
    failed and left the file alone or empty, or it succeeded and the file is empty or
    holds the value of the command line or the id of the chip. *)
Theorem machine_id_gen_safe aarch64 h :
  0 < h_page h → (∀ v, value_read h v → (length (no_dashes v) ≤ MID_STR_LEN)%nat) →
  wp (main aarch64 1) (λ r h', same_host h h' ∧
    (r = EXIT_FAILURE ∧ file_in [h_mid h; Some ""] h' ∨
     r = EXIT_SUCCESS ∧ ∃ id, id_source aarch64 h id ∧ file_in [Some ""; Some (newline_end id)] h')) h.
Proof.
  intros Hp Hfit. apply main_run; [done|done|..].
  - intros o l _. split; [done|]. left. split; [done|]. by left.
  - intros id o l machId Ht Hid _. eapply wp_write_id; [done|]. intros o' f l' r Hr _. split; [done|]. unfold file_in. cbn in *.
    destruct Hr as [[-> Hf]|[-> Hf]]; [left; split; [done|]|right; split; [done|exists id; split; [done|]]]; set_solver.
Qed.

(** When no call fails, the value of the command line is written without its dashes
    whatever the hardware is; without one, the id of an S32G; else the program fails and
    leaves the file alone. *)
Lemma main_quiet aarch64 h :
  quiet h → 0 < h_page h → (∀ v, value_read h v → (length (no_dashes v) ≤ MID_STR_LEN)%nat) →
  wp (main aarch64 1) (λ r h', quiet h' ∧
    (r = EXIT_FAILURE ∧ key_missing h ∧ ¬ (aarch64 = true ∧ is_s32 (h_mem h)) ∧ h_mid h' = h_mid h ∨
     r = EXIT_SUCCESS ∧ ∃ id, id_source aarch64 h id ∧ (∀ v, value_read h v → id = value_id v) ∧ h_mid h' = Some (newline_end id))) h.
Proof.
  intros Hq Hp Hfit. apply main_run; [done|done|..].
  - intros o l Hl. destruct (Hl Hq) as (Hk & Hs & ->). split; [done|]. by left.
  - intros id o l machId Ht Hid Hv. destruct (Hv Hq) as [Hv' ->]. eapply wp_write_id; [done|]. intros o' f l' r _ Hf.
    destruct (Hf ltac:(done)) as (-> & -> & ->). split; [done|]. right. split; [done|]. by exists id.
Qed.

(** A value that is too long by one is written behind the array. *)
Lemma long_value_undef aarch64 h v :
  quiet h → value_read h v → (MID_STR_LEN < length (no_dashes v))%nat → main aarch64 1 h = Undef.
Proof.
  intros Hq Hv Hl. unfold main, printf. cbn [Z.eqb Pos.eqb negb]. destruct h as [c m p f o fs]. unfold quiet in Hq. cbn in Hq. subst fs.
  unfold crinitGetMidKernelCmdLine, mbind, M_bind, mmodify, fallible, mget. cbn [faults faulty_host h_faults h_cmdline set_out h_out].
  fold (seen c). rewrite (scan_value (seen c) v) by done. by rewrite (proj2 (Nat.ltb_ge _ _)).
Qed.

(** *** What elos is told *)

Lemma up_to_space_word n id :
  (String.length id ≤ n)%nat → str_none is_space id → up_to_space n (newline_end id) = id.
Proof.
  unfold newline_end. revert n. induction id as [|c id IH]; intros n Hn Hs.
  { destruct n; [done|]. done. }
  apply str_none_cons in Hs as [Hc Hs]. cbn [String.length] in Hn. destruct n as [|n]; [lia|].
  change (String c id +:+ str1 c_newline)%string with (String c (id +:+ str1 c_newline)). cbn [up_to_space].
  rewrite Hc, IH by (done || lia). done.
Qed.

(** The id that elos finds in a file of the program. *)
Lemma fetched_back {S : Type} `{LogServices S} (s : S) id :
  machine_id_file s = Ret (Some (newline_end id)) s →
  (0 < String.length id ≤ CRINIT_MACHINE_ID_LENGTH)%nat → str_none is_space id →
  crinitFetchHWId s = Ret (Some id) s.
Proof.
  intros Hf Hl Hs. unfold crinitFetchHWId, mbind, M_bind. rewrite Hf.
  assert (snd (span is_space (newline_end id)) = newline_end id) as ->.
  { unfold newline_end. destruct id as [|c id]; cbn in Hl; [lia|]. apply str_none_cons in Hs as [Hc _].
    change (String c id +:+ str1 c_newline)%string with (String c (id +:+ str1 c_newline)). cbn [span]. by rewrite Hc. }
  rewrite up_to_space_word by (done || lia). destruct id as [|c id]; [cbn in Hl; lia|done].
Qed.

(** What the transmitter of eloslog.c finds in a file with this text, in any state. *)
Definition elos_finds (text id : string) : Prop :=
  ∀ (S : Type) `{LogServices S} (s : S),
    machine_id_file s = Ret (Some text) s → crinitFetchHWId s = Ret (Some id) s.

Definition elos_word (id : string) : Prop := (0 < String.length id ≤ CRINIT_MACHINE_ID_LENGTH)%nat ∧ str_none is_space id.

Lemma word_found id : elos_word id → elos_finds (newline_end id) id.
Proof. intros [Hl Hs] S F C T E L s Hf. by apply fetched_back. Qed.

Lemma hex_digit_no_space d : 0 ≤ d < 16 → is_space (hex_digit d) = false.
Proof.
  intros Hd. assert (d ∈ seqZ 0 16) as He by (rewrite elem_of_seqZ; lia).
  assert (Forall (λ d, is_space (hex_digit d) = false) (seqZ 0 16)) as Hall by (repeat constructor).
  rewrite Forall_forall in Hall. by apply Hall.
Qed.

Lemma s32_id_word mem : elos_word (s32_id mem).
Proof.
  split.
  - unfold s32_id. rewrite string_length_app, !hex_text_length, mem_at_length. unfold CRINIT_MACHINE_ID_LENGTH. lia.
  - assert (∀ s, str_none is_space (hex_text s)) as Hh.
    { intros s. induction s as [|c s IH]; [done|]. cbn [hex_text hex2]. pose proof (of_byte_range c).
      change (str_none is_space (String (hex_digit (of_byte c / 16)) (String (hex_digit (of_byte c mod 16)) (hex_text s)))).
      apply str_none_cons. split; [apply hex_digit_no_space; split; [apply Z.div_pos; lia|apply Z.div_lt_upper_bound; lia]|].
      apply str_none_cons. split; [apply hex_digit_no_space, Z.mod_pos_bound; lia|done]. }
    intros c. unfold s32_id. rewrite str_has_app. intros [Hc|Hc]%orb_true_iff; by apply (Hh _ c Hc).
Qed.


(** ** Examples *)

Definition demo_host (cmdline : string) (fs : list bool) : host :=
  mkHost cmdline (λ a, if a =? MIDR1 + 3 then chr 0x4C else if a =? MIDR1 + 2 then chr 0x20 else chr 0xA5) 4096 None "" fs.
Definition uuid_cmdline : string := "ro systemd.machine_id=01234567-89ab-cdef-0123-456789abcdef quiet".

(** A transmitter whose machine id file has this text. *)
Definition demo_log (text : option string) : LogServices elosd := {|
  safuRingBufferInitialize := λ _, mret 0;
  safuRingBufferWrite := λ _, mret 0;
  safuRingBufferRead := mret (0, []);
  safuVecIterate_goes_on := λ r, r =? 0;
  elosEventPublish := λ _, mret 0;
  clock_realtime := mret None;
  machine_id_file := mret text;
|}.

Lemma found_value s v rest pre :
  strstr (KERNEL_CMDLINE_KEY +:+ "=") s = Some ((KERNEL_CMDLINE_KEY +:+ "=") +:+ v +:+ rest)%string →
  s = (pre +:+ (KERNEL_CMDLINE_KEY +:+ "=") +:+ v +:+ rest)%string →
  str_none value_end v → (rest = "" ∨ ∃ c r, rest = String c r ∧ value_end c = true) → holds_value s v.
Proof.
  intros Hs He Hv Hr. exists pre, rest. split_and!; try done.
  apply strstr_found in Hs as (pre' & t & He' & Ht & Hf). apply string_app_inj in Ht as [_ <-]; [|done].
  rewrite He in He'. assert (pre = pre') as ->; [|done].
  assert (String.length pre = String.length pre') as Hl by (apply (f_equal String.length) in He'; rewrite !string_length_app in He'; lia).
  by apply string_app_inj in He' as [-> _].
Qed.

Lemma uuid_value_read fs : value_read (demo_host uuid_cmdline fs) "01234567-89ab-cdef-0123-456789abcdef".
Proof.
  apply (found_value _ _ " quiet" "ro "); [by vm_compute|by vm_compute|by apply str_none_forallb|].
  right. by exists " "%char, "quiet".
Qed.


(** A command line without the key on an S32G. *)
Lemma s32_demo :
  match main true 1 (demo_host "ro quiet" []) with
  | Ret r h' => r = EXIT_SUCCESS ∧ h_mid h' = Some (newline_end "a5a5a5a5a5a5a5a5a5a5a5a5a5a5a5a5")
  | _ => False
  end.
Proof. vm_compute. by split. Qed.

(** The text reaches the file only in fclose(): the program reports success and the id,
    and the file is empty. *)
Lemma lost_write :
  match main false 1 (demo_host uuid_cmdline [false; false; false; false; true]) with
  | Ret r h' => r = EXIT_SUCCESS ∧ h_mid h' = Some ""
  | _ => False
  end.
Proof. vm_compute. by split. Qed.

(** The key is found within another word. *)
Lemma key_inside_word :
  match main false 1 (demo_host "not-systemd.machine_id=1 systemd.machine_id=2" []) with
  | Ret r h' => r = EXIT_SUCCESS ∧ h_mid h' = Some (newline_end "1")
  | _ => False
  end.
Proof. vm_compute. by split. Qed.

(** An empty value is written, also on an S32G. *)
Lemma empty_value :
  match main true 1 (demo_host "systemd.machine_id= ro" []) with
  | Ret r h' => r = EXIT_SUCCESS ∧ h_mid h' = Some (newline_end "")
  | _ => False
  end.
Proof. vm_compute. by split. Qed.

(** 37 characters are one too many. *)
Lemma long_value_demo : main false 1 (demo_host "systemd.machine_id=0123456789012345678901234567890123456" []) = Undef.
Proof. by vm_compute. Qed.
